(* ===== verification/_CoqProject ===== *)
-Q . S2P
Prelude.v
Heap.v
Time.v
Hashtab.v
Sched.v
Jitterbuf.v
Udptl.v
Extension.v
Codec.v
FixedJb.v
AbstractJb.v
JbImpls.v
Iax2Ies.v
Smoother.v
Timing.v
Astobj2.v
Astobj2Search.v
Astobj2Clients.v
Astobj2Iter.v
PatternNode.v
Trie.v
TrieFind.v
TrieMatch.v
Event.v
EventSub.v
EventCache.v
DevState.v
DynStr.v
Vars.v
Subst.v
Contexts.v
ContextMatch.v
Dialplan.v
PbxRun.v
App.v
