(* ===== verification/Prelude.v ===== *)
(** * Asterisk 1.8: a verification library

    Asterisk is a telephone exchange written in C.  This library models, as
    functions and data of Rocq, the data structures and algorithms under its core
    (src/main), and proves them correct.

    ** The parts and the files

    - Prelude.v (this file): machine integers, C strings, outcomes of calls, record
      update, total orders, tactics.  Everything requires it.
    - Heap.v: [main/heap.c], the priority queue.  [ast_heap] is the array with its
      length and the index each stored object keeps of its own place; one definition
      per function ([ast_heap_push], [ast_heap_remove], [ast_heap_pop],
      [ast_heap_verify], ...).  Theorems: push, pop and remove keep the heap ordered
      and the indices exact and change the contents by exactly one element; the
      verifier accepts exactly the ordered heaps.
    - Time.v: [include/asterisk/time.h] and the time arithmetic of [main/utils.c].
      Theorems: [ast_tvadd], [ast_tvsub] and comparison are arithmetic on
      microseconds; [ast_tvdiff_ms] rounds down.
    - Hashtab.v: [main/hashtab.c].  Buckets are chained and also listed in [tlist];
      hash, comparison and resize policy are parameters with their laws.  Theorems:
      lookup, [ast_hashtab_insert_safe] and removal act as on a finite set without
      duplicates, also across resizes; the Java resize policy terminates
      (there is always a larger prime); a failed resize is harmless.
    - Sched.v: [main/sched.c] over Heap, Hashtab and Time.  The state has the heap,
      the table by id, the free list and the objects.  Theorems: adding and deleting
      refine an abstract set of pending events; [ast_sched_runq] runs due events in
      order and reschedules by the return value; [ast_sched_wait] waits for the
      soonest.
    - Jitterbuf.v: [main/jitterbuf.c], the adaptive jitter buffer, complete.
      Theorems: put and get conserve and order frames; the incremental tables of
      extreme delays equal tables recomputed from the history, for fewer than 2^31 calls,
      after which the pointer into the history overflows; the jitter estimate is a
      quantile.
    - FixedJb.v: [main/fixedjitterbuf.c], complete.  Theorems: a put returns after at
      most one resynchronisation, keeps strict delivery order and never moves the
      waiting frames; a get plays a frame only within its time.
    - AbstractJb.v: [main/abstract_jb.c], the code of a channel over the operations of
      [struct ast_jb_impl] ([jb_impl]); [JbLaws] is the contract of an implementation.
      Theorems, for every implementation with the laws: any sequence of operations
      keeps exactly the allocated frames in the buffer and never touches freed memory
      or fails an assertion; delivery terminates; wake-up times are right.
    - JbImpls.v: the two implementations of [avail_impl], over FixedJb and Jitterbuf,
      as instances of [JbLaws].
    - Udptl.v: [main/udptl.c], T.38 fax over UDP.  Theorems: with redundancy no more
      lost packets in a row than copies are sent lose nothing; the error correction
      repairs one missing packet of a group; the receiver stays inside its buffers
      where it does, and where it does not a theorem shows the access; packets fit.
    - Extension.v: [main/pbx.c], order and matching of extensions, and substrings.
      Theorems: the matcher decides the language of a pattern in its three modes; the
      order of extensions is a total preorder; substrings are slices.
    - Timing.v: [main/pbx.c], time conditions.  Theorems: building the masks of a
      condition and looking a time up decide the times its text describes, with ranges
      around the end of a dial; [GotoIfTime] takes the right branch, and what it does
      with an empty condition.
    - PatternNode.v, Trie.v, TrieFind.v, TrieMatch.v: [main/pbx.c], the pattern trie of a
      context, on a store of nodes linked by pointers.  PatternNode.v reads the nodes of
      an extension ([get_pattern_node]); Trie.v adds, removes and frees
      ([add_exten_to_pattern_tree], [destroy_pattern_tree]), with the predicate [rep]
      that relates the store to a tree; TrieFind.v searches ([new_find_extension]).
      Theorems: the trie implements the map from rows of nodes to extensions; a search
      ends without reading past the number and finds the most specific row; TrieMatch.v:
      it agrees with matching the extensions one by one on a class of extensions, and
      inputs outside of the class on which it does not.
    - Codec.v: [main/utils.c], base 64, URI escapes, quoted strings, XML entities and
      C escapes.  Theorems: round trips, also for truncated buffers.
    - Iax2Ies.v: [channels/iax2-parser.c], information elements of IAX2: the append
      functions and [iax_parse_ies] over the bytes of the message.  Theorems: a
      message built is read back element by element; the reader stays inside any
      message and two bytes behind it; numbers keep their values.
    - Astobj2.v, Astobj2Search.v, Astobj2Clients.v, Astobj2Iter.v: [main/astobj2.c],
      reference counted objects, containers and iterators, over a heap of objects.
      Astobj2.v has the operations and the invariant [counted] (every counter is the
      number of references) with the lemma that dropping a reference keeps it through
      nested destructors; Astobj2Search.v what callbacks do; Astobj2Clients.v the step
      relation of clients.  Theorems: no use after free and exact counters for every
      sequence of calls; a find by key is exact; iterators give what stays exactly
      once; a search that never ends.
    - Smoother.v: the smoother of [main/frame.c].  Theorem: a queue of bytes cut into
      frames of one size.
    - Event.v, EventSub.v, EventCache.v: [main/event.c].  Event.v builds and reads events
      byte by byte ([ast_event_new], [ast_event_get_ie_uint], ...); EventSub.v has the
      subscriptions, the queue and the dispatcher; EventCache.v the tables of types and
      the cache, whose container is its buckets.  Theorems: what was put into an event is
      read back; reading ends on any bytes; asking for subscribers predicts who is
      called; subscribing and unsubscribing restores the lists; the cache is a map from
      what an event is about to the last event.
    - DevState.v: [main/devicestate.c] over the events: providers, queues of changes, the
      collector of a cluster.  Theorems: the aggregate of states does not depend on their
      order; the state told for a device is the aggregate of the last state of every
      server.
    - DynStr.v: dynamic strings ([main/strings.c], [include/asterisk/strings.h]), as blocks
      of cells with a counter.  Theorems: a sequence of operations on a block that can
      grow, of which no bound cuts a text and each escape has room, implements the operations
      on strings and stays inside the block; what goes wrong otherwise, and how much of
      a text a bounded call keeps, and the call after which the next one writes behind.
    - Vars.v: [main/chanvars.c] and the variables and the registry of functions of
      [main/pbx.c].  [pbx] is the exchange with its channels and globals, [pbx_env] what
      is registered.  Theorems: the lists of variables are stacks of values, one for
      each name, through setting, pushing and inheriting; retrieval finds the built-in
      variable, or that of the channel, or the global one; names of functions are
      unique; what a range or the case of a name does.
    - Subst.v: substitution of [${...}] and [$[...]] in [main/pbx.c], into a dynamic string
      ([ast_str_substitute_variables_full]) and into a buffer
      ([pbx_substitute_variables_helper_full]).  [template] is the syntax and [eval] the
      meaning.  Theorems: both implement the meaning of every template, so they agree
      where they should; neither runs for ever on any text; and the inputs on which they disagree
      or leave their buffers.
    - Contexts.v: contexts and [pbx_find_extension] of [main/pbx.c], over Extension, the trie,
      Timing and Subst: the search of one context by its list of extensions
      ([list_search]) or its tree ([tree_search]), of its switches and of the contexts it
      includes, with the stack of contexts that were searched; [pbx_extension_helper] and
      the calls on it, up to the execution of what was found.  [reach] is the relation of
      contexts that include each other.  Theorem: the search of at most 128 contexts, with names
      that differ by more than their case and switches that do not answer, ends, also if they
      include each other, and finds what is reachable.
    - ContextMatch.v: for dialplans of simple extensions both searches find the same
      numbers through all includes; whether an extension exists; and what the search does
      with many includes, with names that differ in case, with switches.
    - Dialplan.v: the operations that fill a context: [ast_add_extension2] and
      [add_priority], includes, switches and ignored patterns.  Theorems: registering
      extensions implements a map ([register]) and keeps list, priorities, table and labels
      well-formed; the search of the list finds the first extension in the order; removing
      undoes adding; what becomes of labels used twice.
    - PbxRun.v: [__ast_pbx_run] of [main/pbx.c], the run of the dialplan on a channel, over
      the interface [pbx_ops] to dialplan and channel, which the search of Contexts.v
      implements ([dialplan_ops]): the loop on priorities, the digits, the extensions [i],
      [t], [T], [e] and [h], and the count of calls.  Theorems: digits are collected inside
      their buffer; the main loop ends soon after a hangup, wherever applications jump, and
      [h] unless it jumps back; sample calls.
    - App.v: arguments, options, escapes, groups of channels and menus of [main/app.c], on
      texts.  Theorems: escaped arguments and options are read back; the list of groups is a
      map from channels and categories to groups, and is counted as one; the texts on which
      the scans leave their buffers.

    ** Conventions

    C integers are [Z]; [u8] ... [s32] write out the conversions where a value may not
    fit its type.  Pointers are addresses ([NULL] is 0) or, where only one owner reads
    them, the objects.  Allocation can fail: such functions take the answer of the
    allocator as a boolean.  A function that may access memory it must not, or fail an
    assertion, returns an option or an [outcome].  Recursion that is not structural
    has fuel; a theorem shows the fuel used is enough (the position halves or doubles
    in the heap, the queue shrinks in the scheduler, one resynchronisation in the
    fixed buffer, a tree has no more nodes than the store, a reference is shorter than
    the text it is in, no more contexts are searched than fit on the stack of 128, a
    channel that is hung up has three rounds left), or that enough fuel exists
    (delivery).  Functions the sources only
    call (callbacks, comparison and hash functions, [sscanf] on irregular input) are
    parameters, with what the code needs of them as hypotheses; so is the local time of
    the time zone library.

    ** What is not modelled

    Locks and threads: each model is the code under its lock.  Logging, the command
    line and statistics dumps.  Of [hashtab.c] the copying of tables, of [sched.c] the
    dumps and the scheduler thread, of [abstract_jb.c] the parsing of settings and the frame log, of [pbx.c] and
    [utils.c] everything but the functions named above, of [frame.c] everything but
    the smoother, of [iax2-parser.c] the dumps and the frames, of [app.c] recording, prompts, the
    dispatch of menus, lock files and the counting of groups by a regular expression.  Channel drivers,
    applications, functions, resources, codecs and the user interfaces are not
    modelled; neither is bundled or generated code.  What switches and
    applications do is a parameter of Contexts.v.  Dialplan.v adds extensions to contexts
    that have no pattern tree, as when a configuration is loaded, since the tree is made by
    the first search: changing the extensions of a context that was searched with
    [extenpatternmatchnew], removing extensions (but for their nodes in the trie), merging
    contexts and hints are left out; of the run of a channel the call detail records and
    jumps that another thread asks for ([ast_async_goto]).  Of [event.c] the dump of the command line and the
    shutdown are left out; which channel has a name with a prefix is a parameter of
    DevState.v.  The parser of expressions is generated code
    and a parameter of Vars.v, and so are hints and what the dialplan functions do; a
    format of a dynamic string is the text it makes. *)

From Stdlib Require Import ZArith Lia.
From stdpp Require Import base list gmap strings numbers.

#[local] Open Scope Z_scope.

(** ** Machine integers

    C integers are modelled by [Z]; a store into (or a computation at) a
    [w]-bit type is written out with one of the wrap functions below. *)

Definition wrapu (w : Z) (x : Z) : Z := x mod 2 ^ w.

Definition wraps (w : Z) (x : Z) : Z :=
  (x + 2 ^ (w - 1)) mod 2 ^ w - 2 ^ (w - 1).

Abbreviation u8 := (wrapu 8).
Abbreviation u16 := (wrapu 16).
Abbreviation u32 := (wrapu 32).
Abbreviation s8 := (wraps 8).
Abbreviation s16 := (wraps 16).
Abbreviation s32 := (wraps 32).

Definition in_u (w x : Z) : Prop := 0 <= x < 2 ^ w.
Definition in_s (w x : Z) : Prop := - 2 ^ (w - 1) <= x < 2 ^ (w - 1).

Lemma wrapu_range (w x : Z) : 0 <= w -> in_u w (wrapu w x).
Proof. intros Hw. apply Z.mod_pos_bound. by apply Z.pow_pos_nonneg. Qed.

Lemma wrapu_id (w x : Z) : in_u w x -> wrapu w x = x.
Proof. apply Z.mod_small. Qed.

Lemma wraps_range (w x : Z) : 0 < w -> in_s w (wraps w x).
Proof.
  intros Hw. unfold in_s, wraps.
  assert (E : 2 ^ w = 2 * 2 ^ (w - 1)).
  { rewrite <- Z.pow_succ_r by lia. f_equal. lia. }
  pose proof (Z.mod_pos_bound (x + 2 ^ (w - 1)) (2 ^ w) ltac:(apply Z.pow_pos_nonneg; lia)).
  lia.
Qed.

Lemma wraps_id (w x : Z) : 0 < w -> in_s w x -> wraps w x = x.
Proof.
  intros Hw [Hl Hu]. unfold wraps.
  assert (E : 2 ^ w = 2 * 2 ^ (w - 1)).
  { rewrite <- Z.pow_succ_r by lia. f_equal. lia. }
  rewrite Z.mod_small by lia. lia.
Qed.

(** Shifts, masks and the joining of two bit fields, as arithmetic. *)
Lemma shiftr_div a k : 0 <= k -> Z.shiftr a k = a / 2 ^ k.
Proof. apply Z.shiftr_div_pow2. Qed.

Lemma shiftl_mul a k : 0 <= k -> Z.shiftl a k = a * 2 ^ k.
Proof. apply Z.shiftl_mul_pow2. Qed.

Lemma land_mod a k : 0 <= k -> Z.land a (Z.ones k) = a mod 2 ^ k.
Proof. apply Z.land_ones. Qed.

Lemma lor_add a b k : 0 <= k -> 0 <= b < 2 ^ k -> Z.lor (a * 2 ^ k) b = a * 2 ^ k + b.
Proof.
  intros Hk Hb. assert (Hl : Z.land (a * 2 ^ k) b = 0).
  { apply Z.bits_inj'. intros n Hn. rewrite Z.land_spec, Z.bits_0. destruct (Z.lt_ge_cases n k).
    - by rewrite Z.mul_pow2_bits_low.
    - rewrite <- (Z.mod_small b (2 ^ k)) by lia. by rewrite Z.mod_pow2_bits_high, andb_false_r by lia. }
  rewrite <- Z.lxor_lor by done. symmetry. by apply Z.add_nocarry_lxor.
Qed.

(** A bit of a mask: [mask & (1 << k)]. *)
Lemma land_bit m k : 0 <= k -> (Z.land m (Z.shiftl 1 k) =? 0) = negb (Z.testbit m k).
Proof.
  intros Hk. rewrite Z.shiftl_1_l. destruct (Z.testbit m k) eqn:E; cbn; [apply Z.eqb_neq|apply Z.eqb_eq].
  - intros H. assert (Hb : Z.testbit (Z.land m (2 ^ k)) k = false) by (by rewrite H, Z.bits_0).
    by rewrite Z.land_spec, Z.pow2_bits_true, E in Hb.
  - apply Z.bits_inj'. intros n Hn. rewrite Z.land_spec, Z.bits_0. destruct (Z.eq_dec k n) as [<-|Hne]; [by rewrite E|].
    by rewrite Z.pow2_bits_false, andb_false_r.
Qed.

Lemma lor_bit m k n : 0 <= k -> Z.testbit (Z.lor m (Z.shiftl 1 k)) n = Z.testbit m n || (k =? n).
Proof. intros Hk. rewrite Z.lor_spec, Z.shiftl_1_l. f_equal. by apply Z.pow2_bits_eqb. Qed.

(** ** C truth values *)

(** [if (p)] on an [int]. *)
Definition ctrue (z : Z) : bool := negb (z =? 0).

(** ** Pointers

    An object in memory is named by its address; [NULL] is address 0. *)

Abbreviation ptr := Z (only parsing).
Abbreviation NULL := 0 (only parsing).

(** ** C strings

    A C string is the list of its characters, without the final NUL, each a
    signed [char]: an integer from -128 to 127 other than 0. *)

Abbreviation str := (list Z) (only parsing).

(** [*s]: reading at the end gives 0. *)
Definition deref (s : str) : Z := match s with [] => 0 | c :: _ => c end.

Definition cstr (s : str) : Prop := Forall (fun c => c <> 0) s.

(** The characters of a literal. *)
Definition zs (s : string) : str := (fun a => Z.of_nat (Ascii.nat_of_ascii a)) <$> String.list_ascii_of_string s.

(** [tolower] and [isspace] of the C locale, and [!strcasecmp(s, t)]. *)
Definition tolower (c : Z) : Z := if (65 <=? c) && (c <=? 90) then c + 32 else c.

Definition isspace (c : Z) : bool := (c =? 32) || ((9 <=? c) && (c <=? 13)).

Definition same_name (s t : str) : bool := bool_decide (tolower <$> s = tolower <$> t).

(** ** Outcomes of calls

    A call returns a value, accesses memory it must not, fails an assertion, or (for
    a recursion with fuel) needs more fuel. *)

Inductive outcome (A : Type) := Ret (a : A) | BadAccess | AssertFail | NoFuel.
Arguments Ret {A} a.
Arguments BadAccess {A}.
Arguments AssertFail {A}.
Arguments NoFuel {A}.

Definition obind {A B} (x : outcome A) (k : A -> outcome B) : outcome B :=
  match x with Ret a => k a | BadAccess => BadAccess | AssertFail => AssertFail | NoFuel => NoFuel end.

(** A loop over a list that carries a state. *)
Fixpoint ofold {A B} (f : A -> B -> outcome A) (a : A) (l : list B) : outcome A :=
  match l with [] => Ret a | b :: l => obind (f a b) (fun a => ofold f a l) end.

(** [ASSERT(b)], then the rest. *)
Definition oassert {A} (b : bool) (k : outcome A) : outcome A := if b then k else AssertFail.

(** An access that is there, or not. *)
Definition oaccess {A} (x : option A) : outcome A := match x with Some a => Ret a | None => BadAccess end.

Declare Scope outcome_scope.
Delimit Scope outcome_scope with outcome.
Notation "'let*' p ':=' x 'in' k" := (obind x (fun a => match a with p => k end))
  (at level 200, p pattern, x at level 100, k at level 200) : outcome_scope.

(** ** Tactics *)

(** Turn boolean comparisons in the context and the goal into propositions. *)
Ltac zb :=
  repeat match goal with
  | H : (_ <? _)%Z = true |- _ => apply Z.ltb_lt in H
  | H : (_ <? _)%Z = false |- _ => apply Z.ltb_ge in H
  | H : (_ <=? _)%Z = true |- _ => apply Z.leb_le in H
  | H : (_ <=? _)%Z = false |- _ => apply Z.leb_gt in H
  | H : (_ =? _)%Z = true |- _ => apply Z.eqb_eq in H
  | H : (_ =? _)%Z = false |- _ => apply Z.eqb_neq in H
  | H : (_ >? _)%Z = true |- _ => rewrite Z.gtb_ltb in H
  | H : (_ >? _)%Z = false |- _ => rewrite Z.gtb_ltb in H
  | H : (_ >=? _)%Z = true |- _ => rewrite Z.geb_leb in H
  | H : (_ >=? _)%Z = false |- _ => rewrite Z.geb_leb in H
  | H : (_ <? _)%nat = true |- _ => apply Nat.ltb_lt in H
  | H : (_ <? _)%nat = false |- _ => apply Nat.ltb_ge in H
  | H : (_ <=? _)%nat = true |- _ => apply Nat.leb_le in H
  | H : (_ <=? _)%nat = false |- _ => apply Nat.leb_gt in H
  | H : (_ =? _)%nat = true |- _ => apply Nat.eqb_eq in H
  | H : (_ =? _)%nat = false |- _ => apply Nat.eqb_neq in H
  | H : (_ && _)%bool = true |- _ => apply andb_true_iff in H; destruct H
  | H : (_ || _)%bool = false |- _ => apply orb_false_iff in H; destruct H
  | H : (_ && _)%bool = false |- _ => apply andb_false_iff in H
  | H : (_ || _)%bool = true |- _ => apply orb_true_iff in H
  | H : negb _ = true |- _ => apply negb_true_iff in H
  | H : negb _ = false |- _ => apply negb_false_iff in H
  end.

(** Case analysis on the first [if] of the goal, with its condition as a
    proposition. *)
Ltac case_if :=
  match goal with
  | |- context [if ?b then _ else _] =>
      lazymatch type of b with
      | bool => let E := fresh "E" in destruct b eqn:E; zb
      | _ => let E := fresh "E" in destruct b as [E | E]
      end
  end.

(** ** Lists *)

(** Exchanging two cells of a list permutes it. *)
Definition transpose (i j k : nat) : nat :=
  if decide (k = i) then j else if decide (k = j) then i else k.

#[export] Instance transpose_inj (i j : nat) : Inj (=) (=) (transpose i j).
Proof. intros a b. unfold transpose. repeat case_decide; lia. Qed.

Lemma list_swap_perm {A} (l : list A) (i j : nat) (x y : A) :
  l !! i = Some x -> l !! j = Some y -> <[i := y]> (<[j := x]> l) ≡ₚ l.
Proof.
  intros Hi Hj. pose proof (lookup_lt_Some _ _ _ Hi). pose proof (lookup_lt_Some _ _ _ Hj).
  apply Permutation_inj. rewrite !length_insert. split; [done|].
  exists (transpose i j). split; [apply _|]. intros k. unfold transpose.
  destruct (decide (k = i)) as [->|].
  - by rewrite list_lookup_insert_eq, Hj by (rewrite length_insert; lia).
  - rewrite list_lookup_insert_ne by done.
    destruct (decide (k = j)) as [->|].
    + by rewrite list_lookup_insert_eq, Hi by lia.
    + by rewrite list_lookup_insert_ne.
Qed.

(** Checking a property of [n] consecutive integers by evaluation. *)
Fixpoint check_from (n : nat) (i : Z) (p : Z -> bool) : bool :=
  match n with O => true | S n => p i && check_from n (Z.succ i) p end.

Lemma range_check (p : Z -> bool) (n i : Z) :
  check_from (Z.to_nat n) 0 p = true -> 0 <= i < n -> p i = true.
Proof.
  assert (H : forall m j, check_from m j p = true -> j <= i < j + Z.of_nat m -> p i = true).
  { induction m as [|m IH]; intros j Hc Hi; [lia|]. cbn in Hc. zb.
    destruct (Z.eq_dec j i) as [<-|]; [done|]. apply (IH (Z.succ j)); [done|lia]. }
  intros Hc Hi. apply (H _ _ Hc). lia.
Qed.

(** ** Tokens of strings *)

(** [strsep(&s, sep)]: the token, and the new [s]. *)
Fixpoint strsep (sep : Z -> bool) (s : str) : str * option str :=
  match s with
  | [] => ([], None)
  | c :: s => if sep c then ([], Some s) else let '(p, r) := strsep sep s in (c :: p, r)
  end.

(** All the tokens [while ((part = strsep(&s, sep)))] goes through. *)
Fixpoint tokens (sep : Z -> bool) (s : str) : list str :=
  match s with
  | [] => [[]]
  | c :: s =>
      if sep c then [] :: tokens sep s
      else match tokens sep s with [] => [[c]] | p :: ps => (c :: p) :: ps end
  end.

Lemma tokens_nonempty sep s : exists p ps, tokens sep s = p :: ps.
Proof. destruct s as [|c s]; cbn; [eauto|]. case_if; [eauto|]. destruct (tokens sep s); eauto. Qed.

Lemma strsep_tokens sep s :
  tokens sep s = fst (strsep sep s) :: match snd (strsep sep s) with Some r => tokens sep r | None => [] end.
Proof.
  induction s as [|c s IH]; cbn; [done|]. case_if; [done|]. rewrite IH. by destruct (strsep sep s).
Qed.

Lemma tokens_none sep s : Forall (fun c => sep c = false) s -> tokens sep s = [s].
Proof. induction 1 as [|c s Hc _ IH]; cbn; [done|]. by rewrite Hc, IH. Qed.

Lemma tokens_app sep p c s : Forall (fun c => sep c = false) p -> sep c = true -> tokens sep (p ++ c :: s) = p :: tokens sep s.
Proof. intros Hp Hc. induction Hp as [|d p Hd _ IH]; cbn; [by rewrite Hc|]. by rewrite Hd, IH. Qed.

(** ** Total orders as comparison functions *)

Class TotalCompare {A : Type} (cmp : A -> A -> comparison) : Prop := {
  compare_eq x y : cmp x y = Eq <-> x = y;
  compare_opp x y : cmp y x = CompOpp (cmp x y);
  compare_trans x y z : cmp x y = Lt -> cmp y z = Lt -> cmp x z = Lt
}.

#[export] Hint Mode TotalCompare + ! : typeclass_instances.

#[export] Instance Z_total : TotalCompare Z.compare.
Proof.
  split.
  - apply Z.compare_eq_iff.
  - apply Z.compare_antisym.
  - intros x y z. rewrite !Z.compare_lt_iff. lia.
Qed.

(** The reverse order, the lexicographic orders on pairs and lists, and the order
    on a sum that puts the left summand first. *)
Definition flip_compare {A} (cmp : A -> A -> comparison) (x y : A) : comparison := cmp y x.

Definition pair_compare {A B} (cmpA : A -> A -> comparison) (cmpB : B -> B -> comparison)
    (x y : A * B) : comparison :=
  match cmpA (fst x) (fst y) with Eq => cmpB (snd x) (snd y) | c => c end.

Definition sum_compare {A B} (cmpA : A -> A -> comparison) (cmpB : B -> B -> comparison)
    (x y : A + B) : comparison :=
  match x, y with
  | inl a, inl b => cmpA a b
  | inr a, inr b => cmpB a b
  | inl _, inr _ => Lt
  | inr _, inl _ => Gt
  end.

Fixpoint lex_compare {A} (cmp : A -> A -> comparison) (l r : list A) : comparison :=
  match l, r with
  | [], [] => Eq
  | [], _ :: _ => Lt
  | _ :: _, [] => Gt
  | x :: l, y :: r => match cmp x y with Eq => lex_compare cmp l r | c => c end
  end.

Section total.
Context {A B : Type} (cmpA : A -> A -> comparison) (cmpB : B -> B -> comparison).
Context `{!TotalCompare cmpA, !TotalCompare cmpB}.

#[export] Instance flip_total : TotalCompare (flip_compare cmpA).
Proof.
  unfold flip_compare. split; intros.
  - rewrite compare_eq. split; congruence.
  - apply compare_opp.
  - eauto using compare_trans.
Qed.

#[export] Instance pair_total : TotalCompare (pair_compare cmpA cmpB).
Proof.
  unfold pair_compare. split.
  - intros [a b] [a' b']; cbn. destruct (cmpA a a') eqn:E; split; try done.
    + apply compare_eq in E as ->. by intros ->%compare_eq.
    + intros [= -> ->]. by apply compare_eq.
    + intros [= -> ->]. by rewrite (proj2 (compare_eq a' a') eq_refl) in E.
    + intros [= -> ->]. by rewrite (proj2 (compare_eq a' a') eq_refl) in E.
  - intros [a b] [a' b']; cbn. rewrite (compare_opp a a'). destruct (cmpA a a'); cbn; try done. apply compare_opp.
  - intros [a b] [a' b'] [a'' b'']; cbn.
    destruct (cmpA a a') eqn:E1; [apply compare_eq in E1 as ->| |done].
    + destruct (cmpA a' a''); try done. apply compare_trans.
    + intros _. destruct (cmpA a' a'') eqn:E2; [apply compare_eq in E2 as <-; by rewrite E1| |done].
      by rewrite (compare_trans _ _ _ E1 E2).
Qed.

#[export] Instance sum_total : TotalCompare (sum_compare cmpA cmpB).
Proof.
  split.
  - intros [a|b] [a'|b']; cbn; rewrite ?compare_eq; split; congruence.
  - intros [a|b] [a'|b']; cbn; done || apply compare_opp.
  - intros [a|b] [a'|b'] [a''|b'']; cbn; try done; apply compare_trans.
Qed.

#[export] Instance lex_total : TotalCompare (lex_compare cmpA).
Proof.
  split.
  - intros l. induction l as [|x l IH]; intros [|y r]; cbn; try done.
    destruct (cmpA x y) eqn:E; [apply compare_eq in E as ->; rewrite IH; split; congruence|..];
      (split; [done|]); intros [= -> ->]; by rewrite (proj2 (compare_eq y y) eq_refl) in E.
  - intros l. induction l as [|x l IH]; intros [|y r]; cbn; try done.
    rewrite (compare_opp x y). destruct (cmpA x y); cbn; done || apply IH.
  - intros l. induction l as [|x l IH]; intros [|y r] [|z t]; cbn; try done.
    destruct (cmpA x y) eqn:E1; [apply compare_eq in E1 as ->| |done].
    + destruct (cmpA y z); done || apply IH.
    + intros _. destruct (cmpA y z) eqn:E2; [apply compare_eq in E2 as <-; by rewrite E1| |done].
      by rewrite (compare_trans _ _ _ E1 E2).
Qed.
End total.

(** The sign of a comparison, as C comparison functions return it. *)
Definition sign_of (c : comparison) : Z := match c with Lt => -1 | Eq => 0 | Gt => 1 end.

Lemma sign_of_compare (x y : Z) : sign_of (x ?= y) = Z.sgn (x - y).
Proof. destruct (Z.compare_spec x y); cbn; lia. Qed.

(** ** Record update

    [x <| f := v |>] is [x] with field [f] set to [v], [x <| f ::= g |>] with [g]
    applied to it.  A record type declares its eta-expansion once. *)

Class Eta (R : Type) := eta_of : R -> R.

Class Setter {R T : Type} (f : R -> T) := setter : (T -> T) -> R -> R.

Ltac solve_setter :=
  lazymatch goal with
  | |- @Setter ?R ?T ?f =>
      let upd := fresh "upd" in
      let r := fresh "r" in
      refine (fun (upd : T -> T) (r : R) => _);
      let b := eval hnf in (@eta_of R _ r) in
      lazymatch eval pattern (f r) in b with
      | ?g _ => let res := eval cbv beta in (g (upd (f r))) in exact res
      end
  end.

#[export] Hint Extern 1 (Setter _) => solve_setter : typeclass_instances.

Declare Scope record_scope.
Notation "x <| f := v |>" := (setter (f := f) (fun _ => v) x)
  (at level 1, left associativity, f at level 9, v at level 200) : record_scope.
Notation "x <| f ::= g |>" := (setter (f := f) g x)
  (at level 1, left associativity, f at level 9, g at level 200) : record_scope.
