(* ===== verification/Heap.v ===== *)
(** * Max-heap of object pointers: [main/heap.c]

    The heap stores pointers in an array addressed from 1 and, when
    [index_offset >= 0], keeps in every stored object (at that offset) the
    position at which the object sits.  Those in-object cells are the map
    [index]: [index !! p] is the [ssize_t] at [p + index_offset].  The
    comparison callback is a section variable; the locks are not modelled
    (every operation is the critical section of its caller), and the outcome
    of each allocation is an argument.

    Positions and lengths are [nat]: the C code uses [int] and [size_t], and an
    array that would make [2 * i] overflow an [int] does not fit in memory. *)

From S2P Require Import Prelude.
From Stdlib Require Import ZArith Lia.
From stdpp Require Import base list gmap numbers.

#[local] Open Scope Z_scope.

Record ast_heap := mk_heap {
  index_offset : Z;
  cur_len : nat;
  avail_len : nat;
  heap : list ptr;
  index : gmap ptr Z
}.

Definition with_len (h : ast_heap) (n : nat) : ast_heap :=
  mk_heap (index_offset h) n (avail_len h) (heap h) (index h).

Section operations.

Variable cmp_fn : ptr -> ptr -> Z.

Definition left_node (i : nat) : nat := (2 * i)%nat.
Definition right_node (i : nat) : nat := (2 * i + 1)%nat.
Definition parent_node (i : nat) : nat := (i / 2)%nat.

Definition heap_get (h : ast_heap) (i : nat) : ptr := nth (i - 1) (heap h) NULL.

(** [get_index]: -1 when the heap keeps no positions.  Reading the cell of an
    object that was never in a heap reads the zero its allocator left there. *)
Definition get_index (h : ast_heap) (elm : ptr) : Z :=
  if index_offset h <? 0 then -1 else default 0 (index h !! elm).

Definition heap_set (h : ast_heap) (i : nat) (elm : ptr) : ast_heap :=
  mk_heap (index_offset h) (cur_len h) (avail_len h)
          (<[(i - 1)%nat := elm]> (heap h))
          (if index_offset h >=? 0 then <[elm := Z.of_nat i]> (index h) else index h).

(** The body of the loop of [ast_heap_verify] at position [i]. *)
Definition verify_node (h : ast_heap) (i : nat) : bool :=
  let l := left_node i in
  let r := right_node i in
  negb ((l <=? cur_len h)%nat && (cmp_fn (heap_get h i) (heap_get h l) <? 0)) &&
  negb ((r <=? cur_len h)%nat && (cmp_fn (heap_get h i) (heap_get h r) <? 0)).

Definition ast_heap_verify (h : ast_heap) : Z :=
  if forallb (verify_node h) (seq 1 (cur_len h / 2)) then 0 else -1.

(** [ast_heap_create]; [ok1] and [ok2] are the outcomes of its allocations. *)
Definition ast_heap_create (ok1 ok2 : bool) (init_height : nat) (offset : Z) : option ast_heap :=
  let init_height := if (init_height =? 0)%nat then 8%nat else init_height in
  if negb ok1 then None else
  let avail := (2 ^ init_height - 1)%nat in
  if negb ok2 then None else
  Some (mk_heap offset 0 avail (replicate avail NULL) ∅).

(** [grow_heap]: the result code and the heap.  A failed [realloc] leaves the
    heap empty; the new part of the array is indeterminate (here: [NULL]). *)
Definition grow_heap (ok : bool) (h : ast_heap) : Z * ast_heap :=
  let avail := (avail_len h * 2 + 1)%nat in
  if ok
  then (0, mk_heap (index_offset h) (cur_len h) avail
                   (heap h ++ replicate (avail - avail_len h) NULL) (index h))
  else (-1, mk_heap (index_offset h) 0 0 [] (index h)).

Definition heap_swap (h : ast_heap) (i j : nat) : ast_heap :=
  let tmp := heap_get h i in
  heap_set (heap_set h i (heap_get h j)) j tmp.

(** The [for (;;)] loop of [max_heapify]. *)
Fixpoint max_heapify_loop (fuel : nat) (h : ast_heap) (i : nat) : ast_heap :=
  match fuel with
  | O => h
  | S fuel =>
      let l := left_node i in
      let r := right_node i in
      let max := if (l <=? cur_len h)%nat && (cmp_fn (heap_get h l) (heap_get h i) >? 0)
                 then l else i in
      let max := if (r <=? cur_len h)%nat && (cmp_fn (heap_get h r) (heap_get h max) >? 0)
                 then r else max in
      if (max =? i)%nat then h
      else max_heapify_loop fuel (heap_swap h i max) max
  end.

(** The position at least doubles at each turn. *)
Definition max_heapify (h : ast_heap) (i : nat) : ast_heap :=
  max_heapify_loop (S (cur_len h)) h i.

(** The [while] loop of [bubble_up]. *)
Fixpoint bubble_up_loop (fuel : nat) (h : ast_heap) (i : nat) : ast_heap * nat :=
  match fuel with
  | O => (h, i)
  | S fuel =>
      if (1 <? i)%nat && (cmp_fn (heap_get h (parent_node i)) (heap_get h i) <? 0)
      then bubble_up_loop fuel (heap_swap h i (parent_node i)) (parent_node i)
      else (h, i)
  end.

(** The position halves at each turn. *)
Definition bubble_up (h : ast_heap) (i : nat) : ast_heap * nat := bubble_up_loop i h i.

Definition ast_heap_push (ok : bool) (h : ast_heap) (elm : ptr) : Z * ast_heap :=
  let '(rc, h) := if (cur_len h =? avail_len h)%nat then grow_heap ok h else (0, h) in
  if ctrue rc then (-1, h)
  else
    let n := S (cur_len h) in
    let h := heap_set (with_len h n) n elm in
    (0, fst (bubble_up h n)).

(** [_ast_heap_remove]. *)
Definition heap_remove_at (h : ast_heap) (idx : nat) : ptr * ast_heap :=
  if (idx =? 0)%nat || (cur_len h <? idx)%nat then (NULL, h)
  else
    let ret := heap_get h idx in
    let last := heap_get h (cur_len h) in
    let h := heap_set (with_len h (cur_len h - 1)) idx last in
    let '(h, idx) := bubble_up h idx in
    (ret, max_heapify h idx).

(** [ast_heap_remove]: the position comes from the object, as [unsigned int]. *)
Definition ast_heap_remove (h : ast_heap) (elm : ptr) : ptr * ast_heap :=
  let i := get_index h elm in
  if i =? -1 then (NULL, h) else heap_remove_at h (Z.to_nat (u32 i)).

Definition ast_heap_pop (h : ast_heap) : ptr * ast_heap := heap_remove_at h 1.

Definition ast_heap_peek (h : ast_heap) (idx : nat) : ptr :=
  if (cur_len h =? 0)%nat || (idx =? 0)%nat || (cur_len h <? idx)%nat then NULL
  else heap_get h idx.

Definition ast_heap_size (h : ast_heap) : nat := cur_len h.

End operations.

(** ** Order and well-formedness *)

(** What a comparison callback owes the heap: it is a total preorder, [cmp a b]
    being positive when [a] goes before [b]. *)
Class HeapOrder (cmp : ptr -> ptr -> Z) : Prop := {
  cmp_flip : forall a b, cmp a b < 0 <-> 0 < cmp b a;
  cmp_trans : forall a b c, 0 <= cmp a b -> 0 <= cmp b c -> 0 <= cmp a c
}.

(** The stored pointers, in array order. *)
Definition elems (h : ast_heap) : list ptr := take (cur_len h) (heap h).

(** Sizes agree and, if positions are kept, every stored object knows its own. *)
Record heap_wf (h : ast_heap) : Prop := {
  wf_avail : (cur_len h <= avail_len h)%nat;
  wf_length : length (heap h) = avail_len h;
  wf_index : index_offset h >= 0 -> forall i, (1 <= i <= cur_len h)%nat ->
             index h !! heap_get h i = Some (Z.of_nat i)
}.

Section correctness.

Variable cmp : ptr -> ptr -> Z.
Context `{!HeapOrder cmp}.

Definition heap_ge (a b : ptr) : Prop := 0 <= cmp a b.

(** Every node is at least as large as its children. *)
Definition heap_ordered (h : ast_heap) : Prop :=
  forall j, (2 <= j <= cur_len h)%nat -> heap_ge (heap_get h (j / 2)) (heap_get h j).

Lemma ge_refl a : heap_ge a a.
Proof. unfold heap_ge. pose proof (cmp_flip a a). lia. Qed.

Lemma ge_trans a b c : heap_ge a b -> heap_ge b c -> heap_ge a c.
Proof. apply cmp_trans. Qed.

Lemma ge_flip a b : cmp a b < 0 -> heap_ge b a.
Proof. unfold heap_ge. rewrite cmp_flip. lia. Qed.

Lemma ge_flip_pos a b : ~ 0 < cmp a b -> heap_ge b a.
Proof. unfold heap_ge. intros H. pose proof (cmp_flip b a). lia. Qed.

(** *** Cells *)

Lemma heap_get_lookup h i : (1 <= i <= length (heap h))%nat ->
  heap h !! (i - 1)%nat = Some (heap_get h i).
Proof.
  intros Hi. unfold heap_get.
  destruct (nth_lookup_or_length (heap h) (i - 1) NULL); [done | lia].
Qed.

Lemma heap_get_set h i j e : (1 <= i <= length (heap h))%nat -> (1 <= j)%nat ->
  heap_get (heap_set h i e) j = if decide (j = i) then e else heap_get h j.
Proof.
  intros Hi Hj. unfold heap_get, heap_set; cbn. rewrite !nth_lookup.
  case_decide; subst.
  - by rewrite list_lookup_insert_eq by lia.
  - by rewrite list_lookup_insert_ne by lia.
Qed.

Lemma length_heap_set h i e : length (heap (heap_set h i e)) = length (heap h).
Proof. apply length_insert. Qed.

Lemma heap_get_swap h i j k :
  (1 <= i <= length (heap h))%nat -> (1 <= j <= length (heap h))%nat -> (1 <= k)%nat ->
  heap_get (heap_swap h i j) k =
  if decide (k = i) then heap_get h j else if decide (k = j) then heap_get h i else heap_get h k.
Proof.
  intros Hi Hj Hk. unfold heap_swap.
  rewrite heap_get_set by (rewrite ?length_heap_set; lia).
  rewrite heap_get_set by lia. repeat case_decide; by subst.
Qed.

(** What a swap inside the heap leaves alone. *)
Definition same_shape (h h' : ast_heap) : Prop :=
  index_offset h' = index_offset h /\ cur_len h' = cur_len h /\
  avail_len h' = avail_len h /\ length (heap h') = length (heap h).

Lemma heap_swap_shape h i j : same_shape h (heap_swap h i j).
Proof. unfold same_shape, heap_swap. rewrite !length_heap_set. done. Qed.

Lemma heap_swap_wf h i j : heap_wf h ->
  (1 <= i <= cur_len h)%nat -> (1 <= j <= cur_len h)%nat -> heap_wf (heap_swap h i j).
Proof.
  intros [Ha Hl Hx] Hi Hj.
  destruct (heap_swap_shape h i j) as (Eo & En & Ev & Eh). split; [lia|lia|].
  rewrite Eo, En. intros Ho k Hk. specialize (Hx Ho). rewrite heap_get_swap by lia.
  unfold heap_swap, heap_set; cbn.
  destruct (index_offset h >=? 0) eqn:E; zb; [|lia].
  assert (Hinj : forall a b, (1 <= a <= cur_len h)%nat -> (1 <= b <= cur_len h)%nat ->
    heap_get h a = heap_get h b -> a = b).
  { intros a b Ha' Hb' Eab. pose proof (Hx a Ha') as E1. rewrite Eab, Hx in E1 by done.
    simplify_eq. lia. }
  repeat case_decide; subst.
  - rewrite lookup_insert. case_decide as E1; [|by rewrite lookup_insert_eq].
    apply Hinj in E1; [|lia..]. by subst.
  - by rewrite lookup_insert_eq.
  - rewrite !lookup_insert_ne; [by apply Hx| |]; intros E1; apply Hinj in E1; lia.
Qed.

Lemma heap_swap_elems h i j :
  (1 <= i <= cur_len h)%nat -> (1 <= j <= cur_len h)%nat ->
  (cur_len h <= length (heap h))%nat -> elems (heap_swap h i j) ≡ₚ elems h.
Proof.
  intros Hi Hj Hn. unfold elems, heap_swap, heap_set; cbn.
  rewrite !take_insert_lt by lia.
  apply list_swap_perm; rewrite lookup_take_lt by lia; apply heap_get_lookup; lia.
Qed.

(** *** The two repair loops *)

(** The order holds except possibly at node [i], whose parent still dominates
    its children. *)
Definition ordered_but (h : ast_heap) (i : nat) : Prop :=
  (forall j, (2 <= j <= cur_len h)%nat -> j <> i -> (j / 2)%nat <> i ->
     heap_ge (heap_get h (j / 2)) (heap_get h j)) /\
  ((1 < i)%nat -> forall c, (2 <= c <= cur_len h)%nat -> (c / 2)%nat = i ->
     heap_ge (heap_get h (i / 2)) (heap_get h c)).

(** Node [i] is dominated by its parent. *)
Definition ordered_up (h : ast_heap) (i : nat) : Prop :=
  (2 <= i)%nat -> heap_ge (heap_get h (i / 2)) (heap_get h i).

(** Node [i] dominates its children. *)
Definition ordered_down (h : ast_heap) (i : nat) : Prop :=
  forall c, (2 <= c <= cur_len h)%nat -> (c / 2)%nat = i -> heap_ge (heap_get h i) (heap_get h c).

Lemma half_bounds i : (2 <= i)%nat -> (1 <= i / 2 < i)%nat.
Proof. intros. split; [apply (Nat.div_le_lower_bound i 2 1); lia | apply Nat.div_lt; lia]. Qed.

Lemma half_cases i : i = (2 * (i / 2))%nat \/ i = (2 * (i / 2) + 1)%nat.
Proof. pose proof (Nat.div_mod_eq i 2). pose proof (Nat.mod_upper_bound i 2). lia. Qed.

(** One swap with a smaller parent moves the defect up. *)
Lemma swap_up_ordered_but h i : heap_wf h -> (2 <= i <= cur_len h)%nat ->
  ordered_but h i -> cmp (heap_get h (i / 2)) (heap_get h i) < 0 ->
  ordered_but (heap_swap h i (i / 2)) (i / 2) /\ ordered_down (heap_swap h i (i / 2)) (i / 2).
Proof.
  intros [Ha Hl _] Hi [Hp Hc] Hlt. pose proof (half_bounds i) as Hh.
  assert (Hg : forall k, (1 <= k)%nat -> heap_get (heap_swap h i (i / 2)) k =
    if decide (k = i) then heap_get h (i / 2) else
    if decide (k = (i / 2)%nat) then heap_get h i else heap_get h k).
  { intros k Hk. apply heap_get_swap; lia. }
  split; [split|]; cbn [cur_len heap_swap heap_set].
  - intros j Hj Hne Hpne. pose proof (half_bounds j) as Hjb. rewrite !Hg by lia.
    rewrite (decide_False (P := j = (i / 2)%nat)) by done.
    rewrite (decide_False (P := (j / 2)%nat = (i / 2)%nat)) by done.
    repeat case_decide; subst; try lia.
    + apply Hc; lia.
    + apply Hp; lia.
  - intros Hi1 c Hcb Hch. pose proof (half_bounds (i / 2)) as Hb2. rewrite !Hg by lia.
    rewrite (decide_False (P := (i / 2 / 2)%nat = i)) by lia.
    rewrite (decide_False (P := (i / 2 / 2)%nat = (i / 2)%nat)) by lia.
    assert (Hpp : heap_ge (heap_get h (i / 2 / 2)) (heap_get h (i / 2))) by (apply Hp; lia).
    repeat case_decide; subst; try done.
    + lia.
    + apply ge_trans with (heap_get h (i / 2)); [done|]. rewrite <- Hch. apply Hp; lia.
  - intros c Hcb Hch. cbn [cur_len heap_swap heap_set] in Hcb. pose proof (half_bounds c) as Hcb2.
    rewrite !Hg by lia.
    rewrite (decide_False (P := (i / 2)%nat = i)), decide_True by lia.
    apply ge_flip in Hlt. repeat case_decide; subst; try done; try lia.
    apply ge_trans with (heap_get h (i / 2)); [done|]. rewrite <- Hch. apply Hp; lia.
Qed.

Lemma bubble_up_spec fuel h i h' i' :
  heap_wf h -> (1 <= i <= cur_len h)%nat -> (i <= fuel)%nat -> ordered_but h i ->
  bubble_up_loop cmp fuel h i = (h', i') ->
  heap_wf h' /\ same_shape h h' /\ elems h' ≡ₚ elems h /\ (1 <= i' <= cur_len h)%nat /\
  ordered_but h' i' /\ ordered_up h' i' /\ (ordered_down h i -> ordered_down h' i').
Proof.
  revert h i. induction fuel as [|fuel IH]; intros h i Hwf Hi Hf Hob; [lia|]. cbn [bubble_up_loop].
  case_if; intros E1.
  - pose proof (half_bounds i) as Hh. unfold parent_node in *.
    destruct (IH (heap_swap h i (i / 2)) (i / 2)%nat) as (A & B & C & D & E' & F & G);
      [apply heap_swap_wf; auto; lia | cbn [cur_len heap_swap heap_set]; lia | lia
      | apply swap_up_ordered_but; auto; lia
      | done |].
    split_and!; try done; try apply D.
    + unfold same_shape in *. pose proof (heap_swap_shape h i (i / 2)) as (?&?&?&?).
      destruct B as (?&?&?&?). split_and!; congruence.
    + rewrite C. apply heap_swap_elems; [lia..|]. destruct Hwf; lia.
    + intros _. apply G, swap_up_ordered_but; auto; lia.
  - simplify_eq. split_and!; try done; try lia.
    intros Hi2. unfold heap_ge. destruct E as [E|E]; zb; [lia|done].
Qed.

(** One swap with the largest child moves the defect down. *)
Lemma swap_down_ordered_but h i m : heap_wf h -> (1 <= i)%nat -> (m <= cur_len h)%nat ->
  (m / 2)%nat = i -> ordered_but h i -> ordered_up h i -> heap_ge (heap_get h m) (heap_get h i) ->
  (forall c, (2 <= c <= cur_len h)%nat -> (c / 2)%nat = i -> heap_ge (heap_get h m) (heap_get h c)) ->
  ordered_but (heap_swap h i m) m /\ ordered_up (heap_swap h i m) m.
Proof.
  intros [Ha Hl _] Hi Hm Em [Hp Hc] Hu Hge Hmax.
  assert (Hm2 : (2 <= m)%nat) by (destruct m as [|[|m]]; cbn in Em; lia).
  pose proof (half_bounds m Hm2) as Hb.
  assert (Hg : forall k, (1 <= k)%nat -> heap_get (heap_swap h i m) k =
    if decide (k = i) then heap_get h m else
    if decide (k = m) then heap_get h i else heap_get h k).
  { intros k Hk. apply heap_get_swap; lia. }
  split; [split|]; cbn [cur_len heap_swap heap_set].
  - intros j Hj Hne Hpne. pose proof (half_bounds j) as Hjb. rewrite !Hg by lia.
    rewrite (decide_False (P := j = m)) by done.
    rewrite (decide_False (P := (j / 2)%nat = m)) by done.
    repeat case_decide; subst; try lia.
    + by apply Hmax.
    + apply Hc; lia.
    + apply Hp; lia.
  - intros _ c Hcb Hcm. pose proof (half_bounds c) as Hcb'. rewrite !Hg by lia. rewrite Em.
    rewrite decide_True by done. destruct (decide (c = i)); [lia|]. destruct (decide (c = m)); [lia|].
    rewrite <- Hcm. apply Hp; lia.
  - intros _. rewrite !Hg by lia. rewrite Em, decide_True by done.
    by repeat case_decide; subst; try lia.
Qed.

Lemma child_cases i c : (2 <= c)%nat -> (c / 2)%nat = i -> c = left_node i \/ c = right_node i.
Proof. intros Hc <-. unfold left_node, right_node. pose proof (half_cases c). lia. Qed.

Lemma half_left i : (left_node i / 2)%nat = i.
Proof. unfold left_node. rewrite Nat.mul_comm. apply Nat.div_mul. lia. Qed.

Lemma half_right i : (right_node i / 2)%nat = i.
Proof.
  unfold right_node. pose proof (half_cases (2 * i + 1)). lia.
Qed.

(** Choosing between the incumbent [m] and a child [c] by one comparison. *)
Lemma pick_step h m c (m' := if (c <=? cur_len h)%nat && (cmp (heap_get h c) (heap_get h m) >? 0)
                             then c else m) :
  (m' = m \/ m' = c /\ (c <= cur_len h)%nat) /\ heap_ge (heap_get h m') (heap_get h m) /\
  ((c <= cur_len h)%nat -> heap_ge (heap_get h m') (heap_get h c)).
Proof.
  subst m'. case_if.
  - split_and!; auto; [unfold heap_ge; lia|]. intros; apply ge_refl.
  - split_and!; [auto | apply ge_refl |]. intros Hl. apply ge_flip_pos.
    destruct E as [E|E]; zb; lia.
Qed.

(** The child the loop picks, and what it knows when it picks none. *)
Lemma pick_max h i (l := left_node i) (r := right_node i)
    (m1 := if (l <=? cur_len h)%nat && (cmp (heap_get h l) (heap_get h i) >? 0) then l else i)
    (m := if (r <=? cur_len h)%nat && (cmp (heap_get h r) (heap_get h m1) >? 0) then r else m1) :
  (m = i \/ (m = l \/ m = r) /\ (m <= cur_len h)%nat) /\
  heap_ge (heap_get h m) (heap_get h i) /\
  (forall c, (2 <= c <= cur_len h)%nat -> (c / 2)%nat = i -> heap_ge (heap_get h m) (heap_get h c)).
Proof.
  pose proof (pick_step h i l) as (Hm1 & Hgi & Hgl). fold m1 in Hm1, Hgi, Hgl.
  pose proof (pick_step h m1 r) as (Hm & Hgm & Hgr). fold m in Hm, Hgm, Hgr.
  clearbody m. clearbody m1.
  split_and!; [intuition (subst; auto) | by apply ge_trans with (heap_get h m1) |].
  intros c Hc Hci. destruct (child_cases i c) as [->| ->]; [lia|done|..].
  - apply ge_trans with (heap_get h m1); [done|]. apply Hgl. lia.
  - apply Hgr. lia.
Qed.

(** The order everywhere, from its pieces around node [i]. *)
Lemma ordered_join h i : ordered_but h i -> ordered_up h i -> ordered_down h i ->
  heap_ordered h.
Proof.
  intros [Hp _] Hu Hd j Hj.
  destruct (decide (j = i)) as [->|]; [apply Hu; lia|].
  destruct (decide ((j / 2)%nat = i)) as [<-|]; [by apply Hd|]. by apply Hp.
Qed.

Lemma max_heapify_spec fuel h i h' :
  heap_wf h -> (1 <= i)%nat -> (cur_len h < fuel + i)%nat ->
  ordered_but h i -> ordered_up h i -> max_heapify_loop cmp fuel h i = h' ->
  heap_wf h' /\ same_shape h h' /\ elems h' ≡ₚ elems h /\ heap_ordered h'.
Proof.
  revert h i. induction fuel as [|fuel IH]; intros h i Hwf Hi Hf Hob Hup; cbn [max_heapify_loop].
  - intros <-. split_and!; try done. apply (ordered_join h i); [done..|].
    intros c Hc Ec. pose proof (half_bounds c). lia.
  - pose proof (pick_max h i) as (Hm & Hge & Hmax). cbv zeta in *.
    set (m := if _ && (_ (_ _ (right_node i)) _ >? 0) then right_node i else _) in *.
    clearbody m. case_if; intros E1.
    + subst m h'. split_and!; try done. by apply (ordered_join h i).
    + destruct Hm as [?|[Hlr Hmn]]; [done|].
      assert (Hmi : (m / 2)%nat = i) by (destruct Hlr as [-> | ->]; auto using half_left, half_right).
      assert (Hmb : (i < m)%nat) by (unfold left_node, right_node in Hlr; lia).
      destruct (swap_down_ordered_but h i m) as [Hob' Hup']; try done.
      destruct (IH (heap_swap h i m) m) as (A & B & C & D); try done;
        [apply heap_swap_wf; auto; lia | lia | cbn [cur_len heap_swap heap_set]; lia |].
      split_and!; try done.
      * unfold same_shape in *. pose proof (heap_swap_shape h i m) as (?&?&?&?).
        destruct B as (?&?&?&?). split_and!; congruence.
      * rewrite C. apply heap_swap_elems; [lia..|]. destruct Hwf; lia.
Qed.

(** *** The operations *)

Lemma heap_get_grow h r k : (k <= length (heap h))%nat -> (1 <= k)%nat ->
  nth (k - 1) (heap h ++ r) NULL = heap_get h k.
Proof. intros. unfold heap_get. rewrite app_nth1 by lia. done. Qed.

Lemma grow_heap_ok h : heap_wf h -> heap_ordered h -> exists h1, grow_heap true h = (0, h1) /\
  heap_wf h1 /\ heap_ordered h1 /\ (cur_len h1 < avail_len h1)%nat /\ elems h1 = elems h /\
  cur_len h1 = cur_len h /\ index_offset h1 = index_offset h.
Proof.
  intros [Ha Hl Hx] Ho. eexists. split; [done|]. cbn. split_and!; try lia.
  - split; cbn; [lia| rewrite length_app, length_replicate; lia |].
    intros Hoff i Hi. unfold heap_get; cbn. rewrite heap_get_grow by lia. by apply Hx.
  - intros j Hj. cbn in Hj. pose proof (half_bounds j). unfold heap_get at 1 2; cbn [heap].
    rewrite !heap_get_grow by lia. by apply Ho.
  - unfold elems; cbn. rewrite take_app_le by lia. done.
Qed.

Lemma append_wf h elm : heap_wf h -> (cur_len h < avail_len h)%nat -> elm ∉ elems h ->
  heap_ordered h ->
  let h1 := heap_set (with_len h (S (cur_len h))) (S (cur_len h)) elm in
  heap_wf h1 /\ ordered_but h1 (S (cur_len h)) /\ elems h1 = elems h ++ [elm].
Proof.
  intros [Ha Hl Hx] Hlt Hnew Ho h1.
  assert (Hg : forall k, (1 <= k)%nat -> heap_get h1 k =
    if decide (k = S (cur_len h)) then elm else heap_get h k).
  { intros k Hk. unfold h1. rewrite heap_get_set by (cbn; lia). done. }
  split; [split|split; [split|]].
  - cbn; lia.
  - unfold h1. rewrite length_heap_set. cbn; lia.
  - intros Hoff i Hi. rewrite Hg by lia. cbn in *.
    destruct (index_offset h >=? 0) eqn:E; zb; [|lia].
    case_decide; subst; [by rewrite lookup_insert_eq|].
    rewrite lookup_insert_ne; [apply Hx; lia|].
    intros ->. apply Hnew. unfold elems.
    apply list_elem_of_lookup. exists (i - 1)%nat.
    rewrite lookup_take_lt by lia. apply heap_get_lookup; lia.
  - intros j Hj Hne Hp. pose proof (half_bounds j). cbn [cur_len h1 heap_set with_len] in Hj.
    rewrite !Hg by lia. rewrite !decide_False by lia. apply Ho; lia.
  - intros _ c Hc Hcp. cbn [cur_len h1 heap_set with_len] in Hc. pose proof (half_bounds c). lia.
  - unfold elems, h1. cbn [cur_len heap heap_set with_len].
    replace (S (cur_len h) - 1)%nat with (cur_len h) by lia.
    rewrite (take_S_r _ _ elm) by (by rewrite list_lookup_insert_eq by lia).
    by rewrite take_insert_ge by lia.
Qed.

Lemma push_append h elm : heap_wf h -> heap_ordered h -> (cur_len h < avail_len h)%nat ->
  elm ∉ elems h ->
  let h' := fst (bubble_up cmp (heap_set (with_len h (S (cur_len h))) (S (cur_len h)) elm)
                           (S (cur_len h))) in
  heap_wf h' /\ heap_ordered h' /\ elems h' ≡ₚ elm :: elems h /\
  cur_len h' = S (cur_len h) /\ index_offset h' = index_offset h.
Proof.
  intros Hwf Ho Hlt Hnew h'. subst h'.
  destruct (append_wf h elm Hwf Hlt Hnew Ho) as (Hwf1 & Hob & Hel).
  destruct (bubble_up _ _ _) as [h2 i2] eqn:E.
  edestruct bubble_up_spec as (A & (B1 & B2 & B3 & B4) & C & D & F & G & H);
    [exact Hwf1 | | reflexivity | exact Hob | exact E |].
  { cbn [cur_len heap_set with_len]. lia. }
  cbn [fst]. split_and!; try done.
  - apply (ordered_join h2 i2); [done..|]. apply H. intros c Hc Hci.
    pose proof (half_bounds c). cbn [cur_len heap_set with_len] in Hc. lia.
  - rewrite C, Hel. symmetry. apply Permutation_cons_append.
Qed.

Lemma heap_wf_inj h a b : heap_wf h -> index_offset h >= 0 ->
  (1 <= a <= cur_len h)%nat -> (1 <= b <= cur_len h)%nat ->
  heap_get h a = heap_get h b -> a = b.
Proof.
  intros [_ _ Hx] Ho Ha Hb Eab. pose proof (Hx Ho a Ha) as E1. rewrite Eab, Hx in E1 by done.
  simplify_eq. lia.
Qed.

(** Moving the last element over node [idx]. *)
Lemma overwrite_wf h idx : heap_wf h -> heap_ordered h -> (1 <= idx < cur_len h)%nat ->
  let h1 := heap_set (with_len h (cur_len h - 1)) idx (heap_get h (cur_len h)) in
  heap_wf h1 /\ ordered_but h1 idx /\ heap_get h idx :: elems h1 ≡ₚ elems h.
Proof.
  intros Hwf Ho Hi h1. pose proof Hwf as [Ha Hl Hx].
  assert (Hg : forall k, (1 <= k)%nat -> heap_get h1 k =
    if decide (k = idx) then heap_get h (cur_len h) else heap_get h k).
  { intros k Hk. unfold h1. rewrite heap_get_set by (cbn; lia). done. }
  split; [split|split; [split|]].
  - cbn; lia.
  - unfold h1. rewrite length_heap_set. done.
  - intros Hoff i Hi'. rewrite Hg by lia. cbn in *.
    destruct (index_offset h >=? 0) eqn:E; zb; [|lia].
    case_decide; subst; [by rewrite lookup_insert_eq|].
    rewrite lookup_insert_ne; [apply Hx; lia|].
    intros E1. apply (heap_wf_inj h) in E1; try done; lia.
  - intros j Hj Hne Hp. pose proof (half_bounds j). cbn [cur_len h1 heap_set with_len] in Hj.
    rewrite !Hg by lia. rewrite !decide_False by lia. apply Ho; lia.
  - intros Hi1 c Hc Hcp. cbn [cur_len h1 heap_set with_len] in Hc.
    pose proof (half_bounds c). pose proof (half_bounds idx).
    rewrite !Hg by lia. rewrite !decide_False by lia.
    apply ge_trans with (heap_get h idx); [apply Ho; lia|]. rewrite <- Hcp. apply Ho; lia.
  - unfold elems, h1. cbn [cur_len heap heap_set with_len].
    rewrite take_insert_lt by lia.
    assert (El : take (cur_len h) (heap h) =
                 take (cur_len h - 1) (heap h) ++ [heap_get h (cur_len h)]).
    { rewrite <- (take_S_r _ _ (heap_get h (cur_len h))) by (apply heap_get_lookup; lia).
      f_equal. lia. }
    rewrite El. assert (Hlk : take (cur_len h - 1) (heap h) !! (idx - 1)%nat = Some (heap_get h idx)).
    { rewrite lookup_take_lt by lia. apply heap_get_lookup; lia. }
    rewrite insert_take_drop by (rewrite length_take; lia).
    rewrite <- (take_drop_middle _ _ _ Hlk) at 3.
    rewrite Permutation_middle, <- !app_assoc. cbn. do 2 f_equiv.
    apply Permutation_cons_append.
Qed.

(** Removing the last element: the repair loops find nothing to do. *)
Lemma remove_last h : heap_wf h -> heap_ordered h -> (1 <= cur_len h)%nat ->
  let n := cur_len h in
  let h1 := heap_set (with_len h (n - 1)) n (heap_get h n) in
  bubble_up cmp h1 n = (h1, n) /\ max_heapify cmp h1 n = h1 /\
  heap_wf h1 /\ heap_ordered h1 /\ heap_get h n :: elems h1 ≡ₚ elems h.
Proof.
  intros Hwf Ho Hn n h1. pose proof Hwf as [Ha Hl Hx].
  assert (Hg : forall k, (1 <= k)%nat -> heap_get h1 k = heap_get h k).
  { intros k Hk. unfold h1. rewrite heap_get_set by (cbn; unfold n; lia). case_decide; by subst. }
  assert (Hup : ordered_up h1 n).
  { intros H2. pose proof (half_bounds n H2). rewrite !Hg by lia. apply Ho. unfold n in *; lia. }
  split_and!.
  - unfold bubble_up. destruct n as [|n'] eqn:En; [done|]. cbn [bubble_up_loop].
    case_if; [|done]. specialize (Hup ltac:(lia)). unfold heap_ge, parent_node in *. lia.
  - unfold max_heapify. cbn [max_heapify_loop].
    rewrite !(proj2 (Nat.leb_gt _ (cur_len h1)))
      by (cbn [h1 cur_len heap_set with_len]; unfold left_node, right_node, n; lia).
    cbn [andb]. by rewrite Nat.eqb_refl.
  - split; [cbn; lia | unfold h1; rewrite length_heap_set; done |].
    intros Hoff i Hi. rewrite Hg by lia. cbn in *.
    destruct (index_offset h >=? 0) eqn:E; zb; [|lia].
    rewrite lookup_insert_ne; [apply Hx; lia|].
    intros E1. apply (heap_wf_inj h) in E1; try done; unfold n in *; lia.
  - intros j Hj. cbn [h1 cur_len heap_set with_len] in Hj. pose proof (half_bounds j).
    rewrite !Hg by lia. apply Ho; unfold n in *; lia.
  - unfold elems, h1. cbn [cur_len heap heap_set with_len]. rewrite take_insert_ge by lia.
    assert (El : take n (heap h) = take (n - 1) (heap h) ++ [heap_get h n]).
    { rewrite <- (take_S_r _ _ (heap_get h n)) by (apply heap_get_lookup; unfold n; lia).
      f_equal. unfold n; lia. }
    unfold n in *. rewrite El. apply Permutation_cons_append.
Qed.

Lemma heap_remove_at_spec h idx : heap_wf h -> heap_ordered h -> (1 <= idx <= cur_len h)%nat ->
  exists h', heap_remove_at cmp h idx = (heap_get h idx, h') /\
  heap_wf h' /\ heap_ordered h' /\ heap_get h idx :: elems h' ≡ₚ elems h /\
  cur_len h' = (cur_len h - 1)%nat /\ index_offset h' = index_offset h.
Proof.
  intros Hwf Ho Hi. unfold heap_remove_at.
  rewrite (proj2 (Nat.eqb_neq idx 0)), (proj2 (Nat.ltb_ge (cur_len h) idx)) by lia. cbn [orb].
  destruct (decide (idx = cur_len h)) as [->|Hne].
  - destruct (remove_last h Hwf Ho ltac:(lia)) as (E1 & E2 & A & B & C).
    rewrite E1, E2. eexists. split_and!; done.
  - destruct (overwrite_wf h idx Hwf Ho ltac:(lia)) as (A & B & C).
    destruct (bubble_up _ _ _) as [h2 i2] eqn:E.
    edestruct bubble_up_spec as (A2 & (B1 & B2 & B3 & B4) & C2 & D2 & F2 & G2 & _);
      [exact A | | reflexivity | exact B | exact E |].
    { cbn [cur_len heap_set with_len]. lia. }
    cbn [cur_len index_offset heap_set with_len] in *.
    edestruct (max_heapify_spec (S (cur_len h2)) h2 i2)
      as (A3 & (B31 & B32 & _) & C3 & D3); [done|lia|lia|done..|].
    eexists. split_and!; [done..| | |].
    + by rewrite C3, C2, C.
    + unfold max_heapify. congruence.
    + unfold max_heapify. congruence.
Qed.

(** The root dominates every node. *)
Lemma root_max h : heap_ordered h -> forall i, (1 <= i <= cur_len h)%nat ->
  heap_ge (heap_get h 1) (heap_get h i).
Proof.
  intros Ho i. induction i as [i IH] using lt_wf_ind. intros Hi.
  destruct (decide (i = 1%nat)) as [->|]; [apply ge_refl|].
  pose proof (half_bounds i ltac:(lia)).
  apply ge_trans with (heap_get h (i / 2)); [apply IH; lia | apply Ho; lia].
Qed.

Lemma root_max_elem h x : heap_wf h -> heap_ordered h -> x ∈ elems h -> heap_ge (heap_get h 1) x.
Proof.
  intros [Ha Hl _] Ho [i Hi]%list_elem_of_lookup. unfold elems in Hi.
  pose proof (lookup_lt_Some _ _ _ Hi) as Hlt. rewrite length_take in Hlt.
  rewrite lookup_take_lt in Hi by lia.
  pose proof (heap_get_lookup h (S i) ltac:(lia)) as E. rewrite Nat.sub_succ, Nat.sub_0_r in E.
  rewrite Hi in E. simplify_eq. apply root_max; [done|lia].
Qed.

Lemma elems_position h x : heap_wf h -> x ∈ elems h ->
  exists i, (1 <= i <= cur_len h)%nat /\ heap_get h i = x.
Proof.
  intros [Ha Hl _] [i Hi]%list_elem_of_lookup. unfold elems in Hi.
  pose proof (lookup_lt_Some _ _ _ Hi) as Hlt. rewrite length_take in Hlt.
  rewrite lookup_take_lt in Hi by lia. exists (S i). split; [lia|].
  pose proof (heap_get_lookup h (S i) ltac:(lia)) as E. rewrite Nat.sub_succ, Nat.sub_0_r in E.
  congruence.
Qed.

Lemma verify_node_iff h i : (1 <= i)%nat -> verify_node cmp h i = true <-> ordered_down h i.
Proof.
  intros Hi. unfold verify_node, ordered_down, heap_ge. rewrite andb_true_iff, !negb_true_iff.
  split.
  - intros [H1 H2] c Hc Hci.
    destruct (child_cases i c ltac:(lia) Hci) as [-> | ->];
      [destruct (andb_false_elim _ _ H1) | destruct (andb_false_elim _ _ H2)]; zb; lia.
  - intros H. split; apply andb_false_iff;
      [destruct (decide (left_node i <= cur_len h)%nat) | destruct (decide (right_node i <= cur_len h)%nat)];
      try (left; apply Nat.leb_gt; lia); right; apply Z.ltb_ge; apply H;
      auto using half_left, half_right; unfold left_node, right_node in *; lia.
Qed.

Lemma ordered_downs h : heap_ordered h <->
  forall i, (1 <= i <= cur_len h / 2)%nat -> ordered_down h i.
Proof.
  split.
  - intros Ho i Hi c Hc <-. by apply Ho.
  - intros H j Hj. apply (H (j / 2)%nat); [|done|done].
    split; [apply half_bounds; lia | apply Nat.Div0.div_le_mono; lia].
Qed.

End correctness.

(** ** The heap as its callers use it *)

Lemma heap_push_spec cmp `{!HeapOrder cmp} ok h elm :
  heap_wf h -> heap_ordered cmp h -> elm ∉ elems h ->
  (ok = true \/ (cur_len h < avail_len h)%nat) ->
  exists h', ast_heap_push cmp ok h elm = (0, h') /\
    heap_wf h' /\ heap_ordered cmp h' /\ elems h' ≡ₚ elm :: elems h /\
    index_offset h' = index_offset h /\ cur_len h' = S (cur_len h).
Proof.
  intros Hwf Ho Hnew Hok. unfold ast_heap_push.
  destruct (Nat.eqb_spec (cur_len h) (avail_len h)) as [Efull|Hroom].
  - destruct Hok as [->|?]; [|lia].
    destruct (grow_heap_ok cmp h Hwf Ho) as (h1 & -> & W & O & L & E & N & X). cbn [ctrue negb Z.eqb].
    rewrite <- E in Hnew. destruct (push_append cmp h1 elm W O L Hnew) as (A & B & C & D & F).
    eexists. split_and!; [done..| |congruence|congruence]. by rewrite C, E.
  - cbn [ctrue negb Z.eqb]. destruct Hwf as [Ha ? ?] eqn:Ew.
    destruct (push_append cmp h elm Hwf Ho ltac:(lia) Hnew) as (A & B & C & D & F).
    by eexists.
Qed.

(** [ast_heap_push] of a new element, with room or with memory to grow,
    returns 0 and leaves a well-formed, ordered heap holding exactly one more
    element. *)
Theorem ast_heap_push_correct cmp `{!HeapOrder cmp} ok h elm :
  heap_wf h -> heap_ordered cmp h -> elm ∉ elems h ->
  (ok = true \/ (cur_len h < avail_len h)%nat) ->
  exists h', ast_heap_push cmp ok h elm = (0, h') /\
    heap_wf h' /\ heap_ordered cmp h' /\ elems h' ≡ₚ elm :: elems h /\
    index_offset h' = index_offset h.
Proof.
  intros Hwf Ho Hn Hok. destruct (heap_push_spec cmp ok h elm Hwf Ho Hn Hok) as (h' & ? & ? & ? & ? & ? & _).
  by exists h'.
Qed.

(** When the array is full and cannot be grown, [ast_heap_push] returns -1
    and the heap forgets everything it held (the realloc'd block is lost). *)
Theorem ast_heap_push_nomem cmp h elm :
  cur_len h = avail_len h ->
  fst (ast_heap_push cmp false h elm) = -1 /\ elems (snd (ast_heap_push cmp false h elm)) = [].
Proof. intros E. unfold ast_heap_push. by rewrite E, Nat.eqb_refl. Qed.

(** [ast_heap_pop] of a non-empty heap returns an element that no other
    element precedes and leaves a well-formed, ordered heap of the others. *)
Theorem ast_heap_pop_max cmp `{!HeapOrder cmp} h :
  heap_wf h -> heap_ordered cmp h -> (0 < cur_len h)%nat ->
  exists x h', ast_heap_pop cmp h = (x, h') /\ x = ast_heap_peek h 1 /\
    (forall y, y ∈ elems h -> 0 <= cmp x y) /\
    heap_wf h' /\ heap_ordered cmp h' /\ x :: elems h' ≡ₚ elems h.
Proof.
  intros Hwf Ho Hn. unfold ast_heap_pop.
  destruct (heap_remove_at_spec cmp h 1 Hwf Ho ltac:(lia)) as (h' & E & A & B & C & _).
  exists (heap_get h 1), h'. split_and!; try done.
  - unfold ast_heap_peek. destruct (cur_len h) as [|n] eqn:En; [lia|]. done.
  - intros y Hy. by apply (root_max_elem cmp).
Qed.

Lemma heap_remove_spec cmp `{!HeapOrder cmp} h elm :
  heap_wf h -> heap_ordered cmp h -> index_offset h >= 0 -> Z.of_nat (cur_len h) < 2 ^ 32 ->
  elm ∈ elems h ->
  exists h', ast_heap_remove cmp h elm = (elm, h') /\
    heap_wf h' /\ heap_ordered cmp h' /\ elm :: elems h' ≡ₚ elems h /\
    cur_len h' = (cur_len h - 1)%nat /\ index_offset h' = index_offset h.
Proof.
  intros Hwf Ho Hoff Hb Hin. destruct (elems_position h elm Hwf Hin) as (i & Hi & <-).
  destruct (heap_remove_at_spec cmp h i Hwf Ho Hi) as (h' & E & A & B & C & D & F).
  exists h'. split_and!; try done. unfold ast_heap_remove, get_index.
  destruct (index_offset h <? 0) eqn:Eo; zb; [lia|].
  rewrite (wf_index h Hwf Hoff i Hi). cbn [from_option]. unfold id.
  destruct (Z.eqb_spec (Z.of_nat i) (-1)); [lia|].
  rewrite wrapu_id by (unfold in_u; lia). by rewrite Nat2Z.id.
Qed.

(** C26: in a heap that keeps positions, [ast_heap_remove] of a stored object
    removes exactly that object, wherever it sits. *)
Theorem ast_heap_remove_correct cmp `{!HeapOrder cmp} h elm :
  heap_wf h -> heap_ordered cmp h -> index_offset h >= 0 -> Z.of_nat (cur_len h) < 2 ^ 32 ->
  elm ∈ elems h ->
  exists h', ast_heap_remove cmp h elm = (elm, h') /\
    heap_wf h' /\ heap_ordered cmp h' /\ elm :: elems h' ≡ₚ elems h.
Proof.
  intros Hwf Ho Hoff Hb Hin.
  destruct (heap_remove_spec cmp h elm Hwf Ho Hoff Hb Hin) as (h' & ? & ? & ? & ? & _).
  by exists h'.
Qed.

(** [ast_heap_verify] accepts exactly the ordered heaps. *)
Theorem ast_heap_verify_correct cmp `{!HeapOrder cmp} h :
  ast_heap_verify cmp h = 0 <-> heap_ordered cmp h.
Proof.
  rewrite ordered_downs. unfold ast_heap_verify. destruct (forallb _ _) eqn:E.
  - split; [|done]. intros _ i Hi. rewrite forallb_forall in E.
    apply (verify_node_iff cmp); [lia|]. apply E, in_seq. lia.
  - split; [done|]. intros H. exfalso. apply not_true_iff_false in E. apply E.
    apply forallb_forall. intros i Hi%in_seq. apply verify_node_iff; [lia|]. apply H. lia.
Qed.

(** ** Witnesses: integers under their usual order *)

Definition int_cmp (a b : ptr) : Z := a - b.

#[export] Instance int_cmp_order : HeapOrder int_cmp.
Proof. split; unfold int_cmp; intros; lia. Qed.

Definition empty3 : ast_heap := mk_heap 0 0 3 [NULL; NULL; NULL] ∅.
Definition heap3 : ast_heap :=
  snd (ast_heap_push int_cmp true (snd (ast_heap_push int_cmp true
    (snd (ast_heap_push int_cmp true empty3 5)) 9)) 7).

Lemma empty3_wf : heap_wf empty3.
Proof. split; [cbn; lia | done | cbn; intros; lia]. Qed.

Lemma heap3_wf : heap_wf heap3.
Proof.
  split; [vm_compute; lia | reflexivity |]. intros _ i Hi. vm_compute in Hi.
  destruct i as [|[|[|[|i]]]]; [lia|reflexivity..|lia].
Qed.

Lemma heap3_ordered : heap_ordered int_cmp heap3.
Proof.
  intros j Hj. vm_compute in Hj.
  destruct j as [|[|[|[|j]]]]; [lia|lia|vm_compute; congruence..|lia].
Qed.

Lemma ast_heap_push_correct_witness :
  exists h', ast_heap_push int_cmp true heap3 8 = (0, h') /\
    heap_wf h' /\ heap_ordered int_cmp h' /\ elems h' ≡ₚ 8 :: elems heap3 /\
    index_offset h' = index_offset heap3.
Proof.
  apply (ast_heap_push_correct int_cmp true heap3 8 heap3_wf heap3_ordered).
  - change (elems heap3) with [9; 5; 7]. set_solver by lia.
  - left. reflexivity.
Defined.

Lemma ast_heap_push_nomem_witness :
  fst (ast_heap_push int_cmp false heap3 8) = -1 /\
  elems (snd (ast_heap_push int_cmp false heap3 8)) = [].
Proof. apply (ast_heap_push_nomem int_cmp heap3 8). reflexivity. Defined.

Lemma ast_heap_pop_max_witness :
  exists x h', ast_heap_pop int_cmp heap3 = (x, h') /\ x = ast_heap_peek heap3 1 /\
    (forall y, y ∈ elems heap3 -> 0 <= int_cmp x y) /\
    heap_wf h' /\ heap_ordered int_cmp h' /\ x :: elems h' ≡ₚ elems heap3.
Proof.
  apply (ast_heap_pop_max int_cmp heap3 heap3_wf heap3_ordered). vm_compute. lia.
Defined.

Lemma ast_heap_remove_correct_witness :
  exists h', ast_heap_remove int_cmp heap3 5 = (5, h') /\
    heap_wf h' /\ heap_ordered int_cmp h' /\ 5 :: elems h' ≡ₚ elems heap3.
Proof.
  apply (ast_heap_remove_correct int_cmp heap3 5 heap3_wf heap3_ordered).
  - vm_compute. congruence.
  - vm_compute. reflexivity.
  - change (elems heap3) with [9; 5; 7]. set_solver.
Defined.

Lemma ast_heap_verify_correct_witness :
  ast_heap_verify int_cmp heap3 = 0 <-> heap_ordered int_cmp heap3.
Proof. apply (ast_heap_verify_correct int_cmp heap3). Defined.
