(* ===== verification/Time.v ===== *)
(** * [struct timeval] arithmetic: [include/asterisk/time.h] and [main/utils.c]

    Seconds and microseconds are [Z] (64-bit [time_t] and [suseconds_t], far
    from overflow); the [unsigned int] arguments of [ast_samp2tv] are wrapped
    where the source passes an [int]. *)

From S2P Require Import Prelude.
From Stdlib Require Import ZArith Lia.
From stdpp Require Import base list numbers.

#[local] Open Scope Z_scope.

Record timeval := mk_tv { tv_sec : Z; tv_usec : Z }.

#[export] Instance timeval_eq_dec : EqDecision timeval.
Proof. solve_decision. Defined.

Definition ONE_MILLION : Z := 1000000.

Definition ast_tv (sec usec : Z) : timeval := mk_tv sec usec.

Definition ast_tvdiff_sec (e s : timeval) : Z :=
  let result := tv_sec e - tv_sec s in
  if (result >? 0) && (tv_usec e <? tv_usec s) then result - 1
  else if (result <? 0) && (tv_usec e >? tv_usec s) then result + 1
  else result.

Definition ast_tvdiff_us (e s : timeval) : Z :=
  (tv_sec e - tv_sec s) * 1000000 + tv_usec e - tv_usec s.

Definition ast_tvdiff_ms (e s : timeval) : Z :=
  let sec_dif := (tv_sec e - tv_sec s) * 1000 in
  let usec_dif := Z.quot (1000000 + tv_usec e - tv_usec s) 1000 - 1000 in
  sec_dif + usec_dif.

Definition ast_tvzero (t : timeval) : bool := (tv_sec t =? 0) && (tv_usec t =? 0).

Definition ast_tvcmp (a b : timeval) : Z :=
  if tv_sec a <? tv_sec b then -1
  else if tv_sec a >? tv_sec b then 1
  else if tv_usec a <? tv_usec b then -1
  else if tv_usec a >? tv_usec b then 1
  else 0.

Definition ast_tveq (a b : timeval) : bool :=
  (tv_sec a =? tv_sec b) && (tv_usec a =? tv_usec b).

(** [ast_samp2tv]: both arguments are [unsigned int]. *)
Definition ast_samp2tv (nsamp rate : Z) : timeval :=
  ast_tv (nsamp / rate) (u32 ((nsamp mod rate) * (4000000 / rate)) / 4).

(** Negative microseconds are truncated, excess microseconds carried. *)
Definition tvfix (a : timeval) : timeval :=
  if tv_usec a >=? ONE_MILLION
  then mk_tv (tv_sec a + tv_usec a / ONE_MILLION) (tv_usec a mod ONE_MILLION)
  else if tv_usec a <? 0 then mk_tv (tv_sec a) 0
  else a.

Definition ast_tvadd (a b : timeval) : timeval :=
  let a := tvfix a in
  let b := tvfix b in
  let s := tv_sec a + tv_sec b in
  let u := tv_usec a + tv_usec b in
  if u >=? ONE_MILLION then mk_tv (s + 1) (u - ONE_MILLION) else mk_tv s u.

Definition ast_tvsub (a b : timeval) : timeval :=
  let a := tvfix a in
  let b := tvfix b in
  let s := tv_sec a - tv_sec b in
  let u := tv_usec a - tv_usec b in
  if u <? 0 then mk_tv (s - 1) (u + ONE_MILLION) else mk_tv s u.

(** [ast_remaining_ms], with the reading of the clock as an argument. *)
Definition ast_remaining_ms (now start : timeval) (max_ms : Z) : Z :=
  if max_ms <? 0 then max_ms
  else let ms := s32 (max_ms - ast_tvdiff_ms now start) in
       if ms <? 0 then 0 else ms.

(** ** Time as a number of microseconds *)

(** The range the helpers keep microseconds in. *)
Definition tv_ok (t : timeval) : Prop := 0 <= tv_usec t < 1000000.

Definition us (t : timeval) : Z := tv_sec t * 1000000 + tv_usec t.

Lemma tvfix_ok t : tv_ok (tvfix t).
Proof.
  unfold tv_ok, tvfix, ONE_MILLION. repeat case_if; cbn; try lia.
  apply Z.mod_pos_bound. lia.
Qed.

Lemma tvfix_id t : tv_ok t -> tvfix t = t.
Proof. unfold tv_ok, tvfix, ONE_MILLION. intros H. repeat case_if; try lia. done. Qed.

Lemma us_tvfix t : 0 <= tv_usec t -> us (tvfix t) = us t.
Proof.
  unfold us, tvfix, ONE_MILLION. intros H. repeat case_if; cbn; try lia.
  pose proof (Z.div_mod (tv_usec t) 1000000). lia.
Qed.

Lemma tvadd_ok a b : tv_ok (ast_tvadd a b).
Proof.
  pose proof (tvfix_ok a). pose proof (tvfix_ok b). unfold tv_ok, ast_tvadd, ONE_MILLION in *.
  case_if; cbn; lia.
Qed.

Lemma us_tvadd a b : 0 <= tv_usec a -> 0 <= tv_usec b -> us (ast_tvadd a b) = us a + us b.
Proof.
  intros Ha Hb. rewrite <- (us_tvfix a), <- (us_tvfix b) by done.
  unfold us, ast_tvadd, ONE_MILLION. case_if; cbn; lia.
Qed.

Lemma tvsub_ok a b : tv_ok (ast_tvsub a b).
Proof.
  pose proof (tvfix_ok a). pose proof (tvfix_ok b). unfold tv_ok, ast_tvsub, ONE_MILLION in *.
  case_if; cbn; lia.
Qed.

Lemma us_tvsub a b : 0 <= tv_usec a -> 0 <= tv_usec b -> us (ast_tvsub a b) = us a - us b.
Proof.
  intros Ha Hb. rewrite <- (us_tvfix a), <- (us_tvfix b) by done.
  unfold us, ast_tvsub, ONE_MILLION. case_if; cbn; lia.
Qed.

Lemma us_inj a b : tv_ok a -> tv_ok b -> us a = us b -> a = b.
Proof. destruct a, b. unfold tv_ok, us; cbn. intros. f_equal; lia. Qed.

(** On normalised times the comparison is that of the numbers. *)
Lemma tvcmp_us a b : tv_ok a -> tv_ok b ->
  (ast_tvcmp a b = -1 <-> us a < us b) /\ (ast_tvcmp a b = 0 <-> us a = us b) /\
  (ast_tvcmp a b = 1 <-> us a > us b).
Proof. unfold tv_ok, us, ast_tvcmp. intros. repeat case_if; lia. Qed.

(** Whatever the microseconds, the comparison is a total order. *)
Lemma tvcmp_range a b : -1 <= ast_tvcmp a b <= 1.
Proof. unfold ast_tvcmp. repeat case_if; lia. Qed.

Lemma tvcmp_flip a b : ast_tvcmp a b < 0 <-> 0 < ast_tvcmp b a.
Proof. unfold ast_tvcmp. repeat case_if; lia. Qed.

Lemma tvcmp_trans a b c : 0 <= ast_tvcmp b a -> 0 <= ast_tvcmp c b -> 0 <= ast_tvcmp c a.
Proof. unfold ast_tvcmp. repeat case_if; lia. Qed.

(** Milliseconds as scheduled delays: exact. *)
Lemma us_samp2tv_ms ms : 0 <= ms ->
  us (ast_samp2tv ms 1000) = ms * 1000 /\ tv_ok (ast_samp2tv ms 1000).
Proof.
  intros H. unfold us, tv_ok, ast_samp2tv, ast_tv; cbn [tv_sec tv_usec].
  change (4000000 / 1000) with 4000.
  pose proof (Z.mod_pos_bound ms 1000). pose proof (Z.div_mod ms 1000).
  rewrite wrapu_id by (unfold in_u; lia).
  replace (ms mod 1000 * 4000) with (ms mod 1000 * 1000 * 4) by lia.
  rewrite Z.div_mul by lia. lia.
Qed.

(** [ast_tvadd] and [ast_tvsub] of times with non-negative microseconds are
    addition and subtraction of the microsecond counts, with a normalised
    result; on such results [ast_tvsub] undoes [ast_tvadd]. *)
Theorem ast_tv_arith a b : 0 <= tv_usec a -> 0 <= tv_usec b ->
  us (ast_tvadd a b) = us a + us b /\ tv_ok (ast_tvadd a b) /\
  us (ast_tvsub a b) = us a - us b /\ tv_ok (ast_tvsub a b) /\
  (tv_ok a -> ast_tvsub (ast_tvadd a b) b = a).
Proof.
  intros Ha Hb. pose proof (tvadd_ok a b) as Hok.
  split_and!; [by apply us_tvadd | done | by apply us_tvsub | apply tvsub_ok |].
  intros Hoa. apply us_inj; [apply tvsub_ok | done |]. unfold tv_ok in Hok.
  rewrite us_tvsub, us_tvadd by lia. lia.
Qed.

(** [ast_tvdiff_ms] is the floor of the difference in milliseconds, also
    when it is negative (the bias in the source avoids truncation to zero). *)
Theorem ast_tvdiff_ms_floor e s : tv_ok e -> tv_ok s ->
  ast_tvdiff_ms e s = (us e - us s) / 1000.
Proof.
  unfold tv_ok, us, ast_tvdiff_ms. intros He Hs. rewrite Z.quot_div_nonneg by lia.
  replace (tv_sec e * 1000000 + tv_usec e - (tv_sec s * 1000000 + tv_usec s))
    with (((tv_sec e - tv_sec s) * 1000 - 1000) * 1000 + (1000000 + tv_usec e - tv_usec s)) by lia.
  rewrite Z.div_add_l by lia. lia.
Qed.

Lemma ast_tv_arith_witness :
  us (ast_tvadd (mk_tv 1 999999) (mk_tv 2 5)) = us (mk_tv 1 999999) + us (mk_tv 2 5) /\
  tv_ok (ast_tvadd (mk_tv 1 999999) (mk_tv 2 5)) /\
  us (ast_tvsub (mk_tv 1 999999) (mk_tv 2 5)) = us (mk_tv 1 999999) - us (mk_tv 2 5) /\
  tv_ok (ast_tvsub (mk_tv 1 999999) (mk_tv 2 5)) /\
  (tv_ok (mk_tv 1 999999) -> ast_tvsub (ast_tvadd (mk_tv 1 999999) (mk_tv 2 5)) (mk_tv 2 5) = mk_tv 1 999999).
Proof. apply (ast_tv_arith (mk_tv 1 999999) (mk_tv 2 5)); cbn; lia. Defined.

Lemma ast_tvdiff_ms_floor_witness :
  ast_tvdiff_ms (mk_tv 1 0) (mk_tv 1 500) = (us (mk_tv 1 0) - us (mk_tv 1 500)) / 1000.
Proof. apply (ast_tvdiff_ms_floor (mk_tv 1 0) (mk_tv 1 500)); unfold tv_ok; cbn; lia. Defined.
