(* ===== verification/Hashtab.v ===== *)
(** * Hash tables of object pointers: [main/hashtab.c]

    A table is an array of bucket chains together with a list [tlist] that
    threads all buckets.  Buckets have an identity (the address [calloc] gave
    them) because the same object may be inserted twice; chains and [tlist] are
    lists of buckets, head first, standing for the doubly linked lists.  A
    [NULL] array (after a failed resize) is the empty list, so that reading a
    chain of it is reading out of range: operations return [None] where the C
    code would dereference [NULL].

    The callbacks [compare] and [hash] are section variables; locking is left
    to the caller, and allocation outcomes are arguments. *)

From S2P Require Import Prelude.
From Stdlib Require Import ZArith Znumtheory Lia.
From stdpp Require Import base list numbers option sets gmap.

#[local] Open Scope Z_scope.

Record bucket := mk_bucket { b_addr : Z; b_object : ptr }.

#[export] Instance bucket_eq_dec : EqDecision bucket.
Proof. solve_decision. Defined.

Record ast_hashtab := mk_hashtab {
  array : list (list bucket);
  tlist : list bucket;
  hash_tab_size : Z;
  hash_tab_elements : Z;
  largest_bucket_size : Z;
  resize_count : Z;
  next_addr : Z            (** the allocator: the next fresh bucket address *)
}.

(** ** Resize policies and table sizes *)

(** [ast_hashtab_resize_java]: the quotient of two [int]s is above 0.75 as a
    [double] exactly when it is as a rational. *)
Definition ast_hashtab_resize_java (tab : ast_hashtab) : bool :=
  4 * hash_tab_elements tab >? 3 * hash_tab_size tab.

Definition ast_hashtab_resize_tight (tab : ast_hashtab) : bool :=
  hash_tab_elements tab >? hash_tab_size tab.

Definition ast_hashtab_resize_none (tab : ast_hashtab) : bool := false.

(** The loop of [ast_is_prime] over odd candidates. *)
Fixpoint is_prime_loop (fuel : nat) (num tnum limit : Z) : Z :=
  match fuel with
  | O => 1
  | S fuel =>
      if tnum <? limit then
        if Z.rem num tnum =? 0 then 0
        else is_prime_loop fuel num (tnum + 2) (Z.quot num tnum)
      else 1
  end.

(** [ast_is_prime]: [tnum] grows by 2 and stays below [num] while looping. *)
Definition ast_is_prime (num : Z) : Z :=
  if Z.land num 1 =? 0 then 0
  else is_prime_loop (Z.to_nat num) num 3 num.

(** [while (!ast_is_prime(i)) i++], with a bound on the number of turns. *)
Fixpoint next_prime (fuel : nat) (i : Z) : option Z :=
  if ctrue (ast_is_prime i) then Some i
  else match fuel with O => None | S fuel => next_prime fuel (i + 1) end.

Definition ast_hashtab_newsize_java (fuel : nat) (tab : ast_hashtab) : option Z :=
  next_prime fuel (Z.shiftl (hash_tab_size tab) 1).

Definition ast_hashtab_newsize_tight (fuel : nat) (tab : ast_hashtab) : option Z :=
  let x := Z.shiftl (hash_tab_size tab) 1 in
  next_prime fuel (hash_tab_size tab + x).

Definition ast_hashtab_newsize_none (tab : ast_hashtab) : option Z := Some (hash_tab_size tab).

(** ** String hashes, in [unsigned int] arithmetic *)

Definition hash_step (total c : Z) : Z :=
  let tmp := total in
  let total := u32 (Z.shiftl total 1) in
  let total := u32 (total + tmp) in
  let total := u32 (Z.shiftl total 2) in
  let total := u32 (total + tmp) in
  u32 (total + c).

Definition ast_hashtab_hash_string (str : list Z) : Z := foldl hash_step 0 str.

Definition toupper (c : Z) : Z := if (97 <=? c) && (c <=? 122) then c - 32 else c.

Definition ast_hashtab_hash_string_nocase (str : list Z) : Z :=
  foldl (fun total c => hash_step total (toupper c)) 0 str.

Definition ast_hashtab_hash_string_sax (str : list Z) : Z :=
  foldl (fun total c =>
    Z.lxor total (u32 (u32 (Z.shiftl total 5) + Z.shiftr total 2 + u32 (Z.shiftl total 10) + c)))
    0 str.

Definition ast_hashtab_hash_int (x : Z) : Z := u32 x.

Section operations.

Variable compare : ptr -> ptr -> Z.
Variable hash : ptr -> Z.
Variable resize : ast_hashtab -> bool.
Variable newsize : ast_hashtab -> option Z.

(** [ast_hashtab_create]: the size is made prime. *)
Definition ast_hashtab_create (ok1 ok2 : bool) (fuel : nat) (initial_buckets : Z)
    : option ast_hashtab :=
  if negb ok1 then None else
  match next_prime fuel initial_buckets with
  | None => None
  | Some size =>
      if negb ok2 then None else
      Some (mk_hashtab (replicate (Z.to_nat size) []) [] size 0 0 0 1)
  end.

Definition slot (tab : ast_hashtab) (obj : ptr) : Z := hash obj mod hash_tab_size tab.

Definition chain (tab : ast_hashtab) (h : Z) : option (list bucket) :=
  array tab !! Z.to_nat h.

(** The first bucket of a chain that the comparison accepts. *)
Fixpoint find_bucket (test : ptr -> bool) (c : list bucket) : option bucket :=
  match c with
  | [] => None
  | b :: c => if test (b_object b) then Some b else find_bucket test c
  end.

Definition ast_hashtab_lookup_internal (tab : ast_hashtab) (obj : ptr) (h : Z) : option ptr :=
  match chain tab h with
  | None => None
  | Some c =>
      Some (match find_bucket (fun o => compare obj o =? 0) c with
            | Some b => b_object b | None => NULL end)
  end.

Definition ast_hashtab_lookup (tab : ast_hashtab) (obj : ptr) : option ptr :=
  if obj =? NULL then Some NULL else ast_hashtab_lookup_internal tab obj (slot tab obj).

Definition ast_hashtab_lookup_with_hash (tab : ast_hashtab) (obj : ptr) (hashval : Z) : option ptr :=
  if obj =? NULL then Some NULL
  else ast_hashtab_lookup_internal tab obj (hashval mod hash_tab_size tab).

(** [ast_hashtab_lookup_bucket]: the object found, and the bucket number. *)
Definition ast_hashtab_lookup_bucket (tab : ast_hashtab) (obj : ptr) (bucket0 : Z)
    : option (ptr * Z) :=
  if obj =? NULL then Some (NULL, bucket0)
  else match ast_hashtab_lookup_internal tab obj (slot tab obj) with
       | Some r => Some (r, slot tab obj)
       | None => None
       end.

(** The loop of [ast_hashtab_resize] that moves the buckets of [tlist]. *)
Definition rehash_one (size : Z) (arr : list (list bucket)) (b : bucket) : list (list bucket) :=
  alter (cons b) (Z.to_nat (hash (b_object b) mod size)) arr.

Definition rehash (size : Z) (bs : list bucket) : list (list bucket) :=
  foldl (rehash_one size) (replicate (Z.to_nat size) []) bs.

Definition largest (arr : list (list bucket)) : Z :=
  foldl (fun m c => if Z.of_nat (length c) >? m then Z.of_nat (length c) else m) 0 arr.

Definition ast_hashtab_resize (ok : bool) (tab : ast_hashtab) : option ast_hashtab :=
  match newsize tab with
  | None => None
  | Some n =>
      if negb ok
      then Some (mk_hashtab [] (tlist tab) (hash_tab_size tab) (hash_tab_elements tab)
                            (largest_bucket_size tab) (resize_count tab) (next_addr tab))
      else let arr := rehash n (tlist tab) in
           Some (mk_hashtab arr (tlist tab) n (hash_tab_elements tab) (largest arr)
                            (resize_count tab + 1) (next_addr tab))
  end.

(** [ast_hashtab_insert_immediate_bucket]; [ok1] is the bucket's allocation,
    [ok2] that of a new array. *)
Definition ast_hashtab_insert_immediate_bucket (ok1 ok2 : bool)
    (tab : ast_hashtab) (obj : ptr) (h : Z) : option (Z * ast_hashtab) :=
  if obj =? NULL then Some (0, tab) else
  match chain tab h with
  | None => None
  | Some ch =>
      let c := Z.of_nat (length ch) in
      let lbs := if c + 1 >? largest_bucket_size tab then c + 1 else largest_bucket_size tab in
      if negb ok1
      then Some (0, mk_hashtab (array tab) (tlist tab) (hash_tab_size tab) (hash_tab_elements tab)
                               lbs (resize_count tab) (next_addr tab))
      else
        let b := mk_bucket (next_addr tab) obj in
        let tab := mk_hashtab (<[Z.to_nat h := b :: ch]> (array tab)) (b :: tlist tab)
                              (hash_tab_size tab) (hash_tab_elements tab + 1) lbs
                              (resize_count tab) (next_addr tab + 1) in
        if resize tab
        then match ast_hashtab_resize ok2 tab with
             | Some tab => Some (1, tab) | None => None end
        else Some (1, tab)
  end.

Definition ast_hashtab_insert_immediate (ok1 ok2 : bool) (tab : ast_hashtab) (obj : ptr)
    : option (Z * ast_hashtab) :=
  if obj =? NULL then Some (0, tab)
  else ast_hashtab_insert_immediate_bucket ok1 ok2 tab obj (slot tab obj).

Definition ast_hashtab_insert_safe (ok1 ok2 : bool) (tab : ast_hashtab) (obj : ptr)
    : option (Z * ast_hashtab) :=
  match ast_hashtab_lookup_bucket tab obj 0 with
  | None => None
  | Some (found, bucket) =>
      if found =? NULL then ast_hashtab_insert_immediate_bucket ok1 ok2 tab obj bucket
      else Some (0, tab)
  end.

(** [ast_hashtab_remove_object_internal]: unlink one bucket from its chain and
    from [tlist]. *)
Definition ast_hashtab_remove_object_internal (tab : ast_hashtab) (b : bucket) (h : Z)
    : ptr * ast_hashtab :=
  let del := filter (fun b' => b_addr b' <> b_addr b) in
  (b_object b,
   mk_hashtab (alter del (Z.to_nat h) (array tab)) (del (tlist tab)) (hash_tab_size tab)
              (hash_tab_elements tab - 1) (largest_bucket_size tab) (resize_count tab)
              (next_addr tab)).

Definition remove_by (test : ptr -> bool) (tab : ast_hashtab) (obj : ptr)
    : option (ptr * ast_hashtab) :=
  if obj =? NULL then Some (NULL, tab) else
  match chain tab (slot tab obj) with
  | None => None
  | Some c =>
      Some (match find_bucket test c with
            | Some b => ast_hashtab_remove_object_internal tab b (slot tab obj)
            | None => (NULL, tab)
            end)
  end.

Definition ast_hashtab_remove_object_via_lookup (tab : ast_hashtab) (obj : ptr) :=
  remove_by (fun o => compare obj o =? 0) tab obj.

Definition ast_hashtab_remove_this_object (tab : ast_hashtab) (obj : ptr) :=
  remove_by (fun o => obj =? o) tab obj.

Definition ast_hashtab_size (tab : ast_hashtab) : Z := hash_tab_elements tab.
Definition ast_hashtab_capacity (tab : ast_hashtab) : Z := hash_tab_size tab.

(** An iterator is the rest of [tlist]; [ast_hashtab_next] returns [NULL] at its
    end. *)
Definition ast_hashtab_start_traversal (tab : ast_hashtab) : list bucket := tlist tab.

Definition ast_hashtab_next (it : list bucket) : ptr * list bucket :=
  match it with
  | b :: rest => (b_object b, rest)
  | [] => (NULL, [])
  end.

End operations.

(** ** Well-formed tables *)

Section invariant.

Variable hash : ptr -> Z.

(** The objects of a table, most recently inserted first. *)
Definition objects (tab : ast_hashtab) : list ptr := b_object <$> tlist tab.

Record hashtab_wf (tab : ast_hashtab) : Prop := {
  wf_size : 0 < hash_tab_size tab;
  wf_array : length (array tab) = Z.to_nat (hash_tab_size tab);
  wf_slots : forall h c b, array tab !! h = Some c -> b ∈ c ->
             Z.of_nat h = hash (b_object b) mod hash_tab_size tab;
  wf_perm : concat (array tab) ≡ₚ tlist tab;
  wf_count : hash_tab_elements tab = Z.of_nat (length (tlist tab));
  wf_addrs : NoDup (b_addr <$> tlist tab);
  wf_fresh : Forall (fun b => b_addr b < next_addr tab) (tlist tab);
  wf_nonnull : Forall (fun b => b_object b <> NULL) (tlist tab)
}.

Lemma concat_insert_cons {A} (arr : list (list A)) h c b :
  arr !! h = Some c -> concat (<[h := b :: c]> arr) ≡ₚ b :: concat arr.
Proof.
  intros Hc. rewrite insert_take_drop by (by eapply lookup_lt_Some).
  rewrite <- (take_drop_middle arr h c Hc) at 3.
  rewrite !concat_app. cbn. symmetry. apply Permutation_middle.
Qed.

Lemma alter_insert {A} (f : A -> A) (l : list A) i x :
  l !! i = Some x -> alter f i l = <[i := f x]> l.
Proof.
  intros Hx. apply list_eq. intros j. destruct (decide (i = j)) as [->|].
  - rewrite list_lookup_alter_eq, Hx, list_lookup_insert_eq by (by eapply lookup_lt_Some). done.
  - by rewrite list_lookup_alter_ne, list_lookup_insert_ne.
Qed.

Lemma slot_lt size o : 0 < size -> (Z.to_nat (hash o mod size) < Z.to_nat size)%nat.
Proof. intros H. pose proof (Z.mod_pos_bound (hash o) size H). lia. Qed.

(** Rehashing keeps the buckets and puts each in its slot. *)
Lemma rehash_spec size bs : 0 < size ->
  length (rehash hash size bs) = Z.to_nat size /\ concat (rehash hash size bs) ≡ₚ bs /\
  (forall h c b, rehash hash size bs !! h = Some c -> b ∈ c ->
     Z.of_nat h = hash (b_object b) mod size).
Proof.
  intros Hs. unfold rehash. induction bs as [|b bs IH] using rev_ind.
  - cbn. rewrite length_replicate. split_and!; [done| |].
    + induction (Z.to_nat size) as [|n IHn]; [done|apply IHn].
    + intros h c b Hc Hb. apply lookup_replicate in Hc as [-> _]. set_solver.
  - rewrite foldl_snoc. set (arr := foldl _ _ bs) in *. destruct IH as (IL & IP & IS).
    unfold rehash_one. set (k := Z.to_nat _).
    assert (Hk : (k < length arr)%nat) by (rewrite IL; by apply slot_lt).
    destruct (lookup_lt_is_Some_2 arr k Hk) as [c0 Hc0].
    rewrite (alter_insert _ _ _ _ Hc0), length_insert. split_and!; [done| |].
    + rewrite concat_insert_cons, IP by done. apply Permutation_cons_append.
    + intros h c b' Hc Hb. destruct (decide (h = k)) as [->|].
      * rewrite list_lookup_insert_eq in Hc by done. simplify_eq.
        apply elem_of_cons in Hb as [->|Hb]; [|by eapply IS].
        subst k. pose proof (Z.mod_pos_bound (hash (b_object b)) size Hs). lia.
      * rewrite list_lookup_insert_ne in Hc by done. by eapply IS.
Qed.

Lemma chain_some tab obj : hashtab_wf tab -> exists c, chain tab (slot hash tab obj) = Some c.
Proof.
  intros [Hs Ha _ _ _ _ _ _]. apply lookup_lt_is_Some_2. rewrite Ha. by apply slot_lt.
Qed.

Lemma chain_tlist tab h c b : hashtab_wf tab -> array tab !! h = Some c -> b ∈ c -> b ∈ tlist tab.
Proof.
  intros Hwf Hc Hb. rewrite <- (wf_perm tab Hwf). apply list_elem_of_In, in_concat.
  exists c. split; apply list_elem_of_In; [by eapply list_elem_of_lookup_2|done].
Qed.

(** Every stored object is in the chain its hash selects. *)
Lemma tlist_chain tab b c : hashtab_wf tab -> b ∈ tlist tab ->
  chain tab (slot hash tab (b_object b)) = Some c -> b ∈ c.
Proof.
  intros Hwf Hb Hc. rewrite <- (wf_perm tab Hwf) in Hb.
  apply list_elem_of_In, in_concat in Hb as (c' & Hc' & Hb').
  apply list_elem_of_In in Hc', Hb'. apply list_elem_of_lookup in Hc' as [h Hh].
  pose proof (wf_slots tab Hwf h c' b Hh Hb') as E. unfold chain, slot in Hc.
  rewrite <- E, Nat2Z.id in Hc. congruence.
Qed.

Lemma find_bucket_some test c b : find_bucket test c = Some b -> b ∈ c /\ test (b_object b) = true.
Proof. induction c as [|b' c IH]; cbn; [done|]. case_if; intros; simplify_eq; set_solver. Qed.

Lemma find_bucket_none test c : find_bucket test c = None ->
  forall b, b ∈ c -> test (b_object b) = false.
Proof. induction c as [|b' c IH]; cbn; [set_solver|]. case_if; [done|]. set_solver. Qed.

(** Deleting one bucket by its address. *)
Lemma del_perm (l : list bucket) b : NoDup (b_addr <$> l) -> b ∈ l ->
  b :: filter (fun b' => b_addr b' <> b_addr b) l ≡ₚ l.
Proof.
  induction l as [|a l IH]; [set_solver|]. rewrite fmap_cons, NoDup_cons.
  intros [Hn Hd] Hin. rewrite filter_cons. apply elem_of_cons in Hin as [->|Hin].
  - rewrite decide_False by (intros H; by apply H). f_equiv.
    clear -Hn. induction l as [|x l IH]; [done|]. rewrite filter_cons.
    rewrite decide_True by (intros E; apply Hn; rewrite <- E; set_solver).
    f_equiv. apply IH. set_solver.
  - rewrite decide_True; [rewrite Permutation_swap; f_equiv; by apply IH|].
    intros E. apply Hn. rewrite E. set_solver.
Qed.

Lemma filter_id {A} (P : A -> Prop) `{!forall x, Decision (P x)} (l : list A) :
  (forall x, x ∈ l -> P x) -> filter P l = l.
Proof.
  intros Hl. induction l as [|a l IH]; [done|].
  rewrite filter_cons_True by set_solver. f_equal. set_solver.
Qed.

Lemma concat_del (arr : list (list bucket)) h c b :
  arr !! h = Some c -> b ∈ c -> NoDup (b_addr <$> concat arr) ->
  concat (alter (filter (fun b' => b_addr b' <> b_addr b)) h arr) =
  filter (fun b' => b_addr b' <> b_addr b) (concat arr).
Proof.
  intros Hc Hb Hnd. rewrite (alter_insert _ _ _ _ Hc).
  rewrite insert_take_drop by (by eapply lookup_lt_Some).
  rewrite <- (take_drop_middle arr h c Hc) in Hnd |- * at 3.
  rewrite !concat_app in *. cbn in *. rewrite !fmap_app in Hnd.
  apply NoDup_app in Hnd as (_ & Hx & Hnd). apply NoDup_app in Hnd as (_ & Hy & _).
  rewrite !filter_app. f_equal; [|f_equal]; symmetry; apply filter_id; intros x Hin E.
  - apply (Hx (b_addr x)); [by apply list_elem_of_fmap_2|]. rewrite E, elem_of_app. left.
    by apply list_elem_of_fmap_2.
  - apply (Hy (b_addr b)); [by apply list_elem_of_fmap_2|]. rewrite <- E.
    by apply list_elem_of_fmap_2.
Qed.

End invariant.

(** ** The operations preserve the invariant *)

Section correctness.

Variable compare : ptr -> ptr -> Z.
Variable hash : ptr -> Z.
Variable resize : ast_hashtab -> bool.
Variable newsize : ast_hashtab -> option Z.

(** The size callback produces a positive size. *)
Hypothesis newsize_ok : forall tab, 0 < hash_tab_size tab -> exists n, newsize tab = Some n /\ 0 < n.

Lemma resize_spec tab : 0 < hash_tab_size tab ->
  hash_tab_elements tab = Z.of_nat (length (tlist tab)) -> NoDup (b_addr <$> tlist tab) ->
  Forall (fun b => b_addr b < next_addr tab) (tlist tab) ->
  Forall (fun b => b_object b <> NULL) (tlist tab) ->
  exists tab', ast_hashtab_resize hash newsize true tab = Some tab' /\
    hashtab_wf hash tab' /\ tlist tab' = tlist tab.
Proof.
  intros Hs Hc Hn Hf Ho. destruct (newsize_ok tab Hs) as (n & En & Hn0).
  unfold ast_hashtab_resize. rewrite En. cbn [negb]. eexists. split; [done|]. split; [|done].
  destruct (rehash_spec hash n (tlist tab) Hn0) as (A & B & C). split; done.
Qed.

Lemma insert_bucket_spec tab obj : hashtab_wf hash tab -> obj <> NULL ->
  exists tab', ast_hashtab_insert_immediate_bucket hash resize newsize true true tab obj
                 (slot hash tab obj) = Some (1, tab') /\
    hashtab_wf hash tab' /\ objects tab' = obj :: objects tab.
Proof.
  intros Hwf Hobj. destruct (chain_some hash tab obj Hwf) as [ch Hch].
  unfold ast_hashtab_insert_immediate_bucket. destruct (Z.eqb_spec obj NULL); [done|].
  rewrite Hch. cbn [negb]. set (tab1 := mk_hashtab _ _ _ _ _ _ _).
  destruct Hwf as [Hs Ha Hsl Hp Hct Had Hfr Hnn].
  assert (Hwf1 : hashtab_wf hash tab1).
  { split; cbn.
    - done.
    - by rewrite length_insert.
    - intros h c b Hc Hb. pose proof (Z.mod_pos_bound (hash obj) (hash_tab_size tab) Hs).
      destruct (decide (h = Z.to_nat (slot hash tab obj))) as [->|].
      + rewrite list_lookup_insert_eq in Hc by (by eapply lookup_lt_Some). simplify_eq.
        apply elem_of_cons in Hb as [->|Hb]; [cbn; unfold slot in *; lia|]. by eapply Hsl.
      + rewrite list_lookup_insert_ne in Hc by done. by eapply Hsl.
    - rewrite concat_insert_cons by done. by rewrite Hp.
    - lia.
    - apply NoDup_cons. split; [|done]. intros (b & E & Hb)%list_elem_of_fmap.
      rewrite Forall_forall in Hfr. specialize (Hfr b Hb). lia.
    - apply Forall_cons. split; [cbn; lia|]. eapply Forall_impl; [exact Hfr|]. cbn; lia.
    - by apply Forall_cons. }
  destruct (resize tab1) eqn:E; [|by exists tab1].
  destruct Hwf1 as [? ? ? ? ? ? ? ?].
  destruct (resize_spec tab1) as (tab' & -> & W & T); [done..|].
  exists tab'. unfold objects. by rewrite T.
Qed.

Lemma remove_by_spec test tab obj : hashtab_wf hash tab -> obj <> NULL ->
  (forall b, b ∈ tlist tab -> test (b_object b) = true -> hash (b_object b) = hash obj) ->
  exists r tab', remove_by hash test tab obj = Some (r, tab') /\ hashtab_wf hash tab' /\
    ((r = NULL /\ tab' = tab /\ forall o, o ∈ objects tab -> test o = false) \/
     (r <> NULL /\ test r = true /\ r :: objects tab' ≡ₚ objects tab)).
Proof.
  intros Hwf Hobj Hcompat. unfold remove_by. destruct (Z.eqb_spec obj NULL); [done|].
  destruct (chain_some hash tab obj Hwf) as [c Hc]. rewrite Hc.
  destruct (find_bucket test c) as [b|] eqn:E.
  - apply find_bucket_some in E as [Hb Ht].
    pose proof (chain_tlist hash tab _ _ b Hwf Hc Hb) as Hbt.
    pose proof Hwf as [Hs Ha Hsl Hp Hct Had Hfr Hnn].
    pose proof (del_perm (tlist tab) b Had Hbt) as Hdp.
    unfold ast_hashtab_remove_object_internal. do 2 eexists. split; [done|].
    assert (Hal := alter_insert (filter (fun b' => b_addr b' <> b_addr b)) _ _ _ Hc).
    split; [split; cbn|right; split_and!].
    + done.
    + by rewrite length_alter.
    + intros h c' b' Hc' Hb'. rewrite Hal in Hc'.
      destruct (decide (h = Z.to_nat (slot hash tab obj))) as [->|].
      * rewrite list_lookup_insert_eq in Hc' by (by eapply lookup_lt_Some). simplify_eq.
        apply list_elem_of_filter in Hb' as [_ Hb']. by eapply Hsl.
      * rewrite list_lookup_insert_ne in Hc' by done. by eapply Hsl.
    + erewrite concat_del; [by rewrite Hp| exact Hc | done |]. by rewrite Hp.
    + apply Permutation_length in Hdp. cbn in Hdp. lia.
    + rewrite <- Hdp, fmap_cons in Had. by apply NoDup_cons in Had as [_ ?].
    + rewrite <- Hdp in Hfr. by apply Forall_cons in Hfr as [_ ?].
    + rewrite <- Hdp in Hnn. by apply Forall_cons in Hnn as [_ ?].
    + rewrite Forall_forall in Hnn. by apply Hnn.
    + done.
    + unfold objects; cbn. by rewrite <- fmap_cons, Hdp.
  - do 2 eexists. split; [done|]. split; [done|]. left. split_and!; [done..|].
    intros o (b & -> & Hb)%list_elem_of_fmap.
    destruct (test (b_object b)) eqn:Et; [|done].
    pose proof (find_bucket_none _ _ E b) as Hnone. rewrite <- Et. apply Hnone.
    eapply tlist_chain; [done..|]. unfold slot in *. by rewrite (Hcompat b).
Qed.

End correctness.

(** ** Primality of table sizes *)

Lemma odd_land_1 n : Z.land n 1 = 0 <-> Z.even n = true.
Proof.
  rewrite <- Z.negb_odd.
  change 1 with (Z.ones 1). rewrite Z.land_ones by lia. change (2 ^ 1) with 2.
  rewrite Zmod_odd. destruct (Z.odd n); cbn; lia.
Qed.

Lemma even_divisor d num : Z.even d = true -> (d | num) -> Z.even num = true.
Proof. intros Hd [k ->]. rewrite Z.even_mul, Hd. apply orb_true_r. Qed.

(** When no candidate below [tnum] divides and [tnum] has passed
    [num / (tnum - 2)], nothing divides. *)
Lemma sieve_done num tnum : 3 < tnum -> 1 < num -> num / (tnum - 2) <= tnum ->
  (forall d, 2 <= d < tnum -> ~ (d | num)) -> prime num.
Proof.
  intros Ht Hn Hl Hd. apply prime_alt. split; [done|]. intros n Hn1 [k Ek].
  assert (Hk : 1 < k < num) by nia.
  assert (tnum <= n).
  { destruct (Z_lt_ge_dec n tnum); [|lia]. exfalso. apply (Hd n); [lia|]. by exists k. }
  assert (tnum <= k).
  { destruct (Z_lt_ge_dec k tnum); [|lia]. exfalso. apply (Hd k); [lia|]. exists n. lia. }
  assert (tnum + 2 <= num / (tnum - 2)); [|lia].
  apply Z.div_le_lower_bound; [lia|]. nia.
Qed.

Lemma is_prime_loop_spec fuel num tnum limit :
  1 < num -> Z.even num = false -> 3 <= tnum -> Z.odd tnum = true -> num - tnum < Z.of_nat fuel ->
  (forall d, 2 <= d < tnum -> ~ (d | num)) ->
  (tnum = 3 /\ limit = num \/ 3 < tnum /\ limit = num / (tnum - 2)) ->
  (is_prime_loop fuel num tnum limit = 1 /\ prime num) \/
  (is_prime_loop fuel num tnum limit = 0 /\ ~ prime num).
Proof.
  revert tnum limit. induction fuel as [|fuel IH]; intros tnum limit Hn Ho Ht Hto Hf Hd Hl.
  - left. split; [done|]. apply prime_alt. split; [done|]. intros n Hn1. apply Hd. lia.
  - cbn [is_prime_loop].
    assert (Hlim : limit <= num).
    { destruct Hl as [[_ ->]|[? ->]]; [lia|]. apply Z.div_le_upper_bound; nia. }
    destruct (Z.ltb_spec tnum limit) as [Hlt|Hge].
    + destruct (Z.eqb_spec (Z.rem num tnum) 0) as [E|E].
      * right. split; [done|]. intros Hp. apply prime_alt in Hp as [_ Hp].
        apply (Hp tnum); [lia|]. apply Z.rem_divide; [lia|done].
      * rewrite Z.quot_div_nonneg by lia. apply IH; try done; try lia.
        -- by rewrite Z.odd_add, Hto.
        -- intros d Hdr. destruct (Z.eq_dec d tnum) as [->|].
           { intros H. apply E. by apply Z.rem_divide; [lia|]. }
           destruct (Z.eq_dec d (tnum + 1)) as [->|]; [|apply Hd; lia].
           intros H. rewrite (even_divisor (tnum + 1) num) in Ho; [done| |done].
           by rewrite Z.even_add, <- Z.negb_odd, Hto.
        -- right. split; [lia|]. f_equal. lia.
    + left. split; [done|]. destruct Hl as [[-> ->]|[? ->]].
      * apply prime_alt. split; [done|]. intros n Hn1. apply Hd. lia.
      * by apply (sieve_done num tnum).
Qed.

Lemma is_prime_cases num : 3 <= num ->
  (ast_is_prime num = 1 /\ prime num) \/ (ast_is_prime num = 0 /\ ~ prime num).
Proof.
  intros H. unfold ast_is_prime. destruct (Z.eqb_spec (Z.land num 1) 0) as [E|E].
  - right. split; [done|]. intros Hp. apply prime_alt in Hp as [_ Hp].
    apply (Hp 2); [lia|]. apply odd_land_1, Z.even_spec in E as [k ->]. exists k. lia.
  - assert (Ho : Z.even num = false).
    { destruct (Z.even num) eqn:Ee; [|done]. by apply odd_land_1 in Ee. }
    apply is_prime_loop_spec; try done; try lia.
    intros d Hd. assert (d = 2) as -> by lia. intros H2.
    by rewrite (even_divisor 2 num) in Ho.
Qed.

Lemma prime_divisor n : 1 < n -> exists p, prime p /\ (p | n).
Proof.
  intros Hn. assert (0 <= n) as Hn0 by lia. revert Hn. pattern n.
  apply Z_lt_induction; [|done]. clear n Hn0. intros n IH Hn.
  destruct (prime_dec n) as [Hp|Hp]; [exists n; split; [done|reflexivity]|].
  apply not_prime_divide in Hp as (m & Hm & Hd); [|done].
  destruct (IH m) as (p & Hp & Hpm); [lia..|]. exists p. split; [done|]. by transitivity m.
Qed.

(** There is a prime at or above every bound: a prime factor of [n! + 1]. *)
Lemma prime_above n : exists p, n <= p /\ prime p.
Proof.
  set (f := foldr (fun k acc => k * acc) 1 (seqZ 1 n)).
  assert (Hf : 1 <= f /\ forall d, 1 <= d <= n -> (d | f)).
  { subst f. assert (Hall : Forall (fun k => 1 <= k) (seqZ 1 n)).
    { apply Forall_forall. intros k Hk%elem_of_seqZ. lia. }
    assert (Hin : forall d, 1 <= d <= n -> d ∈ seqZ 1 n) by (intros; apply elem_of_seqZ; lia).
    revert Hin. generalize (seqZ 1 n) Hall. clear Hall. intros l Hl Hin.
    assert (A : 1 <= foldr (fun k acc => k * acc) 1 l /\
                forall d, d ∈ l -> (d | foldr (fun k acc => k * acc) 1 l)); [|naive_solver].
    clear Hin. induction Hl as [|k l Hk Hl IH]; cbn; [split; [lia|set_solver]|].
    destruct IH as [IH1 IH2]. split; [nia|]. intros d [->|Hd]%elem_of_cons.
    - apply Z.divide_factor_l.
    - apply Z.divide_mul_r. by apply IH2. }
  destruct Hf as [Hf1 Hf2]. destruct (prime_divisor (f + 1)) as (p & Hp & Hd); [lia|].
  exists p. split; [|done]. destruct (Z_le_gt_dec n p) as [|Hgt]; [done|]. exfalso.
  assert (1 < p) by (by destruct Hp).
  assert (Hp1 : (p | 1)); [|apply Z.divide_1_r_nonneg in Hp1; lia].
  replace 1 with ((f + 1) - f) by lia. apply Z.divide_sub_r; [done|]. apply Hf2. lia.
Qed.

Lemma next_prime_finds k i : 3 <= i -> prime (i + Z.of_nat k) ->
  exists p, next_prime k i = Some p /\ i <= p /\ prime p /\
  forall j, i <= j < p -> ~ prime j.
Proof.
  revert i. induction k as [|k IH]; intros i Hi Hp; cbn [next_prime];
    (destruct (is_prime_cases i Hi) as [[-> ?]|[-> Hnp]]; cbn [ctrue negb Z.eqb];
     [exists i; split_and!; [done|lia|done|intros; lia]|]).
  - replace (i + Z.of_nat 0) with i in Hp by lia. done.
  - destruct (IH (i + 1)) as (p & E & Hle & Hpp & Hmin); [lia| |].
    { replace (i + 1 + Z.of_nat k) with (i + Z.of_nat (S k)) by lia. done. }
    exists p. split_and!; [done|lia|done|]. intros j Hj.
    destruct (Z.eq_dec i j) as [<-|]; [done|]. apply Hmin. lia.
Qed.

Lemma next_prime_mono k k' i p : (k <= k')%nat -> next_prime k i = Some p -> next_prime k' i = Some p.
Proof.
  revert k' i. induction k as [|k IH]; intros [|k'] i Hk; cbn [next_prime]; try lia; try done;
    case_if; try done. apply IH. lia.
Qed.

(** ** What the table guarantees *)

(** Objects that compare equal have the same hash. *)
Class HashCompat (compare : ptr -> ptr -> Z) (hash : ptr -> Z) : Prop :=
  hash_compat : forall a b, compare a b = 0 -> hash a = hash b.

(** [ast_is_prime] decides primality for every number from 3 on (it takes 1
    for a prime and, seeing an even number, 2 for none). *)
Theorem ast_is_prime_correct num : 3 <= num -> ast_is_prime num = 1 <-> prime num.
Proof. intros H. destruct (is_prime_cases num H) as [[-> ?]|[-> ?]]; split; done. Qed.

(** The size search of [ast_hashtab_newsize_java] terminates, at the least
    prime not below twice the old size. *)
Theorem ast_hashtab_newsize_java_total tab : 2 <= hash_tab_size tab ->
  exists fuel p, forall fuel', (fuel <= fuel')%nat ->
    ast_hashtab_newsize_java fuel' tab = Some p /\
    2 * hash_tab_size tab <= p /\ prime p /\
    (forall j, 2 * hash_tab_size tab <= j < p -> ~ prime j).
Proof.
  intros Hs. destruct (prime_above (2 * hash_tab_size tab)) as (q & Hq & Hpq).
  set (k := Z.to_nat (q - 2 * hash_tab_size tab)).
  destruct (next_prime_finds k (2 * hash_tab_size tab)) as (p & E & A & B & D); [lia| |].
  { subst k. rewrite Z2Nat.id by lia. by replace (_ + _) with q by lia. }
  exists k, p. intros fuel' Hf. split_and!; try done. unfold ast_hashtab_newsize_java.
  rewrite Z.shiftl_mul_pow2, Z.mul_comm by lia. by apply (next_prime_mono k).
Qed.

Section contract.

Context (compare : ptr -> ptr -> Z) (hash : ptr -> Z) `{!HashCompat compare hash}.
Context (resize : ast_hashtab -> bool) (newsize : ast_hashtab -> option Z).
Hypothesis newsize_ok : forall tab, 0 < hash_tab_size tab -> exists n, newsize tab = Some n /\ 0 < n.

Lemma lookup_spec tab obj : hashtab_wf hash tab -> obj <> NULL ->
  exists r, ast_hashtab_lookup compare hash tab obj = Some r /\
    (r = NULL /\ (forall o, o ∈ objects tab -> compare obj o <> 0) \/
     r <> NULL /\ r ∈ objects tab /\ compare obj r = 0).
Proof.
  intros Hwf Hobj. unfold ast_hashtab_lookup, ast_hashtab_lookup_internal.
  destruct (Z.eqb_spec obj NULL); [done|].
  destruct (chain_some hash tab obj Hwf) as [c Hc]. rewrite Hc.
  destruct (find_bucket _ c) as [b|] eqn:E; eexists; (split; [done|]).
  - right. apply find_bucket_some in E as [Hb Ht]. zb.
    pose proof (chain_tlist hash tab _ _ b Hwf Hc Hb) as Hbt. split_and!; [|by apply list_elem_of_fmap_2|done].
    pose proof (wf_nonnull hash tab Hwf) as Hnn. rewrite Forall_forall in Hnn. by apply Hnn.
  - left. split; [done|]. intros o (b & -> & Hb)%list_elem_of_fmap Ec.
    pose proof (find_bucket_none _ _ E b) as Hnone. cbn in Hnone.
    rewrite (proj2 (Z.eqb_eq _ _) Ec) in Hnone. cut (true = false); [done|]. apply Hnone.
    eapply tlist_chain; [done..|]. rewrite <- Hc. unfold slot. by rewrite (HashCompat0 obj (b_object b) Ec).
Qed.

Lemma insert_safe_spec tab obj : hashtab_wf hash tab -> obj <> NULL ->
  exists rc tab', ast_hashtab_insert_safe compare hash resize newsize true true tab obj = Some (rc, tab') /\
    hashtab_wf hash tab' /\
    ((exists o, o ∈ objects tab /\ compare obj o = 0) /\ rc = 0 /\ tab' = tab \/
     (forall o, o ∈ objects tab -> compare obj o <> 0) /\ rc = 1 /\ objects tab' = obj :: objects tab).
Proof.
  intros Hwf Hobj. destruct (lookup_spec tab obj Hwf Hobj) as (r & E & Hr).
  unfold ast_hashtab_lookup in E. unfold ast_hashtab_insert_safe, ast_hashtab_lookup_bucket.
  destruct (Z.eqb_spec obj NULL); [done|]. rewrite E.
  destruct (Z.eqb_spec r NULL) as [->|Hr0].
  - destruct Hr as [[_ Hr]|[? _]]; [|done].
    destruct (insert_bucket_spec hash resize newsize newsize_ok tab obj Hwf Hobj) as (tab' & -> & W & O).
    exists 1, tab'. split_and!; [done..|]. right. done.
  - destruct Hr as [[? _]|(_ & Hin & Hc)]; [done|].
    exists 0, tab. split_and!; [done..|]. left. split_and!; [|done..]. by exists r.
Qed.

Lemma remove_this_spec tab obj : hashtab_wf hash tab -> obj ∈ objects tab ->
  exists tab', ast_hashtab_remove_this_object hash tab obj = Some (obj, tab') /\
    hashtab_wf hash tab' /\ obj :: objects tab' ≡ₚ objects tab.
Proof.
  intros Hwf Hin. pose proof Hin as (b & -> & Hb)%list_elem_of_fmap.
  pose proof (wf_nonnull hash tab Hwf) as Hnn. rewrite Forall_forall in Hnn.
  destruct (remove_by_spec hash (fun o => b_object b =? o) tab (b_object b) Hwf (Hnn b Hb))
    as (r & tab' & E & W & Hr).
  { intros b' _ Eb. zb. by rewrite Eb. }
  exists tab'. unfold ast_hashtab_remove_this_object. rewrite E.
  destruct Hr as [(_ & _ & Hno)|(_ & Hr & Hp)].
  - specialize (Hno _ Hin). by rewrite Z.eqb_refl in Hno.
  - zb. by subst r.
Qed.

End contract.

(** [ast_hashtab_lookup] finds a stored object that compares equal to the
    probe exactly when there is one, whatever chain or resize put it there. *)
Theorem ast_hashtab_lookup_correct compare hash `{!HashCompat compare hash} tab obj :
  hashtab_wf hash tab -> obj <> NULL ->
  exists r, ast_hashtab_lookup compare hash tab obj = Some r /\
    (r <> NULL <-> exists o, o ∈ objects tab /\ compare obj o = 0) /\
    (r <> NULL -> r ∈ objects tab /\ compare obj r = 0).
Proof.
  intros Hwf Hobj. destruct (lookup_spec compare hash tab obj Hwf Hobj) as (r & E & H).
  exists r. naive_solver.
Qed.

(** C28: [ast_hashtab_insert_safe] adds the object exactly when none compares
    equal to it, says so in its return value, and keeps the table well formed
    through a resize. *)
Theorem ast_hashtab_insert_safe_correct compare hash `{!HashCompat compare hash} resize newsize
    (newsize_ok : forall tab, 0 < hash_tab_size tab -> exists n, newsize tab = Some n /\ 0 < n)
    tab obj :
  hashtab_wf hash tab -> obj <> NULL ->
  exists rc tab', ast_hashtab_insert_safe compare hash resize newsize true true tab obj = Some (rc, tab') /\
    hashtab_wf hash tab' /\
    objects tab' = (if rc =? 1 then [obj] else []) ++ objects tab /\
    (rc = 1 <-> forall o, o ∈ objects tab -> compare obj o <> 0).
Proof.
  intros Hwf Hobj.
  destruct (insert_safe_spec compare hash resize newsize newsize_ok tab obj Hwf Hobj)
    as (rc & tab' & E & W & [((o & Ho & Hc) & -> & ->)|(Hno & -> & HO)]);
    do 2 eexists; (split; [done|]); (split; [done|]); split; try done.
  split; [done|]. intros Hno. by destruct (Hno o).
Qed.

(** [ast_hashtab_remove_this_object] removes one occurrence of a stored
    object, found by address in the chain its hash selects. *)
Theorem ast_hashtab_remove_this_object_correct hash tab obj :
  hashtab_wf hash tab -> obj ∈ objects tab ->
  exists tab', ast_hashtab_remove_this_object hash tab obj = Some (obj, tab') /\
    hashtab_wf hash tab' /\ obj :: objects tab' ≡ₚ objects tab.
Proof. apply remove_this_spec. Qed.

(** A resize whose allocation fails leaves a table whose next lookup
    dereferences the [NULL] array. *)
Theorem ast_hashtab_resize_nomem compare hash newsize n tab tab' obj :
  newsize tab = Some n -> ast_hashtab_resize hash newsize false tab = Some tab' -> obj <> NULL ->
  ast_hashtab_lookup compare hash tab' obj = None.
Proof.
  intros En E Hobj. unfold ast_hashtab_resize in E. rewrite En in E. cbn in E. simplify_eq.
  unfold ast_hashtab_lookup. by destruct (Z.eqb_spec obj NULL).
Qed.

(** ** Witnesses: a table of three slots keyed by the address itself *)

Definition addr_cmp (a b : ptr) : Z := if a =? b then 0 else 1.

#[export] Instance addr_compat : HashCompat addr_cmp ast_hashtab_hash_int.
Proof. intros a b. unfold addr_cmp. case_if; [by subst|done]. Qed.

Definition tab3 : ast_hashtab :=
  mk_hashtab [[mk_bucket 2 6]; [mk_bucket 1 4]; []] [mk_bucket 2 6; mk_bucket 1 4] 3 2 1 0 3.

Lemma tab3_wf : hashtab_wf ast_hashtab_hash_int tab3.
Proof.
  split; try done; cbn.
  - intros h c b Hc Hb. destruct h as [|[|[|h]]]; cbn in Hc; simplify_eq;
      [apply list_elem_of_singleton in Hb as ->; reflexivity..|].
    by apply not_elem_of_nil in Hb.
  - apply NoDup_cons. split; [set_solver by lia|]. apply NoDup_singleton.
  - repeat constructor; cbn; lia.
  - repeat constructor; cbn; lia.
Qed.

Lemma newsize7_ok : forall tab, 0 < hash_tab_size tab ->
  exists n, (fun _ : ast_hashtab => Some 7) tab = Some n /\ 0 < n.
Proof. intros. exists 7. split; [done|lia]. Qed.

Lemma ast_is_prime_correct_witness : ast_is_prime 23 = 1 <-> prime 23.
Proof. apply (ast_is_prime_correct 23). lia. Defined.

Lemma ast_hashtab_newsize_java_total_witness :
  exists fuel p, forall fuel', (fuel <= fuel')%nat ->
    ast_hashtab_newsize_java fuel' tab3 = Some p /\ 2 * hash_tab_size tab3 <= p /\ prime p /\
    (forall j, 2 * hash_tab_size tab3 <= j < p -> ~ prime j).
Proof. apply (ast_hashtab_newsize_java_total tab3). cbn. lia. Defined.

Lemma ast_hashtab_lookup_correct_witness :
  exists r, ast_hashtab_lookup addr_cmp ast_hashtab_hash_int tab3 4 = Some r /\
    (r <> NULL <-> exists o, o ∈ objects tab3 /\ addr_cmp 4 o = 0) /\
    (r <> NULL -> r ∈ objects tab3 /\ addr_cmp 4 r = 0).
Proof. apply (ast_hashtab_lookup_correct _ _ tab3 4 tab3_wf). lia. Defined.

Lemma ast_hashtab_insert_safe_correct_witness :
  exists rc tab', ast_hashtab_insert_safe addr_cmp ast_hashtab_hash_int ast_hashtab_resize_java
      (fun _ => Some 7) true true tab3 9 = Some (rc, tab') /\
    hashtab_wf ast_hashtab_hash_int tab' /\
    objects tab' = (if rc =? 1 then [9] else []) ++ objects tab3 /\
    (rc = 1 <-> forall o, o ∈ objects tab3 -> addr_cmp 9 o <> 0).
Proof.
  apply (ast_hashtab_insert_safe_correct _ _ _ _ newsize7_ok tab3 9 tab3_wf). lia.
Defined.

Lemma ast_hashtab_remove_this_object_correct_witness :
  exists tab', ast_hashtab_remove_this_object ast_hashtab_hash_int tab3 4 = Some (4, tab') /\
    hashtab_wf ast_hashtab_hash_int tab' /\ 4 :: objects tab' ≡ₚ objects tab3.
Proof.
  apply (ast_hashtab_remove_this_object_correct _ tab3 4 tab3_wf). cbn. set_solver.
Defined.

Lemma ast_hashtab_resize_nomem_witness :
  ast_hashtab_lookup addr_cmp ast_hashtab_hash_int
    (mk_hashtab [] (tlist tab3) 3 2 1 0 3) 4 = None.
Proof.
  apply (ast_hashtab_resize_nomem addr_cmp ast_hashtab_hash_int (fun _ => Some 7) 7 tab3);
    [reflexivity | reflexivity | lia].
Defined.
