(* ===== verification/Sched.v ===== *)
(** * The event scheduler: [main/sched.c]

    A context keeps the pending entries twice, in a heap ordered by expiry time
    and in a table keyed by entry id, with a small cache of free entries.  The
    entries live in [objs], a map from addresses to [struct sched]; their
    [__heap_index] field is the heap's own [index] cell (see [Heap]).  The heap
    is the model of [main/heap.c]; the table is used through the interface
    [ObjTable], which the model of [main/hashtab.c] implements ([Hashtab]).

    Reading the clock ([ast_tvnow]) takes the next reading of [time_at].
    A callback is arbitrary code that runs while the lock is released: it is a
    function on contexts.  The mutex, [ast_sched_report], [ast_sched_dump] and
    the thread wrapper (condition variables) are not modelled. *)

From S2P Require Import Prelude Time Heap Hashtab.
From Stdlib Require Import ZArith Lia Sorted.
From stdpp Require Import base list gmap numbers sets.

#[local] Open Scope Z_scope.

(** ** The table interface *)

(** A table of objects keyed by an [int] that the objects hold ([key] reads it
    from memory).  [None] stands for a crash. *)
Class ObjTable (T : Type) := {
  tb_objects : T -> list ptr;
  tb_wf : (ptr -> Z) -> T -> Prop;
  tb_lookup : (ptr -> Z) -> T -> Z -> option ptr;
  tb_insert : (ptr -> Z) -> T -> ptr -> option (Z * T);
  tb_remove : (ptr -> Z) -> T -> ptr -> option (ptr * T)
}.

Class ObjTableLaws (T : Type) `{ObjTable T} : Prop := {
  tb_wf_ext : forall key key' t, (forall p, p ∈ tb_objects t -> key p = key' p) ->
    tb_wf key t -> tb_wf key' t;
  tb_lookup_ok : forall key t i, tb_wf key t ->
    exists r, tb_lookup key t i = Some r /\
      (r = NULL /\ (forall o, o ∈ tb_objects t -> key o <> i) \/
       r <> NULL /\ r ∈ tb_objects t /\ key r = i);
  tb_insert_ok : forall key t p, tb_wf key t -> 0 < p ->
    (forall o, o ∈ tb_objects t -> key o <> key p) ->
    exists t', tb_insert key t p = Some (1, t') /\ tb_wf key t' /\ tb_objects t' = p :: tb_objects t;
  tb_remove_ok : forall key t p, tb_wf key t -> p ∈ tb_objects t ->
    exists t', tb_remove key t p = Some (p, t') /\ tb_wf key t' /\ p :: tb_objects t' ≡ₚ tb_objects t
}.

(** ** State *)

Record sched := mk_sched {
  id : Z;
  when : timeval;
  resched : Z;
  variable : Z;
  data : Z;
  callback : Z
}.

Definition sched0 : sched := mk_sched 0 (mk_tv 0 0) 0 0 0 0.

Definition SCHED_MAX_CACHE : Z := 128.

Section scheduler.

Context {T : Type} `{ObjTable T}.

Record sched_context := mk_con {
  eventcnt : Z;
  schedcnt : Z;
  highwater : Z;
  schedq_ht : T;
  sched_heap : ast_heap;
  schedc : list ptr;
  schedccnt : Z;
  objs : gmap ptr sched;
  next_obj : ptr;          (** the allocator *)
  clock : nat              (** clock readings taken so far *)
}.

(** [time_at n] is the [n]-th reading of the clock; [run_cb f d] runs the
    callback [f] on the data [d], with effects on the scheduler and on the rest
    of the program's state [W]. *)
Context (time_at : nat -> timeval).
Context {W : Type} (run_cb : Z -> Z -> sched_context * W -> Z * (sched_context * W)).

(** The entry at address [p]. *)
Definition obj (m : gmap ptr sched) (p : ptr) : sched := default sched0 (m !! p).

Definition key_of (m : gmap ptr sched) (p : ptr) : Z := id (obj m p).

Definition sched_time_cmp (m : gmap ptr sched) (a b : ptr) : Z :=
  ast_tvcmp (when (obj m b)) (when (obj m a)).

Definition ast_tvnow (c : sched_context) : timeval * sched_context :=
  (time_at (clock c),
   mk_con (eventcnt c) (schedcnt c) (highwater c) (schedq_ht c) (sched_heap c) (schedc c)
          (schedccnt c) (objs c) (next_obj c) (S (clock c))).

Definition set_obj (c : sched_context) (p : ptr) (s : sched) : sched_context :=
  mk_con (eventcnt c) (schedcnt c) (highwater c) (schedq_ht c) (sched_heap c) (schedc c)
         (schedccnt c) (<[p := s]> (objs c)) (next_obj c) (clock c).

(** [sched_alloc]: from the cache, or from the allocator if [ok]. *)
Definition sched_alloc (ok : bool) (c : sched_context) : ptr * sched_context :=
  match schedc c with
  | p :: rest =>
      (p, mk_con (eventcnt c) (schedcnt c) (highwater c) (schedq_ht c) (sched_heap c) rest
                 (u32 (schedccnt c - 1)) (objs c) (next_obj c) (clock c))
  | [] =>
      if ok
      then (next_obj c,
            mk_con (eventcnt c) (schedcnt c) (highwater c) (schedq_ht c) (sched_heap c) []
                   (schedccnt c) (<[next_obj c := sched0]> (objs c)) (next_obj c + 1) (clock c))
      else (NULL, c)
  end.

Definition sched_release (c : sched_context) (p : ptr) : sched_context :=
  if schedccnt c <? SCHED_MAX_CACHE
  then mk_con (eventcnt c) (schedcnt c) (highwater c) (schedq_ht c) (sched_heap c)
              (p :: schedc c) (u32 (schedccnt c + 1)) (objs c) (next_obj c) (clock c)
  else mk_con (eventcnt c) (schedcnt c) (highwater c) (schedq_ht c) (sched_heap c)
              (schedc c) (schedccnt c) (delete p (objs c)) (next_obj c) (clock c).

Definition ast_sched_wait (c : sched_context) : Z * sched_context :=
  let s := ast_heap_peek (sched_heap c) 1 in
  if s =? NULL then (-1, c)
  else let '(now, c) := ast_tvnow c in
       let ms := s32 (ast_tvdiff_ms (when (obj (objs c) s)) now) in
       (if ms <? 0 then 0 else ms, c).

(** [schedule]; [ok] is the outcome of growing the heap, whose failure the
    source ignores, as it does an id that is already in the table. *)
Definition schedule (ok : bool) (c : sched_context) (s : ptr) : option sched_context :=
  let h := snd (ast_heap_push (sched_time_cmp (objs c)) ok (sched_heap c) s) in
  match tb_insert (key_of (objs c)) (schedq_ht c) s with
  | None => None
  | Some (_, t) =>
      let n := u32 (schedcnt c + 1) in
      let hw := if n >? highwater c then n else highwater c in
      Some (mk_con (eventcnt c) n hw t h (schedc c) (schedccnt c) (objs c) (next_obj c) (clock c))
  end.

(** [sched_settime]: the delay is passed on as an [unsigned int]. *)
Definition sched_settime (c : sched_context) (t : timeval) (whn : Z) : timeval * sched_context :=
  let '(now, c) := ast_tvnow c in
  let t := if ast_tvzero t then now else t in
  let t := ast_tvadd t (ast_samp2tv (u32 whn) 1000) in
  (if ast_tvcmp t now <? 0 then now else t, c).

(** [ast_sched_add_variable]; [ok1] allocates the entry, [ok2] grows the heap. *)
Definition ast_sched_add_variable (ok1 ok2 : bool) (c : sched_context)
    (whn cb dat var : Z) : option (Z * sched_context) :=
  let '(tmp, c) := sched_alloc ok1 c in
  if tmp =? NULL then Some (-1, c)
  else
    let i := s32 (eventcnt c) in
    let c := mk_con (u32 (eventcnt c + 1)) (schedcnt c) (highwater c) (schedq_ht c) (sched_heap c)
                    (schedc c) (schedccnt c) (objs c) (next_obj c) (clock c) in
    let '(t, c) := sched_settime c (ast_tv 0 0) whn in
    let c := set_obj c tmp (mk_sched i t whn var dat cb) in
    match schedule ok2 c tmp with
    | Some c => Some (i, c)
    | None => None
    end.

Definition ast_sched_add (ok1 ok2 : bool) (c : sched_context) (whn cb dat : Z) :=
  ast_sched_add_variable ok1 ok2 c whn cb dat 0.

(** The probe of a lookup is a [struct sched] on the stack holding the id. *)
Definition ast_sched_find_data (c : sched_context) (i : Z) : option Z :=
  match tb_lookup (key_of (objs c)) (schedq_ht c) i with
  | None => None
  | Some res => Some (if res =? NULL then NULL else data (obj (objs c) res))
  end.

(** [ast_sched_del]; the thread's last deleted id only feeds a debug message. *)
Definition ast_sched_del (c : sched_context) (i : Z) : option (Z * sched_context) :=
  if i <? 0 then Some (0, c) else
  match tb_lookup (key_of (objs c)) (schedq_ht c) i with
  | None => None
  | Some s =>
      if s =? NULL then Some (-1, c)
      else
        let h := snd (ast_heap_remove (sched_time_cmp (objs c)) (sched_heap c) s) in
        match tb_remove (key_of (objs c)) (schedq_ht c) s with
        | None => None
        | Some (_, t) =>
            let c := mk_con (eventcnt c) (u32 (schedcnt c - 1)) (highwater c) t h (schedc c)
                            (schedccnt c) (objs c) (next_obj c) (clock c) in
            Some (0, sched_release c s)
        end
  end.

(** [AST_SCHED_DEL]: up to ten attempts. *)
Fixpoint sched_del_retry (n : nat) (c : sched_context) (i : Z) : option sched_context :=
  match n with
  | O => Some c
  | S n =>
      if i >? -1 then
        match ast_sched_del c i with
        | None => None
        | Some (rc, c) => if ctrue rc then sched_del_retry n c i else Some c
        end
      else Some c
  end.

Definition AST_SCHED_DEL (c : sched_context) (i : Z) : option sched_context :=
  sched_del_retry 10 c i.

Definition ast_sched_replace_variable (ok1 ok2 : bool) (old_id : Z) (c : sched_context)
    (whn cb dat var : Z) : option (Z * sched_context) :=
  match (if old_id >? 0 then AST_SCHED_DEL c old_id else Some c) with
  | None => None
  | Some c => ast_sched_add_variable ok1 ok2 c whn cb dat var
  end.

Definition ast_sched_replace (ok1 ok2 : bool) (old_id : Z) (c : sched_context)
    (whn cb dat : Z) : option (Z * sched_context) :=
  match (if old_id >? -1 then AST_SCHED_DEL c old_id else Some c) with
  | None => None
  | Some c => ast_sched_add ok1 ok2 c whn cb dat
  end.

(** What [ast_sched_runq] does with an entry once its callback returned [res]. *)
Definition requeue (ok : bool) (c : sched_context) (current : ptr) (res : Z) : option sched_context :=
  if ctrue res then
    let s := obj (objs c) current in
    let '(t, c) := sched_settime c (when s) (if ctrue (variable s) then res else resched s) in
    let c := set_obj c current (mk_sched (id s) t (resched s) (variable s) (data s) (callback s)) in
    schedule ok c current
  else Some (sched_release c current).

Fixpoint runq_loop (fuel : nat) (ok : bool) (c : sched_context) (w : W) (whn : timeval)
    (numevents : Z) : option (Z * (sched_context * W)) :=
  match fuel with
  | O => None
  | S fuel =>
      let current := ast_heap_peek (sched_heap c) 1 in
      if current =? NULL then Some (numevents, (c, w))
      else if negb (ast_tvcmp (when (obj (objs c) current)) whn =? -1) then Some (numevents, (c, w))
      else
        let '(current, h) := ast_heap_pop (sched_time_cmp (objs c)) (sched_heap c) in
        match tb_remove (key_of (objs c)) (schedq_ht c) current with
        | None => None
        | Some (_, t) =>
            let c := mk_con (eventcnt c) (u32 (schedcnt c - 1)) (highwater c) t h (schedc c)
                            (schedccnt c) (objs c) (next_obj c) (clock c) in
            let s := obj (objs c) current in
            let '(res, (c, w)) := run_cb (callback s) (data s) (c, w) in
            match requeue ok c current res with
            | None => None
            | Some c => runq_loop fuel ok c w whn (numevents + 1)
            end
        end
  end.

(** [ast_sched_runq]; the fuel bounds the number of events run. *)
Definition ast_sched_runq (fuel : nat) (ok : bool) (c : sched_context) (w : W)
    : option (Z * (sched_context * W)) :=
  let '(now, c) := ast_tvnow c in
  runq_loop fuel ok c w (ast_tvadd now (ast_tv 0 1000)) 0.

(** [ast_sched_when]: whole seconds until the entry, -1 if there is none. *)
Definition ast_sched_when (c : sched_context) (i : Z) : option (Z * sched_context) :=
  match tb_lookup (key_of (objs c)) (schedq_ht c) i with
  | None => None
  | Some s =>
      if s =? NULL then Some (-1, c)
      else let '(now, c) := ast_tvnow c in
           Some (tv_sec (when (obj (objs c) s)) - tv_sec now, c)
  end.

End scheduler.

Arguments sched_context T : clear implicits.

(** ** Invariant and abstraction *)

#[export] Instance sched_time_cmp_order m : HeapOrder (sched_time_cmp m).
Proof.
  split; unfold sched_time_cmp; intros *; [apply tvcmp_flip|].
  intros H1 H2. by apply tvcmp_trans with (when (obj m b)).
Qed.

Lemma heap_ordered_ext cmp cmp' h : heap_wf h ->
  (forall a b, a ∈ elems h -> b ∈ elems h -> cmp a b = cmp' a b) ->
  heap_ordered cmp h -> heap_ordered cmp' h.
Proof.
  intros [Ha Hl _] Heq Ho j Hj. pose proof (half_bounds j ltac:(lia)).
  assert (Hin : forall k, (1 <= k <= cur_len h)%nat -> heap_get h k ∈ elems h).
  { intros k Hk. apply list_elem_of_lookup. exists (k - 1)%nat. unfold elems.
    rewrite lookup_take_lt by lia. apply heap_get_lookup. lia. }
  unfold heap_ge. rewrite <- Heq by (apply Hin; lia). apply Ho. lia.
Qed.

Section correctness.

Context {T : Type} {TB : ObjTable T} {TL : ObjTableLaws T}.
Implicit Types c : sched_context T.

(** The pending entries. *)
Definition pending c : list ptr := elems (sched_heap c).

Record sched_wf c : Prop := {
  sw_heap : heap_wf (sched_heap c);
  sw_off : index_offset (sched_heap c) >= 0;
  sw_order : heap_ordered (sched_time_cmp (objs c)) (sched_heap c);
  sw_table : tb_wf (key_of (objs c)) (schedq_ht c);
  sw_same : tb_objects (schedq_ht c) ≡ₚ pending c;
  sw_ids : NoDup (key_of (objs c) <$> pending c);
  sw_entry : forall p, p ∈ pending c ->
    0 < p < next_obj c /\ 0 < key_of (objs c) p < eventcnt c /\ tv_ok (when (obj (objs c) p));
  sw_cnt : schedcnt c = Z.of_nat (length (pending c));
  sw_cntb : schedcnt c < 2 ^ 32 /\ schedcnt c <= highwater c;
  sw_cache : forall p, p ∈ schedc c -> 0 < p < next_obj c /\ p ∉ pending c;
  sw_cached : NoDup (schedc c);
  sw_ccnt : schedccnt c = Z.of_nat (length (schedc c)) /\ schedccnt c <= SCHED_MAX_CACHE;
  sw_next : 0 < next_obj c;
  sw_event : 0 < eventcnt c <= 2 ^ 31
}.

(** The scheduler seen from outside: entries by id. *)
Definition abs c : gmap Z sched :=
  list_to_map ((fun p => (key_of (objs c) p, obj (objs c) p)) <$> pending c).

Lemma abs_lookup c i s : NoDup (key_of (objs c) <$> pending c) ->
  abs c !! i = Some s <-> exists p, p ∈ pending c /\ obj (objs c) p = s /\ id s = i.
Proof.
  intros Hnd. unfold abs. rewrite <- elem_of_list_to_map.
  - rewrite list_elem_of_fmap. unfold key_of. naive_solver.
  - by rewrite <- list_fmap_compose.
Qed.

Lemma abs_lookup_None c i : NoDup (key_of (objs c) <$> pending c) ->
  abs c !! i = None <-> forall p, p ∈ pending c -> key_of (objs c) p <> i.
Proof.
  intros Hnd. rewrite eq_None_not_Some. split.
  - intros Hn p Hp <-. apply Hn. exists (obj (objs c) p). apply abs_lookup; [done|]. by exists p.
  - intros Hp [s (p & Hin & <- & Hid)%abs_lookup]; [|done]. by apply (Hp p).
Qed.

Lemma obj_insert_ne m p q s : p <> q -> obj (<[p := s]> m) q = obj m q.
Proof. intros. unfold obj. by rewrite lookup_insert_ne. Qed.

Lemma obj_insert m p s : obj (<[p := s]> m) p = s.
Proof. unfold obj. by rewrite lookup_insert_eq. Qed.

(** An entry that is neither pending nor cached: the one being added, or the one
    whose callback is running. *)
Record detached (p : ptr) c : Prop := {
  dt_ptr : 0 < p < next_obj c;
  dt_pend : p ∉ pending c;
  dt_cache : p ∉ schedc c
}.

(** Memory outside the pending entries does not matter to the invariant. *)
Lemma sched_wf_set_obj c p s : sched_wf c -> p ∉ pending c -> sched_wf (set_obj c p s).
Proof.
  intros [] Hp.
  assert (Ho : forall q, q ∈ pending c -> obj (<[p := s]> (objs c)) q = obj (objs c) q).
  { intros q Hq. apply obj_insert_ne. set_solver. }
  assert (Hk : key_of (<[p := s]> (objs c)) <$> pending c = key_of (objs c) <$> pending c).
  { apply list_fmap_ext. intros i q Hq. unfold key_of. rewrite Ho; [done|].
    by eapply list_elem_of_lookup_2. }
  split; try done; cbn [objs set_obj schedq_ht sched_heap schedc].
  - eapply heap_ordered_ext; [done| |done]. intros a b Ha Hb.
    unfold sched_time_cmp. by rewrite !Ho.
  - eapply tb_wf_ext; [|done]. intros q Hq. unfold key_of. rewrite Ho; [done|].
    by rewrite <- sw_same0.
  - change (pending (set_obj c p s)) with (pending c). by rewrite Hk.
  - intros q Hq. unfold key_of. rewrite Ho by done. by apply sw_entry0.
Qed.

Lemma schedule_spec c p : sched_wf c -> detached p c ->
  (forall q, q ∈ pending c -> key_of (objs c) q <> key_of (objs c) p) ->
  0 < key_of (objs c) p < eventcnt c -> tv_ok (when (obj (objs c) p)) -> schedcnt c + 1 < 2 ^ 32 ->
  exists c', schedule true c p = Some c' /\ sched_wf c' /\ pending c' ≡ₚ p :: pending c /\
    objs c' = objs c /\ eventcnt c' = eventcnt c /\ schedc c' = schedc c /\
    next_obj c' = next_obj c /\ clock c' = clock c.
Proof.
  intros [] [Hp Hnp Hnc] Hfresh Hkey Htv Hb. unfold schedule.
  destruct (heap_push_spec (sched_time_cmp (objs c)) true (sched_heap c) p)
    as (h & -> & Hw & Ho & Hel & Hoff & Hlen); [done..|by left|]. cbn [snd].
  destruct (tb_insert_ok (key_of (objs c)) (schedq_ht c) p) as (t & -> & Tw & To);
    [done|lia| |].
  { intros o Ho'. apply Hfresh. by rewrite <- sw_same0. }
  eexists. split; [done|]. unfold pending in *.
  assert (Hcnt : u32 (schedcnt c + 1) = Z.of_nat (length (elems h))).
  { rewrite Hel. cbn. rewrite wrapu_id by (unfold in_u; lia). lia. }
  split_and!; try done. split; unfold pending; cbn; try done.
  - by rewrite Hoff.
  - by rewrite To, Hel, sw_same0.
  - rewrite Hel. cbn. apply NoDup_cons. split; [|done].
    intros (q & E & Hq)%list_elem_of_fmap. by apply (Hfresh q).
  - intros q Hq. rewrite Hel in Hq. apply elem_of_cons in Hq as [->|Hq]; [done|]. by apply sw_entry0.
  - split; [rewrite Hcnt, Hel; cbn; lia|]. case_if; lia.
  - intros q Hq. split; [by apply sw_cache0|]. rewrite Hel. intros [->|Hq']%elem_of_cons; [done|].
    by apply (sw_cache0 q Hq).
Qed.

(** One more pending entry. *)
Lemma abs_cons c c' p s : NoDup (key_of (objs c) <$> pending c) ->
  NoDup (key_of (objs c') <$> pending c') -> pending c' ≡ₚ p :: pending c ->
  obj (objs c') p = s -> (forall q, q ∈ pending c -> obj (objs c') q = obj (objs c) q) ->
  abs c' = <[id s := s]> (abs c).
Proof.
  intros Hn Hn' Hp Hs Ho.
  assert (Hfr : forall q, q ∈ pending c -> id (obj (objs c) q) <> id s).
  { rewrite Hp in Hn'. cbn in Hn'. apply NoDup_cons in Hn' as [Hn' _].
    intros q Hq E. apply Hn'. apply list_elem_of_fmap. exists q. split; [|done].
    unfold key_of. by rewrite Hs, (Ho q Hq). }
  apply map_eq. intros i. apply option_eq. intros x. rewrite abs_lookup by done.
  setoid_rewrite Hp. setoid_rewrite elem_of_cons.
  destruct (decide (id s = i)) as [<-|Hne].
  - rewrite lookup_insert_eq. split; [|naive_solver].
    intros (q & [->|Hq] & <- & Hid); [by rewrite Hs|]. rewrite Ho in Hid by done. by apply Hfr in Hid.
  - rewrite lookup_insert_ne by done. rewrite abs_lookup by done. split.
    + intros (q & [->|Hq] & <- & Hid); [congruence|]. exists q. by rewrite <- (Ho q Hq).
    + intros (q & Hq & <- & Hid). exists q. rewrite Ho by done. auto.
Qed.

(** One pending entry less. *)
Lemma abs_del c c' p : NoDup (key_of (objs c) <$> pending c) ->
  p :: pending c' ≡ₚ pending c -> (forall q, q ∈ pending c' -> obj (objs c') q = obj (objs c) q) ->
  abs c' = delete (key_of (objs c) p) (abs c).
Proof.
  intros Hn Hp Ho. pose proof Hn as Hn'. rewrite <- Hp in Hn'. cbn in Hn'.
  apply NoDup_cons in Hn' as [Hnp Hn'].
  assert (Hk : key_of (objs c') <$> pending c' = key_of (objs c) <$> pending c').
  { apply list_fmap_ext. intros i q Hq. unfold key_of. rewrite Ho; [done|].
    by eapply list_elem_of_lookup_2. }
  apply map_eq. intros i. apply option_eq. intros x. rewrite abs_lookup by (by rewrite Hk).
  destruct (decide (key_of (objs c) p = i)) as [<-|Hne].
  - rewrite lookup_delete_eq. split; [|done]. intros (q & Hq & <- & Hid).
    destruct Hnp. apply list_elem_of_fmap. exists q. split; [|done]. rewrite Ho in Hid by done. done.
  - rewrite lookup_delete_ne by done. rewrite abs_lookup by done. setoid_rewrite <- Hp.
    setoid_rewrite elem_of_cons. split.
    + intros (q & Hq & <- & Hid). exists q. rewrite Ho in * by done. auto.
    + intros (q & [->|Hq] & <- & Hid); [done|]. exists q. by rewrite Ho.
Qed.

(** The counters may advance and the clock may tick. *)
Lemma sched_wf_advance c k e n : sched_wf c -> eventcnt c <= e <= 2 ^ 31 -> next_obj c <= n ->
  sched_wf (mk_con e (schedcnt c) (highwater c) (schedq_ht c) (sched_heap c) (schedc c)
                   (schedccnt c) (objs c) n k).
Proof.
  intros [] He Hn. split; try done; cbn [eventcnt next_obj]; try lia.
  - intros q Hq. destruct (sw_entry0 q Hq) as (?&?&?). cbn. split_and!; try done; lia.
  - intros q Hq. destruct (sw_cache0 q Hq) as (?&?). cbn. split; try done; lia.
Qed.

(** Taking an entry leaves the rest alone. *)
Lemma sched_alloc_spec c : sched_wf c ->
  exists p c', sched_alloc true c = (p, c') /\ sched_wf c' /\ detached p c' /\
    pending c' = pending c /\ (forall q, q ∈ pending c -> obj (objs c') q = obj (objs c) q) /\
    eventcnt c' = eventcnt c /\ schedcnt c' = schedcnt c /\ clock c' = clock c /\
    (forall q, detached q c -> detached q c' /\ q <> p /\ obj (objs c') q = obj (objs c) q).
Proof.
  intros Hwf. pose proof Hwf as []. unfold sched_alloc. destruct (schedc c) as [|p rest] eqn:Ec.
  - do 2 eexists. split; [done|].
    assert (Hn : next_obj c ∉ pending c) by (intros Hin; apply sw_entry0 in Hin; lia).
    pose proof (sched_wf_set_obj c (next_obj c) sched0 Hwf Hn) as W1.
    apply (sched_wf_advance _ (clock c) (eventcnt c) (next_obj c + 1)) in W1; [|cbn; lia|cbn; lia].
    cbn in W1. rewrite Ec in W1.
    assert (Hne : forall q, q ∈ pending c -> next_obj c <> q) by (intros q Hq <-; done).
    split_and!; try done.
    + split; cbn; [lia|done|set_solver].
    + intros q Hq. apply obj_insert_ne. by apply Hne.
    + intros q [Hq1 Hq2 Hq3]. split; [split; cbn; [lia|done|set_solver]|].
      split; [lia|]. apply obj_insert_ne. lia.
  - do 2 eexists. split; [done|].
    apply NoDup_cons in sw_cached0 as [Hpn Hnd].
    destruct (sw_cache0 p) as [Hp1 Hp2]; [set_solver|]. cbn in sw_ccnt0.
    split_and!; try done.
    + split; try done; cbn; [intros q Hq; apply sw_cache0; set_solver|].
      rewrite wrapu_id by (unfold in_u, SCHED_MAX_CACHE in *; lia). unfold SCHED_MAX_CACHE in *. lia.
    + intros q [Hq1 Hq2 Hq3]. rewrite Ec in Hq3.
      split; [split; [done|done|cbn; set_solver]|]. split; [set_solver|done].
Qed.

(** An entry taken out of the heap and of the table. *)
Definition unqueue c (t : T) (h : ast_heap) : sched_context T :=
  mk_con (eventcnt c) (u32 (schedcnt c - 1)) (highwater c) t h (schedc c)
         (schedccnt c) (objs c) (next_obj c) (clock c).

Lemma unqueue_spec c p t h : sched_wf c ->
  heap_wf h -> heap_ordered (sched_time_cmp (objs c)) h -> p :: elems h ≡ₚ pending c ->
  index_offset h = index_offset (sched_heap c) ->
  tb_wf (key_of (objs c)) t -> p :: tb_objects t ≡ₚ tb_objects (schedq_ht c) ->
  sched_wf (unqueue c t h) /\ detached p (unqueue c t h) /\
  abs (unqueue c t h) = delete (key_of (objs c) p) (abs c) /\
  0 < key_of (objs c) p < eventcnt c /\ tv_ok (when (obj (objs c) p)) /\
  (forall q, q ∈ elems h -> key_of (objs c) q <> key_of (objs c) p) /\
  schedcnt (unqueue c t h) + 1 = schedcnt c /\
  (forall q, detached q c -> detached q (unqueue c t h) /\ q <> p).
Proof.
  intros Hwf Hh Ho Hel Hoff Htw Hto. pose proof Hwf as [].
  assert (Hp : p ∈ pending c) by (rewrite <- Hel; set_solver).
  assert (Hsub : forall q, q ∈ elems h -> q ∈ pending c) by (intros q Hq; rewrite <- Hel; set_solver).
  pose proof sw_ids0 as Hnd. rewrite <- Hel in Hnd. cbn in Hnd. apply NoDup_cons in Hnd as [Hn1 Hn2].
  assert (Hne : forall q, q ∈ elems h -> key_of (objs c) q <> key_of (objs c) p).
  { intros q Hq E. apply Hn1. rewrite <- E. by apply list_elem_of_fmap_2. }
  assert (Hcnt : u32 (schedcnt c - 1) = Z.of_nat (length (elems h))).
  { apply Permutation_length in Hel. cbn in Hel. rewrite wrapu_id by (unfold in_u; lia). lia. }
  destruct (sw_entry0 p Hp) as (E1 & E2 & E3).
  assert (Hnp : p ∉ elems h) by (intros Hin; by apply (Hne p Hin)).
  assert (Hcp : p ∉ schedc c) by (intros Hin; by apply (sw_cache0 p Hin)).
  split_and!; try done; try lia.
  - split; unfold pending, unqueue; cbn [sched_heap objs schedq_ht schedc schedcnt highwater]; try done.
    + by rewrite Hoff.
    + apply (Permutation_cons_inv (a := p)). by rewrite Hel, Hto.
    + intros q Hq. by apply sw_entry0, Hsub.
    + rewrite Hcnt. apply Permutation_length in Hel. cbn in Hel. lia.
    + intros q Hq. split; [by apply sw_cache0|]. intros Hin. by apply (sw_cache0 q Hq), Hsub.
  - by apply (abs_del c (unqueue c t h) p).
  - apply Permutation_length in Hel. cbn in Hel |- *. lia.
  - intros q [Q1 Q2 Q3]. split; [split; try done|by intros ->]. intros Hin. by apply Q2, Hsub.
Qed.

Lemma release_spec c p : sched_wf c -> detached p c ->
  sched_wf (sched_release c p) /\ abs (sched_release c p) = abs c /\
  (forall q, detached q c -> q <> p ->
     detached q (sched_release c p) /\ obj (objs (sched_release c p)) q = obj (objs c) q).
Proof.
  intros Hwf [D1 D2 D3]. pose proof Hwf as []. unfold sched_release. case_if.
  - split_and!; try done.
    + split; try done; cbn [schedc schedccnt].
      * intros q [->|Hq]%elem_of_cons; [done|by apply sw_cache0].
      * by apply NoDup_cons.
      * unfold SCHED_MAX_CACHE in *. cbn. rewrite wrapu_id by (unfold in_u; lia). lia.
    + intros q [Q1 Q2 Q3] Hqp. split; [|done]. split; try done. cbn. set_solver.
  - assert (Ho : forall q, q <> p -> obj (delete p (objs c)) q = obj (objs c) q).
    { intros q Hq. unfold obj. by rewrite lookup_delete_ne by done. }
    assert (Hop : forall q, q ∈ pending c -> obj (delete p (objs c)) q = obj (objs c) q).
    { intros q Hq. apply Ho. by intros ->. }
    assert (Hk : key_of (delete p (objs c)) <$> pending c = key_of (objs c) <$> pending c).
    { apply list_fmap_ext. intros i q Hq. unfold key_of. rewrite Hop; [done|].
      by eapply list_elem_of_lookup_2. }
    split_and!.
    + split; try done; cbn [objs schedq_ht sched_heap].
      * eapply heap_ordered_ext; [done| |done]. intros a b Ha Hb.
        unfold sched_time_cmp. by rewrite !Hop.
      * eapply tb_wf_ext; [|done]. intros q Hq. unfold key_of. rewrite Hop; [done|].
        by rewrite <- sw_same0.
      * unfold pending in *. cbn. by rewrite Hk.
      * intros q Hq. unfold key_of. rewrite Hop by done. by apply sw_entry0.
    + unfold abs, pending in *. cbn. f_equal. apply list_fmap_ext. intros i q Hq.
      unfold key_of. rewrite Hop; [done|]. by eapply list_elem_of_lookup_2.
    + intros q [Q1 Q2 Q3] Hqp. split; [done|]. by apply Ho.
Qed.

Lemma pending_small c : sched_wf c -> Z.of_nat (cur_len (sched_heap c)) < 2 ^ 32.
Proof.
  intros []. rewrite sw_cnt0 in sw_cntb0. unfold pending, elems in *.
  rewrite length_take in sw_cntb0. destruct sw_heap0. lia.
Qed.

Lemma del_spec c i : sched_wf c -> 0 <= i ->
  match abs c !! i with
  | Some s => exists c', ast_sched_del c i = Some (0, c') /\ sched_wf c' /\
      abs c' = delete i (abs c) /\ eventcnt c' = eventcnt c /\ schedcnt c' <= schedcnt c /\
      (forall q, detached q c -> detached q c' /\ obj (objs c') q = obj (objs c) q)
  | None => ast_sched_del c i = Some (-1, c)
  end.
Proof.
  intros Hwf Hi. pose proof Hwf as []. unfold ast_sched_del.
  rewrite (proj2 (Z.ltb_ge i 0)) by lia.
  destruct (tb_lookup_ok (key_of (objs c)) (schedq_ht c) i sw_table0) as (r & -> & Hr).
  destruct Hr as [[-> Hno]|(Hr0 & Hr & Hk)].
  - rewrite (proj2 (abs_lookup_None c i sw_ids0)); [done|].
    intros q Hq. apply Hno. by rewrite sw_same0.
  - rewrite (proj2 (abs_lookup c i (obj (objs c) r) sw_ids0)).
    2:{ exists r. by rewrite <- sw_same0. }
    destruct (Z.eqb_spec r NULL); [done|].
    destruct (heap_remove_spec (sched_time_cmp (objs c)) (sched_heap c) r)
      as (h & -> & Hh & Ho & Hel & Hlen & Hoff); try done.
    { by apply pending_small. }
    { by rewrite sw_same0 in Hr. }
    destruct (tb_remove_ok (key_of (objs c)) (schedq_ht c) r) as (t & -> & Tw & To); try done.
    cbn [snd]. fold (unqueue c t h).
    destruct (unqueue_spec c r t h) as (W & D & A & _ & _ & _ & S1 & F); try done.
    destruct (release_spec (unqueue c t h) r W D) as (W' & A' & F').
    eexists. split; [done|]. split_and!; try done.
    + by rewrite A', A, Hk.
    + unfold sched_release. by case_if.
    + unfold sched_release. case_if; cbn in *; lia.
    + intros q Hq. destruct (F q Hq) as [Hq' Hqr]. destruct (F' q Hq' Hqr) as [? ->]. done.
Qed.

(** The head of the queue. *)
Lemma peek_spec c : sched_wf c ->
  (pending c = [] /\ ast_heap_peek (sched_heap c) 1 = NULL) \/
  (exists p, ast_heap_peek (sched_heap c) 1 = p /\ p <> NULL /\ p ∈ pending c /\
     (forall q, q ∈ pending c -> us (when (obj (objs c) p)) <= us (when (obj (objs c) q)))).
Proof.
  intros []. unfold ast_heap_peek. pose proof sw_heap0 as [Ha Hl _]. unfold pending in *.
  destruct (Nat.eqb_spec (cur_len (sched_heap c)) 0) as [E|E].
  - left. split; [|done]. unfold elems. by rewrite E.
  - right. cbn [orb Nat.eqb]. rewrite (proj2 (Nat.ltb_ge _ _)) by lia.
    assert (Hin : heap_get (sched_heap c) 1 ∈ elems (sched_heap c)).
    { apply list_elem_of_lookup. exists 0%nat. unfold elems.
      rewrite lookup_take_lt by lia. apply (heap_get_lookup _ 1). lia. }
    exists (heap_get (sched_heap c) 1). split_and!; try done.
    { destruct (sw_entry0 _ Hin) as (? & _). lia. }
    intros q Hq. pose proof (root_max_elem _ _ q sw_heap0 sw_order0 Hq) as Hge.
    unfold heap_ge, sched_time_cmp in Hge.
    destruct (tvcmp_us (when (obj (objs c) q)) (when (obj (objs c) (heap_get (sched_heap c) 1))))
      as (A & B & D); [by apply sw_entry0..|].
    pose proof (tvcmp_range (when (obj (objs c) q)) (when (obj (objs c) (heap_get (sched_heap c) 1)))).
    lia.
Qed.

(** Taking the head of the queue out. *)
Lemma pop_spec c : sched_wf c -> pending c <> [] ->
  exists p h t, p = ast_heap_peek (sched_heap c) 1 /\
    ast_heap_pop (sched_time_cmp (objs c)) (sched_heap c) = (p, h) /\
    tb_remove (key_of (objs c)) (schedq_ht c) p = Some (p, t) /\
    heap_wf h /\ heap_ordered (sched_time_cmp (objs c)) h /\ p :: elems h ≡ₚ pending c /\
    index_offset h = index_offset (sched_heap c) /\
    tb_wf (key_of (objs c)) t /\ p :: tb_objects t ≡ₚ tb_objects (schedq_ht c).
Proof.
  intros Hwf Hne. pose proof Hwf as [].
  assert (Hn : (1 <= cur_len (sched_heap c))%nat).
  { destruct (cur_len (sched_heap c)) as [|n] eqn:E; [|lia]. destruct Hne. unfold pending, elems.
    by rewrite E. }
  destruct (heap_remove_at_spec (sched_time_cmp (objs c)) (sched_heap c) 1)
    as (h & E & A & B & C & D & F); [done..|].
  destruct (tb_remove_ok (key_of (objs c)) (schedq_ht c) (heap_get (sched_heap c) 1))
    as (t & Et & Tw & To); [done| |].
  { rewrite sw_same0. unfold pending. rewrite <- C. set_solver. }
  exists (heap_get (sched_heap c) 1), h, t. split_and!; try done.
  unfold ast_heap_peek. rewrite (proj2 (Nat.eqb_neq _ 0)), (proj2 (Nat.ltb_ge _ _)) by lia. done.
Qed.

(** *** Operations that read the clock *)

Context (time_at : nat -> timeval).
Hypothesis time_ok : forall n, tv_ok (time_at n).

Lemma sched_settime_ok c t w : tv_ok (fst (sched_settime time_at c t w)).
Proof.
  unfold sched_settime, ast_tvnow; cbn. repeat case_if; auto using tvadd_ok.
Qed.

(** The time of a new entry: now plus the delay. *)
Lemma sched_settime_new c w : 0 <= w < 2 ^ 31 -> us (time_at (clock c)) <> 0 ->
  us (fst (sched_settime time_at c (ast_tv 0 0) w)) = us (time_at (clock c)) + w * 1000.
Proof.
  intros Hw Hnz. unfold sched_settime, ast_tvnow. cbn [ast_tvzero ast_tv tv_sec tv_usec Z.eqb andb].
  cbn [fst clock]. pose proof (time_ok (clock c)) as Hn. set (now := time_at (clock c)) in *.
  rewrite wrapu_id by (unfold in_u; lia).
  destruct (us_samp2tv_ms w) as [E Eo]; [lia|].
  assert (Hadd : us (ast_tvadd now (ast_samp2tv w 1000)) = us now + w * 1000).
  { rewrite us_tvadd by (unfold tv_ok in *; lia). lia. }
  destruct (tvcmp_us (ast_tvadd now (ast_samp2tv w 1000)) now) as (A & _ & _); [apply tvadd_ok|done|].
  case_if; cbn [fst]; [|done].
  pose proof (tvcmp_range (ast_tvadd now (ast_samp2tv w 1000)) now). lia.
Qed.

(** The entry [ast_sched_add_variable] creates. *)
Definition new_entry c (whn cb dat var : Z) : sched :=
  mk_sched (s32 (eventcnt c)) (fst (sched_settime time_at c (ast_tv 0 0) whn)) whn var dat cb.

Lemma add_variable_spec c whn cb dat var : sched_wf c -> eventcnt c < 2 ^ 31 ->
  schedcnt c + 1 < 2 ^ 32 ->
  exists c', ast_sched_add_variable time_at true true c whn cb dat var = Some (eventcnt c, c') /\
    sched_wf c' /\ abs c !! eventcnt c = None /\
    abs c' = <[eventcnt c := new_entry c whn cb dat var]> (abs c) /\
    eventcnt c' = eventcnt c + 1 /\
    (forall q, detached q c -> detached q c' /\ obj (objs c') q = obj (objs c) q).
Proof.
  intros Hwf He Hs. pose proof (sw_event c Hwf).
  destruct (sched_alloc_spec c Hwf) as (p & c1 & E1 & W1 & D1 & P1 & O1 & V1 & S1 & K1 & F1).
  unfold ast_sched_add_variable. rewrite E1. destruct (Z.eqb_spec p NULL) as [->|Hp].
  { destruct D1. lia. }
  rewrite V1. assert (Es : s32 (eventcnt c) = eventcnt c) by (apply wraps_id; unfold in_s; lia).
  rewrite Es. rewrite wrapu_id by (unfold in_u; lia).
  unfold sched_settime at 1. cbn [ast_tvnow clock eventcnt schedcnt highwater schedq_ht sched_heap schedc schedccnt objs next_obj].
  set (t := if _ <? 0 then _ else _). set (c2 := mk_con _ _ _ _ _ _ _ _ _ _).
  assert (Et : t = fst (sched_settime time_at c (ast_tv 0 0) whn)).
  { unfold t, sched_settime, ast_tvnow. cbn [fst clock]. by rewrite K1. }
  clearbody t. assert (W2 : sched_wf c2) by (apply sched_wf_advance; [done|lia|reflexivity]).
  destruct D1 as [D11 D12 D13].
  assert (W3 := sched_wf_set_obj c2 p (mk_sched (eventcnt c) t whn var dat cb) W2 D12).
  set (c3 := set_obj _ _ _) in *.
  assert (Hobj : forall q, q ∈ pending c -> obj (objs c3) q = obj (objs c) q).
  { intros q Hq. cbn. rewrite obj_insert_ne by (rewrite <- P1 in Hq; set_solver). by apply O1. }
  assert (Hnew : obj (objs c3) p = mk_sched (eventcnt c) t whn var dat cb) by apply obj_insert.
  assert (Hfresh : forall q, q ∈ pending c3 -> key_of (objs c3) q <> key_of (objs c3) p).
  { intros q Hq. change (pending c3) with (pending c1) in Hq. rewrite P1 in Hq.
    unfold key_of. rewrite Hobj, Hnew by done. cbn.
    destruct (sw_entry c Hwf q Hq) as (_ & Hk & _). unfold key_of in Hk. lia. }
  destruct (schedule_spec c3 p W3) as (c4 & -> & W4 & P4 & O4 & V4 & C4 & N4 & K4); try done.
  { unfold key_of. rewrite Hnew. cbn. lia. }
  { rewrite Hnew. cbn. rewrite Et. apply sched_settime_ok. }
  { cbn. lia. }
  exists c4. split; [done|]. split; [done|].
  change (pending c3) with (pending c1) in P4. rewrite P1 in P4.
  assert (Hnone : abs c !! eventcnt c = None).
  { apply abs_lookup_None; [apply Hwf|]. intros q Hq.
    destruct (sw_entry c Hwf q Hq) as (_ & Hk & _). lia. }
  split; [done|]. split_and!.
  - replace (eventcnt c) with (id (new_entry c whn cb dat var)) at 1 by done.
    apply (abs_cons c c4 p); [apply Hwf | apply W4 | done | |by rewrite O4].
    rewrite O4, Hnew. unfold new_entry. by rewrite Es, <- Et.
  - by rewrite V4.
  - intros q Hq. destruct (F1 q Hq) as ([G1 G2 G3] & Hqp & Hqo). destruct Hq as [_ Hq2 _]. split.
    + split; [rewrite N4; cbn; done| |by rewrite C4].
      unfold pending in *. rewrite P4. intros [->|?]%elem_of_cons; done.
    + rewrite O4. cbn. by rewrite obj_insert_ne.
Qed.

(** Putting an entry back, or letting it go. *)
Lemma requeue_spec c p res : sched_wf c -> detached p c -> abs c !! key_of (objs c) p = None ->
  0 < key_of (objs c) p < eventcnt c -> schedcnt c + 1 < 2 ^ 32 ->
  exists c', requeue time_at true c p res = Some c' /\ sched_wf c' /\
    (if ctrue res then exists t, abs c' = <[key_of (objs c) p :=
        mk_sched (key_of (objs c) p) t (resched (obj (objs c) p)) (variable (obj (objs c) p))
                 (data (obj (objs c) p)) (callback (obj (objs c) p))]> (abs c)
     else abs c' = abs c).
Proof.
  intros Hwf Hd Hnone Hkey Hcnt. unfold requeue. destruct (ctrue res).
  - set (s := obj (objs c) p) in *. set (w := if ctrue (variable s) then _ else _).
    destruct (sched_settime time_at c (when s) w) as [t c1] eqn:Es.
    assert (Ht : tv_ok t).
    { pose proof (sched_settime_ok c (when s) w) as Ht. by rewrite Es in Ht. }
    unfold sched_settime, ast_tvnow in Es. injection Es as _ <-.
    pose proof (sched_wf_advance c (S (clock c)) (eventcnt c) (next_obj c) Hwf) as W1.
    specialize (W1 ltac:(pose proof (sw_event c Hwf); lia) ltac:(lia)).
    set (c1 := mk_con _ _ _ _ _ _ _ _ _ _) in *. set (s' := mk_sched _ _ _ _ _ _).
    destruct Hd as [D1 D2 D3].
    pose proof (sched_wf_set_obj c1 p s' W1 D2) as W2.
    assert (Hobj : forall q, q ∈ pending c -> obj (objs (set_obj c1 p s')) q = obj (objs c) q).
    { intros q Hq. cbn. apply obj_insert_ne. by intros ->. }
    assert (Hnew : obj (objs (set_obj c1 p s')) p = s') by apply obj_insert.
    destruct (schedule_spec (set_obj c1 p s') p W2) as (c3 & -> & W3 & P3 & O3 & _); try done.
    + intros q Hq. unfold key_of. rewrite Hnew, Hobj by done.
      rewrite abs_lookup_None in Hnone by apply Hwf. by apply Hnone.
    + unfold key_of. by rewrite Hnew.
    + by rewrite Hnew.
    + exists c3. split; [done|]. split; [done|]. exists t.
      apply (abs_cons c c3 p s'); [apply Hwf|apply W3|done|by rewrite O3|].
      intros q Hq. rewrite O3. by apply Hobj.
  - destruct (release_spec c p Hwf Hd) as (W & A & _). by eexists.
Qed.

(** *** Running the queue *)

Section running.

Context {W : Type} (run_cb : Z -> Z -> sched_context T * W -> Z * (sched_context T * W)).

(** A callback uses the scheduler only through its operations: it keeps the
    invariant and does not touch the entry [p] that is being run. *)
Definition callbacks_ok : Prop :=
  forall f d c w p r c' w', sched_wf c -> schedcnt c + 1 < 2 ^ 32 ->
    detached p c -> abs c !! key_of (objs c) p = None ->
    run_cb f d (c, w) = (r, (c', w')) ->
    sched_wf c' /\ detached p c' /\ obj (objs c') p = obj (objs c) p /\
    abs c' !! key_of (objs c) p = None /\ eventcnt c <= eventcnt c' /\ schedcnt c' + 1 < 2 ^ 32.

(** One turn of the loop on a context whose first entry is due. *)
Lemma runq_loop_step fuel c w lim n :
  sched_wf c -> pending c <> [] ->
  us (when (obj (objs c) (ast_heap_peek (sched_heap c) 1))) < us lim -> tv_ok lim ->
  exists p t h, p = ast_heap_peek (sched_heap c) 1 /\ p ∈ pending c /\
    sched_wf (unqueue c t h) /\ detached p (unqueue c t h) /\
    abs (unqueue c t h) = delete (key_of (objs c) p) (abs c) /\
    p :: pending (unqueue c t h) ≡ₚ pending c /\
    0 < key_of (objs c) p < eventcnt c /\ schedcnt (unqueue c t h) + 1 = schedcnt c /\
    runq_loop time_at run_cb (S fuel) true c w lim n =
      let '(res, (c2, w2)) := run_cb (callback (obj (objs c) p)) (data (obj (objs c) p))
                                     (unqueue c t h, w) in
      match requeue time_at true c2 p res with
      | None => None
      | Some c3 => runq_loop time_at run_cb fuel true c3 w2 lim (n + 1)
      end.
Proof.
  intros Hwf Hne Hdue Hlim.
  destruct (pop_spec c Hwf Hne) as (p & h & t & -> & Ep & Et & A & B & C & D & E & F).
  destruct (peek_spec c Hwf) as [[? _]|(p & Epk & Hp0 & Hp & Hmin)]; [done|]. rewrite Epk in *.
  destruct (unqueue_spec c p t h) as (W1 & D1 & A1 & K1 & _ & _ & S1 & _); try done.
  exists p, t, h. split_and!; try done; try lia.
  cbn [runq_loop]. rewrite Epk. destruct (Z.eqb_spec p NULL); [done|].
  destruct (tvcmp_us (when (obj (objs c) p)) lim) as (L & _ & _); [by apply Hwf|done|].
  rewrite (proj2 L) by done. cbn [negb Z.eqb]. rewrite Ep, Et. done.
Qed.

(** The loop stops on a context whose first entry is not due. *)
Lemma runq_loop_stop fuel c w lim n : sched_wf c -> tv_ok lim ->
  (forall q, q ∈ pending c -> us lim <= us (when (obj (objs c) q))) ->
  runq_loop time_at run_cb (S fuel) true c w lim n = Some (n, (c, w)).
Proof.
  intros Hwf Hlim Hq. cbn [runq_loop].
  destruct (peek_spec c Hwf) as [[_ ->]|(p & -> & Hp0 & Hp & _)]; [done|].
  destruct (Z.eqb_spec p NULL); [done|].
  destruct (tvcmp_us (when (obj (objs c) p)) lim) as (L & _ & _); [by apply Hwf|done|].
  destruct (Z.eqb_spec (ast_tvcmp (when (obj (objs c) p)) lim) (-1)) as [E|E]; [|done].
  specialize (Hq p Hp). apply L in E. lia.
Qed.

(** Either the first entry is due or nothing is. *)
Lemma due_dec c lim : sched_wf c ->
  (pending c <> [] /\ us (when (obj (objs c) (ast_heap_peek (sched_heap c) 1))) < us lim) \/
  (forall q, q ∈ pending c -> us lim <= us (when (obj (objs c) q))).
Proof.
  intros Hwf. destruct (peek_spec c Hwf) as [[E _]|(p & -> & _ & Hp & Hmin)].
  - right. rewrite E. set_solver.
  - destruct (Z_lt_le_dec (us (when (obj (objs c) p))) (us lim)) as [Hlt|Hge].
    + left. split; [|done]. intros E. rewrite E in Hp. set_solver.
    + right. intros q Hq. specialize (Hmin q Hq). lia.
Qed.

Lemma runq_loop_safe fuel c w lim n m c' w' : callbacks_ok -> sched_wf c -> tv_ok lim ->
  runq_loop time_at run_cb fuel true c w lim n = Some (m, (c', w')) ->
  sched_wf c' /\ n <= m /\ (forall q, q ∈ pending c' -> us lim <= us (when (obj (objs c') q))).
Proof.
  intros Hcb. revert c w n. induction fuel as [|fuel IH]; intros c w n Hwf Hlim Hrun; [done|].
  destruct (due_dec c lim Hwf) as [[Hne Hdue]|Hnone].
  - destruct (runq_loop_step fuel c w lim n Hwf Hne Hdue Hlim)
      as (p & t & h & -> & Hp & W1 & D1 & A1 & _ & K1 & S1 & E). rewrite E in Hrun. clear E.
    set (p := ast_heap_peek _ _) in *. destruct (run_cb _ _ _) as [res [c2 w2]] eqn:Er.
    assert (Hn1 : abs (unqueue c t h) !! key_of (objs (unqueue c t h)) p = None)
      by (rewrite A1; apply lookup_delete_eq).
    pose proof (sw_cntb c Hwf) as [Hcb1 _].
    destruct (Hcb _ _ _ _ p _ _ _ W1 ltac:(lia) D1 Hn1 Er) as (W2 & D2 & O2 & N2 & E2 & S2).
    assert (Hk : key_of (objs c2) p = key_of (objs c) p) by (unfold key_of; by rewrite O2).
    destruct (requeue_spec c2 p res W2 D2) as (c3 & Eq & W3 & _);
      [by rewrite Hk | rewrite Hk; cbn in E2; lia | done |].
    rewrite Eq in Hrun. destruct (IH c3 w2 (n + 1) W3 Hlim Hrun) as (? & ? & ?). split_and!; try done; lia.
  - rewrite runq_loop_stop in Hrun by done. simplify_eq. split_and!; try done; lia.
Qed.

End running.

(** Callbacks that run once: they return 0 and leave the scheduler alone.  The
    state [W] records which were run, in order. *)
Definition run_once (f d : Z) (st : sched_context T * list (Z * Z))
    : Z * (sched_context T * list (Z * Z)) :=
  (0, (fst st, snd st ++ [(f, d)])).

Lemma run_once_ok : callbacks_ok run_once.
Proof.
  intros f d c w p r c' w' Hwf Hc Hd Hn E. unfold run_once in E. cbn in E. simplify_eq.
  split_and!; try done.
Qed.

Definition call_of (s : sched) : Z * Z := (callback s, data s).

Definition soonest_first : list sched -> Prop :=
  StronglySorted (fun a b => us (when a) <= us (when b)).

(** The entries due before [lim]. *)
Definition due (lim : timeval) (x : Z * sched) : Prop := us (when (snd x)) < us lim.

#[local] Instance due_dec' lim x : Decision (due lim x).
Proof. unfold due. apply _. Defined.

Lemma runq_once fuel c w lim n : sched_wf c -> tv_ok lim -> (length (pending c) < fuel)%nat ->
  exists l c', runq_loop time_at run_once fuel true c w lim n =
      Some (n + Z.of_nat (length l), (c', w ++ map call_of l)) /\
    sched_wf c' /\ soonest_first l /\
    abs c' = filter (fun x => ~ due lim x) (abs c) /\
    (forall s, s ∈ l <-> exists i, abs c !! i = Some s /\ us (when s) < us lim).
Proof.
  revert c w n. induction fuel as [|fuel IH]; intros c w n Hwf Hlim Hf; [lia|].
  destruct (due_dec c lim Hwf) as [[Hne Hdue]|Hnone].
  - destruct (runq_loop_step run_once fuel c w lim n Hwf Hne Hdue Hlim)
      as (p & t & h & Ep & Hp & W1 & D1 & A1 & P1 & K1 & S1 & E). rewrite E. clear E.
    rewrite <- Ep in Hdue. unfold run_once at 1; cbn [fst snd]. unfold requeue; cbn [ctrue negb Z.eqb].
    destruct (release_spec (unqueue c t h) p W1 D1) as (W2 & A2 & _).
    assert (Hlen : length (pending (sched_release (unqueue c t h) p)) = length (pending (unqueue c t h)))
      by (unfold sched_release; by case_if).
    apply Permutation_length in P1 as P1'. cbn in P1'.
    destruct (IH (sched_release (unqueue c t h) p)
                (w ++ [(callback (obj (objs c) p), data (obj (objs c) p))]) (n + 1))
      as (l & c' & E & W3 & Hs & A3 & Hl); [done|done|lia|].
    assert (Hpc : abs c !! key_of (objs c) p = Some (obj (objs c) p))
      by (apply abs_lookup; [apply Hwf|]; by exists p).
    rewrite A2, A1 in A3, Hl.
    exists (obj (objs c) p :: l), c'. split_and!; try done.
    + rewrite E. cbn [map length]. rewrite <- app_assoc. cbn. do 2 f_equal. lia.
    + constructor; [done|]. apply Forall_forall. intros s (i & Hi & _)%Hl.
      apply lookup_delete_Some in Hi as [_ Hi]. apply abs_lookup in Hi as (q & Hq & <- & _); [|apply Hwf].
      destruct (peek_spec c Hwf) as [[? _]|(p' & Ep' & _ & _ & Hmin)]; [done|].
      rewrite Ep, Ep'. by apply Hmin.
    + rewrite A3. apply map_eq. intros i. apply option_eq. intros s.
      rewrite !map_lookup_filter_Some, lookup_delete_Some. split; [naive_solver|].
      intros [Hi Hnd]. split_and!; try done. intros <-. rewrite Hpc in Hi. by simplify_eq.
    + intros s. rewrite elem_of_cons, Hl. split.
      * intros [->|(i & [_ Hi]%lookup_delete_Some & Hs')]; eauto.
      * intros (i & Hi & Hs'). destruct (decide (key_of (objs c) p = i)) as [<-|Hne'].
        -- left. congruence.
        -- right. exists i. split; [|done]. by apply lookup_delete_Some.
  - exists [], c. rewrite runq_loop_stop, app_nil_r by done. cbn [length]. rewrite Z.add_0_r. split_and!; try done.
    + constructor.
    + apply map_eq. intros i. apply option_eq. intros s. rewrite map_lookup_filter_Some.
      split; [|naive_solver]. intros Hi. split; [done|]. unfold due; cbn.
      apply abs_lookup in Hi as (q & Hq & <- & _); [|apply Hwf]. specialize (Hnone q Hq). lia.
    + intros s. split; [set_solver|]. intros (i & Hi & Hs).
      apply abs_lookup in Hi as (q & Hq & <- & _); [|apply Hwf]. specialize (Hnone q Hq). lia.
Qed.

End correctness.

(** ** The hash table of [main/hashtab.c] implements the interface *)

Section hashtab_table.

Context (newsize : ast_hashtab -> option Z).
Hypothesis newsize_ok : forall tab, 0 < hash_tab_size tab -> exists n, newsize tab = Some n /\ 0 < n.

(** [sched_cmp] and [sched_hash], reading the ids through [key]. *)
Definition sched_cmp (key : ptr -> Z) (a b : ptr) : Z := if key a =? key b then 0 else 1.
Definition sched_hash (key : ptr -> Z) (p : ptr) : Z := u32 (key p).

#[export] Instance sched_cmp_compat key : HashCompat (sched_cmp key) (sched_hash key).
Proof. intros a b. unfold sched_cmp, sched_hash. case_if; [by rewrite E|done]. Qed.

(** The probe of a lookup is a stack object, at an address of its own. *)
Definition PROBE : ptr := -1.
Definition with_probe (key : ptr -> Z) (i : Z) (p : ptr) : Z := if p =? PROBE then i else key p.

#[export] Instance hashtab_table : ObjTable ast_hashtab := {
  tb_objects := objects;
  tb_wf key t := hashtab_wf (sched_hash key) t /\ Forall (fun p => 0 < p) (objects t);
  tb_lookup key t i :=
    ast_hashtab_lookup (sched_cmp (with_probe key i)) (sched_hash (with_probe key i)) t PROBE;
  tb_insert key t p :=
    ast_hashtab_insert_safe (sched_cmp key) (sched_hash key) ast_hashtab_resize_java newsize
      true true t p;
  tb_remove key t p := ast_hashtab_remove_this_object (sched_hash key) t p
}.

Lemma hashtab_wf_ext hash hash' tab :
  (forall o, o ∈ objects tab -> hash o = hash' o) -> hashtab_wf hash tab -> hashtab_wf hash' tab.
Proof.
  intros Heq Hwf. pose proof Hwf as []. split; try done. intros h c b Hc Hb.
  rewrite <- Heq; [by eapply wf_slots|]. apply list_elem_of_fmap_2.
  by eapply chain_tlist.
Qed.

#[export] Instance hashtab_table_laws : ObjTableLaws ast_hashtab.
Proof.
  split; cbn.
  - intros key key' t Heq [Hwf Hpos]. split; [|done]. eapply hashtab_wf_ext; [|done].
    intros o Ho. unfold sched_hash. by rewrite Heq.
  - intros key t i [Hwf Hpos].
    assert (Hpr : forall o, o ∈ objects t -> with_probe key i o = key o).
    { intros o Ho. rewrite Forall_forall in Hpos. specialize (Hpos o Ho). unfold with_probe, PROBE.
      case_if; [lia|done]. }
    assert (Hwf' : hashtab_wf (sched_hash (with_probe key i)) t).
    { eapply hashtab_wf_ext; [|done]. intros o Ho. unfold sched_hash. by rewrite Hpr. }
    destruct (lookup_spec (sched_cmp (with_probe key i)) _ t PROBE Hwf') as (r & E & Hr); [done|].
    exists r. split; [done|]. unfold sched_cmp in Hr.
    change (with_probe key i PROBE) with i in Hr.
    destruct Hr as [[-> Hr]|(Hr0 & Hin & Hc)]; [left|right]; split_and!; try done.
    + intros o Ho Ek. apply (Hr o Ho). rewrite Hpr, Ek, Z.eqb_refl by done. done.
    + rewrite Hpr in Hc by done. by destruct (Z.eqb_spec i (key r)).
  - intros key t p [Hwf Hpos] Hp Hfr.
    destruct (insert_safe_spec (sched_cmp key) _ ast_hashtab_resize_java newsize newsize_ok t p Hwf)
      as (rc & t' & E & W & [((o & Ho & Hc) & _)|(_ & -> & HO)]); [lia| |].
    + exfalso. apply (Hfr o Ho). unfold sched_cmp in Hc.
      by destruct (Z.eqb_spec (key p) (key o)).
    + exists t'. split_and!; try done. rewrite HO. by apply Forall_cons.
  - intros key t p [Hwf Hpos] Hp.
    destruct (remove_this_spec (sched_hash key) t p Hwf Hp) as (t' & E & W & P).
    exists t'. split_and!; try done. rewrite <- P in Hpos. by apply Forall_cons in Hpos as [_ ?].
Qed.

End hashtab_table.

(** ** What the scheduler guarantees *)

Section guarantees.

Context {T : Type} {TB : ObjTable T} {TL : ObjTableLaws T}.
Context (time_at : nat -> timeval).

(** [ast_sched_add_variable] refines insertion into the map of entries by
    id: it returns an id that was not in use, under which the new entry is then
    found, due [whn] milliseconds after the clock reading, and keeps the heap,
    the table, the cache and the counters consistent. *)
Theorem ast_sched_add_refines (time_ok : forall n, tv_ok (time_at n)) (c : sched_context T)
    whn cb dat var :
  sched_wf c -> eventcnt c < 2 ^ 31 -> schedcnt c + 1 < 2 ^ 32 ->
  0 <= whn < 2 ^ 31 -> us (time_at (clock c)) <> 0 ->
  exists c' t, ast_sched_add_variable time_at true true c whn cb dat var = Some (eventcnt c, c') /\
    sched_wf c' /\ abs c !! eventcnt c = None /\
    abs c' = <[eventcnt c := mk_sched (eventcnt c) t whn var dat cb]> (abs c) /\
    us t = us (time_at (clock c)) + whn * 1000.
Proof.
  intros Hwf He Hs Hw Hnz.
  destruct (add_variable_spec time_at time_ok c whn cb dat var Hwf He Hs)
    as (c' & E & W & Hn & A & _). do 2 eexists. split_and!; try done.
  - rewrite A. unfold new_entry. rewrite wraps_id; [done|lia|].
    pose proof (sw_event c Hwf). unfold in_s. lia.
  - by apply sched_settime_new.
Qed.

(** C22: [ast_sched_del] refines deletion from the map: it removes exactly the
    entry of that id and returns 0, or changes nothing and returns -1 when
    there is none. *)
Theorem ast_sched_del_refines (c : sched_context T) i : sched_wf c -> 0 <= i ->
  exists rc c', ast_sched_del c i = Some (rc, c') /\ sched_wf c' /\
    abs c' = delete i (abs c) /\ rc = (if decide (is_Some (abs c !! i)) then 0 else -1).
Proof.
  intros Hwf Hi. pose proof (del_spec c i Hwf Hi) as Hd. destruct (abs c !! i) as [s|] eqn:E.
  - destruct Hd as (c' & Ed & W & A & _). exists 0, c'. split_and!; try done.
  - exists (-1), c. split_and!; try done. by rewrite delete_id.
Qed.

(** [ast_sched_wait] answers -1 on an empty queue and otherwise the whole
    milliseconds from now to the soonest entry, never negative. *)
Theorem ast_sched_wait_soonest (c : sched_context T) : sched_wf c ->
  (forall p, p ∈ pending c -> in_s 32 (ast_tvdiff_ms (when (obj (objs c) p)) (time_at (clock c)))) ->
  (abs c = ∅ /\ fst (ast_sched_wait time_at c) = -1) \/
  (exists i s, abs c !! i = Some s /\
     (forall j s', abs c !! j = Some s' -> us (when s) <= us (when s')) /\
     fst (ast_sched_wait time_at c) = Z.max 0 (ast_tvdiff_ms (when s) (time_at (clock c)))).
Proof.
  intros Hwf Hr. unfold ast_sched_wait.
  destruct (peek_spec c Hwf) as [[E ->]|(p & -> & Hp0 & Hp & Hmin)].
  - left. split; [|done]. unfold abs. by rewrite E.
  - right. exists (key_of (objs c) p), (obj (objs c) p).
    split; [apply abs_lookup; [apply Hwf|]; by exists p|]. split.
    + intros j s' (q & Hq & <- & _)%abs_lookup; [|apply Hwf]. by apply Hmin.
    + destruct (Z.eqb_spec p NULL); [done|]. cbn. rewrite wraps_id by (auto; lia). case_if; lia.
Qed.

(** When [ast_sched_runq] returns, whatever the callbacks did through the
    scheduler's interface, the context is consistent and no remaining entry is
    due before the limit (one millisecond after the clock reading). *)
Theorem ast_sched_runq_safe (time_ok : forall n, tv_ok (time_at n)) {W : Type}
    (run_cb : Z -> Z -> sched_context T * W -> Z * (sched_context T * W))
    fuel (c : sched_context T) w m c' w' :
  callbacks_ok run_cb -> sched_wf c ->
  ast_sched_runq time_at run_cb fuel true c w = Some (m, (c', w')) ->
  sched_wf c' /\ 0 <= m /\
  forall i s, abs c' !! i = Some s -> us (time_at (clock c)) + 1000 <= us (when s).
Proof.
  intros Hcb Hwf Hrun. unfold ast_sched_runq, ast_tvnow in Hrun.
  pose proof (sched_wf_advance c (S (clock c)) (eventcnt c) (next_obj c) Hwf) as W1.
  specialize (W1 ltac:(pose proof (sw_event c Hwf); lia) ltac:(lia)).
  assert (Hlim : us (ast_tvadd (time_at (clock c)) (ast_tv 0 1000)) = us (time_at (clock c)) + 1000).
  { pose proof (time_ok (clock c)) as Ht. unfold tv_ok in Ht. rewrite us_tvadd by (cbn; lia). done. }
  destruct (runq_loop_safe time_at time_ok run_cb _ _ _ _ _ _ _ _ Hcb W1 (tvadd_ok _ _) Hrun)
    as (W2 & Hm & Hq). split_and!; [done..|].
  intros i s (q & Hin & <- & _)%abs_lookup; [|apply W2]. rewrite <- Hlim. by apply Hq.
Qed.

(** C38: with callbacks that run once, [ast_sched_runq] terminates (fuel one
    more than the queue is enough), runs exactly the entries due before its
    limit, soonest first, counts them, and keeps the others. *)
Theorem ast_sched_runq_order (time_ok : forall n, tv_ok (time_at n)) fuel (c : sched_context T) w :
  sched_wf c -> (length (pending c) < fuel)%nat ->
  exists l c', ast_sched_runq time_at run_once fuel true c w =
      Some (Z.of_nat (length l), (c', w ++ map call_of l)) /\
    sched_wf c' /\ soonest_first l /\
    (forall s, s ∈ l <-> exists i, abs c !! i = Some s /\ us (when s) < us (time_at (clock c)) + 1000) /\
    (forall i s, abs c' !! i = Some s <-> abs c !! i = Some s /\ us (time_at (clock c)) + 1000 <= us (when s)).
Proof.
  intros Hwf Hf. unfold ast_sched_runq, ast_tvnow.
  pose proof (sched_wf_advance c (S (clock c)) (eventcnt c) (next_obj c) Hwf) as W1.
  specialize (W1 ltac:(pose proof (sw_event c Hwf); lia) ltac:(lia)).
  assert (Hlim : us (ast_tvadd (time_at (clock c)) (ast_tv 0 1000)) = us (time_at (clock c)) + 1000).
  { pose proof (time_ok (clock c)) as Ht. unfold tv_ok in Ht. rewrite us_tvadd by (cbn; lia). done. }
  destruct (runq_once time_at time_ok fuel _ w (ast_tvadd (time_at (clock c)) (ast_tv 0 1000)) 0
              W1 (tvadd_ok _ _) Hf) as (l & c' & E & W2 & Hs & A & Hl).
  exists l, c'. rewrite Hlim in Hl. split_and!; try done.
  intros i s. rewrite A, map_lookup_filter_Some. unfold due. cbn. rewrite Hlim.
  change (abs _ !! i) with (abs c !! i). split; intros [? ?]; split; try done; lia.
Qed.

(** A negative delay is taken for an [unsigned int]: [ast_sched_add] with a
    delay of [- k] milliseconds schedules for [2^32 - k] milliseconds later. *)
Theorem sched_settime_negative (time_ok : forall n, tv_ok (time_at n)) (c : sched_context T) k :
  0 < k < 2 ^ 32 -> us (time_at (clock c)) <> 0 ->
  us (fst (sched_settime time_at c (ast_tv 0 0) (- k))) =
  us (time_at (clock c)) + (2 ^ 32 - k) * 1000.
Proof.
  intros Hk Hnz. unfold sched_settime, ast_tvnow. cbn [ast_tvzero ast_tv tv_sec tv_usec Z.eqb andb].
  cbn [fst clock]. pose proof (time_ok (clock c)) as Hn. set (now := time_at (clock c)) in *.
  assert (Ek : u32 (- k) = 2 ^ 32 - k).
  { unfold wrapu. rewrite <- (Z_mod_plus_full _ 1). rewrite Z.mod_small; lia. }
  rewrite Ek. destruct (us_samp2tv_ms (2 ^ 32 - k)) as [E Eo]; [lia|].
  assert (Hadd : us (ast_tvadd now (ast_samp2tv (2 ^ 32 - k) 1000)) = us now + (2 ^ 32 - k) * 1000).
  { rewrite us_tvadd by (unfold tv_ok in *; lia). lia. }
  destruct (tvcmp_us (ast_tvadd now (ast_samp2tv (2 ^ 32 - k) 1000)) now) as (A & _ & _);
    [apply tvadd_ok|done|].
  pose proof (tvcmp_range (ast_tvadd now (ast_samp2tv (2 ^ 32 - k) 1000)) now).
  case_if; [lia|done].
Qed.

End guarantees.

(** ** Witnesses: a context with a three-slot table and one entry *)

Definition newsize0 (tab : ast_hashtab) : option Z := Some (2 * hash_tab_size tab + 1).

Lemma newsize0_ok : forall tab, 0 < hash_tab_size tab -> exists n, newsize0 tab = Some n /\ 0 < n.
Proof. intros tab Hs. eexists. split; [done|lia]. Qed.

#[local] Instance table0 : ObjTable ast_hashtab := hashtab_table newsize0.
#[local] Instance table0_laws : ObjTableLaws ast_hashtab := hashtab_table_laws newsize0 newsize0_ok.

Definition time0 (n : nat) : timeval := mk_tv (1000 + Z.of_nat n) 0.

Lemma time0_ok : forall n, tv_ok (time0 n).
Proof. intros n. unfold tv_ok, time0; cbn. lia. Qed.

Definition con0 : sched_context ast_hashtab :=
  mk_con 1 0 0 (mk_hashtab [[]; []; []] [] 3 0 0 0 1) (mk_heap 0 0 1 [NULL] ∅) [] 0 ∅ 1 0.

Definition con1 : sched_context ast_hashtab :=
  match ast_sched_add_variable time0 true true con0 20 7 8 0 with
  | Some (_, c) => c
  | None => con0
  end.

Lemma con0_wf : sched_wf con0.
Proof.
  split; cbn; try done; try lia; try (intros p Hp; by apply not_elem_of_nil in Hp);
    try apply NoDup_nil; try done.
  - split; cbn; [lia|done|intros; lia].
  - split; [|by apply Forall_nil]. split; cbn; try done; try apply Forall_nil; try apply NoDup_nil; try done.
    intros h c b Hc Hb. destruct h as [|[|[|h]]]; cbn in Hc; simplify_eq; by apply not_elem_of_nil in Hb.
Qed.

Lemma con1_wf : sched_wf con1.
Proof.
  destruct (add_variable_spec time0 time0_ok con0 20 7 8 0 con0_wf) as (c' & E & W & _); [cbn; lia..|].
  unfold con1. by rewrite E.
Qed.

Lemma ast_sched_add_refines_witness :
  exists c' t, ast_sched_add_variable time0 true true con1 50 3 4 0 = Some (eventcnt con1, c') /\
    sched_wf c' /\ abs con1 !! eventcnt con1 = None /\
    abs c' = <[eventcnt con1 := mk_sched (eventcnt con1) t 50 0 4 3]> (abs con1) /\
    us t = us (time0 (clock con1)) + 50 * 1000.
Proof.
  apply (ast_sched_add_refines time0 time0_ok con1 50 3 4 0 con1_wf);
    [reflexivity | reflexivity | lia | vm_compute; congruence].
Defined.

Lemma ast_sched_del_refines_witness :
  exists rc c', ast_sched_del con1 1 = Some (rc, c') /\ sched_wf c' /\
    abs c' = delete 1 (abs con1) /\ rc = (if decide (is_Some (abs con1 !! 1)) then 0 else -1).
Proof. apply (ast_sched_del_refines con1 1 con1_wf). lia. Defined.

Lemma pending_con1 : pending con1 = [1].
Proof. vm_compute. reflexivity. Qed.

Lemma ast_sched_wait_soonest_witness :
  (abs con1 = ∅ /\ fst (ast_sched_wait time0 con1) = -1) \/
  (exists i s, abs con1 !! i = Some s /\
     (forall j s', abs con1 !! j = Some s' -> us (when s) <= us (when s')) /\
     fst (ast_sched_wait time0 con1) = Z.max 0 (ast_tvdiff_ms (when s) (time0 (clock con1)))).
Proof.
  apply (ast_sched_wait_soonest time0 con1 con1_wf).
  intros p Hp. rewrite pending_con1 in Hp. apply list_elem_of_singleton in Hp as ->.
  vm_compute. split; congruence.
Defined.

Lemma ast_sched_runq_safe_witness :
  exists m c' w', ast_sched_runq time0 run_once 5 true con1 [] = Some (m, (c', w')) /\
  sched_wf c' /\ 0 <= m /\
  forall i s, abs c' !! i = Some s -> us (time0 (clock con1)) + 1000 <= us (when s).
Proof.
  destruct (ast_sched_runq time0 run_once 5 true con1 []) as [[m [c' w']]|] eqn:E.
  - exists m, c', w'. split; [reflexivity|].
    apply (ast_sched_runq_safe time0 time0_ok run_once 5 con1 [] m c' w' run_once_ok con1_wf E).
  - vm_compute in E. discriminate E.
Defined.

Lemma ast_sched_runq_order_witness :
  exists l c', ast_sched_runq time0 run_once 5 true con1 [] =
      Some (Z.of_nat (length l), (c', [] ++ map call_of l)) /\
    sched_wf c' /\ soonest_first l /\
    (forall s, s ∈ l <-> exists i, abs con1 !! i = Some s /\ us (when s) < us (time0 (clock con1)) + 1000) /\
    (forall i s, abs c' !! i = Some s <-> abs con1 !! i = Some s /\ us (time0 (clock con1)) + 1000 <= us (when s)).
Proof.
  apply (ast_sched_runq_order time0 time0_ok 5 con1 [] con1_wf). rewrite pending_con1. cbn. lia.
Defined.

Lemma sched_settime_negative_witness :
  us (fst (sched_settime time0 con1 (ast_tv 0 0) (- 5))) =
  us (time0 (clock con1)) + (2 ^ 32 - 5) * 1000.
Proof. apply (sched_settime_negative time0 time0_ok con1 5); [lia|vm_compute; congruence]. Defined.
