(* ===== verification/Jitterbuf.v ===== *)
(** * The adaptive jitter buffer: [main/jitterbuf.c]

    A [jitterbuf] holds a queue of frames in timestamp order, a ring of the last
    [JB_HISTORY_SZ] delays with cached tables of their extreme values, and
    statistics.  The circular doubly linked queue is the list of its frames from
    [jb->frames] (lowest timestamp) on; the free list is the list of released
    frames.  [long] values are 64 bits wide and stay far from overflow, except
    in the call of [abs], which takes an [int].  [hist_ptr] is an [int] that counts the
    frames since the last resynchronisation: it wraps here after 2^31 of them, where the C
    code is undefined, and the write before the array that would follow is left out.
    [jb_run_invariant] shows that fewer calls do not get there.

    Debug output is not modelled; an allocation's outcome is an argument. *)

From S2P Require Import Prelude.
From Stdlib Require Import ZArith Lia Sorted Permutation.
From stdpp Require Import base list numbers sets.

#[local] Open Scope Z_scope.
#[local] Open Scope record_scope.

Definition JB_HISTORY_SZ : Z := 500.
Definition JB_HISTORY_DROPPCT : Z := 3.
Definition JB_HISTORY_DROPPCT_MAX : Z := 4.
Definition JB_HISTORY_MAXBUF_SZ : Z := JB_HISTORY_SZ * JB_HISTORY_DROPPCT_MAX / 100.
Definition JB_TARGET_EXTRA : Z := 40.
Definition JB_ADJUST_DELAY : Z := 40.
Definition JB_LONGMAX : Z := 2147483647.
Definition JB_LONGMIN : Z := - JB_LONGMAX - 1.

Inductive jb_return_code := JB_OK | JB_EMPTY | JB_NOFRAME | JB_INTERP | JB_DROP | JB_SCHED.

Inductive jb_frame_type := JB_TYPE_CONTROL | JB_TYPE_VOICE | JB_TYPE_VIDEO | JB_TYPE_SILENCE.

#[export] Instance jb_return_code_eq : EqDecision jb_return_code.
Proof. solve_decision. Defined.
#[export] Instance jb_frame_type_eq : EqDecision jb_frame_type.
Proof. solve_decision. Defined.

Definition is_voice (t : jb_frame_type) : bool :=
  match t with JB_TYPE_VOICE => true | _ => false end.

Record jb_conf := mk_conf {
  max_jitterbuf : Z; resync_threshold : Z; max_contig_interp : Z; target_extra : Z
}.

#[export] Instance eta_jb_conf : Eta jb_conf := fun c =>
  mk_conf (max_jitterbuf c) (resync_threshold c) (max_contig_interp c) (target_extra c).

Record jb_info := mk_info {
  conf : jb_conf;
  frames_in : Z; frames_out : Z; frames_late : Z; frames_lost : Z; frames_dropped : Z;
  frames_ooo : Z; frames_cur : Z; jitter : Z; min : Z; current : Z; target : Z; losspct : Z;
  next_voice_ts : Z; last_voice_ms : Z; silence_begin_ts : Z; last_adjustment : Z;
  last_delay : Z; cnt_delay_discont : Z; resync_offset : Z; cnt_contig_interp : Z
}.

#[export] Instance eta_jb_info : Eta jb_info := fun i =>
  mk_info (conf i) (frames_in i) (frames_out i) (frames_late i) (frames_lost i)
    (frames_dropped i) (frames_ooo i) (frames_cur i) (jitter i) (min i) (current i) (target i)
    (losspct i) (next_voice_ts i) (last_voice_ms i) (silence_begin_ts i) (last_adjustment i)
    (last_delay i) (cnt_delay_discont i) (resync_offset i) (cnt_contig_interp i).

Record jb_frame := mk_frame { data : Z; ts : Z; ms : Z; type : jb_frame_type }.

#[export] Instance eta_jb_frame : Eta jb_frame := fun f => mk_frame (data f) (ts f) (ms f) (type f).

Record jitterbuf := mk_jb {
  info : jb_info;
  history : list Z;
  hist_ptr : Z;
  hist_maxbuf : list Z;
  hist_minbuf : list Z;
  hist_maxbuf_valid : bool;
  dropem : bool;
  frames : list jb_frame;
  free : list jb_frame
}.

#[export] Instance eta_jitterbuf : Eta jitterbuf := fun j =>
  mk_jb (info j) (history j) (hist_ptr j) (hist_maxbuf j) (hist_minbuf j)
        (hist_maxbuf_valid j) (dropem j) (frames j) (free j).

(** [jb->info.f = v] and [jb->info.f] updated by [g]. *)
Notation "j <|| f := v ||>" := (setter (f := info) (setter (f := f) (fun _ => v)) j)
  (at level 1, left associativity, f at level 9, v at level 200) : record_scope.
Notation "j <|| f ::= g ||>" := (setter (f := info) (setter (f := f) g) j)
  (at level 1, left associativity, f at level 9, g at level 200) : record_scope.

Definition increment_losspct (jb : jitterbuf) : jitterbuf :=
  jb <|| losspct ::= fun l => Z.quot (100000 + 499 * l) 500 ||>.

Definition decrement_losspct (jb : jitterbuf) : jitterbuf :=
  jb <|| losspct ::= fun l => Z.quot (499 * l) 500 ||>.

(** [jb_reset]: everything zeroed except the settings. *)
Definition jb_reset (jb : jitterbuf) : jitterbuf :=
  let s := (conf (info jb)) <| target_extra := JB_TARGET_EXTRA |> in
  mk_jb (mk_info s 0 0 0 0 0 0 0 0 0 JB_TARGET_EXTRA JB_TARGET_EXTRA 0 0 0 (-1) 0 0 0 0 0)
        (replicate 500 0) 0 (replicate 20 0) (replicate 20 0) false false [] [].

(** [abs] converts its argument to [int]. *)
Definition int_abs (x : Z) : Z := Z.abs (s32 x).

(** [check_resync]: the result code, the adjusted delay and the buffer. *)
Definition check_resync (jb : jitterbuf) (ts_ now ms_ : Z) (ty : jb_frame_type) (delay : Z)
    : Z * Z * jitterbuf :=
  let threshold := 2 * jitter (info jb) + resync_threshold (conf (info jb)) in
  let numts := match frames jb with
               | [] => 0
               | f :: _ => ts (List.last (frames jb) f) - ts f
               end in
  if numts >=? max_jitterbuf (conf (info jb)) then
    (-1, delay, jb <| dropem := true |> <|| frames_dropped ::= Z.succ ||>)
  else
    let jb := jb <| dropem := false |> in
    if negb (resync_threshold (conf (info jb)) =? -1) then
      if int_abs (delay - last_delay (info jb)) >? threshold then
        let jb := jb <|| cnt_delay_discont ::= Z.succ ||> in
        if (cnt_delay_discont (info jb) >? 3) ||
           match ty with JB_TYPE_CONTROL => true | _ => false end
        then
          (0, 0, jb <|| cnt_delay_discont := 0 ||> <| hist_ptr := 0 |>
                    <| hist_maxbuf_valid := false |>
                    <|| resync_offset := ts_ - now ||> <|| last_delay := 0 ||>)
        else (-1, delay, jb <|| frames_dropped ::= Z.succ ||>)
      else (0, delay, jb <|| last_delay := delay ||> <|| cnt_delay_discont := 0 ||>)
    else (0, delay, jb).

(** The last slot of a table of extremes. *)
Definition last_slot (buf : list Z) : Z := nth (Z.to_nat (JB_HISTORY_MAXBUF_SZ - 1)) buf 0.

(** [jb->hist_ptr++] *)
Definition next_ptr (p : Z) : Z := s32 (p + 1).

Definition history_put (jb : jitterbuf) (ts_ now ms_ delay : Z) : jitterbuf :=
  if ts_ <=? 0 then jb
  else
    let slot := Z.rem (hist_ptr jb) JB_HISTORY_SZ in
    let kicked := nth (Z.to_nat slot) (history jb) 0 in
    let jb := jb <| history ::= (fun h => if slot <? 0 then h else <[Z.to_nat slot := delay]> h) |> <| hist_ptr ::= next_ptr |> in
    if negb (hist_maxbuf_valid jb) then jb
    else if (hist_ptr jb <? JB_HISTORY_SZ) ||
            (delay <? last_slot (hist_minbuf jb)) || (delay >? last_slot (hist_maxbuf jb)) ||
            (kicked <=? last_slot (hist_minbuf jb)) || (kicked >=? last_slot (hist_maxbuf jb))
         then jb <| hist_maxbuf_valid := false |>
         else jb.

(** The inner loop of [history_calc_maxbuf]: at the first slot the value beats,
    the rest moves over by one and the last slot falls off. *)
Fixpoint shift_in (beats : Z -> Z -> bool) (x : Z) (buf : list Z) : list Z :=
  match buf with
  | [] => []
  | b :: rest => if beats x b then x :: removelast buf else b :: shift_in beats x rest
  end.

Definition extreme_step (beats : Z -> Z -> bool) (buf : list Z) (toins : Z) : list Z :=
  if beats toins (last_slot buf) then shift_in beats toins buf else buf.

(** The delays the history holds, oldest first. *)
Definition window (jb : jitterbuf) : list Z :=
  let i := if hist_ptr jb >? JB_HISTORY_SZ then hist_ptr jb - JB_HISTORY_SZ else 0 in
  map (fun k => nth (Z.to_nat (k mod JB_HISTORY_SZ)) (history jb) 0)
      (seqZ i (hist_ptr jb - i)).

Definition history_calc_maxbuf (jb : jitterbuf) : jitterbuf :=
  if hist_ptr jb =? 0 then jb
  else
    let n := Z.to_nat JB_HISTORY_MAXBUF_SZ in
    jb <| hist_maxbuf := foldl (extreme_step Z.gtb) (replicate n JB_LONGMIN) (window jb) |>
       <| hist_minbuf := foldl (extreme_step Z.ltb) (replicate n JB_LONGMAX) (window jb) |>
       <| hist_maxbuf_valid := true |>.

Definition history_get (jb : jitterbuf) : jitterbuf :=
  let jb := if negb (hist_maxbuf_valid jb) then history_calc_maxbuf jb else jb in
  let count := if hist_ptr jb <? JB_HISTORY_SZ then hist_ptr jb else JB_HISTORY_SZ in
  let idx := Z.quot (count * JB_HISTORY_DROPPCT) 100 in
  let idx := if idx >? JB_HISTORY_MAXBUF_SZ - 1 then JB_HISTORY_MAXBUF_SZ - 1 else idx in
  if idx <? 0 then jb <|| min := 0 ||> <|| jitter := 0 ||>
  else
    let mx := nth (Z.to_nat idx) (hist_maxbuf jb) 0 in
    let mn := nth (Z.to_nat idx) (hist_minbuf jb) 0 in
    jb <|| min := mn ||> <|| jitter := mx - mn ||>.

(** The backward walk of [queue_put] from the tail: frames still before the
    insertion point (last one first) and frames after it. *)
Fixpoint queue_walk (t : Z) (before after : list jb_frame) : list jb_frame * list jb_frame :=
  match before with
  | x :: rest =>
      if (t <? ts x) && match rest with [] => false | _ => true end
      then queue_walk t rest (x :: after)
      else (before, after)
  | [] => ([], after)
  end.

(** [queue_put]; [ok] is the allocation used when the free list is empty. *)
Definition queue_put (ok : bool) (jb : jitterbuf) (dat : Z) (ty : jb_frame_type) (ms_ ts_ : Z)
    : Z * jitterbuf :=
  let resync_ts := ts_ - resync_offset (info jb) in
  if match free jb with [] => negb ok | _ => false end then (0, jb)
  else
    let jb := jb <| free ::= @tail _ |> <|| frames_cur ::= Z.succ ||> in
    let frame := mk_frame dat resync_ts ms_ ty in
    match frames jb with
    | [] => (1, jb <| frames := [frame] |>)
    | head :: _ =>
        if resync_ts <? ts head
        then (1, jb <|| frames_ooo ::= Z.succ ||> <| frames := frame :: frames jb |>)
        else
          let jb := if resync_ts <? ts (List.last (frames jb) head)
                    then jb <|| frames_ooo ::= Z.succ ||> else jb in
          let '(before, after) := queue_walk resync_ts (rev (frames jb)) [] in
          (0, jb <| frames := rev before ++ frame :: after |>)
    end.

Definition queue_next (jb : jitterbuf) : Z :=
  match frames jb with f :: _ => ts f | [] => -1 end.

Definition queue_last (jb : jitterbuf) : Z :=
  match frames jb with f :: _ => ts (List.last (frames jb) f) | [] => -1 end.

(** [_queue_get]. *)
Definition queue_get_ (jb : jitterbuf) (t : Z) (all : bool) : option jb_frame * jitterbuf :=
  match frames jb with
  | [] => (None, jb)
  | frame :: rest =>
      if all || (t >=? ts frame)
      then (Some frame, jb <| frames := rest |> <| free := frame :: free jb |>
                           <|| frames_cur ::= Z.pred ||>)
      else (None, jb)
  end.

Definition queue_get (jb : jitterbuf) (t : Z) := queue_get_ jb t false.
Definition queue_getall (jb : jitterbuf) := queue_get_ jb 0 true.

Definition jb_put (ok : bool) (jb : jitterbuf) (dat : Z) (ty : jb_frame_type) (ms_ ts_ now : Z)
    : jb_return_code * jitterbuf :=
  let delay := now - (ts_ - resync_offset (info jb)) in
  let '(rc, delay, jb) := check_resync jb ts_ now ms_ ty delay in
  if ctrue rc then (JB_DROP, jb)
  else
    let jb := if is_voice ty then history_put jb ts_ now ms_ delay else jb in
    let jb := jb <|| frames_in ::= Z.succ ||> in
    let '(head, jb) := queue_put ok jb dat ty ms_ ts_ in
    (if ctrue head then JB_SCHED else JB_OK, jb).

(** An in-sequence or missing frame of the non-silent case of [_jb_get]: the
    part after the test for a late frame. *)
Definition get_expected (jb : jitterbuf) (frame : option jb_frame) (frameout : jb_frame)
    (now interpl diff : Z) : jb_return_code * jb_frame * jitterbuf :=
  let jb := match frame with
            | Some f => if ms f >? 0 then jb <|| last_voice_ms := ms f ||> else jb
            | None => jb
            end in
  if (diff <? - target_extra (conf (info jb))) &&
     ((match frame with None => last_adjustment (info jb) + 80 <? now | Some _ => false end) ||
      (last_adjustment (info jb) + 500 <? now))
  then
    let jb := jb <|| last_adjustment := now ||> <|| cnt_contig_interp := 0 ||> in
    match frame with
    | Some f =>
        let jb := jb <|| current ::= (fun c => c - ms f) ||> <|| frames_out ::= Z.succ ||> in
        (JB_DROP, f, (decrement_losspct jb) <|| frames_dropped ::= Z.succ ||>)
    | None =>
        let jb := jb <|| current := current (info jb) - last_voice_ms (info jb) ||>
                     <|| frames_lost ::= Z.succ ||> in
        (JB_NOFRAME, frameout, increment_losspct jb)
    end
  else
    match frame with
    | None =>
        let jb := increment_losspct (jb <|| frames_lost ::= Z.succ ||>) in
        let jb := jb <|| next_voice_ts ::= Z.add interpl ||> <|| last_voice_ms := interpl ||>
                     <|| cnt_contig_interp ::= Z.succ ||> in
        let jb := if ctrue (max_contig_interp (conf (info jb))) &&
                     (cnt_contig_interp (info jb) >=? max_contig_interp (conf (info jb)))
                  then jb <|| silence_begin_ts := next_voice_ts (info jb) - current (info jb) ||>
                  else jb in
        (JB_INTERP, frameout, jb)
    | Some f =>
        let jb := jb <|| next_voice_ts ::= Z.add (ms f) ||> <|| frames_out ::= Z.succ ||>
                     <|| cnt_contig_interp := 0 ||> in
        (JB_OK, f, decrement_losspct jb)
    end.

(** The non-silent case of [_jb_get]. *)
Definition get_talking (jb : jitterbuf) (frameout : jb_frame) (now interpl diff : Z)
    : jb_return_code * jb_frame * jitterbuf :=
  if (diff >? 0) &&
     ((last_adjustment (info jb) + JB_ADJUST_DELAY <? now) ||
      (diff >? queue_last jb - queue_next jb))
  then
    let jb := jb <|| current ::= Z.add interpl ||> <|| next_voice_ts ::= Z.add interpl ||>
                 <|| last_voice_ms := interpl ||> <|| last_adjustment := now ||>
                 <|| cnt_contig_interp ::= Z.succ ||> in
    let jb := if ctrue (max_contig_interp (conf (info jb))) &&
                 (cnt_contig_interp (info jb) >=? max_contig_interp (conf (info jb)))
              then jb <|| silence_begin_ts := next_voice_ts (info jb) - current (info jb) ||>
              else jb in
    (JB_INTERP, frameout, jb)
  else
    let '(frame, jb) := queue_get jb (next_voice_ts (info jb) - current (info jb)) in
    match frame with
    | None => get_expected jb None frameout now interpl diff
    | Some f =>
        if negb (is_voice (type f)) then
          let jb := match type f with
                    | JB_TYPE_SILENCE =>
                        jb <|| silence_begin_ts := ts f ||> <|| cnt_contig_interp := 0 ||>
                    | _ => jb
                    end in
          (JB_OK, f, jb <|| frames_out ::= Z.succ ||>)
        else if ts f + current (info jb) <? next_voice_ts (info jb) then
          if ts f + current (info jb) >? next_voice_ts (info jb) - last_voice_ms (info jb) then
            let jb := jb <|| next_voice_ts := ts f + current (info jb) + ms f ||>
                         <|| frames_out ::= Z.succ ||> in
            (JB_OK, f, (decrement_losspct jb) <|| cnt_contig_interp := 0 ||>)
          else
            let jb := decrement_losspct (jb <|| frames_out ::= Z.succ ||>) in
            (JB_DROP, f, jb <|| frames_late ::= Z.succ ||> <|| frames_lost ::= Z.pred ||>)
        else get_expected jb (Some f) frameout now interpl diff
    end.

(** The silent case of [_jb_get]. *)
Definition get_silent (jb : jitterbuf) (frameout : jb_frame) (now interpl diff : Z)
    : jb_return_code * jb_frame * jitterbuf :=
  let jb := if (diff <? - target_extra (conf (info jb))) &&
               (last_adjustment (info jb) + 10 <=? now)
            then jb <|| current ::= (fun c => c - interpl) ||> <|| last_adjustment := now ||>
            else jb in
  let '(frame, jb) := queue_get jb (now - current (info jb)) in
  match frame with
  | None => (JB_NOFRAME, frameout, jb)
  | Some f =>
      if negb (is_voice (type f)) then (JB_OK, f, jb <|| frames_out ::= Z.succ ||>)
      else if ts f <? silence_begin_ts (info jb) then
        let jb := decrement_losspct (jb <|| frames_out ::= Z.succ ||>) in
        (JB_DROP, f, jb <|| frames_late ::= Z.succ ||> <|| frames_lost ::= Z.pred ||>)
      else
        let jb := jb <|| current := target (info jb) ||> <|| silence_begin_ts := 0 ||> in
        let jb := jb <|| next_voice_ts := ts f + current (info jb) + ms f ||>
                     <|| last_voice_ms := ms f ||> <|| frames_out ::= Z.succ ||> in
        (JB_OK, f, decrement_losspct jb)
  end.

(** [_jb_get]: the result, what [*frameout] holds afterwards, and the buffer. *)
Definition jb_get_ (jb : jitterbuf) (frameout : jb_frame) (now interpl : Z)
    : jb_return_code * jb_frame * jitterbuf :=
  let jb := history_get jb in
  let jb := jb <|| target := jitter (info jb) + min (info jb) + target_extra (conf (info jb)) ||> in
  let jb := if ctrue (max_jitterbuf (conf (info jb))) &&
               (target (info jb) - min (info jb) >? max_jitterbuf (conf (info jb)))
            then jb <|| target := min (info jb) + max_jitterbuf (conf (info jb)) ||> else jb in
  let diff := target (info jb) - current (info jb) in
  if silence_begin_ts (info jb) =? 0 then get_talking jb frameout now interpl diff
  else get_silent jb frameout now interpl diff.

Definition jb_get (jb : jitterbuf) (frameout : jb_frame) (now interpl : Z)
    : jb_return_code * jb_frame * jitterbuf :=
  let '(ret, out, jb) := jb_get_ jb frameout now interpl in
  match ret with
  | JB_INTERP => (ret, out <| ms := last_voice_ms (info jb) |>, jb)
  | _ => (ret, out, jb)
  end.

(** [jb_next]: the time, and the buffer (the jitter may be recomputed). *)
Definition jb_next (jb : jitterbuf) : Z * jitterbuf :=
  if ctrue (silence_begin_ts (info jb)) then
    match frames jb with
    | [] => (JB_LONGMAX, jb)
    | _ =>
        let next := queue_next jb in
        let jb := history_get jb in
        if target (info jb) - current (info jb) <? - target_extra (conf (info jb))
        then (last_adjustment (info jb) + 10, jb)
        else (next + target (info jb), jb)
    end
  else (next_voice_ts (info jb), jb).

Definition jb_getall (jb : jitterbuf) (frameout : jb_frame) : jb_return_code * jb_frame * jitterbuf :=
  let '(frame, jb) := queue_getall jb in
  match frame with
  | None => (JB_NOFRAME, frameout, jb)
  | Some f => (JB_OK, f, jb)
  end.

Definition jb_getinfo (jb : jitterbuf) : jb_return_code * jb_info * jitterbuf :=
  let jb := history_get jb in (JB_OK, info jb, jb).

Definition jb_setconf (jb : jitterbuf) (c : jb_conf) : jb_return_code * jitterbuf :=
  let te := if target_extra c =? -1 then JB_TARGET_EXTRA else target_extra c in
  let jb := jb <|| conf := mk_conf (max_jitterbuf c) (resync_threshold c) (max_contig_interp c) te ||> in
  (JB_OK, jb <|| current := te ||> <|| target := te ||>).

(** ** Tables of extreme values

    The tables are prefixes of the sorted history.  [beats] is [>] for the
    table of maxima and [<] for that of minima. *)

Section extremes.

Variable beats : Z -> Z -> bool.
Hypothesis beats_irr : forall x, beats x x = false.
Hypothesis beats_trans : forall x y z, beats x y = true -> beats y z = true -> beats x z = true.
Hypothesis beats_total : forall x y, beats x y = false -> beats y x = false -> x = y.

Fixpoint ins (x : Z) (l : list Z) : list Z :=
  match l with
  | [] => [x]
  | b :: rest => if beats x b then x :: l else b :: ins x rest
  end.

Definition srt (l : list Z) : list Z := foldr ins [] l.

Definition ranked : list Z -> Prop := StronglySorted (fun a b => beats b a = false).

Lemma not_beats_trans x y z : beats x y = false -> beats y z = false -> beats x z = false.
Proof.
  intros H1 H2. destruct (beats x z) eqn:E; [|done]. destruct (beats z y) eqn:E2.
  - by rewrite (beats_trans x z y) in H1.
  - assert (y = z) as -> by auto. congruence.
Qed.

Lemma beats_asym x y : beats x y = true -> beats y x = false.
Proof.
  intros H. destruct (beats y x) eqn:E; [|done]. pose proof (beats_trans x y x H E) as E2.
  by rewrite beats_irr in E2.
Qed.

Lemma ins_perm x l : ins x l ≡ₚ x :: l.
Proof.
  induction l as [|b l IH]; cbn; [done|]. destruct (beats x b); [done|].
  rewrite IH. apply Permutation_swap.
Qed.

Lemma ins_ranked x l : ranked l -> ranked (ins x l).
Proof.
  induction 1 as [|b l Hl IH Hb]; cbn; [repeat constructor|].
  destruct (beats x b) eqn:E.
  - constructor; [by constructor|]. constructor; [by apply beats_asym|].
    eapply Forall_impl; [exact Hb|]. cbn. intros y Hy. destruct (beats y x) eqn:E2; [|done].
    by rewrite (beats_trans y x b) in Hy.
  - constructor; [done|]. rewrite ins_perm. by constructor.
Qed.

Lemma srt_perm l : srt l ≡ₚ l.
Proof. induction l as [|x l IH]; cbn; [done|]. rewrite ins_perm. by f_equiv. Qed.

Lemma srt_ranked l : ranked (srt l).
Proof. induction l; cbn; [constructor|]. by apply ins_ranked. Qed.

Lemma ranked_unique l1 l2 : ranked l1 -> ranked l2 -> l1 ≡ₚ l2 -> l1 = l2.
Proof.
  intros H1. revert l2. induction H1 as [|a l1 H1 IH Ha]; intros l2 H2 Hp.
  - by apply Permutation_nil_l in Hp.
  - destruct H2 as [|b l2 H2 Hb]; [by symmetry in Hp; apply Permutation_nil_l in Hp|].
    assert (a = b) as <-.
    { assert (Hin1 : b ∈ a :: l1) by (rewrite Hp; set_solver).
      assert (Hin2 : a ∈ b :: l2) by (rewrite <- Hp; set_solver).
      apply elem_of_cons in Hin1 as [Hin1|Hin1]; [done|].
      apply elem_of_cons in Hin2 as [Hin2|Hin2]; [done|].
      rewrite Forall_forall in Ha, Hb. apply beats_total; [by apply Hb|by apply Ha]. }
    f_equal. apply IH; [done|]. by apply (Permutation_cons_inv (a := a)).
Qed.

Lemma srt_ext l1 l2 : l1 ≡ₚ l2 -> srt l1 = srt l2.
Proof. intros H. apply ranked_unique; auto using srt_ranked. by rewrite !srt_perm. Qed.

Lemma srt_id l : ranked l -> srt l = l.
Proof. intros H. apply ranked_unique; auto using srt_ranked, srt_perm. Qed.

(** Truncating before or after inserting is the same. *)
Lemma take_ins n x s : take n (ins x (take n s)) = take n (ins x s).
Proof.
  revert n. induction s as [|b s IH]; intros [|n]; cbn; try done.
  destruct (beats x b).
  - destruct n; cbn; [done|]. do 2 f_equal. rewrite take_take. f_equal. lia.
  - cbn. by rewrite IH.
Qed.

Lemma shift_in_take x buf : shift_in beats x buf = take (length buf) (ins x buf).
Proof.
  induction buf as [|b buf IH]; cbn [shift_in ins length]; [done|].
  destruct (beats x b); cbn [take]; [|by rewrite IH]. f_equal.
  rewrite removelast_firstn_len. cbn [length pred]. done.
Qed.

(** A value that beats none of the first [n] does not change them. *)
Lemma take_ins_low n x s : (n <= length s)%nat ->
  Forall (fun b => beats x b = false) (take n s) -> take n (ins x s) = take n s.
Proof.
  revert n. induction s as [|b s IH]; intros [|n] Hn Hf; cbn in *; try done; try lia.
  apply Forall_cons in Hf as [Hb Hf]. rewrite Hb. cbn. f_equal. apply IH; [lia|done].
Qed.

(** A value below the [n]-th of the result is not among the first [n]. *)
Lemma take_ins_absent n x s d : ranked s -> (n < length s)%nat ->
  beats (nth n (ins x s) d) x = true -> take (S n) (ins x s) = take (S n) s.
Proof.
  intros Hs. revert n. induction Hs as [|b s Hs IH Hb]; intros n Hn Hbe; [cbn in *; lia|].
  cbn [ins] in *. destruct (beats x b) eqn:E.
  - exfalso. destruct n as [|n]; cbn [nth] in Hbe; [by rewrite beats_irr in Hbe|].
    assert (Hin : nth n (b :: s) d ∈ b :: s).
    { apply list_elem_of_In, nth_In. cbn in *. lia. }
    assert (Hle : beats (nth n (b :: s) d) b = false).
    { apply elem_of_cons in Hin as [->|Hin]; [apply beats_irr|]. rewrite Forall_forall in Hb. by apply Hb. }
    by rewrite (beats_trans _ x b) in Hle.
  - destruct n as [|n]; cbn; [done|]. f_equal. apply IH; [cbn in Hn; lia|done].
Qed.

Lemma ranked_nth s i j d : ranked s -> (i <= j < length s)%nat -> beats (nth j s d) (nth i s d) = false.
Proof.
  intros Hs. revert i j. induction Hs as [|b s Hs IH Hb]; intros i j Hij; [cbn in *; lia|].
  destruct i, j; cbn in *; try lia.
  - apply beats_irr.
  - rewrite Forall_forall in Hb. apply Hb, list_elem_of_In, nth_In. lia.
  - apply IH. lia.
Qed.

Lemma low_prefix n x s d : ranked s -> (n < length s)%nat -> beats x (nth n s d) = false ->
  Forall (fun b => beats x b = false) (take (S n) s).
Proof.
  intros Hs Hn Hx. apply Forall_forall. intros b [i Hi]%list_elem_of_lookup.
  pose proof (lookup_lt_Some _ _ _ Hi) as Hlt. rewrite length_take in Hlt.
  rewrite lookup_take_lt in Hi by lia. apply (nth_lookup_Some _ _ d) in Hi as <-.
  apply not_beats_trans with (nth n s d); [done|]. apply ranked_nth; [done|lia].
Qed.

(** *** The table of the [N] most extreme values, padded *)

Variable N : nat.
Variable PAD : Z.
Hypothesis N_slots : N = Z.to_nat JB_HISTORY_MAXBUF_SZ.

Definition table (l : list Z) : list Z := take N (srt (l ++ replicate N PAD)).

Lemma table_ext l1 l2 : l1 ≡ₚ l2 -> table l1 = table l2.
Proof. intros H. unfold table. f_equal. apply srt_ext. by rewrite H. Qed.

Lemma srt_length l : length (srt (l ++ replicate N PAD)) = (length l + N)%nat.
Proof. rewrite srt_perm, length_app, length_replicate. done. Qed.

Lemma length_table l : length (table l) = N.
Proof. unfold table. rewrite length_take, srt_length. lia. Qed.

Lemma ranked_replicate n : ranked (replicate n PAD).
Proof.
  induction n as [|n IH]; cbn; [constructor|]. constructor; [done|].
  apply Forall_forall. intros x Hx%elem_of_replicate. destruct Hx as [-> _]. apply beats_irr.
Qed.

Lemma table_nil : table [] = replicate N PAD.
Proof.
  unfold table. cbn [app]. rewrite srt_id by apply ranked_replicate.
  apply take_ge. by rewrite length_replicate.
Qed.

Lemma last_slot_table l : last_slot (table l) = nth (N - 1) (srt (l ++ replicate N PAD)) 0.
Proof.
  unfold last_slot, table. rewrite !nth_lookup, lookup_take_lt; [|rewrite N_slots; vm_compute; lia].
  do 2 f_equal. rewrite N_slots. reflexivity.
Qed.

Lemma N_pos : (0 < N)%nat.
Proof. rewrite N_slots. vm_compute. lia. Qed.

Lemma table_low l x : beats x (last_slot (table l)) = false -> table (x :: l) = table l.
Proof.
  rewrite last_slot_table. intros Hx. unfold table. cbn [app srt foldr].
  fold (srt (l ++ replicate N PAD)). apply take_ins_low; [rewrite srt_length; lia|].
  pose proof N_pos. replace N with (S (N - 1)) at 1 by lia. eapply low_prefix; [apply srt_ranked| |done].
  rewrite srt_length. lia.
Qed.

Lemma table_absent l x : beats (last_slot (table (x :: l))) x = true -> table (x :: l) = table l.
Proof.
  rewrite last_slot_table. intros Hx. unfold table. cbn [app srt foldr] in *.
  fold (srt (l ++ replicate N PAD)) in *. pose proof N_pos.
  replace N with (S (N - 1)) at 1 3 by lia. eapply take_ins_absent; [apply srt_ranked| |exact Hx].
  rewrite srt_length. lia.
Qed.

Lemma extreme_step_table l x : extreme_step beats (table l) x = table (x :: l).
Proof.
  unfold extreme_step. destruct (beats x (last_slot (table l))) eqn:E.
  - rewrite shift_in_take, length_table. unfold table. by rewrite take_ins.
  - symmetry. by apply table_low.
Qed.

Lemma fold_table l : foldl (extreme_step beats) (replicate N PAD) l = table l.
Proof.
  rewrite <- table_nil. rewrite <- (app_nil_r l) at 2.
  generalize (@nil Z) as acc. induction l as [|x l IH]; intros acc; cbn [foldl]; [done|].
  rewrite extreme_step_table, IH. apply table_ext. cbn. symmetry. apply Permutation_middle.
Qed.

End extremes.

(** ** The history and its cache *)

Definition maxima (l : list Z) : list Z := table Z.gtb 20 JB_LONGMIN l.
Definition minima (l : list Z) : list Z := table Z.ltb 20 JB_LONGMAX l.

Lemma gtb_order : (forall x, Z.gtb x x = false) /\
  (forall x y z, Z.gtb x y = true -> Z.gtb y z = true -> Z.gtb x z = true) /\
  (forall x y, Z.gtb x y = false -> Z.gtb y x = false -> x = y).
Proof. split_and!; intros; rewrite !Z.gtb_ltb in *; zb; lia. Qed.

Lemma ltb_order : (forall x, Z.ltb x x = false) /\
  (forall x y z, Z.ltb x y = true -> Z.ltb y z = true -> Z.ltb x z = true) /\
  (forall x y, Z.ltb x y = false -> Z.ltb y x = false -> x = y).
Proof. split_and!; intros; zb; lia. Qed.

(** A run of ring positions that does not wrap is a slice of the array. *)
Lemma window_slice (l : list Z) q (r n : nat) : length l = 500%nat -> (r + n <= 500)%nat ->
  map (fun k => nth (Z.to_nat (k mod JB_HISTORY_SZ)) l 0) (seqZ (q * 500 + Z.of_nat r) (Z.of_nat n)) =
  take n (drop r l).
Proof.
  intros Hl. revert r. induction n as [|n IH]; intros r Hr; [done|].
  rewrite seqZ_cons by lia. cbn [map].
  destruct (lookup_lt_is_Some_2 l r) as [x Hx]; [lia|].
  rewrite (drop_S _ _ _ Hx). cbn [take]. f_equal.
  - unfold JB_HISTORY_SZ. rewrite Z.add_comm, Z_mod_plus_full, Z.mod_small, Nat2Z.id by lia.
    by apply nth_lookup_Some.
  - rewrite <- IH by lia. do 2 f_equal; lia.
Qed.

Lemma window_small jb : length (history jb) = 500%nat -> 0 <= hist_ptr jb <= 500 ->
  window jb = take (Z.to_nat (hist_ptr jb)) (history jb).
Proof.
  intros Hl Hp. unfold window. case_if; [unfold JB_HISTORY_SZ in *; lia|].
  transitivity (take (Z.to_nat (hist_ptr jb)) (drop 0 (history jb))); [|by rewrite drop_0].
  rewrite <- (window_slice _ 0) by lia. f_equal. f_equal; lia.
Qed.

Lemma window_full jb : length (history jb) = 500%nat -> 500 <= hist_ptr jb ->
  window jb ≡ₚ history jb.
Proof.
  intros Hl Hp. destruct (Z.eq_dec (hist_ptr jb) 500) as [E|Hne].
  { rewrite window_small by lia. rewrite take_ge; [done|lia]. }
  unfold window. case_if; [|unfold JB_HISTORY_SZ in *; lia].
  set (a := hist_ptr jb - JB_HISTORY_SZ).
  replace (hist_ptr jb - a) with 500 by (unfold a, JB_HISTORY_SZ; lia).
  pose proof (Z.mod_pos_bound a 500 ltac:(lia)) as Hr. pose proof (Z.div_mod a 500 ltac:(lia)) as Hd.
  set (r := Z.to_nat (a mod 500)). set (q := a / 500) in *.
  replace 500 with (Z.of_nat (500 - r) + Z.of_nat r) at 1 by lia.
  rewrite seqZ_app by lia. rewrite map_app.
  replace a with (q * 500 + Z.of_nat r) at 1 by lia.
  rewrite window_slice by lia.
  replace (a + Z.of_nat (500 - r)) with ((q + 1) * 500 + Z.of_nat 0) by lia.
  rewrite window_slice by lia. rewrite drop_0.
  rewrite (take_ge (drop r _)) by (rewrite length_drop; lia).
  rewrite Permutation_app_comm. by rewrite take_drop.
Qed.

Record hist_wf (jb : jitterbuf) : Prop := {
  hw_len : length (history jb) = 500%nat;
  hw_ptr : in_s 32 (hist_ptr jb);
  hw_cache : hist_maxbuf_valid jb = true ->
    hist_maxbuf jb = maxima (window jb) /\ hist_minbuf jb = minima (window jb)
}.

(** Replacing one cell. *)
Lemma insert_kicked (l : list Z) i x : (i < length l)%nat ->
  nth i l 0 :: <[i := x]> l ≡ₚ x :: l.
Proof.
  intros Hi. destruct (lookup_lt_is_Some_2 l i Hi) as [y Hy].
  rewrite (nth_lookup_Some _ _ _ _ Hy). rewrite insert_take_drop by done.
  rewrite <- (take_drop_middle l i y Hy) at 3. rewrite <- !Permutation_middle.
  apply Permutation_swap.
Qed.

(** The skipped recomputation of [history_put] is sound. *)
Lemma tables_unchanged l l' kicked delay :
  (kicked :: l' ≡ₚ delay :: l \/ l' ≡ₚ delay :: l) ->
  last_slot (minima l) <= delay <= last_slot (maxima l) ->
  last_slot (minima l) < kicked < last_slot (maxima l) ->
  maxima l' = maxima l /\ minima l' = minima l.
Proof.
  intros Hp Hd Hk. destruct gtb_order as (G1 & G2 & G3), ltb_order as (L1 & L2 & L3).
  assert (Hmax : maxima (delay :: l) = maxima l)
    by (apply table_low; auto; rewrite Z.gtb_ltb; apply Z.ltb_ge; unfold maxima in *; lia).
  assert (Hmin : minima (delay :: l) = minima l)
    by (apply table_low; auto; apply Z.ltb_ge; unfold minima in *; lia).
  destruct Hp as [Hp|Hp].
  - assert (E1 : maxima (kicked :: l') = maxima l).
    { rewrite <- Hmax. by apply table_ext. }
    assert (E2 : minima (kicked :: l') = minima l).
    { rewrite <- Hmin. by apply table_ext. }
    split; [rewrite <- E1|rewrite <- E2]; symmetry; apply table_absent; auto;
      fold (maxima (kicked :: l')) (minima (kicked :: l')); rewrite ?E1, ?E2, ?Z.gtb_ltb;
      apply Z.ltb_lt; lia.
  - split; [rewrite <- Hmax|rewrite <- Hmin]; by apply table_ext.
Qed.

(** The pointer that gets to 500 or more did not overflow. *)
Lemma next_ptr_500 p : in_s 32 p -> 500 <= next_ptr p -> 499 <= p /\ next_ptr p = p + 1.
Proof.
  unfold in_s, next_ptr. intros Hp H. destruct (Z.eq_dec p (2 ^ 31 - 1)) as [->|Hne]; [by destruct (H eq_refl)|].
  rewrite wraps_id in * by (unfold in_s; lia). lia.
Qed.

Lemma history_put_wf jb t now m delay : hist_wf jb -> hist_wf (history_put jb t now m delay).
Proof.
  intros [Hl Hp Hc]. unfold history_put. case_if; [by split|].
  set (slot := Z.rem (hist_ptr jb) JB_HISTORY_SZ). set (kicked := nth (Z.to_nat slot) _ 0).
  set (jb1 := setter _ _). unfold JB_HISTORY_SZ in *.
  assert (W1 : length (history jb1) = 500%nat) by (cbn; case_if; by rewrite ?length_insert).
  assert (W2 : in_s 32 (hist_ptr jb1)) by by apply wraps_range.
  destruct (hist_maxbuf_valid jb1) eqn:Ev; cbn [negb]; [|split; [done|done|congruence]].
  case_if; [split; [done|done|cbn; done]|].
  split; [done..|]. intros _. cbn in Ev. destruct (Hc Ev) as [Hmx Hmn].
  change (hist_maxbuf jb1) with (hist_maxbuf jb) in *. change (hist_minbuf jb1) with (hist_minbuf jb) in *.
  cbn [hist_ptr jb1 setter] in *. rewrite Hmx, Hmn in *. zb.
  assert (Hn : 499 <= hist_ptr jb /\ next_ptr (hist_ptr jb) = hist_ptr jb + 1) by (by apply next_ptr_500). destruct Hn as [H499 Hn].
  assert (Hs : 0 <= slot < 500) by (unfold slot; apply Z.rem_bound_pos; lia).
  assert (Hh : history jb1 = <[Z.to_nat slot := delay]> (history jb)) by (cbn; by rewrite (proj2 (Z.ltb_ge slot 0)) by lia).
  destruct (tables_unchanged (window jb) (window jb1) kicked delay) as [-> ->]; try done; try lia.
  destruct (Z.eq_dec (hist_ptr jb) 499) as [E499|Hne].
  - right. rewrite !window_small by (cbn; rewrite ?Hn; lia || done). rewrite Hh. cbn [hist_ptr jb1 setter]. rewrite Hn, E499.
    change (Z.to_nat (499 + 1)) with 500%nat. change (Z.to_nat 499) with 499%nat.
    assert (slot = 499) as -> by (unfold slot; by rewrite E499). change (Z.to_nat 499) with 499%nat.
    rewrite (take_S_r _ _ delay) by (by rewrite list_lookup_insert_eq by lia).
    rewrite take_insert_ge by lia. symmetry. apply Permutation_cons_append.
  - left. rewrite !window_full by (cbn; rewrite ?Hn; lia || done). rewrite Hh. apply insert_kicked. lia.
Qed.

(** Only the history fields matter to [hist_wf]. *)
Lemma hist_wf_ext jb jb' : history jb' = history jb -> hist_ptr jb' = hist_ptr jb ->
  hist_maxbuf jb' = hist_maxbuf jb -> hist_minbuf jb' = hist_minbuf jb ->
  hist_maxbuf_valid jb' = hist_maxbuf_valid jb -> hist_wf jb -> hist_wf jb'.
Proof.
  intros E1 E2 E3 E4 E5 [Hl Hp Hc]. assert (Ew : window jb' = window jb).
  { unfold window. by rewrite E1, E2. }
  split; [congruence|congruence|]. rewrite E3, E4, E5, Ew. done.
Qed.

Lemma history_calc_maxbuf_wf jb : hist_wf jb -> hist_wf (history_calc_maxbuf jb).
Proof.
  intros Hw. pose proof Hw as [Hl Hp Hc]. unfold history_calc_maxbuf. case_if; [done|].
  destruct gtb_order as (G1 & G2 & G3), ltb_order as (L1 & L2 & L3).
  split; [done..|]. intros _. cbn [hist_maxbuf hist_minbuf setter].
  unfold maxima, minima. split; [apply (fold_table Z.gtb)|apply (fold_table Z.ltb)]; auto.
Qed.

Lemma history_get_wf jb : hist_wf jb -> hist_wf (history_get jb).
Proof.
  intros Hw. unfold history_get.
  assert (Hw' : hist_wf (if negb (hist_maxbuf_valid jb) then history_calc_maxbuf jb else jb))
    by (case_if; auto using history_calc_maxbuf_wf).
  set (jb' := if negb (hist_maxbuf_valid jb) then history_calc_maxbuf jb else jb) in *.
  repeat case_if; (eapply hist_wf_ext; [..|exact Hw']); done.
Qed.

(** ** The queue *)

Definition in_order : list jb_frame -> Prop := StronglySorted (fun a b => ts a <= ts b).

(** Where a frame belongs: after every frame that is not later. *)
Fixpoint frame_insert (f : jb_frame) (l : list jb_frame) : list jb_frame :=
  match l with
  | [] => [f]
  | g :: l' => if ts f <? ts g then f :: l else g :: frame_insert f l'
  end.

Lemma frame_insert_perm f l : frame_insert f l ≡ₚ f :: l.
Proof.
  induction l as [|g l IH]; cbn; [done|]. case_if; [done|]. rewrite IH. apply Permutation_swap.
Qed.

Lemma frame_insert_order f l : in_order l -> in_order (frame_insert f l).
Proof.
  induction 1 as [|g l Hl IH Hg]; cbn; [repeat constructor|]. case_if.
  - constructor; [by constructor|]. constructor; [lia|].
    eapply Forall_impl; [exact Hg|]. cbn. lia.
  - constructor; [done|]. rewrite frame_insert_perm. by constructor.
Qed.

Lemma frame_insert_app f l1 l2 : Forall (fun g => ts g <= ts f) l1 ->
  Forall (fun g => ts f < ts g) l2 -> frame_insert f (l1 ++ l2) = l1 ++ f :: l2.
Proof.
  induction 1 as [|g l1 Hg Hl IH]; intros H2; cbn.
  - destruct H2 as [|g l2 Hg H2]; cbn; [done|]. case_if; [done|lia].
  - case_if; [lia|]. by rewrite IH.
Qed.

Lemma in_order_app (l1 l2 : list jb_frame) : in_order (l1 ++ l2) -> in_order l1 /\ in_order l2.
Proof.
  induction l1 as [|a l1 IH]; cbn; [repeat constructor; done|]. intros H. inversion_clear H as [|? ? Ho Ha].
  apply Forall_app in Ha as [Ha _]. destruct (IH Ho). split; [by constructor|done].
Qed.

Lemma in_order_last (l : list jb_frame) (x : jb_frame) : in_order (l ++ [x]) -> Forall (fun g => ts g <= ts x) l.
Proof.
  induction l as [|a l IH]; cbn; intros H; [constructor|]. inversion_clear H as [|? ? Ho Ha].
  constructor; [|by apply IH]. rewrite Forall_forall in Ha. apply Ha. set_solver.
Qed.

Lemma queue_walk_spec t (before after b' a' : list jb_frame) : queue_walk t before after = (b', a') ->
  Forall (fun g => t < ts g) after ->
  rev b' ++ a' = rev before ++ after /\ Forall (fun g => t < ts g) a' /\
  (before <> [] -> exists x rest, b' = x :: rest /\ (ts x <= t \/ rest = [])).
Proof.
  revert after. induction before as [|x rest IH]; intros after E Ha; cbn in E.
  - simplify_eq. done.
  - destruct ((t <? ts x) && _) eqn:Ec.
    + zb. destruct (IH (x :: after) E) as (A & B & C); [by constructor|].
      cbn. rewrite <- app_assoc. cbn. split_and!; [done..|]. intros _. apply C.
      by destruct rest.
    + simplify_eq. split_and!; [done..|]. intros _. exists x, rest. split; [done|].
      apply andb_false_iff in Ec as [Ec|Ec]; zb; [auto|]. by destruct rest; [right|].
Qed.

(** The backward walk finds the place. *)
Lemma queue_walk_insert f head l : in_order (head :: l) -> ts head <= ts f ->
  (let '(before, after) := queue_walk (ts f) (rev (head :: l)) [] in rev before ++ f :: after) =
  frame_insert f (head :: l).
Proof.
  intros Ho Hh. destruct (queue_walk _ _ _) as [b a] eqn:E.
  destruct (queue_walk_spec _ _ _ _ _ E) as (A & B & C); [constructor|].
  rewrite rev_involutive, app_nil_r in A.
  destruct C as (x & rest & -> & Hx).
  { cbn. intros E0. by apply app_eq_nil in E0 as [_ ?]. }
  rewrite <- A. symmetry. apply frame_insert_app; [|done]. cbn [rev] in *.
  rewrite <- A in Ho. apply in_order_app in Ho as [Ho _].
  assert (Hxt : ts x <= ts f).
  { destruct Hx as [?|Hr]; [done|]. subst rest. cbn in A. by injection A as -> _. }
  apply Forall_app. split; [|by repeat constructor].
  eapply Forall_impl; [by apply in_order_last|]. cbn. lia.
Qed.

Record jb_wf (jb : jitterbuf) : Prop := {
  jw_hist : hist_wf jb;
  jw_order : in_order (frames jb);
  jw_cur : frames_cur (info jb) = Z.of_nat (length (frames jb));
  jw_loss : 0 <= losspct (info jb) <= 100000
}.

(** Frames taken in, less those given out and those waiting. *)
Definition balance (jb : jitterbuf) : Z :=
  frames_in (info jb) - frames_out (info jb) - frames_cur (info jb).

Lemma losspct_up l : 0 <= l <= 100000 -> 0 <= Z.quot (100000 + 499 * l) 500 <= 100000.
Proof.
  intros H. rewrite Z.quot_div_nonneg by lia.
  split; [apply Z.div_pos; lia | apply Z.div_le_upper_bound; lia].
Qed.

Lemma losspct_down l : 0 <= l <= 100000 -> 0 <= Z.quot (499 * l) 500 <= 100000.
Proof.
  intros H. rewrite Z.quot_div_nonneg by lia.
  split; [apply Z.div_pos; lia | apply Z.div_le_upper_bound; lia].
Qed.

Create HintDb jb.
#[export] Hint Resolve losspct_up losspct_down history_put_wf history_get_wf : jb.

(** A step that leaves history and queue alone and keeps the loss in range. *)
Lemma jb_wf_info jb jb' : jb_wf jb -> history jb' = history jb -> hist_ptr jb' = hist_ptr jb ->
  hist_maxbuf jb' = hist_maxbuf jb -> hist_minbuf jb' = hist_minbuf jb ->
  hist_maxbuf_valid jb' = hist_maxbuf_valid jb -> frames jb' = frames jb ->
  frames_cur (info jb') = frames_cur (info jb) -> 0 <= losspct (info jb') <= 100000 -> jb_wf jb'.
Proof.
  intros [] ? ? ? ? ? Ef Ec ?. split; [by eapply hist_wf_ext|by rewrite Ef|by rewrite Ec, Ef|done].
Qed.

Lemma check_resync_spec jb t now m ty d rc d' jb' : jb_wf jb ->
  check_resync jb t now m ty d = (rc, d', jb') ->
  jb_wf jb' /\ frames jb' = frames jb /\ free jb' = free jb /\ balance jb' = balance jb /\
  frames_cur (info jb') = frames_cur (info jb) /\
  (rc = 0 /\ frames_dropped (info jb') = frames_dropped (info jb) \/
   rc = -1 /\ frames_dropped (info jb') = frames_dropped (info jb) + 1).
Proof.
  intros Hw E. unfold check_resync in E.
  assert (Hr : jb_wf jb' -> frames jb' = frames jb -> free jb' = free jb ->
    balance jb' = balance jb -> frames_cur (info jb') = frames_cur (info jb) ->
    (rc = 0 /\ frames_dropped (info jb') = frames_dropped (info jb) \/
     rc = -1 /\ frames_dropped (info jb') = frames_dropped (info jb) + 1) ->
    jb_wf jb' /\ frames jb' = frames jb /\ free jb' = free jb /\ balance jb' = balance jb /\
    frames_cur (info jb') = frames_cur (info jb) /\
    (rc = 0 /\ frames_dropped (info jb') = frames_dropped (info jb) \/
     rc = -1 /\ frames_dropped (info jb') = frames_dropped (info jb) + 1)) by tauto.
  pose proof Hw as [[Hl Hp Hc] Ho Hn Hs].
  repeat match type of E with
         | context [if ?b then _ else _] => destruct b
         end; injection E as <- _ <-; apply Hr; try done; auto;
    try (eapply jb_wf_info; [exact Hw|..]; done); by repeat split.
Qed.

Lemma queue_put_spec jb dat ty m t head jb' : jb_wf jb ->
  queue_put true jb dat ty m t = (head, jb') ->
  let f := mk_frame dat (t - resync_offset (info jb)) m ty in
  jb_wf jb' /\ frames jb' = frame_insert f (frames jb) /\
  (head = 1 /\ (forall g, g ∈ frames jb -> ts f < ts g) \/
   head = 0 /\ (exists g, g ∈ frames jb /\ ts g <= ts f)) /\
  frames_in (info jb') = frames_in (info jb) /\ frames_out (info jb') = frames_out (info jb) /\
  frames_cur (info jb') = frames_cur (info jb) + 1 /\
  resync_offset (info jb') = resync_offset (info jb).
Proof.
  intros Hw E f. pose proof Hw as [Hh Ho Hn Hs].
  assert (Hlen : length (frame_insert f (frames jb)) = S (length (frames jb)))
    by (rewrite frame_insert_perm; done).
  pose proof (frame_insert_order f (frames jb) Ho) as Hfo.
  unfold queue_put in E. replace (match free jb with [] => _ | _ => _ end) with false in E
    by (by destruct (free jb)).
  fold f in E. change (t - resync_offset (info jb)) with (ts f) in E.
  set (jb1 := setter (f := info) _ (setter (f := free) _ jb)) in E.
  change (frames jb1) with (frames jb) in E.
  assert (Hcore : forall jb2 fr, (jb2 = jb1 \/ jb2 = jb1 <|| frames_ooo ::= Z.succ ||>) ->
      fr = frame_insert f (frames jb) -> jb_wf (jb2 <| frames := fr |>) /\
      frames_in (info jb2) = frames_in (info jb) /\ frames_out (info jb2) = frames_out (info jb) /\
      frames_cur (info jb2) = frames_cur (info jb) + 1 /\
      resync_offset (info jb2) = resync_offset (info jb)).
  { intros jb2 fr [-> | ->] ->; (split; [split; [eapply hist_wf_ext; [..|exact Hh]; done|done| |done]|done]);
      cbn; rewrite Hlen; lia. }
  destruct (frames jb) as [|hd l] eqn:Ef.
  - simplify_eq. destruct (Hcore jb1 [f]) as (A & B & C & D & F); [auto|done|].
    split_and!; try done. left. split; [done|set_solver].
  - destruct (Z.ltb_spec (ts f) (ts hd)) as [E0|E0]; simplify_eq.
    + assert (Ei : frame_insert f (hd :: l) = f :: hd :: l) by (cbn; by rewrite (proj2 (Z.ltb_lt _ _))).
      destruct (Hcore (jb1 <|| frames_ooo ::= Z.succ ||>) (f :: hd :: l)) as (A & B & C & D & F); [auto|done|].
      split_and!; try done.
      left. split; [done|]. inversion_clear Ho as [|? ? Ho' Hhd]. rewrite Forall_forall in Hhd.
      intros g [->|Hg]%elem_of_cons; [done|]. specialize (Hhd g Hg). lia.
    + set (jb2 := if ts f <? ts (List.last (hd :: l) hd) then _ else jb1) in *.
      assert (Hjb2 : jb2 = jb1 \/ jb2 = jb1 <|| frames_ooo ::= Z.succ ||>) by (unfold jb2; case_if; auto).
      replace (frames jb2) with (hd :: l) in E by (by destruct Hjb2 as [-> | ->]; rewrite <- Ef).
      pose proof (queue_walk_insert f hd l Ho E0) as Hi.
      destruct (queue_walk _ _ _) as [b a]. simplify_eq.
      destruct (Hcore jb2 (rev b ++ f :: a)) as (A & B & C & D & F); [done..|].
      split_and!; try done. right. split; [done|]. exists hd. split; [set_solver|lia].
Qed.

Lemma queue_get_spec jb t all fo jb' : jb_wf jb -> queue_get_ jb t all = (fo, jb') ->
  jb_wf jb' /\ frames_in (info jb') = frames_in (info jb) /\
  frames_out (info jb') = frames_out (info jb) /\
  match fo with
  | Some f => frames jb = f :: frames jb' /\ frames_cur (info jb') = frames_cur (info jb) - 1
  | None => jb' = jb
  end.
Proof.
  intros Hw E. pose proof Hw as [Hh Ho Hn Hs]. unfold queue_get_ in E.
  destruct (frames jb) as [|f rest] eqn:Ef; [by simplify_eq|].
  destruct (all || _); simplify_eq; [|done]. inversion_clear Ho as [|? ? Ho' Hf].
  split_and!; try done. split; try done.
  - eapply hist_wf_ext; [..|exact Hh]; done.
  - cbn in *. lia.
Qed.

(** What a get that took [frame] off the queue (leaving [jb]) may answer. *)
Definition gives (jb : jitterbuf) (frame : option jb_frame)
    (res : jb_return_code * jb_frame * jitterbuf) : Prop :=
  let '(rc, out, jb') := res in
  jb_wf jb' /\ frames jb' = frames jb /\ frames_in (info jb') = frames_in (info jb) /\
  frames_cur (info jb') = frames_cur (info jb) /\
  match frame with
  | Some f => (rc = JB_OK \/ rc = JB_DROP) /\ out = f /\
              frames_out (info jb') = frames_out (info jb) + 1
  | None => (rc = JB_NOFRAME \/ rc = JB_INTERP) /\ frames_out (info jb') = frames_out (info jb)
  end.

(** Closes a leaf of the case analysis on the get functions: the buffer differs
    from one that is well formed only in statistics. *)
Ltac gives_leaf Hw :=
  unfold gives, increment_losspct, decrement_losspct;
  split; [eapply jb_wf_info; [exact Hw|..]; try done; cbn; destruct Hw; auto with jb|];
  cbn; split_and!; auto; lia.

Lemma get_expected_spec jb frame out now interpl diff : jb_wf jb ->
  gives jb frame (get_expected jb frame out now interpl diff).
Proof.
  intros Hw. unfold get_expected.
  destruct frame as [f|]; [destruct (ms f >? 0)|];
    repeat match goal with |- gives _ _ (if ?b then _ else _) => destruct b end;
    cbn zeta; repeat (case_match; cbn zeta); gives_leaf Hw.
Qed.

(** The whole answer of a get on [jb]. *)
Definition get_ok (jb : jitterbuf) (res : jb_return_code * jb_frame * jitterbuf) : Prop :=
  let '(rc, out, jb') := res in
  jb_wf jb' /\ balance jb' = balance jb /\
  match rc with
  | JB_OK | JB_DROP => frames jb = out :: frames jb'
  | JB_NOFRAME | JB_INTERP => frames jb' = frames jb
  | _ => False
  end.

Lemma gives_get_ok jb t all fo jb1 res : jb_wf jb -> queue_get_ jb t all = (fo, jb1) ->
  (jb_wf jb1 -> gives jb1 fo res) -> get_ok jb res.
Proof.
  intros Hw E Hg. destruct (queue_get_spec jb t all fo jb1 Hw E) as (W1 & I1 & O1 & F1).
  destruct res as [[rc out] jb']. destruct (Hg W1) as (W2 & F2 & I2 & C2 & M).
  unfold get_ok, balance. destruct fo as [f|].
  - destruct F1 as [Ef Ec]. destruct M as (Hrc & -> & Ho). split_and!; [done|lia|].
    destruct Hrc as [-> | ->]; by rewrite F2.
  - subst jb1. destruct M as (Hrc & Ho). split_and!; [done|lia|]. destruct Hrc as [-> | ->]; done.
Qed.

Lemma get_talking_spec jb out now interpl diff : jb_wf jb ->
  get_ok jb (get_talking jb out now interpl diff).
Proof.
  intros Hw. unfold get_talking.
  match goal with |- get_ok _ (if ?b then _ else _) => destruct b end.
  - cbn zeta. unfold get_ok, balance. case_match;
      (split; [eapply jb_wf_info; [exact Hw|..]; try done; by destruct Hw|done]).
  - destruct (queue_get _ _) as [fo jb1] eqn:E. apply (gives_get_ok jb _ _ fo jb1 _ Hw E). intros W1.
    destruct fo as [f|]; [|by apply get_expected_spec].
    repeat match goal with |- gives _ _ (if ?b then _ else _) => destruct b end;
      [destruct (type f)| | |by apply get_expected_spec]; cbn zeta; gives_leaf W1.
Qed.

Lemma get_silent_spec jb out now interpl diff : jb_wf jb ->
  get_ok jb (get_silent jb out now interpl diff).
Proof.
  intros Hw. unfold get_silent.
  set (jb0 := if _ && (last_adjustment _ + 10 <=? now) then _ else jb).
  assert (W0 : jb_wf jb0).
  { unfold jb0. case_if; [|done]. eapply jb_wf_info; [exact Hw|..]; try done. by destruct Hw. }
  assert (H0 : balance jb0 = balance jb /\ frames jb0 = frames jb) by (unfold jb0; by case_if).
  assert (Hg : get_ok jb0 (let '(frame, jb1) := queue_get jb0 (now - current (info jb0)) in
     match frame with
     | None => (JB_NOFRAME, out, jb1)
     | Some f =>
      if negb (is_voice (type f)) then (JB_OK, f, jb1 <|| frames_out ::= Z.succ ||>)
      else if ts f <? silence_begin_ts (info jb1) then
        let jb2 := decrement_losspct (jb1 <|| frames_out ::= Z.succ ||>) in
        (JB_DROP, f, jb2 <|| frames_late ::= Z.succ ||> <|| frames_lost ::= Z.pred ||>)
      else
        let jb2 := jb1 <|| current := target (info jb1) ||> <|| silence_begin_ts := 0 ||> in
        let jb3 := jb2 <|| next_voice_ts := ts f + current (info jb2) + ms f ||>
                     <|| last_voice_ms := ms f ||> <|| frames_out ::= Z.succ ||> in
        (JB_OK, f, decrement_losspct jb3)
     end)).
  { destruct (queue_get _ _) as [fo jb1] eqn:E. apply (gives_get_ok jb0 _ _ fo jb1 _ W0 E). intros W1.
    destruct fo as [f|]; repeat match goal with |- gives _ _ (if ?b then _ else _) => destruct b end;
      cbn zeta; gives_leaf W1. }
  destruct H0 as [Hb Hf]. unfold get_ok in *. by rewrite Hb, Hf in Hg.
Qed.

Lemma jb_wf_target jb t : jb_wf jb -> jb_wf (jb <|| target := t ||>).
Proof. intros Hw. eapply jb_wf_info; [exact Hw|..]; try done. by destruct Hw. Qed.

Lemma history_get_frame jb : info (history_get jb) =
  (info jb) <| min := min (info (history_get jb)) |> <| jitter := jitter (info (history_get jb)) |>
  /\ frames (history_get jb) = frames jb.
Proof.
  unfold history_get, history_calc_maxbuf. by repeat (case_match; cbn zeta; try done).
Qed.

Lemma history_get_jb_wf jb : jb_wf jb -> jb_wf (history_get jb) /\ balance (history_get jb) = balance jb.
Proof.
  intros []. destruct (history_get_frame jb) as [Ei Ef]. split.
  - split; [by apply history_get_wf|by rewrite Ef|rewrite Ei, Ef; done|rewrite Ei; done].
  - unfold balance. by rewrite Ei.
Qed.

Lemma jb_get__spec jb out now interpl : jb_wf jb -> get_ok jb (jb_get_ jb out now interpl).
Proof.
  intros Hw. destruct (history_get_jb_wf jb Hw) as [W1 B1].
  destruct (history_get_frame jb) as [_ F1]. unfold jb_get_.
  set (jb1 := history_get jb) in *. set (jb2 := setter (f := info) _ jb1).
  set (jb3 := if ctrue _ && _ then _ else jb2).
  assert (W3 : jb_wf jb3 /\ balance jb3 = balance jb /\ frames jb3 = frames jb).
  { unfold jb3. case_if; (split; [by repeat apply jb_wf_target|]);
      (split; [rewrite <- B1; done|by rewrite <- F1]). }
  destruct W3 as (W3 & B3 & F3). unfold get_ok. rewrite <- B3, <- F3.
  case_if; [apply get_talking_spec|apply get_silent_spec]; done.
Qed.

(** ** The operations *)

Lemma history_put_frame jb t now m d : info (history_put jb t now m d) = info jb /\
  frames (history_put jb t now m d) = frames jb.
Proof. unfold history_put. by repeat case_match. Qed.

Lemma jb_put_spec jb dat ty m t now rc jb' : jb_wf jb ->
  jb_put true jb dat ty m t now = (rc, jb') ->
  let f := mk_frame dat (t - resync_offset (info jb')) m ty in
  jb_wf jb' /\ balance jb' = balance jb /\
  match rc with
  | JB_DROP => frames jb' = frames jb /\ frames_dropped (info jb') = frames_dropped (info jb) + 1
  | JB_SCHED => frames jb' = frame_insert f (frames jb) /\ forall g, g ∈ frames jb -> ts f < ts g
  | JB_OK => frames jb' = frame_insert f (frames jb) /\ exists g, g ∈ frames jb /\ ts g <= ts f
  | _ => False
  end.
Proof.
  intros Hw E f. unfold jb_put in E. destruct (check_resync _ _ _ _ _ _) as [[r d] jb1] eqn:Ec.
  destruct (check_resync_spec _ _ _ _ _ _ _ _ _ Hw Ec) as (W1 & F1 & _ & B1 & C1 & Hrc).
  destruct Hrc as [[-> D1]|[-> D1]]; cbn [ctrue Z.eqb negb] in E; [|by simplify_eq].
  change (ctrue 0) with false in E. cbn iota zeta in E.
  set (jb2 := if is_voice ty then history_put jb1 t now m d else jb1) in *.
  assert (W2 : jb_wf jb2 /\ info jb2 = info jb1 /\ frames jb2 = frames jb1).
  { unfold jb2. destruct (is_voice ty); [|done]. destruct (history_put_frame jb1 t now m d) as [Ei Ef].
    split; [|done]. destruct W1. split; [by apply history_put_wf|by rewrite Ef|by rewrite Ei, Ef|by rewrite Ei]. }
  destruct W2 as (W2 & I2 & F2). set (jb3 := setter (f := info) _ jb2) in *.
  assert (W3 : jb_wf jb3) by (eapply jb_wf_info; [exact W2|..]; try done; by destruct W2).
  destruct (queue_put true jb3 dat ty m t) as [h jb4] eqn:Eq.
  destruct (queue_put_spec _ _ _ _ _ _ _ W3 Eq) as (W4 & F4 & Hh & I4 & O4 & C4 & R4).
  simplify_eq. rewrite <- R4 in *. subst f. change (frames jb3) with (frames jb2) in *.
  split; [done|]. split.
  - unfold balance in *. rewrite I4, O4, C4. cbn. rewrite I2. lia.
  - rewrite F2, F1 in *. by destruct Hh as [[-> ?]|[-> ?]].
Qed.

Lemma jb_get_spec jb out now interpl : jb_wf jb -> get_ok jb (jb_get jb out now interpl).
Proof.
  intros Hw. pose proof (jb_get__spec jb out now interpl Hw) as H. unfold jb_get.
  destruct (jb_get_ _ _ _ _) as [[rc o] jb']. by destruct rc.
Qed.

(** The fresh buffer of [jb_new] is [jb_reset] of uninitialised memory. *)
Lemma jb_reset_wf jb : jb_wf (jb_reset jb).
Proof. repeat split; try done; try constructor; lia. Qed.

(** Any sequence of calls on one buffer. *)
Inductive jb_call :=
  | Call_put (dat : Z) (ty : jb_frame_type) (m t now : Z)
  | Call_get (out : jb_frame) (now interpl : Z)
  | Call_getall (out : jb_frame)
  | Call_next
  | Call_getinfo
  | Call_setconf (c : jb_conf).

(** The buffer after a call. *)
Definition jb_step (jb : jitterbuf) (c : jb_call) : jitterbuf :=
  match c with
  | Call_put dat ty m t now => snd (jb_put true jb dat ty m t now)
  | Call_get out now interpl => snd (jb_get jb out now interpl)
  | Call_getall out => snd (jb_getall jb out)
  | Call_next => snd (jb_next jb)
  | Call_getinfo => snd (jb_getinfo jb)
  | Call_setconf c => snd (jb_setconf jb c)
  end.

Lemma jb_getall_spec jb out rc o jb' : jb_wf jb -> jb_getall jb out = (rc, o, jb') ->
  jb_wf jb' /\ (rc = JB_OK /\ frames jb = o :: frames jb' \/
                rc = JB_NOFRAME /\ frames jb = [] /\ jb' = jb).
Proof.
  intros Hw E. unfold jb_getall, queue_getall in E.
  destruct (queue_get_ jb 0 true) as [fo jb1] eqn:Eq.
  destruct (queue_get_spec _ _ _ _ _ Hw Eq) as (W & _ & _ & M).
  destruct fo as [f|]; simplify_eq; split; try done; [by left; destruct M|].
  right. split_and!; try done. unfold queue_get_ in Eq. by destruct (frames _).
Qed.

Lemma jb_step_wf jb c : jb_wf jb -> jb_wf (jb_step jb c).
Proof.
  intros Hw. destruct c as [dat ty m t now|out now interpl|out| | |c]; cbn [jb_step].
  - destruct (jb_put _ _ _ _ _ _ _) as [rc jb'] eqn:E. by destruct (jb_put_spec _ _ _ _ _ _ _ _ Hw E).
  - pose proof (jb_get_spec jb out now interpl Hw) as H.
    destruct (jb_get _ _ _ _) as [[rc o] jb']. by destruct H.
  - destruct (jb_getall jb out) as [[rc o] jb'] eqn:E. by destruct (jb_getall_spec _ _ _ _ _ Hw E).
  - unfold jb_next. repeat case_match; try done; by apply history_get_jb_wf.
  - by apply history_get_jb_wf.
  - eapply jb_wf_info; [exact Hw|..]; try done. by destruct Hw.
Qed.

(** *** The pointer into the history *)

Lemma check_resync_ptr jb t now m ty d rc d' jb' : check_resync jb t now m ty d = (rc, d', jb') ->
  hist_ptr jb' = hist_ptr jb \/ hist_ptr jb' = 0.
Proof.
  unfold check_resync. intros E. repeat match type of E with context [if ?b then _ else _] => destruct b end; injection E as <- _ <-; by auto.
Qed.

Lemma queue_get_ptr jb t all fo jb' : queue_get_ jb t all = (fo, jb') -> hist_ptr jb' = hist_ptr jb.
Proof. unfold queue_get_. destruct (frames jb); [by intros [= <- <-]|]. case_if; by intros [= <- <-]. Qed.

Lemma history_get_ptr jb : hist_ptr (history_get jb) = hist_ptr jb.
Proof. unfold history_get, history_calc_maxbuf. by repeat case_if. Qed.

Lemma queue_put_ptr jb dat ty m t : hist_ptr (snd (queue_put true jb dat ty m t)) = hist_ptr jb.
Proof. unfold queue_put. by repeat case_match. Qed.

Lemma get_expected_ptr jb frame out now interpl diff : hist_ptr (snd (get_expected jb frame out now interpl diff)) = hist_ptr jb.
Proof. unfold get_expected. destruct frame; cbn zeta; by repeat case_if. Qed.

Lemma jb_get_ptr jb out now interpl : hist_ptr (snd (jb_get jb out now interpl)) = hist_ptr jb.
Proof.
  assert (H : hist_ptr (snd (jb_get_ jb out now interpl)) = hist_ptr jb).
  { unfold jb_get_. rewrite <- (history_get_ptr jb). generalize (history_get jb). intros h.
    set (j2 := setter (f := info) _ h). set (j3 := if ctrue _ && _ then _ else j2).
    assert (H3 : hist_ptr j3 = hist_ptr h) by (unfold j3; by case_if). rewrite <- H3. generalize (target (info j3) - current (info j3)).
    generalize j3. clear. intros j diff. case_if.
    - unfold get_talking. case_if; [cbn zeta; by case_if|]. destruct (queue_get j _) as [fr j1] eqn:Eq. apply queue_get_ptr in Eq. rewrite <- Eq.
      destruct fr; [|apply get_expected_ptr]. repeat case_match; first [done|apply get_expected_ptr].
    - unfold get_silent. destruct (queue_get _ _) as [[f|] j1] eqn:Eq; apply queue_get_ptr in Eq;
        (transitivity (hist_ptr j1); [by repeat case_match|rewrite Eq; by case_if]). }
  unfold jb_get. destruct (jb_get_ jb out now interpl) as [[rc o] j]. cbn in H. by destruct rc.
Qed.

(** A call advances the pointer by one at most. *)
Lemma jb_step_ptr jb c : 0 <= hist_ptr jb < 2 ^ 31 - 1 -> 0 <= hist_ptr (jb_step jb c) <= hist_ptr jb + 1.
Proof.
  intros Hp. destruct c as [dat ty m t now|out now interpl|out| | |c]; cbn [jb_step].
  - unfold jb_put. destruct (check_resync _ _ _ _ _ _) as [[r d] jb1] eqn:Ec. apply check_resync_ptr in Ec. case_if; [cbn; lia|].
    destruct (queue_put _ _ _ _ _ _) as [h jb4] eqn:Eq. apply (f_equal (fun r => hist_ptr (snd r))) in Eq. rewrite queue_put_ptr in Eq. cbn in Eq.
    assert (H4 : hist_ptr jb4 = hist_ptr jb1 \/ hist_ptr jb4 = next_ptr (hist_ptr jb1)).
    { rewrite <- Eq. destruct (is_voice ty); [|by left]. unfold history_put. repeat case_if; by auto. }
    assert (Hn : next_ptr (hist_ptr jb1) = hist_ptr jb1 + 1) by (apply wraps_id; unfold in_s; lia).
    case_if; cbn; lia.
  - rewrite jb_get_ptr. lia.
  - unfold jb_getall, queue_getall. destruct (queue_get_ jb 0 true) as [[f|] j] eqn:Eq; apply queue_get_ptr in Eq; cbn; lia.
  - unfold jb_next. repeat case_match; cbn; rewrite ?history_get_ptr; lia.
  - unfold jb_getinfo. cbn. rewrite history_get_ptr. lia.
  - unfold jb_setconf. cbn. lia.
Qed.

(** ** The jitter estimate as a quantile *)

Section quantiles.
Context (beats : Z -> Z -> bool).
Hypothesis beats_irrefl : forall x, beats x x = false.
Hypothesis beats_trans : forall x y z, beats x y = true -> beats y z = true -> beats x z = true.
Hypothesis beats_total : forall x y, beats x y = false -> beats y x = false -> x = y.

Definition count (p : Z -> bool) (l : list Z) : nat := length (filter (fun x => p x = true) l).

Lemma count_app p l1 l2 : count p (l1 ++ l2) = (count p l1 + count p l2)%nat.
Proof. unfold count. by rewrite filter_app, length_app. Qed.

Lemma count_all p l : Forall (fun x => p x = true) l -> count p l = length l.
Proof.
  induction 1 as [|x l Hx Hl IH]; [done|]. unfold count in *. rewrite filter_cons_True by done.
  cbn. by rewrite IH.
Qed.

Lemma count_none p l : Forall (fun x => p x = false) l -> count p l = 0%nat.
Proof.
  induction 1 as [|x l Hx Hl IH]; [done|]. unfold count in *. by rewrite filter_cons_False by congruence.
Qed.

Lemma count_le p l : (count p l <= length l)%nat.
Proof. apply length_filter. Qed.

Lemma count_perm p l1 l2 : l1 ≡ₚ l2 -> count p l1 = count p l2.
Proof. unfold count. by intros ->. Qed.

(** Position [i] of a ranked list: at most [i] elements beat its value, more
    than [i] are not beaten by it. *)
Lemma ranked_rank s i : ranked beats s -> (i < length s)%nat ->
  let v := nth i s 0 in
  (count (fun x => beats x v) s <= i)%nat /\ (i < count (fun x => negb (beats v x)) s)%nat.
Proof.
  intros Hs Hi v. rewrite <- (take_drop i s). rewrite !count_app. unfold v. split.
  - rewrite (count_none _ (drop i s)).
    + pose proof (count_le (fun x => beats x v) (take i s)) as H. unfold v in H. rewrite length_take in H. lia.
    + apply Forall_lookup. intros k x Hk. rewrite lookup_drop in Hk.
      rewrite <- (nth_lookup_Some _ _ 0%Z _ Hk). apply lookup_lt_Some in Hk.
      apply ranked_nth; auto with lia.
  - rewrite (count_all _ (take i s)).
    + rewrite length_take. destruct (drop i s) as [|y r] eqn:Ed.
      { apply (f_equal length) in Ed. rewrite length_drop in Ed. cbn in Ed. lia. }
      assert (y = nth i s 0) as <-.
      { symmetry. apply nth_lookup_Some. rewrite <- (Nat.add_0_r i), <- lookup_drop. by rewrite Ed. }
      unfold count. rewrite filter_cons_True by (by rewrite beats_irrefl). cbn. lia.
    + apply Forall_lookup. intros k x Hk. apply lookup_take_Some in Hk as [Hk ?].
      rewrite <- (nth_lookup_Some _ _ 0%Z _ Hk). apply negb_true_iff, ranked_nth; auto with lia.
Qed.

Lemma table_rank N PAD l i : (i < N)%nat -> (i < length l)%nat ->
  Forall (fun x => beats PAD x = false) l ->
  let v := nth i (table beats N PAD l) 0 in
  (count (fun x => beats x v) l <= i)%nat /\ (i < count (fun x => negb (beats v x)) l)%nat.
Proof.
  intros HN Hl HP. cbn zeta. set (s := srt beats (l ++ replicate N PAD)).
  assert (Hp : s ≡ₚ l ++ replicate N PAD) by apply srt_perm.
  assert (Hr : ranked beats s) by (apply srt_ranked; auto).
  assert (Hlen : length s = (length l + N)%nat) by (rewrite Hp, length_app, length_replicate; done).
  assert (Ev : nth i (table beats N PAD l) 0 = nth i s 0).
  { unfold table. fold s. rewrite !nth_lookup. by rewrite lookup_take_lt. }
  rewrite Ev. destruct (ranked_rank s i Hr) as [A B]; [lia|]. set (v := nth i s 0) in *.
  rewrite (count_perm _ _ _ Hp), count_app in A. rewrite (count_perm _ _ _ Hp), count_app in B.
  split; [lia|].
  destruct (beats v PAD) eqn:Evp.
  - rewrite (count_none _ (replicate N PAD)) in B; [lia|].
    apply Forall_replicate. by rewrite Evp.
  - rewrite count_all; [done|]. eapply Forall_impl; [exact HP|]. cbn. intros x Hx.
    apply negb_true_iff. destruct (beats v x) eqn:E; [|done].
    destruct (beats PAD v) eqn:E2; [|by rewrite (beats_total v PAD) in E by done; congruence].
    by rewrite (beats_trans _ _ _ E2 E) in Hx.
Qed.

End quantiles.

Lemma count_ext p q l : (forall x, p x = q x) -> count p l = count q l.
Proof.
  intros H. unfold count. f_equal. apply list_filter_iff. intros x. by rewrite H.
Qed.

Lemma length_window jb : hist_wf jb -> 
  length (window jb) = Z.to_nat (Z.min (hist_ptr jb) 500).
Proof.
  intros [_ Hp _]. unfold window, JB_HISTORY_SZ. rewrite length_map, length_seqZ. case_if; lia.
Qed.

(** [history_get] reads position [3n/100] of the two tables. *)
Lemma history_get_idx jb : hist_wf jb -> 0 < hist_ptr jb ->
  let i := info (history_get jb) in
  let k := (length (window jb) * 3 / 100)%nat in
  (k < 20)%nat /\ (k < length (window jb))%nat /\
  min i = nth k (minima (window jb)) 0 /\ min i + jitter i = nth k (maxima (window jb)) 0.
Proof.
  intros Hw Hp i k. pose proof (length_window jb Hw) as Hl.
  set (jb1 := if negb (hist_maxbuf_valid jb) then history_calc_maxbuf jb else jb).
  assert (H1 : hist_maxbuf_valid jb1 = true /\ hist_ptr jb1 = hist_ptr jb /\ window jb1 = window jb).
  { unfold jb1, history_calc_maxbuf. destruct (hist_maxbuf_valid jb) eqn:E; cbn [negb]; [done|].
    case_if; [lia|done]. }
  assert (W1 : hist_wf jb1) by (unfold jb1; case_if; auto using history_calc_maxbuf_wf).
  destruct H1 as (V1 & P1 & E1). destruct (hw_cache _ W1 V1) as [Hmx Hmn]. rewrite E1 in *.
  assert (Hk : (k < 20)%nat /\ (k < length (window jb))%nat /\
    Z.quot (Z.min (hist_ptr jb) 500 * 3) 100 = Z.of_nat k).
  { unfold k. rewrite Hl. set (n := Z.to_nat _). assert (Hn : Z.of_nat n = Z.min (hist_ptr jb) 500) by lia.
    rewrite <- Hn. rewrite Z.quot_div_nonneg, Nat2Z.inj_div, Nat2Z.inj_mul by lia.
    split_and!; [apply Nat.Div0.div_lt_upper_bound; lia..|done]. }
  destruct Hk as (K1 & K2 & K3). do 2 (split; [done|]).
  unfold i, history_get. fold jb1. rewrite P1. unfold JB_HISTORY_SZ, JB_HISTORY_DROPPCT, JB_HISTORY_MAXBUF_SZ, JB_HISTORY_DROPPCT_MAX.
  replace (if hist_ptr jb <? 500 then hist_ptr jb else 500) with (Z.min (hist_ptr jb) 500) by (case_if; lia).
  rewrite K3. change (JB_HISTORY_SZ * 4 / 100) with 20.
  replace (if Z.of_nat k >? 20 - 1 then _ else _) with (Z.of_nat k) by (case_if; lia).
  rewrite (proj2 (Z.ltb_ge _ _)) by lia.
  cbn [info setter min jitter]. rewrite !Nat2Z.id, Hmx, Hmn. lia.
Qed.

Lemma in_order_span l : in_order l ->
  match l with [] => True | f :: _ => ts f <= ts (List.last l f) end.
Proof.
  intros Ho. destruct l as [|f l]; [done|]. inversion_clear Ho as [|? ? _ Hf].
  rewrite Forall_forall in Hf. destruct (exists_last (l := f :: l)) as (l' & x & E); [done|].
  rewrite E, List.last_last. destruct l' as [|y l']; cbn in E; injection E as -> ->; [lia|].
  apply Hf. set_solver.
Qed.

(** ** Theorems *)

(** A frame [jb_put] refuses: the queue already spans [max_jitterbuf], or the
    delay jumped and this is neither a control frame nor the fourth jump running. *)
Definition refused (jb : jitterbuf) (ty : jb_frame_type) (t now : Z) : Prop :=
  let i := info jb in
  (queue_last jb - queue_next jb >= max_jitterbuf (conf i)) \/
  (resync_threshold (conf i) <> -1 /\ ty <> JB_TYPE_CONTROL /\ cnt_delay_discont i < 3 /\
   int_abs (now - (t - resync_offset i) - last_delay i) > 2 * jitter i + resync_threshold (conf i)).

Lemma jb_put_drop jb dat ty m t now :
  fst (jb_put true jb dat ty m t now) = JB_DROP <-> refused jb ty t now.
Proof.
  assert (Hq : forall j, fst (let '(head, j') := queue_put true j dat ty m t in
                (if ctrue head then JB_SCHED else JB_OK, j')) <> JB_DROP)
    by (intros j; destruct (queue_put _ _ _ _ _ _) as [h j']; cbn; by case_if).
  assert (Hs : match frames jb with [] => 0 | f :: _ => ts (List.last (frames jb) f) - ts f end =
               queue_last jb - queue_next jb)
    by (unfold queue_last, queue_next; by destruct (frames jb)).
  unfold jb_put, check_resync, refused. rewrite Hs. case_if; [cbn; split; [intros _; lia|done]|].
  cbn [info conf setter resync_threshold last_delay jitter].
  case_if; [|cbn [ctrue Z.eqb negb]; split; [by intros ?%Hq|lia]].
  case_if; [|cbn [ctrue Z.eqb negb]; split; [by intros ?%Hq|lia]].
  match goal with |- context [if ?b then (0, _, _) else _] => destruct b eqn:Eb end;
    cbn [ctrue Z.eqb negb]; (split; [try by intros ?%Hq|]); [| |done].
  - destruct ty; cbn in Eb; zb; try destruct Eb as [Eb|Eb]; zb; intros [?|(? & ? & ? & ?)]; lia || done.
  - intros _. right. destruct ty; cbn in Eb; zb; try done; split_and!; done || lia.
Qed.

(** Putting a frame into the jitter buffer.  The frame is refused ([JB_DROP],
    queue untouched, counted as dropped) exactly when the queue already spans
    [max_jitterbuf] or an unconfirmed delay jump occurs; otherwise it is
    inserted, in resynchronised time, behind every frame that is not later, and
    the result is [JB_SCHED] exactly when it became the first to play. The buffer
    stays well formed (ordered queue, sound history cache, exact counters). *)
Theorem jb_put_correct jb dat ty m t now rc jb' :
  jb_wf jb -> jb_put true jb dat ty m t now = (rc, jb') ->
  let f := mk_frame dat (t - resync_offset (info jb')) m ty in
  jb_wf jb' /\ balance jb' = balance jb /\ (rc = JB_DROP <-> refused jb ty t now) /\
  match rc with
  | JB_DROP => frames jb' = frames jb /\ frames_dropped (info jb') = frames_dropped (info jb) + 1
  | JB_SCHED => frames jb' = frame_insert f (frames jb) /\ forall g, g ∈ frames jb -> ts f < ts g
  | JB_OK => frames jb' = frame_insert f (frames jb) /\ exists g, g ∈ frames jb /\ ts g <= ts f
  | _ => False
  end.
Proof.
  intros Hw E f. destruct (jb_put_spec _ _ _ _ _ _ _ _ Hw E) as (A & B & D).
  pose proof (jb_put_drop jb dat ty m t now) as Hd. rewrite E in Hd. done.
Qed.

(** Getting from the jitter buffer conserves frames.  [JB_OK] and [JB_DROP]
    hand out exactly the earliest frame of the queue and nothing else leaves it;
    [JB_NOFRAME] and [JB_INTERP] leave the queue alone; frames in = frames out +
    frames waiting is preserved and the buffer stays well formed. *)
Theorem jb_get_conserves jb out now interpl rc out' jb' :
  jb_wf jb -> jb_get jb out now interpl = (rc, out', jb') ->
  jb_wf jb' /\ balance jb' = balance jb /\
  match rc with
  | JB_OK | JB_DROP => frames jb = out' :: frames jb' /\
                       forall g, g ∈ frames jb' -> ts out' <= ts g
  | JB_NOFRAME => frames jb' = frames jb
  | JB_INTERP => frames jb' = frames jb /\ ms out' = last_voice_ms (info jb')
  | _ => False
  end.
Proof.
  intros Hw E. pose proof (jb_get_spec jb out now interpl Hw) as H. rewrite E in H.
  destruct H as (W & B & M). split_and!; [done..|]. pose proof (jw_order _ Hw) as Ho.
  destruct rc; try done; try (split; [done|]);
    try (rewrite M in Ho; inversion_clear Ho as [|? ? _ Ha]; by rewrite Forall_forall in Ha).
  unfold jb_get in E. destruct (jb_get_ _ _ _ _) as [[r o] j]. by destruct r; simplify_eq.
Qed.

(** C27: from a reset buffer, any sequence of fewer than 2^31 puts, gets, drains, queries
    and configuration changes keeps the queue in timestamp order, the frame counter
    equal to the queue length, the loss rate between 0 and 100 %, and the cached
    tables of extreme delays, when marked valid, equal to the tables of the 20
    largest and 20 smallest delays of the history window: skipping their
    recomputation in [history_put] is sound.  The pointer into the history does not
    overflow. *)
Theorem jb_run_invariant jb calls : Z.of_nat (length calls) < 2 ^ 31 ->
  let jb' := foldl jb_step (jb_reset jb) calls in
  in_order (frames jb') /\ frames_cur (info jb') = Z.of_nat (length (frames jb')) /\
  0 <= losspct (info jb') <= 100000 /\
  (hist_maxbuf_valid jb' = true ->
   hist_maxbuf jb' = maxima (window jb') /\ hist_minbuf jb' = minima (window jb')) /\
  0 <= hist_ptr jb' <= Z.of_nat (length calls).
Proof.
  intros Hlen jb'. assert (W : jb_wf jb' /\ 0 <= hist_ptr jb' <= Z.of_nat (length calls)).
  { unfold jb'. induction calls as [|c calls IH] using rev_ind; [split; [apply jb_reset_wf|done]|].
    rewrite length_app in *. cbn [length] in *. destruct IH as [W Hp]; [lia|]. rewrite foldl_app. cbn [foldl]. split; [by apply jb_step_wf|].
    pose proof (jb_step_ptr (foldl jb_step (jb_reset jb) calls) c ltac:(lia)). lia. }
  by destruct W as [[[]] ?].
Qed.

(** With the pointer at the largest [int], the next frame makes it negative, and the one
    after that is written before the array. *)
Lemma hist_ptr_overflows jb t now m d : 0 < t -> hist_ptr jb = 2 ^ 31 - 1 ->
  hist_ptr (history_put jb t now m d) = - 2 ^ 31 /\ Z.rem (hist_ptr (history_put jb t now m d)) JB_HISTORY_SZ = -148.
Proof.
  intros Ht Hp. assert (E : hist_ptr (history_put jb t now m d) = - 2 ^ 31); [|by rewrite E].
  unfold history_put. rewrite (proj2 (Z.leb_gt t 0)) by done. repeat case_if; cbn; by rewrite Hp.
Qed.

(** The jitter estimate is the spread between two quantiles: with [n] delays
    in the window and [k = 3n/100], [info.min] is a value with at most [k] delays
    below it and more than [k] not above it, and [info.min + info.jitter] a value
    with at most [k] delays above it and more than [k] not below it. *)
Theorem history_get_quantiles jb :
  hist_wf jb -> 0 < hist_ptr jb ->
  Forall (fun d => JB_LONGMIN <= d <= JB_LONGMAX) (window jb) ->
  let i := info (history_get jb) in
  let k := (length (window jb) * 3 / 100)%nat in
  (count (fun d => (d <? min i)%Z) (window jb) <= k)%nat /\
  (k < count (fun d => (d <=? min i)%Z) (window jb))%nat /\
  (count (fun d => (d >? min i + jitter i)%Z) (window jb) <= k)%nat /\
  (k < count (fun d => (d >=? min i + jitter i)%Z) (window jb))%nat.
Proof.
  intros Hw Hp HF i k. destruct gtb_order as (G1 & G2 & G3), ltb_order as (L1 & L2 & L3).
  pose proof (history_get_idx jb Hw Hp) as (Hk & Hlen & Emn & Emx). fold i in Emn, Emx. fold k in Hk, Hlen, Emn, Emx.
  destruct (table_rank Z.ltb L1 L2 L3 20 JB_LONGMAX (window jb) k) as [A B]; [lia..| |].
  { eapply Forall_impl; [exact HF|]. cbn. intros d Hd. apply Z.ltb_ge. lia. }
  destruct (table_rank Z.gtb G1 G2 G3 20 JB_LONGMIN (window jb) k) as [C D]; [lia..| |].
  { eapply Forall_impl; [exact HF|]. cbn. intros d Hd. rewrite Z.gtb_ltb. apply Z.ltb_ge. lia. }
  fold (minima (window jb)) in A, B. fold (maxima (window jb)) in C, D.
  replace (min i + jitter i) with (nth k (maxima (window jb)) 0) by lia. rewrite Emn.
  split_and!; try done; [eapply Nat.lt_le_trans; [exact B|]|eapply Nat.lt_le_trans; [exact D|]];
    apply Nat.eq_le_incl, count_ext; intros d;
    rewrite ?Z.gtb_ltb, ?Z.geb_leb; [by rewrite Z.leb_antisym|by rewrite Z.leb_antisym].
Qed.

(** A [max_jitterbuf] of 0, which [_jb_get] and the header take to mean "no
    clamp", makes [jb_put] drop every frame offered to an ordered buffer. *)
Theorem jb_put_unclamped_drops jb dat ty m t now :
  jb_wf jb -> max_jitterbuf (conf (info jb)) = 0 -> fst (jb_put true jb dat ty m t now) = JB_DROP.
Proof.
  intros [_ Ho _ _] H0. apply jb_put_drop. left. rewrite H0. unfold queue_last, queue_next.
  pose proof (in_order_span (frames jb) Ho). destruct (frames jb); lia.
Qed.

(** ** Witnesses *)

(** A buffer configured for at most 200 ms that received two voice frames out of
    order. *)
Definition ex_conf : jb_conf := mk_conf 200 1000 10 40.
Definition ex_raw : jitterbuf :=
  mk_jb (mk_info ex_conf 0 0 0 0 0 0 0 0 0 0 0 0 0 0 0 0 0 0 0 0) [] 0 [] [] false false [] [].
Definition ex_jb : jitterbuf :=
  foldl jb_step (jb_reset ex_raw)
    [Call_setconf ex_conf; Call_put 7 JB_TYPE_VOICE 20 120 130; Call_put 8 JB_TYPE_VOICE 20 100 131].

Lemma ex_jb_wf : jb_wf ex_jb.
Proof. unfold ex_jb. cbn [foldl]. repeat apply jb_step_wf. apply jb_reset_wf. Qed.

Lemma jb_put_correct_witness :
  map ts (frames (snd (jb_put true ex_jb 9 JB_TYPE_VOICE 20 110 132))) = [100; 110; 120] /\
  balance (snd (jb_put true ex_jb 9 JB_TYPE_VOICE 20 110 132)) = 0.
Proof.
  split; [by vm_compute|].
  rewrite (proj1 (proj2 (jb_put_correct ex_jb 9 JB_TYPE_VOICE 20 110 132 _ _ ex_jb_wf
            (surjective_pairing _)))). by vm_compute.
Defined.

Lemma jb_get_conserves_witness :
  exists out jb', jb_get ex_jb (mk_frame 0 0 0 JB_TYPE_CONTROL) 200 20 = (JB_OK, out, jb') /\
    frames ex_jb = out :: frames jb' /\ ts out = 100.
Proof.
  eexists _, _. split; [by vm_compute|].
  split; [|done].
  exact (proj1 (proj2 (proj2 (jb_get_conserves ex_jb (mk_frame 0 0 0 JB_TYPE_CONTROL) 200 20 _ _ _ ex_jb_wf
           ltac:(by vm_compute))))).
Defined.

Lemma jb_run_invariant_witness :
  let jb' := foldl jb_step (jb_reset ex_raw) [Call_put 1 JB_TYPE_VOICE 20 20 30; Call_put 2 JB_TYPE_VOICE 20 40 55; Call_next] in
  in_order (frames jb') /\ hist_ptr jb' = 2.
Proof.
  split; [|vm_compute; reflexivity].
  exact (proj1 (jb_run_invariant ex_raw [Call_put 1 JB_TYPE_VOICE 20 20 30; Call_put 2 JB_TYPE_VOICE 20 40 55; Call_next] ltac:(done))).
Defined.

Lemma history_get_quantiles_witness :
  window ex_jb = [10; 31] /\
  (count (fun d => (d <? min (info (history_get ex_jb)))%Z) (window ex_jb) <= 0)%nat.
Proof.
  split; [by vm_compute|].
  apply (history_get_quantiles ex_jb (jw_hist _ ex_jb_wf)); [by vm_compute|].
  replace (window ex_jb) with [10; 31] by (by vm_compute). by repeat constructor.
Defined.

Lemma jb_put_unclamped_drops_witness :
  fst (jb_put true (snd (jb_setconf ex_jb (mk_conf 0 1000 10 40))) 9 JB_TYPE_VOICE 20 140 150) = JB_DROP.
Proof.
  apply jb_put_unclamped_drops; [|done].
  exact (jb_step_wf ex_jb (Call_setconf (mk_conf 0 1000 10 40)) ex_jb_wf).
Defined.
