(* ===== verification/Udptl.v ===== *)
(** * T.38 fax packets over UDP: [main/udptl.c]

    A session ([struct ast_udptl]) numbers outgoing IFP packets, remembers the
    last 16 in a ring and adds redundant copies or XOR parity (FEC) of them to
    each datagram; incoming datagrams are decoded and lost packets rebuilt.

    A datagram under construction is the list of the bytes written so far, its
    length being [len]; the bound checks of the code compare that length with
    [buflen].  A pointer produced by the decoder is an offset into the datagram,
    the name of a receive slot, [NULL], or whatever uninitialised memory held.
    Arithmetic on [double] in the size computations is exact integer arithmetic
    here: for every value below 200000 the truncated products are the same.

    Sockets, ports, debug output and the registration of protocols are not
    modelled. *)

From S2P Require Import Prelude.
From Stdlib Require Import ZArith Lia.
From stdpp Require Import base list numbers sets.

#[local] Open Scope Z_scope.
#[local] Open Scope record_scope.

Definition LOCAL_FAX_MAX_DATAGRAM : Z := 1400.
Definition DEFAULT_FAX_MAX_DATAGRAM : Z := 400.
Definition FAX_MAX_DATAGRAM_LIMIT : Z := 1400.
Definition MAX_FEC_ENTRIES : Z := 5.
Definition UDPTL_BUF_MASK : Z := 15.

Inductive ast_t38_ec_modes :=
  | UDPTL_ERROR_CORRECTION_NONE | UDPTL_ERROR_CORRECTION_FEC | UDPTL_ERROR_CORRECTION_REDUNDANCY.

Record udptl_fec_tx_buffer_t := mk_tx { tx_buf_len : Z; tx_buf : list Z }.

Record udptl_fec_rx_buffer_t := mk_rx {
  rx_buf_len : Z; rx_buf : list Z; fec_len : list Z; fec : list (list Z);
  fec_span : Z; fec_entries : Z
}.

#[export] Instance eta_rx : Eta udptl_fec_rx_buffer_t := fun r =>
  mk_rx (rx_buf_len r) (rx_buf r) (fec_len r) (fec r) (fec_span r) (fec_entries r).

Record ast_udptl := mk_udptl {
  error_correction_scheme : ast_t38_ec_modes;
  error_correction_entries : Z;
  error_correction_span : Z;
  far_max_datagram : Z;
  local_max_datagram : Z;
  far_max_ifp : Z;
  local_max_ifp : Z;
  tx_seq_no : Z;
  rx_seq_no : Z;
  tx : list udptl_fec_tx_buffer_t;
  rx : list udptl_fec_rx_buffer_t
}.

#[export] Instance eta_udptl : Eta ast_udptl := fun u =>
  mk_udptl (error_correction_scheme u) (error_correction_entries u) (error_correction_span u)
    (far_max_datagram u) (local_max_datagram u) (far_max_ifp u) (local_max_ifp u)
    (tx_seq_no u) (rx_seq_no u) (tx u) (rx u).

(** The session as [ast_udptl_new_with_bindaddr] initialises it. *)
Definition ast_udptl_new (fecentries fecspan : Z) : ast_udptl :=
  mk_udptl UDPTL_ERROR_CORRECTION_NONE fecentries fecspan (-1) (-1) (-1) (-1) 0 0
    (replicate 16 (mk_tx (-1) (replicate 1400 0)))
    (replicate 16 (mk_rx (-1) (replicate 1400 0) (replicate 5 0)
                         (replicate 5 (replicate 1400 0)) 0 0)).

(** ** Memory *)

Definition byte (b : list Z) (i : Z) : Z := nth (Z.to_nat i) b 0.

(** [n] bytes from offset [off] on. *)
Definition bytes_at (b : list Z) (off n : Z) : list Z := map (byte b) (seqZ off n).

(** [memcpy(dst, src, n)] with [src] the list of the bytes copied. *)
Definition memcpy (dst src : list Z) : list Z := src ++ drop (length src) dst.

(** Where a decoded object lies: in the datagram, in receive slot [i], nowhere,
    or at an address left over on the stack. *)
Inductive pointer := Pnull | Pbuf (off : Z) | Prx (i : Z) | Pwild.

Definition is_null (p : pointer) : bool := match p with Pnull => true | _ => false end.

(** The source of a [memcpy] of [n] bytes; [None] is an invalid access. *)
Definition load (buf : list Z) (p : pointer) (n : Z) : option (list Z) :=
  if n =? 0 then Some []
  else match p with
       | Pbuf off => if off + n <=? Z.of_nat (length buf) then Some (bytes_at buf off n) else None
       | _ => None
       end.

(** ** Lengths and open types *)

(** [decode_length]: result, new offset, value ([pvalue] as it was on failure). *)
Definition decode_length (buf : list Z) (limit len pvalue : Z) : Z * Z * Z :=
  if len >=? limit then (-1, len, pvalue)
  else if Z.land (byte buf len) 0x80 =? 0 then (0, len + 1, byte buf len)
  else if Z.land (byte buf len) 0x40 =? 0 then
    if len =? limit - 1 then (-1, len, pvalue)
    else (0, len + 2, Z.lor (Z.shiftl (Z.land (byte buf len) 0x3F) 8) (byte buf (len + 1)))
  else (1, len + 1, Z.shiftl (Z.land (byte buf len) 0x3F) 14).

(** [decode_open_type]: result, new offset, object and size (untouched when the
    encoded size is 0). *)
Definition decode_open_type (buf : list Z) (limit len : Z) (p_object : pointer) (p_num_octets : Z)
    : Z * Z * pointer * Z :=
  let '(rc, len, octet_cnt) := decode_length buf limit len 0 in
  if negb (rc =? 0) then (-1, len, p_object, p_num_octets)
  else if octet_cnt >? 0 then
    if len + octet_cnt >? limit then (-1, len, p_object, p_num_octets)
    else (0, len + octet_cnt, Pbuf len, octet_cnt)
  else (0, len, p_object, p_num_octets).

(** [encode_length]: the bytes so far, and how many octets to write next. *)
Definition encode_length (buf : list Z) (value : Z) : list Z * Z :=
  if value <? 0x80 then (buf ++ [value], value)
  else if value <? 0x4000 then
    (buf ++ [Z.land (Z.shiftr (Z.lor 0x8000 value) 8) 0xFF; Z.land value 0xFF], value)
  else
    let multiplier := if value <? 0x10000 then Z.shiftr value 14 else 4 in
    (buf ++ [Z.lor 0xC0 multiplier], Z.shiftl multiplier 14).

(** The loop of [encode_open_type]; each round but the last writes 16K or more. *)
Fixpoint encode_open_loop (fuel : nat) (buf : list Z) (buflen : Z) (data : list Z)
    (octet_idx num_octets : Z) : Z * list Z :=
  match fuel with
  | O => (-1, buf)
  | S fuel =>
      let '(buf, enclen) := encode_length buf num_octets in
      if enclen + Z.of_nat (length buf) >? buflen then (-1, buf)
      else
        let buf := buf ++ bytes_at data octet_idx enclen in
        if enclen >=? num_octets then (0, buf)
        else encode_open_loop fuel buf buflen data (octet_idx + enclen) (num_octets - enclen)
  end.

Definition encode_open_type (buf : list Z) (buflen : Z) (data : list Z) (num_octets : Z) : Z * list Z :=
  let '(data, num_octets) := if num_octets =? 0 then ([0], 1) else (data, num_octets) in
  encode_open_loop (S (Z.to_nat (num_octets / 0x4000))) buf buflen data 0 num_octets.

(** ** Receiving *)

Record ast_frame := mk_frame { seqno : Z; datalen : Z; data_ptr : pointer }.

(** The inner loop over one count of secondary packets: each round consumes at
    least one byte of the datagram. [i] packets are already in the arrays. *)
Fixpoint secondary_inner (fuel : nat) (buf : list Z) (limit ptr : Z) (bufs : list pointer)
    (lengths : list Z) (total_count i count : Z) : option (Z * Z * list pointer * list Z * Z) :=
  match fuel with
  | O => None
  | S fuel =>
      if (i <? count) && (total_count + i <? 15) then
        let n := Z.to_nat (total_count + i) in
        let '(rc, ptr, p, l) := decode_open_type buf limit ptr (nth n bufs Pwild) (nth n lengths 0) in
        if negb (rc =? 0) then Some (-1, ptr, bufs, lengths, i)
        else
          let bufs := <[n := p]> bufs in
          let lengths := <[n := l]> lengths in
          if is_null p || (l =? 0)
          then secondary_inner fuel buf limit ptr bufs lengths total_count i (count - 1)
          else secondary_inner fuel buf limit ptr bufs lengths total_count (i + 1) count
      else Some (0, ptr, bufs, lengths, i)
  end.

(** The [do ... while] around it: result, arrays, number of packets found. *)
Fixpoint secondary_outer (fuel : nat) (buf : list Z) (limit ptr : Z) (bufs : list pointer)
    (lengths : list Z) (total_count : Z) : option (Z * list pointer * list Z * Z) :=
  match fuel with
  | O => None
  | S fuel =>
      let '(stat2, ptr, count) := decode_length buf limit ptr 0 in
      if stat2 <? 0 then Some (-1, bufs, lengths, total_count)
      else
        match secondary_inner (S (Z.to_nat limit)) buf limit ptr bufs lengths total_count 0 count with
        | None => None
        | Some (rc, ptr, bufs, lengths, i) =>
            if negb (rc =? 0) then Some (-1, bufs, lengths, total_count)
            else
              let total_count := total_count + i in
              if (stat2 >? 0) && (total_count <? 15)
              then secondary_outer fuel buf limit ptr bufs lengths total_count
              else Some (0, bufs, lengths, total_count)
        end
  end.

(** The recovered frames, oldest first: packet [seq_no - i] is entry [i - 1]. *)
Definition secondary_frames (rx_seq seq_no : Z) (bufs : list pointer) (lengths : list Z)
    (total_count : Z) : list ast_frame :=
  flat_map (fun i =>
      if u32 (seq_no - i) >=? rx_seq
      then [mk_frame (seq_no - i) (nth (Z.to_nat (i - 1)) lengths 0) (nth (Z.to_nat (i - 1)) bufs Pwild)]
      else [])
    (rev (seqZ 1 total_count)).

Definition get_rx (s : ast_udptl) (i : Z) : udptl_fec_rx_buffer_t :=
  nth (Z.to_nat i) (rx s) (mk_rx (-1) [] [] [] 0 0).

Definition set_rx (s : ast_udptl) (i : Z) (f : udptl_fec_rx_buffer_t -> udptl_fec_rx_buffer_t)
    : ast_udptl := s <| rx := alter f (Z.to_nat i) (rx s) |>.

(** Slots of packets never received, up to the one before [seq_no]. *)
Fixpoint mark_missed (n : nat) (s : ast_udptl) : ast_udptl :=
  match n with
  | O => s
  | S n =>
      let x := Z.land (rx_seq_no s) UDPTL_BUF_MASK in
      let s := set_rx s x (fun r => r <| rx_buf_len := -1 |> <| fec_len ::= fun l => <[0%nat := 0]> l |>
                                       <| fec_span := 0 |> <| fec_entries := 0 |>) in
      mark_missed n (s <| rx_seq_no ::= Z.succ |>)
  end.

(** The parity elements: [n] still to read, [i] the next index. *)
Fixpoint fec_elements (n : nat) (i : nat) (s : ast_udptl) (x : Z) (buf : list Z) (len ptr : Z)
    (data : pointer) : option (Z * ast_udptl) :=
  match n with
  | O => Some (0, s)
  | S n =>
      let '(rc, ptr, data, l) := decode_open_type buf len ptr data (nth i (fec_len (get_rx s x)) 0) in
      if negb (rc =? 0) then Some (-1, s)
      else
        let s := set_rx s x (fun r => r <| fec_len := <[i := l]> (fec_len r) |>) in
        if l >? LOCAL_FAX_MAX_DATAGRAM then Some (-1, s)
        else match load buf data l with
             | None => None
             | Some b =>
                 let s := set_rx s x (fun r =>
                   r <| fec := <[i := memcpy (nth i (fec r) []) b]> (fec r) |>) in
                 fec_elements n (S i) s x buf len ptr data
             end
  end.

(** The slots a ring loop visits: from [k] in steps of [step] until [limit]. *)
Fixpoint ring_walk (fuel : nat) (k step limit : Z) : list Z :=
  match fuel with
  | O => []
  | S fuel => if k =? limit then []
              else k :: ring_walk fuel (Z.land (k + step) UDPTL_BUF_MASK) step limit
  end.

(** The slots covered by parity element [m] of slot [l]. *)
Definition parity_group (l m span entries : Z) : list Z :=
  let limit := Z.land (l + m) UDPTL_BUF_MASK in
  ring_walk 16 (Z.land (limit - span * entries) UDPTL_BUF_MASK) entries limit.

(** The one missing slot of a group, [-1] if none is missing, [-2] if several are. *)
Definition find_missing (s : ast_udptl) (group : list Z) : Z :=
  foldl (fun which k => if rx_buf_len (get_rx s k) <=? 0
                        then (if which =? -1 then k else -2) else which) (-1) group.

(** One parity element tried: the session and the repaired flags. *)
Definition try_repair (l : Z) (st : ast_udptl * list bool) (m : Z) : ast_udptl * list bool :=
  let '(s, repaired) := st in
  let e := get_rx s l in
  let group := parity_group l m (fec_span e) (fec_entries e) in
  let which := find_missing s group in
  if which >=? 0 then
    let n := nth (Z.to_nat m) (fec_len e) 0 in
    let par := nth (Z.to_nat m) (fec e) [] in
    let b := map (fun j =>
        foldl (fun acc k => Z.lxor acc (if rx_buf_len (get_rx s k) >? j
                                        then byte (rx_buf (get_rx s k)) j else 0))
              (byte par j) group) (seqZ 0 n) in
    (set_rx s which (fun r => r <| rx_buf := memcpy (rx_buf r) b |> <| rx_buf_len := n |>),
     <[Z.to_nat which := true]> repaired)
  else (s, repaired).

Definition repair_slot (st : ast_udptl * list bool) (l : Z) : ast_udptl * list bool :=
  let e := get_rx (fst st) l in
  if nth 0 (fec_len e) 0 <=? 0 then st
  else foldl (try_repair l) st (seqZ 0 (fec_entries e)).

(** The FEC branch of [udptl_rx_packet]; [None] is an invalid memory access. *)
Definition rx_fec (s : ast_udptl) (buf : list Z) (len ptr seq_no : Z) (ifp : pointer) (ifp_len : Z)
    : option (Z * ast_udptl * list ast_frame) :=
  if ifp_len >? LOCAL_FAX_MAX_DATAGRAM then Some (-1, s, [])
  else
    let s := mark_missed (Z.to_nat (seq_no - rx_seq_no s)) s in
    let x := Z.land seq_no UDPTL_BUF_MASK in
    match load buf ifp ifp_len with
    | None => None
    | Some b =>
        let s := set_rx s x (fun r => r <| rx_buf := memcpy (rx_buf r) b |> <| rx_buf_len := ifp_len |>) in
        if ptr + 2 >? len then Some (-1, s, [])
        else if negb (byte buf ptr =? 1) then Some (-1, s, [])
        else
          let span := byte buf (ptr + 1) in
          let s := set_rx s x (fun r => r <| fec_span := span |>) in
          if ptr + 3 >? len then Some (-1, s, [])
          else
            let entries := byte buf (ptr + 2) in
            if entries >? MAX_FEC_ENTRIES then Some (-1, s, [])
            else
              let s := set_rx s x (fun r => r <| fec_entries := entries |>) in
              match fec_elements (Z.to_nat entries) 0 s x buf len (ptr + 3) Pnull with
              | None => None
              | Some (rc, s) =>
                  if negb (rc =? 0) then Some (-1, s, [])
                  else
                    let stop := Z.land (x - (16 - span * entries)) UDPTL_BUF_MASK in
                    let '(s, repaired) := foldl repair_slot
                        (s, <[Z.to_nat x := true]> (replicate 16 false))
                        (ring_walk 16 x (-1) stop) in
                    let fs := flat_map (fun i =>
                        let l := Z.land (x + i) UDPTL_BUF_MASK in
                        if nth (Z.to_nat l) repaired false
                        then [mk_frame (seq_no - 16 + i) (rx_buf_len (get_rx s l)) (Prx l)] else [])
                      (seqZ 1 15) in
                    Some (0, s, fs)
              end
    end.

(** [udptl_rx_packet]: result, session, frames handed up. [bufs] and [lengths]
    are the local arrays as the stack holds them on entry. *)
Definition udptl_rx_packet (bufs : list pointer) (lengths : list Z) (s : ast_udptl) (buf : list Z)
    (len : Z) : option (Z * ast_udptl * list ast_frame) :=
  if 2 >? len then Some (-1, s, [])
  else
    let seq_no := Z.lor (Z.shiftl (byte buf 0) 8) (byte buf 1) in
    let '(stat1, ptr, ifp, ifp_len) := decode_open_type buf len 2 Pnull 0 in
    if negb (stat1 =? 0) then Some (-1, s, [])
    else if ptr + 1 >? len then Some (-1, s, [])
    else
      let recovered :=
        if Z.land (byte buf ptr) 0x80 =? 0 then
          if seq_no >? rx_seq_no s then
            match secondary_outer (S (Z.to_nat len)) buf len (ptr + 1) bufs lengths 0 with
            | None => None
            | Some (rc, bufs, lengths, total_count) =>
                if negb (rc =? 0) then Some (-1, s, [])
                else Some (0, s, secondary_frames (rx_seq_no s) seq_no bufs lengths total_count)
            end
          else Some (0, s, [])
        else rx_fec s buf len (ptr + 1) seq_no ifp ifp_len in
      match recovered with
      | None => None
      | Some (rc, s, fs) =>
          if negb (rc =? 0) then Some (-1, s, [])
          else
            let fs := if seq_no >=? rx_seq_no s then fs ++ [mk_frame seq_no ifp_len ifp] else fs in
            Some (Z.of_nat (length fs), s <| rx_seq_no := seq_no + 1 |>, fs)
      end.

(** ** Sending *)

Definition get_tx (s : ast_udptl) (i : Z) : udptl_fec_tx_buffer_t :=
  nth (Z.to_nat i) (tx s) (mk_tx (-1) []).

(** The redundancy loop: packets [i, i+1, ...] before the current one. *)
Fixpoint encode_redundancy (n : nat) (i : Z) (s : ast_udptl) (entry : Z) (buf : list Z) (buflen : Z)
    : Z * list Z :=
  match n with
  | O => (0, buf)
  | S n =>
      let j := Z.land (entry - i - 1) UDPTL_BUF_MASK in
      let '(rc, buf) := encode_open_type buf buflen (tx_buf (get_tx s j)) (u32 (tx_buf_len (get_tx s j))) in
      if rc <? 0 then (-1, buf) else encode_redundancy n (i + 1) s entry buf buflen
  end.

(** One packet folded into the parity buffer, of which [high_tide] bytes are
    in use. *)
Definition fec_accumulate (s : ast_udptl) (acc : list Z * Z) (i : Z) : list Z * Z :=
  let '(fec, high_tide) := acc in
  let n := tx_buf_len (get_tx s i) in
  let b := tx_buf (get_tx s i) in
  if high_tide <? n then
    (imap (fun j x => if Z.of_nat j <? high_tide then Z.lxor x (byte b (Z.of_nat j))
                      else if Z.of_nat j <? n then byte b (Z.of_nat j) else x) fec, n)
  else
    (imap (fun j x => if Z.of_nat j <? n then Z.lxor x (byte b (Z.of_nat j)) else x) fec, high_tide).

(** The parity loop: elements [m, m+1, ...]. *)
Fixpoint encode_fec (n : nat) (m : Z) (s : ast_udptl) (entry span entries : Z) (fec buf : list Z)
    (buflen : Z) : Z * list Z :=
  match n with
  | O => (0, buf)
  | S n =>
      let '(fec, high_tide) := foldl (fec_accumulate s) (fec, 0) (parity_group entry m span entries) in
      let '(rc, buf) := encode_open_type buf buflen fec high_tide in
      if rc <? 0 then (-1, buf) else encode_fec n (m + 1) s entry span entries fec buf buflen
  end.

(** [udptl_build_packet]: result (the length, or -1), the bytes written, the session. *)
Definition udptl_build_packet (s : ast_udptl) (buflen : Z) (ifp : list Z) (ifp_len : Z)
    : Z * list Z * ast_udptl :=
  let seq := Z.land (tx_seq_no s) 0xFFFF in
  let entry := Z.land seq UDPTL_BUF_MASK in
  let s := s <| tx := alter (fun t => mk_tx ifp_len (memcpy (tx_buf t) (bytes_at ifp 0 ifp_len)))
                            (Z.to_nat entry) (tx s) |> in
  let buf := [Z.land (Z.shiftr seq 8) 0xFF; Z.land seq 0xFF] in
  let '(rc, buf) := encode_open_type buf buflen ifp ifp_len in
  if rc <? 0 then (-1, buf, s)
  else
    let '(rc, buf) :=
      match error_correction_scheme s with
      | UDPTL_ERROR_CORRECTION_NONE => (0, fst (encode_length (buf ++ [0]) 0))
      | UDPTL_ERROR_CORRECTION_REDUNDANCY =>
          let entries := if tx_seq_no s >? error_correction_entries s
                         then error_correction_entries s else tx_seq_no s in
          let buf := fst (encode_length (buf ++ [0]) entries) in
          encode_redundancy (Z.to_nat entries) 0 s entry buf buflen
      | UDPTL_ERROR_CORRECTION_FEC =>
          let '(span, entries) :=
            if seq <? error_correction_span s * error_correction_entries s
            then (if seq <? error_correction_span s then 0 else error_correction_span s,
                  seq / error_correction_span s)
            else (error_correction_span s, error_correction_entries s) in
          encode_fec (Z.to_nat entries) 0 s entry span entries (replicate 2800 0)
            (buf ++ [0x80; 1; u8 span; u8 entries]) buflen
      end in
    if rc <? 0 then (-1, buf, s)
    else (Z.of_nat (length buf), buf, s <| tx_seq_no ::= fun n => u32 (n + 1) |>).

(** ** Sizes *)

(** Conversion of a [double] with integral part [x] to [int]. *)
Definition double_to_int (x : Z) : Z := if (- 2 ^ 31 <=? x) && (x <? 2 ^ 31) then x else - 2 ^ 31.

Definition calculate_local_max_datagram (u : ast_udptl) : ast_udptl :=
  if local_max_ifp u =? -1 then u <| local_max_datagram := -1 |>
  else
    let new_max := u32 match error_correction_scheme u with
      | UDPTL_ERROR_CORRECTION_NONE => 5 + local_max_ifp u
      | UDPTL_ERROR_CORRECTION_REDUNDANCY => 5 + local_max_ifp u + 2 + 3 * local_max_ifp u
      | UDPTL_ERROR_CORRECTION_FEC => 5 + local_max_ifp u + 4 + local_max_ifp u
      end in
    u <| local_max_datagram := Z.min (new_max * 105 / 100) LOCAL_FAX_MAX_DATAGRAM |>.

(** The loop that gives up error correction entries: the count kept and the size. *)
Fixpoint fit_entries (fuel : nat) (far entries : Z) : Z * Z :=
  let new_max := u32 (far - 8) / u32 (entries + 1) in
  match fuel with
  | O => (entries, new_max)
  | S fuel => if (new_max <? 80) && (entries >? 1) then fit_entries fuel far (entries - 1)
              else (entries, new_max)
  end.

Definition calculate_far_max_ifp (u : ast_udptl) : ast_udptl :=
  if far_max_datagram u =? -1 then u <| far_max_ifp := -1 |>
  else
    let '(entries, new_max) := match error_correction_scheme u with
      | UDPTL_ERROR_CORRECTION_NONE => (error_correction_entries u, u32 (far_max_datagram u - 5))
      | UDPTL_ERROR_CORRECTION_REDUNDANCY =>
          fit_entries (Z.to_nat (error_correction_entries u)) (far_max_datagram u)
                      (error_correction_entries u)
      | UDPTL_ERROR_CORRECTION_FEC =>
          (error_correction_entries u, u32 (Z.quot (far_max_datagram u - 10) 2))
      end in
    u <| error_correction_entries := entries |>
      <| far_max_ifp := double_to_int (new_max * 95 / 100) |>.

Definition ast_udptl_set_error_correction_scheme (u : ast_udptl) (ec : ast_t38_ec_modes) : ast_udptl :=
  let u := u <| error_correction_scheme := ec |> in
  let three := fun n => if n =? 0 then 3 else n in
  let u := match ec with
    | UDPTL_ERROR_CORRECTION_FEC =>
        u <| error_correction_entries ::= three |> <| error_correction_span ::= three |>
    | UDPTL_ERROR_CORRECTION_REDUNDANCY => u <| error_correction_entries ::= three |>
    | UDPTL_ERROR_CORRECTION_NONE => u
    end in
  u <| local_max_datagram := -1 |> <| far_max_ifp := -1 |>.

Definition ast_udptl_set_local_max_ifp (u : ast_udptl) (max_ifp : Z) : ast_udptl :=
  if s32 max_ifp >? 0 then u <| local_max_ifp := s32 max_ifp |> <| local_max_datagram := -1 |> else u.

Definition ast_udptl_get_local_max_datagram (u : ast_udptl) : Z * ast_udptl :=
  let u := if local_max_datagram u =? -1 then calculate_local_max_datagram u else u in
  (if local_max_datagram u <? 0 then 0 else local_max_datagram u, u).

Definition ast_udptl_set_far_max_datagram (u : ast_udptl) (max_datagram : Z) : ast_udptl :=
  let v := if (max_datagram =? 0) || (max_datagram >? FAX_MAX_DATAGRAM_LIMIT)
           then DEFAULT_FAX_MAX_DATAGRAM else max_datagram in
  u <| far_max_datagram := v |> <| far_max_ifp := -1 |>.

Definition ast_udptl_get_far_max_datagram (u : ast_udptl) : Z :=
  if far_max_datagram u <? 0 then 0 else far_max_datagram u.

Definition ast_udptl_get_far_max_ifp (u : ast_udptl) : Z * ast_udptl :=
  let u := if far_max_ifp u =? -1 then calculate_far_max_ifp u else u in
  (if far_max_ifp u <? 0 then 0 else far_max_ifp u, u).

(** [ast_udptl_write] of a T.38 frame to a known peer ([t38], [peer]): result,
    datagram sent, everything written to the packet buffer, session. *)
Definition ast_udptl_write (u : ast_udptl) (peer t38 : bool) (data : list Z) (datalen : Z)
    : Z * option (list Z) * list Z * ast_udptl :=
  let bufsize := if far_max_datagram u >? 0 then far_max_datagram u else DEFAULT_FAX_MAX_DATAGRAM in
  if negb peer then (0, None, [], u)
  else if datalen =? 0 then (0, None, [], u)
  else if negb t38 then (-1, None, [], u)
  else
    let len := if datalen >? u32 (far_max_ifp u) then u32 (far_max_ifp u) else datalen in
    let '(len, buf, u) := udptl_build_packet u bufsize data len in
    (0, if len >? 0 then Some buf else None, buf, u).

(** ** Buffers *)

Abbreviation zlen l := (Z.of_nat (length l)).

Lemma byte_app_r b1 b2 i : 0 <= i -> byte (b1 ++ b2) (zlen b1 + i) = byte b2 i.
Proof.
  intros Hi. unfold byte. rewrite app_nth2 by lia. f_equal. lia.
Qed.

Lemma byte_app_l b1 b2 i : 0 <= i < zlen b1 -> byte (b1 ++ b2) i = byte b1 i.
Proof. intros Hi. unfold byte. apply app_nth1. lia. Qed.

Lemma bytes_at_length b off n : 0 <= n -> length (bytes_at b off n) = Z.to_nat n.
Proof. intros Hn. unfold bytes_at. rewrite length_map, length_seqZ. lia. Qed.

Lemma bytes_at_0 b : bytes_at b 0 (zlen b) = b.
Proof.
  unfold bytes_at. apply list_eq. intros i. rewrite list_lookup_fmap.
  destruct (decide (i < length b)%nat) as [Hi|Hi].
  - rewrite lookup_seqZ_lt by lia. destruct (lookup_lt_is_Some_2 b i Hi) as [x Hx].
    cbn. rewrite Hx. unfold byte. rewrite Z.add_0_l, Nat2Z.id. by rewrite (nth_lookup_Some _ _ _ _ Hx).
  - rewrite lookup_seqZ_ge by lia. symmetry. apply lookup_ge_None. lia.
Qed.

Lemma bytes_at_shift b1 b2 off n : 0 <= off -> bytes_at (b1 ++ b2) (zlen b1 + off) n = bytes_at b2 off n.
Proof.
  intros Ho. unfold bytes_at. apply list_eq. intros i. rewrite !list_lookup_fmap.
  destruct (decide (Z.of_nat i < n)) as [Hi|Hi].
  - rewrite !lookup_seqZ_lt by lia. cbn. f_equal. rewrite <- Z.add_assoc. apply byte_app_r. lia.
  - by rewrite !lookup_seqZ_ge by lia.
Qed.

Lemma bytes_at_prefix b1 b2 off n : 0 <= off -> off + n <= zlen b1 ->
  bytes_at (b1 ++ b2) off n = bytes_at b1 off n.
Proof.
  intros Ho Hn. unfold bytes_at. apply list_eq. intros i. rewrite !list_lookup_fmap.
  destruct (decide (Z.of_nat i < n)) as [Hi|Hi].
  - rewrite !lookup_seqZ_lt by lia. cbn. f_equal. apply byte_app_l. lia.
  - by rewrite !lookup_seqZ_ge by lia.
Qed.

Lemma bytes_at_mid pre d post : bytes_at (pre ++ d ++ post) (zlen pre) (zlen d) = d.
Proof.
  rewrite <- (Z.add_0_r (zlen pre)), bytes_at_shift by lia.
  rewrite bytes_at_prefix by lia. apply bytes_at_0.
Qed.

(** ** Lengths and open types: round trip *)

(** The encoding of a length below 16K. *)
Definition enc (v : Z) : list Z :=
  if v <? 0x80 then [v] else [Z.land (Z.shiftr (Z.lor 0x8000 v) 8) 0xFF; Z.land v 0xFF].

(** The encoding of a packet. *)
Definition open_enc (d : list Z) : list Z := enc (zlen d) ++ d.

Definition enc_ok (v : Z) : bool :=
  match enc v with
  | [a] => (v <? 0x80) && (Z.land a 0x80 =? 0) && (a =? v)
  | [a; b] => negb (v <? 0x80) && negb (Z.land a 0x80 =? 0) && (Z.land a 0x40 =? 0) &&
              (Z.lor (Z.shiftl (Z.land a 0x3F) 8) b =? v)
  | _ => false
  end.

Lemma enc_ok_all v : 0 <= v < 0x4000 -> enc_ok v = true.
Proof. apply range_check. vm_compute. reflexivity. Qed.

Lemma enc_length v : 1 <= zlen (enc v) <= 2.
Proof. unfold enc. case_if; cbn; lia. Qed.

Lemma encode_length_small buf v : v < 0x4000 -> encode_length buf v = (buf ++ enc v, v).
Proof. intros Hv. unfold encode_length, enc. case_if; [done|]. by rewrite (proj2 (Z.ltb_lt _ _)). Qed.

Lemma decode_length_enc pre v post limit pv : 0 <= v < 0x4000 ->
  zlen pre + zlen (enc v) <= limit ->
  decode_length (pre ++ enc v ++ post) limit (zlen pre) pv = (0, zlen pre + zlen (enc v), v).
Proof.
  intros Hv Hl. pose proof (enc_ok_all v Hv) as Ho. pose proof (enc_length v).
  assert (B : forall i, 0 <= i -> byte (pre ++ enc v ++ post) (zlen pre + i) = byte (enc v ++ post) i)
    by (intros; by apply byte_app_r).
  unfold decode_length. rewrite (B 1) by lia.
  replace (byte _ (zlen pre)) with (byte (enc v ++ post) 0) by (rewrite <- B by lia; f_equal; lia).
  rewrite Z.geb_leb, (proj2 (Z.leb_gt _ _)) by lia.
  unfold enc_ok in Ho. destruct (enc v) as [|a [|b [|]]]; try done; cbn [app length] in *; zb.
  - change (byte (a :: post) 0) with a. rewrite (proj2 (Z.eqb_eq _ _)) by done. by subst.
  - change (byte (a :: b :: post) 0) with a. change (byte (a :: b :: post) 1) with b.
    do 3 (case_if; try lia). by subst.
Qed.

Lemma encode_open_small buf buflen data n : 1 <= n < 0x4000 ->
  encode_open_type buf buflen data n =
  if n + zlen (buf ++ enc n) >? buflen then (-1, buf ++ enc n)
  else (0, (buf ++ enc n) ++ bytes_at data 0 n).
Proof.
  intros Hn. unfold encode_open_type. rewrite (proj2 (Z.eqb_neq _ _)) by lia.
  cbn [encode_open_loop]. rewrite encode_length_small by lia. case_if; [done|].
  by rewrite Z.geb_leb, Z.leb_refl.
Qed.

(** A packet encoded and then decoded is where it was put. *)
Lemma decode_open_enc pre d post limit p n : 1 <= zlen d < 0x4000 ->
  zlen pre + zlen (open_enc d) <= limit ->
  decode_open_type (pre ++ open_enc d ++ post) limit (zlen pre) p n =
  (0, zlen pre + zlen (open_enc d), Pbuf (zlen pre + zlen (enc (zlen d))), zlen d).
Proof.
  intros Hd Hl. unfold open_enc in *. rewrite length_app, Nat2Z.inj_add in *.
  unfold decode_open_type. rewrite <- app_assoc, decode_length_enc by lia. cbn [negb Z.eqb].
  rewrite Z.gtb_ltb, (proj2 (Z.ltb_lt _ _)) by lia.
  rewrite Z.gtb_ltb, (proj2 (Z.ltb_ge _ _)) by lia. f_equal. f_equal. f_equal. lia.
Qed.

Lemma open_enc_data pre d post :
  bytes_at (pre ++ open_enc d ++ post) (zlen pre + zlen (enc (zlen d))) (zlen d) = d.
Proof.
  unfold open_enc. rewrite <- app_assoc, app_assoc, <- Nat2Z.inj_add, <- length_app. apply bytes_at_mid.
Qed.

(** ** The sender's ring *)

(** An IFP packet the encoder sends unfragmented from its ring. *)
Definition packet (d : list Z) : Prop := 1 <= zlen d <= LOCAL_FAX_MAX_DATAGRAM.

(** Slot [t] of the ring holds packet [d]. *)
Definition holds (t : udptl_fec_tx_buffer_t) (d : list Z) : Prop :=
  tx_buf_len t = zlen d /\ bytes_at (tx_buf t) 0 (zlen d) = d.

(** [s] has sent the packets [hist], most recent first. *)
Record sent (s : ast_udptl) (hist : list (list Z)) : Prop := {
  sent_seq : tx_seq_no s = zlen hist;
  sent_ring : length (tx s) = 16%nat;
  sent_packets : Forall packet hist;
  sent_slots : forall i d, hist !! i = Some d -> (i < 15)%nat ->
    holds (get_tx s (Z.land (zlen hist - 1 - Z.of_nat i) UDPTL_BUF_MASK)) d
}.

Lemma land_mask x : Z.land x UDPTL_BUF_MASK = x mod 16.
Proof. exact (Z.land_ones x 4 ltac:(lia)). Qed.

Lemma land_mask_seq n : Z.land (Z.land n 0xFFFF) UDPTL_BUF_MASK = n mod 16.
Proof. rewrite <- Z.land_assoc. apply land_mask. Qed.

Lemma get_tx_alter s f i j : 0 <= i < 16 -> 0 <= j < 16 -> length (tx s) = 16%nat ->
  get_tx (s <| tx := alter f (Z.to_nat i) (tx s) |>) j = if i =? j then f (get_tx s j) else get_tx s j.
Proof.
  intros Hi Hj Hl. unfold get_tx. cbn [tx setter]. rewrite !nth_lookup. case_if.
  - subst j. rewrite list_lookup_alter_eq. destruct (lookup_lt_is_Some_2 (tx s) (Z.to_nat i)) as [x ->]; [lia|done].
  - rewrite list_lookup_alter_ne by lia. done.
Qed.

Lemma holds_memcpy t d :
  holds (mk_tx (zlen d) (memcpy (tx_buf t) (bytes_at d 0 (zlen d)))) d.
Proof.
  split; [done|]. cbn [tx_buf]. rewrite bytes_at_0. unfold memcpy.
  rewrite bytes_at_prefix by lia. apply bytes_at_0.
Qed.

(** The ring after the current packet has been stored in its slot. *)
Definition store (s : ast_udptl) (d : list Z) : ast_udptl :=
  s <| tx := alter (fun t => mk_tx (zlen d) (memcpy (tx_buf t) (bytes_at d 0 (zlen d))))
                   (Z.to_nat (Z.land (Z.land (tx_seq_no s) 0xFFFF) UDPTL_BUF_MASK)) (tx s) |>.

Lemma store_slots s hist d i e : sent s hist -> (d :: hist) !! i = Some e -> (i < 15)%nat ->
  holds (get_tx (store s d) (Z.land (zlen hist - Z.of_nat i) UDPTL_BUF_MASK)) e.
Proof.
  intros [Hs Hr Hp Ho] Hi Hlt. unfold store. rewrite Hs, land_mask_seq, land_mask.
  set (n := zlen hist) in *. pose proof (Z.mod_pos_bound n 16). pose proof (Z.mod_pos_bound (n - Z.of_nat i) 16).
  rewrite get_tx_alter by lia. destruct i as [|i]; cbn in Hi.
  - simplify_eq. rewrite Z.sub_0_r, Z.eqb_refl. apply holds_memcpy.
  - case_if; [exfalso; Z.div_mod_to_equations; lia|].
    replace (n - Z.of_nat (S i)) with (n - 1 - Z.of_nat i) by lia. rewrite <- land_mask.
    apply Ho; [done|lia].
Qed.

Lemma sent_store s hist d : sent s hist -> packet d -> zlen hist + 1 < 2 ^ 32 ->
  sent ((store s d) <| tx_seq_no ::= fun n => u32 (n + 1) |>) (d :: hist).
Proof.
  intros Hs Hd Hn. pose proof Hs as [Hq Hr Hp Ho]. split.
  - cbn. rewrite Hq, wrapu_id; [lia|]. unfold in_u. lia.
  - cbn. by rewrite length_alter.
  - by constructor.
  - intros i e Hi Hlt. replace (zlen (d :: hist) - 1) with (zlen hist) by (cbn; lia).
    exact (store_slots s hist d i e Hs Hi Hlt).
Qed.

Lemma redundancy_slot s hist i : sent s hist ->
  Z.land (Z.land (Z.land (tx_seq_no s) 0xFFFF) UDPTL_BUF_MASK - Z.of_nat i - 1) UDPTL_BUF_MASK =
  Z.land (zlen hist - Z.of_nat (S i)) UDPTL_BUF_MASK.
Proof.
  intros Hs. rewrite land_mask_seq, !land_mask, (sent_seq _ _ Hs). Z.div_mod_to_equations. lia.
Qed.

Lemma redundancy_count s hist : sent s hist -> 0 <= error_correction_entries s ->
  (if tx_seq_no s >? error_correction_entries s then error_correction_entries s else tx_seq_no s) =
  Z.of_nat (Nat.min (Z.to_nat (error_correction_entries s)) (length hist)).
Proof. intros Hs He. rewrite (sent_seq _ _ Hs). case_if; lia. Qed.

Lemma take_min {A} n (l : list A) : take (Nat.min n (length l)) l = take n l.
Proof. destruct (Nat.min_spec n (length l)) as [[? ->]|[? ->]]; [done|by rewrite !take_ge by lia]. Qed.

(** The redundant copies: packets [i] to [i + n - 1] of the history. *)
Lemma encode_redundancy_spec s hist d n i buf buflen out : sent s hist -> packet d ->
  (i + n <= 14)%nat -> (i + n <= length hist)%nat ->
  encode_redundancy n (Z.of_nat i) (store s d) (Z.land (Z.land (tx_seq_no s) 0xFFFF) UDPTL_BUF_MASK) buf buflen = (0, out) ->
  out = buf ++ concat (map open_enc (take n (drop i hist))) /\ (n = 0%nat \/ zlen out <= buflen).
Proof.
  intros Hs Hd. revert i buf. induction n as [|n IH]; intros i buf Hn Hl E; cbn [encode_redundancy] in E.
  - simplify_eq. cbn. rewrite app_nil_r. auto.
  - destruct (lookup_lt_is_Some_2 hist i) as [e He]; [lia|].
    rewrite (redundancy_slot s hist i Hs) in E. destruct (store_slots s hist d (S i) e Hs He ltac:(lia)) as [El Eb].
    set (t := get_tx _ _) in *.
    assert (He' : packet e). { pose proof (sent_packets _ _ Hs) as HF. rewrite Forall_lookup in HF. eauto. }
    unfold packet, LOCAL_FAX_MAX_DATAGRAM in He'.
    rewrite El, wrapu_id, encode_open_small in E by (unfold in_u; lia). rewrite Eb in E.
    destruct (_ >? buflen) eqn:Eg; [cbn in E; done|]. zb. cbn [Z.ltb Z.compare] in E.
    replace (Z.of_nat i + 1) with (Z.of_nat (S i)) in E by lia.
    destruct (IH (S i) _ ltac:(lia) ltac:(lia) E) as [-> Hb]. clear IH.
    rewrite (drop_S hist e i) by done. cbn [take map concat]. unfold open_enc at 2.
    split; [by rewrite <- !app_assoc|]. right. destruct Hb as [->|Hb]; [|exact Hb].
    cbn. rewrite app_nil_r, length_app. rewrite length_app in *. lia.
Qed.

Lemma encode_redundancy_rc n i s entry buf buflen rc out :
  encode_redundancy n i s entry buf buflen = (rc, out) -> rc = 0 \/ rc = -1.
Proof.
  revert i buf. induction n as [|n IH]; intros i buf E; cbn [encode_redundancy] in E; [simplify_eq; auto|].
  destruct (encode_open_type _ _ _ _) as [r b]. case_match; [simplify_eq; auto|eauto].
Qed.

(** The datagram of packet [d] with redundant copies [copies]. *)
Definition datagram (seq : Z) (d : list Z) (copies : list (list Z)) : list Z :=
  [Z.land (Z.shiftr seq 8) 0xFF; Z.land seq 0xFF] ++ open_enc d ++
  [0] ++ enc (zlen copies) ++ concat (map open_enc copies).

(** How many copies go out. *)
Definition copies_of (s : ast_udptl) (hist : list (list Z)) : list (list Z) :=
  match error_correction_scheme s with
  | UDPTL_ERROR_CORRECTION_REDUNDANCY => take (Z.to_nat (error_correction_entries s)) hist
  | _ => []
  end.

Lemma build_packet_spec s hist d buflen len pkt s' : sent s hist -> packet d ->
  zlen hist + 1 < 2 ^ 32 -> error_correction_scheme s <> UDPTL_ERROR_CORRECTION_FEC ->
  0 <= error_correction_entries s <= 14 ->
  udptl_build_packet s buflen d (zlen d) = (len, pkt, s') -> 0 <= len ->
  pkt = datagram (Z.land (zlen hist) 0xFFFF) d (copies_of s hist) /\ len = zlen pkt /\
  s' = (store s d) <| tx_seq_no ::= fun n => u32 (n + 1) |>.
Proof.
  intros Hs Hd Hn Hf He E Hlen. pose proof (sent_seq _ _ Hs) as Hq. unfold packet, LOCAL_FAX_MAX_DATAGRAM in Hd.
  unfold udptl_build_packet in E. fold (store s d) in E. rewrite encode_open_small in E by lia.
  set (hd := [_; _]) in E. destruct (_ >? buflen) eqn:Eg; [cbn in E; simplify_eq; lia|].
  cbn [Z.ltb Z.compare] in E. rewrite bytes_at_0 in E.
  change (error_correction_scheme (store s d)) with (error_correction_scheme s) in E.
  change (error_correction_entries (store s d)) with (error_correction_entries s) in E.
  change (tx_seq_no (store s d)) with (tx_seq_no s) in E.
  unfold copies_of, datagram. rewrite <- Hq. fold hd.
  destruct (error_correction_scheme s) eqn:Es; [|done|].
  - cbn [fst encode_length Z.ltb Z.compare] in E. simplify_eq. unfold open_enc.
    cbn [length map concat]. rewrite <- !app_assoc. split_and!; try done.
  - set (k := Nat.min (Z.to_nat (error_correction_entries s)) (length hist)).
    rewrite (redundancy_count s hist Hs) in E by lia. fold k in E. rewrite encode_length_small in E by lia. cbn [fst] in E. rewrite Nat2Z.id in E.
    destruct (encode_redundancy _ _ _ _ _ _) as [rc out] eqn:Er.
    destruct (rc <? 0) eqn:Erc; [simplify_eq; lia|]. zb.
    assert (rc = 0) as -> by (pose proof (encode_redundancy_rc _ _ _ _ _ _ _ _ Er); lia).
    destruct (encode_redundancy_spec s hist d k 0 _ _ _ Hs Hd ltac:(lia) ltac:(lia) Er) as [-> _].
    simplify_eq. rewrite drop_0.
    unfold k at 2. rewrite take_min, length_take. fold k. unfold open_enc at 2. rewrite <- !app_assoc. split_and!; done.
Qed.

(** ** Receiving the redundant copies *)

(** Entry [n] of the local arrays points at packet [d] in the datagram. *)
Definition stores (buf : list Z) (bufs : list pointer) (lengths : list Z) (n : nat) (d : list Z) : Prop :=
  exists off, bufs !! n = Some (Pbuf off) /\ lengths !! n = Some (zlen d) /\ bytes_at buf off (zlen d) = d.

Lemma packet_small d : packet d -> 1 <= zlen d < 0x4000.
Proof. unfold packet, LOCAL_FAX_MAX_DATAGRAM. lia. Qed.

Lemma secondary_inner_spec ds : Forall packet ds ->
  forall fuel pre post buf limit bufs lengths i,
  buf = pre ++ concat (map open_enc ds) ++ post ->
  zlen pre + zlen (concat (map open_enc ds)) <= limit ->
  (length ds < fuel)%nat -> (i + length ds <= 15)%nat -> length bufs = 15%nat -> length lengths = 15%nat ->
  exists ptr' bufs' lengths',
    secondary_inner fuel buf limit (zlen pre) bufs lengths 0 (Z.of_nat i) (Z.of_nat (i + length ds)) =
      Some (0, ptr', bufs', lengths', Z.of_nat (i + length ds)) /\
    (forall j d, ds !! j = Some d -> stores buf bufs' lengths' (i + j) d) /\
    (forall j, (j < i)%nat -> bufs' !! j = bufs !! j /\ lengths' !! j = lengths !! j).
Proof.
  induction 1 as [|d ds Hd Hds IH]; intros fuel pre post buf limit bufs lengths i -> Hl Hf Hi Hb Hls.
  - destruct fuel as [|fuel]; [lia|]. cbn [secondary_inner length]. rewrite Nat.add_0_r.
    rewrite Z.ltb_irrefl. cbn [andb]. eexists _, _, _. split; [done|]. split; [done|]. done.
  - destruct fuel as [|fuel]; [lia|]. cbn [secondary_inner length map concat] in *.
    rewrite !(proj2 (Z.ltb_lt _ _)) by lia. cbn [andb].
    rewrite length_app, Nat2Z.inj_add in Hl. rewrite <- app_assoc.
    rewrite decode_open_enc by (auto using packet_small; lia). cbn [negb Z.eqb is_null orb].
    pose proof (packet_small d Hd). rewrite (proj2 (Z.eqb_neq (zlen d) 0)) by lia.
    set (bufs1 := <[_ := _]> bufs). set (lengths1 := <[_ := _]> lengths).
    destruct (IH fuel (pre ++ open_enc d) post (pre ++ open_enc d ++ concat (map open_enc ds) ++ post)
                limit bufs1 lengths1 (S i)) as (ptr' & bufs' & lengths' & E & Hst & Hold); try lia.
    { by rewrite <- !app_assoc. }
    { rewrite length_app. lia. }
    { unfold bufs1. by rewrite length_insert. }
    { unfold lengths1. by rewrite length_insert. }
    replace (zlen (pre ++ open_enc d)) with (zlen pre + zlen (open_enc d)) in E by (rewrite length_app; lia).
    replace (Z.of_nat i + 1) with (Z.of_nat (S i)) by lia.
    replace (i + S (length ds))%nat with (S i + length ds)%nat by lia.
    eexists _, _, _. split; [exact E|]. split.
    + intros [|j] d' Hj; cbn in Hj.
      * simplify_eq. destruct (Hold i ltac:(lia)) as [B L]. rewrite Nat.add_0_r.
        eexists. rewrite B, L. unfold bufs1, lengths1. rewrite Z.add_0_l, Nat2Z.id.
        rewrite !list_lookup_insert_eq by lia. split_and!; [done..|]. apply open_enc_data.
      * replace (i + S j)%nat with (S i + j)%nat by lia. by apply Hst.
    + intros j Hj. destruct (Hold j ltac:(lia)) as [-> ->]. unfold bufs1, lengths1.
      by rewrite !list_lookup_insert_ne by lia.
Qed.

Lemma concat_open_length ds : Forall packet ds -> zlen ds <= zlen (concat (map open_enc ds)).
Proof.
  induction 1 as [|d ds Hd _ IH]; cbn [map concat]; [done|]. rewrite length_app. unfold open_enc at 1.
  rewrite length_app. pose proof (enc_length (zlen d)). cbn. lia.
Qed.

Lemma secondary_outer_spec ds pre post fuel limit bufs lengths : Forall packet ds ->
  let buf := pre ++ enc (zlen ds) ++ concat (map open_enc ds) ++ post in
  zlen pre + zlen (enc (zlen ds)) + zlen (concat (map open_enc ds)) <= limit ->
  (0 < fuel)%nat -> (length ds <= 14)%nat -> length bufs = 15%nat -> length lengths = 15%nat ->
  exists bufs' lengths',
    secondary_outer fuel buf limit (zlen pre) bufs lengths 0 = Some (0, bufs', lengths', zlen ds) /\
    (forall j d, ds !! j = Some d -> stores buf bufs' lengths' j d).
Proof.
  intros Hds buf Hl Hf Hn Hb Hls. destruct fuel as [|fuel]; [lia|]. cbn [secondary_outer].
  assert (He : zlen ds < 0x4000) by lia. unfold buf. rewrite decode_length_enc by lia.
  cbn [Z.ltb Z.compare]. fold buf.
  destruct (secondary_inner_spec ds Hds (S (Z.to_nat limit)) (pre ++ enc (zlen ds)) post buf limit bufs lengths 0)
    as (ptr' & bufs' & lengths' & E & Hst & _); try lia.
  { unfold buf. by rewrite <- !app_assoc. }
  { rewrite length_app. lia. }
  { pose proof (concat_open_length ds Hds). lia. }
  rewrite length_app, Nat2Z.inj_add in E. change (Z.of_nat 0) with 0 in E. change (0 + length ds)%nat with (length ds) in E. rewrite E. cbn [negb Z.eqb Z.gtb Z.compare andb].
  eexists _, _. split; [done|]. exact Hst.
Qed.

(** What a frame handed up carries. *)
Definition frame_data (s : ast_udptl) (buf : list Z) (f : ast_frame) : list Z :=
  match data_ptr f with
  | Pbuf off => bytes_at buf off (datalen f)
  | Prx i => bytes_at (rx_buf (get_rx s i)) 0 (datalen f)
  | _ => []
  end.

Definition carries (s : ast_udptl) (buf : list Z) (f : ast_frame) : Z * list Z :=
  (seqno f, frame_data s buf f).

(** The last [m] packets before number [seq], oldest first, with their numbers;
    [ds] has the most recent first. *)
Fixpoint recovered (seq : Z) (ds : list (list Z)) (m : nat) : list (Z * list Z) :=
  match m with
  | O => []
  | S m' => (seq - Z.of_nat m, nth m' ds []) :: recovered seq ds m'
  end.

Lemma rev_seqZ_S k : rev (seqZ 1 (Z.of_nat (S k))) = Z.of_nat (S k) :: rev (seqZ 1 (Z.of_nat k)).
Proof.
  replace (Z.of_nat (S k)) with (Z.of_nat k + 1) by lia. rewrite seqZ_app by lia.
  rewrite rev_app_distr, (seqZ_cons (1 + Z.of_nat k)) by lia. change (Z.pred 1) with 0. cbn [seqZ rev app].
  rewrite Z.add_comm. done.
Qed.

Lemma secondary_frames_spec s buf ds bufs lengths seq lost k :
  (forall j d, ds !! j = Some d -> stores buf bufs lengths j d) -> (k <= length ds)%nat ->
  zlen ds <= seq < 0x10000 -> 0 <= lost <= seq ->
  map (carries s buf) (secondary_frames (seq - lost) seq bufs lengths (Z.of_nat k)) =
  recovered seq ds (Nat.min (Z.to_nat lost) k).
Proof.
  intros Hst Hk Hs Hl. unfold secondary_frames. induction k as [|k IH].
  - by rewrite Nat.min_0_r.
  - rewrite rev_seqZ_S. cbn [flat_map]. rewrite wrapu_id by (unfold in_u; lia).
    destruct (Z.geb_spec (seq - Z.of_nat (S k)) (seq - lost)) as [Hc|Hc].
    + rewrite map_app, IH by lia. rewrite (Nat.min_r (Z.to_nat lost) (S k)), Nat.min_r by lia.
      cbn [recovered map app]. f_equal. unfold carries, frame_data. cbn [seqno data_ptr datalen].
      destruct (lookup_lt_is_Some_2 ds k) as [d Hd]; [lia|].
      destruct (Hst k d Hd) as (off & B & L & D).
      replace (Z.to_nat (Z.of_nat (S k) - 1)) with k by lia.
      rewrite (nth_lookup_Some _ _ _ _ B), (nth_lookup_Some _ _ _ _ L), (nth_lookup_Some _ _ _ _ Hd).
      by rewrite D.
    + cbn [app]. rewrite IH by lia. f_equal. lia.
Qed.

Definition seq_bytes (seq : Z) : list Z := [Z.land (Z.shiftr seq 8) 0xFF; Z.land seq 0xFF].

Lemma seq_roundtrip seq : 0 <= seq < 0x10000 ->
  Z.lor (Z.shiftl (Z.land (Z.shiftr seq 8) 0xFF) 8) (Z.land seq 0xFF) = seq.
Proof.
  intros H. apply Z.eqb_eq. revert H.
  apply (range_check (fun seq => Z.lor (Z.shiftl (Z.land (Z.shiftr seq 8) 0xFF) 8) (Z.land seq 0xFF) =? seq)).
  vm_compute. reflexivity.
Qed.

(** A redundancy datagram as the receiver sees it. *)
Lemma rx_datagram r seq d ds bufs lengths lost : packet d -> Forall packet ds ->
  (length ds <= 14)%nat -> zlen ds <= seq < 0x10000 -> 0 <= lost <= seq ->
  rx_seq_no r = seq - lost -> length bufs = 15%nat -> length lengths = 15%nat ->
  let buf := datagram seq d ds in
  exists fs, udptl_rx_packet bufs lengths r buf (zlen buf) =
      Some (zlen fs, r <| rx_seq_no := seq + 1 |>, fs) /\
    map (carries (r <| rx_seq_no := seq + 1 |>) buf) fs =
      recovered seq ds (Nat.min (Z.to_nat lost) (length ds)) ++ [(seq, d)].
Proof.
  intros Hd Hds Hn Hs Hl Hr Hb Hls buf. pose proof (packet_small d Hd) as Hp.
  set (rest := [0] ++ enc (zlen ds) ++ concat (map open_enc ds)).
  assert (Eb : buf = seq_bytes seq ++ open_enc d ++ rest) by done.
  assert (Elen : zlen buf = 2 + zlen (open_enc d) + 1 + zlen (enc (zlen ds)) + zlen (concat (map open_enc ds))).
  { rewrite Eb. unfold rest. rewrite !length_app. cbn [length seq_bytes]. lia. }
  pose proof (enc_length (zlen ds)). unfold udptl_rx_packet.
  rewrite Z.gtb_ltb, (proj2 (Z.ltb_ge _ _)) by lia.
  assert (E0 : Z.lor (Z.shiftl (byte buf 0) 8) (byte buf 1) = seq) by exact (seq_roundtrip seq ltac:(lia)).
  assert (Ed : decode_open_type buf (zlen buf) 2 Pnull 0 =
    (0, 2 + zlen (open_enc d), Pbuf (2 + zlen (enc (zlen d))), zlen d)).
  { rewrite Elen, Eb. apply (decode_open_enc (seq_bytes seq)); cbn [length seq_bytes]; lia. }
  rewrite E0, Ed. cbn [negb Z.eqb].
  rewrite Z.gtb_ltb, (proj2 (Z.ltb_ge _ _)) by lia.
  assert (Epre : buf = (seq_bytes seq ++ open_enc d) ++ rest) by (rewrite Eb; by rewrite app_assoc).
  assert (Ez : zlen (seq_bytes seq ++ open_enc d) = 2 + zlen (open_enc d)) by (rewrite length_app; cbn; lia).
  assert (E1 : byte buf (2 + zlen (open_enc d)) = 0).
  { rewrite Epre, <- Ez, <- (Z.add_0_r (zlen _)), byte_app_r by lia. done. }
  rewrite E1. change (Z.land 0 128 =? 0) with true. cbn iota.
  assert (Hprim : carries (r <| rx_seq_no := seq + 1 |>) buf
     (mk_frame seq (zlen d) (Pbuf (2 + zlen (enc (zlen d))))) = (seq, d)).
  { unfold carries, frame_data. cbn [seqno data_ptr datalen]. rewrite Eb.
    f_equal. exact (open_enc_data (seq_bytes seq) d rest). }
  rewrite Hr. destruct (Z.gtb_spec seq (seq - lost)) as [Hc|Hc].
  - destruct (secondary_outer_spec ds (seq_bytes seq ++ open_enc d ++ [0]) [] (S (Z.to_nat (zlen buf))) (zlen buf) bufs lengths)
      as (bufs' & lengths' & E2 & Hst); try done; try lia.
    { rewrite !length_app. cbn [length seq_bytes]. lia. }
    rewrite app_nil_r in E2, Hst.
    replace ((seq_bytes seq ++ open_enc d ++ [0]) ++ enc (zlen ds) ++ concat (map open_enc ds)) with buf in E2, Hst
      by (rewrite Eb; unfold rest; by rewrite <- !app_assoc).
    replace (zlen (seq_bytes seq ++ open_enc d ++ [0])) with (2 + zlen (open_enc d) + 1) in E2
      by (rewrite !length_app; cbn [length seq_bytes]; lia).
    rewrite E2. cbn [negb Z.eqb]. rewrite Hr, Z.geb_leb, (proj2 (Z.leb_le _ _)) by lia.
    eexists. split; [done|]. rewrite map_app. f_equal; [|cbn [map]; by rewrite Hprim].
    apply secondary_frames_spec; done || lia.
  - assert (lost = 0) as -> by lia. cbn [negb Z.eqb].
    rewrite Hr, Z.geb_leb, (proj2 (Z.leb_le _ _)) by lia. cbn [app Z.to_nat Nat.min recovered].
    eexists. split; [done|]. cbn [map]. by rewrite Hprim.
Qed.

(** ** The channel as a whole *)

Lemma encode_redundancy_room s hist d n i buf buflen : sent s hist -> packet d ->
  (i + n <= 14)%nat -> (i + n <= length hist)%nat ->
  zlen buf + zlen (concat (map open_enc (take n (drop i hist)))) <= buflen ->
  encode_redundancy n (Z.of_nat i) (store s d) (Z.land (Z.land (tx_seq_no s) 0xFFFF) UDPTL_BUF_MASK) buf buflen =
  (0, buf ++ concat (map open_enc (take n (drop i hist)))).
Proof.
  intros Hs Hd. revert i buf. induction n as [|n IH]; intros i buf Hn Hl Hr; cbn [encode_redundancy].
  - cbn. by rewrite app_nil_r.
  - destruct (lookup_lt_is_Some_2 hist i) as [e He]; [lia|].
    rewrite (redundancy_slot s hist i Hs).
    destruct (store_slots s hist d (S i) e Hs He ltac:(lia)) as [El Eb]. set (t := get_tx _ _) in *.
    assert (He' : packet e). { pose proof (sent_packets _ _ Hs) as HF. rewrite Forall_lookup in HF. eauto. }
    pose proof (packet_small e He'). rewrite (drop_S hist e i) in * by done. cbn [take map concat] in *.
    unfold open_enc at 1 in Hr. rewrite !length_app in Hr.
    rewrite El, wrapu_id, encode_open_small by (unfold in_u; lia). rewrite Eb, length_app.
    rewrite Z.gtb_ltb, (proj2 (Z.ltb_ge _ _)) by lia. cbn [Z.ltb Z.compare].
    replace (Z.of_nat i + 1) with (Z.of_nat (S i)) by lia. rewrite IH by (rewrite ?length_app; lia).
    unfold open_enc at 2. by rewrite <- !app_assoc.
Qed.

(** Enough room: the datagram is built. *)
Lemma build_packet_room s hist d buflen : sent s hist -> packet d ->
  error_correction_scheme s <> UDPTL_ERROR_CORRECTION_FEC ->
  0 <= error_correction_entries s <= 14 ->
  let pkt := datagram (Z.land (zlen hist) 0xFFFF) d (copies_of s hist) in
  zlen pkt <= buflen ->
  udptl_build_packet s buflen d (zlen d) =
    (zlen pkt, pkt, (store s d) <| tx_seq_no ::= fun n => u32 (n + 1) |>).
Proof.
  intros Hs Hd Hf He pkt Hlen. pose proof (sent_seq _ _ Hs) as Hq. pose proof (packet_small d Hd) as Hd'.
  unfold pkt, datagram in *. rewrite <- Hq in *. unfold open_enc at 1 in Hlen. rewrite !length_app in Hlen. cbn [length] in Hlen.
  unfold udptl_build_packet. fold (store s d).
  set (hd := [Z.land (Z.shiftr (Z.land (tx_seq_no s) 0xFFFF) 8) 0xFF; Z.land (Z.land (tx_seq_no s) 0xFFFF) 0xFF]).
  assert (Eo : encode_open_type hd buflen d (zlen d) = (0, (hd ++ enc (zlen d)) ++ d)).
  { rewrite encode_open_small, length_app, bytes_at_0 by lia. change (length hd) with 2%nat. case_if; [lia|done]. }
  rewrite Eo. cbn [Z.ltb Z.compare].
  change (error_correction_scheme (store s d)) with (error_correction_scheme s).
  change (error_correction_entries (store s d)) with (error_correction_entries s).
  change (tx_seq_no (store s d)) with (tx_seq_no s).
  unfold copies_of in *. destruct (error_correction_scheme s) eqn:Es; [|done|].
  - cbn [fst encode_length Z.ltb Z.compare]. unfold open_enc. cbn [length map concat].
    by rewrite <- !app_assoc.
  - rewrite (redundancy_count s hist Hs), encode_length_small by lia. cbn [fst]. rewrite Nat2Z.id.
    rewrite <- (take_min _ hist) in Hlen. rewrite <- (take_min _ hist).
    remember (Nat.min (Z.to_nat (error_correction_entries s)) (length hist)) as k eqn:Ek.
    assert (Elt : length (take k hist) = k) by (rewrite length_take; lia). rewrite Elt in *.
    pose proof (encode_redundancy_room s hist d k 0 ((((hd ++ enc (zlen d)) ++ d) ++ [0]) ++ enc (Z.of_nat k)) buflen
      Hs Hd ltac:(lia) ltac:(lia)) as R. rewrite drop_0 in R. change (Z.of_nat 0) with 0 in R.
    rewrite R by (rewrite !length_app; change (length hd) with 2%nat; cbn [length]; lia).
    cbn [Z.ltb Z.compare]. change (open_enc d) with (enc (zlen d) ++ d). by rewrite <- !app_assoc.
Qed.

(** A one-way session: each event is a packet to send and whether its datagram
    arrives. The result is what the receiver hands up, with sequence numbers;
    [None] if a packet cannot be built or the receiver fails. [bufs] and
    [lengths] stand for the receiver's uninitialised arrays. *)
Fixpoint session (bufs : list pointer) (lengths : list Z) (buflen : Z) (s r : ast_udptl)
    (events : list (list Z * bool)) : option (list (Z * list Z)) :=
  match events with
  | [] => Some []
  | (d, arrives) :: events =>
      let '(len, pkt, s) := udptl_build_packet s buflen d (zlen d) in
      if len <? 0 then None
      else if negb arrives then session bufs lengths buflen s r events
      else match udptl_rx_packet bufs lengths r pkt len with
           | Some (rc, r, fs) =>
               if rc <? 0 then None
               else match session bufs lengths buflen s r events with
                    | Some out => Some (map (carries r pkt) fs ++ out)
                    | None => None
                    end
           | None => None
           end
  end.

(** At most [e] consecutive datagrams are lost ([gap] just before), and the last
    one arrives. *)
Fixpoint few_losses (e gap : nat) (events : list (list Z * bool)) : bool :=
  match events with
  | [] => (gap =? 0)%nat
  | (_, true) :: events => few_losses e 0 events
  | (_, false) :: events => (S gap <=? e)%nat && few_losses e (S gap) events
  end.

Fixpoint number_from (n : Z) (ds : list (list Z)) : list (Z * list Z) :=
  match ds with [] => [] | d :: ds => (n, d) :: number_from (n + 1) ds end.

Lemma number_from_app n l1 l2 : number_from n (l1 ++ l2) = number_from n l1 ++ number_from (n + zlen l1) l2.
Proof.
  revert n. induction l1 as [|d l1 IH]; intros n; cbn [number_from app length]; [by rewrite Z.add_0_r|].
  rewrite IH. cbn. do 3 f_equal. lia.
Qed.

Lemma recovered_number seq ds m : (m <= length ds)%nat ->
  recovered seq ds m = number_from (seq - Z.of_nat m) (rev (take m ds)).
Proof.
  induction m as [|m IH]; intros Hm; [done|]. cbn [recovered].
  destruct (lookup_lt_is_Some_2 ds m) as [d Hd]; [lia|].
  rewrite (take_S_r _ _ _ Hd), rev_app_distr. cbn [rev app number_from].
  rewrite (nth_lookup_Some _ _ _ _ Hd), IH by lia. do 2 f_equal. lia.
Qed.

Lemma recovered_take seq ds e m : (m <= e)%nat -> recovered seq (take e ds) m = recovered seq ds m.
Proof.
  induction m as [|m IH]; intros Hm; [done|]. cbn [recovered]. rewrite IH by lia. do 2 f_equal.
  rewrite !nth_lookup. by rewrite lookup_take_lt by lia.
Qed.

Lemma enc_len_1 v : v < 0x80 -> zlen (enc v) = 1.
Proof. intros Hv. unfold enc. by rewrite (proj2 (Z.ltb_lt _ _)). Qed.

(** The size of a datagram whose packets all have at most [n] bytes. *)
Lemma datagram_size seq d ds n : zlen d <= n -> Forall (fun c => zlen c <= n) ds -> (length ds <= 14)%nat ->
  zlen (datagram seq d ds) <= 4 + (zlen ds + 1) * (n + (if n <? 0x80 then 1 else 2)).
Proof.
  intros Hd Hds Hn. unfold datagram. rewrite !length_app. cbn [length].
  assert (He : forall c, zlen c <= n -> zlen (open_enc c) <= n + (if n <? 0x80 then 1 else 2)).
  { intros c Hc. unfold open_enc. rewrite length_app. pose proof (enc_length (zlen c)).
    case_if; [rewrite Nat2Z.inj_add, enc_len_1 by lia; lia|lia]. }
  pose proof (He d Hd). assert (Hz : zlen (enc (zlen ds)) = 1) by (apply enc_len_1; lia).
  assert (Hc : zlen (concat (map open_enc ds)) <= zlen ds * (n + (if n <? 0x80 then 1 else 2))).
  { clear -Hds He. induction Hds as [|c ds Hc _ IH]; [done|]. cbn [map concat length]. rewrite length_app.
    pose proof (He c Hc). lia. }
  lia.
Qed.

Record sender_ok (e n buflen : Z) (s : ast_udptl) (hist : list (list Z)) : Prop := {
  so_sent : sent s hist;
  so_scheme : error_correction_scheme s = UDPTL_ERROR_CORRECTION_REDUNDANCY;
  so_entries : error_correction_entries s = e;
  so_small : Forall (fun c => zlen c <= n) hist
}.

Lemma session_spec e n buflen bufs lengths events : 0 <= e <= 14 -> 1 <= n <= LOCAL_FAX_MAX_DATAGRAM ->
  4 + (e + 1) * (n + 2) <= buflen -> length bufs = 15%nat -> length lengths = 15%nat ->
  forall s r hist gap, sender_ok e n buflen s hist ->
  Forall (fun ev => 1 <= zlen (fst ev) <= n) events -> zlen hist + zlen events < 0x10000 ->
  (gap <= length hist)%nat -> (Z.of_nat gap <= e) -> rx_seq_no r = zlen hist - Z.of_nat gap ->
  few_losses (Z.to_nat e) gap events = true ->
  session bufs lengths buflen s r events =
  Some (number_from (zlen hist - Z.of_nat gap) (rev (take gap hist) ++ map fst events)).
Proof.
  intros He Hn Hbl Hb Hl. unfold LOCAL_FAX_MAX_DATAGRAM in Hn.
  induction events as [|[d arrives] events IH]; intros s r hist gap Hs Hev Hlen Hg Hge Hr Hfl.
  - cbn in Hfl. zb. subst gap. done.
  - inversion_clear Hev as [|? ? Hd Hev']. cbn [fst] in Hd. destruct Hs as [Hs Hsc Hen Hsm].
    assert (Hp : packet d) by (unfold packet, LOCAL_FAX_MAX_DATAGRAM; lia).
    assert (Hc : copies_of s hist = take (Z.to_nat e) hist) by (unfold copies_of; by rewrite Hsc, Hen).
    assert (Hseq : Z.land (zlen hist) 0xFFFF = zlen hist).
    { cbn [length] in Hlen. rewrite (Z.land_ones _ 16) by lia. apply Z.mod_small. lia. }
    set (pkt := datagram (zlen hist) d (take (Z.to_nat e) hist)).
    assert (Hsz : zlen pkt <= buflen).
    { eapply Z.le_trans; [apply (datagram_size _ _ _ n)|]; [lia|by apply Forall_take|rewrite length_take; lia|].
      rewrite length_take. transitivity (4 + (e + 1) * (n + 2)); [|done].
      apply Z.add_le_mono_l, Z.mul_le_mono_nonneg; try lia; case_if; lia. }
    cbn [session]. rewrite (build_packet_room s hist d buflen) by (rewrite ?Hsc, ?Hen, ?Hseq, ?Hc; done || lia).
    rewrite Hseq, Hc. fold pkt. rewrite (proj2 (Z.ltb_ge (zlen pkt) 0)) by lia.
    set (s' := setter (f := tx_seq_no) _ _).
    assert (Hs' : sender_ok e n buflen s' (d :: hist)).
    { cbn [length] in Hlen. split; [apply sent_store; [done..|lia]|done|done|constructor; [lia|done]]. }
    cbn [length map fst] in *. destruct arrives; cbn [negb few_losses] in *.
    + assert (HF : Forall packet (take (Z.to_nat e) hist)) by (apply Forall_take, (sent_packets _ _ Hs)).
      destruct (rx_datagram r (zlen hist) d (take (Z.to_nat e) hist) bufs lengths (Z.of_nat gap))
        as (fs & E & M); try done; try (rewrite length_take; lia); try lia.
      fold pkt in E, M. rewrite E, (proj2 (Z.ltb_ge (zlen fs) 0)) by lia.
      rewrite (IH s' _ (d :: hist) 0%nat Hs') by (cbn [length rx_seq_no setter]; done || lia).
      rewrite M, length_take, (Nat.min_l (Z.to_nat (Z.of_nat gap))), Nat2Z.id by lia.
      rewrite recovered_take, recovered_number, !number_from_app by lia. rewrite <- app_assoc.
      assert (Elr : zlen (rev (take gap hist)) = Z.of_nat gap) by (rewrite length_rev, length_take; lia).
      rewrite Elr. cbn [app number_from rev take length]. do 3 f_equal; f_equal; lia.
    + zb. rewrite (IH s' r (d :: hist) (S gap) Hs') by (cbn [length]; done || lia).
      cbn [take rev length]. rewrite <- app_assoc. f_equal. f_equal. lia.
Qed.

(** ** Ring loops *)

(** The loop reaches its limit within the fuel. *)
Fixpoint ring_reaches (fuel : nat) (k step limit : Z) : bool :=
  match fuel with
  | O => false
  | S fuel => (k =? limit) || ring_reaches fuel (Z.land (k + step) UDPTL_BUF_MASK) step limit
  end.

Lemma ring_walk_more fuel fuel' k step limit : ring_reaches fuel k step limit = true ->
  (fuel <= fuel')%nat -> ring_walk fuel' k step limit = ring_walk fuel k step limit.
Proof.
  revert fuel' k. induction fuel as [|fuel IH]; intros [|fuel'] k Hr Hf; cbn in *; try done; try lia.
  revert Hr. destruct (k =? limit); [done|]. cbn [orb]. intros Hr. f_equal. apply IH; [done|lia].
Qed.

Lemma ring_mod fuel k step limit :
  ring_walk fuel k step limit = ring_walk fuel k (step mod 16) limit /\
  ring_reaches fuel k step limit = ring_reaches fuel k (step mod 16) limit.
Proof.
  revert k. induction fuel as [|fuel IH]; intros k; cbn; [done|].
  rewrite !land_mask, (Zplus_mod_idemp_r step). destruct (IH ((k + step) mod 16)) as [-> ->]. done.
Qed.

Definition nodup_ring (l : list Z) : bool :=
  forallb (fun k => (length (List.filter (Z.eqb k) l) =? 1)%nat && (0 <=? k) && (k <? 16)) l.

(** The loop of a parity group, for every start and step modulo 16. *)
Lemma parity_ring_check : check_from 16 0 (fun limit => check_from 16 0 (fun span => check_from 16 0 (fun step =>
    let k := Z.land (limit - span * step) UDPTL_BUF_MASK in
    ring_reaches 16 k step limit && nodup_ring (ring_walk 16 k step limit)))) = true.
Proof. vm_compute. reflexivity. Qed.

Lemma parity_group_ok l m span entries :
  nodup_ring (parity_group l m span entries) = true /\
  forall fuel, (16 <= fuel)%nat ->
    ring_walk fuel (Z.land (Z.land (l + m) UDPTL_BUF_MASK - span * entries) UDPTL_BUF_MASK) entries
              (Z.land (l + m) UDPTL_BUF_MASK) = parity_group l m span entries.
Proof.
  unfold parity_group. set (limit := Z.land (l + m) UDPTL_BUF_MASK).
  assert (Hlim : 0 <= limit < 16) by (unfold limit; rewrite land_mask; by apply Z.mod_pos_bound).
  pose proof (range_check _ 16 _ parity_ring_check Hlim) as C1.
  pose proof (range_check _ 16 (span mod 16) C1 ltac:(by apply Z.mod_pos_bound)) as C2.
  pose proof (range_check _ 16 (entries mod 16) C2 ltac:(by apply Z.mod_pos_bound)) as C3. cbn beta zeta in C3.
  replace (Z.land (limit - span mod 16 * (entries mod 16)) UDPTL_BUF_MASK)
    with (Z.land (limit - span * entries) UDPTL_BUF_MASK) in C3.
  2:{ rewrite !land_mask. by rewrite <- Zminus_mod_idemp_r, (Zmult_mod span), Zminus_mod_idemp_r. }
  zb. rewrite <- (proj1 (ring_mod _ _ entries _)) in *. rewrite <- (proj2 (ring_mod _ _ entries _)) in *.
  split; [done|]. intros fuel Hf. by apply ring_walk_more.
Qed.

Lemma nodup_ring_spec l : nodup_ring l = true -> NoDup l /\ Forall (fun k => 0 <= k < 16) l.
Proof.
  intros H. unfold nodup_ring in H. rewrite forallb_forall in H. split.
  - apply NoDup_ListNoDup. apply (NoDup_count_occ' Z.eq_dec). intros k Hk.
    specialize (H k Hk). zb. rewrite <- H. clear. induction l as [|x l IH]; [done|]. cbn.
    rewrite IH. destruct (Z.eq_dec x k) as [->|]; [by rewrite Z.eqb_refl|].
    by rewrite (proj2 (Z.eqb_neq k x)) by congruence.
  - apply Forall_forall. intros k Hk. specialize (H k (proj1 (list_elem_of_In _ _) Hk)). zb. lia.
Qed.

(** ** Parity *)

Definition xor_all (l : list Z) : Z := foldr Z.lxor 0 l.

Lemma xor_all_app l1 l2 : xor_all (l1 ++ l2) = Z.lxor (xor_all l1) (xor_all l2).
Proof.
  induction l1 as [|x l1 IH]; cbn; [done|]. fold (xor_all (l1 ++ l2)) (xor_all l1).
  by rewrite IH, Z.lxor_assoc.
Qed.

Lemma foldl_xor {A} (f : A -> Z) a l : foldl (fun acc k => Z.lxor acc (f k)) a l = Z.lxor a (xor_all (map f l)).
Proof.
  revert a. induction l as [|x l IH]; intros a; cbn; [by rewrite Z.lxor_0_r|].
  fold (xor_all (map f l)). by rewrite IH, Z.lxor_assoc.
Qed.

Lemma xor_all_zero {A} (f : A -> Z) l : Forall (fun k => f k = 0) l -> xor_all (map f l) = 0.
Proof. induction 1 as [|x l Hx _ IH]; cbn; [done|]. fold (xor_all (map f l)). by rewrite Hx, IH. Qed.

Lemma xor_all_ext {A} (f g : A -> Z) l : (forall k, k ∈ l -> f k = g k) -> xor_all (map f l) = xor_all (map g l).
Proof.
  induction l as [|x l IH]; intros H; cbn; [done|]. fold (xor_all (map f l)) (xor_all (map g l)).
  rewrite H by set_solver. rewrite IH; [done|]. set_solver.
Qed.

(** Knowing all but one of the parts, the parity gives the missing one. *)
Lemma parity_missing (f g : Z -> Z) l w : NoDup l -> w ∈ l -> g w = 0 ->
  (forall k, k ∈ l -> k <> w -> g k = f k) ->
  Z.lxor (xor_all (map f l)) (xor_all (map g l)) = f w.
Proof.
  intros Hnd Hw Hg Hk. apply list_elem_of_split in Hw as (l1 & l2 & ->).
  apply NoDup_app in Hnd as (_ & Hd1 & Hnd2). apply NoDup_cons in Hnd2 as [Hd2 _].
  rewrite !map_app, !xor_all_app. cbn [map xor_all foldr]. fold (xor_all (map f l2)) (xor_all (map g l2)).
  rewrite (xor_all_ext g f l1), (xor_all_ext g f l2), Hg, Z.lxor_0_l.
  - apply Z.bits_inj'. intros n _. rewrite !Z.lxor_spec.
    by destruct (Z.testbit (f w) n), (Z.testbit (xor_all (map f l1)) n), (Z.testbit (xor_all (map f l2)) n).
  - intros k Hkl. apply Hk; [set_solver|]. intros ->. done.
  - intros k Hkl. apply Hk; [set_solver|]. intros ->. apply (Hd1 w); set_solver.
Qed.

(** A packet of the sender's ring as seen at byte [j]: padded with zeros. *)
Definition tx_byte (u : ast_udptl) (j k : Z) : Z :=
  if j <? tx_buf_len (get_tx u k) then byte (tx_buf (get_tx u k)) j else 0.

Lemma byte_imap (f : nat -> Z -> Z) b j : 0 <= j < zlen b ->
  byte (imap f b) j = f (Z.to_nat j) (byte b j).
Proof.
  intros Hj. unfold byte. destruct (lookup_lt_is_Some_2 b (Z.to_nat j)) as [x Hx]; [lia|].
  rewrite (nth_lookup_Some _ _ _ _ Hx). apply nth_lookup_Some. by rewrite list_lookup_imap, Hx.
Qed.

(** The parity buffer holds the XOR of the padded packets. *)
Lemma fec_accumulate_spec u group fec0 : length fec0 = 2800%nat ->
  (forall k, k ∈ group -> tx_buf_len (get_tx u k) <= LOCAL_FAX_MAX_DATAGRAM) ->
  let '(fec, high) := foldl (fec_accumulate u) (fec0, 0) group in
  length fec = 2800%nat /\ 0 <= high <= LOCAL_FAX_MAX_DATAGRAM /\
  (forall k, k ∈ group -> tx_buf_len (get_tx u k) <= high) /\
  forall j, 0 <= j < high -> byte fec j = xor_all (map (tx_byte u j) group).
Proof.
  intros Hl. unfold LOCAL_FAX_MAX_DATAGRAM. induction group as [|k group IH] using rev_ind; intros Hk.
  - cbn. split_and!; done || lia || set_solver.
  - rewrite foldl_app. cbn [foldl]. destruct (foldl _ _ group) as [fec high].
    destruct IH as (L & H & M & B); [set_solver|]. specialize (Hk k ltac:(set_solver)).
    unfold fec_accumulate. set (n := tx_buf_len (get_tx u k)) in *. set (b := tx_buf (get_tx u k)).
    assert (Hz : forall j, high <= j -> xor_all (map (tx_byte u j) group) = 0).
    { intros j Hj. apply xor_all_zero, Forall_forall. intros k' Hk'. unfold tx_byte.
      specialize (M k' Hk'). by rewrite (proj2 (Z.ltb_ge _ _)) by lia. }
    assert (Hx : forall j, xor_all (map (tx_byte u j) (group ++ [k])) =
                 Z.lxor (xor_all (map (tx_byte u j) group)) (if j <? n then byte b j else 0)).
    { intros j. rewrite map_app, xor_all_app. cbn. by rewrite Z.lxor_0_r. }
    assert (Hmax : forall h, high <= h -> n <= h -> forall k', k' ∈ group ++ [k] -> tx_buf_len (get_tx u k') <= h).
    { intros h ? ? k' [Hk'| ->%list_elem_of_singleton]%elem_of_app; [specialize (M k' Hk')|fold n]; lia. }
    destruct (Z.ltb_spec high n) as [Hn|Hn]; rewrite length_imap;
      (split_and!; [done|lia|lia|apply Hmax; lia|]); intros j Hj; rewrite byte_imap, Z2Nat.id, Hx by lia.
    + destruct (Z.ltb_spec j high); [by rewrite B, (proj2 (Z.ltb_lt j n)) by lia|].
      rewrite Hz by lia. case_if; [done|lia].
    + rewrite B by lia. case_if; [done|]. by rewrite Z.lxor_0_r.
Qed.

Lemma get_set_rx s i f j : 0 <= i < 16 -> 0 <= j < 16 -> length (rx s) = 16%nat ->
  get_rx (set_rx s i f) j = if i =? j then f (get_rx s j) else get_rx s j.
Proof.
  intros Hi Hj Hl. unfold get_rx, set_rx. cbn [rx setter]. rewrite !nth_lookup. case_if.
  - subst j. rewrite list_lookup_alter_eq. destruct (lookup_lt_is_Some_2 (rx s) (Z.to_nat i)) as [x ->]; [lia|done].
  - rewrite list_lookup_alter_ne by lia. done.
Qed.

Lemma find_missing_one s group w : NoDup group -> w ∈ group -> rx_buf_len (get_rx s w) <= 0 ->
  (forall k, k ∈ group -> k <> w -> 0 < rx_buf_len (get_rx s k)) -> 0 <= w -> find_missing s group = w.
Proof.
  intros Hnd Hw Hm Ho Hw0. apply list_elem_of_split in Hw as (l1 & l2 & ->).
  apply NoDup_app in Hnd as (_ & Hd1 & Hnd2). apply NoDup_cons in Hnd2 as [Hd2 _].
  assert (Hf : forall l a, (forall k, k ∈ l -> 0 < rx_buf_len (get_rx s k)) ->
    foldl (fun which k => if rx_buf_len (get_rx s k) <=? 0 then (if which =? -1 then k else -2) else which) a l = a).
  { induction l as [|k l IH]; intros a Hl; cbn; [done|].
    rewrite (proj2 (Z.leb_gt _ _)) by (apply Hl; set_solver). apply IH. set_solver. }
  unfold find_missing. rewrite foldl_app, (Hf l1).
  - cbn [foldl]. rewrite (proj2 (Z.leb_le _ _)) by done. apply Hf.
    intros k Hk. apply Ho; [set_solver|]. intros ->. done.
  - intros k Hk. apply Ho; [set_solver|]. intros ->. apply (Hd1 w); set_solver.
Qed.

Lemma byte_map (f : Z -> Z) n j : 0 <= j < n -> byte (map f (seqZ 0 n)) j = f j.
Proof.
  intros Hj. unfold byte. apply nth_lookup_Some. rewrite list_lookup_fmap, lookup_seqZ_lt by lia.
  cbn. f_equal. f_equal. lia.
Qed.

(** ** Hostile datagrams *)

Section hostile.
Context (buf : list Z) (limit : Z) (bufs0 : list pointer).

(** A pointer into the datagram, within it; or one left over from the stack. *)
Definition ptr_ok (p : pointer) (n : Z) : Prop :=
  (exists off, p = Pbuf off /\ 0 <= off /\ 0 < n /\ off + n <= limit) \/ p ∈ bufs0.

Definition arrays_ok (bufs : list pointer) (lengths : list Z) : Prop :=
  length bufs = 15%nat /\ length lengths = 15%nat /\
  forall k p n, bufs !! k = Some p -> lengths !! k = Some n -> ptr_ok p n.

Lemma decode_length_progress ptr pv rc ptr' v : 0 <= ptr -> decode_length buf limit ptr pv = (rc, ptr', v) ->
  rc = -1 \/ (rc = 0 \/ rc = 1) /\ ptr < ptr' <= limit.
Proof.
  intros Hp E. unfold decode_length in E.
  repeat match type of E with context [if ?b then _ else _] => destruct b eqn:?; zb end;
    simplify_eq; try (by left); right; split; auto; lia.
Qed.

Lemma decode_open_progress ptr p n rc ptr' p' n' : 0 <= ptr ->
  decode_open_type buf limit ptr p n = (rc, ptr', p', n') ->
  rc = -1 \/ rc = 0 /\ ptr < ptr' <= limit /\
             ((exists off, p' = Pbuf off /\ 0 <= off /\ 0 < n' /\ off + n' <= limit) \/ p' = p /\ n' = n).
Proof.
  intros Hp E. unfold decode_open_type in E. destruct (decode_length _ _ _ _) as [[r q] v] eqn:Ed.
  destruct (decode_length_progress _ _ _ _ _ Hp Ed) as [->|[[-> | ->] Hq]];
    cbn [negb Z.eqb] in E; try (by simplify_eq; left).
  repeat match type of E with context [if ?b then _ else _] => destruct b eqn:?; zb end;
    simplify_eq; try (by left); right; (split; [done|]); split; try lia; [left|by right].
  eexists. split; [done|]. lia.
Qed.

Lemma secondary_inner_safe fuel : forall ptr bufs lengths total i count,
  0 <= ptr <= limit -> limit - ptr < Z.of_nat fuel -> 0 <= i -> 0 <= total -> total + i <= 15 ->
  arrays_ok bufs lengths ->
  exists rc ptr' bufs' lengths' i',
    secondary_inner fuel buf limit ptr bufs lengths total i count = Some (rc, ptr', bufs', lengths', i') /\
    (rc = -1 \/ rc = 0 /\ ptr <= ptr' <= limit /\ 0 <= i' /\ total + i' <= 15 /\ arrays_ok bufs' lengths').
Proof.
  induction fuel as [|fuel IH]; intros ptr bufs lengths total i count Hp Hf Hi Ht Hti Ha; [lia|].
  cbn [secondary_inner]. destruct (_ && _) eqn:Eg; [|eexists _, _, _, _, _; split; [done|right; split_and!; done || lia]].
  zb. destruct Ha as (Hb & Hl & Ho). set (k := Z.to_nat (total + i)).
  assert (Hk : (k < 15)%nat) by lia.
  destruct (lookup_lt_is_Some_2 bufs k ltac:(lia)) as [p0 Hp0].
  destruct (lookup_lt_is_Some_2 lengths k ltac:(lia)) as [l0 Hl0].
  rewrite (nth_lookup_Some _ _ _ _ Hp0), (nth_lookup_Some _ _ _ _ Hl0).
  destruct (decode_open_type _ _ _ _ _) as [[[rc q] p1] l1] eqn:Ed.
  destruct (decode_open_progress _ _ _ _ _ _ _ (proj1 Hp) Ed) as [->|(-> & Hq & Hpl)]; cbn [negb Z.eqb];
    [eexists _, _, _, _, _; split; [done|by left]|].
  assert (Ha' : arrays_ok (<[k := p1]> bufs) (<[k := l1]> lengths)).
  { split_and!; [by rewrite length_insert..|]. intros j p n Hj Hn. destruct (decide (j = k)) as [->|].
    - rewrite list_lookup_insert_eq in Hj by lia. rewrite list_lookup_insert_eq in Hn by lia. simplify_eq.
      destruct Hpl as [Hv|[-> ->]]; [by left|by eapply Ho].
    - rewrite list_lookup_insert_ne in Hj by done. rewrite list_lookup_insert_ne in Hn by done. by eapply Ho. }
  assert (Hfin : forall i' c', 0 <= i' -> total + i' <= 15 -> exists rc ptr' bufs' lengths' i'',
    secondary_inner fuel buf limit q (<[k := p1]> bufs) (<[k := l1]> lengths) total i' c' =
      Some (rc, ptr', bufs', lengths', i'') /\
    (rc = -1 \/ rc = 0 /\ ptr <= ptr' <= limit /\ 0 <= i'' /\ total + i'' <= 15 /\ arrays_ok bufs' lengths')).
  { intros i' c' H1 H2. destruct (IH q (<[k := p1]> bufs) (<[k := l1]> lengths) total i' c')
      as (rc & ptr' & bufs' & lengths' & i'' & E & R); try done; try lia.
    eexists _, _, _, _, _. split; [exact E|]. destruct R as [R|(R1 & R2 & R)]; [by left|right].
    split; [done|]. split; [lia|done]. }
  case_match; apply Hfin; lia.
Qed.

Lemma secondary_outer_safe fuel : forall ptr bufs lengths total,
  0 <= ptr <= limit -> limit - ptr < Z.of_nat fuel -> 0 <= total <= 15 -> arrays_ok bufs lengths ->
  exists rc bufs' lengths' total',
    secondary_outer fuel buf limit ptr bufs lengths total = Some (rc, bufs', lengths', total') /\
    (rc = -1 \/ rc = 0 /\ 0 <= total' <= 15 /\ arrays_ok bufs' lengths').
Proof.
  induction fuel as [|fuel IH]; intros ptr bufs lengths total Hp Hf Ht Ha.
  - lia.
  - cbn [secondary_outer]. destruct (decode_length _ _ _ _) as [[rc q] count] eqn:Ed.
    destruct (decode_length_progress _ _ _ _ _ (proj1 Hp) Ed) as [->|[Hrc Hq]];
      [eexists _, _, _, _; split; [done|by left]|].
    rewrite (proj2 (Z.ltb_ge rc 0)) by lia.
    destruct (secondary_inner_safe (S (Z.to_nat limit)) q bufs lengths total 0 count)
      as (r & ptr' & bufs' & lengths' & i' & E & R); try done; try lia.
    rewrite E. destruct R as [->|(-> & R1 & R2 & R3 & R4)]; cbn [negb Z.eqb];
      [eexists _, _, _, _; split; [done|by left]|].
    case_match; [apply IH; try done; lia|]. eexists _, _, _, _. split; [done|]. right. split; [done|]. split; [lia|done].
Qed.
End hostile.

(** The receiver's view of the group: it holds what the sender holds, except [w]. *)
Record one_missing (u s : ast_udptl) (group : list Z) (w : Z) : Prop := {
  om_in : w ∈ group;
  om_missing : rx_buf_len (get_rx s w) <= 0;
  om_len : forall k, k ∈ group -> tx_buf_len (get_tx u k) <= LOCAL_FAX_MAX_DATAGRAM;
  om_same : forall k, k ∈ group -> k <> w ->
    0 < rx_buf_len (get_rx s k) /\ rx_buf_len (get_rx s k) = tx_buf_len (get_tx u k) /\
    forall j, 0 <= j < tx_buf_len (get_tx u k) -> byte (rx_buf (get_rx s k)) j = byte (tx_buf (get_tx u k)) j
}.

(** Forward error correction repairs a lost packet.  Slot [l] of the receiver
    holds parity element [m] as the sender computes it over the packets of its
    ring; if the receiver has all of these packets but number [w], then after
    [try_repair] slot [w] holds that packet (padded with zeros to the longest
    packet of the group), flagged as repaired, and no other slot has changed. *)
Theorem udptl_fec_repairs u s l m fec0 fec' n w repaired :
  let e := get_rx s l in
  let group := parity_group l m (fec_span e) (fec_entries e) in
  one_missing u s group w ->
  length (rx s) = 16%nat -> length repaired = 16%nat -> length fec0 = 2800%nat ->
  foldl (fec_accumulate u) (fec0, 0) group = (fec', n) ->
  nth (Z.to_nat m) (fec_len e) 0 = n ->
  (forall j, 0 <= j < n -> byte (nth (Z.to_nat m) (fec e) []) j = byte fec' j) ->
  let '(s', repaired') := try_repair l (s, repaired) m in
  rx_buf_len (get_rx s' w) = n /\
  (forall j, 0 <= j < n -> byte (rx_buf (get_rx s' w)) j = tx_byte u j w) /\
  nth (Z.to_nat w) repaired' false = true /\
  (forall k, 0 <= k < 16 -> k <> w -> get_rx s' k = get_rx s k).
Proof.
  intros e group [Hw Hm Hlen Hsame] Hrx Hrep Hf0 Hfold Hn Hpar.
  destruct (nodup_ring_spec _ (proj1 (parity_group_ok l m (fec_span e) (fec_entries e)))) as [Hnd Hrange].
  fold group in Hnd, Hrange. rewrite Forall_forall in Hrange. pose proof (Hrange w Hw) as Hwr.
  pose proof (fec_accumulate_spec u group fec0 Hf0 Hlen) as Hacc. rewrite Hfold in Hacc.
  destruct Hacc as (_ & Hhigh & Hmax & Hxor).
  unfold try_repair. fold e group.
  rewrite (find_missing_one s group w) by (done || lia || (intros; by apply Hsame)).
  rewrite Z.geb_leb, (proj2 (Z.leb_le _ _)) by lia. rewrite Hn. set (b := map _ (seqZ 0 n)).
  assert (Hb : length b = Z.to_nat n) by (unfold b; by rewrite length_map, length_seqZ).
  split_and!.
  - rewrite get_set_rx, Z.eqb_refl by lia. done.
  - intros j Hj. rewrite get_set_rx, Z.eqb_refl by lia. cbn [rx_buf setter]. unfold memcpy.
    rewrite byte_app_l by lia. unfold b. rewrite byte_map, foldl_xor, Hpar, Hxor by lia.
    apply (parity_missing (tx_byte u j)); try done.
    + cbn. rewrite Z.gtb_ltb, (proj2 (Z.ltb_ge _ _)); [done|lia].
    + intros k Hk Hne. destruct (Hsame k Hk Hne) as (H1 & H2 & H3). unfold tx_byte. rewrite Z.gtb_ltb, H2.
      case_if; [apply H3; lia|done].
  - apply nth_lookup_Some. by rewrite list_lookup_insert_eq by lia.
  - intros k Hk Hne. rewrite get_set_rx by lia. by rewrite (proj2 (Z.eqb_neq _ _)).
Qed.

(** C23: with redundancy, the UDPTL channel is reliable under bounded loss: if never
    more than [e] consecutive datagrams are lost and the last one arrives, the
    receiver hands up exactly the packets sent, in order, each once and with its
    sequence number; nothing fails on the way, whatever the receiver's
    uninitialised arrays hold. *)
Theorem udptl_redundancy_reliable e n buflen bufs lengths events :
  0 <= e <= 14 -> 1 <= n <= LOCAL_FAX_MAX_DATAGRAM -> 4 + (e + 1) * (n + 2) <= buflen ->
  length bufs = 15%nat -> length lengths = 15%nat ->
  Forall (fun ev => 1 <= zlen (fst ev) <= n) events -> zlen events < 0x10000 ->
  few_losses (Z.to_nat e) 0 events = true ->
  let s := (ast_udptl_new e 0) <| error_correction_scheme := UDPTL_ERROR_CORRECTION_REDUNDANCY |> in
  session bufs lengths buflen s (ast_udptl_new 0 0) events = Some (number_from 0 (map fst events)).
Proof.
  intros He Hn Hbl Hb Hl Hev Hlen Hfl s.
  rewrite (session_spec e n buflen bufs lengths events He Hn Hbl Hb Hl s _ [] 0%nat);
    try done; try lia; by repeat split.
Qed.

(** The datagram is decoded in secondary-packet mode. *)
Definition secondary_mode (buf : list Z) : Prop :=
  let '(_, ptr, _, _) := decode_open_type buf (zlen buf) 2 Pnull 0 in
  Z.land (byte buf ptr) 0x80 = 0.

Lemma secondary_frames_ok limit bufs0 rx_seq seq bufs lengths total :
  arrays_ok limit bufs0 bufs lengths -> 0 <= total <= 15 ->
  let fs := secondary_frames rx_seq seq bufs lengths total in
  (length fs <= 15)%nat /\ Forall (fun f => ptr_ok limit bufs0 (data_ptr f) (datalen f)) fs.
Proof.
  intros (Hb & Hl & Ho) Ht fs. split.
  - unfold fs, secondary_frames.
    transitivity (length (rev (seqZ 1 total))); [|rewrite length_rev, length_seqZ; lia].
    generalize (rev (seqZ 1 total)). induction l as [|i l IH]; cbn [flat_map]; [done|].
    rewrite length_app. case_if; cbn; lia.
  - apply Forall_forall. intros f Hf. unfold fs, secondary_frames in Hf.
    apply list_elem_of_In, in_flat_map in Hf as (i & Hi & Hf). apply in_rev, list_elem_of_In, elem_of_seqZ in Hi.
    revert Hf. case_if; [|done]. intros [<-|[]]. cbn [data_ptr datalen].
    set (k := Z.to_nat (i - 1)). assert (Hk : (k < 15)%nat) by lia.
    destruct (lookup_lt_is_Some_2 bufs k ltac:(lia)) as [p Hp].
    destruct (lookup_lt_is_Some_2 lengths k ltac:(lia)) as [n Hn].
    rewrite (nth_lookup_Some _ _ _ _ Hp), (nth_lookup_Some _ _ _ _ Hn). by eapply Ho.
Qed.

(** Receiving any datagram whatever in secondary-packet mode terminates
    without an invalid access; at most 16 frames are handed up (the size of
    [s->f]), and each frame's data lies within the datagram, is empty, or is
    described by an entry of the local arrays that the code never initialised. *)
Theorem udptl_rx_secondary_safe bufs lengths s buf :
  length bufs = 15%nat -> length lengths = 15%nat -> secondary_mode buf ->
  exists rc s' fs, udptl_rx_packet bufs lengths s buf (zlen buf) = Some (rc, s', fs) /\
    (length fs <= 16)%nat /\
    Forall (fun f => ptr_ok (zlen buf) bufs (data_ptr f) (datalen f) \/ datalen f = 0) fs.
Proof.
  intros Hb Hl Hm. unfold secondary_mode in Hm. unfold udptl_rx_packet.
  destruct (Z.gtb_spec 2 (zlen buf)) as [|H2]; [eexists _, _, _; split; [done|split; [cbn; lia|done]]|].
  set (seq := Z.lor _ _). destruct (decode_open_type buf (zlen buf) 2 Pnull 0) as [[[rc ptr] ifp] n] eqn:Ed.
  destruct (decode_open_progress buf (zlen buf) 2 Pnull 0 _ _ _ _ ltac:(lia) Ed) as [->|(-> & Hp & Hi)];
    cbn [negb Z.eqb]; [eexists _, _, _; split; [done|split; [cbn; lia|done]]|].
  destruct (Z.gtb_spec (ptr + 1) (zlen buf)) as [|H3]; [eexists _, _, _; split; [done|split; [cbn; lia|done]]|].
  rewrite (proj2 (Z.eqb_eq _ _) Hm).
  assert (Hprim : ptr_ok (zlen buf) bufs ifp n \/ n = 0) by (destruct Hi as [Hi|[_ ->]]; [left; by left|by right]).
  assert (Hend : forall fs, (length fs <= 15)%nat ->
    Forall (fun f => ptr_ok (zlen buf) bufs (data_ptr f) (datalen f) \/ datalen f = 0) fs ->
    let fs' := if seq >=? rx_seq_no s then fs ++ [mk_frame seq n ifp] else fs in
    exists rc s' fs'', Some (zlen fs', s <| rx_seq_no := seq + 1 |>, fs') = Some (rc, s', fs'') /\
      (length fs'' <= 16)%nat /\
      Forall (fun f => ptr_ok (zlen buf) bufs (data_ptr f) (datalen f) \/ datalen f = 0) fs'').
  { intros fs Hfl Hf fs'. eexists _, _, _. split; [done|]. unfold fs'. case_if; [|split; [lia|done]].
    rewrite length_app, Forall_app. cbn. split; [lia|]. split; [done|]. constructor; [exact Hprim|constructor]. }
  destruct (seq >? rx_seq_no s); [|apply (Hend []); [cbn; lia|done]].
  destruct (secondary_outer_safe buf (zlen buf) bufs (S (Z.to_nat (zlen buf))) (ptr + 1) bufs lengths 0)
    as (r & bufs' & lengths' & total & E & R); try lia.
  { split_and!; [done..|]. intros k p m Hk _. right. by eapply list_elem_of_lookup_2. }
  rewrite E. destruct R as [->|(-> & Ht & Ha)]; cbn [negb Z.eqb].
  - eexists _, _, _. split; [done|]. split; [cbn; lia|done].
  - destruct (secondary_frames_ok _ _ (rx_seq_no s) seq _ _ _ Ha Ht) as [Hfl Hf].
    apply Hend; [done|]. eapply Forall_impl; [exact Hf|]. by left.
Qed.

(** Two ways a peer reaches invalid memory.  An FEC datagram whose parity
    element is empty, received in a slot whose earlier parity element was not,
    makes [udptl_rx_packet] copy from [NULL]; and an empty secondary packet is
    handed up as a frame made of whatever the stack held. *)
Theorem udptl_rx_memory_unsafe bufs lengths :
  match udptl_rx_packet bufs lengths (ast_udptl_new 3 3) [0; 0; 1; 0xAA; 0x80; 1; 1; 1; 1; 0x55] 10 with
  | Some (rc, s, _) => 0 < rc /\ udptl_rx_packet bufs lengths s [0; 16; 1; 0xAA; 0x80; 1; 1; 1; 0] 9 = None
  | None => False
  end /\
  match udptl_rx_packet (replicate 15 Pwild) (replicate 15 77) (ast_udptl_new 3 3) [0; 1; 1; 0xAA; 0; 1; 0] 7 with
  | Some (rc, _, fs) => rc = 2 /\ fs = [mk_frame 0 77 Pwild; mk_frame 1 1 (Pbuf 3)]
  | None => False
  end.
Proof. split; vm_compute; done. Qed.

(** ** Sizes *)

Lemma fit_entries_spec fuel far e e' new_max : 1 <= e -> fit_entries fuel far e = (e', new_max) ->
  1 <= e' <= e /\ new_max = u32 (far - 8) / u32 (e' + 1).
Proof.
  revert e. induction fuel as [|fuel IH]; intros e He E; cbn [fit_entries] in E.
  - simplify_eq. split; [lia|done].
  - destruct ((_ <? 80) && _) eqn:Eg; [|simplify_eq; split; [lia|done]]. zb.
    destruct (IH (e - 1) ltac:(lia) E) as [? ->]. split; [lia|done].
Qed.

(** How many redundant copies a datagram carries at most. *)
Definition max_copies (u : ast_udptl) : Z :=
  match error_correction_scheme u with
  | UDPTL_ERROR_CORRECTION_REDUNDANCY => error_correction_entries u
  | _ => 0
  end.

Lemma room_none far m : 8 <= far <= 1400 -> m = (far - 5) * 95 / 100 ->
  4 + (m + (if m <? 0x80 then 1 else 2)) <= far.
Proof. intros Hf ->. case_if; Z.div_mod_to_equations; lia. Qed.

Lemma room_redundancy far e new_max m : 8 <= far <= 1400 -> 1 <= e -> new_max = (far - 8) / (e + 1) ->
  m = new_max * 95 / 100 -> 1 <= m -> 4 + (e + 1) * (m + (if m <? 0x80 then 1 else 2)) <= far.
Proof.
  intros Hf He Hnm Hm Hm1.
  assert (H1 : m + (if m <? 0x80 then 1 else 2) <= new_max) by (case_if; Z.div_mod_to_equations; lia).
  assert (H2 : (e + 1) * new_max <= far - 8) by (subst new_max; apply Z.mul_div_le; lia).
  assert (H3 : (e + 1) * (m + (if m <? 0x80 then 1 else 2)) <= (e + 1) * new_max)
    by (apply Z.mul_le_mono_nonneg_l; lia).
  lia.
Qed.

Lemma double_to_int_id x : 0 <= x < 2 ^ 31 -> double_to_int x = x.
Proof. intros Hx. unfold double_to_int. by rewrite (proj2 (Z.leb_le _ _)), (proj2 (Z.ltb_lt _ _)) by lia. Qed.

Lemma far_max_ifp_spec u m u' : error_correction_scheme u <> UDPTL_ERROR_CORRECTION_FEC ->
  1 <= error_correction_entries u <= 14 -> 8 <= far_max_datagram u <= 1400 -> far_max_ifp u = -1 ->
  ast_udptl_get_far_max_ifp u = (m, u') -> 1 <= m ->
  (exists e1 f1, u' = u <| error_correction_entries := e1 |> <| far_max_ifp := f1 |>) /\
  far_max_ifp u' = m /\ m <= 1400 /\ 0 <= max_copies u' <= 14 /\ 1 <= error_correction_entries u' <= 14 /\
  4 + (max_copies u' + 1) * (m + (if m <? 0x80 then 1 else 2)) <= far_max_datagram u.
Proof.
  intros Hsc He Hfar Hun Hget Hm1. unfold ast_udptl_get_far_max_ifp in Hget. rewrite Hun in Hget.
  rewrite Z.eqb_refl in Hget. cbn iota in Hget.
  unfold calculate_far_max_ifp in Hget. rewrite (proj2 (Z.eqb_neq (far_max_datagram u) (-1))) in Hget by lia.
  destruct (error_correction_scheme u) eqn:Es; [|done|].
  - rewrite wrapu_id, double_to_int_id in Hget by (unfold in_u; Z.div_mod_to_equations; lia).
    set (n := _ * 95 / 100) in Hget. assert (Hn : 0 <= n <= 1400) by (unfold n; Z.div_mod_to_equations; lia).
    cbn [far_max_ifp setter] in Hget. rewrite (proj2 (Z.ltb_ge n 0)) in Hget by lia. injection Hget as <- <-.
    pose proof (room_none _ n Hfar eq_refl). split; [by eexists _, _|]. unfold max_copies.
    cbn [error_correction_scheme setter]. rewrite Es. cbn [far_max_ifp error_correction_entries setter].
    split_and!; lia.
  - destruct (fit_entries _ _ _) as [e' nm] eqn:Ef.
    destruct (fit_entries_spec _ _ _ _ _ (proj1 He) Ef) as [He' Hnm].
    rewrite !wrapu_id in Hnm by (unfold in_u; lia).
    assert (Hnm' : 0 <= nm <= 1400) by (subst nm; split; [apply Z.div_pos; lia|apply Z.div_le_upper_bound; lia]).
    rewrite double_to_int_id in Hget by (Z.div_mod_to_equations; lia).
    set (n := nm * 95 / 100) in Hget. assert (Hn : 0 <= n <= 1400) by (unfold n; Z.div_mod_to_equations; lia).
    cbn [far_max_ifp setter] in Hget. rewrite (proj2 (Z.ltb_ge n 0)) in Hget by lia. injection Hget as <- <-.
    pose proof (room_redundancy _ e' nm n Hfar ltac:(lia) Hnm eq_refl Hm1). split; [by eexists _, _|]. unfold max_copies.
    cbn [error_correction_scheme setter]. rewrite Es. cbn [far_max_ifp error_correction_entries setter].
    split_and!; lia.
Qed.

(** Packets no longer than the advertised [far_max_ifp] always fit: without
    error correction or with redundancy, the size limit computed from the
    peer's datagram size (8 bytes or more) guarantees that every packet up to
    that limit is sent, in a datagram the peer can take and within the packet
    buffer, with the configured redundancy. *)
Theorem udptl_write_fits u hist d m u' :
  sent u hist -> zlen hist + 1 < 2 ^ 32 -> error_correction_scheme u <> UDPTL_ERROR_CORRECTION_FEC ->
  1 <= error_correction_entries u <= 14 -> 8 <= far_max_datagram u <= FAX_MAX_DATAGRAM_LIMIT ->
  far_max_ifp u = -1 -> ast_udptl_get_far_max_ifp u = (m, u') ->
  Forall (fun c => zlen c <= m) hist -> 1 <= zlen d <= m ->
  exists pkt u'', ast_udptl_write u' true true d (zlen d) = (0, Some pkt, pkt, u'') /\
    zlen pkt <= far_max_datagram u /\ sent u'' (d :: hist) /\
    pkt = datagram (Z.land (zlen hist) 0xFFFF) d (copies_of u' hist).
Proof.
  intros Hs Hn Hsc He Hfar Hun Hget Hhist Hd. unfold FAX_MAX_DATAGRAM_LIMIT in Hfar.
  destruct (far_max_ifp_spec u m u' Hsc He Hfar Hun Hget ltac:(lia)) as (Hrest & Hm & Hm' & Hk & He' & Hroom).
  assert (Hs' : sent u' hist) by (destruct Hrest as (e1 & f1 & ->); by destruct Hs).
  assert (Efar : far_max_datagram u' = far_max_datagram u) by (by destruct Hrest as (e1 & f1 & ->)).
  assert (Esc : error_correction_scheme u' = error_correction_scheme u) by (by destruct Hrest as (e1 & f1 & ->)).
  set (pkt := datagram (Z.land (zlen hist) 0xFFFF) d (copies_of u' hist)).
  assert (Hc : zlen (copies_of u' hist) <= max_copies u').
  { unfold copies_of, max_copies. destruct (error_correction_scheme u'); cbn; try lia. rewrite length_take. lia. }
  assert (Hsz : zlen pkt <= far_max_datagram u).
  { transitivity (4 + (zlen (copies_of u' hist) + 1) * (m + (if m <? 0x80 then 1 else 2))).
    - apply datagram_size; [lia| |lia]. unfold copies_of. destruct (error_correction_scheme u'); try done. by apply Forall_take.
    - etransitivity; [|exact Hroom]. apply Z.add_le_mono_l, Z.mul_le_mono_nonneg_r; [case_if; lia|lia]. }
  assert (Hp : packet d) by (unfold packet, LOCAL_FAX_MAX_DATAGRAM; lia).
  unfold ast_udptl_write. cbn [negb]. rewrite (proj2 (Z.eqb_neq (zlen d) 0)) by lia. rewrite Efar, Hm.
  rewrite (wrapu_id 32 m) by (unfold in_u; lia).
  destruct (Z.gtb_spec (zlen d) m); [lia|]. destruct (Z.gtb_spec (far_max_datagram u) 0); [|lia].
  rewrite (build_packet_room u' hist d) by (rewrite ?Esc; done || lia). fold pkt.
  destruct (Z.gtb_spec (zlen pkt) 0); [|unfold pkt, datagram in *; cbn in *; lia].
  eexists _, _. split; [done|]. split_and!; [done| |done]. by apply sent_store.
Qed.

(** Two ways the packet buffer overflows.  In FEC mode the limit leaves room
    for one parity element, but up to [error_correction_entries] of them are
    written: sending packets within the limit writes past the end of the
    buffer and the datagram is lost.  And a peer's datagram size below 8 makes
    the unsigned limit wrap to about 2 * 10^9 (redundancy), with the fixed part
    of the packet already written past the end of a one-byte buffer. *)
Theorem udptl_write_overflow :
  (let u0 := ast_udptl_set_far_max_datagram
       (ast_udptl_set_error_correction_scheme (ast_udptl_new 3 1) UDPTL_ERROR_CORRECTION_FEC) 309 in
   let '(m, u0) := ast_udptl_get_far_max_ifp u0 in
   let send := fun u => snd (ast_udptl_write u true true (replicate 100 7) 100) in
   let '(_, sent, written, _) := ast_udptl_write (Nat.iter 3 send u0) true true (replicate 100 7) 100 in
   100 <= m /\ sent = None /\ zlen written = 310 /\ far_max_datagram u0 = 309) /\
  (let u1 := ast_udptl_set_far_max_datagram
       (ast_udptl_set_error_correction_scheme (ast_udptl_new 1 1) UDPTL_ERROR_CORRECTION_REDUNDANCY) 1 in
   let '(m, u1) := ast_udptl_get_far_max_ifp u1 in
   let '(_, _, written, _) := ast_udptl_write u1 true true [7] 1 in
   m = 2040109461 /\ zlen written = 3 /\ far_max_datagram u1 = 1).
Proof. split; vm_compute; by repeat split. Qed.

(** ** Witnesses *)

Lemma udptl_redundancy_reliable_witness :
  session (replicate 15 Pwild) (replicate 15 77) 400
    ((ast_udptl_new 2 0) <| error_correction_scheme := UDPTL_ERROR_CORRECTION_REDUNDANCY |>) (ast_udptl_new 0 0)
    [([1; 2], true); ([3], false); ([4; 5; 6], false); ([7], true)] =
  Some [(0, [1; 2]); (1, [3]); (2, [4; 5; 6]); (3, [7])].
Proof.
  apply (udptl_redundancy_reliable 2 3 400); try done; unfold LOCAL_FAX_MAX_DATAGRAM; try (cbn; lia).
  repeat (constructor; [cbn; lia|]). constructor.
Defined.

(** A receiver that has packets 0 and 1 in slots 3 and 5, lost the one of slot 4
    and holds their parity in slot 6. *)
Definition ex_tx : ast_udptl :=
  (ast_udptl_new 1 3) <| tx := replicate 3 (mk_tx (-1) []) ++
    [mk_tx 2 [10; 20]; mk_tx 3 [1; 2; 3]; mk_tx 1 [5]] ++ replicate 10 (mk_tx (-1) []) |>.
Definition ex_rx : ast_udptl :=
  let empty := mk_rx (-1) [] [] [] 0 0 in
  (ast_udptl_new 1 3) <| rx := replicate 3 empty ++
    [mk_rx 2 [10; 20] [] [] 0 0; empty; mk_rx 1 [5] [] [] 0 0;
     mk_rx 1 [9] [3] [[14; 22; 3]] 3 1] ++ replicate 9 empty |>.

Lemma udptl_fec_repairs_witness :
  let '(s', _) := try_repair 6 (ex_rx, replicate 16 false) 0 in
  rx_buf_len (get_rx s' 4) = 3 /\
  (forall j, 0 <= j < 3 -> byte (rx_buf (get_rx s' 4)) j = tx_byte ex_tx j 4).
Proof.
  pose proof (udptl_fec_repairs ex_tx ex_rx 6 0 (replicate 2800 0)
    (fst (foldl (fec_accumulate ex_tx) (replicate 2800 0, 0) [3; 4; 5])) 3 4 (replicate 16 false)) as H.
  destruct (try_repair 6 _ 0) as [s' rep] eqn:E. cbn zeta beta in H.
  destruct H as (A & B & _); [|done|done|by vm_compute| |done| |exact (conj A B)].
  - change (parity_group 6 0 _ _) with [3; 4; 5]. split.
    + set_solver.
    + by vm_compute.
    + intros k Hk. unfold LOCAL_FAX_MAX_DATAGRAM. repeat (apply elem_of_cons in Hk as [->|Hk]; [by vm_compute|]). set_solver.
    + intros k Hk Hne. assert (k = 3 \/ k = 4 \/ k = 5) as [-> | [-> | ->]] by set_solver; [|done|].
      * split_and!; [by vm_compute..|]. intros j Hj. change (tx_buf_len _) with 2 in Hj.
        assert (j = 0 \/ j = 1) as [-> | ->] by lia; done.
      * split_and!; [by vm_compute..|]. intros j Hj. change (tx_buf_len _) with 1 in Hj.
        assert (j = 0) as -> by lia; done.
  - by vm_compute.
  - intros j Hj. assert (j = 0 \/ j = 1 \/ j = 2) as [-> | [-> | ->]] by lia; by vm_compute.
Defined.

Lemma udptl_rx_secondary_safe_witness : exists rc s' fs,
  udptl_rx_packet (replicate 15 Pwild) (replicate 15 77) (ast_udptl_new 3 3) [0; 5; 1; 0xAA; 0; 200; 9] 7 =
    Some (rc, s', fs) /\ (length fs <= 16)%nat.
Proof.
  destruct (udptl_rx_secondary_safe (replicate 15 Pwild) (replicate 15 77) (ast_udptl_new 3 3)
              [0; 5; 1; 0xAA; 0; 200; 9]) as (rc & s' & fs & E & L & _); [done|done|by vm_compute|].
  exists rc, s', fs. split; [exact E|exact L].
Defined.

Definition ex_writer : ast_udptl :=
  ast_udptl_set_far_max_datagram
    (ast_udptl_set_error_correction_scheme (ast_udptl_new 3 3) UDPTL_ERROR_CORRECTION_REDUNDANCY) 400.

Lemma udptl_write_fits_witness : exists pkt u'',
  ast_udptl_write (snd (ast_udptl_get_far_max_ifp ex_writer)) true true [7; 8] 2 = (0, Some pkt, pkt, u'') /\
  zlen pkt <= 400 /\ fst (ast_udptl_get_far_max_ifp ex_writer) = 93.
Proof.
  destruct (udptl_write_fits ex_writer [] [7; 8] 93 (snd (ast_udptl_get_far_max_ifp ex_writer)))
    as (pkt & u'' & E & L & _); try done; try (cbn; unfold FAX_MAX_DATAGRAM_LIMIT; lia).
  exists pkt, u''. split; [exact E|]. split; [exact L|by vm_compute].
Defined.
