(* ===== verification/Extension.v ===== *)
(** * Dialplan extensions: matching, ordering and substrings ([main/pbx.c])

    An extension of the dialplan is a literal number or, when it starts with an
    underscore, a pattern.  This file models how the dialplan compares two
    extensions to sort them, how it decides whether dialled digits match an
    extension, can still match or need more digits, and how substrings of
    variables are cut out.

    A C string is the list of its characters, without the final NUL, each a
    signed [char]: an integer from -128 to 127 other than 0; reading at the end
    gives 0. [NULL] for a string pointer is [None].  A function that may not
    terminate or may write out of bounds returns [None] then. *)

From S2P Require Import Prelude.
From Stdlib Require Import ZArith Lia.
From stdpp Require Import base list numbers sets.

#[local] Open Scope Z_scope.

Definition E_MATCHMORE : Z := 0.
Definition E_CANMATCH : Z := 1.
Definition E_MATCH : Z := 2.
Definition E_MATCH_MASK : Z := 3.

Abbreviation c_dash := 45.
Abbreviation c_dot := 46.
Abbreviation c_slash := 47.
Abbreviation c_bang := 33.
Abbreviation c_under := 95.
Abbreviation c_open := 91.
Abbreviation c_close := 93.

(** [while ( *s == '-') ++s]. *)
Fixpoint skip_dash (s : str) : str :=
  match s with
  | c :: rest => if c =? c_dash then skip_dash rest else s
  | [] => []
  end.

(** ** Literal extensions *)

Fixpoint ext_cmp_exten_strlen (s : str) : Z :=
  match s with
  | [] => 0
  | c :: rest => if c =? c_dash then ext_cmp_exten_strlen rest else 1 + ext_cmp_exten_strlen rest
  end.

(** The first loop over dashes of [left] is the first case. *)
Fixpoint ext_cmp_exten_partial (left right : str) : Z :=
  match left with
  | [] => 0 - deref (skip_dash right)
  | c :: rest =>
      if c =? c_dash then ext_cmp_exten_partial rest right
      else
        let right := skip_dash right in
        if deref right =? 0 then 0
        else
          let cmp := c - deref right in
          if negb (cmp =? 0) then cmp else ext_cmp_exten_partial rest (tail right)
  end.

Fixpoint ext_cmp_exten (left right : str) : Z :=
  match left with
  | [] => 0 - deref (skip_dash right)
  | c :: rest =>
      if c =? c_dash then ext_cmp_exten rest right
      else
        let right := skip_dash right in
        let cmp := c - deref right in
        if negb (cmp =? 0) then cmp else ext_cmp_exten rest (tail right)
  end.

(** ** Ordering of patterns *)

(** [strchr(s, ']')]: the characters before it and those after it. *)
Fixpoint split_close (s : str) : option (str * str) :=
  match s with
  | [] => None
  | c :: rest =>
      if c =? c_close then Some ([], rest)
      else match split_close rest with
           | Some (body, after) => Some (c :: body, after)
           | None => None
           end
  end.

(** The 32-byte table of a character set, most significant bit first. *)
Definition bit_mask (c : Z) : Z := Z.shiftl 1 (7 - c mod 8).
Definition bit_get (bitwise : list Z) (c : Z) : bool :=
  negb (Z.land (nth (Z.to_nat (c / 8)) bitwise 0) (bit_mask c) =? 0).
Definition bit_set (bitwise : list Z) (c : Z) : list Z :=
  let i := Z.to_nat (c / 8) in <[i := Z.lor (nth i bitwise 0) (bit_mask c)]> bitwise.

(** The loop [for (; c1 <= c2; ++c1)] on [unsigned char]s, [n] rounds. *)
Fixpoint add_range (n : nat) (c1 : Z) (bitwise : list Z) (count : Z) : list Z * Z :=
  match n with
  | O => (bitwise, count)
  | S n =>
      let '(bitwise, count) := if negb (bit_get bitwise c1) then (bit_set bitwise c1, count + 0x100)
                               else (bitwise, count) in
      add_range n (c1 + 1) bitwise count
  end.

(** One character or range of a set: table, count and lowest character. [None]
    when the range ends in character 255, on which the loop never ends. *)
Definition add_chars (c1 c2 : Z) (st : list Z * Z * Z) : option (list Z * Z * Z) :=
  let '(bitwise, count, cmin) := st in
  let c1 := u8 c1 in
  let c2 := u8 c2 in
  let cmin := if c1 <? cmin then c1 else cmin in
  if c2 =? 255 then None
  else
    let '(bitwise, count) := add_range (Z.to_nat (c2 + 1 - c1)) c1 bitwise count in
    Some (bitwise, count, cmin).

(** The loop over the body of a set. *)
Fixpoint add_set (body : str) (st : list Z * Z * Z) : option (list Z * Z * Z) :=
  match body with
  | [] => Some st
  | c1 :: ((d :: c2 :: rest2) as rest) =>
      if d =? c_dash then
        match add_chars c1 c2 st with Some st => add_set rest2 st | None => None end
      else
        match add_chars c1 c1 st with Some st => add_set rest st | None => None end
  | c1 :: rest =>
      match add_chars c1 c1 st with Some st => add_set rest st | None => None end
  end.

(** The score of the next element of a pattern, the string after it ([None] for
    [NULL]) and its table. Fuel bounds the skipped dashes and empty sets. *)
Fixpoint pattern_pos (fuel : nat) (p : str) (bitwise : list Z) : option (Z * option str * list Z) :=
  match fuel with
  | O => None
  | S fuel =>
      match p with
      | [] => Some (0x30000, None, bitwise)
      | c :: p =>
          if c =? c_dash then pattern_pos fuel p bitwise
          else if (c =? 110) || (c =? 78) then
            Some (Z.lor 0x0800 50, Some p, <[6%nat := 0x3f]> (<[7%nat := 0xc0]> bitwise))
          else if (c =? 120) || (c =? 88) then
            Some (Z.lor 0x0A00 48, Some p, <[6%nat := 0xff]> (<[7%nat := 0xc0]> bitwise))
          else if (c =? 122) || (c =? 90) then
            Some (Z.lor 0x0900 49, Some p, <[6%nat := 0x7f]> (<[7%nat := 0xc0]> bitwise))
          else if c =? c_dot then Some (0x18000, Some p, bitwise)
          else if c =? c_bang then Some (0x28000, Some p, bitwise)
          else if negb (c =? c_open) then
            Some (Z.lor 0x0100 (u8 c), Some p, <[Z.to_nat (u8 c / 8) := bit_mask (u8 c)]> bitwise)
          else
            match split_close p with
            | None => Some (0x40000, Some p, bitwise)
            | Some (body, after) =>
                match add_set body (bitwise, 0, 0xFF) with
                | None => None
                | Some (bitwise, count, cmin) =>
                    if count =? 0 then pattern_pos fuel after bitwise
                    else Some (Z.lor count cmin, Some after, bitwise)
                end
            end
      end
  end.

Definition ext_cmp_pattern_pos (p : str) : option (Z * option str * list Z) :=
  pattern_pos (S (length p)) p (replicate 32 0).

(** [memcmp]: the sign of the first difference. *)
Fixpoint memcmp (a b : list Z) : Z :=
  match a, b with
  | x :: a, y :: b => if x <? y then -1 else if y <? x then 1 else memcmp a b
  | _, _ => 0
  end.

(** The loop of [ext_cmp_pattern]; each round consumes a character of [left]. *)
Fixpoint cmp_pattern_loop (fuel : nat) (left right : str) : option Z :=
  match fuel with
  | O => None
  | S fuel =>
      match ext_cmp_pattern_pos left, ext_cmp_pattern_pos right with
      | Some (left_pos, left', left_bitwise), Some (right_pos, right', right_bitwise) =>
          let cmp := left_pos - right_pos in
          let cmp := if cmp =? 0 then memcmp right_bitwise left_bitwise else cmp in
          if negb (cmp =? 0) then Some cmp
          else match left', right' with
               | Some l, Some r => cmp_pattern_loop fuel l r
               | _, _ => Some cmp
               end
      | _, _ => None
      end
  end.

Definition ext_cmp_pattern (left right : str) : option Z :=
  cmp_pattern_loop (S (length left)) left right.

Definition ext_cmp (left right : str) : option Z :=
  if negb (deref left =? c_under) then
    if deref right =? c_under then Some (-1) else Some (ext_cmp_exten left right)
  else if negb (deref right =? c_under) then Some 1
  else ext_cmp_pattern (tail left) (tail right).

Definition ast_extension_cmp (a b : str) : option Z :=
  match ext_cmp a b with
  | Some cmp => Some (if cmp <? 0 then -1 else if cmp >? 0 then 1 else 0)
  | None => None
  end.

(** ** Matching *)

(** The test of one character against the body of a set ([char] is signed). *)
Fixpoint set_match (c : Z) (body : str) : bool :=
  match body with
  | [] => false
  | a :: ((d :: b :: rest2) as rest) =>
      if d =? c_dash then ((a <=? c) && (c <=? b)) || set_match c rest2
      else (c =? a) || set_match c rest
  | a :: rest => (c =? a) || set_match c rest
  end.

(** What the end of the data means, [pattern] being what is left of the pattern. *)
Definition match_at_end (pattern : str) (mode : Z) : Z :=
  if (deref pattern =? 0) || (deref pattern =? c_slash) then if mode =? E_MATCHMORE then 0 else 1
  else if deref pattern =? c_bang then 2
  else if mode =? E_MATCH then 0 else 1.

(** The loop of [_extension_match_core]; each round consumes a character of
    [pattern]. *)
Fixpoint match_loop (fuel : nat) (pattern data : str) (mode : Z) : Z :=
  match fuel with
  | O => 0
  | S fuel =>
      let data := skip_dash data in
      let pattern := skip_dash pattern in
      let d := deref data in
      let p := deref pattern in
      if (d =? 0) || (p =? 0) || (p =? c_slash) then
        if negb (d =? 0) then 0 else match_at_end pattern mode
      else if p =? c_open then
        match split_close (tail pattern) with
        | None => 0
        | Some ([], after) => match_loop fuel after data mode
        | Some (body, after) => if set_match d body then match_loop fuel after (tail data) mode else 0
        end
      else if (p =? 110) || (p =? 78) then
        if (d <? 50) || (d >? 57) then 0 else match_loop fuel (tail pattern) (tail data) mode
      else if (p =? 120) || (p =? 88) then
        if (d <? 48) || (d >? 57) then 0 else match_loop fuel (tail pattern) (tail data) mode
      else if (p =? 122) || (p =? 90) then
        if (d <? 49) || (d >? 57) then 0 else match_loop fuel (tail pattern) (tail data) mode
      else if p =? c_dot then 1
      else if p =? c_bang then 2
      else if negb (d =? p) then 0 else match_loop fuel (tail pattern) (tail data) mode
  end.

(** [_extension_match_core]. *)
Definition extension_match_core_ (pattern data : str) (mode : Z) : option Z :=
  let mode := Z.land mode E_MATCH_MASK in
  if negb (deref pattern =? c_under) then
    let lp := ext_cmp_exten_strlen pattern in
    let ld := ext_cmp_exten_strlen data in
    if lp <? ld then Some 0
    else if mode =? E_MATCH then Some (if ext_cmp_exten pattern data =? 0 then 1 else 0)
    else if (ld =? 0) || (ext_cmp_exten_partial pattern data =? 0)
    then Some (if mode =? E_MATCHMORE then (if lp >? ld then 1 else 0) else 1)
    else Some 0
  else
    let conforms := match_loop (S (length (tail pattern))) (tail pattern) data mode in
    if (mode =? E_MATCH) && (deref data =? c_under) then
      match ext_cmp_pattern (tail pattern) (tail data) with
      | None => None
      | Some cmp => Some (if cmp =? 0 then 1 else conforms)
      end
    else Some conforms.

(** [extension_match_core]: [NULL] strings are taken as empty. *)
Definition extension_match_core (pattern data : option str) (mode : Z) : option Z :=
  extension_match_core_ (default [] pattern) (default [] data) mode.

Definition ast_extension_match (pattern data : option str) : option Z :=
  extension_match_core pattern data E_MATCH.

Definition ast_extension_close (pattern data : option str) (needmore : Z) : option Z :=
  extension_match_core pattern data needmore.

Definition matchcid (cidpattern callerid : option str) : option Z :=
  match default [] callerid with
  | [] => Some (match default [] cidpattern with [] => 1 | _ => 0 end)
  | _ => ast_extension_match cidpattern callerid
  end.

(** ** Substrings *)

(** [s[i] = '\0'] on the part of a buffer that holds the string [s]. *)
Definition cut_at (s : str) (i : Z) : option str :=
  if (0 <=? i) && (i <=? Z.of_nat (length s)) then Some (take (Z.to_nat i) s) else None.

(** [substring]; [ast_copy_string] keeps [workspace_len - 1] characters. *)
Definition substring (value : str) (offset length_ : Z) (workspace_len : nat) : option str :=
  let ret := take (workspace_len - 1) value in
  let lr := Z.of_nat (length ret) in
  if (offset =? 0) && (length_ >=? lr) then Some ret
  else
    let offset := if offset <? 0 then (if lr + offset <? 0 then 0 else lr + offset) else offset in
    if offset >=? lr then Some []
    else
      let ret := drop (Z.to_nat offset) ret in
      if (length_ >=? 0) && (length_ <? lr - offset) then cut_at ret length_
      else if length_ <? 0 then
        if lr >? s32 (offset - length_) then cut_at ret (lr + length_ - offset) else cut_at ret 0
      else Some ret.

(** [ast_str_substring], on a dynamic string. *)
Definition ast_str_substring (value : str) (offset length_ : Z) : option str :=
  let lr := Z.of_nat (length value) in
  if (offset =? 0) && (length_ >=? lr) then Some value
  else
    let offset := if offset <? 0 then (if lr + offset <? 0 then 0 else lr + offset) else offset in
    if offset >=? lr then Some []
    else
      let value := if offset >? 0 then drop (Z.to_nat offset) value else value in
      let lr := if offset >? 0 then lr - offset else lr in
      if (length_ >=? 0) && (length_ <? lr) then cut_at value length_
      else if length_ <? 0 then
        if lr >? s32 (- length_) then cut_at value (lr + length_) else Some []
      else Some value.

(** ** Literal extensions: what the comparisons compute *)

(** A string without its dashes. *)
Definition undash (s : str) : str := List.filter (fun c => negb (c =? c_dash)) s.

Lemma undash_cons c s : undash (c :: s) = if c =? c_dash then undash s else c :: undash s.
Proof. unfold undash. cbn. by destruct (c =? c_dash). Qed.

Lemma undash_skip s : undash (skip_dash s) = undash s.
Proof. induction s as [|c s IH]; [done|]. cbn [skip_dash]. rewrite undash_cons. case_if; [done|by rewrite undash_cons, (proj2 (Z.eqb_neq _ _))]. Qed.

Lemma cstr_undash s : cstr s -> cstr (undash s).
Proof.
  induction 1 as [|c s Hc _ IH]; [constructor|]. rewrite undash_cons. case_if; [done|by constructor].
Qed.

(** The string after its dashes, in terms of the dash-free string. *)
Lemma skip_dash_cases s : cstr s ->
  (undash s = [] /\ skip_dash s = []) \/
  exists c s', undash s = c :: undash s' /\ skip_dash s = c :: s' /\ c <> 0 /\ c <> c_dash /\ cstr s' /\
               (length s' < length s)%nat.
Proof.
  induction 1 as [|c s Hc Hs IH]; [by left|]. cbn [skip_dash]. rewrite undash_cons. case_if.
  - destruct IH as [IH|(c' & s' & ? & ? & ? & ? & ? & ?)]; [by left|right]. exists c', s'. split_and!; try done. cbn. lia.
  - right. exists c, s. split_and!; try done. cbn. lia.
Qed.

Lemma ext_cmp_exten_strlen_spec s : ext_cmp_exten_strlen s = Z.of_nat (length (undash s)).
Proof.
  induction s as [|c s IH]; [done|]. cbn [ext_cmp_exten_strlen]. rewrite undash_cons.
  case_if; [done|]. cbn [length]. lia.
Qed.

(** The comparison of two strings, each ended by a NUL. *)
Fixpoint strcmp (l r : str) : Z :=
  match l, r with
  | [], [] => 0
  | [], c :: _ => 0 - c
  | c :: _, [] => c
  | c :: l, d :: r => if c =? d then strcmp l r else c - d
  end.

Lemma ext_cmp_exten_spec l r : cstr l -> cstr r -> ext_cmp_exten l r = strcmp (undash l) (undash r).
Proof.
  intros Hl. revert r. induction Hl as [|c l Hc Hl IH]; intros r Hr; cbn [ext_cmp_exten].
  - destruct (skip_dash_cases r Hr) as [[-> ->]|(d & r' & -> & -> & _)]; done.
  - rewrite undash_cons. case_if; [by apply IH|].
    destruct (skip_dash_cases r Hr) as [[-> ->]|(d & r' & -> & -> & Hd & _ & Hr' & _)]; cbn [deref tail strcmp].
    + case_if; [lia|]. lia.
    + destruct (Z.eqb_spec c d) as [->|Hne]; [|by rewrite (proj2 (Z.eqb_neq (c - d) 0)) by lia].
      rewrite Z.sub_diag. cbn. by apply IH.
Qed.

Lemma ext_cmp_exten_partial_spec l r : cstr l -> cstr r ->
  ext_cmp_exten_partial l r = 0 <-> undash r `prefix_of` undash l.
Proof.
  intros Hl. revert r. induction Hl as [|c l Hc Hl IH]; intros r Hr; cbn [ext_cmp_exten_partial].
  - destruct (skip_dash_cases r Hr) as [[-> ->]|(d & r' & -> & -> & Hd & _)]; cbn.
    + split; [intros _; apply prefix_nil|done].
    + split; [lia|by intros ?%prefix_nil_not].
  - rewrite undash_cons. case_if; [by apply IH|].
    destruct (skip_dash_cases r Hr) as [[-> ->]|(d & r' & -> & -> & Hd & _ & Hr' & _)]; cbn [deref tail].
    + split; [intros _; apply prefix_nil|done].
    + rewrite (proj2 (Z.eqb_neq d 0)) by done. destruct (Z.eqb_spec (c - d) 0) as [He|Hne]; cbn [negb].
      * assert (d = c) as -> by lia. rewrite IH by done. split; [by apply prefix_cons|by apply prefix_cons_inv_2].
      * split; [done|]. intros ?%prefix_cons_inv_1. lia.
Qed.

Lemma strcmp_eq l r : cstr l -> cstr r -> strcmp l r = 0 <-> l = r.
Proof.
  intros Hl. revert r. induction Hl as [|c l Hc Hl IH]; intros r Hr; destruct Hr as [|d r Hd Hr]; cbn; try done.
  - split; [lia|done].
  - case_if; [subst; rewrite IH by done; split; congruence|]. split; [lia|congruence].
Qed.

(** Matching a literal extension.  With dashes ignored on both sides: the
    digits match exactly when they are the extension; they can match when they
    are a prefix of it; they can match with more digits when they are a proper
    prefix of it. *)
Theorem literal_match p d :
  cstr p -> cstr d -> deref p <> c_under ->
  (extension_match_core_ p d E_MATCH = Some 1 <-> undash d = undash p) /\
  (extension_match_core_ p d E_CANMATCH = Some 1 <-> undash d `prefix_of` undash p) /\
  (extension_match_core_ p d E_MATCHMORE = Some 1 <-> undash d `prefix_of` undash p /\ undash d <> undash p) /\
  forall mode, exists b, extension_match_core_ p d mode = Some b /\ (b = 0 \/ b = 1).
Proof.
  intros Hp Hd Hu. unfold extension_match_core_. rewrite !(proj2 (Z.eqb_neq (deref p) c_under)) by done. cbn [negb].
  rewrite !ext_cmp_exten_strlen_spec.
  pose proof (ext_cmp_exten_spec p d Hp Hd) as Hc. pose proof (ext_cmp_exten_partial_spec p d Hp Hd) as Hpp.
  pose proof (strcmp_eq _ _ (cstr_undash p Hp) (cstr_undash d Hd)) as He. rewrite <- Hc in He.
  set (lp := Z.of_nat (length (undash p))). set (ld := Z.of_nat (length (undash d))).
  assert (Hlen : undash d `prefix_of` undash p -> ld <= lp) by (intros ?%prefix_length; lia).
  assert (Heq : undash d `prefix_of` undash p -> ld = lp -> undash d = undash p).
  { intros [k Hk] E. rewrite Hk in *. unfold ld, lp in E. rewrite Hk, length_app in E.
    destruct k; [by rewrite app_nil_r|cbn in E; lia]. }
  assert (Hz : (ld =? 0) || (ext_cmp_exten_partial p d =? 0) = true <-> undash d `prefix_of` undash p).
  { rewrite orb_true_iff, !Z.eqb_eq, Hpp. split; [|by right]. intros [H0|H0]; [|done].
    unfold ld in H0. destruct (undash d); [apply prefix_nil|cbn in H0; lia]. }
  split_and!.
  - change (Z.land E_MATCH E_MATCH_MASK =? E_MATCH) with true. cbn iota. case_if.
    + split; [done|]. intros Hu'. apply (f_equal length) in Hu'. lia.
    + case_if; [split; [intros _; symmetry; by apply He|done]|]. split; [done|]. intros Hu'. by rewrite (proj2 He) in E0.
  - change (Z.land E_CANMATCH E_MATCH_MASK) with 1. change (1 =? E_MATCH) with false. change (1 =? E_MATCHMORE) with false.
    cbn iota. case_if; [split; [done|intros H; specialize (Hlen H); lia]|].
    destruct (_ || _); [split; [intros _; by apply Hz|done]|split; [done|intros H; by apply Hz in H]].
  - change (Z.land E_MATCHMORE E_MATCH_MASK) with 0. change (0 =? E_MATCH) with false. change (0 =? E_MATCHMORE) with true.
    cbn iota. case_if; [split; [done|intros [H _]; specialize (Hlen H); lia]|].
    destruct (_ || _); [|split; [done|intros [H _]; by apply Hz in H]].
    destruct (Z.gtb_spec lp ld); (split; [try done; intros _|]).
    + split; [by apply Hz|]. intros Hu'. unfold lp, ld in *. rewrite Hu' in *. lia.
    + done.
    + intros [H1 H2]. exfalso. apply H2, Heq; [done|lia].
  - intros mode. repeat case_match; eexists; (split; [done|]); auto.
Qed.

(** ** Patterns as languages *)

(** What one position of a pattern accepts: one character of a class, one or
    more of anything, or anything. *)
Inductive elem := Chars (p : Z -> bool) | Rest | Anything.

Definition between (lo hi c : Z) : bool := (lo <=? c) && (c <=? hi).

(** The elements of a pattern; [None] if a set is not closed or is empty. *)
Fixpoint parse (fuel : nat) (pattern : str) : option (list elem) :=
  match fuel with
  | O => None
  | S fuel =>
      match skip_dash pattern with
      | [] => Some []
      | p :: rest =>
          if p =? c_slash then Some []
          else if p =? c_open then
            match split_close rest with
            | None | Some ([], _) => None
            | Some (body, after) =>
                match parse fuel after with Some es => Some (Chars (fun c => set_match c body) :: es) | None => None end
            end
          else if p =? c_dot then Some [Rest]
          else if p =? c_bang then Some [Anything]
          else
            let class :=
              if (p =? 110) || (p =? 78) then between 50 57
              else if (p =? 120) || (p =? 88) then between 48 57
              else if (p =? 122) || (p =? 90) then between 49 57
              else (fun c => c =? p) in
            match parse fuel rest with Some es => Some (Chars class :: es) | None => None end
      end
  end.

Definition parse_pattern (pattern : str) : option (list elem) := parse (S (length pattern)) pattern.

(** The language of a pattern. *)
Inductive matches : list elem -> str -> Prop :=
  | matches_end : matches [] []
  | matches_char p es c d : p c = true -> matches es d -> matches (Chars p :: es) (c :: d)
  | matches_rest es c d : matches (Rest :: es) (c :: d)
  | matches_anything es d : matches (Anything :: es) d.

#[local] Hint Constructors matches : core.

(** What the match loop computes, on elements and dash-free data. *)
Fixpoint outcome (es : list elem) (d : str) (mode : Z) : Z :=
  match es, d with
  | [], [] => if mode =? E_MATCHMORE then 0 else 1
  | [], _ :: _ => 0
  | Anything :: _, _ => 2
  | _ :: _, [] => if mode =? E_MATCH then 0 else 1
  | Rest :: _, _ :: _ => 1
  | Chars p :: es, c :: d => if p c then outcome es d mode else 0
  end.

Lemma skip_dash_id p rest s : skip_dash s = p :: rest -> skip_dash (p :: rest) = p :: rest /\ p <> c_dash /\
  (length rest < length s)%nat.
Proof.
  induction s as [|c s IH]; cbn [skip_dash]; [done|]. case_if.
  - intros Hs. destruct (IH Hs) as (H1 & H2 & H3). split_and!; [done..|]. cbn. lia.
  - intros [= -> ->]. cbn [skip_dash]. rewrite (proj2 (Z.eqb_neq p c_dash)) by done. split_and!; [done..|]. cbn. lia.
Qed.

Lemma between_negb lo hi d : (d <? lo) || (d >? hi) = negb (between lo hi d).
Proof.
  unfold between. rewrite Z.gtb_ltb.
  destruct (Z.ltb_spec d lo), (Z.ltb_spec hi d), (Z.leb_spec lo d), (Z.leb_spec d hi); try done; lia.
Qed.

Lemma split_close_cstr s body after : cstr s -> split_close s = Some (body, after) -> cstr after /\ cstr body.
Proof.
  intros Hs. revert body. induction Hs as [|c s Hc Hs IH]; intros body E; cbn in E; [done|].
  destruct (c =? c_close); [simplify_eq; split; [done|constructor]|].
  destruct (split_close s) as [[b a]|]; simplify_eq. destruct (IH b eq_refl). split; [done|by constructor].
Qed.

Lemma match_loop_outcome fuel pattern data mode es : cstr data -> cstr pattern ->
  parse fuel pattern = Some es -> match_loop fuel pattern data mode = outcome es (undash data) mode.
Proof.
  revert pattern data es. induction fuel as [|fuel IH]; intros pattern data es Hd Hp Hes; [done|].
  cbn [parse match_loop] in *.
  destruct (skip_dash pattern) as [|p rest] eqn:Es.
  - simplify_eq. cbn [deref]. rewrite orb_true_r. cbn [orb].
    destruct (skip_dash_cases data Hd) as [[-> ->]|(c & data' & -> & -> & Hc & _)]; cbn [deref outcome].
    + done.
    + by rewrite (proj2 (Z.eqb_neq c 0)).
  - destruct (skip_dash_cases pattern Hp) as [[_ E0]|(p' & rest' & _ & E0 & Hp0 & Hpd & Hr & _)];
      rewrite Es in E0; simplify_eq.
    cbn [deref tail]. rewrite (proj2 (Z.eqb_neq p' 0)) by done.
    destruct (skip_dash_cases data Hd) as [[-> ->]|(c & data' & -> & -> & Hc & _ & Hd' & _)]; cbn [deref tail].
    + cbn [Z.eqb orb negb]. unfold match_at_end. cbn [deref]. rewrite (proj2 (Z.eqb_neq p' 0)) by done. cbn [orb].
      repeat case_match; simplify_eq; try done; cbn [outcome]; zb; try congruence; case_if; congruence.
    + rewrite (proj2 (Z.eqb_neq c 0)) by done. cbn [orb negb].
      destruct (p' =? c_slash); [by simplify_eq|]. destruct (p' =? c_open) eqn:Eo.
      * destruct (split_close rest') as [[body after]|] eqn:Ec; [|done].
        assert (Ha : cstr after). { by apply (split_close_cstr _ _ _ Hr Ec). }
        destruct body as [|b body]; [done|]. destruct (parse fuel after) as [es'|] eqn:Ee; [|done]. simplify_eq.
        cbn [outcome]. by rewrite (IH _ _ _ Hd' Ha Ee).
      * destruct (p' =? c_dot) eqn:Edot.
        { simplify_eq. zb. subst p'. done. }
        destruct (p' =? c_bang) eqn:Ebang.
        { simplify_eq. zb. subst p'. done. }
        destruct (parse fuel rest') as [es'|] eqn:Ee; [|done]. simplify_eq. cbn [outcome].
        rewrite (IH _ _ _ Hd' Hr Ee), !between_negb.
        repeat match goal with |- context [if ?b then _ else _] =>
          match b with (p' =? _) || _ => destruct b end end; by destruct (between _ _ c) || destruct (c =? p').
Qed.

(** Digits that may still be dialled. *)
Definition digits (s : str) : Prop := Forall (fun c => c <> 0 /\ c <> c_dash) s.

(** Every class of the pattern has a member. *)
Definition satisfiable (es : list elem) : Prop :=
  Forall (fun e => match e with Chars p => exists c, c <> 0 /\ c <> c_dash /\ p c = true | _ => True end) es.

Lemma satisfiable_matches es : satisfiable es ->
  exists s, digits s /\ matches es s /\ (es <> [] -> s <> []).
Proof.
  induction 1 as [|e es He _ (s & Hs & Hm & _)]; [exists []; split_and!; done || constructor|].
  destruct e as [p| |].
  - destruct He as (c & Hc0 & Hcd & Hpc). exists (c :: s). split_and!; [by constructor|by constructor|done].
  - exists [49]. split_and!; [by repeat constructor|constructor|done].
  - exists [49]. split_and!; [by repeat constructor|constructor|done].
Qed.

Lemma outcome_match es d : outcome es d E_MATCH <> 0 <-> matches es d.
Proof.
  revert d. induction es as [|e es IH]; intros d.
  - destruct d; cbn; split; try done; intros H; inversion H.
  - destruct e as [p| |], d as [|c d]; cbn; try (split; try done; intros H; by inversion H || constructor).
    destruct (p c) eqn:Ep.
    + rewrite IH. split; [by constructor|by inversion 1].
    + split; [done|]. inversion 1. congruence.
Qed.

Lemma outcome_can es d : satisfiable es ->
  outcome es d E_CANMATCH <> 0 <-> exists s, digits s /\ matches es (d ++ s).
Proof.
  intros Hsat. revert d. induction Hsat as [|e es He Hsat IH]; intros d.
  - destruct d; cbn; split; try done.
    + intros _. exists []. split; constructor.
    + intros (s & _ & H). inversion H.
  - destruct (satisfiable_matches (e :: es)) as (s0 & Hs0 & Hm0 & _); [by constructor|].
    destruct e as [p| |], d as [|c d]; cbn -[app]; try (split; [|done]; intros _; by eauto).
    + cbn. destruct (p c) eqn:Ep.
      * rewrite IH. split; intros (s & Hs & H); exists s; (split; [done|]); [by constructor|by inversion H].
      * split; [done|]. intros (s & _ & H). inversion H. congruence.
    + split; [|done]. intros _. exists []. split; [constructor|]. constructor.
Qed.

Lemma outcome_more es d : satisfiable es ->
  outcome es d E_MATCHMORE <> 0 <-> exists s, digits s /\ s <> [] /\ matches es (d ++ s).
Proof.
  intros Hsat. revert d. induction Hsat as [|e es He Hsat IH]; intros d.
  - destruct d; cbn; (split; [done|]); intros (s & _ & Hn & H); inversion H; by subst.
  - destruct (satisfiable_matches (e :: es)) as (s0 & Hs0 & Hm0 & Hn0); [by constructor|].
    destruct e as [p| |], d as [|c d]; cbn -[app]; try (split; [|done]; intros _; exists s0; split_and!; auto; done).
    + cbn. destruct (p c) eqn:Ep.
      * rewrite IH. split; intros (s & Hs & Hn & H); exists s; (split_and!; [done|done|]); [by constructor|by inversion H].
      * split; [done|]. intros (s & _ & _ & H). inversion H. congruence.
    + split; [|done]. intros _. exists [49]. split_and!; [by repeat constructor|done|constructor].
Qed.

(** C24: matching a pattern is membership in its language.  For a pattern with
    closed, satisfiable sets, and with dashes in the data ignored: the exact
    match succeeds exactly when the data is in the language of the pattern; the
    "can match" query succeeds exactly when some further digits (maybe none)
    complete it; the "match more" query exactly when some further digits, at
    least one, do. *)
Theorem pattern_match p es d :
  cstr p -> cstr d -> deref d <> c_under -> parse_pattern p = Some es -> satisfiable es ->
  exists exact can more,
    extension_match_core_ (c_under :: p) d E_MATCH = Some exact /\
    extension_match_core_ (c_under :: p) d E_CANMATCH = Some can /\
    extension_match_core_ (c_under :: p) d E_MATCHMORE = Some more /\
    (exact <> 0 <-> matches es (undash d)) /\
    (can <> 0 <-> exists s, digits s /\ matches es (undash d ++ s)) /\
    (more <> 0 <-> exists s, digits s /\ s <> [] /\ matches es (undash d ++ s)).
Proof.
  intros Hp Hd Hu Hes Hsat. unfold extension_match_core_. cbn [deref tail].
  rewrite (proj2 (Z.eqb_neq (deref d) c_under)), !andb_false_r by done. cbn [Z.eqb negb Pos.eqb].
  eexists _, _, _. split_and!; [done..| | |]; rewrite (match_loop_outcome _ _ _ _ _ Hd Hp Hes).
  - apply outcome_match.
  - by apply outcome_can.
  - by apply outcome_more.
Qed.

(** ** The order of extensions *)

(** A string of 7-bit characters. *)
Definition ascii7 (s : str) : Prop := Forall (fun c => 1 <= c <= 127) s.

Lemma ascii7_cstr s : ascii7 s -> cstr s.
Proof. intros H. eapply Forall_impl; [exact H|]. cbn. lia. Qed.

Lemma split_close_ascii7 s body after : ascii7 s -> split_close s = Some (body, after) ->
  ascii7 body /\ ascii7 after /\ (length after < length s)%nat.
Proof.
  intros Hs. revert body. induction Hs as [|c s Hc Hs IH]; intros body E; cbn in E; [done|].
  destruct (c =? c_close); [simplify_eq; split_and!; [constructor|done|cbn; lia]|].
  destruct (split_close s) as [[b a]|]; simplify_eq. destruct (IH b eq_refl) as (H1 & H2 & H3).
  split_and!; [by constructor|done|cbn; lia].
Qed.

(** State of the set loop: table of 32 bytes, a count in the upper bytes, and a
    lowest character that fits the lower byte. *)
Definition set_ok (st : list Z * Z * Z) : Prop :=
  let '(bitwise, count, cmin) := st in length bitwise = 32%nat /\ count mod 256 = 0 /\ 0 < cmin < 256.

Lemma add_range_ok n c1 bitwise count bitwise' count' : length bitwise = 32%nat -> count mod 256 = 0 ->
  add_range n c1 bitwise count = (bitwise', count') -> length bitwise' = 32%nat /\ count' mod 256 = 0.
Proof.
  revert c1 bitwise count. induction n as [|n IH]; intros c1 bitwise count Hb Hc E; cbn [add_range] in E; [by simplify_eq|].
  destruct (negb _); [|by eapply IH].
  eapply IH; [| |exact E].
  - unfold bit_set. by rewrite length_insert.
  - rewrite Z.add_mod, Hc by lia. done.
Qed.

Lemma u8_ascii c : 1 <= c <= 127 -> u8 c = c.
Proof. intros Hc. apply wrapu_id. unfold in_u. lia. Qed.

Lemma add_chars_ok c1 c2 st : 1 <= c1 <= 127 -> 1 <= c2 <= 127 -> set_ok st ->
  exists st', add_chars c1 c2 st = Some st' /\ set_ok st'.
Proof.
  intros H1 H2. destruct st as [[b n] m]. intros (Hb & Hn & Hm). unfold add_chars. rewrite !u8_ascii by done.
  rewrite (proj2 (Z.eqb_neq c2 255)) by lia. destruct (add_range _ _ _ _) as [b' n'] eqn:E.
  destruct (add_range_ok _ _ _ _ _ _ Hb Hn E). eexists. split; [done|]. split_and!; try done; case_if; lia.
Qed.

Lemma add_set_ok body st : ascii7 body -> set_ok st -> exists st', add_set body st = Some st' /\ set_ok st'.
Proof.
  revert st. induction body as [body IH] using (induction_ltof1 _ (@length Z)). unfold ltof in IH.
  intros st Hb Hs. destruct body as [|c1 [|d [|c2 rest]]].
  - by exists st.
  - cbn [add_set]. inversion_clear Hb as [|? ? H1 _].
    destruct (add_chars_ok c1 c1 st H1 H1 Hs) as (st' & -> & Hs'). by exists st'.
  - cbn [add_set]. inversion_clear Hb as [|? ? H1 Hb']. inversion_clear Hb' as [|? ? H2 _].
    destruct (add_chars_ok c1 c1 st H1 H1 Hs) as (st' & -> & Hs').
    destruct (add_chars_ok d d st' H2 H2 Hs') as (st'' & -> & Hs''). by exists st''.
  - inversion_clear Hb as [|? ? H1 Hb']. inversion Hb' as [|? ? H2 Hb'']; subst.
    inversion Hb'' as [|? ? H3 Hb3]; subst. cbn [add_set]. destruct (d =? c_dash).
    + destruct (add_chars_ok c1 c2 st H1 H3 Hs) as (st' & -> & Hs'). apply IH; [cbn; lia|done|done].
    + destruct (add_chars_ok c1 c1 st H1 H1 Hs) as (st' & -> & Hs'). apply (IH (d :: c2 :: rest)); [cbn; lia|done|done].
Qed.

Lemma lor_low a b : a mod 256 = 0 -> 0 < b < 256 -> Z.lor a b mod 256 = b.
Proof.
  intros Ha Hb. assert (H : forall x, x mod 256 = Z.land x (Z.ones 8)) by (intros; symmetry; apply Z.land_ones; lia).
  rewrite H, Z.land_lor_distr_l, <- !H, Ha, Z.lor_0_l. apply Z.mod_small. lia.
Qed.

(** On 7-bit strings [ext_cmp_pattern_pos] returns, consumes, and scores the end of
    the pattern unlike anything else. *)
Lemma pattern_pos_ok fuel p bitwise : ascii7 p -> (length p < fuel)%nat -> length bitwise = 32%nat ->
  exists pos rest bitwise', pattern_pos fuel p bitwise = Some (pos, rest, bitwise') /\ length bitwise' = 32%nat /\
    match rest with
    | Some r => (length r < length p)%nat /\ ascii7 r /\ pos <> 0x30000
    | None => pos = 0x30000
    end.
Proof.
  revert p bitwise. induction fuel as [|fuel IH]; intros p bitwise Hp Hf Hb; [lia|]. cbn [pattern_pos].
  destruct Hp as [|c p Hc Hp]; [by eexists _, _, _|]. cbn [length] in Hf.
  assert (Hsub : forall q b, ascii7 q -> (length q <= length p)%nat -> length b = 32%nat ->
    exists pos rest bitwise', pattern_pos fuel q b = Some (pos, rest, bitwise') /\ length bitwise' = 32%nat /\
    match rest with
    | Some r => (length r < length (c :: p))%nat /\ ascii7 r /\ pos <> 0x30000
    | None => pos = 0x30000
    end).
  { intros q b Hq Hlq Hlb. destruct (IH q b Hq ltac:(lia) Hlb) as (pos & rest & b' & E & Hb' & Hr).
    exists pos, rest, b'. split_and!; [done..|]. destruct rest; [|done]. destruct Hr as (? & ? & ?). split_and!; [cbn; lia|done..]. }
  case_if; [by apply Hsub|].
  do 5 (case_if; [eexists _, _, _; split; [done|]; split; [by rewrite ?length_insert|];
                  split_and!; [cbn; lia|done|done]|]).
  case_if.
  - eexists _, _, _. split; [done|]. split; [by rewrite length_insert|]. split_and!; [cbn; lia|done|].
    rewrite u8_ascii by done. intros E'. apply (f_equal (fun z => z mod 256)) in E'. rewrite lor_low in E' by (done || lia). change (0x30000 mod 256) with 0 in E'. lia.
  - destruct (split_close p) as [[body after]|] eqn:Ec.
    2:{ eexists _, _, _. split; [done|]. split; [done|]. split_and!; [cbn; lia|done|done]. }
    destruct (split_close_ascii7 _ _ _ Hp Ec) as (Hbody & Hafter & Hlen).
    destruct (add_set_ok body (bitwise, 0, 0xFF) Hbody) as ([[b' n'] m'] & -> & Hb' & Hn' & Hm'); [by split_and!|].
    case_if; [apply Hsub; done || lia|]. eexists _, _, _. split; [done|]. split; [done|]. split_and!; [cbn; lia|done|].
    intros E'. apply (f_equal (fun z => z mod 256)) in E'. rewrite lor_low in E' by done. change (0x30000 mod 256) with 0 in E'. lia.
Qed.

(** A position of a pattern: its score, then its set (compared in reverse). *)
Definition token_compare : Z * list Z -> Z * list Z -> comparison :=
  pair_compare Z.compare (flip_compare (lex_compare Z.compare)).

(** The positions of a pattern, the end included. *)
Fixpoint tokens (fuel : nat) (p : str) : list (Z * list Z) :=
  match fuel with
  | O => []
  | S fuel =>
      match ext_cmp_pattern_pos p with
      | Some (pos, Some rest, bitwise) => (pos, bitwise) :: tokens fuel rest
      | Some (pos, None, bitwise) => [(pos, bitwise)]
      | None => []
      end
  end.

Lemma memcmp_lex a b : length a = length b -> memcmp a b = sign_of (lex_compare Z.compare a b).
Proof.
  revert b. induction a as [|x a IH]; intros [|y b] Hl; cbn; try done.
  destruct (Z.compare_spec x y).
  - subst. rewrite Z.ltb_irrefl. apply IH. by injection Hl.
  - by rewrite (proj2 (Z.ltb_lt x y)).
  - rewrite (proj2 (Z.ltb_ge x y)), (proj2 (Z.ltb_lt y x)) by lia. done.
Qed.

Lemma pos_spec p : ascii7 p -> exists pos rest bitwise,
  ext_cmp_pattern_pos p = Some (pos, rest, bitwise) /\ length bitwise = 32%nat /\
  match rest with
  | Some r => (length r < length p)%nat /\ ascii7 r /\ pos <> 0x30000
  | None => pos = 0x30000
  end.
Proof. intros Hp. apply pattern_pos_ok; [done|lia|done]. Qed.

(** More fuel than characters changes nothing. *)
Lemma tokens_fuel f1 f2 p : ascii7 p -> (length p < f1)%nat -> (length p < f2)%nat -> tokens f1 p = tokens f2 p.
Proof.
  revert f2 p. induction f1 as [|f1 IH]; intros [|f2] p Hp H1 H2; try lia. cbn [tokens].
  destruct (pos_spec p Hp) as (pos & [rest|] & b & -> & _ & Hr); [|done].
  destruct Hr as (Hl & Hr & _). f_equal. apply IH; [done|lia..].
Qed.

Lemma sgn_sign c : Z.sgn (sign_of c) = sign_of c.
Proof. by destruct c. Qed.

(** [ext_cmp_pattern] compares the positions lexicographically. *)
Lemma cmp_pattern_loop_spec fuel l r : ascii7 l -> ascii7 r -> (length l < fuel)%nat ->
  exists z, cmp_pattern_loop fuel l r = Some z /\
    Z.sgn z = sign_of (lex_compare token_compare (tokens (S (length l)) l) (tokens (S (length r)) r)).
Proof.
  revert l r. induction fuel as [|fuel IH]; intros l r Hl Hr Hf; [lia|]. cbn [cmp_pattern_loop tokens].
  destruct (pos_spec l Hl) as (pl & rl & bl & -> & Hbl & Hrl).
  destruct (pos_spec r Hr) as (pr & rr & br & -> & Hbr & Hrr).
  assert (Htok : forall tl tr, lex_compare token_compare ((pl, bl) :: tl) ((pr, br) :: tr) =
    match (pl ?= pr) with
    | Eq => match lex_compare Z.compare br bl with Eq => lex_compare token_compare tl tr | c => c end
    | c => c
    end).
  { intros. cbn [lex_compare]. unfold token_compare at 1, pair_compare, flip_compare. cbn [fst snd]. by destruct (pl ?= pr). }
  assert (Hmem : memcmp br bl = sign_of (lex_compare Z.compare br bl)) by (apply memcmp_lex; lia).
  destruct (Z.eqb_spec (pl - pr) 0) as [He|Hne].
  - assert (pl = pr) as -> by lia. rewrite Hmem. setoid_rewrite Z.compare_refl in Htok.
    destruct (lex_compare Z.compare br bl) eqn:El; cbn [sign_of Z.eqb negb] in *.
    + destruct rl as [rl|], rr as [rr|]; try (destruct Hrl as (_ & _ & Hrl) || destruct Hrr as (_ & _ & Hrr); congruence).
      * destruct Hrl as (Hll & Hrl & _), Hrr as (Hlr & Hrr & _). rewrite Htok.
        destruct (IH rl rr Hrl Hrr ltac:(lia)) as (z & Hz & Hs). exists z. split; [done|].
        rewrite (tokens_fuel (length l) (S (length rl))), (tokens_fuel (length r) (S (length rr))) by (done || lia). done.
      * exists 0. rewrite Htok. done.
    + exists (-1). split; [done|]. destruct rl, rr; by rewrite Htok.
    + exists 1. split; [done|]. destruct rl, rr; by rewrite Htok.
  - rewrite (proj2 (Z.eqb_neq (pl - pr) 0)) by done. cbn [negb]. exists (pl - pr). split; [done|].
    assert (Hc : forall tl tr, lex_compare token_compare ((pl, bl) :: tl) ((pr, br) :: tr) = (pl ?= pr)).
    { intros. rewrite Htok. destruct (Z.compare_spec pl pr); [lia|done|done]. }
    destruct rl, rr; by rewrite Hc, sign_of_compare.
Qed.

(** What an extension is ordered by: literal numbers by their digits, before
    patterns, which are ordered by their positions. *)
Definition ext_key (s : str) : list Z + list (Z * list Z) :=
  if deref s =? c_under then inr (tokens (length s) (tail s)) else inl (undash s ++ [0]).

Definition key_compare := sum_compare (lex_compare Z.compare) (lex_compare token_compare).

Lemma strcmp_lex l r : cstr l -> cstr r ->
  Z.sgn (strcmp l r) = sign_of (lex_compare Z.compare (l ++ [0]) (r ++ [0])).
Proof.
  intros Hl. revert r. induction Hl as [|c l Hc Hl IH]; intros r Hr; destruct Hr as [|d r Hd Hr];
    cbn [strcmp lex_compare app]; try done.
  - destruct (Z.compare_spec 0 d); cbn [sign_of]; lia.
  - destruct (Z.compare_spec c 0); cbn [sign_of]; lia.
  - destruct (Z.compare_spec c d).
    + subst. by rewrite Z.eqb_refl, IH.
    + rewrite (proj2 (Z.eqb_neq c d)) by lia. cbn [sign_of]. lia.
    + rewrite (proj2 (Z.eqb_neq c d)) by lia. cbn [sign_of]. lia.
Qed.

Lemma ast_extension_cmp_key a b : ascii7 a -> ascii7 b ->
  ast_extension_cmp a b = Some (sign_of (key_compare (ext_key a) (ext_key b))).
Proof.
  intros Ha Hb. unfold ast_extension_cmp, ext_cmp, ext_key.
  assert (Hsgn : forall z, (if z <? 0 then -1 else if z >? 0 then 1 else 0) = Z.sgn z).
  { intros z. rewrite Z.gtb_ltb. destruct (Z.ltb_spec z 0), (Z.ltb_spec 0 z); lia. }
  destruct (deref a =? c_under) eqn:Ea, (deref b =? c_under) eqn:Eb; cbn [negb]; try done.
  - destruct Ha as [|ca a Hca Ha]; [done|]. destruct Hb as [|cb b Hcb Hb]; [done|]. cbn [tail length].
    unfold ext_cmp_pattern. destruct (cmp_pattern_loop_spec (S (length a)) a b Ha Hb ltac:(lia)) as (z & -> & Hz).
    rewrite Hsgn, Hz. done.
  - rewrite Hsgn, ext_cmp_exten_spec by (by apply ascii7_cstr).
    rewrite strcmp_lex by (by apply cstr_undash, ascii7_cstr). done.
Qed.

Lemma key_total : TotalCompare key_compare.
Proof.
  pose proof (lex_total Z.compare). pose proof (flip_total (lex_compare Z.compare)).
  pose proof (pair_total Z.compare (flip_compare (lex_compare Z.compare))).
  pose proof (lex_total token_compare). exact (sum_total _ _).
Qed.

(** The order the dialplan sorts extensions by is a total preorder: on 7-bit
    strings [ast_extension_cmp] always returns; exchanging the arguments negates
    the result; and "not after" is transitive. *)
Theorem ast_extension_cmp_total_preorder a b c :
  ascii7 a -> ascii7 b -> ascii7 c ->
  exists ab bc ac,
    ast_extension_cmp a b = Some ab /\ ast_extension_cmp b a = Some (- ab) /\
    ast_extension_cmp b c = Some bc /\ ast_extension_cmp a c = Some ac /\
    (ab <= 0 -> bc <= 0 -> ac <= 0) /\ (ab = 0 -> ac = bc).
Proof.
  intros Ha Hb Hc. pose proof key_total as HT. rewrite !ast_extension_cmp_key by done.
  generalize (ext_key a) (ext_key b) (ext_key c). intros ka kb kc.
  eexists _, _, _. split; [done|]. split; [|split; [done|split; [done|split]]].
  - rewrite (compare_opp ka kb). by destruct (key_compare ka kb).
  - destruct (key_compare ka kb) eqn:E1; [apply compare_eq in E1 as ->; done| |done].
    destruct (key_compare kb kc) eqn:E2; [apply compare_eq in E2 as <-; by rewrite E1| |done].
    by rewrite (compare_trans _ _ _ E1 E2).
  - destruct (key_compare ka kb) eqn:E1; [apply compare_eq in E1 as ->; done|done|done].
Qed.

(** ** Substrings: reference *)

Abbreviation zlen l := (Z.of_nat (length l)).

(** The substring that starts at [offset] (from the end if negative) and has
    [len] characters (or stops [-len] before the end if negative). *)
Definition slice (s : str) (offset len : Z) : str :=
  let n := zlen s in
  let start := if offset <? 0 then Z.max 0 (n + offset) else Z.min offset n in
  let stop := if len <? 0 then Z.max start (n + len) else Z.min n (start + len) in
  take (Z.to_nat (stop - start)) (drop (Z.to_nat start) s).

Lemma cut_at_in s i : 0 <= i <= zlen s -> cut_at s i = Some (take (Z.to_nat i) s).
Proof. intros Hi. unfold cut_at. by rewrite !(proj2 (Z.leb_le _ _)) by lia. Qed.

Lemma slice_whole s len : zlen s <= len -> slice s 0 len = s.
Proof.
  intros Hl. unfold slice. cbn [Z.ltb Z.compare]. rewrite (proj2 (Z.ltb_ge len 0)) by lia.
  rewrite (Z.min_l 0) by lia. rewrite drop_0. apply take_ge. lia.
Qed.

Lemma slice_past s offset len : zlen s <= offset -> slice s offset len = [].
Proof.
  intros Ho. unfold slice. rewrite (proj2 (Z.ltb_ge offset 0)) by lia. rewrite (Z.min_r offset) by lia.
  rewrite drop_ge by lia. by rewrite take_nil.
Qed.

Lemma slice_at s offset len start : start = (if offset <? 0 then Z.max 0 (zlen s + offset) else offset) ->
  0 <= start < zlen s ->
  slice s offset len = take (Z.to_nat (if len <? 0 then Z.max 0 (zlen s - start + len) else Z.min (zlen s - start) len))
                            (drop (Z.to_nat start) s).
Proof.
  intros -> Hs. unfold slice. set (st := if offset <? 0 then _ else Z.min offset _).
  assert (st = if offset <? 0 then Z.max 0 (zlen s + offset) else offset) as -> by (unfold st; case_if; lia).
  f_equal. f_equal. repeat case_if; lia.
Qed.

Lemma norm_offset n offset : (if offset <? 0 then (if n + offset <? 0 then 0 else n + offset) else offset) =
  (if offset <? 0 then Z.max 0 (n + offset) else offset).
Proof. repeat case_if; lia. Qed.

Lemma substring_slice v offset len w : zlen v - 2 ^ 31 <= len -> zlen v < 2 ^ 31 ->
  substring v offset len w = Some (slice (take (w - 1) v) offset len).
Proof.
  intros Hl Hv. unfold substring. assert (Hle : zlen (take (w - 1) v) <= zlen v) by (rewrite length_take; lia).
  set (s := take (w - 1) v) in *. rewrite norm_offset.
  destruct ((offset =? 0) && (len >=? zlen s)) eqn:Eq.
  { zb. subst. by rewrite slice_whole. }
  set (start := if offset <? 0 then _ else offset).
  destruct (Z.geb_spec start (zlen s)) as [Hs|Hs].
  { unfold start in *. destruct (offset <? 0) eqn:Eo; zb; [|by rewrite slice_past].
    assert (zlen s = 0) by lia. destruct s; [|cbn in *; lia]. unfold slice. by rewrite drop_nil, take_nil. }
  assert (Hst : 0 <= start) by (unfold start; case_if; lia).
  rewrite (slice_at s offset len start) by (done || lia). clear Eq.
  assert (Hd : zlen (drop (Z.to_nat start) s) = zlen s - start) by (rewrite length_drop; lia).
  destruct (Z.ltb_spec len 0) as [Hn|Hn].
  - rewrite Z.geb_leb, (proj2 (Z.leb_gt 0 len)) by lia. cbn [andb].
    rewrite wraps_id by (unfold in_s; lia). destruct (Z.gtb_spec (zlen s) (start - len)).
    + rewrite cut_at_in by lia. f_equal. f_equal. lia.
    + rewrite cut_at_in by lia. f_equal. f_equal. lia.
  - rewrite Z.geb_leb, (proj2 (Z.leb_le 0 len)) by lia. cbn [andb].
    destruct (Z.ltb_spec len (zlen s - start)).
    + rewrite cut_at_in by lia. f_equal. f_equal. lia.
    + rewrite take_ge by lia. done.
Qed.

Lemma ast_str_substring_slice v offset len : zlen v - 2 ^ 31 <= len -> zlen v < 2 ^ 31 -> - 2 ^ 31 < len ->
  ast_str_substring v offset len = Some (slice v offset len).
Proof.
  intros Hl Hv Hmin. unfold ast_str_substring. rewrite norm_offset.
  destruct ((offset =? 0) && (len >=? zlen v)) eqn:Eq.
  { zb. subst. by rewrite slice_whole. }
  set (start := if offset <? 0 then _ else offset).
  destruct (Z.geb_spec start (zlen v)) as [Hs|Hs].
  { unfold start in *. destruct (offset <? 0) eqn:Eo; zb; [|by rewrite slice_past].
    assert (zlen v = 0) by lia. destruct v; [|cbn in *; lia]. unfold slice. by rewrite drop_nil, take_nil. }
  assert (Hst : 0 <= start) by (unfold start; case_if; lia).
  rewrite (slice_at v offset len start) by (done || lia). clear Eq.
  replace (if start >? 0 then drop (Z.to_nat start) v else v) with (drop (Z.to_nat start) v)
    by (case_if; [done|]; assert (start = 0) as -> by lia; by rewrite drop_0).
  replace (if start >? 0 then zlen v - start else zlen v) with (zlen v - start) by (case_if; lia).
  assert (Hd : zlen (drop (Z.to_nat start) v) = zlen v - start) by (rewrite length_drop; lia).
  destruct (Z.ltb_spec len 0) as [Hn|Hn].
  - rewrite Z.geb_leb, (proj2 (Z.leb_gt 0 len)) by lia. cbn [andb].
    rewrite wraps_id by (unfold in_s; lia). destruct (Z.gtb_spec (zlen v - start) (- len)).
    + rewrite cut_at_in by lia. f_equal. f_equal. lia.
    + by replace (Z.to_nat (Z.max 0 (zlen v - start + len))) with 0%nat by lia.
  - rewrite Z.geb_leb, (proj2 (Z.leb_le 0 len)) by lia. cbn [andb].
    destruct (Z.ltb_spec len (zlen v - start)).
    + rewrite cut_at_in by lia. f_equal. f_equal. lia.
    + rewrite take_ge by lia. done.
Qed.

(** The two substring routines compute the same, intended substring: a negative
    offset counts from the end, a negative length leaves characters off the
    end, anything out of range is clamped; [substring] first truncates to its
    workspace.  Nothing is written out of bounds, for every length above
    [INT_MIN] plus the length of the value. *)
Theorem substring_correct v offset len w :
  zlen v < 2 ^ 31 -> zlen v - 2 ^ 31 <= len -> - 2 ^ 31 < len ->
  substring v offset len w = Some (slice (take (w - 1) v) offset len) /\
  ast_str_substring v offset len = Some (slice v offset len).
Proof. intros Hv Hl Hm. split; [by apply substring_slice|by apply ast_str_substring_slice]. Qed.

(** A length of [INT_MIN] overflows: both routines then write far before the
    start of the value. *)
Theorem substring_int_min v offset w :
  0 <= offset < zlen v -> offset < Z.of_nat (w - 1) -> zlen v < 2 ^ 31 ->
  substring v offset (- 2 ^ 31) w = None /\ ast_str_substring v offset (- 2 ^ 31) = None.
Proof.
  intros Ho Hw Hv. unfold substring, ast_str_substring. rewrite length_take. rewrite (proj2 (Z.ltb_ge offset 0)) by lia.
  assert (Hge : forall n, 0 <= n -> (- 2 ^ 31 >=? n) = false) by (intros; rewrite Z.geb_leb; apply Z.leb_gt; lia).
  rewrite !Hge, !andb_false_r by lia. cbn [andb].
  destruct (Z.geb_spec offset (zlen v)), (Z.geb_spec offset (Z.of_nat (Nat.min (w - 1) (length v)))); try lia.
  change (- 2 ^ 31 <? 0) with true. cbn iota. split.
  - replace (s32 (offset - - 2 ^ 31)) with (offset - 2 ^ 31).
    2:{ unfold wraps. replace (offset - - 2 ^ 31 + 2 ^ (32 - 1)) with (offset + 1 * 2 ^ 32) by lia.
        rewrite Z.mod_add, Z.mod_small by lia. lia. }
    destruct (Z.gtb_spec (Z.of_nat (Nat.min (w - 1) (length v))) (offset - 2 ^ 31)); [|lia].
    unfold cut_at. by rewrite (proj2 (Z.leb_gt 0 _)) by lia.
  - change (s32 (- - 2 ^ 31)) with (- 2 ^ 31).
    assert (Hpos : (if offset >? 0 then zlen v - offset else zlen v) > 0) by (case_if; lia).
    destruct (Z.gtb_spec (if offset >? 0 then zlen v - offset else zlen v) (- 2 ^ 31)); [|lia].
    unfold cut_at. rewrite (proj2 (Z.leb_gt 0 _)); [done|]. case_if; lia.
Qed.

(** ** Witnesses *)

(** The pattern 1-2[3-5]X! without its leading underscore. *)
Definition ex_pattern : str := [49; 45; 50; 91; 51; 45; 53; 93; 88; 33].

Lemma literal_match_witness :
  extension_match_core_ [57; 49; 49] [57; 45; 49] E_MATCHMORE = Some 1 /\
  undash [57; 45; 49] `prefix_of` undash [57; 49; 49].
Proof.
  destruct (literal_match [57; 49; 49] [57; 45; 49]) as (_ & H & _ & _);
    [by repeat constructor|by repeat constructor|done|].
  split; [done|]. apply H. done.
Defined.

Lemma pattern_match_witness : exists es, parse_pattern ex_pattern = Some es /\ matches es (undash [49; 50; 52; 45; 55; 56]).
Proof.
  eexists. split; [done|].
  match goal with |- matches ?es _ =>
    destruct (pattern_match ex_pattern es [49; 50; 52; 45; 55; 56]) as (exact_ & can & more & E & _ & _ & H & _) end.
  - by repeat constructor.
  - by repeat constructor.
  - done.
  - done.
  - repeat constructor; [exists 49|exists 50|exists 51|exists 48]; done.
  - apply H. assert (exact_ = 2) as -> by (cut (Some exact_ = Some 2); [congruence|rewrite <- E; done]). done.
Defined.

Lemma ast_extension_cmp_total_preorder_witness : exists ac,
  ast_extension_cmp [49; 48] (95 :: ex_pattern) = Some ac /\ ac <= 0.
Proof.
  destruct (ast_extension_cmp_total_preorder [49; 48] [95; 49; 49] (95 :: ex_pattern))
    as (ab & bc & ac & E1 & _ & E2 & E3 & H & _); [repeat constructor; lia..|].
  exists ac. split; [exact E3|]. apply H.
  - assert (ab = -1) as -> by (cut (Some ab = Some (-1)); [congruence|rewrite <- E1; done]). lia.
  - assert (bc = -1) as -> by (cut (Some bc = Some (-1)); [congruence|rewrite <- E2; by vm_compute]). lia.
Defined.

Lemma substring_correct_witness :
  ast_str_substring [104; 101; 108; 108; 111] (-3) (-1) = Some (slice [104; 101; 108; 108; 111] (-3) (-1)) /\
  slice [104; 101; 108; 108; 111] (-3) (-1) = [108; 108].
Proof. split; [apply (substring_correct [104; 101; 108; 108; 111] (-3) (-1) 10); cbn; lia|done]. Defined.

Lemma substring_int_min_witness : substring [104; 105] 0 (- 2 ^ 31) 10 = None.
Proof. apply (substring_int_min [104; 105] 0 10); cbn; lia. Defined.
