(* ===== verification/Codec.v ===== *)
(** * Text encodings: [main/utils.c]

    Base 64, URI escapes, quoted strings of SIP messages and XML entities.  The
    encoders write into a buffer of given size; what they write is the list of
    the characters before the final NUL.  Characters are signed, bytes are
    unsigned. *)

From S2P Require Import Prelude.
From Stdlib Require Import ZArith Lia.
From stdpp Require Import base list numbers sets.

#[local] Open Scope Z_scope.

(** ** Base 64 *)

(** The tables of [base64_init]. *)
Definition base64 (x : Z) : Z :=
  if x <? 26 then 65 + x else if x <? 52 then 97 + (x - 26) else if x <? 62 then 48 + (x - 52)
  else if x =? 62 then 43 else 47.

Definition b2a (c : Z) : Z :=
  if (65 <=? c) && (c <=? 90) then c - 65
  else if (97 <=? c) && (c <=? 122) then c - 97 + 26
  else if (48 <=? c) && (c <=? 57) then c - 48 + 52
  else if c =? 43 then 62 else if c =? 47 then 63 else -1.

(** The loop of [ast_base64decode]; [cnt] bytes are out already. [None] is a read
    outside the table, by a negative character. *)
Fixpoint base64_decode_loop (src : str) (max cnt byte bits : Z) (dst : list Z) : option (list Z) :=
  match src with
  | [] => Some dst
  | c :: src =>
      if (c =? 61) || negb (cnt <? max) then Some dst
      else if c <? 0 then None
      else
        let byte := Z.lor (u32 (Z.shiftl byte 6)) (Z.land (b2a c) 0x3f) in
        let bits := bits + 6 in
        if bits >=? 8 then
          let bits := bits - 8 in
          base64_decode_loop src max (cnt + 1) byte bits (dst ++ [Z.land (Z.shiftr byte bits) 0xff])
        else base64_decode_loop src max cnt byte bits dst
  end.

Definition ast_base64decode (src : str) (max : Z) : option (list Z) := base64_decode_loop src max 0 0 0 [].

(** The loop of [ast_base64encode_full], with the state it leaves: the characters
    written, the column, the pending bits and their number. *)
Fixpoint base64_encode_loop (src : list Z) (max : Z) (linebreaks : bool) (dst : str) (col byte bits : Z)
    : str * Z * Z :=
  match src with
  | [] => (dst, byte, bits)
  | x :: src =>
      if negb (Z.of_nat (length dst) <? max) then (dst, byte, bits)
      else
        let byte := Z.lor (u32 (Z.shiftl byte 8)) x in
        let bits := bits + 8 in
        let '(dst, col, byte, bits) :=
          if (bits =? 24) && (Z.of_nat (length dst) + 4 <=? max) then
            (dst ++ [base64 (Z.land (Z.shiftr byte 18) 0x3f); base64 (Z.land (Z.shiftr byte 12) 0x3f);
                     base64 (Z.land (Z.shiftr byte 6) 0x3f); base64 (Z.land byte 0x3f)],
             col + 4, 0, 0)
          else (dst, col, byte, bits) in
        let '(dst, col) :=
          if linebreaks && (Z.of_nat (length dst) <? max) && (col =? 64) then (dst ++ [10], 0) else (dst, col) in
        base64_encode_loop src max linebreaks dst col byte bits
  end.

Definition ast_base64encode_full (src : list Z) (max : Z) (linebreaks : bool) : str :=
  let max := max - 1 in
  let '(dst, byte, bits) := base64_encode_loop src max linebreaks [] 0 0 0 in
  let dst :=
    if negb (bits =? 0) && (Z.of_nat (length dst) + 4 <=? max) then
      let byte := u32 (Z.shiftl byte (24 - bits)) in
      dst ++ [base64 (Z.land (Z.shiftr byte 18) 0x3f); base64 (Z.land (Z.shiftr byte 12) 0x3f);
              if bits =? 16 then base64 (Z.land (Z.shiftr byte 6) 0x3f) else 61; 61]
    else dst in
  if linebreaks && (Z.of_nat (length dst) <? max) then dst ++ [10] else dst.

Definition ast_base64encode (src : list Z) (max : Z) : str := ast_base64encode_full src max false.

(** ** Escapes *)

Definition hex_digit (x : Z) : Z := if x <? 10 then 48 + x else 55 + x.

(** [strchr(set, c)] for a character other than NUL. *)
Definition in_set (set : str) (c : Z) : bool := existsb (Z.eqb c) set.

(** The marks -_.!~*'() of RFC 2396. *)
Definition mark : str := [45; 95; 46; 33; 126; 42; 39; 40; 41].

Definition uri_escaped (special : bool) (c : Z) : bool :=
  (c <? 32) || (c =? 0x7f) || (c =? 37) ||
  (special && negb ((48 <=? c) && (c <=? 57)) && negb ((65 <=? c) && (c <=? 90)) &&
   negb ((97 <=? c) && (c <=? 122)) && negb (in_set mark c)).

(** [ast_uri_encode]; [out] is what is in the buffer. *)
Fixpoint uri_encode_loop (s : str) (buflen : Z) (special : bool) (out : str) : str :=
  match s with
  | [] => out
  | c :: s =>
      if negb (Z.of_nat (length out) <? buflen - 1) then out
      else if uri_escaped special c then
        if Z.of_nat (length out) >=? buflen - 3 then out
        else uri_encode_loop s buflen special (out ++ [37; hex_digit (u8 c / 16); hex_digit (u8 c mod 16)])
      else uri_encode_loop s buflen special (out ++ [c])
  end.

Definition ast_uri_encode (s : str) (buflen : Z) (special : bool) : str := uri_encode_loop s buflen special [].

(** The value of a hexadecimal digit. *)
Definition unhex (c : Z) : option Z :=
  if (48 <=? c) && (c <=? 57) then Some (c - 48)
  else if (65 <=? c) && (c <=? 70) then Some (c - 55)
  else if (97 <=? c) && (c <=? 102) then Some (c - 87)
  else None.

Section uri_decode.
(** [sscanf(s, "%2x", &tmp)] on a string that does not start with two hexadecimal
    digits (spaces, signs, a 0x prefix or a single digit). *)
Variable scan_other : str -> option Z.

Definition scan_2x (s : str) : option Z :=
  match s with
  | a :: b :: _ =>
      match unhex a, unhex b with
      | Some x, Some y => Some (16 * x + y)
      | _, _ => scan_other s
      end
  | _ => scan_other s
  end.

(** [ast_uri_decode]; the value is stored in a [char]. *)
Fixpoint ast_uri_decode (s : str) : str :=
  match s with
  | [] => []
  | c :: ((a :: b :: rest) as s') =>
      if c =? 37 then
        match scan_2x s' with
        | Some v => s8 v :: ast_uri_decode rest
        | None => c :: ast_uri_decode s'
        end
      else c :: ast_uri_decode s'
  | c :: s' => c :: ast_uri_decode s'
  end.
End uri_decode.

(** The characters a quoted string leaves alone. *)
Definition quoted_plain (c : Z) : bool :=
  in_set [9; 11; 32; 33] c || ((35 <=? c) && (c <=? 91)) || ((93 <=? c) && (c <=? 126)) || (u8 c >? 0x7f).

Fixpoint escape_quoted_loop (s : str) (buflen : Z) (out : str) : str :=
  match s with
  | [] => out
  | c :: s =>
      if negb (Z.of_nat (length out) <? buflen - 1) then out
      else if negb (quoted_plain c) then
        if Z.of_nat (length out) >=? buflen - 2 then out
        else escape_quoted_loop s buflen (out ++ [92; c])
      else escape_quoted_loop s buflen (out ++ [c])
  end.

Definition ast_escape_quoted (s : str) (buflen : Z) : str := escape_quoted_loop s buflen [].

(** The entity of a character, if it has one. *)
Definition xml_entity (c : Z) : option str :=
  if c =? 60 then Some [38; 108; 116; 59]
  else if c =? 38 then Some [38; 97; 109; 112; 59]
  else if c =? 62 then Some [38; 103; 116; 59]
  else if c =? 39 then Some [38; 97; 112; 111; 115; 59]
  else if c =? 34 then Some [38; 113; 117; 111; 116; 59]
  else None.

(** [ast_xml_escape]: what is written, and what is left of the string. *)
Fixpoint xml_escape_loop (s : str) (room : Z) (out : str) : str * str :=
  match s with
  | [] => (out, [])
  | c :: s' =>
      if negb (Z.of_nat (length out) <? room) then (out, s)
      else
        match xml_entity c with
        | Some entity =>
            if room - Z.of_nat (length out) <? Z.of_nat (length entity) then (out, s)
            else xml_escape_loop s' room (out ++ entity)
        | None => xml_escape_loop s' room (out ++ [c])
        end
  end.

Definition ast_xml_escape (s : str) (buflen : Z) : Z * option str :=
  if buflen =? 0 then (-1, None)
  else
    let '(out, rest) := xml_escape_loop s (buflen - 1) [] in
    (match rest with [] => 0 | _ => -1 end, Some out).

(** [ast_unescape_c] on memory: the string, its NUL and what follows it. The
    result is the string left in place; [None] if the scan runs off the memory. *)
Fixpoint ast_unescape_c (mem : list Z) : option str :=
  match mem with
  | [] => None
  | c :: mem =>
      if c =? 0 then Some []
      else if negb (c =? 92) then match ast_unescape_c mem with Some out => Some (c :: out) | None => None end
      else
        match mem with
        | [] => None
        | e :: mem =>
            let c := if e =? 0 then 92 else if e =? 98 then 8 else if e =? 102 then 12
                     else if e =? 110 then 10 else if e =? 114 then 13 else if e =? 116 then 9 else e in
            match ast_unescape_c mem with Some out => Some (c :: out) | None => None end
        end
  end.

(** ** Escaping as emission of chunks

    The three escaping encoders write one chunk per character while the chunk fits
    in the room left. *)

Abbreviation zlen l := (Z.of_nat (length l)).

Fixpoint emit (chunk : Z -> str) (s : str) (room : Z) (out : str) : str :=
  match s with
  | [] => out
  | c :: s => if zlen out + zlen (chunk c) <=? room then emit chunk s room (out ++ chunk c) else out
  end.

(** The chunks of the first [n] characters of [s], the most that fit in [room]. *)
Definition fills (chunk : Z -> str) (s : str) (room : Z) (n : nat) (out : str) : Prop :=
  out = concat (chunk <$> take n s) /\ (n <= length s)%nat /\ zlen out <= Z.max 0 room /\
  forall c, s !! n = Some c -> room < zlen out + zlen (chunk c).

Lemma emit_fills chunk s room out : zlen out <= Z.max 0 room ->
  exists n res, emit chunk s room out = out ++ res /\ res = concat (chunk <$> take n s) /\
    (n <= length s)%nat /\ zlen (out ++ res) <= Z.max 0 room /\
    forall c, s !! n = Some c -> room < zlen (out ++ res) + zlen (chunk c).
Proof.
  revert out. induction s as [|c s IH]; intros out Ho; cbn [emit].
  { exists 0%nat, []. rewrite app_nil_r. done. }
  destruct (Z.leb_spec (zlen out + zlen (chunk c)) room) as [Hf|Hf].
  - destruct (IH (out ++ chunk c)) as (n & res & -> & -> & Hn & Hl & Hc); [rewrite length_app; lia|].
    exists (S n), (chunk c ++ concat (chunk <$> take n s)). rewrite <- app_assoc in Hl.
    rewrite <- app_assoc in Hc. rewrite <- app_assoc. cbn [length take fmap list_fmap concat lookup list_lookup].
    by split_and!; [..|lia| |].
  - exists 0%nat, []. rewrite app_nil_r. split_and!; [done|done|cbn; lia|done|]. intros ? [= ->]. lia.
Qed.

Lemma emit_spec chunk s room : exists n, fills chunk s room n (emit chunk s room []).
Proof.
  destruct (emit_fills chunk s room []) as (n & res & -> & H); [cbn; lia|]. exists n. cbn [app] in *.
  destruct H as (? & ? & ? & ?). by split_and!.
Qed.

(** When all the chunks fit everything is written. *)
Lemma fills_all chunk s room n out : fills chunk s room n out ->
  zlen (concat (chunk <$> s)) <= room -> n = length s.
Proof.
  intros (-> & Hn & _ & Hc) Hr. destruct (decide (n = length s)) as [|Hne]; [done|]. exfalso.
  destruct (lookup_lt_is_Some_2 s n) as [c Hlk]; [lia|]. specialize (Hc _ Hlk).
  rewrite <- (take_drop_middle s n c Hlk), fmap_app, concat_app, fmap_cons, length_app in Hr.
  cbn [concat] in Hr. rewrite length_app in Hr. lia.
Qed.

(** A decoder that undoes each chunk undoes the encoding. *)
Lemma decode_chunks (decode : str -> str) (chunk : Z -> str) (ok : Z -> Prop) s :
  decode [] = [] -> (forall c rest, ok c -> decode (chunk c ++ rest) = c :: decode rest) ->
  Forall ok s -> decode (concat (chunk <$> s)) = s.
Proof.
  intros Hnil Hc. induction 1 as [|c s Hok _ IH]; [done|]. cbn [fmap list_fmap concat]. by rewrite Hc, IH.
Qed.

Definition uri_chunk (special : bool) (c : Z) : str :=
  if uri_escaped special c then [37; hex_digit (u8 c / 16); hex_digit (u8 c mod 16)] else [c].

Definition quoted_chunk (c : Z) : str := if quoted_plain c then [c] else [92; c].

Definition xml_chunk (c : Z) : str := match xml_entity c with Some e => e | None => [c] end.

Lemma ast_uri_encode_emit s buflen special :
  ast_uri_encode s buflen special = emit (uri_chunk special) s (buflen - 1) [].
Proof.
  unfold ast_uri_encode. generalize (@nil Z) as out. induction s as [|c s IH]; intros out; [done|].
  cbn [uri_encode_loop emit]. rewrite (eq_refl : uri_chunk special c = if uri_escaped special c then _ else _).
  destruct (uri_escaped special c); cbn [length];
    repeat case_if; first [apply IH|done|lia].
Qed.

Lemma ast_escape_quoted_emit s buflen : ast_escape_quoted s buflen = emit quoted_chunk s (buflen - 1) [].
Proof.
  unfold ast_escape_quoted. generalize (@nil Z) as out. induction s as [|c s IH]; intros out; [done|].
  cbn [escape_quoted_loop emit]. rewrite (eq_refl : quoted_chunk c = if quoted_plain c then _ else _).
  destruct (quoted_plain c); cbn [length negb];
    repeat case_if; first [apply IH|done|lia].
Qed.

Lemma xml_entity_length c e : xml_entity c = Some e -> (4 <= length e)%nat.
Proof. unfold xml_entity. repeat case_if; intros [= <-]; cbn; lia. Qed.

Lemma xml_escape_loop_emit s room out : zlen out <= room ->
  let '(res, rest) := xml_escape_loop s room out in
  res = emit xml_chunk s room out /\ (rest = [] <-> zlen (concat (xml_chunk <$> s)) <= room - zlen out).
Proof.
  revert out. induction s as [|c s IH]; intros out Ho; cbn [xml_escape_loop emit]; [cbn; intuition lia|].
  cbn [fmap list_fmap concat]. rewrite length_app.
  assert (Hstep : forall chunk, zlen (out ++ chunk) <= room ->
    let '(res, rest) := xml_escape_loop s room (out ++ chunk) in
    res = emit xml_chunk s room (out ++ chunk) /\
    (rest = [] <-> Z.of_nat (length chunk + length (concat (xml_chunk <$> s))) <= room - zlen out)).
  { intros chunk Hl. specialize (IH (out ++ chunk) Hl). destruct (xml_escape_loop s room (out ++ chunk)) as [res rest].
    rewrite length_app in IH. split; [apply IH|]. rewrite (proj2 IH). lia. }
  rewrite (eq_refl : xml_chunk c = match xml_entity c with Some e => e | None => [c] end).
  destruct (xml_entity c) as [e|] eqn:He; [apply xml_entity_length in He|]; cbn [length];
    repeat case_if; try (exfalso; lia); 
    first [apply (Hstep e); rewrite length_app; lia|apply (Hstep [c]); rewrite length_app; cbn; lia|idtac];
    (split; [done|]; split; [done|lia]).
Qed.

Lemma ast_xml_escape_emit s buflen : 0 < buflen ->
  ast_xml_escape s buflen =
    (if zlen (concat (xml_chunk <$> s)) <=? buflen - 1 then 0 else -1, Some (emit xml_chunk s (buflen - 1) [])).
Proof.
  intros Hb. unfold ast_xml_escape. rewrite (proj2 (Z.eqb_neq buflen 0)) by lia.
  pose proof (xml_escape_loop_emit s (buflen - 1) [] ltac:(cbn; lia)) as H.
  destruct (xml_escape_loop s (buflen - 1) []) as [res rest]. destruct H as [-> Hr]. f_equal.
  cbn [length] in Hr. rewrite Z.sub_0_r in Hr. destruct (Z.leb_spec (zlen (concat (xml_chunk <$> s))) (buflen - 1)) as [E|E].
  - by rewrite (proj2 Hr E).
  - destruct rest; [|done]. by pose proof (proj1 Hr eq_refl); lia.
Qed.

(** *** Decoders *)

(** A character: not NUL, and in the range of [char]. *)
Definition char_ok (c : Z) : Prop := in_s 8 c /\ c <> 0.

Lemma char_byte c : in_s 8 c -> s8 (16 * (u8 c / 16) + u8 c mod 16) = c /\ 0 <= u8 c / 16 < 16 /\ 0 <= u8 c mod 16 < 16.
Proof.
  intros Hc. pose proof (wrapu_range 8 c ltac:(lia)) as Hu. rewrite <- Z.div_mod by lia. unfold in_s, in_u in *.
  split; [|split; [|apply Z.mod_pos_bound; lia]].
  - unfold wraps, wrapu. rewrite Zplus_mod_idemp_l. rewrite Z.mod_small; lia.
  - split; [apply Z.div_pos; lia|apply Z.div_lt_upper_bound; lia].
Qed.

Lemma unhex_digit x : 0 <= x < 16 -> unhex (hex_digit x) = Some x.
Proof.
  intros Hx. pose proof (range_check (fun x => match unhex (hex_digit x) with Some y => y =? x | None => false end)
    16 x ltac:(by vm_compute) Hx) as H. cbn beta in H. destruct (unhex (hex_digit x)); [|done]. zb. by subst.
Qed.

Lemma uri_decode_chunk scan_other special c rest : char_ok c ->
  ast_uri_decode scan_other (uri_chunk special c ++ rest) = c :: ast_uri_decode scan_other rest.
Proof.
  intros [Hc _]. unfold uri_chunk. destruct (uri_escaped special c) eqn:E.
  - destruct (char_byte c Hc) as (Hs & Hq & Hr). cbn [app ast_uri_decode Z.eqb Pos.eqb].
    unfold scan_2x. rewrite !unhex_digit by done. by rewrite Hs.
  - assert (Hne : c =? 37 = false) by (unfold uri_escaped in E; zb; lia).
    cbn [app]. destruct rest as [|a [|b rest]]; cbn [ast_uri_decode]; by rewrite ?Hne.
Qed.

(** The reader of XML text: the five predefined entities stand for their characters. *)
Fixpoint xml_text (s : str) : str :=
  match s with
  | 38 :: 108 :: 116 :: 59 :: s => 60 :: xml_text s
  | 38 :: 97 :: 109 :: 112 :: 59 :: s => 38 :: xml_text s
  | 38 :: 103 :: 116 :: 59 :: s => 62 :: xml_text s
  | 38 :: 97 :: 112 :: 111 :: 115 :: 59 :: s => 39 :: xml_text s
  | 38 :: 113 :: 117 :: 111 :: 116 :: 59 :: s => 34 :: xml_text s
  | c :: s => c :: xml_text s
  | [] => []
  end.

Lemma xml_text_plain c rest : c <> 38 -> xml_text (c :: rest) = c :: xml_text rest.
Proof.
  intros Hc. destruct c as [|p|]; try done.
  do 6 (destruct p as [p|p|]; try done).
Qed.

Lemma xml_text_chunk c rest : xml_text (xml_chunk c ++ rest) = c :: xml_text rest.
Proof.
  unfold xml_chunk, xml_entity.
  repeat (case_if; [by subst|]). cbn [app]. by rewrite xml_text_plain.
Qed.

(** ** Base 64 as arithmetic *)

Lemma base64_ok v : 0 <= v < 64 -> b2a (base64 v) = v /\ base64 v <> 61 /\ 0 < base64 v < 128.
Proof.
  intros Hv. pose proof (range_check (fun v => (b2a (base64 v) =? v) && negb (base64 v =? 61) && (0 <? base64 v) &&
    (base64 v <? 128)) 64 v ltac:(by vm_compute) Hv) as H. cbn beta in H. zb. lia.
Qed.

(** The four characters of a group, and the padded last groups. *)
Definition group3 (x y z : Z) : str :=
  [base64 (x / 4); base64 (x mod 4 * 16 + y / 16); base64 (y mod 16 * 4 + z / 64); base64 (z mod 64)].

Fixpoint base64_text (src : list Z) : str :=
  match src with
  | x :: y :: z :: src => group3 x y z ++ base64_text src
  | [x; y] => [base64 (x / 4); base64 (x mod 4 * 16 + y / 16); base64 (y mod 16 * 4); 61]
  | [x] => [base64 (x / 4); base64 (x mod 4 * 16); 61; 61]
  | [] => []
  end.

(** Induction by groups of three. *)
Lemma group_ind (P : list Z -> Prop) :
  P [] -> (forall x, P [x]) -> (forall x y, P [x; y]) ->
  (forall x y z l, P l -> P (x :: y :: z :: l)) -> forall l, P l.
Proof.
  intros H0 H1 H2 H3. assert (H : forall n l, (length l <= n)%nat -> P l); [|by intros; eapply H].
  induction n as [|n IH]; intros [|x [|y [|z l]]] Hl; cbn in Hl; auto with lia.
Qed.

(** Shifting in a byte or six bits. *)
Lemma shift_in b k v : 0 <= k <= 32 -> 0 <= v < 2 ^ k -> Z.lor (u32 (Z.shiftl b k)) v = u32 (b * 2 ^ k + v).
Proof.
  intros Hk Hv. rewrite shiftl_mul by lia. unfold wrapu.
  replace (2 ^ 32) with (2 ^ (32 - k) * 2 ^ k) by (rewrite <- Z.pow_add_r by lia; f_equal; lia).
  rewrite Zmult_mod_distr_r, lor_add by lia.
  assert (0 < 2 ^ k) by (apply Z.pow_pos_nonneg; lia).
  assert (0 < 2 ^ (32 - k)) by (apply Z.pow_pos_nonneg; lia).
  apply (Z.mod_unique_pos _ _ (b / 2 ^ (32 - k))).
  - pose proof (Z.mod_pos_bound b (2 ^ (32 - k)) ltac:(lia)). nia.
  - pose proof (Z.div_mod b (2 ^ (32 - k)) ltac:(lia)). nia.
Qed.

Lemma low8 a k q x r : 0 <= k <= 24 -> a = (q * 256 + x) * 2 ^ k + r -> 0 <= r < 2 ^ k -> 0 <= x < 256 ->
  Z.land (Z.shiftr (u32 a) k) 0xff = x.
Proof.
  intros Hk -> Hr Hx. rewrite shiftr_div by lia. change 0xff with (Z.ones 8). rewrite land_mod by lia. unfold wrapu.
  rewrite (Z.mod_eq _ (2 ^ 32)) by lia. set (m := ((q * 256 + x) * 2 ^ k + r) / 2 ^ 32).
  replace (2 ^ 32) with (2 ^ (24 - k) * 256 * 2 ^ k)
    by (change 256 with (2 ^ 8); rewrite <- !Z.pow_add_r by lia; f_equal; lia).
  replace ((q * 256 + x) * 2 ^ k + r - 2 ^ (24 - k) * 256 * 2 ^ k * m) with
    (r + ((q - 2 ^ (24 - k) * m) * 256 + x) * 2 ^ k) by ring.
  rewrite Z.div_add, (Z.div_small r), Z.add_0_l by lia. rewrite Z.add_comm. change (2 ^ 8) with 256.
  rewrite Z.mod_add, Z.mod_small by lia. done.
Qed.

Lemma u32_shift a b : u32 (u32 a * 2 ^ 6 + b) = u32 (a * 2 ^ 6 + b).
Proof. unfold wrapu. by rewrite <- Zplus_mod_idemp_l, Zmult_mod_idemp_l, Zplus_mod_idemp_l. Qed.

(** One character of base 64 text, read while there is room. *)
Lemma decode_first v src max cnt byte dst : 0 <= v < 64 -> cnt < max ->
  base64_decode_loop (base64 v :: src) max cnt byte 0 dst =
    base64_decode_loop src max cnt (u32 (byte * 2 ^ 6 + v)) 6 dst.
Proof.
  intros Hv Hc. destruct (base64_ok v Hv) as (Hb & Hp & Hr). cbn [base64_decode_loop].
  rewrite (proj2 (Z.eqb_neq (base64 v) 61)), (proj2 (Z.ltb_lt cnt max)), (proj2 (Z.ltb_ge (base64 v) 0)) by lia.
  cbn [orb negb]. rewrite Hb. change 0x3f with (Z.ones 6). rewrite land_mod by lia.
  rewrite Z.mod_small, shift_in by lia. done.
Qed.

Lemma decode_next v src max cnt a bits q x r dst : 0 <= v < 64 -> cnt < max -> 2 <= bits <= 6 ->
  a * 2 ^ 6 + v = (q * 256 + x) * 2 ^ (bits - 2) + r -> 0 <= r < 2 ^ (bits - 2) -> 0 <= x < 256 ->
  base64_decode_loop (base64 v :: src) max cnt (u32 a) bits dst =
    base64_decode_loop src max (cnt + 1) (u32 (a * 2 ^ 6 + v)) (bits - 2) (dst ++ [x]).
Proof.
  intros Hv Hc Hbits Ha Hr Hx. destruct (base64_ok v Hv) as (Hb & Hp & Hrng). cbn [base64_decode_loop].
  rewrite (proj2 (Z.eqb_neq (base64 v) 61)), (proj2 (Z.ltb_lt cnt max)), (proj2 (Z.ltb_ge (base64 v) 0)) by lia.
  cbn [orb negb]. rewrite Hb. change 0x3f with (Z.ones 6). rewrite land_mod by lia.
  rewrite Z.mod_small, shift_in, u32_shift by lia. rewrite Z.geb_leb, (proj2 (Z.leb_le 8 (bits + 6))) by lia.
  replace (bits + 6 - 8) with (bits - 2) by lia. by rewrite (low8 _ (bits - 2) q x r) by lia.
Qed.

(** The decoder stops when the buffer is full, and at the padding. *)
Lemma decode_full src max cnt byte bits dst : max <= cnt -> base64_decode_loop src max cnt byte bits dst = Some dst.
Proof.
  intros Hc. destruct src; [done|]. cbn [base64_decode_loop]. rewrite (proj2 (Z.ltb_ge cnt max)) by done.
  by rewrite orb_true_r.
Qed.

Lemma decode_pad src max cnt byte bits dst : base64_decode_loop (61 :: src) max cnt byte bits dst = Some dst.
Proof. done. Qed.

Lemma bits_of x k : 0 <= x < 256 -> 0 < k <= 256 -> x = k * (x / k) + x mod k /\ 0 <= x mod k < k /\ 0 <= x / k.
Proof.
  intros Hx Hk. pose proof (Z.div_mod x k ltac:(lia)). pose proof (Z.mod_pos_bound x k ltac:(lia)).
  pose proof (Z.div_pos x k ltac:(lia) ltac:(lia)). lia.
Qed.

(** Reading the first byte of a group. *)
Lemma decode_byte1 x w src max cnt byte dst : 0 <= x < 256 -> 0 <= w < 16 -> cnt < max ->
  exists a, base64_decode_loop (base64 (x / 4) :: base64 (x mod 4 * 16 + w) :: src) max cnt byte 0 dst =
    base64_decode_loop src max (cnt + 1) (u32 (a * 16 + w)) 4 (dst ++ [x]).
Proof.
  intros Hx Hw Hc. pose proof (bits_of x 4 Hx ltac:(lia)) as (Ex & Hm & Hd).
  exists (byte * 256 + x). rewrite decode_first by lia.
  rewrite (decode_next _ _ _ _ _ 6 byte x w) by (change (2 ^ (6 - 2)) with 16; lia).
  do 2 f_equal. lia.
Qed.

Lemma decode_byte2 y w src max cnt a dst : 0 <= y < 256 -> 0 <= w < 4 -> cnt < max ->
  exists a', base64_decode_loop (base64 (y mod 16 * 4 + w) :: src) max cnt (u32 (a * 16 + y / 16)) 4 dst =
    base64_decode_loop src max (cnt + 1) (u32 (a' * 4 + w)) 2 (dst ++ [y]).
Proof.
  intros Hy Hw Hc. pose proof (bits_of y 16 Hy ltac:(lia)) as (Ey & Hm & Hd). exists (a * 256 + y).
  rewrite (decode_next _ _ _ _ _ 4 a y w) by (change (2 ^ (4 - 2)) with 4; lia).
  do 2 f_equal. lia.
Qed.

Lemma decode_byte3 z src max cnt a dst : 0 <= z < 256 -> cnt < max ->
  exists byte, base64_decode_loop (base64 (z mod 64) :: src) max cnt (u32 (a * 4 + z / 64)) 2 dst =
    base64_decode_loop src max (cnt + 1) byte 0 (dst ++ [z]).
Proof.
  intros Hz Hc. pose proof (bits_of z 64 Hz ltac:(lia)) as (Ez & Hm & Hd). eexists.
  by rewrite (decode_next _ _ _ _ _ 2 a z 0) by (change (2 ^ (2 - 2)) with 1; lia).
Qed.

(** After a byte is out, either the buffer is full or the decoder goes on with the rest. *)
Lemma decode_more x l src max cnt byte bits dst : cnt < max ->
  (cnt + 1 < max -> base64_decode_loop src max (cnt + 1) byte bits (dst ++ [x]) =
     Some ((dst ++ [x]) ++ take (Z.to_nat (max - (cnt + 1))) l)) ->
  base64_decode_loop src max (cnt + 1) byte bits (dst ++ [x]) = Some (dst ++ take (Z.to_nat (max - cnt)) (x :: l)).
Proof.
  intros Hc Hgo. replace (Z.to_nat (max - cnt)) with (S (Z.to_nat (max - (cnt + 1)))) by lia.
  rewrite firstn_cons. replace (dst ++ x :: take (Z.to_nat (max - (cnt + 1))) l)
    with ((dst ++ [x]) ++ take (Z.to_nat (max - (cnt + 1))) l) by (by rewrite <- app_assoc).
  destruct (Z.lt_ge_cases (cnt + 1) max) as [H|H]; [auto|].
  rewrite decode_full by lia. replace (Z.to_nat (max - (cnt + 1))) with 0%nat by lia. by rewrite take_0, app_nil_r.
Qed.

(** The decoder reads base 64 text up to the size of its buffer. *)
Lemma decode_text l max cnt byte dst : Forall (in_u 8) l -> cnt < max ->
  base64_decode_loop (base64_text l) max cnt byte 0 dst = Some (dst ++ take (Z.to_nat (max - cnt)) l).
Proof.
  revert cnt byte dst. induction l as [|x|x y|x y z l IH] using group_ind; intros cnt byte dst Hl Hc;
    rewrite ?Forall_cons in Hl; unfold in_u in Hl; cbn [base64_text group3 app].
  - cbn. by rewrite take_nil, app_nil_r.
  - destruct (decode_byte1 x 0 [61; 61] max cnt byte dst) as [a Ha]; [lia..|]. rewrite Z.add_0_r in Ha.
    rewrite Ha. apply decode_more; [done|]. intros _. by rewrite decode_pad, take_nil, app_nil_r.
  - pose proof (bits_of y 16 ltac:(lia) ltac:(lia)).
    edestruct (decode_byte1 x (y / 16)) as [a ->]; [lia..|]. apply decode_more; [done|]. intros Hc1.
    destruct (decode_byte2 y 0 [61] max (cnt + 1) a (dst ++ [x])) as [a' Ha]; [lia..|]. rewrite Z.add_0_r in Ha.
    rewrite Ha. apply decode_more; [done|]. intros _. by rewrite decode_pad, take_nil, app_nil_r.
  - pose proof (bits_of y 16 ltac:(lia) ltac:(lia)). pose proof (bits_of z 64 ltac:(lia) ltac:(lia)).
    edestruct (decode_byte1 x (y / 16)) as [a ->]; [lia..|]. apply decode_more; [done|]. intros Hc1.
    edestruct (decode_byte2 y (z / 64)) as [a' ->]; [lia..|]. apply decode_more; [done|]. intros Hc2.
    edestruct (decode_byte3 z) as [b ->]; [lia..|]. apply decode_more; [done|]. intros Hc3.
    apply IH; [apply Hl|lia].
Qed.

(** *** The encoder *)

(** The bytes whose text fits in [room] characters: all of them, or a number of
    whole groups. *)
Definition fitting (room : Z) (l : list Z) : nat :=
  if 4 * ((zlen l + 2) / 3) <=? room then length l else Z.to_nat (3 * (room / 4)).

(** What follows the loop of [ast_base64encode_full]. *)
Definition encode_rest (max : Z) (st : str * Z * Z) : str :=
  let '(dst, byte, bits) := st in
  if negb (bits =? 0) && (zlen dst + 4 <=? max) then
    let byte := u32 (Z.shiftl byte (24 - bits)) in
    dst ++ [base64 (Z.land (Z.shiftr byte 18) 0x3f); base64 (Z.land (Z.shiftr byte 12) 0x3f);
            if bits =? 16 then base64 (Z.land (Z.shiftr byte 6) 0x3f) else 61; 61]
  else dst.

Lemma encode_eq src max : ast_base64encode src max = encode_rest (max - 1) (base64_encode_loop src (max - 1) false [] 0 0 0).
Proof. unfold ast_base64encode, ast_base64encode_full, encode_rest. by destruct (base64_encode_loop _ _ _ _ _ _ _) as [[dst byte] bits]. Qed.

(** With less than four characters of room nothing more is written. *)
Lemma encode_stuck src max dst col byte bits : max < zlen dst + 4 ->
  encode_rest max (base64_encode_loop src max false dst col byte bits) = dst.
Proof.
  intros Hm. revert byte bits. induction src as [|x src IH]; intros byte bits; cbn [base64_encode_loop].
  - unfold encode_rest. rewrite (proj2 (Z.leb_gt (zlen dst + 4) max)) by lia. by rewrite andb_false_r.
  - destruct (Z.ltb_spec (zlen dst) max); cbn [negb].
    + rewrite (proj2 (Z.leb_gt (zlen dst + 4) max)), andb_false_r by lia. apply IH.
    + unfold encode_rest. rewrite (proj2 (Z.leb_gt (zlen dst + 4) max)) by lia. by rewrite andb_false_r.
Qed.

(** Six bits of a number. *)
Lemma field6 a k q v r : 0 <= k -> a = (q * 64 + v) * 2 ^ k + r -> 0 <= r < 2 ^ k -> 0 <= v < 64 ->
  Z.land (Z.shiftr a k) 0x3f = v.
Proof.
  intros Hk -> Hr Hv. rewrite shiftr_div by lia. change 0x3f with (Z.ones 6). rewrite land_mod by lia.
  rewrite Z.add_comm, Z.div_add, (Z.div_small r) by lia. change (2 ^ 6) with 64.
  rewrite Z.add_0_l, Z.add_comm, Z.mod_add, Z.mod_small by lia. done.
Qed.

Lemma shift_byte b x : 0 <= x < 256 -> 0 <= b < 2 ^ 24 -> Z.lor (u32 (Z.shiftl b 8)) x = b * 256 + x.
Proof.
  intros Hx Hb. rewrite shift_in by lia. change (2 ^ 8) with 256. apply wrapu_id. unfold in_u. lia.
Qed.

(** A byte in a position that completes no group. *)
Lemma encode_byte x src max dst col b bits : zlen dst + 4 <= max -> 0 <= x < 256 -> 0 <= b < 2 ^ 24 -> bits < 16 ->
  base64_encode_loop (x :: src) max false dst col b bits =
  base64_encode_loop src max false dst col (b * 256 + x) (bits + 8).
Proof.
  intros Hm Hx Hb Hbits. cbn [base64_encode_loop]. rewrite (proj2 (Z.ltb_lt (zlen dst) max)) by lia. cbn [negb].
  rewrite (proj2 (Z.eqb_neq (bits + 8) 24)) by lia. cbn [andb]. by rewrite shift_byte.
Qed.

Lemma encode_group x y z src max dst col : zlen dst + 4 <= max -> 0 <= x < 256 -> 0 <= y < 256 -> 0 <= z < 256 ->
  base64_encode_loop (x :: y :: z :: src) max false dst col 0 0 =
  base64_encode_loop src max false (dst ++ group3 x y z) (col + 4) 0 0.
Proof.
  intros Hm Hx Hy Hz. rewrite !encode_byte by lia. cbn [base64_encode_loop].
  rewrite (proj2 (Z.ltb_lt (zlen dst) max)), (proj2 (Z.leb_le (zlen dst + 4) max)) by lia. cbn [negb].
  change (0 + 8 + 8 + 8 =? 24) with true. cbn [andb]. rewrite shift_byte by lia. set (b := _ + z). unfold group3.
  pose proof (bits_of x 4 Hx ltac:(lia)). pose proof (bits_of y 16 Hy ltac:(lia)). pose proof (bits_of z 64 Hz ltac:(lia)).
  rewrite (field6 b 18 0 (x / 4) (b - x / 4 * 2 ^ 18)) by lia.
  rewrite (field6 b 12 (x / 4) (x mod 4 * 16 + y / 16) (y mod 16 * 256 + z)) by lia.
  rewrite (field6 b 6 (x * 16 + y / 16) (y mod 16 * 4 + z / 64) (z mod 64)) by lia.
  rewrite <- (Z.shiftr_0_r b), (field6 b 0 (x * 1024 + y * 4 + z / 64) (z mod 64) 0) by lia. done.
Qed.

(** The last one or two bytes, with padding. *)
Lemma encode_last2 x y max dst col : zlen dst + 4 <= max -> 0 <= x < 256 -> 0 <= y < 256 ->
  encode_rest max (base64_encode_loop [x; y] max false dst col 0 0) = dst ++ base64_text [x; y].
Proof.
  intros Hm Hx Hy. rewrite !encode_byte by lia. cbn [base64_encode_loop]. unfold encode_rest.
  rewrite (proj2 (Z.leb_le (zlen dst + 4) max)) by lia. change (negb (0 + 8 + 8 =? 0) && true) with true. cbn iota.
  change (24 - (0 + 8 + 8)) with 8. rewrite shiftl_mul, wrapu_id by (unfold in_u; lia). set (b := _ * 2 ^ 8).
  change (0 + 8 + 8 =? 16) with true. cbn [base64_text].
  pose proof (bits_of x 4 Hx ltac:(lia)). pose proof (bits_of y 16 Hy ltac:(lia)).
  rewrite (field6 b 18 0 (x / 4) (b - x / 4 * 2 ^ 18)) by lia.
  rewrite (field6 b 12 (x / 4) (x mod 4 * 16 + y / 16) (y mod 16 * 256)) by lia.
  by rewrite (field6 b 6 (x * 16 + y / 16) (y mod 16 * 4) 0) by lia.
Qed.

Lemma encode_last1 x max dst col : zlen dst + 4 <= max -> 0 <= x < 256 ->
  encode_rest max (base64_encode_loop [x] max false dst col 0 0) = dst ++ base64_text [x].
Proof.
  intros Hm Hx. rewrite !encode_byte by lia. cbn [base64_encode_loop]. unfold encode_rest.
  rewrite (proj2 (Z.leb_le (zlen dst + 4) max)) by lia. change (negb (0 + 8 =? 0) && true) with true. cbn iota.
  change (24 - (0 + 8)) with 16. rewrite shiftl_mul, wrapu_id by (unfold in_u; lia). set (b := _ * 2 ^ 16).
  change (0 + 8 =? 16) with false. cbn [base64_text].
  pose proof (bits_of x 4 Hx ltac:(lia)).
  rewrite (field6 b 18 0 (x / 4) (b - x / 4 * 2 ^ 18)) by lia.
  by rewrite (field6 b 12 (x / 4) (x mod 4 * 16) 0) by lia.
Qed.

Lemma fitting_group x y z l room : 4 <= room -> fitting room (x :: y :: z :: l) = (3 + fitting (room - 4) l)%nat.
Proof.
  intros Hr. unfold fitting. cbn [length]. replace (Z.of_nat (S (S (S (length l)))) + 2) with (zlen l + 2 + 1 * 3) by lia.
  rewrite Z.div_add by lia. replace (room / 4) with ((room - 4) / 4 + 1)
    by (rewrite <- Z.div_add by lia; f_equal; lia).
  pose proof (Z.div_pos (room - 4) 4 ltac:(lia) ltac:(lia)). repeat case_if; lia.
Qed.

Lemma fitting_none l room : 0 <= room < 4 -> l <> [] -> fitting room l = 0%nat.
Proof.
  intros Hr Hl. unfold fitting. assert (1 <= (zlen l + 2) / 3).
  { apply Z.div_le_lower_bound; [lia|]. destruct l; [done|cbn [length]; lia]. }
  rewrite (proj2 (Z.leb_gt (4 * ((zlen l + 2) / 3)) room)), Z.div_small by lia. done.
Qed.

(** The encoder writes the text of the bytes whose text fits. *)
Lemma encode_loop_text l max dst col : Forall (in_u 8) l -> zlen dst <= max ->
  encode_rest max (base64_encode_loop l max false dst col 0 0) =
    dst ++ base64_text (take (fitting (max - zlen dst) l) l).
Proof.
  revert dst col. induction l as [|x|x y|x y z l IH] using group_ind; intros dst col Hl Hm;
    rewrite ?Forall_cons in Hl; unfold in_u in Hl; [cbn; by rewrite take_nil, app_nil_r|..];
    (destruct (Z.le_gt_cases (zlen dst + 4) max) as [Hr|Hr];
      [|rewrite encode_stuck, fitting_none by (done || lia); by rewrite take_0, app_nil_r]).
  - rewrite encode_last1 by lia. unfold fitting. cbn [length].
    rewrite (proj2 (Z.leb_le (4 * ((Z.of_nat 1 + 2) / 3)) (max - zlen dst))) by (change ((Z.of_nat 1 + 2) / 3) with 1; lia).
    done.
  - rewrite encode_last2 by lia. unfold fitting. cbn [length].
    rewrite (proj2 (Z.leb_le (4 * ((Z.of_nat 2 + 2) / 3)) (max - zlen dst))) by (change ((Z.of_nat 2 + 2) / 3) with 1; lia).
    done.
  - rewrite encode_group by lia. rewrite IH by (rewrite ?length_app; cbn [group3 length]; naive_solver lia).
    rewrite fitting_group by lia. rewrite length_app. cbn [group3 length].
    replace (max - Z.of_nat (length dst + 4)) with (max - zlen dst - 4) by lia.
    cbn [Nat.add take base64_text]. by rewrite <- app_assoc.
Qed.

Lemma text_length l room : 0 <= room -> zlen (base64_text (take (fitting room l) l)) <= room.
Proof.
  revert room. induction l as [|x|x y|x y z l IH] using group_ind; intros room Hr; [by rewrite take_nil|..];
    (destruct (Z.le_gt_cases 4 room) as [H4|H4]; [|by rewrite fitting_none, take_0 by (done || lia)]).
  - unfold fitting. case_if; [cbn; lia|]. change ((zlen [x] + 2) / 3) with 1 in *. lia.
  - unfold fitting. case_if; [cbn; lia|]. change ((zlen [x; y] + 2) / 3) with 1 in *. lia.
  - rewrite fitting_group by lia. cbn [Nat.add take base64_text]. rewrite length_app. specialize (IH (room - 4)).
    cbn [group3 length]. lia.
Qed.

Lemma encode_text src max : Forall (in_u 8) src -> 1 <= max ->
  ast_base64encode src max = base64_text (take (fitting (max - 1) src) src).
Proof.
  intros Hs Hm. rewrite encode_eq, encode_loop_text by (done || cbn; lia). cbn [length app]. by rewrite Z.sub_0_r.
Qed.

(** ** Properties *)

(** C34: decoding base 64 text gives back what was encoded: the text fits its
    buffer with its NUL, and the decoder reads from it the bytes whose text fits
    ([fitting]: all of them, or as many whole groups of three as there is room
    for), cut to its own buffer; with room for everything the round trip is exact. *)
Theorem base64_roundtrip src max dmax : Forall (in_u 8) src -> 1 <= max -> 0 < dmax ->
  zlen (ast_base64encode src max) < max /\
  ast_base64decode (ast_base64encode src max) dmax = Some (take (Z.to_nat dmax) (take (fitting (max - 1) src) src)) /\
  (4 * ((zlen src + 2) / 3) < max -> zlen src <= dmax ->
     ast_base64decode (ast_base64encode src max) dmax = Some src).
Proof.
  intros Hs Hm Hd. rewrite encode_text by done.
  assert (Hdec : ast_base64decode (base64_text (take (fitting (max - 1) src) src)) dmax =
    Some (take (Z.to_nat dmax) (take (fitting (max - 1) src) src))).
  { unfold ast_base64decode. rewrite decode_text by (done || by apply Forall_take). by rewrite Z.sub_0_r. }
  split_and!; [|done|].
  - pose proof (text_length src (max - 1) ltac:(lia)). lia.
  - intros Hr Hl. rewrite Hdec. unfold fitting.
    rewrite (proj2 (Z.leb_le (4 * ((zlen src + 2) / 3)) (max - 1))) by lia.
    by rewrite firstn_all, take_ge by lia.
Qed.

(** The printable characters of 7 bits. *)
Definition printable (c : Z) : Prop := 32 <= c < 127.

Lemma uri_chunk_printable special c : in_s 8 c -> Forall printable (uri_chunk special c).
Proof.
  intros Hc. unfold uri_chunk. destruct (char_byte c Hc) as (_ & Hq & Hr).
  assert (Hhex : forall x, 0 <= x < 16 -> printable (hex_digit x)) by (intros x Hx; unfold printable, hex_digit; case_if; lia).
  destruct (uri_escaped special c) eqn:E.
  - repeat (apply Forall_cons; split); [done|by apply Hhex|by apply Hhex|done].
  - constructor; [|done]. unfold uri_escaped in E. zb. unfold printable, in_s in *. lia.
Qed.

(** URI escaping round-trips: what [ast_uri_encode] writes fits its buffer and
    consists of printable 7-bit characters only; [ast_uri_decode] reads back a
    prefix of the string, and the whole string when the buffer has three
    characters for each of its characters and the NUL. *)
Theorem uri_roundtrip scan_other s buflen special : Forall char_ok s -> 0 < buflen ->
  let e := ast_uri_encode s buflen special in
  zlen e < buflen /\ Forall printable e /\
  (exists n, ast_uri_decode scan_other e = take n s) /\
  (3 * zlen s < buflen -> ast_uri_decode scan_other e = s).
Proof.
  intros Hs Hb e. subst e. rewrite ast_uri_encode_emit. destruct (emit_spec (uri_chunk special) s (buflen - 1)) as [n Hn].
  pose proof Hn as (He & Hle & Hl & _).
  assert (Hdec : ast_uri_decode scan_other (emit (uri_chunk special) s (buflen - 1) []) = take n s).
  { rewrite He. apply (decode_chunks _ _ char_ok); [done|intros; by apply uri_decode_chunk|by apply Forall_take]. }
  split_and!; [lia| |by exists n|].
  - rewrite He. apply Forall_concat, Forall_fmap. eapply Forall_impl; [by apply Forall_take|].
    intros c [Hc _]. by apply uri_chunk_printable.
  - intros Hr. rewrite Hdec, (fills_all _ _ _ _ _ Hn), firstn_all; [done|].
    enough (zlen (concat (uri_chunk special <$> s)) <= 3 * zlen s) by lia.
    clear. induction s as [|c s IH]; [done|]. cbn [fmap list_fmap concat length]. rewrite length_app.
    assert (length (uri_chunk special c) <= 3)%nat by (unfold uri_chunk; destruct (uri_escaped special c); cbn; lia). lia.
Qed.

(** Characters that open or close markup. *)
Definition xml_special (c : Z) : bool := in_set [60; 62; 39; 34] c.

Lemma xml_chunk_safe c : Forall (fun d => xml_special d = false) (xml_chunk c).
Proof.
  unfold xml_chunk, xml_entity. repeat (case_if; [by repeat constructor|]). constructor; [|done].
  unfold xml_special, in_set. cbn [existsb]. by repeat (rewrite (proj2 (Z.eqb_neq c _)) by done; cbn [orb]).
Qed.

(** The escaped text fits its buffer, has no markup character in it, and an XML
    reader gets back from it a prefix of the string; [ast_xml_escape] returns 0
    exactly when that prefix is the whole string, and -1 otherwise (also for an
    empty buffer, which it leaves alone). *)
Theorem ast_xml_escape_correct s buflen : 0 <= buflen ->
  match ast_xml_escape s buflen with
  | (ret, Some out) =>
      0 < buflen /\ zlen out < buflen /\ Forall (fun c => xml_special c = false) out /\
      exists n, xml_text out = take n s /\ ret = if decide (take n s = s) then 0 else -1
  | (ret, None) => buflen = 0 /\ ret = -1
  end.
Proof.
  intros Hb. destruct (decide (buflen = 0)) as [->|Hne]; [done|]. rewrite ast_xml_escape_emit by lia.
  destruct (emit_spec xml_chunk s (buflen - 1)) as [n Hn]. pose proof Hn as (He & Hle & Hl & Hmax).
  split_and!; [lia|lia| |exists n; split].
  - rewrite He. apply Forall_concat, Forall_fmap, Forall_true. intros c. apply xml_chunk_safe.
  - rewrite He. apply (decode_chunks xml_text xml_chunk (fun _ => True)); [done|intros; apply xml_text_chunk|by apply Forall_true].
  - destruct (Z.leb_spec (zlen (concat (xml_chunk <$> s))) (buflen - 1)) as [Hf|Hf].
    + rewrite (fills_all _ _ _ _ _ Hn), firstn_all by done. by rewrite decide_True.
    + rewrite decide_False; [done|]. intros Ht. rewrite Ht in He. rewrite He in Hl. lia.
Qed.

(** Reading a quoted string up to its closing quote: the text and what follows. *)
Fixpoint read_quoted (s : str) : option (str * str) :=
  match s with
  | [] => None
  | c :: s' =>
      if c =? 34 then Some ([], s')
      else if c =? 92 then
        match s' with
        | [] => None
        | e :: s'' => match read_quoted s'' with Some (t, rest) => Some (e :: t, rest) | None => None end
        end
      else match read_quoted s' with Some (t, rest) => Some (c :: t, rest) | None => None end
  end.

Lemma read_quoted_chunks s rest : read_quoted (concat (quoted_chunk <$> s) ++ 34 :: rest) = Some (s, rest).
Proof.
  induction s as [|c s IH]; [done|]. cbn [fmap list_fmap concat]. rewrite <- app_assoc. unfold quoted_chunk at 1.
  destruct (quoted_plain c) eqn:E; cbn [app read_quoted Z.eqb Pos.eqb]; [|by rewrite IH].
  rewrite (proj2 (Z.eqb_neq c 34)), (proj2 (Z.eqb_neq c 92)), IH; [done|..]; intros ->; by vm_compute in E.
Qed.

(** Text between quotes cannot leave them: read as a quoted string, what
    [ast_escape_quoted] writes ends at the closing quote after it and gives back a
    prefix of the string (all of it when every character has two places). *)
Theorem ast_escape_quoted_safe s buflen rest : 0 < buflen ->
  let e := ast_escape_quoted s buflen in
  zlen e < buflen /\
  exists n, read_quoted (e ++ 34 :: rest) = Some (take n s, rest) /\ (2 * zlen s < buflen -> take n s = s).
Proof.
  intros Hb e. subst e. rewrite ast_escape_quoted_emit. destruct (emit_spec quoted_chunk s (buflen - 1)) as [n Hn].
  pose proof Hn as (He & Hle & Hl & _). split; [lia|]. exists n. split; [by rewrite He, read_quoted_chunks|].
  intros Hr. rewrite (fills_all _ _ _ _ _ Hn), firstn_all; [done|].
  enough (zlen (concat (quoted_chunk <$> s)) <= 2 * zlen s) by lia.
  clear. induction s as [|c s IH]; [done|]. cbn [fmap list_fmap concat length]. rewrite length_app.
  assert (length (quoted_chunk c) <= 2)%nat by (unfold quoted_chunk; destruct (quoted_plain c); cbn; lia). lia.
Qed.

(** A string that ends in a lone backslash takes [ast_unescape_c] past its NUL: it
    goes on with whatever follows in memory. *)
Theorem ast_unescape_c_overrun s mem : Forall (fun c => c <> 0 /\ c <> 92) s ->
  ast_unescape_c (s ++ 92 :: 0 :: mem) = (fun out => s ++ 92 :: out) <$> ast_unescape_c mem.
Proof.
  induction 1 as [|c s [H0 H92] _ IH]; cbn [app ast_unescape_c]; [by destruct (ast_unescape_c mem)|].
  rewrite (proj2 (Z.eqb_neq c 0)), (proj2 (Z.eqb_neq c 92)) by done. cbn [negb]. rewrite IH.
  by destruct (ast_unescape_c mem).
Qed.

(** ** Witnesses *)

(** Decoding the text of two of five bytes, cut by the buffer. *)
Lemma base64_roundtrip_witness :
  ast_base64encode [1; 200; 30; 255; 7] 8 = [65; 99; 103; 101] /\
  ast_base64decode (ast_base64encode [1; 200; 30; 255; 7] 8) 2 = Some [1; 200].
Proof.
  split; [reflexivity|]. rewrite (proj1 (proj2 (base64_roundtrip [1; 200; 30; 255; 7] 8 2
    ltac:(repeat constructor; done) ltac:(done) ltac:(done)))). reflexivity.
Defined.

(** The string "a%b" followed by the character -61. *)
Lemma uri_roundtrip_witness :
  let e := ast_uri_encode [97; 37; 98; -61] 13 true in
  e = [97; 37; 50; 53; 98; 37; 67; 51] /\ ast_uri_decode (fun _ => None) e = [97; 37; 98; -61].
Proof.
  split; [reflexivity|].
  apply (uri_roundtrip (fun _ => None) [97; 37; 98; -61] 13 true ltac:(repeat constructor; done) ltac:(done)). reflexivity.
Defined.

Lemma ast_xml_escape_correct_witness :
  ast_xml_escape [60; 97] 5 = (-1, Some [38; 108; 116; 59]) /\ exists n, xml_text [38; 108; 116; 59] = take n [60; 97].
Proof.
  split; [reflexivity|]. pose proof (ast_xml_escape_correct [60; 97] 5 ltac:(done)) as H. cbn in H.
  destruct H as (_ & _ & _ & n & Hn & _). exists n. exact Hn.
Defined.

Lemma ast_escape_quoted_safe_witness :
  exists n, read_quoted (ast_escape_quoted [97; 34; 92] 6 ++ [34; 120]) = Some (take n [97; 34; 92], [120]).
Proof.
  destruct (ast_escape_quoted_safe [97; 34; 92] 6 [120] ltac:(done)) as (_ & n & Hn & _). exists n. exact Hn.
Defined.
