(* ===== verification/FixedJb.v ===== *)
(** * The fixed jitter buffer: [main/fixedjitterbuf.c]

    Frames wait in a list ordered by the time they are to be played.  The doubly
    linked list is modelled by the list of its frames from [frames] to [tail].  The
    fields of type [long] are integers (milliseconds; 64 bits of them do not
    overflow in a call). *)

From S2P Require Import Prelude.
From Stdlib Require Import ZArith Lia.
From stdpp Require Import base list numbers sorting.

#[local] Open Scope Z_scope.
#[local] Open Scope record_scope.

Inductive fixed_jb_code := FIXED_JB_OK | FIXED_JB_DROP | FIXED_JB_INTERP | FIXED_JB_NOFRAME.

#[export] Instance fixed_jb_code_eq_dec : EqDecision fixed_jb_code.
Proof. solve_decision. Defined.

Definition FIXED_JB_SIZE_DEFAULT : Z := 200.
Definition FIXED_JB_RESYNCH_THRESHOLD_DEFAULT : Z := 1000.

Record fixed_jb_conf := mk_conf { jbsize : Z; resync_threshold : Z }.

Record fixed_jb_frame := mk_frame { data : Z; ts : Z; ms : Z; delivery : Z }.

#[export] Instance eta_frame : Eta fixed_jb_frame := fun f => mk_frame (data f) (ts f) (ms f) (delivery f).

Record fixed_jb := mk_fixed {
  frames : list fixed_jb_frame;
  conf : fixed_jb_conf;
  rxcore : Z;
  delay : Z;
  next_delivery : Z;
  force_resynch : bool
}.

#[export] Instance eta_fixed : Eta fixed_jb :=
  fun j => mk_fixed (frames j) (conf j) (rxcore j) (delay j) (next_delivery j) (force_resynch j).

(** ** Operations *)

(** The list without its head, [fr], which the caller is given. *)
Definition get_jb_head (jb : fixed_jb) (fr : fixed_jb_frame) (rest : list fixed_jb_frame) : fixed_jb :=
  jb <| frames := rest |> <| next_delivery := delivery fr + ms fr |>.

Definition fixed_jb_new (ok : bool) (c : fixed_jb_conf) : option fixed_jb :=
  if ok then
    let c := mk_conf (if jbsize c <? 1 then FIXED_JB_SIZE_DEFAULT else jbsize c)
                     (if resync_threshold c <? 1 then FIXED_JB_RESYNCH_THRESHOLD_DEFAULT else resync_threshold c) in
    Some (mk_fixed [] c 0 (jbsize c) 0 false)
  else None.

(** [fixed_jb_destroy] asserts that the buffer is empty. *)
Definition fixed_jb_destroy (jb : fixed_jb) : outcome unit :=
  oassert (match frames jb with [] => true | _ => false end) (Ret tt).

(** [fixed_jb_put_first] and [resynch_jb], given [fixed_jb_put] for the call each
    of them ends with. *)
Definition put_first_with (put : fixed_jb -> outcome (fixed_jb_code * fixed_jb)) (jb : fixed_jb) (ts_ now : Z)
    : outcome (fixed_jb_code * fixed_jb) :=
  put (jb <| rxcore := now - ts_ |> <| next_delivery := now + delay jb |>).

Definition resynch_jb (put : fixed_jb -> outcome (fixed_jb_code * fixed_jb)) (jb : fixed_jb) (ts_ now : Z)
    : outcome (fixed_jb_code * fixed_jb) :=
  match last (frames jb) with
  | None => put_first_with put jb ts_ now
  | Some tail =>
      let diff := ts_ - ts tail in
      let offset := diff - ms tail in
      if negb (force_resynch jb) &&
         ((offset <? resync_threshold (conf jb)) && (offset >? - resync_threshold (conf jb)))
      then Ret (FIXED_JB_DROP, jb)
      else
        put (jb <| force_resynch := false |> <| rxcore := rxcore jb - offset |>
                <| frames := (fun f => f <| ts := ts f + offset |>) <$> frames jb |>)
  end.

(** The walk of [fixed_jb_put] from the tail: the frames up to the chosen one, the
    chosen one first, and the frames after it. *)
Fixpoint walk_back (d : Z) (before after : list fixed_jb_frame) : list fixed_jb_frame * list fixed_jb_frame :=
  match before with
  | [] => ([], after)
  | frame :: before' => if delivery frame >? d then walk_back d before' (frame :: after) else (before, after)
  end.

(** The new delivery time is covered already by the chosen frame. *)
Definition covered (d ms_ : Z) (before after : list fixed_jb_frame) : bool :=
  match before with
  | [] => false
  | frame :: _ =>
      (delivery frame =? d) || (d <? delivery frame + ms frame) ||
      match after with [] => false | next :: _ => d + ms_ >? delivery next end
  end.

(** The assertions of [fixed_jb_put]. *)
Definition put_asserts (dat ms_ ts_ now : Z) : bool :=
  negb (dat =? NULL) && (ms_ >=? 2) && (ts_ >=? 0) && (now >=? 0).

(** [fixed_jb_put] after its assertions; [resynch] is the call of [resynch_jb] it
    returns through, [ok] tells whether the frame can be allocated. *)
Definition put_body (resynch : fixed_jb -> outcome (fixed_jb_code * fixed_jb)) (ok : bool) (dat ms_ ts_ : Z)
    (jb : fixed_jb) : outcome (fixed_jb_code * fixed_jb) :=
  let d := rxcore jb + delay jb + ts_ in
  if d <? next_delivery jb then resynch jb
  else if d >? next_delivery jb + delay jb + resync_threshold (conf jb) then resynch jb
  else
    let '(before, after) := walk_back d (rev (frames jb)) [] in
    if covered d ms_ before after then resynch jb
    else
      let jb := jb <| force_resynch := false |> in
      if ok then Ret (FIXED_JB_OK, jb <| frames := rev before ++ mk_frame dat ts_ ms_ d :: after |>)
      else BadAccess.

Fixpoint put_fuel (fuel : nat) (ok : bool) (dat ms_ ts_ now : Z) (jb : fixed_jb)
    : outcome (fixed_jb_code * fixed_jb) :=
  match fuel with
  | O => NoFuel
  | S fuel =>
      oassert (put_asserts dat ms_ ts_ now)
        (put_body (fun jb => resynch_jb (put_fuel fuel ok dat ms_ ts_ now) jb ts_ now) ok dat ms_ ts_ jb)
  end.

Definition fixed_jb_put (ok : bool) (jb : fixed_jb) (dat ms_ ts_ now : Z) : outcome (fixed_jb_code * fixed_jb) :=
  put_fuel 2 ok dat ms_ ts_ now jb.

Definition fixed_jb_put_first (ok : bool) (jb : fixed_jb) (dat ms_ ts_ now : Z)
    : outcome (fixed_jb_code * fixed_jb) :=
  put_first_with (fun jb => fixed_jb_put ok jb dat ms_ ts_ now) jb ts_ now.

Definition fixed_jb_set_force_resynch (jb : fixed_jb) : fixed_jb := jb <| force_resynch := true |>.

(** [fixed_jb_get]; [frameout] is what [*frame] held. *)
Definition fixed_jb_get (jb : fixed_jb) (frameout : fixed_jb_frame) (now interpl : Z)
    : outcome (fixed_jb_code * fixed_jb_frame * fixed_jb) :=
  oassert ((now >=? 0) && (interpl >=? 2)) (
  if now <? next_delivery jb then Ret (FIXED_JB_NOFRAME, frameout, jb)
  else
    match frames jb with
    | [] => Ret (FIXED_JB_INTERP, frameout, jb <| next_delivery := next_delivery jb + interpl |>)
    | fr :: rest =>
        if now >? delivery fr + ms fr then Ret (FIXED_JB_DROP, fr, get_jb_head jb fr rest)
        else if now <? delivery fr then
          Ret (FIXED_JB_INTERP, frameout, jb <| next_delivery := next_delivery jb + interpl |>)
        else Ret (FIXED_JB_OK, fr, get_jb_head jb fr rest)
    end).

Definition fixed_jb_next (jb : fixed_jb) : Z := next_delivery jb.

Definition fixed_jb_remove (jb : fixed_jb) (frameout : fixed_jb_frame) : fixed_jb_code * fixed_jb_frame * fixed_jb :=
  match frames jb with
  | [] => (FIXED_JB_NOFRAME, frameout, jb)
  | fr :: rest => (FIXED_JB_OK, fr, get_jb_head jb fr rest)
  end.

(** ** The invariant *)

Definition earlier (f g : fixed_jb_frame) : Prop := delivery f < delivery g.

(** The queue is in strict order of delivery, every frame is due when its timestamp
    says, and lasts two milliseconds at least. *)
Record fixed_wf (jb : fixed_jb) : Prop := {
  fw_threshold : 0 < resync_threshold (conf jb);
  fw_delay : 0 < delay jb;
  fw_sorted : StronglySorted earlier (frames jb);
  fw_frames : Forall (fun f => delivery f = rxcore jb + delay jb + ts f /\ 2 <= ms f) (frames jb)
}.

(** What a frame in the queue is to the outside: its data, its length and when it
    is played. *)
Definition slot (f : fixed_jb_frame) : Z * Z * Z := (data f, ms f, delivery f).
Definition slots (jb : fixed_jb) : list (Z * Z * Z) := slot <$> frames jb.
Definition held (jb : fixed_jb) : list Z := data <$> frames jb.

Lemma walk_back_spec d before after b a : walk_back d before after = (b, a) ->
  rev before ++ after = rev b ++ a /\ (forall f, head b = Some f -> delivery f <= d) /\
  (Forall (fun f => d < delivery f) after -> Forall (fun f => d < delivery f) a).
Proof.
  revert after. induction before as [|f before IH]; intros after; cbn [walk_back].
  { intros [= <- <-]. done. }
  destruct (Z.gtb_spec (delivery f) d) as [H|H].
  - intros Hw. destruct (IH _ Hw) as (He & Hh & Ha). cbn [rev]. rewrite <- app_assoc. cbn [app].
    split_and!; [done..|]. intros Hf. apply Ha. by constructor.
  - intros [= <- <-]. split_and!; [done| |done]. intros ? [= <-]. done.
Qed.

Lemma sorted_app_inv (l r : list fixed_jb_frame) : StronglySorted earlier (l ++ r) ->
  StronglySorted earlier l /\ StronglySorted earlier r /\ forall f g, f ∈ l -> g ∈ r -> earlier f g.
Proof.
  induction l as [|x l IH]; cbn [app]; intros Hs.
  - split_and!; [constructor|done|]. intros f g Hf. by apply elem_of_nil in Hf.
  - apply StronglySorted_inv in Hs as [Hs Hx]. destruct (IH Hs) as (Hl & Hr & Hlr).
    rewrite Forall_app in Hx. split_and!; [by constructor; [|apply Hx]|done|].
    intros f g [->|Hf]%elem_of_cons Hg; [|auto]. destruct Hx as [_ Hx]. rewrite Forall_forall in Hx. auto.
Qed.

Lemma sorted_app (l r : list fixed_jb_frame) : StronglySorted earlier l -> StronglySorted earlier r ->
  (forall f g, f ∈ l -> g ∈ r -> earlier f g) -> StronglySorted earlier (l ++ r).
Proof.
  intros Hl Hr Hlr. induction Hl as [|x l Hl IH Hx]; [done|]. cbn [app]. constructor.
  - apply IH. intros f g Hf. apply Hlr. by apply elem_of_cons; right.
  - apply Forall_app. split; [done|]. apply Forall_forall. intros g Hg. apply Hlr; [|done]. by apply elem_of_cons; left.
Qed.

(** The queue splits where a delivery time belongs. *)
Lemma walk_back_split d l b a : StronglySorted earlier l -> walk_back d (rev l) [] = (b, a) ->
  l = rev b ++ a /\ Forall (fun f => delivery f <= d) (rev b) /\ Forall (fun f => d < delivery f) a.
Proof.
  intros Hs Hw. destruct (walk_back_spec _ _ _ _ _ Hw) as (He & Hh & Ha).
  rewrite rev_involutive, app_nil_r in He. specialize (Ha ltac:(done)). split_and!; [done| |done].
  destruct b as [|f b]; [done|]. specialize (Hh f eq_refl). cbn [rev]. rewrite Forall_app, Forall_singleton.
  split; [|done]. rewrite He in Hs. apply sorted_app_inv in Hs as (Hs & _ & _). cbn [rev] in Hs.
  apply sorted_app_inv in Hs as (_ & _ & Hs). apply Forall_forall. intros g Hg. specialize (Hs g f Hg).
  rewrite list_elem_of_singleton in Hs. specialize (Hs eq_refl). unfold earlier in Hs. lia.
Qed.

(** The place of a frame accepted at time [d]: it starts after the frame before it
    has ended, and, unless it becomes the head, ends before the frame after it
    starts. *)
Definition fits (d ms_ : Z) (before after : list (Z * Z * Z)) : Prop :=
  match last before with
  | None => True
  | Some (_, m, t) => t + m <= d /\ match after with [] => True | (_, _, t') :: _ => d + ms_ <= t' end
  end /\ Forall (fun '(_, _, t) => t < d) before /\ Forall (fun '(_, _, t) => d < t) after.

(** What an accepted frame does to the buffer. *)
Definition accepted (jb : fixed_jb) (dat ms_ : Z) (jb' : fixed_jb) : Prop :=
  exists before after d, slots jb = before ++ after /\ slots jb' = before ++ (dat, ms_, d) :: after /\
    fits d ms_ before after /\ force_resynch jb' = false /\
    next_delivery jb' <= d <= next_delivery jb' + delay jb' + resync_threshold (conf jb').

(** What one call of [fixed_jb_put] comes to. *)
Definition put_done (jb : fixed_jb) (dat ms_ : Z) (res : outcome (fixed_jb_code * fixed_jb)) : Prop :=
  exists code jb', res = Ret (code, jb') /\ fixed_wf jb' /\ conf jb' = conf jb /\ delay jb' = delay jb /\
    (frames jb <> [] -> next_delivery jb' = next_delivery jb) /\
    match code with
    | FIXED_JB_OK => accepted jb dat ms_ jb'
    | FIXED_JB_DROP => slots jb' = slots jb /\ frames jb <> []
    | _ => False
    end.

Lemma put_asserts_ok dat ms_ ts_ now :
  put_asserts dat ms_ ts_ now = true <-> dat <> 0 /\ 2 <= ms_ /\ 0 <= ts_ /\ 0 <= now.
Proof.
  unfold put_asserts. rewrite !andb_true_iff, negb_true_iff, Z.eqb_neq, !Z.geb_leb, !Z.leb_le. tauto.
Qed.

Lemma put_fuel_S fuel ok dat ms_ ts_ now jb : put_asserts dat ms_ ts_ now = true ->
  put_fuel (S fuel) ok dat ms_ ts_ now jb =
    put_body (fun jb => resynch_jb (put_fuel fuel ok dat ms_ ts_ now) jb ts_ now) ok dat ms_ ts_ jb.
Proof. intros H. cbn [put_fuel]. by rewrite H. Qed.

(** A delivery time in the window that is not covered is accepted. *)
Lemma put_accepts fuel dat ms_ ts_ now jb b a : fixed_wf jb -> put_asserts dat ms_ ts_ now = true ->
  let d := rxcore jb + delay jb + ts_ in
  next_delivery jb <= d <= next_delivery jb + delay jb + resync_threshold (conf jb) ->
  walk_back d (rev (frames jb)) [] = (b, a) -> covered d ms_ b a = false ->
  put_done jb dat ms_ (put_fuel (S fuel) true dat ms_ ts_ now jb).
Proof.
  intros Hwf Hm d Hd Hw Hc. rewrite put_fuel_S by done. unfold put_body. fold d. rewrite (proj2 (Z.ltb_ge d (next_delivery jb))) by lia.
  destruct (Z.gtb_spec d (next_delivery jb + delay jb + resync_threshold (conf jb))); [lia|].
  rewrite Hw, Hc. destruct Hwf as [Ht Hdl Hs Hf]. destruct (walk_back_split _ _ _ _ Hs Hw) as (He & Hb & Ha).
  assert (Hlt : Forall (fun f => delivery f < d) (rev b)).
  { destruct b as [|f b]; [done|]. cbn [covered] in Hc. zb. cbn [rev] in Hb |- *. rewrite He in Hs. cbn [rev] in Hs.
    apply sorted_app_inv in Hs as (Hs & _ & _). apply sorted_app_inv in Hs as (_ & _ & Hs).
    apply Forall_app in Hb as [_ Hb]. rewrite Forall_singleton in Hb. apply Forall_app. split; [|apply Forall_singleton; lia].
    apply Forall_forall. intros g Hg. specialize (Hs g f Hg). rewrite list_elem_of_singleton in Hs.
    specialize (Hs eq_refl). unfold earlier in Hs. lia. }
  eexists _, _. split; [done|]. split_and!; cbn; try done.
  - pose proof Hs as Hs'. rewrite He in Hs'. apply sorted_app_inv in Hs' as (Hsb & Hsa & Hba). rewrite Forall_forall in Hlt.
    split; cbn; [done..| |].
    + apply sorted_app; [done| |].
      * constructor; [done|]. apply Ha.
      * intros f g Hfb [->|Hg]%elem_of_cons; [by apply Hlt|by apply Hba].
    + rewrite He in Hf. apply Forall_app in Hf as [Hfb Hfa]. apply Forall_app. split; [done|]. constructor; [|done].
      apply put_asserts_ok in Hm. cbn. lia.
  - exists (slot <$> rev b), (slot <$> a), d. unfold slots. cbn. rewrite He, !fmap_app.
    split_and!; [done|done| |done|lia|lia]. unfold fits. rewrite !Forall_fmap. split; [|done].
    destruct b as [|f b]; [done|]. cbn [rev]. rewrite fmap_app. cbn [fmap list_fmap]. rewrite last_snoc. cbn [slot].
    cbn [covered] in Hc. zb. destruct a as [|g a]; cbn; [lia|]. zb. lia.
Qed.

(** The buffer after its timestamps are shifted by [offset]: nothing moves. *)
Definition shifted (jb : fixed_jb) (offset : Z) : fixed_jb :=
  jb <| force_resynch := false |> <| rxcore := rxcore jb - offset |>
     <| frames := (fun f => f <| ts := ts f + offset |>) <$> frames jb |>.

Lemma shifted_slots jb offset : slots (shifted jb offset) = slots jb.
Proof. unfold slots, shifted. cbn. rewrite <- list_fmap_compose. by apply list_fmap_ext. Qed.

Lemma shifted_last jb offset tail : last (frames jb) = Some tail ->
  last (frames (shifted jb offset)) = Some (tail <| ts := ts tail + offset |>).
Proof. intros H. unfold shifted. cbn. by rewrite fmap_last, H. Qed.

Lemma sorted_slots (l r : list fixed_jb_frame) : delivery <$> l = delivery <$> r ->
  StronglySorted earlier l -> StronglySorted earlier r.
Proof.
  revert r. induction l as [|x l IH]; intros [|y r] He Hs; try done. rewrite !fmap_cons in He. injection He as Hxy He.
  apply StronglySorted_inv in Hs as [Hs Hx]. constructor; [by apply IH|].
  assert (Hr : Forall (fun d => delivery x < d) (delivery <$> r)) by (rewrite <- He; by apply Forall_fmap).
  rewrite Forall_fmap in Hr. unfold earlier. rewrite <- Hxy. exact Hr.
Qed.

Lemma shifted_wf jb offset : fixed_wf jb -> fixed_wf (shifted jb offset).
Proof.
  intros [Ht Hd Hs Hf]. split; cbn; [done..| |].
  - apply (sorted_slots (frames jb)); [|done]. rewrite <- list_fmap_compose. by apply list_fmap_ext.
  - apply Forall_fmap. eapply Forall_impl; [done|]. intros f [Hdf Hm]. cbn. lia.
Qed.

Lemma put_done_shifted jb offset dat ms_ res : frames jb <> [] ->
  put_done (shifted jb offset) dat ms_ res -> put_done jb dat ms_ res.
Proof.
  intros Hne (code & jb' & -> & Hwf & Hc & Hdl & Hn & H). exists code, jb'.
  assert (Hne' : frames (shifted jb offset) <> []) by (cbn; by intros ?%fmap_nil_inv).
  rewrite <- shifted_slots with (offset := offset). split_and!; [done|done|done|done|intros _; by apply Hn|].
  destruct code; [|by rewrite shifted_slots in *; destruct H|done|done].
  destruct H as (b & a & d & Hsl & H). exists b, a, d. by rewrite shifted_slots in Hsl.
Qed.

(** The first frame of an empty buffer is accepted. *)
Lemma put_first_accepts fuel dat ms_ ts_ now jb : fixed_wf jb -> put_asserts dat ms_ ts_ now = true -> frames jb = [] ->
  put_done jb dat ms_ (put_first_with (put_fuel (S fuel) true dat ms_ ts_ now) jb ts_ now).
Proof.
  intros [Ht Hd Hs Hf] Hm He. unfold put_first_with. set (jb1 := jb <| rxcore := _ |> <| next_delivery := _ |>).
  assert (Hw1 : fixed_wf jb1) by (unfold jb1; split; cbn; rewrite ?He; [done..|constructor|constructor]).
  destruct (put_accepts fuel dat ms_ ts_ now jb1 [] [] Hw1 Hm) as (code & jb' & -> & H);
    [cbn; lia|cbn; by rewrite He|done|].
  exists code, jb'. split; [done|]. destruct H as (? & ? & ? & ? & H). split_and!; try done.
Qed.

(** A frame put right after the last one: accepted in the window, dropped outside. *)
Lemma put_at_end fuel dat ms_ ts_ now jb tail : fixed_wf jb -> put_asserts dat ms_ ts_ now = true -> last (frames jb) = Some tail ->
  ts_ = ts tail + ms tail -> force_resynch jb = false ->
  put_done jb dat ms_ (put_fuel (S fuel) true dat ms_ ts_ now jb).
Proof.
  intros Hwf Hm Hl -> Hforce. pose proof Hwf as [Ht Hdl Hs Hf].
  apply last_Some in Hl as [l Hl]. pose proof Hf as Hf'. rewrite Hl in Hf'.
  apply Forall_app in Hf' as [_ Htail]. rewrite Forall_singleton in Htail.
  set (d := rxcore jb + delay jb + (ts tail + ms tail)).
  assert (Hdrop : put_done jb dat ms_ (resynch_jb (put_fuel fuel true dat ms_ (ts tail + ms tail) now) jb (ts tail + ms tail) now)).
  { unfold resynch_jb. rewrite Hl, last_snoc, Hforce. cbn [negb andb].
    destruct (Z.ltb_spec (ts tail + ms tail - ts tail - ms tail) (resync_threshold (conf jb))); [|lia].
    destruct (Z.gtb_spec (ts tail + ms tail - ts tail - ms tail) (- resync_threshold (conf jb))); [|lia]. cbn [andb].
    exists FIXED_JB_DROP, jb. split_and!; try done. rewrite Hl. by destruct l. }
  destruct (Z.lt_ge_cases d (next_delivery jb)) as [Hlow|Hlow].
  { rewrite put_fuel_S by done. unfold put_body. fold d. by rewrite (proj2 (Z.ltb_lt d (next_delivery jb))) by lia. }
  destruct (Z.lt_ge_cases (next_delivery jb + delay jb + resync_threshold (conf jb)) d) as [Hhigh|Hhigh].
  { rewrite put_fuel_S by done. unfold put_body. fold d. rewrite (proj2 (Z.ltb_ge d (next_delivery jb))) by lia.
    by destruct (Z.gtb_spec d (next_delivery jb + delay jb + resync_threshold (conf jb))); [|lia]. }
  apply (put_accepts _ _ _ _ _ _ (tail :: rev l) []); [done..|fold d; lia| |]; fold d.
  - rewrite Hl, rev_app_distr. cbn [rev app walk_back]. by destruct (Z.gtb_spec (delivery tail) d); [lia|].
  - cbn [covered]. rewrite orb_false_r. apply orb_false_iff. split; [apply Z.eqb_neq|apply Z.ltb_ge]; lia.
Qed.

(** Two calls of [fixed_jb_put] are enough: the buffer is resynchronised once. *)
Lemma resynch_done fuel dat ms_ ts_ now jb : fixed_wf jb -> put_asserts dat ms_ ts_ now = true ->
  put_done jb dat ms_ (resynch_jb (put_fuel (S fuel) true dat ms_ ts_ now) jb ts_ now).
Proof.
  intros Hwf Hm. unfold resynch_jb. destruct (last (frames jb)) as [tail|] eqn:Hl.
  2:{ apply put_first_accepts; [done..|]. by apply last_None in Hl. }
  assert (Hne : frames jb <> []) by (intros He; by rewrite He in Hl).
  destruct (negb (force_resynch jb) && _); [by exists FIXED_JB_DROP, jb|].
  apply (put_done_shifted jb (ts_ - ts tail - ms tail)); [done|]. eapply put_at_end.
  - by apply shifted_wf.
  - done.
  - by apply shifted_last.
  - cbn. lia.
  - done.
Qed.

Lemma fixed_put_spec fuel dat ms_ ts_ now jb : fixed_wf jb -> put_asserts dat ms_ ts_ now = true ->
  put_done jb dat ms_ (put_fuel (S (S fuel)) true dat ms_ ts_ now jb).
Proof.
  intros Hwf Hm. set (d := rxcore jb + delay jb + ts_).
  pose proof (resynch_done fuel dat ms_ ts_ now jb Hwf Hm) as Hr.
  destruct (Z.lt_ge_cases d (next_delivery jb)) as [Hlow|Hlow].
  { rewrite put_fuel_S by done. unfold put_body. fold d. by rewrite (proj2 (Z.ltb_lt d (next_delivery jb))) by lia. }
  destruct (Z.lt_ge_cases (next_delivery jb + delay jb + resync_threshold (conf jb)) d) as [Hhigh|Hhigh].
  { rewrite put_fuel_S by done. unfold put_body. fold d. rewrite (proj2 (Z.ltb_ge d (next_delivery jb))) by lia.
    by destruct (Z.gtb_spec d (next_delivery jb + delay jb + resync_threshold (conf jb))); [|lia]. }
  destruct (walk_back d (rev (frames jb)) []) as [b a] eqn:Hw. destruct (covered d ms_ b a) eqn:Hc.
  - rewrite put_fuel_S by done. unfold put_body. fold d. rewrite (proj2 (Z.ltb_ge d (next_delivery jb))) by lia.
    destruct (Z.gtb_spec d (next_delivery jb + delay jb + resync_threshold (conf jb))); [lia|]. by rewrite Hw, Hc.
  - eapply put_accepts; [done..|fold d; lia|fold d; exact Hw|done].
Qed.

Lemma put_first_spec dat ms_ ts_ now jb : fixed_wf jb -> put_asserts dat ms_ ts_ now = true -> frames jb = [] ->
  put_done jb dat ms_ (fixed_jb_put_first true jb dat ms_ ts_ now).
Proof. intros Hwf Hm He. exact (put_first_accepts 1 dat ms_ ts_ now jb Hwf Hm He). Qed.

Lemma accepted_held jb dat ms_ jb' : accepted jb dat ms_ jb' -> held jb' ≡ₚ dat :: held jb.
Proof.
  intros (b & a & d & Hs & Hs' & _). assert (Hh : forall j, held j = (fun '(x, _, _) => x) <$> slots j).
  { intros j. unfold held, slots. rewrite <- list_fmap_compose. by apply list_fmap_ext. }
  rewrite !Hh, Hs, Hs', !fmap_app. cbn [fmap list_fmap]. symmetry. apply Permutation_middle.
Qed.

Lemma slots_held jb jb' : slots jb' = slots jb -> held jb' = held jb.
Proof.
  intros Hs. assert (Hh : forall j, held j = (fun '(x, _, _) => x) <$> slots j).
  { intros j. unfold held, slots. rewrite <- list_fmap_compose. by apply list_fmap_ext. }
  by rewrite !Hh, Hs.
Qed.

Lemma fixed_jb_new_wf c jb : fixed_jb_new true c = Some jb -> fixed_wf jb /\ frames jb = [].
Proof.
  unfold fixed_jb_new. intros [= <-]. split; [|done]. split; cbn; try constructor;
    unfold FIXED_JB_SIZE_DEFAULT, FIXED_JB_RESYNCH_THRESHOLD_DEFAULT; case_if; lia.
Qed.

Lemma get_jb_head_wf jb fr rest : fixed_wf jb -> frames jb = fr :: rest -> fixed_wf (get_jb_head jb fr rest).
Proof.
  intros [Ht Hd Hs Hf] He. rewrite He in Hs, Hf. apply StronglySorted_inv in Hs as [Hs _].
  apply Forall_cons in Hf as [_ Hf]. by split.
Qed.

Lemma next_delivery_wf jb n : fixed_wf jb -> fixed_wf (jb <| next_delivery := n |>).
Proof. by intros []. Qed.

(** What [fixed_jb_get] answers at time [now], and when. *)
Definition get_answer (jb : fixed_jb) (now interpl : Z) (res : fixed_jb_code * fixed_jb_frame * fixed_jb) : Prop :=
  let '(code, fr, jb') := res in
  fixed_wf jb' /\
  match code with
  | FIXED_JB_NOFRAME => now < next_delivery jb /\ jb' = jb
  | FIXED_JB_INTERP => next_delivery jb <= now /\ frames jb' = frames jb /\
      next_delivery jb' = next_delivery jb + interpl /\ Forall (fun f => now < delivery f) (frames jb)
  | FIXED_JB_OK | FIXED_JB_DROP => next_delivery jb <= now /\ frames jb = fr :: frames jb' /\
      Forall (earlier fr) (frames jb') /\ next_delivery jb' = delivery fr + ms fr /\
      if decide (code = FIXED_JB_OK) then delivery fr <= now <= delivery fr + ms fr else delivery fr + ms fr < now
  end.

Lemma fixed_jb_get_spec jb out now interpl : fixed_wf jb -> 0 <= now -> 2 <= interpl ->
  exists res, fixed_jb_get jb out now interpl = Ret res /\ get_answer jb now interpl res.
Proof.
  intros Hwf Hn Hi. unfold fixed_jb_get. rewrite !Z.geb_leb, !(proj2 (Z.leb_le _ _)) by lia. cbn [andb oassert].
  destruct (Z.ltb_spec now (next_delivery jb)) as [H|H]; [eexists; split; [done|]; by split|].
  pose proof Hwf as [_ _ Hs _]. destruct (frames jb) as [|fr rest] eqn:He.
  { eexists. split; [done|]. split; [by apply next_delivery_wf|]. by cbn; rewrite He. }
  apply StronglySorted_inv in Hs as [Hs Hfr].
  destruct (Z.gtb_spec now (delivery fr + ms fr)) as [Hd|Hd].
  { eexists. split; [done|]. split; [by apply get_jb_head_wf|]. by rewrite decide_False. }
  destruct (Z.ltb_spec now (delivery fr)) as [Hl|Hl].
  - eexists. split; [done|]. split; [by apply next_delivery_wf|]. cbn. rewrite He. split_and!; [lia|done|done|].
    constructor; [done|]. eapply Forall_impl; [done|]. unfold earlier. cbn. lia.
  - eexists. split; [done|]. split; [by apply get_jb_head_wf|]. by rewrite decide_True.
Qed.

(** ** Properties *)

(** C29: putting a frame into the fixed buffer always returns: the recursion through
    [resynch_jb] is at most one deep.  The buffer stays in strict delivery order.
    Either the frame is accepted, at a time inside the window, without touching the
    frame before it (nor, unless it becomes the head, the frame after it), or it is
    dropped and the frames that wait keep their times; an empty buffer accepts. *)
Theorem fixed_jb_put_correct jb dat ms_ ts_ now :
  fixed_wf jb -> dat <> 0 -> 2 <= ms_ -> 0 <= ts_ -> 0 <= now ->
  exists code jb', fixed_jb_put true jb dat ms_ ts_ now = Ret (code, jb') /\ fixed_wf jb' /\
    match code with
    | FIXED_JB_OK => accepted jb dat ms_ jb'
    | FIXED_JB_DROP => slots jb' = slots jb /\ frames jb <> []
    | _ => False
    end.
Proof.
  intros Hwf Hd Hm Ht Hn. destruct (fixed_put_spec 0 dat ms_ ts_ now jb Hwf) as (code & jb' & E & W & _ & _ & _ & H).
  { by apply put_asserts_ok. }
  by exists code, jb'.
Qed.

(** The fixed buffer plays a frame only within its time ([delivery] to
    [delivery + ms]), drops it only when that is over, and asks for interpolation
    only when no frame is due; frames leave in order of delivery and the next time
    is the end of the frame that left. *)
Theorem fixed_jb_get_correct jb out now interpl : fixed_wf jb -> 0 <= now -> 2 <= interpl ->
  exists res, fixed_jb_get jb out now interpl = Ret res /\ get_answer jb now interpl res.
Proof. intros. by apply fixed_jb_get_spec. Qed.

(** A failed allocation is dereferenced. *)
Theorem fixed_jb_put_nomem c jb dat ms_ ts_ now : fixed_jb_new true c = Some jb ->
  put_asserts dat ms_ ts_ now = true -> fixed_jb_put_first false jb dat ms_ ts_ now = BadAccess.
Proof.
  intros Hnew Hm. destruct (fixed_jb_new_wf c jb Hnew) as [[Ht Hd _ _] He].
  unfold fixed_jb_put_first, put_first_with, fixed_jb_put. rewrite put_fuel_S by done. unfold put_body. cbn.
  rewrite He. cbn. rewrite (proj2 (Z.ltb_ge _ _)) by lia.
  destruct (Z.gtb_spec (now - ts_ + delay jb + ts_) (now + delay jb + delay jb + resync_threshold (conf jb))); [lia|done].
Qed.

(** ** Witnesses *)

(** A buffer of 200 ms with the frames of 1000 and 1040 put, the first one played. *)
Definition ex_put (jb : fixed_jb) (dat ts_ now : Z) : fixed_jb :=
  match fixed_jb_put true jb dat 20 ts_ now with Ret (_, jb) => jb | _ => jb end.
Definition ex_fixed : fixed_jb :=
  mk_fixed [mk_frame 2 1040 20 240] (mk_conf 200 1000) (-1000) 200 220 false.

Lemma ex_fixed_wf : fixed_wf ex_fixed.
Proof. split; cbn; [done..| |]; repeat constructor; done. Qed.

Lemma ex_fixed_reached :
  match fixed_jb_new true (mk_conf 200 1000) with
  | Some jb =>
      match fixed_jb_put_first true jb 1 20 1000 0 with
      | Ret (_, jb) => fixed_jb_get (ex_put jb 2 1040 40) (mk_frame 0 0 0 0) 200 20
      | o => AssertFail
      end
  | None => AssertFail
  end = Ret (FIXED_JB_OK, mk_frame 1 1000 20 200, ex_fixed).
Proof. reflexivity. Qed.

(** A frame that becomes the head is not checked against the next one: it is
    accepted for 230 to 250 although the next is played from 240. *)
Theorem fixed_jb_put_head_overlap :
  exists jb', fixed_jb_put true ex_fixed 3 20 1030 60 = Ret (FIXED_JB_OK, jb') /\
    slots jb' = [(3, 20, 230); (2, 20, 240)].
Proof. eexists. split; reflexivity. Qed.

Lemma fixed_jb_put_correct_witness :
  exists jb', fixed_jb_put true ex_fixed 3 20 1060 60 = Ret (FIXED_JB_OK, jb') /\ fixed_wf jb'.
Proof.
  destruct (fixed_jb_put_correct ex_fixed 3 20 1060 60 ex_fixed_wf) as (code & jb' & E & W & _); [done..|].
  exists jb'. split; [|exact W]. rewrite E. assert (Hc : code = FIXED_JB_OK) by (by injection E). by rewrite Hc.
Defined.

Lemma fixed_jb_get_correct_witness :
  fixed_jb_get ex_fixed (mk_frame 0 0 0 0) 261 20 =
    Ret (FIXED_JB_DROP, mk_frame 2 1040 20 240, mk_fixed [] (mk_conf 200 1000) (-1000) 200 260 false) /\
  exists res, fixed_jb_get ex_fixed (mk_frame 0 0 0 0) 261 20 = Ret res /\ get_answer ex_fixed 261 20 res.
Proof.
  split; [reflexivity|]. apply (fixed_jb_get_correct ex_fixed (mk_frame 0 0 0 0) 261 20 ex_fixed_wf); done.
Defined.
