(* ===== verification/AbstractJb.v ===== *)
(** * Jitter buffers on channels: [main/abstract_jb.c]

    A channel reaches its jitter buffer through a table of operations, [struct
    ast_jb_impl].  [jb_impl] is that table, [JbLaws] is what the channel code relies
    on, and the theorems hold for every implementation with the laws (JbImpls.v gives
    the two of the source).  Frames live in a store, by address: a frame that is read
    or freed must be there. *)

From S2P Require Import Prelude Time.
From Stdlib Require Import ZArith Lia.
From stdpp Require Import base list numbers gmap.

#[local] Open Scope Z_scope.
#[local] Open Scope record_scope.
#[local] Open Scope outcome_scope.

(** ** Data *)

Inductive jb_impl_code := JB_IMPL_OK | JB_IMPL_DROP | JB_IMPL_INTERP | JB_IMPL_NOFRAME.

Definition AST_FRAME_DTMF : Z := 1.
Definition AST_FRAME_VOICE : Z := 2.
Definition AST_FORMAT_ILBC : Z := Z.shiftl 1 10.

Record ast_frame := mk_ast_frame {
  frametype : Z; has_timing_info : bool; len : Z; fr_ts : Z; codec : Z
}.

Record ast_jb_conf := mk_jb_conf {
  enabled : bool; forced : bool; max_size : Z; conf_threshold : Z; impl_name : str; conf_target_extra : Z
}.

(** [struct ast_jb_impl]. Functions given an address also see the frame there; [ok]
    tells whether an allocation succeeds; [empty_and_reset] returns the addresses it
    frees. *)
Record jb_impl := mk_impl {
  obj : Type;
  create : bool -> ast_jb_conf -> Z -> option obj;
  destroy : obj -> outcome unit;
  put_first : bool -> obj -> ptr -> ast_frame -> Z -> outcome (jb_impl_code * obj);
  put : bool -> obj -> ptr -> ast_frame -> Z -> outcome (jb_impl_code * obj);
  get : obj -> ptr -> Z -> Z -> outcome (jb_impl_code * ptr * obj);
  next : obj -> Z * obj;
  remove : obj -> ptr -> jb_impl_code * ptr * obj;
  force_resync : obj -> obj;
  empty_and_reset : obj -> list ptr * obj
}.

(** The names of [avail_impl]. *)
Inductive impl_kind := Fixed | Adaptive.

(** [struct ast_jb]: its flags, and [jbobj] for [NULL] or an object of the
    implementation. *)
Record ast_jb (O : Type) := mk_ast_jb {
  jb_conf_ : ast_jb_conf;
  impl : impl_kind;
  jbobj : option O;
  timebase : timeval;
  jb_next_ : Z;
  last_format : Z;
  JB_USE : bool;
  JB_TIMEBASE_INITIALIZED : bool;
  JB_CREATED : bool
}.
Arguments mk_ast_jb {O}.
Arguments jb_conf_ {O}.
Arguments impl {O}.
Arguments jbobj {O}.
Arguments timebase {O}.
Arguments jb_next_ {O}.
Arguments last_format {O}.
Arguments JB_USE {O}.
Arguments JB_TIMEBASE_INITIALIZED {O}.
Arguments JB_CREATED {O}.

#[export] Instance eta_ast_jb O : Eta (ast_jb O) := fun j =>
  mk_ast_jb (jb_conf_ j) (impl j) (jbobj j) (timebase j) (jb_next_ j) (last_format j)
    (JB_USE j) (JB_TIMEBASE_INITIALIZED j) (JB_CREATED j).

(** What [ast_write] is given. *)
Inductive written :=
  | Wrote (p : ptr) (f : ast_frame)
  | Interpolated (codec samples : Z) (delivery : timeval).

(** A channel: its jitter buffer, the frames that are allocated, what was written. *)
Record chan (O : Type) := mk_chan { jb : ast_jb O; store : gmap Z ast_frame; writes : list written }.
Arguments mk_chan {O}.
Arguments jb {O}.
Arguments store {O}.
Arguments writes {O}.

#[export] Instance eta_chan O : Eta (chan O) := fun c => mk_chan (jb c) (store c) (writes c).

Definition ast_codec_interp_len (format : Z) : Z := if format =? AST_FORMAT_ILBC then 30 else 20.

(** [get_now]; [tv] is what [gettimeofday] gives. *)
Definition get_now {O} (jb : ast_jb O) (tv : timeval) : Z := ast_tvdiff_ms tv (timebase jb).

Definition ast_frfree {O} (p : ptr) (c : chan O) : outcome (chan O) :=
  let* _ := oaccess (store c !! p) in
  Ret (c <| store := delete p (store c) |>).

Fixpoint frfree_all {O} (ps : list ptr) (c : chan O) : outcome (chan O) :=
  match ps with
  | [] => Ret c
  | p :: ps => let* c := ast_frfree p c in frfree_all ps c
  end.

(** ** Operations on one channel *)

Section operations.
Context (I : jb_impl).
#[local] Abbreviation chan := (chan (obj I)).

(** [create_jb]: [ok] is the allocation of the buffer, [okf] that of its first frame. *)
Definition create_jb (ok okf : bool) (c : chan) (frr : ptr) (tv : timeval) : outcome (Z * chan) :=
  match create I ok (jb_conf_ (jb c)) (conf_threshold (jb_conf_ (jb c))) with
  | None => Ret (-1, c <| jb := (jb c) <| jbobj := None |> |>)
  | Some o =>
      let now := get_now (jb c) tv in
      let* f := oaccess (store c !! frr) in
      let* (res, o) := put_first I okf o frr f now in
      let '(n, o) := next I o in
      let c := c <| jb := (jb c) <| jbobj := Some o |> <| jb_next_ := n |> <| last_format := codec f |> |> in
      match res with
      | JB_IMPL_OK => Ret (0, c)
      | _ => let* c := ast_frfree frr c in Ret (0, c)
      end
  end.

(** [ast_jb_put]; [dup] is the address of the copy [ast_frdup] makes, if it can. *)
Definition ast_jb_put (dup : option ptr) (ok okf : bool) (c : chan) (f : ast_frame) (tv : timeval)
    : outcome (Z * chan) :=
  let j := jb c in
  if negb (JB_USE j) then Ret (-1, c)
  else if negb (frametype f =? AST_FRAME_VOICE) then
    if (frametype f =? AST_FRAME_DTMF) && JB_CREATED j then
      let* o := oaccess (jbobj j) in
      Ret (-1, c <| jb := j <| jbobj := Some (force_resync I o) |> |>)
    else Ret (-1, c)
  else if negb (has_timing_info f) || (len f <? 2) || (fr_ts f <? 0) then Ret (-1, c)
  else
    match dup with
    | None => Ret (-1, c)
    | Some frr =>
        let c := c <| store := <[frr := f]> (store c) |> in
        if negb (JB_CREATED j) then
          let* (r, c) := create_jb ok okf c frr tv in
          if ctrue r then
            let* c := ast_frfree frr c in
            Ret (-1, c <| jb := (jb c) <| JB_USE := false |> |>)
          else Ret (0, c <| jb := (jb c) <| JB_CREATED := true |> |>)
        else
          let now := get_now j tv in
          let* o := oaccess (jbobj j) in
          let* (res, o) := put I okf o frr f now in
          match res with
          | JB_IMPL_OK =>
              let '(n, o) := next I o in
              Ret (0, c <| jb := j <| jbobj := Some o |> <| jb_next_ := n |> |>)
          | _ =>
              let* c := ast_frfree frr (c <| jb := j <| jbobj := Some o |> |>) in
              Ret (0, c)
          end
    end.

(** The loop of [jb_get_and_deliver]; [junk] is what the variable [f] holds before
    the buffer sets it. *)
Fixpoint deliver_loop (fuel : nat) (junk : ptr) (now : Z) (c : chan) : outcome chan :=
  match fuel with
  | O => NoFuel
  | S fuel =>
      if now >=? jb_next_ (jb c) then
        let interpolation_len := ast_codec_interp_len (last_format (jb c)) in
        let* o := oaccess (jbobj (jb c)) in
        let* (res, p, o) := get I o junk now interpolation_len in
        let step (c : chan) :=
          let '(n, o) := next I o in
          deliver_loop fuel p now (c <| jb := (jb c) <| jbobj := Some o |> <| jb_next_ := n |> |>) in
        match res with
        | JB_IMPL_OK | JB_IMPL_DROP =>
            let* f := oaccess (store c !! p) in
            let c := match res with JB_IMPL_OK => c <| writes := writes c ++ [Wrote p f] |> | _ => c end in
            let c := c <| jb := (jb c) <| last_format := codec f |> |> in
            let* c := ast_frfree p c in
            step c
        | JB_IMPL_INTERP =>
            let w := Interpolated (last_format (jb c)) (interpolation_len * 8)
                       (ast_tvadd (timebase (jb c)) (ast_samp2tv (jb_next_ (jb c)) 1000)) in
            step (c <| writes := writes c ++ [w] |>)
        | JB_IMPL_NOFRAME => (* the warning asks for the next time once more *)
            Ret (c <| jb := (jb c) <| jbobj := Some (snd (next I o)) |> |>)
        end
      else Ret c
  end.

Definition jb_get_and_deliver (fuel : nat) (junk : ptr) (c : chan) (tv : timeval) : outcome chan :=
  let now := get_now (jb c) tv in
  let* o := oaccess (jbobj (jb c)) in
  let '(n, o) := next I o in
  let c := c <| jb := (jb c) <| jbobj := Some o |> <| jb_next_ := n |> |> in
  if now <? n then Ret c else deliver_loop fuel junk now c.

(** One channel's part of [ast_jb_get_and_deliver]. *)
Definition ast_jb_get_and_deliver (fuel : nat) (junk : ptr) (c : chan) (tv : timeval) : outcome chan :=
  if JB_USE (jb c) && JB_CREATED (jb c) then jb_get_and_deliver fuel junk c tv else Ret c.

(** The loop of [ast_jb_destroy]. *)
Fixpoint remove_loop (fuel : nat) (junk : ptr) (o : obj I) (c : chan) : outcome (obj I * chan) :=
  match fuel with
  | O => NoFuel
  | S fuel =>
      let '(res, p, o) := remove I o junk in
      match res with
      | JB_IMPL_OK => let* c := ast_frfree p c in remove_loop fuel p o c
      | _ => Ret (o, c)
      end
  end.

Definition ast_jb_destroy (fuel : nat) (junk : ptr) (c : chan) : outcome chan :=
  if JB_CREATED (jb c) then
    let* o := oaccess (jbobj (jb c)) in
    let* (o, c) := remove_loop fuel junk o c in
    let* _ := destroy I o in
    Ret (c <| jb := (jb c) <| jbobj := None |> <| JB_CREATED := false |> |>)
  else Ret c.

(** One channel's part of [ast_jb_empty_and_reset]. *)
Definition ast_jb_empty_and_reset (c : chan) : outcome chan :=
  if JB_USE (jb c) && JB_CREATED (jb c) then
    let* o := oaccess (jbobj (jb c)) in
    let '(ps, o) := empty_and_reset I o in
    frfree_all ps (c <| jb := (jb c) <| jbobj := Some o |> |>)
  else Ret c.
End operations.

(** ** Two bridged channels *)

Definition name_of (k : impl_kind) : str :=
  match k with
  | Fixed => [102; 105; 120; 101; 100]
  | Adaptive => [97; 100; 97; 112; 116; 105; 118; 101]
  end.

Definition default_impl : impl_kind := Fixed.

Definition jb_choose_impl {O} (j : ast_jb O) : ast_jb O :=
  let name := impl_name (jb_conf_ j) in
  let k := match name with
           | [] => default_impl
           | _ => if same_name name (name_of Fixed) then Fixed
                  else if same_name name (name_of Adaptive) then Adaptive else default_impl
           end in
  j <| impl := k |>.

(** The properties of a channel technology. *)
Record tech := mk_tech { wants_jitter : bool; creates_jitter : bool }.

(** Whether audio going to the channel needs a jitter buffer: the half of
    [ast_jb_do_usecheck] for channel [j]; [other] gives the other channel's flag and
    timebase as they were at the start. *)
Definition usecheck_half {O} (t other : tech) (j : ast_jb O) (other_init : bool) (other_base tv : timeval)
    : ast_jb O * bool :=
  if ((negb (wants_jitter t) && creates_jitter other) || (forced (jb_conf_ j) && creates_jitter other)) &&
     enabled (jb_conf_ j)
  then
    let created := JB_CREATED j in
    let j := j <| JB_USE := true |> in
    let j := if negb (JB_TIMEBASE_INITIALIZED j)
             then j <| timebase := if other_init then other_base else tv |> <| JB_TIMEBASE_INITIALIZED := true |>
             else j in
    (if negb created then jb_choose_impl j else j, true)
  else (j, false).

(** [ast_jb_do_usecheck]; [tv0] and [tv1] are the times [gettimeofday] gives. *)
Definition ast_jb_do_usecheck {O0 O1} (t0 t1 : tech) (j0 : ast_jb O0) (j1 : ast_jb O1) (tv0 tv1 : timeval)
    : bool * ast_jb O0 * ast_jb O1 :=
  let '(j0', use0) := usecheck_half t0 t1 j0 (JB_TIMEBASE_INITIALIZED j1) (timebase j1) tv0 in
  let '(j1', use1) := usecheck_half t1 t0 j1 (JB_TIMEBASE_INITIALIZED j0) (timebase j0') tv1 in
  (use0 || use1, j0', j1').

Definition INT_MAX : Z := 2147483647.

Definition wait_for {O} (j : ast_jb O) (time_left : Z) (tv : timeval) : Z :=
  if JB_USE j && JB_CREATED j then s32 (jb_next_ j - get_now j tv) else time_left.

Definition ast_jb_get_when_to_wakeup {O0 O1} (j0 : ast_jb O0) (j1 : ast_jb O1) (time_left : Z) (tv : timeval) : Z :=
  let time_left := if time_left <? 0 then INT_MAX else time_left in
  let wait0 := wait_for j0 time_left tv in
  let wait1 := wait_for j1 time_left tv in
  let wait := if wait0 <? wait1 then wait0 else wait1 in
  let wait := if wait <? time_left then wait else time_left in
  if wait =? INT_MAX then -1 else if wait <? 1 then 1 else wait.

(** ** What an implementation promises *)

Definition lex_lt (a b : nat * nat) : Prop := (a.1 < b.1)%nat \/ a.1 = b.1 /\ (a.2 < b.2)%nat.

Lemma lex_lt_wf : well_founded lex_lt.
Proof.
  assert (H : forall n m, Acc lex_lt (n, m)); [|by intros [n m]].
  induction n as [n IHn] using lt_wf_ind. induction m as [m IHm] using lt_wf_ind.
  constructor. intros [n' m'] [Hn|[Hn Hm]]; cbn in *; [by apply IHn|]. subst n'. by apply IHm.
Qed.

Definition valid_frame (f : ast_frame) : Prop := 2 <= len f /\ 0 <= fr_ts f.

(** [jheld] are the addresses the buffer keeps; [jmeasure] decreases with every frame
    that leaves and every interpolation. *)
Class JbLaws (I : jb_impl) := {
  jinv : obj I -> Prop;
  jheld : obj I -> list ptr;
  jmeasure : Z -> obj I -> nat * nat;
  create_law ok conf thr o : create I ok conf thr = Some o -> jinv o /\ jheld o = [];
  destroy_law o : jinv o -> jheld o = [] -> destroy I o = Ret tt;
  put_first_law o p f now : jinv o -> jheld o = [] -> valid_frame f -> p <> 0 -> 0 <= now ->
    exists res o', put_first I true o p f now = Ret (res, o') /\ jinv o' /\
      match res with JB_IMPL_OK => jheld o' ≡ₚ p :: jheld o | _ => jheld o' ≡ₚ jheld o end;
  put_law o p f now : jinv o -> valid_frame f -> p <> 0 -> 0 <= now ->
    exists res o', put I true o p f now = Ret (res, o') /\ jinv o' /\
      match res with JB_IMPL_OK => jheld o' ≡ₚ p :: jheld o | _ => jheld o' ≡ₚ jheld o end;
  get_law o0 n o junk now il : jinv o0 -> next I o0 = (n, o) -> n <= now -> 0 <= now -> 2 <= il ->
    exists res p o', get I o junk now il = Ret (res, p, o') /\ jinv o' /\
      match res with
      | JB_IMPL_OK | JB_IMPL_DROP => jheld o ≡ₚ p :: jheld o' /\ lex_lt (jmeasure now o') (jmeasure now o)
      | JB_IMPL_INTERP => jheld o' ≡ₚ jheld o /\ lex_lt (jmeasure now o') (jmeasure now o)
      | JB_IMPL_NOFRAME => jheld o' ≡ₚ jheld o
      end;
  next_law o n o' now : jinv o -> next I o = (n, o') ->
    jinv o' /\ jheld o' = jheld o /\ jmeasure now o' = jmeasure now o;
  remove_law o junk : jinv o ->
    match remove I o junk with
    | (JB_IMPL_OK, p, o') => jinv o' /\ jheld o ≡ₚ p :: jheld o'
    | (_, _, o') => jinv o' /\ jheld o = [] /\ jheld o' = []
    end;
  force_law o : jinv o -> jinv (force_resync I o) /\ jheld (force_resync I o) = jheld o;
  empty_law o : jinv o ->
    jinv (snd (empty_and_reset I o)) /\ jheld (snd (empty_and_reset I o)) = [] /\
    fst (empty_and_reset I o) ≡ₚ jheld o
}.

(** ** Ownership of frames *)

(** The frames of [m] are those at the addresses [ps], each listed once. *)
Definition owns (ps : list ptr) (m : gmap Z ast_frame) : Prop :=
  NoDup ps /\ forall p, p ∈ ps <-> is_Some (m !! p).

#[export] Instance owns_proper : Proper ((≡ₚ) ==> (=) ==> iff) owns.
Proof.
  intros ps qs Hp m m' <-. unfold owns. setoid_rewrite Hp. done.
Qed.

Lemma owns_nil m : owns [] m <-> m = ∅.
Proof.
  split.
  - intros [_ H]. apply map_empty. intros p. destruct (m !! p) eqn:E; [|done].
    assert (Hin : p ∈ (@nil Z)) by (apply H; by eexists). by apply elem_of_nil in Hin.
  - intros ->. split; [constructor|]. intros p. rewrite lookup_empty, elem_of_nil. split; [done|by intros []].
Qed.

Lemma owns_insert ps m p f : owns ps m -> m !! p = None -> owns (p :: ps) (<[p := f]> m).
Proof.
  intros [Hn Hd] Hp. split.
  - constructor; [|done]. intros Hin. apply Hd in Hin as [? Hin]. congruence.
  - intros q. rewrite elem_of_cons, Hd. destruct (decide (q = p)) as [->|Hne].
    + rewrite lookup_insert_eq. split; [by eexists|auto].
    + rewrite lookup_insert_ne by done. split; [by intros [?|?]|auto].
Qed.

Lemma owns_delete ps m p : owns (p :: ps) m -> is_Some (m !! p) /\ owns ps (delete p m).
Proof.
  intros [Hn Hd]. apply NoDup_cons in Hn as [Hp Hn]. split; [apply Hd; set_solver|]. split; [done|].
  intros q. destruct (decide (q = p)) as [->|Hne].
  - rewrite lookup_delete_eq. split; [done|by intros []].
  - rewrite lookup_delete_ne by done. rewrite <- Hd, elem_of_cons. split; [auto|by intros [?|?]].
Qed.

Lemma frfree_ok {O} p ps (c : chan O) : owns (p :: ps) (store c) ->
  ast_frfree p c = Ret (c <| store := delete p (store c) |>) /\ owns ps (delete p (store c)).
Proof.
  intros Ho. destruct (owns_delete _ _ _ Ho) as [[f Hf] Hd]. split; [|done]. unfold ast_frfree. by rewrite Hf.
Qed.

Lemma frfree_all_ok {O} ps (c : chan O) : owns ps (store c) -> frfree_all ps c = Ret (c <| store := ∅ |>).
Proof.
  revert c. induction ps as [|p ps IH]; intros c Ho.
  - apply owns_nil in Ho. cbn. by destruct c; cbn in *; subst.
  - cbn [frfree_all]. destruct (frfree_ok p ps c Ho) as [-> Hd]. cbn [obind]. by rewrite IH.
Qed.

(** ** The invariant of a channel *)

Section laws.
Context (I : jb_impl) `{!JbLaws I}.
#[local] Abbreviation chan := (chan (obj I)).

(** A created buffer satisfies its invariant and keeps exactly the frames that are
    allocated; without a buffer none is. *)
Definition chan_wf (c : chan) : Prop :=
  match JB_CREATED (jb c), jbobj (jb c) with
  | true, Some o => jinv o /\ owns (jheld o) (store c)
  | false, None => store c = ∅
  | _, _ => False
  end.

Lemma chan_wf_created c : chan_wf c -> JB_CREATED (jb c) = true ->
  exists o, jbobj (jb c) = Some o /\ jinv o /\ owns (jheld o) (store c).
Proof. unfold chan_wf. intros H E. rewrite E in H. destruct (jbobj (jb c)) as [o|]; [|done]. by exists o. Qed.

(** After a put that answered [res], the frame at [frr] is kept or can be freed. *)
Lemma put_result_owns res (o o' : obj I) frr f m :
  match res with JB_IMPL_OK => jheld o' ≡ₚ frr :: jheld o | _ => jheld o' ≡ₚ jheld o end ->
  owns (jheld o) m -> m !! frr = None ->
  match res with
  | JB_IMPL_OK => owns (jheld o') (<[frr := f]> m)
  | _ => owns (frr :: jheld o') (<[frr := f]> m)
  end.
Proof.
  intros Hh Ho Hf. pose proof (owns_insert _ _ _ f Ho Hf) as Hi. destruct res; by rewrite Hh.
Qed.

Lemma create_spec ok c frr f tv : jbobj (jb c) = None ->
  store c = {[ frr := f ]} -> valid_frame f -> frr <> 0 -> 0 <= get_now (jb c) tv ->
  exists r c', create_jb I ok true c frr tv = Ret (r, c') /\ JB_USE (jb c') = JB_USE (jb c) /\ writes c' = writes c /\
    (r = -1 /\ c' = c \/
     r = 0 /\ exists o, jbobj (jb c') = Some o /\ jinv o /\ owns (jheld o) (store c')).
Proof.
  intros Hj Hs Hv Hp Hn. unfold create_jb.
  destruct (create I ok _ _) as [o|] eqn:Ec.
  2:{ eexists _, _. split; [done|]. split; [done|]. split; [done|]. left. split; [done|]. by destruct c as [[]]; cbn in *; subst. }
  destruct (create_law _ _ _ _ Ec) as [Hi Hh]. rewrite Hs, lookup_singleton_eq. cbn [oaccess obind].
  destruct (put_first_law o frr f _ Hi Hh Hv Hp Hn) as (res & o' & -> & Hi' & Hh'). cbn [obind].
  destruct (next I o') as [n o''] eqn:En. destruct (next_law o' n o'' 0 Hi' En) as (Hi'' & Hh'' & _).
  assert (He : owns (jheld o) ∅) by (rewrite Hh; by apply owns_nil).
  pose proof (put_result_owns res o o' frr f ∅ Hh' He (lookup_empty _)) as Ho. rewrite <- Hh'' in Ho.
  destruct res; [eexists _, _; split; [done|]; split; [done|]; split; [done|]; right; split; [done|]; exists o''; cbn; by rewrite Hs| | |];
    (match goal with |- context [ast_frfree frr ?c] => destruct (frfree_ok frr (jheld o'') c) as [-> Hd] end;
      [cbn; by rewrite Hs|];
     cbn [obind]; eexists _, _; split; [done|]; split; [done|]; split; [done|]; right; split; [done|]; exists o''; by cbn).
Qed.

(** A put on a created buffer. *)
Lemma put_created c o f frr tv : JB_CREATED (jb c) = true -> jbobj (jb c) = Some o -> jinv o -> owns (jheld o) (store c) ->
  valid_frame f -> frr <> 0 -> store c !! frr = None -> 0 <= get_now (jb c) tv ->
  exists res o', put I true o frr f (get_now (jb c) tv) = Ret (res, o') /\
    exists c', match res with
      | JB_IMPL_OK =>
          let '(n, o) := next I o' in
          Ret (0, c <| store := <[frr := f]> (store c) |> <| jb := (jb c) <| jbobj := Some o |> <| jb_next_ := n |> |>)
      | _ =>
          let* c := ast_frfree frr (c <| store := <[frr := f]> (store c) |> <| jb := (jb c) <| jbobj := Some o' |> |>) in
          Ret (0, c)
      end = Ret (0, c') /\ chan_wf c' /\ writes c' = writes c.
Proof.
  intros Hc Hj Hi Ho Hv Hp Hs Hn. destruct (put_law o frr f _ Hi Hv Hp Hn) as (res & o' & E & Hi' & Hh').
  exists res, o'. split; [done|]. pose proof (put_result_owns res o o' frr f _ Hh' Ho Hs) as Ho'.
  destruct (next I o') as [n o''] eqn:En. destruct (next_law o' n o'' 0 Hi' En) as (Hi'' & Hh'' & _).
  destruct res; [eexists; split; [done|]; split; [|done]; unfold chan_wf; cbn; rewrite Hc; by rewrite Hh''| | |];
    (match goal with |- context [ast_frfree frr ?c] => destruct (frfree_ok frr (jheld o') c) as [-> Hd] end; [done|];
     cbn [obind]; eexists; split; [done|]; split; [|done]; unfold chan_wf; cbn; by rewrite Hc).
Qed.

Lemma chan_put_spec dup ok c f tv : chan_wf c -> 0 <= get_now (jb c) tv ->
  (forall p, dup = Some p -> p <> 0 /\ store c !! p = None) ->
  exists r c', ast_jb_put I dup ok true c f tv = Ret (r, c') /\ chan_wf c' /\ writes c' = writes c.
Proof.
  intros Hwf Hn Hdup. unfold ast_jb_put. destruct (JB_USE (jb c)); cbn [negb]; [|by eexists _, _].
  destruct (frametype f =? AST_FRAME_VOICE); cbn [negb].
  2:{ destruct ((frametype f =? AST_FRAME_DTMF) && JB_CREATED (jb c)) eqn:E; [|by eexists _, _]. zb.
      destruct (chan_wf_created c Hwf) as (o & Hj & Hi & Ho); [done|]. rewrite Hj. cbn [oaccess obind].
      eexists _, _. split; [done|]. split; [|done]. destruct (force_law o Hi) as [Hi' Hh].
      unfold chan_wf. cbn. rewrite H0. by rewrite Hh. }
  destruct (negb (has_timing_info f) || (len f <? 2) || (fr_ts f <? 0)) eqn:Ev; [by eexists _, _|].
  assert (Hv : valid_frame f) by (unfold valid_frame; zb; lia). destruct dup as [frr|]; [|by eexists _, _].
  destruct (Hdup frr eq_refl) as [Hp Hs]. destruct (JB_CREATED (jb c)) eqn:Ec; cbn [negb].
  - destruct (chan_wf_created c Hwf Ec) as (o & Hj & Hi & Ho). rewrite Hj. cbn [oaccess obind].
    destruct (put_created c o f frr tv Ec Hj Hi Ho Hv Hp Hs Hn) as (res & o' & -> & c' & E & H). cbn [obind].
    exists 0, c'. by split.
  - unfold chan_wf in Hwf. rewrite Ec in Hwf. destruct (jbobj (jb c)) eqn:Hj; [done|].
    destruct (create_spec ok (c <| store := <[frr := f]> (store c) |>) frr f tv) as (r & c' & E & Hu & Hw & H);
      [done|cbn; by rewrite Hwf|done..|]. rewrite E. cbn [obind].
    destruct H as [[-> ->]|(-> & o & Ho & Hi & Hs')].
    + change (ctrue (-1)) with true. cbn iota. unfold ast_frfree. cbn. rewrite Hwf, lookup_insert_eq. cbn.
      eexists _, _. split; [done|]. split; [|done]. unfold chan_wf. cbn. rewrite Ec, Hj. by rewrite delete_insert_eq, delete_empty.
    + change (ctrue 0) with false. cbn iota. eexists _, _. split; [done|].
      split; [|done]. unfold chan_wf. cbn. by rewrite Ho.
Qed.

(** What is written from the store [m]: the addresses, each with the frame there. *)
Fixpoint delivered (ws : list written) : list ptr :=
  match ws with
  | [] => []
  | Wrote p _ :: ws => p :: delivered ws
  | Interpolated _ _ _ :: ws => delivered ws
  end.

Definition from_store (m : gmap Z ast_frame) (ws : list written) : Prop :=
  Forall (fun w => match w with Wrote p f => m !! p = Some f | _ => True end) ws.

(** The loop stops for one of two reasons: it is too early for what the buffer of the channel
    has next, or that buffer, asked for its time and then for a frame, had none; what the
    channel has then is the buffer after these calls and one more for the time. *)
Definition idle (now : Z) (c : chan) : Prop :=
  now < jb_next_ (jb c) \/
  exists o0 o junk p o', jb_next_ (jb c) <= now /\ jinv o0 /\ next I o0 = (jb_next_ (jb c), o) /\
    get I o junk now (ast_codec_interp_len (last_format (jb c))) = Ret (JB_IMPL_NOFRAME, p, o') /\
    jbobj (jb c) = Some (snd (next I o')) /\ jheld (snd (next I o')) ≡ₚ jheld o.

(** A delivery from [c] to [c']: the frames that left were written, in order, or
    dropped. *)
Definition delivery_ok (c c' : chan) : Prop :=
  exists ws dropped o o', writes c' = writes c ++ ws /\ from_store (store c) ws /\
    jbobj (jb c) = Some o /\ jbobj (jb c') = Some o' /\ jheld o ≡ₚ delivered ws ++ dropped ++ jheld o' /\
    chan_wf c' /\ JB_CREATED (jb c') = true /\ JB_USE (jb c') = JB_USE (jb c).

Lemma delivered_app ws ws' : delivered (ws ++ ws') = delivered ws ++ delivered ws'.
Proof. induction ws as [|[] ws IH]; cbn; [done|by rewrite IH|done]. Qed.

Lemma delivery_ok_step (c c1 c' : chan) o o1 w1 d1 :
  jbobj (jb c) = Some o -> jbobj (jb c1) = Some o1 -> writes c1 = writes c ++ w1 -> store c1 ⊆ store c ->
  from_store (store c) w1 -> jheld o ≡ₚ delivered w1 ++ d1 ++ jheld o1 -> JB_USE (jb c1) = JB_USE (jb c) ->
  delivery_ok c1 c' -> delivery_ok c c'.
Proof.
  intros Hj Hj1 Hw Hs Hf Hh Hu (ws & d & o1' & o' & Hw' & Hf' & Hj1' & Hj' & Hh' & Hwf & Hc & Hu').
  rewrite Hj1 in Hj1'. injection Hj1' as <-. exists (w1 ++ ws), (d1 ++ d), o, o'. split_and!; try done.
  - by rewrite Hw', Hw, app_assoc.
  - apply Forall_app. split; [done|]. eapply Forall_impl; [exact Hf'|]. intros [p f|]; [|done].
    intros Hl. by apply (lookup_weaken (store c1)).
  - rewrite delivered_app, Hh, Hh'. solve_Permutation.
  - by rewrite Hu', Hu.
Qed.

Lemma delivery_ok_refl (c c' : chan) o o' : jbobj (jb c) = Some o -> jbobj (jb c') = Some o' ->
  JB_CREATED (jb c') = true -> jinv o' -> jheld o' ≡ₚ jheld o -> owns (jheld o) (store c) ->
  store c' = store c -> writes c' = writes c -> JB_USE (jb c') = JB_USE (jb c) -> delivery_ok c c'.
Proof.
  intros Hj Hj' Hc Hi Hh Ho Hs Hw Hu. exists [], [], o, o'.
  split_and!; [by rewrite app_nil_r|constructor|done|done|cbn; by rewrite Hh| |done|done].
  unfold chan_wf. rewrite Hc, Hj', Hs. split; [done|]. by rewrite Hh.
Qed.

Lemma interp_len_ok format : 2 <= ast_codec_interp_len format.
Proof. unfold ast_codec_interp_len. case_if; lia. Qed.

(** The loop of [jb_get_and_deliver] from a buffer whose next time was just asked for. *)
Definition asked (c : chan) (o : obj I) : Prop :=
  JB_CREATED (jb c) = true /\ jbobj (jb c) = Some o /\ owns (jheld o) (store c) /\
  exists o0, jinv o0 /\ next I o0 = (jb_next_ (jb c), o).

Lemma asked_next (c : chan) o n o' : JB_CREATED (jb c) = true -> jinv o -> next I o = (n, o') ->
  owns (jheld o) (store c) -> asked (c <| jb := (jb c) <| jbobj := Some o' |> <| jb_next_ := n |> |>) o'.
Proof.
  intros Hc Hi Hn Ho. destruct (next_law o n o' 0 Hi Hn) as (_ & Hh & _). split_and!; [done|done|by rewrite Hh|].
  by exists o.
Qed.

(** One turn of the loop, given what the buffer answers. *)
Lemma deliver_loop_S fuel junk now (c : chan) o res p o' n1 o1 :
  jb_next_ (jb c) <= now -> jbobj (jb c) = Some o ->
  get I o junk now (ast_codec_interp_len (last_format (jb c))) = Ret (res, p, o') -> next I o' = (n1, o1) ->
  deliver_loop I (S fuel) junk now c =
    let step (c : chan) := deliver_loop I fuel p now (c <| jb := (jb c) <| jbobj := Some o1 |> <| jb_next_ := n1 |> |>) in
    match res with
    | JB_IMPL_OK | JB_IMPL_DROP =>
        let* f := oaccess (store c !! p) in
        let c := match res with JB_IMPL_OK => c <| writes := writes c ++ [Wrote p f] |> | _ => c end in
        let c := c <| jb := (jb c) <| last_format := codec f |> |> in
        let* c := ast_frfree p c in step c
    | JB_IMPL_INTERP =>
        step (c <| writes := writes c ++ [Interpolated (last_format (jb c)) (ast_codec_interp_len (last_format (jb c)) * 8)
                      (ast_tvadd (timebase (jb c)) (ast_samp2tv (jb_next_ (jb c)) 1000))] |>)
    | JB_IMPL_NOFRAME => Ret (c <| jb := (jb c) <| jbobj := Some o1 |> |>)
    end.
Proof.
  intros Hge Hj Eg En. cbn [deliver_loop]. destruct (Z.geb_spec now (jb_next_ (jb c))); [|lia].
  rewrite Hj. cbn [oaccess obind]. rewrite Eg. cbn [obind]. by rewrite En.
Qed.

(** Enough fuel for the rest of the loop is enough for one more turn. *)
Definition delivers (now : Z) (junk : ptr) (c : chan) : Prop :=
  exists fuel0, forall fuel, (fuel0 <= fuel)%nat ->
    exists c', deliver_loop I fuel junk now c = Ret c' /\ delivery_ok c c' /\ idle now c'.

Lemma delivers_step now junk (c c1 : chan) o o1 p w1 d1 :
  (forall fuel, deliver_loop I (S fuel) junk now c = deliver_loop I fuel p now c1) ->
  jbobj (jb c) = Some o -> jbobj (jb c1) = Some o1 -> writes c1 = writes c ++ w1 -> store c1 ⊆ store c ->
  from_store (store c) w1 -> jheld o ≡ₚ delivered w1 ++ d1 ++ jheld o1 -> JB_USE (jb c1) = JB_USE (jb c) ->
  delivers now p c1 -> delivers now junk c.
Proof.
  intros Hs Hj Hj1 Hw Hst Hf Hh Hu [fuel0 H]. exists (S fuel0). intros [|fuel] Hfuel; [lia|]. rewrite Hs.
  destruct (H fuel ltac:(lia)) as (c' & E & Hd & Hidle). exists c'. split_and!; [done| |done].
  by eapply delivery_ok_step.
Qed.

Lemma deliver_loop_spec now : 0 <= now -> forall o c junk, asked c o -> delivers now junk c.
Proof.
  intros Hn o. remember (jmeasure now o) as m eqn:Em. revert o Em.
  induction (lex_lt_wf m) as [m _ IH]; intros o -> c junk (Hc & Hj & Ho & o0 & Hi0 & Hnx).
  destruct (next_law _ _ _ now Hi0 Hnx) as (Hi & _ & _).
  destruct (Z.lt_ge_cases now (jb_next_ (jb c))) as [Hlt|Hge].
  { exists 1%nat. intros [|fuel] Hf; [lia|]. exists c. cbn [deliver_loop].
    destruct (Z.geb_spec now (jb_next_ (jb c))); [lia|]. split_and!; [done|by eapply delivery_ok_refl|by left]. }
  destruct (get_law o0 (jb_next_ (jb c)) o junk now (ast_codec_interp_len (last_format (jb c))) Hi0 Hnx Hge Hn (interp_len_ok _))
    as (res & p & o' & Eg & Hi' & Hres).
  destruct (next I o') as [n1 o1] eqn:En. destruct (next_law _ _ _ now Hi' En) as (Hi1 & Hh1 & Hm1).
  pose proof (fun fuel => deliver_loop_S fuel junk now c o res p o' n1 o1 Hge Hj Eg En) as Hstep.
  assert (Hleft : jheld o ≡ₚ p :: jheld o' -> exists f, store c !! p = Some f /\ owns (jheld o') (delete p (store c))).
  { intros Hp. rewrite Hp in Ho. destruct (owns_delete _ _ _ Ho) as [[f Hf] Hd]. by exists f. }
  destruct res.
  - destruct Hres as [Hp Hlex]. destruct (Hleft Hp) as (f & Hf & Hd). rewrite <- Hm1 in Hlex.
    cbv beta zeta in Hstep. rewrite Hf in Hstep. cbn [oaccess obind] in Hstep. unfold ast_frfree in Hstep.
    cbn [store setter] in Hstep. rewrite Hf in Hstep. cbn [oaccess obind] in Hstep.
    eapply (delivers_step _ _ _ _ o o1 p [Wrote p f] []); [exact Hstep|done|done|done| | | |done|].
    + apply delete_subseteq.
    + by repeat constructor.
    + by rewrite Hh1.
    + apply (IH _ Hlex o1 eq_refl). by apply (asked_next _ o').
  - destruct Hres as [Hp Hlex]. destruct (Hleft Hp) as (f & Hf & Hd). rewrite <- Hm1 in Hlex.
    cbv beta zeta in Hstep. rewrite Hf in Hstep. cbn [oaccess obind] in Hstep. unfold ast_frfree in Hstep.
    cbn [store setter] in Hstep. rewrite Hf in Hstep. cbn [oaccess obind] in Hstep.
    eapply (delivers_step _ _ _ _ o o1 p [] [p]); [exact Hstep|done|done|cbn; by rewrite app_nil_r| |constructor| |done|].
    + apply delete_subseteq.
    + by rewrite Hh1.
    + apply (IH _ Hlex o1 eq_refl). by apply (asked_next _ o').
  - destruct Hres as [Hp Hlex]. rewrite <- Hm1 in Hlex.
    eapply (delivers_step _ _ _ _ o o1 p [_] []); [exact Hstep|done|done|done|done|by repeat constructor| |done|].
    + by rewrite Hh1, Hp.
    + apply (IH _ Hlex o1 eq_refl). apply (asked_next _ o'); [done..|]. by rewrite Hp.
  - exists 1%nat. intros [|fuel] Hf; [lia|]. rewrite Hstep. eexists. split; [done|]. split.
    + eapply delivery_ok_refl; try done. by rewrite Hh1.
    + right. exists o0, o, junk, p, o'. rewrite En. cbn. split_and!; try done. by rewrite Hh1.
Qed.

Lemma get_and_deliver_spec (c : chan) junk tv : chan_wf c -> JB_CREATED (jb c) = true -> 0 <= get_now (jb c) tv ->
  exists fuel0, forall fuel, (fuel0 <= fuel)%nat ->
    exists c', jb_get_and_deliver I fuel junk c tv = Ret c' /\ delivery_ok c c' /\ idle (get_now (jb c) tv) c'.
Proof.
  intros Hwf Hc Hn. destruct (chan_wf_created c Hwf Hc) as (o & Hj & Hi & Ho).
  destruct (next I o) as [n o1] eqn:En. destruct (next_law o n o1 0 Hi En) as (Hi1 & Hh1 & _).
  set (c1 := c <| jb := (jb c) <| jbobj := Some o1 |> <| jb_next_ := n |> |>).
  destruct (deliver_loop_spec (get_now (jb c) tv) Hn o1 c1 junk) as [fuel0 H]; [by apply (asked_next _ o)|].
  exists fuel0. intros fuel Hf. unfold jb_get_and_deliver. rewrite Hj. cbn [oaccess obind]. rewrite En. fold c1.
  destruct (Z.ltb_spec (get_now (jb c) tv) n) as [Hlt|Hge].
  - exists c1. split_and!; [done| |by left]. eapply delivery_ok_refl; try done. by rewrite Hh1.
  - destruct (H fuel Hf) as (c' & -> & Hd & Hidle). exists c'. split_and!; [done| |done].
    eapply (delivery_ok_step c c1 c' o o1 [] []); try done; [by rewrite app_nil_r|constructor|by rewrite Hh1].
Qed.

Lemma remove_loop_spec (o : obj I) (c : chan) junk : jinv o -> owns (jheld o) (store c) ->
  exists fuel0, forall fuel, (fuel0 <= fuel)%nat ->
    exists o', remove_loop I fuel junk o c = Ret (o', c <| store := ∅ |>) /\ jinv o' /\ jheld o' = [].
Proof.
  remember (length (jheld o)) as k eqn:Ek. revert o c junk Ek. induction k as [|k IH]; intros o c junk Ek Hi Ho.
  - exists 1%nat. intros [|fuel] Hf; [lia|]. cbn [remove_loop]. pose proof (remove_law o junk Hi) as H.
    symmetry in Ek. apply length_zero_iff_nil in Ek. destruct (remove I o junk) as [[res p] o'].
    destruct res; [destruct H as [_ H]; rewrite Ek in H; by apply Permutation_nil_cons in H|..];
      exists o'; (split; [|by destruct H as (? & ? & ?)]); rewrite Ek in Ho; apply owns_nil in Ho;
      by destruct c; cbn in *; subst.
  - pose proof (remove_law o junk Hi) as H. destruct (remove I o junk) as [[res p] o'] eqn:Er.
    destruct res; [|by destruct H as (_ & H & _); rewrite H in Ek..]. destruct H as [Hi' Hh]. rewrite Hh in Ho.
    assert (k = length (jheld o')) by (rewrite Hh in Ek; cbn in Ek; lia). clear Ek.
    destruct (frfree_ok p _ c Ho) as [Ef Hd].
    set (c1 := c <| store := delete p (store c) |>) in Ef.
    destruct (IH o' c1 p ltac:(done) Hi' Hd) as [fuel0 Hrest]. exists (S fuel0).
    intros [|fuel] Hf; [lia|]. cbn [remove_loop]. rewrite Er, Ef. cbn [obind]. apply Hrest. lia.
Qed.

Lemma destroy_spec (c : chan) junk : chan_wf c -> exists fuel0, forall fuel, (fuel0 <= fuel)%nat ->
  exists c', ast_jb_destroy I fuel junk c = Ret c' /\ chan_wf c' /\ store c' = ∅ /\ JB_CREATED (jb c') = false /\
    writes c' = writes c.
Proof.
  intros Hwf. unfold ast_jb_destroy. destruct (JB_CREATED (jb c)) eqn:Hc.
  - destruct (chan_wf_created c Hwf Hc) as (o & Hj & Hi & Ho).
    destruct (remove_loop_spec o c junk Hi Ho) as [fuel0 H]. exists fuel0. intros fuel Hf. rewrite Hj. cbn [oaccess obind].
    destruct (H fuel Hf) as (o' & -> & Hi' & Hh'). cbn [obind]. rewrite (destroy_law o' Hi' Hh'). cbn [obind].
    by eexists.
  - exists 0%nat. intros fuel _. exists c. split_and!; try done. unfold chan_wf in Hwf. rewrite Hc in Hwf.
    by destruct (jbobj (jb c)).
Qed.

Lemma empty_and_reset_spec (c : chan) : chan_wf c ->
  exists c', ast_jb_empty_and_reset I c = Ret c' /\ chan_wf c' /\ writes c' = writes c /\
    (JB_USE (jb c) = true -> store c' = ∅).
Proof.
  intros Hwf. unfold ast_jb_empty_and_reset. destruct (JB_USE (jb c) && JB_CREATED (jb c)) eqn:Hu.
  - zb. destruct (chan_wf_created c Hwf H0) as (o & Hj & Hi & Ho). rewrite Hj. cbn [oaccess obind].
    destruct (empty_law o Hi) as (Hi' & Hh' & Hp). destruct (empty_and_reset I o) as [ps o'].
    rewrite frfree_all_ok by (cbn; by rewrite Hp). eexists. split_and!; [done| |done|done].
    unfold chan_wf. cbn. rewrite H0. split; [done|]. cbn in Hh'. rewrite Hh'. by apply owns_nil.
  - exists c. split_and!; try done. intros Hu'. rewrite Hu' in Hu. cbn in Hu. unfold chan_wf in Hwf.
    rewrite Hu in Hwf. by destruct (jbobj (jb c)).
Qed.

(** ** Runs of a channel *)

(** A channel before its first frame. *)
Definition fresh_chan (conf : ast_jb_conf) (k : impl_kind) : chan :=
  mk_chan (mk_ast_jb conf k None (mk_tv 0 0) 0 0 false false false) ∅ [].

(** One call on the channel.  Time does not go back before the timebase, and
    [ast_frdup] gives memory that is not in use. *)
Inductive chan_step : chan -> chan -> Prop :=
  | step_put dup ok f tv r c c' : 0 <= get_now (jb c) tv ->
      (forall p, dup = Some p -> p <> 0 /\ store c !! p = None) ->
      ast_jb_put I dup ok true c f tv = Ret (r, c') -> chan_step c c'
  | step_deliver fuel0 junk tv c c' : 0 <= get_now (jb c) tv ->
      (forall fuel, (fuel0 <= fuel)%nat -> ast_jb_get_and_deliver I fuel junk c tv = Ret c') -> chan_step c c'
  | step_reset c c' : ast_jb_empty_and_reset I c = Ret c' -> chan_step c c'
  | step_destroy fuel0 junk c c' :
      (forall fuel, (fuel0 <= fuel)%nat -> ast_jb_destroy I fuel junk c = Ret c') -> chan_step c c'
  | step_usecheck t other oi ob tv c :
      chan_step c (c <| jb := fst (usecheck_half t other (jb c) oi ob tv) |>).

Lemma usecheck_half_frame {O} t other (j : ast_jb O) oi ob tv :
  let j' := fst (usecheck_half t other j oi ob tv) in
  jbobj j' = jbobj j /\ JB_CREATED j' = JB_CREATED j /\ (JB_CREATED j = true -> impl j' = impl j).
Proof.
  unfold usecheck_half, jb_choose_impl. case_if; [|done]. cbn.
  destruct (JB_TIMEBASE_INITIALIZED j), (JB_CREATED j) eqn:E'; cbn; rewrite ?E'; by split_and!.
Qed.

Lemma chan_step_wf c c' : chan_step c c' -> chan_wf c -> chan_wf c'.
Proof.
  destruct 1 as [dup ok f tv r c c' Hn Hd E|fuel0 junk tv c c' Hn E|c c' E|fuel0 junk c c' E|t other oi ob tv c]; intros Hwf.
  - destruct (chan_put_spec dup ok c f tv Hwf Hn Hd) as (r1 & c1 & E1 & H & _). congruence.
  - unfold ast_jb_get_and_deliver in E. destruct (JB_USE (jb c) && JB_CREATED (jb c)) eqn:Hu.
    2:{ specialize (E fuel0 ltac:(lia)). congruence. }
    zb.
    destruct (get_and_deliver_spec c junk tv Hwf H0 Hn) as [fuel1 H1].
    destruct (H1 (fuel0 + fuel1)%nat ltac:(lia)) as (c1 & E1 & (ws & d & o & o' & _ & _ & _ & _ & _ & Hw & _) & _).
    rewrite (E (fuel0 + fuel1)%nat) in E1 by lia. congruence.
  - destruct (empty_and_reset_spec c Hwf) as (c1 & E1 & H & _). congruence.
  - destruct (destroy_spec c junk Hwf) as [fuel1 H1].
    destruct (H1 (fuel0 + fuel1)%nat ltac:(lia)) as (c1 & E1 & H & _). rewrite (E (fuel0 + fuel1)%nat) in E1 by lia. congruence.
  - destruct (usecheck_half_frame t other (jb c) oi ob tv) as (Hj & Hc & _). unfold chan_wf. cbn. by rewrite Hj, Hc.
Qed.
End laws.

(** ** Properties *)

(** C21: whatever implementation keeps the laws, and whatever sequence of puts,
    deliveries, resets, destructions and use checks a channel goes through, the
    frames that are allocated are exactly those its buffer holds, and every
    operation returns: no frame is read or freed after it was freed, none is freed
    twice, no assertion fails, and destroying the buffer leaves no frame behind. *)
Theorem channel_jb_safe (I : jb_impl) (L : JbLaws I) conf k c : rtc (chan_step I) (fresh_chan I conf k) c ->
  chan_wf I c /\
  (forall dup ok f tv, 0 <= get_now (jb c) tv -> (forall p, dup = Some p -> p <> 0 /\ store c !! p = None) ->
     exists r c', ast_jb_put I dup ok true c f tv = Ret (r, c')) /\
  (forall junk tv, 0 <= get_now (jb c) tv -> exists fuel0, forall fuel, (fuel0 <= fuel)%nat ->
     exists c', ast_jb_get_and_deliver I fuel junk c tv = Ret c') /\
  (exists c', ast_jb_empty_and_reset I c = Ret c') /\
  (forall junk, exists fuel0, forall fuel, (fuel0 <= fuel)%nat ->
     exists c', ast_jb_destroy I fuel junk c = Ret c' /\ store c' = ∅).
Proof.
  intros Hr. assert (Hwf : chan_wf I c).
  { revert Hr. assert (H0 : chan_wf I (fresh_chan I conf k)) by done. revert H0. generalize (fresh_chan I conf k) as c0.
    intros c0 H0 Hr. induction Hr; [done|]. eauto using chan_step_wf. }
  split_and!; [done|..].
  - intros dup ok f tv Hn Hd. destruct (chan_put_spec I dup ok c f tv Hwf Hn Hd) as (r & c' & E & _). eauto.
  - intros junk tv Hn. unfold ast_jb_get_and_deliver. destruct (JB_USE (jb c) && JB_CREATED (jb c)) eqn:Hu.
    2:{ exists 0%nat. eauto. }
    zb. destruct (get_and_deliver_spec I c junk tv Hwf H0 Hn) as [fuel0 H1]. exists fuel0. intros fuel Hf.
    destruct (H1 fuel Hf) as (c' & E & _). eauto.
  - destruct (empty_and_reset_spec I c Hwf) as (c' & E & _). eauto.
  - intros junk. destruct (destroy_spec I c junk Hwf) as [fuel0 H]. exists fuel0. intros fuel Hf.
    destruct (H fuel Hf) as (c' & E & _ & Hs & _). eauto.
Qed.

(** C37: delivering from a buffer terminates.  Each frame that leaves the buffer is
    written to the channel once, as it was queued, or dropped; the others stay; and
    the loop stops only when the next frame is due later or the buffer of the channel, asked
    for a frame at its time, gave none. *)
Theorem jb_get_and_deliver_correct (I : jb_impl) (L : JbLaws I) (c : chan (obj I)) junk tv :
  chan_wf I c -> JB_CREATED (jb c) = true -> 0 <= get_now (jb c) tv ->
  exists fuel0, forall fuel, (fuel0 <= fuel)%nat ->
    exists c', jb_get_and_deliver I fuel junk c tv = Ret c' /\ delivery_ok I c c' /\ idle I (get_now (jb c) tv) c'.
Proof. intros. by apply get_and_deliver_spec. Qed.

Lemma if_min a b : (if a <? b then a else b) = Z.min a b.
Proof. case_if; lia. Qed.

(** The bridge sleeps at least a millisecond, or (-1) until something happens,
    and never past the time a buffer in use is to deliver nor past the time left. *)
Theorem ast_jb_get_when_to_wakeup_bound {O0 O1} (j0 : ast_jb O0) (j1 : ast_jb O1) time_left tv :
  in_s 32 time_left -> in_s 32 (jb_next_ j0 - get_now j0 tv) -> in_s 32 (jb_next_ j1 - get_now j1 tv) ->
  let w := ast_jb_get_when_to_wakeup j0 j1 time_left tv in
  (w = -1 \/ 1 <= w < INT_MAX) /\
  (0 <= time_left < INT_MAX -> 1 <= w <= Z.max 1 time_left) /\
  (forall d, JB_USE j0 && JB_CREATED j0 = true /\ d = jb_next_ j0 - get_now j0 tv \/
             JB_USE j1 && JB_CREATED j1 = true /\ d = jb_next_ j1 - get_now j1 tv ->
     d < INT_MAX -> 1 <= w <= Z.max 1 d).
Proof.
  intros Ht H0 H1 w. unfold w, ast_jb_get_when_to_wakeup, wait_for.
  rewrite !(wraps_id 32), !if_min by (done || lia). unfold in_s, INT_MAX in *.
  assert (Htl : (if time_left <? 0 then 2147483647 else time_left) = 2147483647 /\ time_left < 0 \/
                (if time_left <? 0 then 2147483647 else time_left) = time_left /\ 0 <= time_left) by (case_if; lia).
  generalize dependent (if time_left <? 0 then 2147483647 else time_left). intros tl Htl.
  destruct (JB_USE j0 && JB_CREATED j0), (JB_USE j1 && JB_CREATED j1);
    (split_and!; [|intros Ht'|intros d [[? Hd]|[? Hd]] Hd'; try done]); repeat case_if; lia.
Qed.

(** The channel with technology [t] needs a buffer towards [other]. *)
Definition needs (t other : tech) (c : ast_jb_conf) : bool :=
  creates_jitter other && (negb (wants_jitter t) || forced c) && enabled c.

(** What one half of the check does to a channel. *)
Definition checked {O} (t other : tech) (oi : bool) (ob : timeval) (j j' : ast_jb O) : Prop :=
  JB_USE j' = JB_USE j || needs t other (jb_conf_ j) /\ jbobj j' = jbobj j /\
  (JB_CREATED j = true -> impl j' = impl j) /\
  (JB_TIMEBASE_INITIALIZED j = true -> timebase j' = timebase j /\ JB_TIMEBASE_INITIALIZED j' = true) /\
  (needs t other (jb_conf_ j) = true -> JB_TIMEBASE_INITIALIZED j = false -> oi = true ->
     timebase j' = ob /\ JB_TIMEBASE_INITIALIZED j' = true).

Lemma usecheck_half_spec {O} t other (j : ast_jb O) oi ob tv :
  checked t other oi ob j (fst (usecheck_half t other j oi ob tv)) /\
  snd (usecheck_half t other j oi ob tv) = needs t other (jb_conf_ j).
Proof.
  unfold usecheck_half, checked, jb_choose_impl.
  replace ((negb (wants_jitter t) && creates_jitter other || forced (jb_conf_ j) && creates_jitter other) && enabled (jb_conf_ j))
    with (needs t other (jb_conf_ j)) by (unfold needs; by destruct (creates_jitter other), (wants_jitter t), (forced (jb_conf_ j))).
  destruct (needs t other (jb_conf_ j)); [|by rewrite orb_false_r]. rewrite orb_true_r. cbn.
  destruct (JB_TIMEBASE_INITIALIZED j) eqn:T, (JB_CREATED j); cbn; rewrite ?T; split_and!; try done; by intros _ _ ->.
Qed.

(** C39: the use check turns a buffer on exactly for a channel whose peer creates
    jitter, that is enabled and either does not take jitter itself or is forced; it
    gives the buffer a timebase (the peer's, if it has one) once, and chooses the
    implementation by name only while there is no buffer: a created buffer keeps
    the implementation its object belongs to. *)
Theorem ast_jb_do_usecheck_correct {O0 O1} t0 t1 (j0 : ast_jb O0) (j1 : ast_jb O1) tv0 tv1 r j0' j1' :
  ast_jb_do_usecheck t0 t1 j0 j1 tv0 tv1 = (r, j0', j1') ->
  r = needs t0 t1 (jb_conf_ j0) || needs t1 t0 (jb_conf_ j1) /\
  checked t0 t1 (JB_TIMEBASE_INITIALIZED j1) (timebase j1) j0 j0' /\
  checked t1 t0 (JB_TIMEBASE_INITIALIZED j0) (timebase j0) j1 j1'.
Proof.
  unfold ast_jb_do_usecheck. intros E.
  destruct (usecheck_half_spec t0 t1 j0 (JB_TIMEBASE_INITIALIZED j1) (timebase j1) tv0) as [H0 U0].
  destruct (usecheck_half t0 t1 j0 _ _ _) as [j0'' use0]. cbn in H0, U0.
  destruct (usecheck_half_spec t1 t0 j1 (JB_TIMEBASE_INITIALIZED j0) (timebase j0'') tv1) as [H1 U1].
  destruct (usecheck_half t1 t0 j1 _ _ _) as [j1'' use1]. cbn in H1, U1. injection E as <- <- <-. subst.
  split_and!; [done|done|]. destruct H0 as (_ & _ & _ & Htb & _), H1 as (? & ? & ? & ? & Hb).
  split_and!; try done. intros Hn Hi Ho. destruct (Htb Ho) as [<- _]. auto.
Qed.
