(* ===== verification/JbImpls.v ===== *)
(** * The two jitter buffer implementations of [main/abstract_jb.c]

    The table [avail_impl]: the fixed and the adaptive buffer behind the operations of
    [struct ast_jb_impl], and the proofs that both keep the laws the channel code
    relies on. *)

From S2P Require Import Prelude Time Jitterbuf FixedJb AbstractJb.
From Stdlib Require Import ZArith Lia.
From stdpp Require Import base list numbers gmap.

#[local] Open Scope Z_scope.
#[local] Open Scope record_scope.
#[local] Open Scope outcome_scope.

(** ** The fixed buffer *)

Definition fixed_to_abstract_code (c : fixed_jb_code) : jb_impl_code :=
  match c with
  | FIXED_JB_OK => JB_IMPL_OK
  | FIXED_JB_DROP => JB_IMPL_DROP
  | FIXED_JB_INTERP => JB_IMPL_INTERP
  | FIXED_JB_NOFRAME => JB_IMPL_NOFRAME
  end.

Definition jb_create_fixed (ok : bool) (c : ast_jb_conf) (resynch_threshold : Z) : option fixed_jb :=
  fixed_jb_new ok (FixedJb.mk_conf (max_size c) resynch_threshold).

Definition jb_destroy_fixed (jb : fixed_jb) : outcome unit := fixed_jb_destroy jb.

Definition jb_put_first_fixed (ok : bool) (jb : fixed_jb) (p : ptr) (fin : ast_frame) (now : Z)
    : outcome (jb_impl_code * fixed_jb) :=
  let* (res, jb) := fixed_jb_put_first ok jb p (len fin) (fr_ts fin) now in
  Ret (fixed_to_abstract_code res, jb).

Definition jb_put_fixed (ok : bool) (jb : fixed_jb) (p : ptr) (fin : ast_frame) (now : Z)
    : outcome (jb_impl_code * fixed_jb) :=
  let* (res, jb) := fixed_jb_put ok jb p (len fin) (fr_ts fin) now in
  Ret (fixed_to_abstract_code res, jb).

(** The local [struct fixed_jb_frame], not initialised; [junk] is its data. *)
Definition fixed_junk (junk : ptr) : fixed_jb_frame := FixedJb.mk_frame junk 0 0 0.

Definition jb_get_fixed (jb : fixed_jb) (junk : ptr) (now interpl : Z) : outcome (jb_impl_code * ptr * fixed_jb) :=
  let* (res, frame, jb) := fixed_jb_get jb (fixed_junk junk) now interpl in
  Ret (fixed_to_abstract_code res, FixedJb.data frame, jb).

Definition jb_next_fixed (jb : fixed_jb) : Z * fixed_jb := (fixed_jb_next jb, jb).

Definition jb_remove_fixed (jb : fixed_jb) (junk : ptr) : jb_impl_code * ptr * fixed_jb :=
  let '(res, frame, jb) := fixed_jb_remove jb (fixed_junk junk) in
  (fixed_to_abstract_code res, FixedJb.data frame, jb).

Definition jb_force_resynch_fixed (jb : fixed_jb) : fixed_jb := fixed_jb_set_force_resynch jb.

(** The loop of [jb_empty_and_reset_fixed]; every turn removes a frame, so the fuel
    is one more than there are frames. *)
Fixpoint empty_fixed (fuel : nat) (jb : fixed_jb) : list ptr * fixed_jb :=
  match fuel with
  | O => ([], jb)
  | S fuel =>
      match fixed_jb_remove jb (fixed_junk 0) with
      | (FIXED_JB_OK, f, jb) => let '(ps, jb) := empty_fixed fuel jb in (FixedJb.data f :: ps, jb)
      | (_, _, jb) => ([], jb)
      end
  end.

Definition jb_empty_and_reset_fixed (jb : fixed_jb) : list ptr * fixed_jb :=
  empty_fixed (S (length (FixedJb.frames jb))) jb.

Definition fixed_impl : jb_impl :=
  mk_impl fixed_jb jb_create_fixed jb_destroy_fixed jb_put_first_fixed jb_put_fixed jb_get_fixed jb_next_fixed
    jb_remove_fixed jb_force_resynch_fixed jb_empty_and_reset_fixed.

(** ** The adaptive buffer *)

Definition adaptive_to_abstract_code (c : jb_return_code) : jb_impl_code :=
  match c with
  | JB_OK => JB_IMPL_OK
  | JB_EMPTY => JB_IMPL_NOFRAME
  | JB_NOFRAME => JB_IMPL_NOFRAME
  | JB_INTERP => JB_IMPL_INTERP
  | JB_DROP => JB_IMPL_DROP
  | JB_SCHED => JB_IMPL_OK
  end.

(** Memory before [jb_new] resets it: only the settings survive the reset, and
    [jb_setconf] overwrites them. *)
Definition adaptive_raw : jitterbuf :=
  mk_jb (mk_info (Jitterbuf.mk_conf 0 0 0 0) 0 0 0 0 0 0 0 0 0 0 0 0 0 0 0 0 0 0 0 0) [] 0 [] [] false false [] [].

Definition jb_create_adaptive (ok : bool) (c : ast_jb_conf) (resynch_threshold : Z) : option jitterbuf :=
  if ok then
    Some (snd (jb_setconf (jb_reset adaptive_raw)
                 (Jitterbuf.mk_conf (max_size c) (conf_threshold c) 10 (conf_target_extra c))))
  else None.

(** [jb_destroy] only frees memory. *)
Definition jb_destroy_adaptive (jb : jitterbuf) : outcome unit := Ret tt.

Definition jb_put_adaptive (ok : bool) (jb : jitterbuf) (p : ptr) (fin : ast_frame) (now : Z)
    : outcome (jb_impl_code * jitterbuf) :=
  let '(res, jb) := jb_put ok jb p JB_TYPE_VOICE (len fin) (fr_ts fin) now in
  Ret (adaptive_to_abstract_code res, jb).

Definition jb_put_first_adaptive (ok : bool) (jb : jitterbuf) (p : ptr) (fin : ast_frame) (now : Z)
    : outcome (jb_impl_code * jitterbuf) :=
  jb_put_adaptive ok (jb <|| resync_offset := fr_ts fin ||>) p fin now.

Definition adaptive_junk (junk : ptr) : jb_frame := Jitterbuf.mk_frame junk 0 0 JB_TYPE_CONTROL.

Definition jb_get_adaptive (jb : jitterbuf) (junk : ptr) (now interpl : Z) : outcome (jb_impl_code * ptr * jitterbuf) :=
  let '(res, frame, jb) := jb_get jb (adaptive_junk junk) now interpl in
  Ret (adaptive_to_abstract_code res, Jitterbuf.data frame, jb).

Definition jb_next_adaptive (jb : jitterbuf) : Z * jitterbuf := jb_next jb.

Definition jb_remove_adaptive (jb : jitterbuf) (junk : ptr) : jb_impl_code * ptr * jitterbuf :=
  let '(res, frame, jb) := jb_getall jb (adaptive_junk junk) in
  (adaptive_to_abstract_code res, Jitterbuf.data frame, jb).

Definition jb_force_resynch_adaptive (jb : jitterbuf) : jitterbuf := jb.

Fixpoint empty_adaptive (fuel : nat) (jb : jitterbuf) : list ptr * jitterbuf :=
  match fuel with
  | O => ([], jb)
  | S fuel =>
      match jb_getall jb (adaptive_junk 0) with
      | (JB_OK, f, jb) => let '(ps, jb) := empty_adaptive fuel jb in (Jitterbuf.data f :: ps, jb)
      | (_, _, jb) => ([], jb)
      end
  end.

Definition jb_empty_and_reset_adaptive (jb : jitterbuf) : list ptr * jitterbuf :=
  let '(ps, jb) := empty_adaptive (S (length (Jitterbuf.frames jb))) jb in
  (ps, jb_reset jb).

Definition adaptive_impl : jb_impl :=
  mk_impl jitterbuf jb_create_adaptive jb_destroy_adaptive jb_put_first_adaptive jb_put_adaptive jb_get_adaptive
    jb_next_adaptive jb_remove_adaptive jb_force_resynch_adaptive jb_empty_and_reset_adaptive.

Definition avail_impl (k : impl_kind) : jb_impl := match k with Fixed => fixed_impl | Adaptive => adaptive_impl end.

(** ** The fixed buffer keeps the laws *)

Definition fixed_measure (now : Z) (jb : fixed_jb) : nat * nat :=
  (length (FixedJb.frames jb), Z.to_nat (now - next_delivery jb + 1)).

Lemma put_done_result jb p ms_ res : put_done jb p ms_ res ->
  exists code jb', res = Ret (code, jb') /\ fixed_wf jb' /\
    match fixed_to_abstract_code code with
    | JB_IMPL_OK => FixedJb.held jb' ≡ₚ p :: FixedJb.held jb
    | _ => FixedJb.held jb' ≡ₚ FixedJb.held jb
    end.
Proof.
  intros (code & jb' & -> & Hwf & _ & _ & _ & H). exists code, jb'. split_and!; [done..|].
  destruct code; cbn; [by eapply accepted_held|destruct H as [H _]; by rewrite (slots_held jb jb' H)|done|done].
Qed.

Lemma empty_fixed_spec fuel jb : fixed_wf jb -> (length (FixedJb.frames jb) < fuel)%nat ->
  fixed_wf (snd (empty_fixed fuel jb)) /\ FixedJb.held (snd (empty_fixed fuel jb)) = [] /\
  fst (empty_fixed fuel jb) = FixedJb.held jb.
Proof.
  revert jb. induction fuel as [|fuel IH]; intros jb Hwf Hf; [lia|]. cbn [empty_fixed]. unfold fixed_jb_remove.
  unfold FixedJb.held at 1 2. destruct (FixedJb.frames jb) as [|fr rest] eqn:He; [cbn; by rewrite He|].
  destruct (IH (get_jb_head jb fr rest)) as (Hw & Hh & Hps); [by apply get_jb_head_wf|cbn in *; lia|].
  destruct (empty_fixed fuel (get_jb_head jb fr rest)) as [ps jb']. cbn in *. by rewrite Hps.
Qed.

#[export] Instance fixed_laws : JbLaws fixed_impl.
Proof.
  refine (Build_JbLaws fixed_impl fixed_wf FixedJb.held fixed_measure _ _ _ _ _ _ _ _ _).
  - intros ok c thr o. cbn. unfold jb_create_fixed. destruct ok; [|done]. intros H.
    destruct (fixed_jb_new_wf _ _ H) as [Hw He]. split; [done|]. unfold FixedJb.held. by rewrite He.
  - intros o Hw Hh. cbn. unfold jb_destroy_fixed, fixed_jb_destroy. apply fmap_nil_inv in Hh. by rewrite Hh.
  - intros o p f now Hw Hh [Hl Ht] Hp Hn. cbn. unfold jb_put_first_fixed. apply fmap_nil_inv in Hh.
    destruct (put_done_result o p (len f) _ (put_first_spec p (len f) (fr_ts f) now o Hw ltac:(by apply put_asserts_ok) Hh))
      as (code & jb' & -> & Hw' & Hr). cbn. by eexists _, _.
  - intros o p f now Hw [Hl Ht] Hp Hn. cbn. unfold jb_put_fixed.
    destruct (put_done_result o p (len f) _ (fixed_put_spec 0 p (len f) (fr_ts f) now o Hw ltac:(by apply put_asserts_ok)))
      as (code & jb' & E & Hw' & Hr). unfold fixed_jb_put. rewrite E. cbn. by eexists _, _.
  - intros o0 n o junk now il Hw [= <- <-] Hge Hn Hi. cbn. unfold jb_get_fixed, fixed_jb_next in *.
    destruct (fixed_jb_get_spec o0 (fixed_junk junk) now il Hw Hn Hi) as ([[code fr] jb'] & -> & Hw' & Ha). cbn.
    eexists _, _, _. split; [done|]. split; [done|]. unfold FixedJb.held, lex_lt, fixed_measure.
    destruct code; cbn.
    + destruct Ha as (_ & -> & _). split; [done|]. cbn. lia.
    + destruct Ha as (_ & -> & _). split; [done|]. cbn. lia.
    + destruct Ha as (_ & -> & -> & _). split; [done|]. cbn. lia.
    + destruct Ha as [_ ->]. done.
  - by intros o n o' now Hw [= <- <-].
  - intros o junk Hw. cbn. unfold jb_remove_fixed, fixed_jb_remove, FixedJb.held.
    destruct (FixedJb.frames o) as [|fr rest] eqn:He; cbn; [by rewrite He|]. split; [by apply get_jb_head_wf|done].
  - intros o [Ht Hd Hs Hf]. by split.
  - intros o Hw. destruct (empty_fixed_spec (S (length (FixedJb.frames o))) o Hw ltac:(lia)) as (H1 & H2 & H3).
    split_and!; [exact H1|exact H2|]. change (fst (empty_fixed (S (length (FixedJb.frames o))) o) ≡ₚ FixedJb.held o).
    by rewrite H3.
Qed.

(** ** The adaptive buffer keeps the laws *)

Definition adaptive_held (jb : jitterbuf) : list ptr := Jitterbuf.data <$> Jitterbuf.frames jb.

Definition adaptive_measure (now : Z) (jb : jitterbuf) : nat * nat :=
  (length (Jitterbuf.frames jb),
   if silence_begin_ts (info jb) =? 0 then Z.to_nat (now - next_voice_ts (info jb) + 1) else 0%nat).

(** Interpolation happens while talking, and advances the time of the next frame. *)
Lemma get_expected_interp jb frame out now interpl diff o jb' :
  get_expected jb frame out now interpl diff = (JB_INTERP, o, jb') ->
  next_voice_ts (info jb') = next_voice_ts (info jb) + interpl.
Proof.
  unfold get_expected. destruct frame as [f|].
  - cbn zeta. repeat case_match; intros [= ?].
  - cbn zeta. destruct (_ && _); [done|]. destruct (_ && _); intros [= <- <-]; cbn; lia.
Qed.

Lemma jb_get_interp jb out now interpl o jb' : jb_get jb out now interpl = (JB_INTERP, o, jb') ->
  silence_begin_ts (info jb) = 0 /\ next_voice_ts (info jb') = next_voice_ts (info jb) + interpl.
Proof.
  unfold jb_get. destruct (jb_get_ jb out now interpl) as [[rc o1] jb1] eqn:E. intros H.
  assert (Hrc : rc = JB_INTERP /\ jb1 = jb') by (destruct rc; by simplify_eq). destruct Hrc as [-> ->]. clear H o.
  unfold jb_get_ in E. destruct (history_get_frame jb) as [Hi _]. set (h := history_get jb) in *.
  assert (Hs : silence_begin_ts (info h) = silence_begin_ts (info jb)) by (by rewrite Hi).
  assert (Hv : next_voice_ts (info h) = next_voice_ts (info jb)) by (by rewrite Hi).
  rewrite <- Hs, <- Hv. clear Hs Hv Hi. revert E. generalize h. clear. intros h.
  set (j2 := setter (f := info) _ h). set (j3 := if ctrue _ && _ then _ else j2).
  assert (H3 : silence_begin_ts (info j3) = silence_begin_ts (info h) /\ next_voice_ts (info j3) = next_voice_ts (info h))
    by (unfold j3; by case_if).
  rewrite <- (proj1 H3), <- (proj2 H3). generalize (target (info j3) - current (info j3)). generalize j3. clear.
  intros j diff. destruct (Z.eqb_spec (silence_begin_ts (info j)) 0) as [Hs|Hs].
  - intros E. split; [done|]. revert E. unfold get_talking. destruct (_ && (_ || _)).
    + cbn zeta. destruct (_ && _); intros [= <- <-]; cbn; lia.
    + destruct (queue_get j _) as [fr j1] eqn:Eq.
      assert (Hj1 : next_voice_ts (info j1) = next_voice_ts (info j)).
      { revert Eq. unfold queue_get, queue_get_. destruct (Jitterbuf.frames j); [by intros [= <- <-]|].
        destruct (_ || _); by intros [= <- <-]. }
      rewrite <- Hj1. destruct fr as [f|]; [|apply get_expected_interp].
      destruct (negb _); [by intros [= ?]|]. destruct (_ <? _); [destruct (_ >? _); by intros [= ?]|]. apply get_expected_interp.
  - unfold get_silent. destruct (queue_get _ _) as [[f|] j1]; [|by intros [= ?]].
    destruct (negb _); [by intros [= ?]|]. destruct (_ <? _); by intros [= ?].
Qed.

Lemma jb_next_frame jb n jb' : jb_wf jb -> jb_next jb = (n, jb') ->
  jb_wf jb' /\ Jitterbuf.frames jb' = Jitterbuf.frames jb /\
  silence_begin_ts (info jb') = silence_begin_ts (info jb) /\ next_voice_ts (info jb') = next_voice_ts (info jb) /\
  (silence_begin_ts (info jb) = 0 -> n = next_voice_ts (info jb)).
Proof.
  intros Hw. destruct (history_get_jb_wf jb Hw) as [Hh _]. destruct (history_get_frame jb) as [Hi Hf].
  assert (Hs : silence_begin_ts (info (history_get jb)) = silence_begin_ts (info jb)) by (by rewrite Hi).
  assert (Hv : next_voice_ts (info (history_get jb)) = next_voice_ts (info jb)) by (by rewrite Hi).
  unfold jb_next, ctrue. destruct (Z.eqb_spec (silence_begin_ts (info jb)) 0) as [H0|H0]; cbn [negb].
  - by intros [= <- <-].
  - destruct (Jitterbuf.frames jb) eqn:Ef; [by intros [= <- <-]|].
    destruct (_ <? _); intros [= <- <-]; by rewrite Hs, Hv.
Qed.

Lemma adaptive_put_result jb p f now : jb_wf jb ->
  exists res jb', jb_put_adaptive true jb p f now = Ret (res, jb') /\ jb_wf jb' /\
    match res with
    | JB_IMPL_OK => adaptive_held jb' ≡ₚ p :: adaptive_held jb
    | _ => adaptive_held jb' ≡ₚ adaptive_held jb
    end.
Proof.
  intros Hw. unfold jb_put_adaptive. destruct (jb_put true jb p JB_TYPE_VOICE (len f) (fr_ts f) now) as [rc jb'] eqn:E.
  destruct (jb_put_spec jb p JB_TYPE_VOICE (len f) (fr_ts f) now rc jb' Hw E) as (Hw' & _ & H).
  eexists _, _. split; [done|]. split; [done|]. unfold adaptive_held.
  destruct rc; cbn; try done; destruct H as [-> _]; [by rewrite frame_insert_perm|done|by rewrite frame_insert_perm].
Qed.

Lemma adaptive_put_first_result jb p f now : jb_wf jb ->
  exists res jb', jb_put_first_adaptive true jb p f now = Ret (res, jb') /\ jb_wf jb' /\
    match res with
    | JB_IMPL_OK => adaptive_held jb' ≡ₚ p :: adaptive_held jb
    | _ => adaptive_held jb' ≡ₚ adaptive_held jb
    end.
Proof.
  intros Hw. destruct (adaptive_put_result (jb <|| resync_offset := fr_ts f ||>) p f now) as (res & jb' & E & H).
  - eapply jb_wf_info; [exact Hw|..]; try done. by destruct Hw.
  - by exists res, jb'.
Qed.

Lemma empty_adaptive_spec fuel jb : jb_wf jb -> (length (Jitterbuf.frames jb) < fuel)%nat ->
  jb_wf (snd (empty_adaptive fuel jb)) /\ fst (empty_adaptive fuel jb) = adaptive_held jb.
Proof.
  revert jb. induction fuel as [|fuel IH]; intros jb Hw Hf; [lia|]. cbn [empty_adaptive].
  destruct (jb_getall jb (adaptive_junk 0)) as [[rc f] jb'] eqn:E.
  destruct (jb_getall_spec _ _ _ _ _ Hw E) as [Hw' [[-> He]|(-> & He & ->)]].
  - destruct (IH jb' Hw') as [H1 H2]; [rewrite He in Hf; cbn in Hf; lia|].
    destruct (empty_adaptive fuel jb') as [ps jb'']. cbn in *. split; [done|]. unfold adaptive_held in *. by rewrite He, H2.
  - unfold adaptive_held. by rewrite He.
Qed.

#[export] Instance adaptive_laws : JbLaws adaptive_impl.
Proof.
  refine (Build_JbLaws adaptive_impl jb_wf adaptive_held adaptive_measure _ _ _ _ _ _ _ _ _).
  - intros ok c thr o. cbn. unfold jb_create_adaptive. destruct ok; [|done]. intros [= <-]. split; [|done].
    exact (jb_step_wf (jb_reset adaptive_raw)
      (Call_setconf (Jitterbuf.mk_conf (max_size c) (conf_threshold c) 10 (conf_target_extra c))) (jb_reset_wf _)).
  - done.
  - intros o p f now Hw Hh Hv Hp Hn. by apply adaptive_put_first_result.
  - intros o p f now Hw Hv Hp Hn. by apply adaptive_put_result.
  - intros o0 n o junk now il Hw0 Hnx Hge Hn Hi. cbn in Hnx. destruct (jb_next_frame o0 n o Hw0 Hnx) as (Hw & Hf & Hs & Hv & Hn0).
    cbn. unfold jb_get_adaptive. pose proof (jb_get_spec o (adaptive_junk junk) now il Hw) as H.
    destruct (jb_get o (adaptive_junk junk) now il) as [[rc fr] jb'] eqn:E. destruct H as (Hw' & _ & H).
    eexists _, _, _. split; [done|]. split; [done|]. unfold adaptive_held, lex_lt, adaptive_measure.
    destruct rc; try done; cbn [adaptive_to_abstract_code].
    + rewrite H. split; [done|]. cbn. lia.
    + by rewrite H.
    + destruct (jb_get_interp _ _ _ _ _ _ E) as [Hs0 Hv0]. rewrite H. split; [done|]. right. split; [done|]. cbn.
      rewrite Hs0, Hv0, Z.eqb_refl. rewrite Hs0 in Hs. rewrite Hv, <- Hn0 by done. case_if; lia.
    + rewrite H. split; [done|]. cbn. lia.
  - intros o n o' now Hw Hnx. cbn in Hnx. destruct (jb_next_frame o n o' Hw Hnx) as (Hw' & Hf & Hs & Hv & _).
    split; [done|]. unfold adaptive_held, adaptive_measure. by rewrite Hf, Hs, Hv.
  - intros o junk Hw. cbn. unfold jb_remove_adaptive. destruct (jb_getall o (adaptive_junk junk)) as [[rc f] o'] eqn:E.
    destruct (jb_getall_spec _ _ _ _ _ Hw E) as [Hw' [[-> He]|(-> & He & ->)]]; cbn; unfold adaptive_held; by rewrite He.
  - done.
  - intros o Hw. destruct (empty_adaptive_spec (S (length (Jitterbuf.frames o))) o Hw ltac:(lia)) as [H1 H2].
    cbn -[empty_adaptive]. unfold jb_empty_and_reset_adaptive.
    destruct (empty_adaptive (S (length (Jitterbuf.frames o))) o) as [ps o']. cbn in H1, H2 |- *.
    rewrite H2. split_and!; [apply jb_reset_wf|done|done].
Qed.

(** ** Properties *)

(** A clock set back before the timebase makes [ast_jb_put] fail an assertion of the
    fixed buffer. *)
Theorem fixed_put_clock_back (jb : fixed_jb) p f now ok : now < 0 -> jb_put_fixed ok jb p f now = AssertFail.
Proof.
  intros Hn. unfold jb_put_fixed, fixed_jb_put. cbn [put_fuel].
  replace (put_asserts p (len f) (fr_ts f) now) with false; [done|].
  symmetry. apply not_true_iff_false. rewrite put_asserts_ok. lia.
Qed.

(** ** Witnesses *)

Definition ex_jb_conf : ast_jb_conf := mk_jb_conf true false 200 1000 [] 40.
Definition ex_voice : ast_frame := mk_ast_frame AST_FRAME_VOICE true 20 0 4.

(** A channel with a fixed buffer after the use check and after its first frame, put
    at 0 ms. *)
Definition ex_chan0 : chan fixed_jb := fresh_chan fixed_impl ex_jb_conf Fixed.
Definition ex_chan1 : chan fixed_jb :=
  ex_chan0 <| jb := fst (usecheck_half (mk_tech false false) (mk_tech false true) (jb ex_chan0) false (mk_tv 0 0) (mk_tv 10 0)) |>.
Definition ex_chan2 : chan fixed_jb :=
  mk_chan (mk_ast_jb ex_jb_conf Fixed (Some (mk_fixed [FixedJb.mk_frame 5 0 20 200] (FixedJb.mk_conf 200 1000) 0 200 200 false))
             (mk_tv 10 0) 200 4 true true true) {[ 5 := ex_voice ]} [].

Lemma ex_chan1_put : ast_jb_put fixed_impl (Some 5) true true ex_chan1 ex_voice (mk_tv 10 0) = Ret (0, ex_chan2).
Proof. vm_compute. reflexivity. Qed.

Lemma ex_chan2_reached : rtc (chan_step fixed_impl) ex_chan0 ex_chan2.
Proof.
  eapply rtc_l; [apply (step_usecheck fixed_impl (mk_tech false false) (mk_tech false true) false (mk_tv 0 0) (mk_tv 10 0))|].
  eapply rtc_l; [|apply rtc_refl].
  apply (step_put fixed_impl (Some 5) true ex_voice (mk_tv 10 0) 0 ex_chan1 ex_chan2); [done|by intros p [= <-]|apply ex_chan1_put].
Qed.

Lemma channel_jb_safe_witness :
  chan_wf fixed_impl ex_chan2 /\
  exists fuel0, forall fuel, (fuel0 <= fuel)%nat -> exists c', ast_jb_destroy fixed_impl fuel 0 ex_chan2 = Ret c' /\ store c' = ∅.
Proof.
  destruct (channel_jb_safe fixed_impl fixed_laws ex_jb_conf Fixed ex_chan2 ex_chan2_reached) as (H & _ & _ & _ & Hd).
  split; [exact H|exact (Hd 0)].
Defined.

(** At 230 ms the frame is too late and is dropped, and one frame is interpolated. *)
Lemma ex_chan2_delivers :
  exists c', jb_get_and_deliver fixed_impl 4 0 ex_chan2 (mk_tv 10 230000) = Ret c' /\ store c' = ∅ /\ length (writes c') = 1%nat.
Proof. eexists. split; [vm_compute; reflexivity|]. by split. Qed.

Lemma jb_get_and_deliver_correct_witness :
  exists fuel0, forall fuel, (fuel0 <= fuel)%nat ->
    exists c', jb_get_and_deliver fixed_impl fuel 0 ex_chan2 (mk_tv 10 230000) = Ret c' /\
      delivery_ok fixed_impl ex_chan2 c' /\ idle fixed_impl 230 c'.
Proof.
  apply (jb_get_and_deliver_correct fixed_impl fixed_laws ex_chan2 0 (mk_tv 10 230000)).
  - exact (chan_step_wf fixed_impl ex_chan1 ex_chan2
      (step_put fixed_impl (Some 5) true ex_voice (mk_tv 10 0) 0 ex_chan1 ex_chan2 ltac:(done) ltac:(by intros p [= <-]) ex_chan1_put) eq_refl).
  - reflexivity.
  - done.
Defined.

Lemma ast_jb_get_when_to_wakeup_bound_witness :
  ast_jb_get_when_to_wakeup (jb ex_chan2) (jb ex_chan0) (-1) (mk_tv 10 150000) = 50 /\
  1 <= ast_jb_get_when_to_wakeup (jb ex_chan2) (jb ex_chan0) (-1) (mk_tv 10 150000) <= 50.
Proof.
  split; [reflexivity|].
  exact (proj2 (proj2 (ast_jb_get_when_to_wakeup_bound (jb ex_chan2) (jb ex_chan0) (-1) (mk_tv 10 150000)
    ltac:(done) ltac:(done) ltac:(done))) 50 (or_introl (conj eq_refl eq_refl)) ltac:(done)).
Defined.

Lemma ast_jb_do_usecheck_correct_witness :
  exists j0 j1, ast_jb_do_usecheck (mk_tech false false) (mk_tech true true) (jb ex_chan0) (jb ex_chan2) (mk_tv 7 0) (mk_tv 8 0) =
    (true, j0, j1) /\ timebase j0 = mk_tv 10 0.
Proof.
  eexists _, _. split; [reflexivity|].
  destruct (proj2 (proj2 (proj2 (proj2 (proj1 (proj2 (ast_jb_do_usecheck_correct (mk_tech false false) (mk_tech true true)
    (jb ex_chan0) (jb ex_chan2) (mk_tv 7 0) (mk_tv 8 0) true _ _ eq_refl)))))) eq_refl eq_refl eq_refl) as [H _]. exact H.
Defined.
