(* ===== verification/Iax2Ies.v ===== *)
(** * IAX2 information elements: [channels/iax2-parser.c]

    A message carries elements of a type byte, a length byte and contents.  The
    [iax_ie_append] functions write them into a buffer of 1024 bytes;
    [iax_parse_ies] reads them into a [struct iax_ies] whose pointers are offsets
    into the message (0 for [NULL]), and overwrites type bytes to terminate the
    strings. *)

From S2P Require Import Prelude.
From Stdlib Require Import ZArith Lia.
From stdpp Require Import base list numbers sets.

#[local] Open Scope Z_scope.
#[local] Open Scope record_scope.
#[local] Open Scope outcome_scope.

(** ** Types of elements *)

Definition IAX_IE_CALLED_NUMBER : Z := 1.
Definition IAX_IE_CALLING_NUMBER : Z := 2.
Definition IAX_IE_CALLING_ANI : Z := 3.
Definition IAX_IE_CALLING_NAME : Z := 4.
Definition IAX_IE_CALLED_CONTEXT : Z := 5.
Definition IAX_IE_USERNAME : Z := 6.
Definition IAX_IE_PASSWORD : Z := 7.
Definition IAX_IE_CAPABILITY : Z := 8.
Definition IAX_IE_FORMAT : Z := 9.
Definition IAX_IE_LANGUAGE : Z := 10.
Definition IAX_IE_VERSION : Z := 11.
Definition IAX_IE_ADSICPE : Z := 12.
Definition IAX_IE_DNID : Z := 13.
Definition IAX_IE_AUTHMETHODS : Z := 14.
Definition IAX_IE_CHALLENGE : Z := 15.
Definition IAX_IE_MD5_RESULT : Z := 16.
Definition IAX_IE_RSA_RESULT : Z := 17.
Definition IAX_IE_APPARENT_ADDR : Z := 18.
Definition IAX_IE_REFRESH : Z := 19.
Definition IAX_IE_DPSTATUS : Z := 20.
Definition IAX_IE_CALLNO : Z := 21.
Definition IAX_IE_CAUSE : Z := 22.
Definition IAX_IE_IAX_UNKNOWN : Z := 23.
Definition IAX_IE_MSGCOUNT : Z := 24.
Definition IAX_IE_AUTOANSWER : Z := 25.
Definition IAX_IE_MUSICONHOLD : Z := 26.
Definition IAX_IE_TRANSFERID : Z := 27.
Definition IAX_IE_RDNIS : Z := 28.
Definition IAX_IE_DATETIME : Z := 31.
Definition IAX_IE_DEVICETYPE : Z := 32.
Definition IAX_IE_SERVICEIDENT : Z := 33.
Definition IAX_IE_FIRMWAREVER : Z := 34.
Definition IAX_IE_FWBLOCKDESC : Z := 35.
Definition IAX_IE_FWBLOCKDATA : Z := 36.
Definition IAX_IE_PROVVER : Z := 37.
Definition IAX_IE_CALLINGPRES : Z := 38.
Definition IAX_IE_CALLINGTON : Z := 39.
Definition IAX_IE_CALLINGTNS : Z := 40.
Definition IAX_IE_SAMPLINGRATE : Z := 41.
Definition IAX_IE_CAUSECODE : Z := 42.
Definition IAX_IE_ENCRYPTION : Z := 43.
Definition IAX_IE_ENCKEY : Z := 44.
Definition IAX_IE_CODEC_PREFS : Z := 45.
Definition IAX_IE_RR_JITTER : Z := 46.
Definition IAX_IE_RR_LOSS : Z := 47.
Definition IAX_IE_RR_PKTS : Z := 48.
Definition IAX_IE_RR_DELAY : Z := 49.
Definition IAX_IE_RR_DROPPED : Z := 50.
Definition IAX_IE_RR_OOO : Z := 51.
Definition IAX_IE_VARIABLE : Z := 52.
Definition IAX_IE_OSPTOKEN : Z := 53.
Definition IAX_IE_CALLTOKEN : Z := 54.
Definition IAX_IE_CAPABILITY2 : Z := 55.
Definition IAX_IE_FORMAT2 : Z := 56.
Definition IAX_MAX_OSPBLOCK_NUM : Z := 4.
Definition IAX_RATE_8KHZ : Z := 1.

(** ** Building a message *)

Definition IED_SIZE : Z := 1024.

(** [struct iax_ie_data]: the bytes before [pos]. *)
Definition iax_ie_data := list Z.

(** [iax_ie_append_raw]. The length is stored in a byte; writing past the buffer is a
    bad access. *)
Definition iax_ie_append_raw (ied : iax_ie_data) (ie : Z) (data : list Z) : outcome (Z * iax_ie_data) :=
  let pos := Z.of_nat (length ied) in
  let datalen := Z.of_nat (length data) in
  if datalen >? IED_SIZE - pos then Ret (-1, ied)
  else if pos + 2 + datalen >? IED_SIZE then BadAccess
  else Ret (0, ied ++ ie :: u8 datalen :: data).

(** Network byte order. *)
Definition be_bytes (n : nat) (v : Z) : list Z := (fun i => u8 (Z.shiftr v (8 * Z.of_nat i))) <$> rev (seq 0 n).

Definition iax_ie_append_versioned_uint64 (ied : iax_ie_data) (ie version value : Z) : outcome (Z * iax_ie_data) :=
  iax_ie_append_raw ied ie (u8 version :: be_bytes 8 value).

Definition iax_ie_append_int (ied : iax_ie_data) (ie value : Z) : outcome (Z * iax_ie_data) :=
  iax_ie_append_raw ied ie (be_bytes 4 value).

Definition iax_ie_append_short (ied : iax_ie_data) (ie value : Z) : outcome (Z * iax_ie_data) :=
  iax_ie_append_raw ied ie (be_bytes 2 value).

Definition iax_ie_append_str (ied : iax_ie_data) (ie : Z) (s : str) : outcome (Z * iax_ie_data) :=
  iax_ie_append_raw ied ie (u8 <$> s).

Definition iax_ie_append_byte (ied : iax_ie_data) (ie dat : Z) : outcome (Z * iax_ie_data) :=
  iax_ie_append_raw ied ie [u8 dat].

Definition iax_ie_append (ied : iax_ie_data) (ie : Z) : outcome (Z * iax_ie_data) := iax_ie_append_raw ied ie [].

(** The bytes of a [struct sockaddr_in]. *)
Definition iax_ie_append_addr (ied : iax_ie_data) (ie : Z) (sin : list Z) : outcome (Z * iax_ie_data) :=
  iax_ie_append_raw ied ie sin.

(** ** Reading a message *)

(** [struct iax_ies]; [vars] is the list of names and values. *)
Record iax_ies := mk_ies {
  called_number : Z; calling_number : Z; calling_ani : Z; calling_name : Z;
  calling_ton : Z; calling_tns : Z; calling_pres : Z;
  called_context : Z; username : Z; password : Z; capability : Z; format : Z;
  codec_prefs : Z; language : Z; version : Z; adsicpe : Z; dnid : Z; rdnis : Z;
  authmethods : Z; encmethods : Z; challenge : Z; md5_result : Z; rsa_result : Z;
  apparent_addr : Z; refresh : Z; dpstatus : Z; callno : Z; cause : Z; causecode : Z;
  iax_unknown : Z; msgcount : Z; autoanswer : Z; musiconhold : Z; transferid : Z;
  datetime : Z; devicetype : Z; serviceident : Z; firmwarever : Z; fwdesc : Z;
  fwdata : Z; fwdatalen : Z; enckey : Z; enckeylen : Z; provver : Z; samprate : Z;
  provverpres : Z; rr_jitter : Z; rr_loss : Z; rr_pkts : Z; rr_delay : Z; rr_dropped : Z;
  rr_ooo : Z; vars : list (str * str); osptokenblock : list Z; ospblocklength : list Z;
  calltoken : Z; calltokendata : Z
}.

#[export] Instance eta_iax_ies : Eta iax_ies := fun i =>
  mk_ies (called_number i) (calling_number i) (calling_ani i) (calling_name i)
    (calling_ton i) (calling_tns i) (calling_pres i)
    (called_context i) (username i) (password i) (capability i) (format i)
    (codec_prefs i) (language i) (version i) (adsicpe i) (dnid i) (rdnis i)
    (authmethods i) (encmethods i) (challenge i) (md5_result i) (rsa_result i)
    (apparent_addr i) (refresh i) (dpstatus i) (callno i) (cause i) (causecode i)
    (iax_unknown i) (msgcount i) (autoanswer i) (musiconhold i) (transferid i)
    (datetime i) (devicetype i) (serviceident i) (firmwarever i) (fwdesc i)
    (fwdata i) (fwdatalen i) (enckey i) (enckeylen i) (provver i) (samprate i)
    (provverpres i) (rr_jitter i) (rr_loss i) (rr_pkts i) (rr_delay i) (rr_dropped i)
    (rr_ooo i) (vars i) (osptokenblock i) (ospblocklength i) (calltoken i) (calltokendata i).

(** The structure [iax_parse_ies] starts from. *)
Definition empty_ies : iax_ies :=
  mk_ies 0 0 0 0 (-1) (-1) (-1) 0 0 0 0 0 0 0 0 0 0 0 0 0 0 0 0 0 0 0 0 0 0 0 (-1) 0 0 0 0 0 0 (-1) 0
    0 0 0 0 0 IAX_RATE_8KHZ 0 0 0 0 0 0 0 [] [0; 0; 0; 0] [0; 0; 0; 0] 0 0.

(** The cases of the switch that store a pointer to the contents. *)
Definition pointer_case (ie : Z) : option (Z -> iax_ies -> iax_ies) :=
  if ie =? IAX_IE_CALLED_NUMBER then Some (fun p i => i <| called_number := p |>)
  else if ie =? IAX_IE_CALLING_NUMBER then Some (fun p i => i <| calling_number := p |>)
  else if ie =? IAX_IE_CALLING_ANI then Some (fun p i => i <| calling_ani := p |>)
  else if ie =? IAX_IE_CALLING_NAME then Some (fun p i => i <| calling_name := p |>)
  else if ie =? IAX_IE_CALLED_CONTEXT then Some (fun p i => i <| called_context := p |>)
  else if ie =? IAX_IE_USERNAME then Some (fun p i => i <| username := p |>)
  else if ie =? IAX_IE_PASSWORD then Some (fun p i => i <| password := p |>)
  else if ie =? IAX_IE_CODEC_PREFS then Some (fun p i => i <| codec_prefs := p |>)
  else if ie =? IAX_IE_LANGUAGE then Some (fun p i => i <| language := p |>)
  else if ie =? IAX_IE_DNID then Some (fun p i => i <| dnid := p |>)
  else if ie =? IAX_IE_RDNIS then Some (fun p i => i <| rdnis := p |>)
  else if ie =? IAX_IE_CHALLENGE then Some (fun p i => i <| challenge := p |>)
  else if ie =? IAX_IE_MD5_RESULT then Some (fun p i => i <| md5_result := p |>)
  else if ie =? IAX_IE_RSA_RESULT then Some (fun p i => i <| rsa_result := p |>)
  else if ie =? IAX_IE_APPARENT_ADDR then Some (fun p i => i <| apparent_addr := p |>)
  else if ie =? IAX_IE_CAUSE then Some (fun p i => i <| cause := p |>)
  else if ie =? IAX_IE_DEVICETYPE then Some (fun p i => i <| devicetype := p |>)
  else if ie =? IAX_IE_SERVICEIDENT then Some (fun p i => i <| serviceident := p |>)
  else None.

(** The cases that expect a short, an int or a byte, and log an error for another
    length. *)
Definition short_case (ie : Z) : option (Z -> iax_ies -> iax_ies) :=
  if ie =? IAX_IE_VERSION then Some (fun v i => i <| version := v |>)
  else if ie =? IAX_IE_ADSICPE then Some (fun v i => i <| adsicpe := v |>)
  else if ie =? IAX_IE_SAMPLINGRATE then Some (fun v i => i <| samprate := v |>)
  else if ie =? IAX_IE_AUTHMETHODS then Some (fun v i => i <| authmethods := v |>)
  else if ie =? IAX_IE_ENCRYPTION then Some (fun v i => i <| encmethods := v |>)
  else if ie =? IAX_IE_REFRESH then Some (fun v i => i <| refresh := v |>)
  else if ie =? IAX_IE_DPSTATUS then Some (fun v i => i <| dpstatus := v |>)
  else if ie =? IAX_IE_CALLNO then Some (fun v i => i <| callno := v |>)
  else if ie =? IAX_IE_MSGCOUNT then Some (fun v i => i <| msgcount := v |>)
  else if ie =? IAX_IE_FIRMWAREVER then Some (fun v i => i <| firmwarever := v |>)
  else if ie =? IAX_IE_CALLINGTNS then Some (fun v i => i <| calling_tns := v |>)
  else if ie =? IAX_IE_RR_DELAY then Some (fun v i => i <| rr_delay := v |>)
  else None.

Definition int_case (ie : Z) : option (Z -> iax_ies -> iax_ies) :=
  if ie =? IAX_IE_CAPABILITY then Some (fun v i => if capability i =? 0 then i <| capability := v |> else i)
  else if ie =? IAX_IE_FORMAT then Some (fun v i => if format i =? 0 then i <| format := v |> else i)
  else if ie =? IAX_IE_TRANSFERID then Some (fun v i => i <| transferid := v |>)
  else if ie =? IAX_IE_DATETIME then Some (fun v i => i <| datetime := v |>)
  else if ie =? IAX_IE_FWBLOCKDESC then Some (fun v i => i <| fwdesc := v |>)
  else if ie =? IAX_IE_PROVVER then Some (fun v i => i <| provverpres := 1 |> <| provver := v |>)
  else if ie =? IAX_IE_RR_JITTER then Some (fun v i => i <| rr_jitter := v |>)
  else if ie =? IAX_IE_RR_LOSS then Some (fun v i => i <| rr_loss := v |>)
  else if ie =? IAX_IE_RR_PKTS then Some (fun v i => i <| rr_pkts := v |>)
  else if ie =? IAX_IE_RR_DROPPED then Some (fun v i => i <| rr_dropped := v |>)
  else if ie =? IAX_IE_RR_OOO then Some (fun v i => i <| rr_ooo := v |>)
  else None.

Definition byte_case (ie : Z) : option (Z -> iax_ies -> iax_ies) :=
  if ie =? IAX_IE_CAUSECODE then Some (fun v i => i <| causecode := v |>)
  else if ie =? IAX_IE_IAX_UNKNOWN then Some (fun v i => i <| iax_unknown := v |>)
  else if ie =? IAX_IE_CALLINGPRES then Some (fun v i => i <| calling_pres := v |>)
  else if ie =? IAX_IE_CALLINGTON then Some (fun v i => i <| calling_ton := v |>)
  else None.

(** A number in network byte order. *)
Definition be_value (bs : list Z) : Z := foldl (fun a b => a * 256 + b) 0 bs.

(** The string in a row of bytes, up to the NUL. *)
Fixpoint until_nul (s : list Z) : list Z :=
  match s with [] => [] | c :: s => if c =? 0 then [] else c :: until_nul s end.

(** [ast_copy_string] into [size] bytes, at least 1, from the memory [src]: the loop looks at
    the next character before it looks at the room that is left, and the last character
    makes room for the NUL. *)
Fixpoint copy_loop (src : list Z) (size : nat) : outcome (list Z) :=
  let* c := oaccess (head src) in
  if c =? 0 then Ret []
  else match size with
  | O => Ret []
  | S size => let* s := copy_loop (tail src) size in Ret (c :: s)
  end.

Definition ast_copy_string (src : list Z) (size : nat) : outcome (list Z) :=
  let* s := copy_loop src size in Ret (take (size - 1) s).

(** The string up to the first equals sign, and what is after it. *)
Fixpoint cut_equals (s : list Z) : list Z * list Z :=
  match s with
  | [] => ([], [])
  | c :: s => if c =? 61 then ([], s) else let '(name, value) := cut_equals s in (c :: name, value)
  end.

(** The variable [name] gets [value] appended to what it has, or is added in front. *)
Fixpoint extend_var (name value : str) (vs : list (str * str)) : option (list (str * str)) :=
  match vs with
  | [] => None
  | (n, v) :: vs =>
      if bool_decide (name = n) then Some ((n, v ++ value) :: vs)
      else (fun vs => (n, v) :: vs) <$> extend_var name value vs
  end.

Definition set_var (name value : str) (vs : list (str * str)) : list (str * str) :=
  match extend_var name value vs with Some vs => vs | None => (name, value) :: vs end.

(** One case of the switch of [iax_parse_ies]. [data] is the memory from the contents
    on, of which [len] bytes belong to the element; [p] is its address. *)
Definition parse_ie (ie len p : Z) (data : list Z) (i : iax_ies) : outcome iax_ies :=
  let content := take (Z.to_nat len) data in
  match pointer_case ie with
  | Some set => Ret (set p i)
  | None =>
  match short_case ie with
  | Some set => Ret (if len =? 2 then set (be_value content) i else i)
  | None =>
  match int_case ie with
  | Some set => Ret (if len =? 4 then set (be_value content) i else i)
  | None =>
  match byte_case ie with
  | Some set => Ret (if len =? 1 then set (be_value content) i else i)
  | None =>
  if (ie =? IAX_IE_CAPABILITY2) || (ie =? IAX_IE_FORMAT2) then
    let* v := oaccess (data !! 0%nat) in
    Ret (if (v =? 0) && (len =? 9) then
           let value := wraps 64 (be_value (drop 1 content)) in
           if ie =? IAX_IE_CAPABILITY2 then i <| capability := value |> else i <| format := value |>
         else i)
  else if ie =? IAX_IE_AUTOANSWER then Ret (i <| autoanswer := 1 |>)
  else if ie =? IAX_IE_MUSICONHOLD then Ret (i <| musiconhold := 1 |>)
  else if ie =? IAX_IE_FWBLOCKDATA then Ret (i <| fwdata := p |> <| fwdatalen := len |>)
  else if ie =? IAX_IE_ENCKEY then Ret (i <| enckey := p |> <| enckeylen := len |>)
  else if ie =? IAX_IE_VARIABLE then
    let* text := ast_copy_string data (S (Z.to_nat len)) in
    let '(name, value) := cut_equals text in
    Ret (i <| vars ::= set_var name value |>)
  else if ie =? IAX_IE_OSPTOKEN then
    let* count := oaccess (data !! 0%nat) in
    Ret (if count <? IAX_MAX_OSPBLOCK_NUM then
           i <| osptokenblock ::= <[Z.to_nat count := p + 1]> |>
             <| ospblocklength ::= <[Z.to_nat count := u32 (len - 1)]> |>
         else i)
  else if ie =? IAX_IE_CALLTOKEN then
    Ret ((if len =? 0 then i else i <| calltokendata := p |>) <| calltoken := 1 |>)
  else Ret i
  end end end end.

(** The loop of [iax_parse_ies]. [mem] is the memory of the message and what follows it,
    [pos] is where [data] points, [datalen] what is left. *)
Fixpoint parse_loop (fuel : nat) (mem : list Z) (pos : nat) (datalen : Z) (i : iax_ies)
    : outcome (Z * iax_ies * list Z) :=
  match fuel with
  | O => NoFuel
  | S fuel =>
      if datalen >=? 2 then
        let* ie := oaccess (mem !! pos) in
        let* len := oaccess (mem !! S pos) in
        if len >? datalen - 2 then Ret (-1, i, mem)
        else
          let* i := parse_ie ie len (Z.of_nat pos + 2) (drop (pos + 2) mem) i in
          parse_loop fuel (<[pos := 0]> mem) (pos + 2 + Z.to_nat len) (datalen - (len + 2)) i
      else
        let* _ := oaccess (mem !! pos) in
        Ret (if datalen =? 0 then 0 else -1, i, <[pos := 0]> mem)
  end.

(** Every turn reads two bytes at least. *)
Definition iax_parse_ies (mem : list Z) (datalen : Z) : outcome (Z * iax_ies * list Z) :=
  parse_loop (S (Z.to_nat datalen)) mem 0 datalen empty_ies.

(** ** Safety of the reader *)

Lemma until_nul_id s rest : Forall (fun c => c <> 0) s -> until_nul (s ++ 0 :: rest) = s.
Proof.
  induction 1 as [|c s Hc _ IH]; [done|]. cbn [app until_nul]. rewrite (proj2 (Z.eqb_neq c 0)) by done. by rewrite IH.
Qed.

(** The cases that read the first byte of the contents whatever the length is. *)
Definition reads_first (ie : Z) : bool :=
  (ie =? IAX_IE_CAPABILITY2) || (ie =? IAX_IE_FORMAT2) || (ie =? IAX_IE_OSPTOKEN).

Lemma copy_loop_ok src size : (size < length src)%nat \/ 0 ∈ src -> copy_loop src size = Ret (until_nul (take size src)).
Proof.
  revert size. induction src as [|c src IH]; intros size H; [destruct H as [H|H]; [cbn in H; lia|by apply elem_of_nil in H]|].
  destruct size as [|size]; cbn.
  - by destruct (c =? 0).
  - destruct (Z.eqb_spec c 0) as [->|Hc]; [done|]. rewrite IH; [done|]. destruct H as [H|[H|H]%elem_of_cons]; [left; cbn in H; lia|congruence|by right].
Qed.

Lemma take_until_nul n s : take n (until_nul s) = until_nul (take n s).
Proof. revert n. induction s as [|c s IH]; intros [|n]; [done..|]. cbn. destruct (c =? 0); [done|]. cbn. by rewrite IH. Qed.

(** What is copied is the contents up to a NUL; up to two bytes behind them are read. *)
Lemma copy_content content rest : (2 <= length rest)%nat \/ 0 ∈ content ++ rest ->
  ast_copy_string (content ++ rest) (S (length content)) = Ret (until_nul content).
Proof.
  intros H. unfold ast_copy_string. rewrite copy_loop_ok by (rewrite length_app; destruct H; [left; lia|by right]). cbn [obind Nat.sub].
  rewrite Nat.sub_0_r, take_until_nul, take_take, Nat.min_l by lia. by rewrite take_app_length.
Qed.

(** A case reads the contents of its element, and up to two bytes more. *)
Lemma parse_ie_total ie len p data i : (Z.to_nat len + 2 <= length data)%nat ->
  exists i', parse_ie ie len p data i = Ret i'.
Proof.
  intros Hd. unfold parse_ie. destruct (pointer_case ie); [by eexists|]. destruct (short_case ie); [by eexists|].
  destruct (int_case ie); [by eexists|]. destruct (byte_case ie); [by eexists|].
  destruct (lookup_lt_is_Some_2 data 0) as [v Hv]; [lia|]. rewrite Hv. cbn [oaccess obind].
  destruct ((ie =? IAX_IE_CAPABILITY2) || (ie =? IAX_IE_FORMAT2)); [by eexists|].
  destruct (ie =? IAX_IE_AUTOANSWER); [by eexists|]. destruct (ie =? IAX_IE_MUSICONHOLD); [by eexists|].
  destruct (ie =? IAX_IE_FWBLOCKDATA); [by eexists|]. destruct (ie =? IAX_IE_ENCKEY); [by eexists|].
  destruct (ie =? IAX_IE_VARIABLE).
  - unfold ast_copy_string. rewrite copy_loop_ok by (left; lia). cbn [obind]. destruct (cut_equals _); by eexists.
  - destruct (ie =? IAX_IE_OSPTOKEN); [by eexists|]. case_if; by eexists.
Qed.

(** A case depends on the contents only, if what it reads behind them is there. *)
Lemma parse_ie_content ie p content rest i : (reads_first ie = true -> content <> []) ->
  (ie = IAX_IE_VARIABLE -> (2 <= length rest)%nat \/ 0 ∈ rest) ->
  parse_ie ie (Z.of_nat (length content)) p (content ++ rest) i = parse_ie ie (Z.of_nat (length content)) p (content ++ [0]) i.
Proof.
  intros Hd Hv. unfold parse_ie. rewrite Nat2Z.id, !take_app_length.
  destruct (pointer_case ie); [done|]. destruct (short_case ie); [done|].
  destruct (int_case ie); [done|]. destruct (byte_case ie); [done|].
  assert (Hfirst : reads_first ie = true -> (content ++ rest) !! 0%nat = (content ++ [0]) !! 0%nat).
  { intros Hr. destruct content; [by destruct (Hd Hr)|done]. }
  unfold reads_first in *. destruct ((ie =? IAX_IE_CAPABILITY2) || (ie =? IAX_IE_FORMAT2)); cbn [orb] in Hfirst.
  { by rewrite Hfirst. }
  destruct (ie =? IAX_IE_AUTOANSWER); [done|]. destruct (ie =? IAX_IE_MUSICONHOLD); [done|].
  destruct (ie =? IAX_IE_FWBLOCKDATA); [done|]. destruct (ie =? IAX_IE_ENCKEY); [done|].
  destruct (Z.eqb_spec ie IAX_IE_VARIABLE) as [E|_].
  - rewrite !copy_content; [done|right; set_solver|]. destruct (Hv E) as [H|H]; [by left|right; set_solver].
  - destruct (ie =? IAX_IE_OSPTOKEN); [|done]. by rewrite Hfirst.
Qed.

Lemma parse_loop_safe fuel mem pos datalen i : Forall (in_u 8) mem -> 0 <= datalen ->
  Z.of_nat pos + datalen + 1 < Z.of_nat (length mem) -> datalen < Z.of_nat fuel ->
  exists r i' mem', parse_loop fuel mem pos datalen i = Ret (r, i', mem') /\ length mem' = length mem /\ (r = 0 \/ r = -1).
Proof.
  revert mem pos datalen i. induction fuel as [|fuel IH]; intros mem pos datalen i Hm Hd Hl Hf; [lia|]. cbn [parse_loop].
  destruct (lookup_lt_is_Some_2 mem pos) as [ie Hie]; [lia|]. rewrite Hie. cbn [oaccess obind].
  destruct (Z.geb_spec datalen 2) as [H2|H2].
  2:{ eexists _, _, _. split; [done|]. rewrite length_insert. split; [done|]. case_if; auto. }
  destruct (lookup_lt_is_Some_2 mem (S pos)) as [len Hlen]; [lia|]. rewrite Hlen. cbn [oaccess obind].
  pose proof (Forall_lookup_1 _ _ _ _ Hm Hlen) as Hrng. unfold in_u in Hrng.
  destruct (Z.gtb_spec len (datalen - 2)) as [Hbig|Hok]; [eexists _, _, _; split; [done|]; auto|].
  destruct (parse_ie_total ie len (Z.of_nat pos + 2) (drop (pos + 2) mem) i) as [i' ->].
  { rewrite length_drop. lia. }
  cbn [obind]. destruct (IH (<[pos := 0]> mem) (pos + 2 + Z.to_nat len)%nat (datalen - (len + 2)) i') as (r & i2 & m2 & E & Hlm & Hr).
  - apply Forall_insert; [done|]. by unfold in_u.
  - lia.
  - rewrite length_insert. lia.
  - lia.
  - eexists _, _, _. split; [exact E|]. by rewrite Hlm, length_insert.
Qed.

(** ** Messages as lists of elements *)

Definition element := (Z * list Z)%type.

Definition encoded (items : list element) : list Z :=
  concat ((fun '(ie, content) => ie :: Z.of_nat (length content) :: content) <$> items).

(** The message after its type bytes were overwritten. *)
Definition terminated (items : list element) : list Z :=
  concat ((fun '(_, content) => 0 :: Z.of_nat (length content) :: content) <$> items).

Definition element_ok (e : element) : Prop :=
  in_u 8 (fst e) /\ Forall (in_u 8) (snd e) /\ (length (snd e) <= 255)%nat /\
  (reads_first (fst e) = true -> snd e <> []).

Fixpoint append_all (ied : iax_ie_data) (items : list element) : outcome (Z * iax_ie_data) :=
  match items with
  | [] => Ret (0, ied)
  | (ie, content) :: items =>
      let* (r, ied) := iax_ie_append_raw ied ie content in
      if ctrue r then Ret (r, ied) else append_all ied items
  end.

(** What the elements do to the structure, each through its case of the switch, with a NUL
    behind its contents. *)
Fixpoint effects (p : Z) (items : list element) (i : iax_ies) : outcome iax_ies :=
  match items with
  | [] => Ret i
  | (ie, content) :: items =>
      let len := Z.of_nat (length content) in
      let* i := parse_ie ie len (p + 2) (content ++ [0]) i in effects (p + 2 + len) items i
  end.

Lemma append_all_encoded ied items : Forall element_ok items ->
  Z.of_nat (length ied + length (encoded items)) <= IED_SIZE -> append_all ied items = Ret (0, ied ++ encoded items).
Proof.
  intros Hok. revert ied. induction Hok as [|[ie content] items (Hie & Hc & Hl & _) _ IH]; intros ied Hs; cbn [append_all].
  { by rewrite app_nil_r. }
  cbn in Hl. unfold encoded in Hs. cbn [fmap list_fmap concat] in Hs. rewrite length_app in Hs. cbn [length] in Hs.
  fold (encoded items) in Hs. unfold iax_ie_append_raw.
  destruct (Z.gtb_spec (Z.of_nat (length content)) (IED_SIZE - Z.of_nat (length ied))); [lia|].
  destruct (Z.gtb_spec (Z.of_nat (length ied) + 2 + Z.of_nat (length content)) IED_SIZE); [lia|].
  cbn [obind]. change (ctrue 0) with false. cbn iota. rewrite (wrapu_id 8) by (unfold in_u; lia).
  rewrite IH by (rewrite length_app; cbn [length]; lia). by rewrite <- app_assoc.
Qed.

Lemma length_encoded items : length (encoded items) = length (terminated items).
Proof.
  unfold encoded, terminated. induction items as [|[ie c] items IH]; [done|]. cbn [fmap list_fmap concat].
  rewrite !length_app, IH. done.
Qed.

Lemma encoded_cons (e : element) items :
  encoded (e :: items) = fst e :: Z.of_nat (length (snd e)) :: snd e ++ encoded items.
Proof. by destruct e. Qed.

Lemma terminated_cons (e : element) items :
  terminated (e :: items) = 0 :: Z.of_nat (length (snd e)) :: snd e ++ terminated items.
Proof. by destruct e. Qed.

(** What may stand behind a message: a variable at its end reads two bytes more, unless the
    first is a NUL. *)
Definition readable (items : list element) (c : Z) (tl : list Z) : Prop :=
  tl <> [] \/ c = 0 \/ Forall (fun e => fst e <> IAX_IE_VARIABLE) items.

Lemma readable_rest e items c tl : readable (e :: items) c tl -> fst e = IAX_IE_VARIABLE ->
  (2 <= length (encoded items ++ c :: tl))%nat \/ 0 ∈ encoded items ++ c :: tl.
Proof.
  intros H He. rewrite length_app. cbn [length]. destruct H as [H|[-> |H]].
  - left. destruct tl; [done|]. cbn. lia.
  - right. set_solver.
  - by apply Forall_cons in H as [H _].
Qed.

(** The reader visits the elements one after the other. *)
Lemma parse_loop_items items : Forall element_ok items -> forall fuel before tl c i, readable items c tl -> (length (encoded items) < fuel)%nat ->
  exists i', effects (Z.of_nat (length before)) items i = Ret i' /\
    parse_loop fuel (before ++ encoded items ++ c :: tl) (length before) (Z.of_nat (length (encoded items))) i =
      Ret (0, i', before ++ terminated items ++ 0 :: tl).
Proof.
  induction 1 as [|[ie content] items (Hie & Hc & Hl & Hr) _ IH]; intros fuel before tl c i Hrd Hf; destruct fuel as [|fuel]; try lia.
  - exists i. split; [done|]. cbn. rewrite lookup_app_r, Nat.sub_diag by lia. cbn. rewrite insert_app_r_alt by lia.
    by rewrite Nat.sub_diag.
  - cbn [fst snd] in *. rewrite encoded_cons in Hf |- *. rewrite terminated_cons.
    cbn [fst snd length app] in Hf |- *. rewrite length_app in Hf |- *.
    pose proof (fun E => readable_rest _ _ _ _ Hrd E) as Hrest. cbn [fst] in Hrest.
    assert (Hrd' : readable items c tl) by (destruct Hrd as [?|[?|Hv]]; [by left|by right; left|right; right; by apply Forall_cons in Hv as [_ Hv]]).
    destruct (parse_ie_total ie (Z.of_nat (length content)) (Z.of_nat (length before) + 2) (content ++ [0; 0]) i) as [i1 E1]; [rewrite length_app; cbn; lia|].
    rewrite parse_ie_content in E1 by (done || (intros _; left; cbn; lia)).
    destruct (IH fuel (before ++ [0; Z.of_nat (length content)] ++ content) tl c i1) as (i' & E & Ep); [done|lia|].
    exists i'. cbn [effects]. rewrite E1. cbn [obind]. split.
    { rewrite <- E. f_equal. rewrite !length_app. cbn [length]. lia. }
    cbn [parse_loop]. rewrite !lookup_app_r, Nat.sub_diag by lia. replace (S (length before) - length before)%nat with 1%nat by lia.
    cbn [lookup list_lookup oaccess obind].
    destruct (Z.geb_spec (Z.of_nat (S (S (length content + length (encoded items))))) 2); [|lia].
    destruct (Z.gtb_spec (Z.of_nat (length content)) (Z.of_nat (S (S (length content + length (encoded items)))) - 2)); [lia|].
    rewrite drop_app_ge by lia. replace (length before + 2 - length before)%nat with 2%nat by lia. cbn [drop].
    rewrite drop_0, <- app_assoc, parse_ie_content, E1 by done. cbn [obind].
    rewrite insert_app_r_alt, Nat.sub_diag by lia. cbn [insert list_insert].
    rewrite !length_app in Ep. cbn [length] in Ep. rewrite <- !app_assoc in Ep. cbn [app] in Ep.
    rewrite <- app_assoc, <- Ep. f_equal; lia.
Qed.

(** ** Numbers *)

Lemma be_value_snoc bs b : be_value (bs ++ [b]) = be_value bs * 256 + b.
Proof. unfold be_value. by rewrite foldl_app. Qed.

Lemma be_value_bytes n v : be_value (be_bytes n v) = v mod 256 ^ Z.of_nat n.
Proof.
  unfold be_bytes. assert (H : forall m k, 0 <= k -> be_value ((fun i => u8 (Z.shiftr v (8 * Z.of_nat i))) <$> rev (seq m n)) =
    Z.shiftr v (8 * Z.of_nat m) mod 256 ^ Z.of_nat n); [|by rewrite (H 0%nat 0), Z.shiftr_0_r].
  induction n as [|n IH]; intros m k Hk; [by rewrite Z.mod_1_r|].
  cbn [seq rev]. rewrite fmap_app. cbn [fmap list_fmap]. rewrite be_value_snoc, (IH (S m) k Hk). unfold wrapu.
  change (2 ^ 8) with 256. set (x := Z.shiftr v (8 * Z.of_nat m)).
  assert (Hx : Z.shiftr v (8 * Z.of_nat (S m)) = x / 256).
  { unfold x. rewrite !Z.shiftr_div_pow2, Z.div_div by lia. f_equal. change 256 with (2 ^ 8).
    rewrite <- Z.pow_add_r by lia. f_equal. lia. }
  rewrite Hx. replace (Z.of_nat (S n)) with (1 + Z.of_nat n) by lia. rewrite Z.pow_add_r by lia.
  rewrite Z.rem_mul_r by lia. change (256 ^ 1) with 256. lia.
Qed.

Lemma length_be_bytes n v : length (be_bytes n v) = n.
Proof. unfold be_bytes. by rewrite length_fmap, length_rev, length_seq. Qed.

Lemma be_bytes_bytes n v : Forall (in_u 8) (be_bytes n v).
Proof. apply Forall_fmap, Forall_true. intros i. by apply wrapu_range. Qed.

(** ** Properties *)

(** C36: the reader never reads or writes outside the message and the two bytes after
    it, whatever the bytes are: it always returns, with 0 or -1. *)
Theorem iax_parse_ies_safe mem datalen : Forall (in_u 8) mem -> 0 <= datalen -> datalen + 2 <= Z.of_nat (length mem) ->
  exists r i mem', iax_parse_ies mem datalen = Ret (r, i, mem') /\ length mem' = length mem /\ (r = 0 \/ r = -1).
Proof. intros Hm Hd Hl. apply parse_loop_safe; [done|lia|lia|lia]. Qed.

(** C31: a message built by the append functions is read back: the elements fit the
    buffer, the reader visits exactly them, in order, each through its case with its
    own contents, returns 0, and leaves every string terminated: at the address the
    case stores, the contents can be read as a C string.  Behind a message with a variable
    there are two bytes, or a NUL. *)
Theorem iax_ies_roundtrip items c tl : Forall element_ok items -> readable items c tl -> Z.of_nat (length (encoded items)) <= IED_SIZE ->
  append_all [] items = Ret (0, encoded items) /\
  exists i mem', iax_parse_ies (encoded items ++ c :: tl) (Z.of_nat (length (encoded items))) = Ret (0, i, mem') /\
    effects 0 items empty_ies = Ret i /\
    forall before ie content after, items = before ++ (ie, content) :: after -> Forall (fun c => c <> 0) content ->
      until_nul (drop (length (encoded before) + 2) mem') = content.
Proof.
  intros Hok Hrd Hl. split; [by apply append_all_encoded|].
  destruct (parse_loop_items items Hok (S (length (encoded items))) [] tl c empty_ies Hrd) as (i & E & Ep); [lia|].
  exists i, (terminated items ++ 0 :: tl). split_and!.
  - unfold iax_parse_ies. rewrite Nat2Z.id. exact Ep.
  - exact E.
  - intros before ie content after -> Hc. assert (Ht : terminated (before ++ (ie, content) :: after) =
      terminated before ++ 0 :: Z.of_nat (length content) :: content ++ terminated after).
    { unfold terminated. rewrite fmap_app, concat_app. done. }
    rewrite Ht, <- app_assoc, length_encoded, drop_app_ge by lia.
    replace (length (terminated before) + 2 - length (terminated before))%nat with 2%nat by lia.
    cbn [app drop]. rewrite drop_0, <- app_assoc. destruct after as [|a after]; [by apply until_nul_id|].
    rewrite terminated_cons. cbn [app]. by apply until_nul_id.
Qed.

Lemma short_not_pointer ie set : short_case ie = Some set -> pointer_case ie = None.
Proof. unfold short_case. repeat (case_if; [by subst|]). done. Qed.

Lemma int_not_others ie set : int_case ie = Some set -> pointer_case ie = None /\ short_case ie = None.
Proof. unfold int_case. repeat (case_if; [by subst|]). done. Qed.

Lemma byte_not_others ie set : byte_case ie = Some set ->
  pointer_case ie = None /\ short_case ie = None /\ int_case ie = None.
Proof. unfold byte_case. repeat (case_if; [by subst|]). done. Qed.

Lemma append_first ie content : (length content <= 255)%nat ->
  iax_ie_append_raw [] ie content = Ret (0, encoded [(ie, content)]).
Proof.
  intros Hl. unfold iax_ie_append_raw, encoded, IED_SIZE. cbn [length fmap list_fmap concat app].
  destruct (Z.gtb_spec (Z.of_nat (length content)) (1024 - Z.of_nat 0)); [lia|].
  destruct (Z.gtb_spec (Z.of_nat 0 + 2 + Z.of_nat (length content)) 1024); [lia|].
  rewrite (wrapu_id 8) by (unfold in_u; lia). by rewrite app_nil_r.
Qed.

Lemma wraps_mod w v : wraps w (v mod 2 ^ w) = wraps w v.
Proof. unfold wraps. by rewrite Zplus_mod_idemp_l. Qed.

Lemma parse_versioned p i v :
  parse_ie IAX_IE_FORMAT2 9 p (0 :: be_bytes 8 v) i = Ret (i <| format := wraps 64 v |>) /\
  parse_ie IAX_IE_CAPABILITY2 9 p (0 :: be_bytes 8 v) i = Ret (i <| capability := wraps 64 v |>).
Proof.
  assert (Hv : wraps 64 (be_value (drop 1 (take (Z.to_nat 9) (0 :: be_bytes 8 v)))) = wraps 64 v).
  { rewrite take_ge by (cbn [length]; rewrite length_be_bytes; lia). cbn [drop].
    rewrite drop_0, be_value_bytes. change (256 ^ Z.of_nat 8) with (2 ^ 64). apply wraps_mod. }
  rewrite <- Hv. by split.
Qed.

(** Numbers survive the network byte order: for every element type the reader
    takes as a short, an int or a byte, what the matching append function wrote for
    a value in range is stored as that value, and a versioned 64-bit number as the
    signed number of its bits. *)
Theorem iax_ie_values ie p i v :
  (forall set, short_case ie = Some set -> in_u 16 v ->
     iax_ie_append_short [] ie v = Ret (0, encoded [(ie, be_bytes 2 v)]) /\
     parse_ie ie 2 p (be_bytes 2 v) i = Ret (set v i)) /\
  (forall set, int_case ie = Some set -> in_u 32 v ->
     iax_ie_append_int [] ie v = Ret (0, encoded [(ie, be_bytes 4 v)]) /\
     parse_ie ie 4 p (be_bytes 4 v) i = Ret (set v i)) /\
  (forall set, byte_case ie = Some set -> in_u 8 v ->
     iax_ie_append_byte [] ie v = Ret (0, encoded [(ie, [v])]) /\ parse_ie ie 1 p [v] i = Ret (set v i)) /\
  (iax_ie_append_versioned_uint64 [] ie 0 v = Ret (0, encoded [(ie, 0 :: be_bytes 8 v)]) /\
   parse_ie IAX_IE_FORMAT2 9 p (0 :: be_bytes 8 v) i = Ret (i <| format := wraps 64 v |>) /\
   parse_ie IAX_IE_CAPABILITY2 9 p (0 :: be_bytes 8 v) i = Ret (i <| capability := wraps 64 v |>)).
Proof.
  split_and!.
  - intros set Hs Hv. split; [by apply append_first; rewrite length_be_bytes; lia|]. unfold parse_ie.
    rewrite (short_not_pointer ie set Hs), Hs, take_ge by (rewrite length_be_bytes; lia).
    rewrite be_value_bytes. change (256 ^ Z.of_nat 2) with (2 ^ 16). by rewrite Z.mod_small.
  - intros set Hs Hv. split; [by apply append_first; rewrite length_be_bytes; lia|]. unfold parse_ie.
    destruct (int_not_others ie set Hs) as [-> ->]. rewrite Hs, take_ge by (rewrite length_be_bytes; lia).
    rewrite be_value_bytes. change (256 ^ Z.of_nat 4) with (2 ^ 32). by rewrite Z.mod_small.
  - intros set Hs Hv. unfold iax_ie_append_byte. rewrite (wrapu_id 8) by done.
    split; [apply append_first; cbn; lia|]. unfold parse_ie. destruct (byte_not_others ie set Hs) as (-> & -> & ->). by rewrite Hs.
  - unfold iax_ie_append_versioned_uint64. change (u8 0) with 0. apply append_first. cbn [length].
    rewrite length_be_bytes. lia.
  - by apply parse_versioned.
  - by apply parse_versioned.
Qed.

(** An element whose data fits but not together with its two header bytes is written
    past the end of the buffer. *)
Theorem iax_ie_append_overflow ied ie data :
  Z.of_nat (length data) <= IED_SIZE - Z.of_nat (length ied) < Z.of_nat (length data) + 2 ->
  iax_ie_append_raw ied ie data = BadAccess.
Proof.
  intros H. unfold iax_ie_append_raw.
  destruct (Z.gtb_spec (Z.of_nat (length data)) (IED_SIZE - Z.of_nat (length ied))); [lia|].
  by destruct (Z.gtb_spec (Z.of_nat (length ied) + 2 + Z.of_nat (length data)) IED_SIZE); [|lia].
Qed.

(** A string of 256 characters is stored with length 0: the reader then takes its
    first characters for the next element. *)
Example iax_ie_append_long :
  exists ied, iax_ie_append_str [] IAX_IE_USERNAME (replicate 256 65) = Ret (0, ied) /\
    take 4 ied = [IAX_IE_USERNAME; 0; 65; 65].
Proof. eexists. split; [vm_compute; reflexivity|reflexivity]. Qed.

(** A variable at the end of a message that is not followed by a NUL is copied with a look
    at two bytes behind the message. *)
Lemma variable_read_over c : c <> 0 -> iax_parse_ies [IAX_IE_VARIABLE; 1; 65; c] 3 = BadAccess /\
  exists i mem', iax_parse_ies [IAX_IE_VARIABLE; 1; 65; 0] 3 = Ret (0, i, mem').
Proof.
  intros Hc. split; [|eexists _, _; vm_compute; reflexivity]. by destruct c.
Qed.

(** ** Witnesses *)

(** A user name and an expiry time. *)
Definition ex_items : list element := [(IAX_IE_USERNAME, [98; 111; 98]); (IAX_IE_REFRESH, [0; 60])].

Lemma ex_items_ok : Forall element_ok ex_items.
Proof. repeat constructor; cbn; done || lia. Qed.

Lemma iax_parse_ies_safe_witness :
  exists r i mem', iax_parse_ies [IAX_IE_VARIABLE; 1; 7; 8; 9] 3 = Ret (r, i, mem') /\ length mem' = 5%nat.
Proof.
  destruct (iax_parse_ies_safe [IAX_IE_VARIABLE; 1; 7; 8; 9] 3 ltac:(repeat constructor; done) ltac:(done) ltac:(done)) as (r & i & m & E & Hl & _).
  exists r, i, m. by split.
Defined.

Lemma iax_ies_roundtrip_witness :
  append_all [] ex_items = Ret (0, [6; 3; 98; 111; 98; 19; 2; 0; 60]) /\
  exists i mem', iax_parse_ies (encoded ex_items ++ [77]) 9 = Ret (0, i, mem') /\ username i = 2 /\ refresh i = 60 /\
    until_nul (drop 2 mem') = [98; 111; 98].
Proof.
  split; [reflexivity|].
  destruct (iax_ies_roundtrip ex_items 77 [] ex_items_ok ltac:(right; right; repeat constructor; done) ltac:(done)) as (_ & i & m & E & He & Hs).
  exists i, m. split; [exact E|]. injection He as <-. split; [reflexivity|]. split; [reflexivity|].
  apply (Hs [] IAX_IE_USERNAME [98; 111; 98] [(IAX_IE_REFRESH, [0; 60])] eq_refl). by repeat constructor.
Defined.

Lemma iax_ie_values_witness :
  iax_ie_append_short [] IAX_IE_CALLNO 513 = Ret (0, [21; 2; 2; 1]) /\
  parse_ie IAX_IE_CALLNO 2 2 [2; 1] empty_ies = Ret (empty_ies <| callno := 513 |>).
Proof.
  split; [reflexivity|].
  exact (proj2 (proj1 (iax_ie_values IAX_IE_CALLNO 2 empty_ies 513) (fun v i => i <| callno := v |>) eq_refl ltac:(done))).
Defined.
