(* ===== verification/Smoother.v ===== *)
(** * The smoother: [struct ast_smoother] of [main/frame.c]

    A smoother takes voice frames of any length and gives frames of one size.  A frame
    of exactly that size that meets an empty smoother is kept as it is ([opt]) instead
    of being copied; the model keeps the frame as it was when it was fed.  The [float]
    of the sample count is written out as a number of 24 bits and an exponent. *)

From S2P Require Import Prelude Time.
From Stdlib Require Import ZArith Lia.
From stdpp Require Import base list numbers.

#[local] Open Scope Z_scope.
#[local] Open Scope record_scope.
#[local] Open Scope outcome_scope.

Abbreviation zlen l := (Z.of_nat (length l)).

Definition SMOOTHER_SIZE : Z := 8000.
Definition AST_SMOOTHER_FLAG_G729 : Z := 1.
Definition AST_MIN_OFFSET : Z := 32.
Definition AST_FRIENDLY_OFFSET : Z := 64.

(** [struct ast_frame]: the fields the smoother uses; [data] are the bytes [data.ptr]
    points to. *)
Record ast_frame := mk_frame {
  voice : bool; codec : Z; datalen : Z; samples : Z; offset : Z; delivery : timeval; data : list Z
}.

#[export] Instance eta_ast_frame : Eta ast_frame := fun f =>
  mk_frame (voice f) (codec f) (datalen f) (samples f) (offset f) (delivery f) (data f).

(** A positive [float]: 24 bits and an exponent. *)
Definition float : Type := Z * Z.

Record ast_smoother := mk_smoother {
  size : Z;
  format : Z;
  flags : Z;
  samplesperbyte : float;
  opt_needs_swap : bool;
  s_delivery : timeval;
  buf : list Z;
  opt : option ast_frame;
  len : Z
}.

#[export] Instance eta_ast_smoother : Eta ast_smoother := fun s =>
  mk_smoother (size s) (format s) (flags s) (samplesperbyte s) (opt_needs_swap s) (s_delivery s) (buf s) (opt s) (len s).

(** ** Single precision *)

Definition scaled (n d e : Z) : Z * Z := if 0 <=? e then (n, d * 2 ^ e) else (n * 2 ^ (- e), d).

(** [n / d] to the nearest integer, to the even one of two. *)
Definition round_even (n d : Z) : Z :=
  let q := n / d in
  let r := 2 * (n mod d) in
  if r <? d then q else if d <? r then q + 1 else if Z.even q then q else q + 1.

(** [(float) n / (float) d] for integers below 2^24. *)
Definition float_div (n d : Z) : float :=
  if (n =? 0) || (d =? 0) then (0, 0)
  else
    let e := Z.log2 n - Z.log2 d - 24 in
    let '(a, b) := scaled n d e in
    let e := if a <? 2 ^ 24 * b then e else e + 1 in
    let '(a, b) := scaled n d e in
    (round_even a b, e).

(** [(int) (k * f)]. *)
Definition float_times (k : Z) (f : float) : Z :=
  let '(m, e) := f in
  let '(m, e) := if 0 <=? e then float_div (k * m * 2 ^ e) 1 else float_div (k * m) (2 ^ (- e)) in
  if 0 <=? e then m * 2 ^ e else m / 2 ^ (- e).

(** ** Operations *)

(** The bytes of the first [n] 16-bit samples, each exchanged, and the rest. *)
Fixpoint swap_samples (n : nat) (bs : list Z) : list Z :=
  match n, bs with
  | S n, a :: b :: bs => b :: a :: swap_samples n bs
  | _, _ => bs
  end.

(** [memcpy(mem + pos, bytes)] in an array of [SMOOTHER_SIZE] bytes. *)
Definition store_at (mem : list Z) (pos : Z) (bytes : list Z) : outcome (list Z) :=
  if pos + zlen bytes <=? SMOOTHER_SIZE
  then Ret (take (Z.to_nat pos) mem ++ bytes ++ drop (Z.to_nat (pos + zlen bytes)) mem)
  else BadAccess.

Definition g729 (s : ast_smoother) : bool := ctrue (Z.land (flags s) AST_SMOOTHER_FLAG_G729).

Definition smoother_frame_feed (s : ast_smoother) (f : ast_frame) (swap : bool) : outcome (Z * ast_smoother) :=
  if g729 s && ctrue (len s mod 10) then Ret (0, s)
  else
    let bytes := if swap then take (Z.to_nat (2 * samples f)) (swap_samples (Z.to_nat (samples f)) (data f))
                 else take (Z.to_nat (datalen f)) (data f) in
    let* mem := store_at (buf s) (len s) bytes in
    let s := s <| buf := mem |> in
    let s := if (len s =? 0) || ast_tvzero (delivery f) || ast_tvzero (s_delivery s)
             then s <| s_delivery := delivery f |> else s in
    Ret (0, s <| len ::= Z.add (datalen f) |>).

Definition ast_smoother_reset (bytes : Z) : ast_smoother :=
  mk_smoother bytes 0 0 (0, 0) false (mk_tv 0 0) (replicate (Z.to_nat SMOOTHER_SIZE) 0) None 0.

Definition ast_smoother_reconfigure (s : ast_smoother) (bytes : Z) : outcome ast_smoother :=
  if size s =? bytes then Ret s
  else
    let s := s <| size := bytes |> in
    match opt s with
    | None => Ret s
    | Some f => let* (_, s) := smoother_frame_feed s f (opt_needs_swap s) in Ret (s <| opt := None |>)
    end.

Definition ast_smoother_new (ok : bool) (bytes : Z) : option ast_smoother :=
  if bytes <? 1 then None else if ok then Some (ast_smoother_reset bytes) else None.

Definition ast_smoother_get_flags (s : ast_smoother) : Z := flags s.
Definition ast_smoother_set_flags (s : ast_smoother) (fl : Z) : ast_smoother := s <| flags := fl |>.
Definition ast_smoother_test_flag (s : ast_smoother) (flag : Z) : Z := Z.land (flags s) flag.

(** [__ast_smoother_feed]. The frame of the caller is swapped in place when it is
    kept. *)
Definition ast_smoother_feed (s : ast_smoother) (f : ast_frame) (swap : bool) : outcome (Z * ast_smoother) :=
  if negb (voice f) then Ret (-1, s)
  else
    let fresh := format s =? 0 in
    if negb fresh && negb (format s =? codec f) then Ret (-1, s)
    else
      let s := if fresh then s <| format := codec f |> <| samplesperbyte := float_div (samples f) (datalen f) |> else s in
      if len s + datalen f >? SMOOTHER_SIZE then Ret (-1, s)
      else if ((datalen f =? size s) || ((datalen f <? 10) && g729 s)) &&
              match opt s with None => true | Some _ => false end && (len s =? 0) && (offset f >=? AST_MIN_OFFSET)
      then
        let f := if swap then f <| data := swap_samples (Z.to_nat (samples f)) (data f) |> else f in
        Ret (0, s <| opt := Some f |> <| opt_needs_swap := swap |>)
      else smoother_frame_feed s f swap.

Definition ast_format_rate (fmt : Z) : Z :=
  if (fmt =? 2 ^ 12) || (fmt =? 2 ^ 15) || (fmt =? 2 ^ 13) || (fmt =? 2 ^ 33) then 16000
  else if fmt =? 2 ^ 14 then 32000
  else if fmt =? 2 ^ 32 then 48000
  else 8000.

(** The end of [ast_smoother_read]: [n] bytes, [smp] samples, have left. *)
Definition smoother_advance (s : ast_smoother) (n smp : Z) : ast_smoother :=
  let s := s <| len := len s - n |> in
  if negb (len s =? 0) then
    let kept := take (Z.to_nat (len s)) (drop (Z.to_nat n) (buf s)) in
    let s := s <| buf := kept ++ drop (Z.to_nat (len s)) (buf s) |> in
    if negb (ast_tvzero (s_delivery s))
    then s <| s_delivery := ast_tvadd (s_delivery s) (ast_samp2tv smp (ast_format_rate (format s))) |>
    else s
  else s.

(** [ast_smoother_read]: the frame, or [NULL]. *)
Definition ast_smoother_read (s : ast_smoother) : option ast_frame * ast_smoother :=
  match opt s with
  | Some f => (Some f, s <| opt := None |>)
  | None =>
      if (len s <? size s) && negb (g729 s && ctrue (len s mod 10)) then (None, s)
      else
        let n := if size s >? len s then len s else size s in
        let smp := float_times n (samplesperbyte s) in
        (Some (mk_frame true (format s) n smp AST_FRIENDLY_OFFSET (s_delivery s) (take (Z.to_nat n) (buf s))),
         smoother_advance s n smp)
  end.

(** ** The smoother as a queue of bytes *)

(** The bytes it still has to give. *)
Definition contents (s : ast_smoother) : list Z :=
  match opt s with Some f => data f | None => [] end ++ take (Z.to_nat (len s)) (buf s).

(** A frame whose data is there; with 16-bit samples when it is to be swapped. *)
Definition frame_ok (swap : bool) (f : ast_frame) : Prop :=
  0 < datalen f /\ zlen (data f) = datalen f /\ (swap = true -> datalen f = 2 * samples f).

Record smoother_wf (s : ast_smoother) : Prop := {
  sw_size : 0 < size s;
  sw_buf : zlen (buf s) = SMOOTHER_SIZE;
  sw_len : 0 <= len s <= SMOOTHER_SIZE;
  sw_opt f : opt s = Some f -> zlen (data f) = datalen f /\ 0 < datalen f /\ (datalen f = size s \/ g729 s = true)
}.

(** The bytes of a frame as they are to leave. *)
Definition given (swap : bool) (f : ast_frame) : list Z :=
  if swap then swap_samples (Z.to_nat (samples f)) (data f) else data f.

Lemma length_swap n bs : length (swap_samples n bs) = length bs.
Proof.
  revert bs. induction n as [|n IH]; intros [|a [|b bs]]; cbn; by rewrite ?IH.
Qed.

Lemma length_given swap f : length (given swap f) = length (data f).
Proof. destruct swap; [apply length_swap|done]. Qed.

Lemma store_at_ok mem pos bytes : zlen mem = SMOOTHER_SIZE -> 0 <= pos -> pos + zlen bytes <= SMOOTHER_SIZE ->
  exists mem', store_at mem pos bytes = Ret mem' /\ zlen mem' = SMOOTHER_SIZE /\
    take (Z.to_nat (pos + zlen bytes)) mem' = take (Z.to_nat pos) mem ++ bytes.
Proof.
  intros Hm Hp Hl. unfold store_at. rewrite (proj2 (Z.leb_le (pos + zlen bytes) SMOOTHER_SIZE)) by done.
  eexists. split; [done|]. split.
  - rewrite !length_app, length_take, length_drop. lia.
  - rewrite app_assoc, take_app_length' by (rewrite length_app, length_take; lia). done.
Qed.

(** Copying a frame into the buffer appends its bytes. *)
Lemma frame_feed_spec s f swap : smoother_wf s -> frame_ok swap f -> len s + datalen f <= SMOOTHER_SIZE ->
  exists s', smoother_frame_feed s f swap = Ret (0, s') /\ smoother_wf s' /\ size s' = size s /\ flags s' = flags s /\
    opt s' = opt s /\
    (contents s' = contents s ++ given swap f \/ g729 s = true /\ s' = s).
Proof.
  intros Hwf (Hd & Hdata & Hsw) Hroom. unfold smoother_frame_feed. destruct (g729 s && ctrue (len s mod 10)) eqn:Hg.
  { zb. exists s. split_and!; auto. }
  assert (Hb : (if swap then take (Z.to_nat (2 * samples f)) (swap_samples (Z.to_nat (samples f)) (data f))
                else take (Z.to_nat (datalen f)) (data f)) = given swap f).
  { unfold given. destruct swap; [|apply take_ge; lia]. apply take_ge. rewrite length_swap, <- Hsw by done. lia. }
  rewrite Hb. destruct Hwf as [Hs Hbuf Hl Ho].
  assert (Hgl : zlen (given swap f) = datalen f) by (by rewrite length_given).
  destruct (store_at_ok (buf s) (len s) (given swap f) Hbuf ltac:(lia) ltac:(lia)) as (mem & -> & Hm & Ht). rewrite Hgl in Ht.
  cbn [obind]. eexists. split; [done|].
  match goal with |- smoother_wf (setter (f := len) _ ?s1) /\ _ => set (s2 := s1) end.
  assert (H2 : size s2 = size s /\ flags s2 = flags s /\ opt s2 = opt s /\ buf s2 = mem /\ len s2 = len s)
    by (unfold s2; case_if; done).
  destruct H2 as (E1 & E2 & E3 & E4 & E5). clearbody s2.
  split_and!; cbn; try done.
  - split; cbn; rewrite ?E1, ?E4, ?E5; [done|done|lia|]. intros g. rewrite E3. intros Hg'. destruct (Ho g Hg') as (? & ? & ?).
    split_and!; [done..|]. unfold g729 in *. cbn. by rewrite E2.
  - left. unfold contents. cbn. rewrite E3, E4, E5, Z.add_comm, Ht. by rewrite app_assoc.
Qed.

(** What a feed does: refused, or accepted and appended (with the G.729 flag it may be
    ignored after a partial frame). *)
Definition fed (s : ast_smoother) (f : ast_frame) (swap : bool) (r : Z) (s' : ast_smoother) : Prop :=
  smoother_wf s' /\ size s' = size s /\ flags s' = flags s /\
  (r = -1 /\ contents s' = contents s \/
   r = 0 /\ (contents s' = contents s ++ given swap f \/ g729 s = true /\ contents s' = contents s)).

Definition refused (s : ast_smoother) (f : ast_frame) : Prop :=
  voice f = false \/ format s <> 0 /\ format s <> codec f \/ len s + datalen f > SMOOTHER_SIZE.

(** The feed of a frame that fits, once the format is known. *)
Lemma feed_accepted s f swap : smoother_wf s -> frame_ok swap f -> len s + datalen f <= SMOOTHER_SIZE ->
  exists s', (if ((datalen f =? size s) || ((datalen f <? 10) && g729 s)) &&
              match opt s with None => true | Some _ => false end && (len s =? 0) && (offset f >=? AST_MIN_OFFSET)
      then
        let f := if swap then f <| data := swap_samples (Z.to_nat (samples f)) (data f) |> else f in
        Ret (0, s <| opt := Some f |> <| opt_needs_swap := swap |>)
      else smoother_frame_feed s f swap) = Ret (0, s') /\ fed s f swap 0 s'.
Proof.
  intros Hwf Hok Hroom. destruct (_ && _ && _ && _) eqn:E.
  - zb. destruct Hwf as [Hs Hbuf Hl Ho]. pose proof Hok as (Hd & Hdata & _).
    destruct (opt s) eqn:Eo; [done|]. set (f' := if swap then _ else f).
    assert (Hf' : data f' = given swap f /\ datalen f' = datalen f) by (unfold f', given; by destruct swap).
    eexists. split; [done|]. split_and!; try done.
    + split; cbn; [done..|]. intros g [= <-]. rewrite (proj1 Hf'), (proj2 Hf'), length_given. split_and!; [done..|].
      unfold g729 in *. cbn. destruct H as [H|H]; zb; auto.
    + right. split; [done|]. left. unfold contents. cbn. rewrite Eo. rewrite H1. cbn. by rewrite app_nil_r, (proj1 Hf').
  - destruct (frame_feed_spec s f swap Hwf Hok Hroom) as (s' & -> & Hw & E1 & E2 & _ & H).
    exists s'. split; [done|]. split_and!; try done. right. split; [done|]. destruct H as [H|[H ->]]; auto.
Qed.

Lemma feed_spec s f swap : smoother_wf s -> frame_ok swap f ->
  exists r s', ast_smoother_feed s f swap = Ret (r, s') /\ fed s f swap r s' /\ (r = -1 <-> refused s f).
Proof.
  intros Hwf Hok. unfold ast_smoother_feed, refused.
  assert (Hrefl : forall s1, size s1 = size s -> flags s1 = flags s -> buf s1 = buf s -> opt s1 = opt s -> len s1 = len s ->
    smoother_wf s1 /\ fed s f swap (-1) s1).
  { intros s1 E1 E2 E3 E4 E5. destruct Hwf as [Hs Hbuf Hl Ho].
    assert (Hw : smoother_wf s1).
    { split; rewrite ?E1, ?E3, ?E4, ?E5; [done..|]. intros g Hg. unfold g729. rewrite E2. by apply Ho. }
    split; [done|]. split_and!; [done..|]. left. split; [done|]. unfold contents. by rewrite E3, E4, E5. }
  destruct (voice f); cbn [negb]; [|exists (-1), s; split; [done|]; split; [by apply Hrefl|]; tauto].
  destruct (Z.eqb_spec (format s) 0) as [H0|H0]; cbn [negb andb].
  - set (s1 := s <| format := _ |> <| samplesperbyte := _ |>).
    destruct (Hrefl s1) as [Hw1 Hf1]; [done..|]. change (len s1) with (len s). change (g729 s1) with (g729 s).
    destruct (Z.gtb_spec (len s + datalen f) SMOOTHER_SIZE) as [Hbig|Hroom].
    { exists (-1), s1. split; [done|]. split; [done|]. split; [|done]. intros _. right; right. lia. }
    destruct (feed_accepted s1 f swap Hw1 Hok Hroom) as (s' & E & Hfed). exists 0, s'. split; [exact E|].
    split; [exact Hfed|]. split; [done|]. intros [?|[[? ?]|?]]; done || lia.
  - destruct (Z.eqb_spec (format s) (codec f)) as [Hc|Hc]; cbn [negb].
    2:{ exists (-1), s. split; [done|]. split; [by apply Hrefl|]. tauto. }
    destruct (Z.gtb_spec (len s + datalen f) SMOOTHER_SIZE) as [Hbig|Hroom].
    { exists (-1), s. split; [done|]. split; [by apply Hrefl|]. split; [|done]. intros _. right; right. lia. }
    destruct (feed_accepted s f swap Hwf Hok Hroom) as (s' & E & Hfed). exists 0, s'. split; [exact E|].
    split; [exact Hfed|]. split; [done|]. intros [?|[[? ?]|?]]; done || lia.
Qed.

(** Advancing drops bytes from the front. *)
Lemma advance_spec s n smp : smoother_wf s -> opt s = None -> 0 <= n <= len s ->
  smoother_wf (smoother_advance s n smp) /\ size (smoother_advance s n smp) = size s /\
  flags (smoother_advance s n smp) = flags s /\
  contents s = take (Z.to_nat n) (buf s) ++ contents (smoother_advance s n smp).
Proof.
  intros [Hs Hbuf Hl Ho] Eo Hn. set (s3 := smoother_advance s n smp).
  assert (H3 : size s3 = size s /\ flags s3 = flags s /\ opt s3 = None /\ len s3 = len s - n /\ zlen (buf s3) = SMOOTHER_SIZE /\
    take (Z.to_nat (len s - n)) (buf s3) = take (Z.to_nat (len s - n)) (drop (Z.to_nat n) (buf s))).
  { unfold s3, smoother_advance. cbn [len setter]. change (len (s <| len := len s - n |>)) with (len s - n).
    destruct (Z.eqb_spec (len s - n) 0) as [Hz|Hz]; cbn [negb].
    { cbn. rewrite Hz. by rewrite !take_0. }
    cbn [buf setter eta_of eta_ast_smoother]. set (kept := take _ _). assert (Hk : zlen kept = len s - n).
    { unfold kept. cbn. rewrite length_take, length_drop. lia. }
    case_if; cbn; (split_and!; [done|done|done|done| |]);
      rewrite ?length_app, ?length_drop, ?take_app_length' by lia; [lia|done|lia|done]. }
  destruct H3 as (E1 & E2 & E3 & E4 & E5 & E6). clearbody s3. split_and!; [|done|done|].
  - split; rewrite ?E1, ?E3, ?E4; [done|done|lia|done].
  - unfold contents. rewrite Eo, E3, E4, E6. cbn [app].
    rewrite <- (take_drop (Z.to_nat n) (take (Z.to_nat (len s)) (buf s))) at 1. rewrite take_take, take_drop_commute.
    f_equal; [f_equal; lia|]. do 2 f_equal. lia.
Qed.

(** A read takes the bytes it gives from the front. *)
Lemma read_spec s : smoother_wf s ->
  let '(res, s') := ast_smoother_read s in
  smoother_wf s' /\ size s' = size s /\ flags s' = flags s /\
  match res with
  | None => s' = s /\ zlen (contents s) < size s
  | Some f => contents s = data f ++ contents s' /\ zlen (data f) = datalen f /\
      (g729 s = false -> datalen f = size s)
  end.
Proof.
  intros Hwf. pose proof Hwf as [Hs Hbuf Hl Ho]. unfold ast_smoother_read. destruct (opt s) as [f|] eqn:Eo.
  { destruct (Ho f eq_refl) as (H1 & H2 & H3). split_and!; try done.
    - unfold contents. cbn. by rewrite Eo.
    - intros Hg. rewrite Hg in H3. by destruct H3. }
  destruct ((len s <? size s) && negb (g729 s && ctrue (len s mod 10))) eqn:E.
  { split_and!; [done..|]. zb. unfold contents. rewrite Eo. cbn [app]. rewrite length_take. lia. }
  set (n := if size s >? len s then len s else size s).
  assert (Hn : n = Z.min (size s) (len s)) by (unfold n; destruct (Z.gtb_spec (size s) (len s)); lia).
  assert (Hfull : g729 s = false -> n = size s).
  { intros Hg. rewrite Hg in E. zb. destruct E as [E|E]; zb; [lia|]. done. }
  destruct (advance_spec s n (float_times n (samplesperbyte s)) Hwf Eo ltac:(lia)) as (Hw & E1 & E2 & Hc).
  split_and!; [done|done|done|done| |done]. cbn. rewrite length_take. lia.
Qed.

(** ** Runs *)

Inductive smoother_op := Feed (f : ast_frame) (swap : bool) | Read.

(** A sequence of calls: the frames read, the bytes of the frames accepted, and the
    smoother. *)
Fixpoint run (s : ast_smoother) (ops : list smoother_op) : outcome (list ast_frame * list Z * ast_smoother) :=
  match ops with
  | [] => Ret ([], [], s)
  | Feed f swap :: ops =>
      let* (r, s) := ast_smoother_feed s f swap in
      let* (outs, ins, s) := run s ops in
      Ret (outs, (if ctrue r then [] else given swap f) ++ ins, s)
  | Read :: ops =>
      let '(res, s) := ast_smoother_read s in
      let* (outs, ins, s) := run s ops in
      Ret (match res with Some f => f :: outs | None => outs end, ins, s)
  end.

Definition op_ok (o : smoother_op) : Prop := match o with Feed f swap => frame_ok swap f | Read => True end.

Lemma reset_wf bytes : 0 < bytes -> smoother_wf (ast_smoother_reset bytes).
Proof. intros Hb. split; cbn; [done| |unfold SMOOTHER_SIZE; lia|done]. by rewrite length_replicate. Qed.

(** ** Properties *)

(** C40: the smoother is a queue of bytes.  For any sequence of feeds and reads (without
    the G.729 flag) no call leaves the buffer; the frames read have exactly the set
    size; and what was in the smoother, followed by the accepted frames (byte-swapped
    where asked), is what was read followed by what is left: no byte is lost,
    repeated or reordered, also when frames take the way around the buffer. *)
Theorem smoother_fifo s ops : smoother_wf s -> g729 s = false -> Forall op_ok ops ->
  exists outs ins s', run s ops = Ret (outs, ins, s') /\ smoother_wf s' /\
    contents s ++ ins = concat (data <$> outs) ++ contents s' /\
    Forall (fun f => datalen f = size s /\ zlen (data f) = size s) outs.
Proof.
  intros Hwf Hg Hok. revert s Hwf Hg. induction Hok as [|o ops Ho _ IH]; intros s Hwf Hg.
  { exists [], [], s. by rewrite app_nil_r. }
  assert (Hflags : forall s', flags s' = flags s -> g729 s' = false) by (intros s' E; unfold g729 in *; by rewrite E).
  destruct o as [f swap|]; cbn [run].
  - destruct (feed_spec s f swap Hwf Ho) as (r & s1 & -> & (Hw & E1 & E2 & Hc) & _). cbn [obind].
    destruct (IH s1 Hw (Hflags s1 E2)) as (outs & ins & s' & -> & Hw' & Hio & Hf). cbn [obind].
    eexists _, _, _. split; [done|]. rewrite E1 in Hf. split_and!; [done| |done].
    rewrite <- Hio. destruct Hc as [[-> ->]|[-> [->|[Hg' _]]]]; [done| |congruence].
    change (ctrue 0) with false. cbn iota. by rewrite app_assoc.
  - pose proof (read_spec s Hwf) as H. destruct (ast_smoother_read s) as [res s1]. destruct H as (Hw & E1 & E2 & H).
    destruct (IH s1 Hw (Hflags s1 E2)) as (outs & ins & s' & -> & Hw' & Hio & Hf). cbn [obind]. rewrite E1 in Hf.
    eexists _, _, _. split; [done|]. split; [done|]. destruct res as [f|].
    + destruct H as (-> & Hd & Hsz). cbn [fmap list_fmap concat]. rewrite <- !app_assoc, <- Hio. split; [done|].
      constructor; [|done]. rewrite Hd. split; by apply Hsz.
    + destruct H as [-> _]. done.
Qed.

(** Changing the size while a frame waits ([opt]) puts the frame behind bytes that came
    after it. *)
Definition ex_frame (bytes : list Z) : ast_frame := mk_frame true (2 ^ 6) (zlen bytes) (zlen bytes / 2) 64 (mk_tv 0 0) bytes.

Example reconfigure_reorders :
  exists s, run (ast_smoother_reset 4) [Feed (ex_frame [1; 2; 3; 4]) false; Feed (ex_frame [5; 6]) false] =
      Ret ([], [1; 2; 3; 4; 5; 6], s) /\
    contents s = [1; 2; 3; 4; 5; 6] /\
    exists s', ast_smoother_reconfigure s 2 = Ret s' /\ contents s' = [5; 6; 1; 2; 3; 4].
Proof.
  eexists. split; [reflexivity|]. split; [reflexivity|]. eexists. split; reflexivity.
Qed.

(** And a frame that was swapped when it was kept is swapped back. *)
Example reconfigure_unswaps :
  exists s, run (ast_smoother_reset 4) [Feed (ex_frame [1; 2; 3; 4]) true] = Ret ([], [2; 1; 4; 3], s) /\
    contents s = [2; 1; 4; 3] /\
    exists s', ast_smoother_reconfigure s 2 = Ret s' /\ contents s' = [1; 2; 3; 4].
Proof.
  eexists. split; [reflexivity|]. split; [reflexivity|]. eexists. split; reflexivity.
Qed.

(** ** Witnesses *)

Definition ex_ops : list smoother_op :=
  [Feed (ex_frame [1; 2; 3; 4; 5; 6]) true; Read; Feed (ex_frame [7; 8]) false; Read; Read].

Definition run_bytes (o : outcome (list ast_frame * list Z * ast_smoother)) : list Z * nat :=
  match o with Ret (outs, ins, _) => (ins, length outs) | _ => ([], 0%nat) end.

Lemma smoother_fifo_witness :
  exists outs s', run (ast_smoother_reset 4) ex_ops = Ret (outs, [2; 1; 4; 3; 6; 5; 7; 8], s') /\ length outs = 2%nat /\
    [2; 1; 4; 3; 6; 5; 7; 8] = concat (data <$> outs) ++ contents s'.
Proof.
  destruct (smoother_fifo (ast_smoother_reset 4) ex_ops (reset_wf 4 eq_refl) eq_refl ltac:(repeat constructor))
    as (outs & ins & s' & E & _ & H & _).
  assert (Hb : run_bytes (run (ast_smoother_reset 4) ex_ops) = ([2; 1; 4; 3; 6; 5; 7; 8], 2%nat)) by (vm_compute; reflexivity).
  rewrite E in Hb. injection Hb as -> Hl. exists outs, s'. split; [exact E|]. split; [exact Hl|exact H].
Defined.
