(* ===== verification/Timing.v ===== *)
(** * Time conditions: [struct ast_timing] of [main/pbx.c]

    A time condition ([GotoIfTime], [ExecIfTime], a timed include) is a text of up to
    five fields: times of day, days of the week, days of the month, months and a time
    zone.  [ast_build_timing] turns it into bit masks, [ast_check_timing2] looks a time
    up in them.  A field is a list of values and ranges; a range may wrap around. *)

From S2P Require Import Prelude Time.
From Stdlib Require Import ZArith Lia.
From stdpp Require Import base list strings numbers.

#[local] Open Scope Z_scope.
#[local] Open Scope record_scope.
#[local] Open Scope outcome_scope.

(** ** [sscanf]

    [%2d]: white space is skipped; then at most two characters, a sign and digits. *)

Definition isdigit (c : Z) : bool := (48 <=? c) && (c <=? 57).

Fixpoint skip_space (s : str) : str :=
  match s with [] => [] | c :: s' => if isspace c then skip_space s' else s end.

(** At most [n] digits after the number [acc]; whether there was one. *)
Fixpoint scan_digits (n : nat) (any : bool) (acc : Z) (s : str) : option (Z * str) :=
  let stop := if any then Some (acc, s) else None in
  match n, s with
  | S n, c :: s' => if isdigit c then scan_digits n true (10 * acc + (c - 48)) s' else stop
  | _, _ => stop
  end.

Definition scan_2d (s : str) : option (Z * str) :=
  match skip_space s with
  | [] => None
  | c :: s' =>
      if c =? 45 then '(v, r) ← scan_digits 1 false 0 s'; Some (- v, r)
      else if c =? 43 then scan_digits 1 false 0 s'
      else scan_digits 2 false 0 (c :: s')
  end.

(** [sscanf(s, "%2d:%2d", &h, &m) == 2]. *)
Definition scan_time (s : str) : option (Z * Z) :=
  '(h, s) ← scan_2d s;
  match s with
  | c :: s => if c =? 58 then '(m, _) ← scan_2d s; Some (h, m) else None
  | [] => None
  end.

(** ** Data *)

(** The [timezone] pointer: [NULL], a string, or memory nothing was stored in. *)
Inductive tz_ptr := TzNull | TzStr (s : str) | TzWild.

Record ast_timing := mk_timing {
  hastime : Z;
  monthmask : Z;
  daymask : Z;
  dowmask : Z;
  minmask : list Z;
  timezone : tz_ptr
}.

#[export] Instance eta_ast_timing : Eta ast_timing := fun i =>
  mk_timing (hastime i) (monthmask i) (daymask i) (dowmask i) (minmask i) (timezone i).

(** The fields of [struct ast_tm] that are read. *)
Record ast_tm := mk_tm { tm_mon : Z; tm_mday : Z; tm_wday : Z; tm_hour : Z; tm_min : Z }.

Definition days : list str := zs <$> ["sun"; "mon"; "tue"; "wed"; "thu"; "fri"; "sat"]%string.

Definition months : list str :=
  zs <$> ["jan"; "feb"; "mar"; "apr"; "may"; "jun"; "jul"; "aug"; "sep"; "oct"; "nov"; "dec"]%string.

(** ** Reading a field *)

(** The first name that is [s], from index [i]. *)
Fixpoint find_name (s : str) (names : list str) (i : Z) : option Z :=
  match names with
  | [] => None
  | n :: names => if same_name s n then Some i else find_name s names (i + 1)
  end.

Definition lookup_name (s : str) (names : option (list str)) (max : Z) : Z :=
  match (match names with Some ns => if deref s >? 57 then find_name s ns 0 else None | None => None end) with
  | Some i => i
  | None =>
      match scan_2d s with
      | Some (i, _) => if (i >=? 1) && (i <=? max) then i - 1 else -1
      | None => -1
      end
  end.

Definition is_dash (c : Z) : bool := c =? 45.
Definition is_amp (c : Z) : bool := c =? 38.
Definition is_sep (c : Z) : bool := (c =? 124) || (c =? 44).

(** [ast_strlen_zero(s) || !strcmp(s, "*")]. *)
Definition whole (s : str) : bool := match s with [] => true | [c] => c =? 42 | _ => false end.

(** [while (start != end)]. *)
Fixpoint range_loop (fuel : nat) (max start end_ mask : Z) : outcome Z :=
  match fuel with
  | O => NoFuel
  | S fuel =>
      if start =? end_ then Ret mask
      else
        let mask := Z.lor mask (Z.shiftl 1 start) in
        let start := start + 1 in
        range_loop fuel max (if start >=? max then 0 else start) end_ mask
  end.

(** One element of a field. *)
Definition range_part (max : Z) (names : option (list str)) (mask : Z) (part : str) : outcome Z :=
  let '(part, endpart) := strsep is_dash part in
  let start := lookup_name part names max in
  if start <? 0 then Ret mask
  else
    let end_ := match endpart with Some e => lookup_name e names max | None => start end in
    if end_ <? 0 then Ret mask
    else range_loop (S (Z.to_nat max)) max start end_ (Z.lor mask (Z.shiftl 1 end_)).

Definition get_range (src : str) (max : Z) (names : option (list str)) : outcome Z :=
  if whole src then Ret (u32 (Z.shiftl 1 max - 1)) else ofold (range_part max names) 0 (tokens is_amp src).

(** [i->minmask[k] |= (1 << b)]. *)
Definition set_minute (mm : list Z) (k b : Z) : outcome (list Z) :=
  let* w := oaccess (mm !! Z.to_nat k) in Ret (<[Z.to_nat k := Z.lor w (Z.shiftl 1 b)]> mm).

(** [for (x = minute_start; x != minute_end; x = (x + 1) % (24 * 60))], and the last. *)
Fixpoint minute_loop (fuel : nat) (x end_ : Z) (mm : list Z) : outcome (list Z) :=
  match fuel with
  | O => NoFuel
  | S fuel =>
      if x =? end_ then set_minute mm (x / 30) (x mod 30)
      else
        let* mm := set_minute mm (x / 30) (x mod 30) in
        minute_loop fuel ((x + 1) mod (24 * 60)) end_ mm
  end.

Fixpoint skip_to_digit (s : str) : str :=
  match s with [] => [] | c :: s' => if isdigit c then s else skip_to_digit s' end.

Definition time_ok (t : Z * Z) : bool :=
  let '(h, m) := t in negb ((h <? 0) || (h >? 23) || (m <? 0) || (m >? 59)).

(** A time of day that [sscanf] reads and that is in range. *)
Definition read_time (s : str) : option (Z * Z) :=
  match scan_time s with Some t => if time_ok t then Some t else None | None => None end.

Definition time_part (mm : list Z) (part : str) : outcome (list Z) :=
  match strsep is_dash part with
  | (_, None) =>
      match read_time part with
      | Some (h, m) => set_minute mm (h * 2 + (if m >=? 30 then 1 else 0)) (m mod 30)
      | None => Ret mm
      end
  | (part, Some endpart) =>
      match skip_to_digit endpart with
      | [] => Ret mm
      | endpart =>
          match read_time part, read_time endpart with
          | Some (st_h, st_m), Some (endh, endm) =>
              minute_loop (Z.to_nat (24 * 60)) (st_h * 60 + st_m) (endh * 60 + endm) mm
          | _, _ => Ret mm
          end
      end
  end.

(** [get_timerange]: the new [minmask]. *)
Definition get_timerange (times : str) : outcome (list Z) :=
  if whole times then Ret (replicate 48 0x3fffffff) else ofold time_part (replicate 48 0) (tokens is_amp times).

(** ** Operations *)

(** The commas of [info] from index [j] on: the number of fields and the last comma. *)
Fixpoint count_fields (s : str) (j num_fields last_sep : Z) : Z * Z :=
  match s with
  | [] => (num_fields, last_sep)
  | c :: s => if c =? 44 then count_fields s (j + 1) (num_fields + 1) j else count_fields s (j + 1) num_fields last_sep
  end.

(** [if (info) mask = get_range(strsep(&info, "|,"), max, names)]. *)
Definition next_range (info : option str) (max : Z) (names : option (list str)) (mask : Z) : outcome (Z * option str) :=
  match info with
  | Some info =>
      let '(part, info) := strsep is_sep info in
      let* mask := get_range part max names in
      Ret (mask, info)
  | None => Ret (mask, None)
  end.

(** [ok]: [ast_strdup] returns memory. *)
Definition ast_build_timing (ok : bool) (i : ast_timing) (info_in : str) : outcome (Z * ast_timing) :=
  match info_in with
  | [] => Ret (0, i)
  | _ =>
      let info := info_in in
      let '(num_fields, last_sep) := count_fields info 0 1 (-1) in
      let i := i <| timezone := if (num_fields =? 5) && ok then TzStr (drop (Z.to_nat (last_sep + 1)) info) else TzNull |> in
      let i := i <| monthmask := 0xfff |> <| daymask := 0x7fffffff |> <| dowmask := 0x7f |> in
      let '(times, info) := strsep is_sep info in
      let* mm := get_timerange times in
      let i := i <| minmask := mm |> in
      let* (mask, info) := next_range info 7 (Some days) (dowmask i) in
      let i := i <| dowmask := mask |> in
      let* (mask, info) := next_range info 31 None (daymask i) in
      let i := i <| daymask := mask |> in
      let* (mask, info) := next_range info 12 (Some months) (monthmask i) in
      Ret (1, i <| monthmask := mask |>)
  end.

Section check.
(** [ast_localtime], of the time zone library. *)
Context (ast_localtime : timeval -> option str -> ast_tm).

Definition ast_check_timing2 (i : ast_timing) (tv : timeval) : outcome Z :=
  match timezone i with
  | TzWild => BadAccess
  | tz =>
      let tm := ast_localtime tv (match tz with TzStr s => Some s | _ => None end) in
      if negb (ctrue (Z.land (monthmask i) (Z.shiftl 1 (tm_mon tm)))) then Ret 0
      else if negb (ctrue (Z.land (daymask i) (Z.shiftl 1 (tm_mday tm - 1)))) then Ret 0
      else if negb (ctrue (Z.land (dowmask i) (Z.shiftl 1 (tm_wday tm)))) then Ret 0
      else if (tm_hour tm <? 0) || (tm_hour tm >? 23) then Ret 0
      else
        let* w := oaccess (minmask i !! Z.to_nat (tm_hour tm * 2 + (if tm_min tm >=? 30 then 1 else 0))) in
        if negb (ctrue (Z.land w (Z.shiftl 1 (if tm_min tm >=? 30 then tm_min tm - 30 else tm_min tm)))) then Ret 0
        else Ret 1
  end.

(** [now] is the answer of [ast_tvnow]. *)
Definition ast_check_timing (i : ast_timing) (now : timeval) : outcome Z := ast_check_timing2 i now.

(** [ast_destroy_timing] frees the time zone: [free] of memory that is none fails. *)
Definition ast_destroy_timing (i : ast_timing) : outcome (Z * ast_timing) :=
  match timezone i with
  | TzNull => Ret (0, i)
  | TzStr _ => Ret (0, i <| timezone := TzNull |>)
  | TzWild => BadAccess
  end.

(** The timing of an include. *)
Definition include_valid (timing : ast_timing) (now : timeval) : outcome Z :=
  if negb (ctrue (hastime timing)) then Ret 1 else ast_check_timing timing now.

(** [ast_context_add_include2]: the name without its time condition, and the
    condition; the new include is zeroed memory. *)
Definition include_timing (ok : bool) (value : str) : outcome (str * ast_timing) :=
  let i := mk_timing 0 0 0 0 (replicate 48 0) TzNull in
  match strsep (fun c => c =? 44) value with
  | (rname, None) => Ret (rname, i)
  | (rname, Some c) =>
      let* (r, i) := ast_build_timing ok i c in
      Ret (rname, i <| hastime := r |>)
  end.

(** [pbx_builtin_gotoiftime]: the branch taken, [None] for none.  [timing] is what is on
    the stack; [tv] the time, from the clock or from [TESTTIME]. *)
Definition pbx_builtin_gotoiftime (ok : bool) (timing : ast_timing) (data : str) (tv : timeval) : outcome (option str) :=
  let '(s, ts) := strsep (fun c => c =? 63) data in
  let '(branch1, ts) := match ts with Some ts => let '(b, ts) := strsep (fun c => c =? 58) ts in (Some b, ts) | None => (None, None) end in
  let branch2 := ts in
  let* (r, timing) := ast_build_timing ok timing s in
  let* c := if ctrue r then ast_check_timing2 timing tv else Ret 0 in
  let branch := if ctrue c then branch1 else branch2 in
  let* (_, _) := ast_destroy_timing timing in
  Ret (match branch with Some [] => None | b => b end).

(** [pbx_builtin_execiftime], up to the call of the application: [Some] of what is to
    run, or the result -1 or 0 without a call. *)
Definition pbx_builtin_execiftime (ok : bool) (timing : ast_timing) (data : str) (now : timeval) : outcome (str + Z) :=
  match data with
  | [] => Ret (inr (-1))
  | _ =>
      match strsep (fun c => c =? 63) data with
      | (_, None) => Ret (inr (-1))
      | (s, Some appname) =>
          let* (r, timing) := ast_build_timing ok timing s in
          if negb (ctrue r) then let* (_, _) := ast_destroy_timing timing in Ret (inr (-1))
          else
            let* c := ast_check_timing timing now in
            let* (_, _) := ast_destroy_timing timing in
            Ret (if negb (ctrue c) then inr 0 else inl appname)
      end
  end.
End check.

(** ** What a condition means *)

(** Going from [s] up to [e] around a dial of [n] values meets [x]. *)
Definition cyclic (n s e x : Z) : bool := (x - s) mod n <=? (e - s) mod n.

(** The ends of an element, when it is valid. *)
Definition part_range (max : Z) (names : option (list str)) (part : str) : option (Z * Z) :=
  let '(a, b) := strsep is_dash part in
  let s := lookup_name a names max in
  let e := match b with Some b => lookup_name b names max | None => s end in
  if (s <? 0) || (e <? 0) then None else Some (s, e).

Definition minute_of (t : Z * Z) : Z := t.1 * 60 + t.2.

Definition time_range (part : str) : option (Z * Z) :=
  match strsep is_dash part with
  | (_, None) => t ← read_time part; Some (minute_of t, minute_of t)
  | (a, Some b) => s ← read_time a; e ← read_time (skip_to_digit b); Some (minute_of s, minute_of e)
  end.

(** The values in a field: any, or those in one of the valid elements. *)
Definition has_value (n : Z) (range : str -> option (Z * Z)) (src : str) (x : Z) : bool :=
  whole src ||
  existsb (fun part => match range part with Some (s, e) => cyclic n s e x | None => false end) (tokens is_amp src).

(** A field that is not there does not restrict. *)
Definition field_has (n : Z) (range : str -> option (Z * Z)) (field : option str) (x : Z) : bool :=
  match field with Some src => has_value n range src x | None => true end.

Definition timing_holds (info : str) (tm : ast_tm) : bool :=
  let fields := tokens is_sep info in
  field_has 1440 time_range (fields !! 0%nat) (tm_hour tm * 60 + tm_min tm) &&
  field_has 7 (part_range 7 (Some days)) (fields !! 1%nat) (tm_wday tm) &&
  field_has 31 (part_range 31 None) (fields !! 2%nat) (tm_mday tm - 1) &&
  field_has 12 (part_range 12 (Some months)) (fields !! 3%nat) (tm_mon tm).

(** The fifth field is the time zone, when the fields are separated by commas. *)
Definition zone_of (info : str) : option str :=
  let fields := tokens (fun c => c =? 44) info in
  if (length fields =? 5)%nat then fields !! 4%nat else None.

Definition tm_ok (tm : ast_tm) : Prop :=
  0 <= tm_mon tm < 12 /\ 1 <= tm_mday tm <= 31 /\ 0 <= tm_wday tm < 7 /\ 0 <= tm_hour tm < 24 /\ 0 <= tm_min tm < 60.

(** ** Dials *)

Lemma mod_diff n a b : 0 <= a < n -> 0 <= b < n -> (a - b) mod n = if b <=? a then a - b else a - b + n.
Proof.
  intros Ha Hb. destruct (Z.leb_spec b a).
  - apply Z.mod_small. lia.
  - rewrite <- (Z_mod_plus_full _ 1), Z.mod_small by lia. lia.
Qed.

Definition dial_next (n s : Z) : Z := if s + 1 >=? n then 0 else s + 1.

Lemma dial_next_range n s : 0 <= s < n -> 0 <= dial_next n s < n.
Proof. intros H. unfold dial_next. case_if; lia. Qed.

Lemma dial_next_mod n s : 0 <= s < n -> (s + 1) mod n = dial_next n s.
Proof.
  intros H. unfold dial_next. destruct (Z.geb_spec (s + 1) n).
  - replace (s + 1) with n by lia. apply Z_mod_same_full.
  - apply Z.mod_small. lia.
Qed.

(** One step along the dial. *)
Lemma cyclic_step n s e x : 0 <= s < n -> 0 <= e < n -> 0 <= x < n -> s <> e ->
  cyclic n s e x = (s =? x) || cyclic n (dial_next n s) e x.
Proof.
  intros Hs He Hx Hne. pose proof (dial_next_range n s Hs) as Hn. unfold cyclic. rewrite !mod_diff by done.
  revert Hn. unfold dial_next. destruct (Z.geb_spec (s + 1) n), (Z.eqb_spec s x); cbn [orb]; intros _;
    repeat case_match; zb; apply Bool.eq_iff_eq_true; rewrite !Z.leb_le; lia || (split; intros; [done|lia]) || lia.
Qed.

Lemma cyclic_end n s x : 0 <= s < n -> 0 <= x < n -> cyclic n s s x = (s =? x).
Proof.
  intros Hs Hx. unfold cyclic. rewrite !mod_diff by done. rewrite Z.leb_refl, Z.sub_diag.
  apply Bool.eq_iff_eq_true. rewrite Z.eqb_eq, Z.leb_le. case_if; lia.
Qed.

Lemma dial_closer n s e : 0 <= s < n -> 0 <= e < n -> s <> e ->
  (e - dial_next n s) mod n = (e - s) mod n - 1.
Proof.
  intros Hs He Hne. pose proof (dial_next_range n s Hs) as Hn. rewrite !mod_diff by done. revert Hn. unfold dial_next.
  destruct (Z.geb_spec (s + 1) n); intros _; repeat case_if; lia.
Qed.

(** ** Fields *)

Lemma find_name_range s names i k : find_name s names i = Some k -> i <= k < i + Z.of_nat (length names).
Proof.
  revert i. induction names as [|n names IH]; intros i; cbn; [done|]. case_if; [intros [= <-]; lia|].
  intros H. apply IH in H. lia.
Qed.

Definition names_fit (max : Z) (names : option (list str)) : Prop :=
  match names with Some ns => Z.of_nat (length ns) = max | None => True end.

Lemma lookup_name_range s names max : names_fit max names ->
  lookup_name s names max = -1 \/ 0 <= lookup_name s names max < max.
Proof.
  intros Hf. unfold lookup_name. destruct (match names with Some _ => _ | None => _ end) as [i|] eqn:E.
  - destruct names as [ns|]; [|done]. destruct (deref s >? 57); [|done]. apply find_name_range in E. cbn in Hf. lia.
  - destruct (scan_2d s) as [[i r]|]; [|auto]. case_if; zb; lia.
Qed.

Lemma part_range_ok max names part s e : names_fit max names -> part_range max names part = Some (s, e) ->
  0 <= s < max /\ 0 <= e < max.
Proof.
  intros Hf. unfold part_range. destruct (strsep is_dash part) as [a b].
  pose proof (lookup_name_range a names max Hf). case_if; [done|]. intros [= <- <-]. zb.
  destruct b as [b|]; [pose proof (lookup_name_range b names max Hf)|]; lia.
Qed.

Lemma range_loop_spec fuel max s e mask : 0 <= s < max -> 0 <= e < max -> (e - s) mod max < Z.of_nat fuel ->
  Z.testbit mask e = true ->
  exists m, range_loop fuel max s e mask = Ret m /\
    forall x, 0 <= x < max -> Z.testbit m x = Z.testbit mask x || cyclic max s e x.
Proof.
  revert s mask. induction fuel as [|fuel IH]; intros s mask Hs He Hf Hm.
  { pose proof (Z.mod_pos_bound (e - s) max). lia. }
  cbn [range_loop]. destruct (Z.eqb_spec s e) as [->|Hne].
  - exists mask. split; [done|]. intros x Hx. rewrite cyclic_end by done. destruct (Z.eqb_spec e x) as [<-|]; [|by rewrite orb_false_r].
    by rewrite Hm.
  - fold (dial_next max s). destruct (IH (dial_next max s) (Z.lor mask (Z.shiftl 1 s))) as (m & Hr & Hb).
    { by apply dial_next_range. } { done. } { rewrite dial_closer by done. lia. } { rewrite lor_bit by lia. by rewrite Hm. }
    exists m. split; [exact Hr|]. intros x Hx. rewrite Hb, lor_bit, (cyclic_step max s) by lia. by rewrite orb_assoc.
Qed.

Lemma range_part_spec max names mask part : names_fit max names ->
  exists m, range_part max names mask part = Ret m /\
    forall x, 0 <= x < max -> Z.testbit m x = Z.testbit mask x ||
      match part_range max names part with Some (s, e) => cyclic max s e x | None => false end.
Proof.
  intros Hf. pose proof (part_range_ok max names part) as Hok. unfold range_part, part_range in *.
  destruct (strsep is_dash part) as [a b]. set (s := lookup_name a names max) in *. set (e := match b with Some _ => _ | None => _ end) in *.
  destruct (s <? 0) eqn:Hs; cbn [orb] in *; [exists mask; split; [done|]; intros; by rewrite orb_false_r|].
  destruct (e <? 0) eqn:He; [exists mask; split; [done|]; intros; by rewrite orb_false_r|].
  destruct (Hok s e Hf eq_refl) as [H1 H2]. pose proof (Z.mod_pos_bound (e - s) max ltac:(lia)).
  destruct (range_loop_spec (S (Z.to_nat max)) max s e (Z.lor mask (Z.shiftl 1 e))) as (m & Hr & Hb); [done|done|lia| |].
  { rewrite lor_bit, Z.eqb_refl by lia. apply orb_true_r. }
  exists m. split; [exact Hr|]. intros x Hx. rewrite Hb, lor_bit by lia. destruct (Z.eqb_spec e x) as [<-|]; [|by rewrite orb_false_r].
  rewrite <- orb_assoc. f_equal. symmetry. unfold cyclic. apply Z.leb_refl.
Qed.

(** A loop whose steps each add the values of one element adds those of all. *)
Lemma ofold_or {A} (f : A -> str -> outcome A) (wf : A -> Prop) (bit : A -> Z -> bool) (q : str -> Z -> bool) n parts a :
  (forall a p, wf a -> exists a', f a p = Ret a' /\ wf a' /\ forall x, 0 <= x < n -> bit a' x = bit a x || q p x) ->
  wf a -> exists a', ofold f a parts = Ret a' /\ wf a' /\
    forall x, 0 <= x < n -> bit a' x = bit a x || existsb (fun p => q p x) parts.
Proof.
  intros Hstep. revert a. induction parts as [|p parts IH]; intros a Ha; cbn [ofold existsb].
  { exists a. split_and!; [done..|]. intros. by rewrite orb_false_r. }
  destruct (Hstep a p Ha) as (a1 & -> & Ha1 & Hb). cbn [obind]. destruct (IH a1 Ha1) as (a2 & E & Ha2 & Hb2).
  exists a2. split_and!; [done..|]. intros x Hx. by rewrite Hb2, Hb, orb_assoc.
Qed.

Lemma full_mask_bit max x : 0 <= max < 32 -> 0 <= x < max -> Z.testbit (u32 (Z.shiftl 1 max - 1)) x = true.
Proof.
  intros Hm Hx. rewrite Z.shiftl_1_l, wrapu_id.
  - rewrite Z.sub_1_r, <- Z.ones_equiv. by apply Z.ones_spec_low.
  - pose proof (Z.pow_le_mono_r 2 max 32). pose proof (Z.pow_pos_nonneg 2 max). unfold in_u. lia.
Qed.

Lemma get_range_spec src max names : 0 <= max < 32 -> names_fit max names ->
  exists m, get_range src max names = Ret m /\
    forall x, 0 <= x < max -> Z.testbit m x = has_value max (part_range max names) src x.
Proof.
  intros Hmax Hf. unfold get_range, has_value. destruct (whole src).
  { eexists. split; [done|]. intros x Hx. by apply full_mask_bit. }
  destruct (ofold_or (range_part max names) (fun _ => True) Z.testbit
    (fun part x => match part_range max names part with Some (s, e) => cyclic max s e x | None => false end)
    max (tokens is_amp src) 0) as (m & E & _ & Hb); [|done|].
  { intros a p _. destruct (range_part_spec max names a p Hf) as (m & ? & ?). eauto. }
  exists m. split; [exact E|]. intros x Hx. rewrite Hb by done. by rewrite Z.bits_0.
Qed.

(** ** Times of day *)

Definition minute_bit (mm : list Z) (x : Z) : bool :=
  match mm !! Z.to_nat (x / 30) with Some w => Z.testbit w (x mod 30) | None => false end.

Definition minutes_wf (mm : list Z) : Prop := length mm = 48%nat.

Lemma minutes_lookup mm x : minutes_wf mm -> 0 <= x < 1440 -> exists w, mm !! Z.to_nat (x / 30) = Some w.
Proof.
  intros Hm Hx. apply lookup_lt_is_Some. unfold minutes_wf in Hm. pose proof (Z.div_lt_upper_bound x 30 48).
  pose proof (Z.div_pos x 30). lia.
Qed.

Lemma set_minute_spec mm x : minutes_wf mm -> 0 <= x < 1440 ->
  exists mm', set_minute mm (x / 30) (x mod 30) = Ret mm' /\ minutes_wf mm' /\
    forall y, 0 <= y < 1440 -> minute_bit mm' y = minute_bit mm y || (x =? y).
Proof.
  intros Hm Hx. unfold set_minute. destruct (minutes_lookup mm x Hm Hx) as [w Hw]. rewrite Hw. cbn [oaccess obind].
  eexists. split; [done|]. split; [unfold minutes_wf; by rewrite length_insert|]. intros y Hy. unfold minute_bit.
  pose proof (lookup_lt_Some _ _ _ Hw) as Hl.
  pose proof (Z.div_mod x 30 ltac:(done)) as Dx. pose proof (Z.div_mod y 30 ltac:(done)) as Dy.
  pose proof (Z.mod_pos_bound x 30 eq_refl). pose proof (Z.mod_pos_bound y 30 eq_refl).
  destruct (Z.eq_dec (x / 30) (y / 30)) as [E|E].
  - rewrite <- E, list_lookup_insert_eq, Hw, lor_bit by lia. f_equal.
    apply Bool.eq_iff_eq_true. rewrite !Z.eqb_eq. lia.
  - rewrite list_lookup_insert_ne by lia. destruct (Z.eqb_spec x y); [congruence|]. by rewrite orb_false_r.
Qed.

Lemma minute_loop_spec fuel s e mm : minutes_wf mm -> 0 <= s < 1440 -> 0 <= e < 1440 -> (e - s) mod 1440 < Z.of_nat fuel ->
  exists mm', minute_loop fuel s e mm = Ret mm' /\ minutes_wf mm' /\
    forall x, 0 <= x < 1440 -> minute_bit mm' x = minute_bit mm x || cyclic 1440 s e x.
Proof.
  revert s mm. induction fuel as [|fuel IH]; intros s mm Hm Hs He Hf.
  { pose proof (Z.mod_pos_bound (e - s) 1440). lia. }
  cbn [minute_loop]. destruct (set_minute_spec mm s Hm Hs) as (mm1 & Hset & Hm1 & Hb1). rewrite Hset.
  destruct (Z.eqb_spec s e) as [->|Hne].
  - exists mm1. split_and!; [done..|]. intros x Hx. by rewrite Hb1, cyclic_end.
  - cbn [obind]. rewrite (dial_next_mod (24 * 60)) by done.
    destruct (IH (dial_next 1440 s) mm1 Hm1) as (mm2 & Hr & Hm2 & Hb2).
    { by apply dial_next_range. } { done. } { rewrite dial_closer by done. lia. }
    exists mm2. split_and!; [exact Hr|done|]. intros x Hx. by rewrite Hb2, Hb1, (cyclic_step 1440 s), orb_assoc by lia.
Qed.

Lemma read_time_range s t : read_time s = Some t -> 0 <= t.1 < 24 /\ 0 <= t.2 < 60.
Proof.
  unfold read_time. destruct (scan_time s) as [[h m]|]; [|done]. unfold time_ok. destruct (negb _) eqn:E; [|done].
  intros [= <-]. cbn. zb. lia.
Qed.

Lemma minute_of_range t : 0 <= t.1 < 24 /\ 0 <= t.2 < 60 -> 0 <= minute_of t < 1440.
Proof. unfold minute_of. lia. Qed.

(** The half hour and the minute in it. *)
Lemma half_hour h m : 0 <= m < 60 ->
  (h * 60 + m) / 30 = h * 2 + (if m >=? 30 then 1 else 0) /\ (h * 60 + m) mod 30 = m mod 30 /\
  m mod 30 = if m >=? 30 then m - 30 else m.
Proof.
  intros Hm. replace (h * 60 + m) with (m + (h * 2) * 30) by lia. rewrite Z.div_add, Z.mod_add by done.
  destruct (Z.geb_spec m 30).
  - replace m with ((m - 30) + 1 * 30) by lia. rewrite Z.div_add, Z.mod_add by done.
    rewrite Z.div_small, Z.mod_small by lia. lia.
  - rewrite Z.div_small, Z.mod_small by lia. lia.
Qed.

Lemma time_part_spec mm part : minutes_wf mm ->
  exists mm', time_part mm part = Ret mm' /\ minutes_wf mm' /\
    forall x, 0 <= x < 1440 -> minute_bit mm' x = minute_bit mm x ||
      match time_range part with Some (s, e) => cyclic 1440 s e x | None => false end.
Proof.
  intros Hm.
  assert (Hkeep : exists mm', Ret mm = Ret mm' /\ minutes_wf mm' /\
    forall x, 0 <= x < 1440 -> minute_bit mm' x = minute_bit mm x || false).
  { exists mm. split_and!; [done..|]. intros. by rewrite orb_false_r. }
  unfold time_part, time_range. destruct (strsep is_dash part) as [a [b|]].
  - destruct (skip_to_digit b) as [|c b'] eqn:Eb.
    { destruct (read_time a); [|exact Hkeep]. exact Hkeep. }
    destruct (read_time a) as [[st_h st_m]|] eqn:Ea; cbn [mbind option_bind]; [|exact Hkeep].
    destruct (read_time (c :: b')) as [[endh endm]|] eqn:Ee; cbn [mbind option_bind]; [|exact Hkeep].
    apply read_time_range, minute_of_range in Ea. apply read_time_range, minute_of_range in Ee. unfold minute_of in *. cbn [fst snd] in *.
    apply minute_loop_spec; [done..|]. rewrite Z2Nat.id by done. by apply Z.mod_pos_bound.
  - destruct (read_time part) as [[h m]|] eqn:Ea; cbn [mbind option_bind]; [|exact Hkeep].
    apply read_time_range in Ea as Hr. pose proof (minute_of_range _ Hr) as Hmin. unfold minute_of in *. cbn [fst snd] in *.
    destruct (half_hour h m ltac:(lia)) as (E1 & E2 & _). rewrite <- E1, <- E2.
    destruct (set_minute_spec mm _ Hm Hmin) as (mm' & -> & Hm' & Hb). exists mm'. split_and!; [done..|].
    intros x Hx. by rewrite Hb, cyclic_end.
Qed.

Lemma full_minutes x : 0 <= x < 1440 -> minute_bit (replicate 48 0x3fffffff) x = true.
Proof.
  intros Hx. assert (H : forall x, 0 <= x < 1440 -> minute_bit (replicate 48 0x3fffffff) x = true).
  { intros y. apply (range_check (fun y => minute_bit (replicate 48 0x3fffffff) y) 1440). vm_compute. reflexivity. }
  by apply H.
Qed.

Lemma no_minutes x : 0 <= x < 1440 -> minute_bit (replicate 48 0) x = false.
Proof.
  intros Hx. unfold minute_bit. destruct (minutes_lookup (replicate 48 0) x eq_refl Hx) as [w Hw]. rewrite Hw.
  apply lookup_replicate in Hw as [-> _]. apply Z.bits_0.
Qed.

Lemma get_timerange_spec times : exists mm, get_timerange times = Ret mm /\ minutes_wf mm /\
  forall x, 0 <= x < 1440 -> minute_bit mm x = has_value 1440 time_range times x.
Proof.
  unfold get_timerange, has_value. destruct (whole times).
  { eexists. split_and!; [done..|]. intros x Hx. by apply full_minutes. }
  destruct (ofold_or time_part minutes_wf minute_bit
    (fun part x => match time_range part with Some (s, e) => cyclic 1440 s e x | None => false end)
    1440 (tokens is_amp times) (replicate 48 0)) as (mm & E & Hm & Hb); [|done|].
  { intros a p Ha. by apply time_part_spec. }
  exists mm. split_and!; [done..|]. intros x Hx. rewrite Hb by done. by rewrite no_minutes.
Qed.

(** ** Conditions *)

Definition tokens_of (info : option str) : list str := match info with Some s => tokens is_sep s | None => [] end.

Lemma next_range_spec info max names mask : 0 <= max < 32 -> names_fit max names ->
  (forall x, 0 <= x < max -> Z.testbit mask x = true) ->
  exists m info', next_range info max names mask = Ret (m, info') /\ tokens_of info' = tail (tokens_of info) /\
    forall x, 0 <= x < max -> Z.testbit m x = field_has max (part_range max names) (tokens_of info !! 0%nat) x.
Proof.
  intros Hmax Hf Hfull. destruct info as [s|]; cbn [next_range tokens_of]; [|eauto].
  rewrite strsep_tokens. destruct (strsep is_sep s) as [p r]. destruct (get_range_spec p max names Hmax Hf) as (m & -> & Hb).
  eexists _, _. split_and!; [done|by destruct r|exact Hb].
Qed.

Lemma count_fields_spec s : forall j n l, 0 <= j ->
  exists l', count_fields s j n l = (n + Z.of_nat (length (tokens (fun c => c =? 44) s)) - 1, l') /\
    match tokens (fun c => c =? 44) s with
    | p :: q :: ps => j <= l' /\ list.last (p :: q :: ps) = Some (drop (Z.to_nat (l' + 1 - j)) s)
    | _ => l' = l /\ tokens (fun c => c =? 44) s = [s]
    end.
Proof.
  induction s as [|c s IH]; intros j n l Hj; cbn [count_fields tokens].
  { exists l. split; [f_equal; cbn; lia|done]. }
  destruct (tokens_nonempty (fun c => c =? 44) s) as (p & ps & E). destruct (c =? 44).
  - destruct (IH (j + 1) (n + 1) j ltac:(lia)) as (l' & -> & H). rewrite E in *. exists l'. split; [f_equal; cbn; lia|].
    destruct ps as [|q ps].
    + destruct H as [-> [= ->]]. split; [lia|]. replace (j + 1 - j) with 1 by lia. done.
    + destruct H as [Hl H]. split; [lia|]. rewrite last_cons_cons, H. f_equal.
      replace (Z.to_nat (l' + 1 - j)) with (S (Z.to_nat (l' + 1 - (j + 1)))) by lia. done.
  - destruct (IH (j + 1) n l ltac:(lia)) as (l' & -> & H). rewrite E in *. exists l'. split; [f_equal; cbn; lia|].
    destruct ps as [|q ps].
    + by destruct H as [-> [= ->]].
    + destruct H as [Hl H]. split; [lia|]. rewrite last_cons_cons in *. rewrite H. f_equal.
      replace (Z.to_nat (l' + 1 - j)) with (S (Z.to_nat (l' + 1 - (j + 1)))) by lia. done.
Qed.

(** The stored time zone is the fifth field. *)
Lemma zone_spec info : let '(num_fields, last_sep) := count_fields info 0 1 (-1) in
  (if num_fields =? 5 then Some (drop (Z.to_nat (last_sep + 1)) info) else None) = zone_of info.
Proof.
  destruct (count_fields_spec info 0 1 (-1) ltac:(lia)) as (l' & -> & H). unfold zone_of.
  set (ts := tokens _ info) in *. destruct (Nat.eqb_spec (length ts) 5) as [E|E].
  - rewrite (proj2 (Z.eqb_eq _ _)) by lia. destruct ts as [|p [|q ps]] eqn:Ets; [done|done|]. destruct H as [_ H].
    rewrite last_lookup, E in H. rewrite Z.sub_0_r in H. by rewrite <- H.
  - by rewrite (proj2 (Z.eqb_neq _ _)) by lia.
Qed.

(** The masks of a condition, as the check reads them. *)
Definition timing_has (i : ast_timing) (tm : ast_tm) : bool :=
  minute_bit (minmask i) (tm_hour tm * 60 + tm_min tm) && Z.testbit (dowmask i) (tm_wday tm) &&
  Z.testbit (daymask i) (tm_mday tm - 1) && Z.testbit (monthmask i) (tm_mon tm).

Definition zone_ptr (ok : bool) (zone : option str) : tz_ptr :=
  match zone with Some z => if ok then TzStr z else TzNull | None => TzNull end.

Lemma build_spec ok i (info : str) : info <> [] -> exists i', ast_build_timing ok i info = Ret (1, i') /\
  minutes_wf (minmask i') /\ timezone i' = zone_ptr ok (zone_of info) /\
  forall tm, tm_ok tm -> timing_has i' tm = timing_holds info tm.
Proof.
  intros Hne. unfold ast_build_timing. destruct info as [|c0 info0]; [done|]. set (info := c0 :: info0) in *.
  pose proof (zone_spec info) as Hz. destruct (count_fields info 0 1 (-1)) as [num last_sep].
  unfold timing_holds. pose proof (strsep_tokens is_sep info) as Ht. destruct (strsep is_sep info) as [times rest]. cbn [fst snd] in Ht.
  fold (tokens_of rest) in Ht. rewrite Ht. cbn [lookup list_lookup].
  destruct (get_timerange_spec times) as (mm & -> & Hmm & Hmin). cbn [obind].
  cbn [dowmask daymask monthmask setter eta_of eta_ast_timing].
  destruct (next_range_spec rest 7 (Some days) 0x7f) as (m1 & r1 & -> & Hr1 & Hb1); [done|done| |].
  { intros x. by apply (full_mask_bit 7). } cbn [obind].
  destruct (next_range_spec r1 31 None 0x7fffffff) as (m2 & r2 & -> & Hr2 & Hb2); [done|done| |].
  { intros x. by apply (full_mask_bit 31). } cbn [obind].
  destruct (next_range_spec r2 12 (Some months) 0xfff) as (m3 & r3 & -> & _ & Hb3); [done|done| |].
  { intros x. by apply (full_mask_bit 12). } cbn [obind].
  eexists. split; [done|]. split; [done|]. split.
  { cbn. rewrite <- Hz. destruct (num =? 5); [by destruct ok|done]. }
  intros tm (H1 & H2 & H3 & H4 & H5). unfold timing_has. cbn. rewrite Hmin, Hb1, Hb2, Hb3 by lia.
  rewrite Hr2, Hr1. destruct (tokens_of rest) as [|? [|? [|]]]; done.
Qed.

(** Reading the masks. *)
Lemma check_spec localtime i tv : minutes_wf (minmask i) -> timezone i <> TzWild ->
  let tm := localtime tv (match timezone i with TzStr s => Some s | _ => None end) in
  tm_ok tm -> ast_check_timing2 localtime i tv = Ret (if timing_has i tm then 1 else 0).
Proof.
  intros Hm Hw tm (H1 & H2 & H3 & H4 & H5). unfold ast_check_timing2.
  destruct (timezone i) as [|z|]; [| |done]; fold tm; clearbody tm; clear Hw.
  all: unfold ctrue, timing_has; rewrite !land_bit by (try case_if; lia); rewrite !negb_involutive.
  all: destruct (half_hour (tm_hour tm) (tm_min tm) H5) as (E1 & E2 & E3).
  all: destruct (minutes_lookup (minmask i) (tm_hour tm * 60 + tm_min tm) Hm ltac:(lia)) as [w Hl].
  all: unfold minute_bit; rewrite Hl, E2, E3; rewrite E1 in Hl; rewrite Hl; cbn [oaccess obind]; rewrite land_bit by (case_if; lia).
  all: rewrite (proj2 (Z.ltb_ge _ _)), Z.gtb_ltb, (proj2 (Z.ltb_ge _ _)) by lia; cbn [orb]; rewrite negb_involutive.
  all: destruct (Z.testbit (monthmask i) _), (Z.testbit (daymask i) _), (Z.testbit (dowmask i) _), (Z.testbit w _); done.
Qed.

(** ** Conditions as a user writes them *)

Inductive item := One (a : Z) | Range (a b : Z).
Inductive field := Any | Items (l : list item).

Definition ends (i : item) : Z * Z := match i with One a => (a, a) | Range a b => (a, b) end.

Definition in_field (n : Z) (f : field) (x : Z) : bool :=
  match f with Any => true | Items l => existsb (fun i => cyclic n (ends i).1 (ends i).2 x) l end.

Definition field_ok (n : Z) (f : field) : Prop :=
  match f with
  | Any => True
  | Items l => l <> [] /\ Forall (fun i => 0 <= (ends i).1 < n /\ 0 <= (ends i).2 < n) l
  end.

Definition print_item (p : Z -> str) (i : item) : str :=
  match i with One a => p a | Range a b => p a ++ 45 :: p b end.

Fixpoint print_items (p : Z -> str) (l : list item) : str :=
  match l with
  | [] => []
  | i :: l => print_item p i ++ match l with [] => [] | _ => 38 :: print_items p l end
  end.

Definition print_field (p : Z -> str) (f : field) : str :=
  match f with Any => [42] | Items l => print_items p l end.

Definition two_digits (n : Z) : str := [48 + n / 10; 48 + n mod 10].
Definition print_time (x : Z) : str := two_digits (x / 60) ++ 58 :: two_digits (x mod 60).
Definition print_mday (x : Z) : str := if x <? 9 then [49 + x] else two_digits (x + 1).
Definition print_wday (x : Z) : str := nth (Z.to_nat x) days [].
Definition print_month (x : Z) : str := nth (Z.to_nat x) months [].

(** [times,days of the week,days of the month,months]. *)
Definition print_timing (t w d m : field) : str :=
  print_field print_time t ++ 44 :: print_field print_wday w ++ 44 :: print_field print_mday d ++
  44 :: print_field print_month m.

(** A printer whose texts have no separator and are read back. *)
Definition plain (s : str) : bool :=
  forallb (fun c => negb (is_dash c || is_amp c || is_sep c || (c =? 42))) s && negb (bool_decide (s = [])).

Record printer (n : Z) (range : str -> option (Z * Z)) (p : Z -> str) : Prop := {
  pr_plain a : 0 <= a < n -> plain (p a) = true;
  pr_one a : 0 <= a < n -> range (p a) = Some (a, a);
  pr_range a b : 0 <= a < n -> 0 <= b < n -> range (p a ++ 45 :: p b) = Some (a, b)
}.

Lemma strsep_none sep s : Forall (fun c => sep c = false) s -> strsep sep s = (s, None).
Proof. induction 1 as [|c s Hc _ IH]; cbn; [done|]. by rewrite Hc, IH. Qed.

Lemma strsep_app sep p c s : Forall (fun c => sep c = false) p -> sep c = true -> strsep sep (p ++ c :: s) = (p, Some s).
Proof. intros Hp Hc. induction Hp as [|d p Hd _ IH]; cbn; [by rewrite Hc|]. by rewrite Hd, IH. Qed.

Lemma plain_spec s : plain s = true -> Forall (fun c => is_dash c = false /\ is_amp c = false /\ is_sep c = false /\ c <> 42) s /\ s <> [].
Proof.
  unfold plain. intros H. apply andb_true_iff in H as [H1 H2]. split.
  - rewrite forallb_forall in H1. apply Forall_forall. intros c Hc. apply H1 in Hc. zb. done.
  - intros ->. done.
Qed.

Lemma plain_dash s : plain s = true -> Forall (fun c => is_dash c = false) s.
Proof. intros H. destruct (plain_spec s H) as [Hs _]. revert Hs. apply Forall_impl. by intros c (? & ?). Qed.

(** The readers of elements over the readers of values. *)
Lemma printer_names max names p : names_fit max names -> check_from (Z.to_nat max) 0 (fun a => plain (p a)) = true ->
  check_from (Z.to_nat max) 0 (fun a => lookup_name (p a) names max =? a) = true -> printer max (part_range max names) p.
Proof.
  intros Hf H1 H2. assert (Hp : forall a, 0 <= a < max -> plain (p a) = true) by (intros a; by apply (range_check (fun a => plain (p a)))).
  assert (Hl : forall a, 0 <= a < max -> lookup_name (p a) names max = a).
  { intros a Ha. apply Z.eqb_eq. by apply (range_check (fun a => lookup_name (p a) names max =? a) max). }
  split; [done| |]; intros; unfold part_range.
  - rewrite strsep_none by auto using plain_dash. rewrite Hl by done. rewrite (proj2 (Z.ltb_ge _ _)) by lia. done.
  - rewrite strsep_app by auto using plain_dash. rewrite !Hl by done. by rewrite !(proj2 (Z.ltb_ge _ _)) by lia.
Qed.

Lemma printer_time : printer 1440 time_range print_time.
Proof.
  assert (Hp : forall a, 0 <= a < 1440 -> plain (print_time a) = true).
  { intros a. apply (range_check (fun a => plain (print_time a)) 1440). vm_compute. reflexivity. }
  assert (Hr : forall a, 0 <= a < 1440 -> read_time (print_time a) = Some (a / 60, a mod 60) /\ skip_to_digit (print_time a) = print_time a).
  { intros a Ha. set (ok a := bool_decide (read_time (print_time a) = Some (a / 60, a mod 60) /\ skip_to_digit (print_time a) = print_time a)).
    apply (bool_decide_unpack _), Is_true_eq_left. apply (range_check ok 1440); [vm_compute; reflexivity|done]. }
  assert (Hm : forall a, minute_of (a / 60, a mod 60) = a).
  { intros a. unfold minute_of. cbn [fst snd]. pose proof (Z.div_mod a 60 ltac:(done)). lia. }
  split; [done| |]; intros; unfold time_range.
  - rewrite strsep_none by auto using plain_dash. rewrite (proj1 (Hr a H)). cbn [mbind option_bind]. by rewrite Hm.
  - rewrite strsep_app by auto using plain_dash. destruct (Hr a H) as [-> _], (Hr b H0) as [Hb ->]. rewrite Hb. cbn [mbind option_bind]. by rewrite !Hm.
Qed.

Section printed.
Context {n : Z} {range : str -> option (Z * Z)} {p : Z -> str} (Hp : printer n range p).

Definition item_ok (i : item) : Prop := 0 <= (ends i).1 < n /\ 0 <= (ends i).2 < n.

Lemma item_chars i : item_ok i -> Forall (fun c => is_amp c = false /\ is_sep c = false) (print_item p i).
Proof.
  assert (Ha : forall a, 0 <= a < n -> Forall (fun c => is_amp c = false /\ is_sep c = false) (p a)).
  { intros a H. destruct (plain_spec _ (pr_plain _ _ _ Hp a H)) as [Hs _]. revert Hs. apply Forall_impl. by intros c (? & ? & ? & ?). }
  intros [H1 H2]. destruct i as [a|a b]; cbn in *; [auto|]. apply Forall_app. split; [auto|]. constructor; [done|auto].
Qed.

Lemma items_chars l : Forall item_ok l -> Forall (fun c => is_sep c = false) (print_items p l).
Proof.
  induction 1 as [|i l Hi _ IH]; [constructor|]. cbn [print_items]. apply Forall_app. split.
  - generalize (item_chars i Hi). apply Forall_impl. by intros c [_ ?].
  - destruct l; [constructor|]. by constructor.
Qed.

Lemma items_tokens l : Forall item_ok l -> l <> [] -> tokens is_amp (print_items p l) = print_item p <$> l.
Proof.
  induction 1 as [|i l Hi Hl IH]; [done|]. intros _. cbn [print_items].
  assert (Hc : Forall (fun c => is_amp c = false) (print_item p i)).
  { generalize (item_chars i Hi). apply Forall_impl. by intros c [? _]. }
  destruct l as [|j l].
  - rewrite app_nil_r. by apply tokens_none.
  - rewrite tokens_app by done. by rewrite IH.
Qed.

Lemma items_not_whole i l : item_ok i -> whole (print_items p (i :: l)) = false.
Proof.
  intros [H _]. cbn [print_items]. destruct (plain_spec _ (pr_plain _ _ _ Hp (ends i).1 H)) as [Hs Hne].
  assert (E : exists c s, print_item p i = c :: s /\ c <> 42).
  { destruct i as [a|a b]; cbn in *; destruct (p a) as [|c s]; try done; inversion Hs; subst; eexists _, _; (split; [done|tauto]). }
  destruct E as (c & s & -> & Hc). cbn. destruct (s ++ _); [by apply Z.eqb_neq|done].
Qed.

Lemma printed_field f x : field_ok n f -> has_value n range (print_field p f) x = in_field n f x.
Proof.
  destruct f as [|l]; [done|]. intros [Hne Hl]. cbn [print_field in_field]. unfold has_value. rewrite items_tokens by done.
  destruct l as [|i l]; [done|]. rewrite items_not_whole by (by inversion Hl). cbn [orb].
  clear Hne. induction Hl as [|j k [H1 H2] _ IH]; [done|]. cbn [fmap list_fmap existsb]. f_equal; [|exact IH].
  destruct j as [a|a b]; cbn in *; by rewrite ?(pr_one _ _ _ Hp), ?(pr_range _ _ _ Hp).
Qed.

Lemma field_chars f : field_ok n f -> Forall (fun c => is_sep c = false) (print_field p f).
Proof. destruct f as [|l]; [by constructor|]. intros [_ Hl]. by apply items_chars. Qed.
End printed.

Lemma printer_wday : printer 7 (part_range 7 (Some days)) print_wday.
Proof. by apply printer_names. Qed.

Lemma printer_mday : printer 31 (part_range 31 None) print_mday.
Proof. by apply printer_names. Qed.

Lemma printer_month : printer 12 (part_range 12 (Some months)) print_month.
Proof. by apply printer_names. Qed.

Lemma print_timing_tokens t w d m : field_ok 1440 t -> field_ok 7 w -> field_ok 31 d -> field_ok 12 m ->
  tokens is_sep (print_timing t w d m) = [print_field print_time t; print_field print_wday w; print_field print_mday d; print_field print_month m].
Proof.
  intros Ht Hw Hd Hm. unfold print_timing.
  rewrite !tokens_app, tokens_none by eauto using field_chars, printer_time, printer_wday, printer_mday, printer_month. done.
Qed.

(** ** Properties *)

(** C30: a time condition means what it says.  For every non-empty text, whatever memory
    the structure is in, [ast_build_timing] ends without touching other memory and
    gives a structure for which [ast_check_timing2] answers 1 exactly when the local
    time (in the zone of the fifth field) is in each field that is there: a field is a
    list of values and ranges, ranges run around the end of their dial (22:00-06:00,
    fri-mon), an empty field and a star admit everything, elements that cannot be read
    admit nothing. *)
Theorem timing_correct (ok : bool) i (info : str) localtime tv : info <> [] ->
  tm_ok (localtime tv (if ok then zone_of info else None)) ->
  exists i', ast_build_timing ok i info = Ret (1, i') /\
    ast_check_timing2 localtime i' tv =
      Ret (if timing_holds info (localtime tv (if ok then zone_of info else None)) then 1 else 0).
Proof.
  intros Hne Htm. destruct (build_spec ok i info Hne) as (i' & E & Hm & Hz & Hh). exists i'. split; [done|].
  assert (Hzone : (match timezone i' with TzStr s => Some s | _ => None end) = if ok then zone_of info else None).
  { rewrite Hz. destruct (zone_of info), ok; done. }
  rewrite check_spec; rewrite ?Hzone; [by rewrite Hh|done| |done]. rewrite Hz. by destruct (zone_of info), ok.
Qed.

(** Conditions written as a user writes them mean what the user means: the text
    [times,days,dates,months], with times as [hh:mm], days and months by name and dates
    by number, values and ranges joined by [&], is built without error and holds at
    exactly the times that are in all four lists. *)
Theorem timing_printed ok i t w d m localtime tv :
  field_ok 1440 t -> field_ok 7 w -> field_ok 31 d -> field_ok 12 m -> tm_ok (localtime tv None) ->
  let tm := localtime tv None in
  exists i', ast_build_timing ok i (print_timing t w d m) = Ret (1, i') /\
    ast_check_timing2 localtime i' tv =
      Ret (if in_field 1440 t (tm_hour tm * 60 + tm_min tm) && in_field 7 w (tm_wday tm) &&
              in_field 31 d (tm_mday tm - 1) && in_field 12 m (tm_mon tm) then 1 else 0).
Proof.
  intros Ht Hw Hd Hm Htm tm.
  assert (Hne : print_timing t w d m <> []) by (unfold print_timing; by destruct (print_field print_time t)).
  destruct (build_spec ok i (print_timing t w d m) Hne) as (i' & E & Hmm & Hz & Hh). exists i'. split; [done|].
  pose proof (print_timing_tokens t w d m Ht Hw Hd Hm) as Htok.
  assert (Hnz : zone_of (print_timing t w d m) = None).
  { assert (H4 : length (tokens (fun c => c =? 44) (print_timing t w d m)) = 4%nat); [|unfold zone_of; by rewrite H4].
    assert (Hc : forall n range p f, printer n range p -> field_ok n f -> Forall (fun c => (c =? 44) = false) (print_field p f)).
    { intros n range p f Hp Hf. generalize (field_chars Hp f Hf). apply Forall_impl. intros c Hc. by apply orb_false_iff in Hc as [_ ?]. }
    unfold print_timing. rewrite !tokens_app, tokens_none by eauto using printer_time, printer_wday, printer_mday, printer_month. done. }
  assert (Hzone : timezone i' = TzNull) by (by rewrite Hz, Hnz).
  rewrite check_spec; rewrite ?Hzone; [|done|done|done]. fold tm. rewrite Hh by done. unfold timing_holds. rewrite Htok. cbn [lookup list_lookup field_has].
  by rewrite (printed_field printer_time), (printed_field printer_wday), (printed_field printer_mday), (printed_field printer_month).
Qed.

(** [GotoIfTime] takes the branch its condition selects.  With
    [condition?branch1:branch2] the first branch is taken exactly when the condition
    holds and the second otherwise, an empty branch is not taken, and the time zone
    that was allocated is freed.  An empty condition, however, frees a pointer that
    was never set: when the stack holds no valid pointer there, memory is corrupted. *)
Theorem gotoiftime_correct (ok : bool) timing localtime tv (s b1 b2 : str) :
  Forall (fun c => c <> 63) s -> Forall (fun c => c <> 58) b1 ->
  tm_ok (localtime tv (if ok then zone_of s else None)) ->
  let res := pbx_builtin_gotoiftime localtime ok timing (s ++ 63 :: b1 ++ 58 :: b2) tv in
  (s <> [] -> res = Ret (let b := if timing_holds s (localtime tv (if ok then zone_of s else None)) then b1 else b2 in
                         if bool_decide (b = []) then None else Some b)) /\
  (s = [] -> timezone timing = TzWild -> res = BadAccess).
Proof.
  intros Hs Hb Htm res. subst res. unfold pbx_builtin_gotoiftime.
  assert (Hne : forall k l, Forall (fun c => c <> k) l -> Forall (fun c => (c =? k) = false) l).
  { intros k l. apply Forall_impl. intros c. by apply Z.eqb_neq. }
  rewrite (strsep_app _ s 63), (strsep_app _ b1 58) by auto. split.
  - intros Hnil. destruct (build_spec ok timing s Hnil) as (i & -> & Hm & Hz & Hh). cbn [obind].
    assert (Hzone : (match timezone i with TzStr z => Some z | _ => None end) = if ok then zone_of s else None).
    { rewrite Hz. by destruct (zone_of s), ok. }
    assert (Hset : timezone i <> TzWild) by (rewrite Hz; by destruct (zone_of s), ok).
    change (ctrue 1) with true. cbn iota. rewrite check_spec; rewrite ?Hzone; [|done|done|done]. rewrite Hh by done. cbn [obind].
    unfold ast_destroy_timing. destruct (timing_holds s _), (timezone i); try done; destruct b1, b2; done.
  - intros -> Hw. cbn. unfold ast_destroy_timing. by rewrite Hw.
Qed.

(** [ExecIfTime] has the same flaw. *)
Example execiftime_empty_condition localtime ok timing now : timezone timing = TzWild ->
  pbx_builtin_execiftime localtime ok timing (zs "?Playback(closed)") now = BadAccess.
Proof. intros Hw. destruct timing. cbn in Hw. subst. reflexivity. Qed.

(** The zone is the last field only when commas separate the fields, although the other
    fields may also be separated by bars. *)
Example zone_after_bars ok i :
  zone_of (zs "9:00-17:00,mon-fri,*,*,UTC") = Some (zs "UTC") /\
  zone_of (zs "9:00-17:00|mon-fri|*|*|UTC") = None /\
  (exists i', ast_build_timing ok i (zs "9:00-17:00|mon-fri|*|*|UTC") = Ret (1, i') /\ timezone i' = TzNull) /\
  tokens is_sep (zs "9:00-17:00|mon-fri|*|*|UTC") = tokens is_sep (zs "9:00-17:00,mon-fri,*,*,UTC").
Proof.
  split_and!; [reflexivity|reflexivity| |reflexivity].
  destruct (build_spec ok i (zs "9:00-17:00|mon-fri|*|*|UTC") ltac:(discriminate)) as (i' & E & _ & Hz & _).
  exists i'. split; [exact E|]. rewrite Hz. reflexivity.
Qed.

(** ** Witnesses *)

(** A clock that shows Saturday, the 3rd of October, 23:15. *)
Definition ex_clock : timeval -> option str -> ast_tm := fun _ _ => mk_tm 9 3 6 23 15.
Definition ex_timing : ast_timing := mk_timing 0 0 0 0 [] TzWild.

Lemma timing_correct_witness :
  exists i', ast_build_timing true ex_timing (zs "22:00-06:00,fri-mon,1-7&15,*,UTC") = Ret (1, i') /\
    ast_check_timing2 ex_clock i' (mk_tv 0 0) = Ret 1.
Proof.
  apply (timing_correct true ex_timing (zs "22:00-06:00,fri-mon,1-7&15,*,UTC") ex_clock (mk_tv 0 0)); [discriminate|].
  unfold tm_ok; cbn; lia.
Defined.

Lemma timing_printed_witness :
  exists i', ast_build_timing true ex_timing (zs "22:00-06:00,fri-mon,1-7&15,*") = Ret (1, i') /\
    ast_check_timing2 ex_clock i' (mk_tv 0 0) = Ret 1.
Proof.
  apply (timing_printed true ex_timing (Items [Range 1320 360]) (Items [Range 5 1]) (Items [Range 0 6; One 14]) Any ex_clock (mk_tv 0 0));
    try done; cbn; unfold tm_ok; cbn; try lia; (split; [done|]); repeat constructor; cbn; lia.
Defined.

Lemma gotoiftime_correct_witness :
  pbx_builtin_gotoiftime ex_clock true ex_timing (zs "9:00-17:00,mon-fri,*,*?open:closed,s,1") (mk_tv 0 0) = Ret (Some (zs "closed,s,1")) /\
  pbx_builtin_gotoiftime ex_clock true ex_timing (zs "?open:closed,s,1") (mk_tv 0 0) = BadAccess.
Proof.
  split.
  - apply (gotoiftime_correct true ex_timing ex_clock (mk_tv 0 0) (zs "9:00-17:00,mon-fri,*,*") (zs "open") (zs "closed,s,1"));
      [by repeat constructor|by repeat constructor|unfold tm_ok; cbn; lia|discriminate].
  - apply (gotoiftime_correct true ex_timing ex_clock (mk_tv 0 0) [] (zs "open") (zs "closed,s,1"));
      [by repeat constructor|by repeat constructor|unfold tm_ok; cbn; lia|done|done].
Defined.
