(* ===== verification/Astobj2.v ===== *)
(** * Reference counted objects: [main/astobj2.c]

    Objects live on a heap with a reference counter and a destructor; containers are
    objects that hold references to others in hash buckets; callbacks search, unlink
    and collect; iterators walk a container that may change between two steps.

    An access to an object that was freed is a [BadAccess].  The destructor of a user's
    object is code of the user: it drops the references the object holds ([user_refs]).  Counters
    of references and elements are integers without bound (each needs a pointer in
    memory); the version of a container counts operations and is kept at 32 bits.
    A callback is a function of the object and the heap, with its argument, data and
    flags applied; one that itself changes the container it is called from is outside
    the model. *)

From S2P Require Import Prelude.
From Stdlib Require Import ZArith Lia.
From stdpp Require Import base list gmap numbers.

#[local] Open Scope Z_scope.
#[local] Open Scope record_scope.
#[local] Open Scope outcome_scope.

Definition CMP_MATCH : Z := 1.
Definition CMP_STOP : Z := 2.
Definition OBJ_UNLINK : Z := 1.
Definition OBJ_NODATA : Z := 2.
Definition OBJ_MULTIPLE : Z := 4.
Definition OBJ_POINTER : Z := 8.
Definition OBJ_CONTINUE : Z := 16.
Definition AO2_ITERATOR_DONTLOCK : Z := 1.
Definition AO2_ITERATOR_MALLOCD : Z := 2.
Definition AO2_ITERATOR_UNLINK : Z := 4.

(** [flags & f]. *)
Definition has (flags f : Z) : bool := ctrue (Z.land flags f).

(** ** Data *)

Record bucket_entry := mk_entry { e_version : Z; e_astobj : ptr }.

(** [hash_fn obj flags] and [cmp_fn obj arg flags]. *)
Record ao2_container := mk_container {
  hash_fn : ptr -> Z -> Z;
  cmp_fn : option (ptr -> ptr -> Z -> Z);
  n_buckets : Z;
  elements : Z;
  c_version : Z;
  buckets : list (list bucket_entry)
}.

#[export] Instance eta_ao2_container : Eta ao2_container := fun c =>
  mk_container (hash_fn c) (cmp_fn c) (n_buckets c) (elements c) (c_version c) (buckets c).

Inductive destructor := NoDestructor | UserDestructor | ContainerDestruct.

(** The header of an object; its data: a container, or the references it holds. *)
Record astobj2 := mk_obj { ref_counter : Z; destructor_fn : destructor; cont : option ao2_container; user_refs : list ptr }.

#[export] Instance eta_astobj2 : Eta astobj2 := fun o =>
  mk_obj (ref_counter o) (destructor_fn o) (cont o) (user_refs o).

(** The heap, and the user objects destroyed so far. *)
Record world := mk_world { heap : gmap Z astobj2; log : list ptr }.

#[export] Instance eta_world : Eta world := fun w => mk_world (heap w) (log w).

Record ao2_iterator := mk_iter {
  it_c : ptr; it_flags : Z; it_bucket : Z; it_c_version : Z; it_obj : option Z; it_version : Z
}.

#[export] Instance eta_ao2_iterator : Eta ao2_iterator := fun a =>
  mk_iter (it_c a) (it_flags a) (it_bucket a) (it_c_version a) (it_obj a) (it_version a).

Definition callback : Type := ptr -> world -> outcome (Z * world).

(** [INTERNAL_OBJ]: the header of an object, none for [NULL]. *)
Definition INTERNAL_OBJ (w : world) (p : ptr) : outcome (option astobj2) :=
  if p =? NULL then Ret None else let* o := oaccess (heap w !! p) in Ret (Some o).

Definition get_container (w : world) (c : ptr) : outcome ao2_container :=
  let* o := oaccess (heap w !! c) in oaccess (cont o).

Definition put_container (w : world) (c : ptr) (k : ao2_container) : world :=
  w <| heap ::= alter (fun o => o <| cont := Some k |>) c |>.

Definition bucket_at (k : ao2_container) (i : Z) : outcome (list bucket_entry) :=
  if i <? 0 then BadAccess else oaccess (buckets k !! Z.to_nat i).

Definition put_bucket (k : ao2_container) (i : Z) (b : list bucket_entry) : ao2_container :=
  k <| buckets ::= <[Z.to_nat i := b]> |>.

(** [ast_atomic_fetchadd_int(&c->version, 1)]. *)
Definition bump (k : ao2_container) : ao2_container := k <| c_version ::= fun v => u32 (v + 1) |>.

Definition hash_zero (user_obj flags : Z) : Z := 0.

(** [abs] of an [int]. *)
Definition c_abs (x : Z) : Z := if x =? - 2 ^ 31 then x else Z.abs x.

(** ** Allocation *)

(** [mem]: the address [ast_calloc] gives, [NULL] for none. *)
Definition internal_ao2_alloc (mem : ptr) (d : destructor) (data : option ao2_container) (w : world) : ptr * world :=
  if mem =? NULL then (NULL, w) else (mem, w <| heap ::= <[mem := mk_obj 1 d data []]> |>).

Definition ao2_alloc (mem : ptr) (user : bool) (w : world) : ptr * world :=
  internal_ao2_alloc mem (if user then UserDestructor else NoDestructor) None w.

Definition internal_ao2_container_alloc (n : Z) (hash : option (ptr -> Z -> Z)) (cmp : option (ptr -> ptr -> Z -> Z)) : ao2_container :=
  let num_buckets := match hash with Some _ => n | None => 1 end in
  mk_container (match hash with Some h => h | None => hash_zero end) cmp num_buckets 0 1
    (replicate (Z.to_nat num_buckets) []).

Definition ao2_container_alloc (mem : ptr) (n : Z) (hash : option (ptr -> Z -> Z)) (cmp : option (ptr -> ptr -> Z -> Z))
    (w : world) : ptr * world :=
  internal_ao2_alloc mem ContainerDestruct (Some (internal_ao2_container_alloc n hash cmp)) w.

Definition ao2_container_count (w : world) (c : ptr) : outcome Z := let* k := get_container w c in Ret (elements k).

(** ** Containers

    Over [ao2_ref], which may have to destroy a container. *)

Section containers.
Context (ao2_ref : ptr -> Z -> world -> outcome (Z * world)).

(** [internal_ao2_link]; [ok]: there is memory for the entry. The result tells whether
    there is an entry. *)
Definition internal_ao2_link (ok : bool) (c p : ptr) (w : world) : outcome (bool * world) :=
  let* obj := INTERNAL_OBJ w p in
  match obj with
  | None => Ret (false, w)
  | Some _ =>
      let* cobj := INTERNAL_OBJ w c in
      match cobj with
      | None => Ret (false, w)
      | Some _ =>
          if negb ok then Ret (false, w)
          else
            let* k := get_container w c in
            let i := Z.rem (c_abs (hash_fn k p OBJ_POINTER)) (n_buckets k) in
            let* b := bucket_at k i in
            let k' := (put_bucket (bump k) i (b ++ [mk_entry (c_version k) p])) <| elements ::= Z.add 1 |> in
            Ret (true, put_container w c k')
      end
  end.

Definition ao2_link (ok : bool) (c p : ptr) (w : world) : outcome (bool * world) :=
  let* (r, w) := internal_ao2_link ok c p w in
  if r then let* (_, w) := ao2_ref p 1 w in Ret (r, w) else Ret (r, w).

Definition ao2_match_by_addr (arg : ptr) : callback := fun p w => Ret (if p =? arg then Z.lor CMP_MATCH CMP_STOP else 0, w).

Definition cb_true : callback := fun _ w => Ret (CMP_MATCH, w).

Definition cd_cb : callback := fun p w => let* (_, w) := ao2_ref p (-1) w in Ret (0, w).

(** ** The search *)

Section callback.
Context (c : ptr) (flags : Z) (cb : callback) (multi : option ptr) (link_ok : ptr -> bool).

(** What is done with a match: the new result, and whether the entry stays. *)
Definition found (k_i : Z) (prev : list bucket_entry) (cur : bucket_entry) (rest : list bucket_entry) (ret : ptr) (w : world) :
    outcome (ptr * world) :=
  let* (ret, w) :=
    if negb (has flags OBJ_NODATA) then
      let ret := e_astobj cur in
      if negb (has flags (Z.lor OBJ_UNLINK OBJ_MULTIPLE)) then let* (_, w) := ao2_ref ret 1 w in Ret (ret, w)
      else Ret (ret, w)
    else Ret (ret, w) in
  let* (ret, w) :=
    match multi with
    | Some m => if negb (ret =? NULL) then let* (_, w) := ao2_link (link_ok ret) m ret w in Ret (NULL, w) else Ret (ret, w)
    | None => Ret (ret, w)
    end in
  if has flags OBJ_UNLINK then
    let* k := get_container w c in
    let w := put_container w c ((put_bucket (bump k) k_i (prev ++ rest)) <| elements ::= fun n => n - 1 |>) in
    let* (_, w) := if has flags (Z.lor OBJ_NODATA OBJ_MULTIPLE) then ao2_ref (e_astobj cur) (-1) w else Ret (0, w) in
    Ret (ret, w)
  else Ret (ret, w).

(** [AST_LIST_TRAVERSE_SAFE_BEGIN]: the entries from the current one on; [prev] are the
    entries before it that are still linked.  Whether the search is to end. *)
Fixpoint scan_bucket (k_i : Z) (prev cur_list : list bucket_entry) (ret : ptr) (w : world) : outcome (bool * ptr * world) :=
  match cur_list with
  | [] => Ret (false, ret, w)
  | cur :: rest =>
      let* (m, w) := cb (e_astobj cur) w in
      let match_ := Z.land (Z.lor CMP_MATCH CMP_STOP) m in
      if match_ =? 0 then scan_bucket k_i (prev ++ [cur]) rest ret w
      else if match_ =? CMP_STOP then Ret (true, ret, w)
      else
        let* (ret, w) := found k_i prev cur rest ret w in
        if has match_ CMP_STOP || negb (has flags OBJ_MULTIPLE) then Ret (true, ret, w)
        else scan_bucket k_i (if has flags OBJ_UNLINK then prev else prev ++ [cur]) rest ret w
  end.

(** [for (; i < last ; i++)]. *)
Fixpoint bucket_loop (fuel : nat) (start n i last : Z) (ret : ptr) (w : world) : outcome (ptr * world) :=
  match fuel with
  | O => NoFuel
  | S fuel =>
      if negb (i <? last) then Ret (ret, w)
      else
        let* k := get_container w c in
        let* b := bucket_at k i in
        let* (stop, ret, w) := scan_bucket i [] b ret w in
        let i := if stop then last else i in
        if negb (ret =? NULL) then Ret (ret, w)
        else if (i =? n - 1) && has flags OBJ_POINTER && has flags OBJ_CONTINUE
        then bucket_loop fuel start n (-1 + 1) start ret w
        else bucket_loop fuel start n (i + 1) last ret w
  end.
End callback.

(** The result of a callback: an object, or an iterator over a new container. *)
Inductive cb_result := Obj (p : ptr) | Iter (a : ao2_iterator).

Definition ao2_iterator_init (c : ptr) (flags : Z) (w : world) : outcome (ao2_iterator * world) :=
  let* (_, w) := ao2_ref c 1 w in
  Ret (mk_iter c flags 0 0 None 0, w).

(** [internal_ao2_callback]; [mem] is memory for the container of the results, [ok] says
    whether there is some for the iterator and [link_ok] for the entry of an object. *)
Definition internal_ao2_callback (mem : ptr) (ok : bool) (link_ok : ptr -> bool)
    (c : ptr) (flags : Z) (cb_fn : option callback) (arg : ptr) (w : world) : outcome (cb_result * world) :=
  let* cobj := INTERNAL_OBJ w c in
  match cobj with
  | None => Ret (Obj NULL, w)
  | Some _ =>
      let search multi w :=
        let cb := match cb_fn with Some cb => cb | None => cb_true end in
        let* k := get_container w c in
        let n := n_buckets k in
        let start := if has flags OBJ_POINTER then Z.rem (hash_fn k arg (Z.land flags OBJ_POINTER)) n else -1 in
        let '(start, last) := if start <? 0 then (0, n) else if has flags OBJ_CONTINUE then (start, n) else (start, start + 1) in
        bucket_loop c flags cb multi link_ok (Z.to_nat (2 * n + 2)) start n start last NULL w in
      if Z.land flags (Z.lor OBJ_MULTIPLE OBJ_NODATA) =? OBJ_MULTIPLE then
        let '(m, w) := ao2_container_alloc mem 1 None None w in
        if m =? NULL then Ret (Obj NULL, w)
        else if negb ok then let* (_, w) := ao2_ref m (-1) w in Ret (Obj NULL, w)
        else
          let* (_, w) := search (Some m) w in
          let* (a, w) := ao2_iterator_init m (Z.lor AO2_ITERATOR_DONTLOCK (Z.lor AO2_ITERATOR_UNLINK AO2_ITERATOR_MALLOCD)) w in
          let* (_, w) := ao2_ref m (-1) w in
          Ret (Iter a, w)
      else
        let* (ret, w) := search None w in Ret (Obj ret, w)
  end.

(** [container_destruct]. *)
Definition container_destruct (c : ptr) (w : world) : outcome world :=
  let* (_, w) := internal_ao2_callback NULL false (fun _ => false) c OBJ_UNLINK (Some cd_cb) NULL w in
  let* k := get_container w c in
  Ret (put_container w c (k <| buckets ::= fmap (fun _ => []) |>)).
End containers.

(** ** References *)

(** The destructor of a user's object drops the references it holds. *)
Definition user_destruct (ref : ptr -> Z -> world -> outcome (Z * world)) (p : ptr) (refs : list ptr) (w : world) : outcome world :=
  ofold (fun w q => let* (_, w) := ref q (-1) w in Ret w) (w <| log ::= fun l => l ++ [p] |>) refs.

(** [internal_ao2_ref]; the fuel bounds how deep destructors nest. *)
Fixpoint internal_ao2_ref (fuel : nat) (p : ptr) (delta : Z) (w : world) : outcome (Z * world) :=
  match fuel with
  | O => NoFuel
  | S fuel =>
      let* obj := INTERNAL_OBJ w p in
      match obj with
      | None => Ret (-1, w)
      | Some obj =>
          if delta =? 0 then Ret (ref_counter obj, w)
          else
            let ret := ref_counter obj in
            let current_value := ret + delta in
            let w := w <| heap ::= <[p := obj <| ref_counter := current_value |>]> |> in
            if current_value <=? 0 then
              let* w :=
                match destructor_fn obj with
                | NoDestructor => Ret w
                | UserDestructor => user_destruct (internal_ao2_ref fuel) p (user_refs obj) w
                | ContainerDestruct => container_destruct (internal_ao2_ref fuel) p w
                end in
              Ret (ret, w <| heap ::= delete p |>)
            else Ret (ret, w)
      end
  end.

(** No more destructors nest than there are objects. *)
Definition ao2_ref (p : ptr) (delta : Z) (w : world) : outcome (Z * world) :=
  internal_ao2_ref (S (size (heap w))) p delta w.

Definition ao2_callback := internal_ao2_callback ao2_ref.

Definition ao2_unlink (c p : ptr) (w : world) : outcome world :=
  let* obj := INTERNAL_OBJ w p in
  match obj with
  | None => Ret w
  | Some _ =>
      let* (_, w) := ao2_callback NULL false (fun _ => false) c (Z.lor OBJ_UNLINK (Z.lor OBJ_POINTER OBJ_NODATA))
        (Some (ao2_match_by_addr p)) p w in
      Ret w
  end.

(** [ao2_find]: the comparison function of the container. *)
Definition ao2_find (mem : ptr) (ok : bool) (link_ok : ptr -> bool) (c arg : ptr) (flags : Z) (w : world) : outcome (cb_result * world) :=
  let* k := get_container w c in
  ao2_callback mem ok link_ok c flags
    (match cmp_fn k with Some cmp => Some (fun p w => Ret (cmp p arg flags, w)) | None => None end) arg w.

(** ** Iterators *)

(** The first entry from position [j] on that is newer than the iterator. *)
Fixpoint newer (version : Z) (b : list bucket_entry) (j : nat) : option nat :=
  match b with [] => None | e :: b => if e_version e >? version then Some j else newer version b (S j) end.

(** [for (; a->bucket < lim; a->bucket++, a->version = 0)]; [n] buckets are left. *)
Fixpoint browse (n : nat) (k : ao2_container) (a : ao2_iterator) : outcome (option nat * ao2_iterator) :=
  match n with
  | O => Ret (None, a)
  | S n =>
      let* b := bucket_at k (it_bucket a) in
      match newer (it_version a) b 0 with
      | Some j => Ret (Some j, a)
      | None => browse n k (a <| it_bucket ::= Z.add 1 |> <| it_version := 0 |>)
      end
  end.

(** The position of the entry with version [v]. *)
Fixpoint position (v : Z) (b : list bucket_entry) : option nat :=
  match b with [] => None | e :: b => if e_version e =? v then Some 0%nat else S <$> position v b end.

(** The position of the next entry in the bucket of the iterator. *)
Definition iterator_seek (k : ao2_container) (a : ao2_iterator) : outcome (option nat * ao2_iterator) :=
  let scan a := browse (Z.to_nat (n_buckets k - it_bucket a)) k a in
  match (if c_version k =? it_c_version a then it_obj a else None) with
  | Some v =>
      let* b := bucket_at k (it_bucket a) in
      let* j := oaccess (position v b) in
      match b !! S j with
      | Some _ => Ret (Some (S j), a)
      | None => scan (a <| it_bucket ::= Z.add 1 |> <| it_version := 0 |> <| it_obj := None |>)
      end
  | None => scan a
  end.

(** [internal_ao2_iterator_next]: the object, whether to take a reference, and the
    iterator. *)
Definition internal_ao2_iterator_next (a : ao2_iterator) (w : world) : outcome (ptr * bool * ao2_iterator * world) :=
  let* cobj := INTERNAL_OBJ w (it_c a) in
  match cobj with
  | None => Ret (NULL, false, a, w)
  | Some _ =>
      let* k := get_container w (it_c a) in
      let* (pos, a) := iterator_seek k a in
      match pos with
      | None => Ret (NULL, false, a, w)
      | Some j =>
          let* b := bucket_at k (it_bucket a) in
          let* p := oaccess (b !! j) in
          if has (it_flags a) AO2_ITERATOR_UNLINK then
            let k := (put_bucket (bump k) (it_bucket a) (delete j b)) <| elements ::= fun n => n - 1 |> in
            Ret (e_astobj p, false, a <| it_version := 0 |> <| it_obj := None |> <| it_c_version := c_version k |>,
                 put_container w (it_c a) k)
          else
            Ret (e_astobj p, true, a <| it_version := e_version p |> <| it_obj := Some (e_version p) |> <| it_c_version := c_version k |>, w)
      end
  end.

Definition ao2_iterator_next (a : ao2_iterator) (w : world) : outcome (ptr * ao2_iterator * world) :=
  let* (ret, q, a, w) := internal_ao2_iterator_next a w in
  if q : bool then let* (_, w) := ao2_ref ret 1 w in Ret (ret, a, w) else Ret (ret, a, w).

Definition ao2_iterator_destroy (a : ao2_iterator) (w : world) : outcome world :=
  let* (_, w) := ao2_ref (it_c a) (-1) w in Ret w.

(** ** Counting references *)

#[local] Abbreviation count l p := (count_occ Z.eq_dec l p).

Definition members (k : ao2_container) : list ptr := e_astobj <$> concat (buckets k).

(** The references an object holds. *)
Definition refs_of (o : astobj2) : list ptr :=
  match cont o with
  | Some k => members k
  | None => match destructor_fn o with UserDestructor => user_refs o | _ => [] end
  end.

Definition all_refs (h : gmap Z astobj2) : list ptr := concat ((fun x => refs_of x.2) <$> map_to_list h).

(** The hash is an [int] that has an absolute value. *)
Definition hash_ok (k : ao2_container) : Prop := forall p, - 2 ^ 31 < hash_fn k p OBJ_POINTER < 2 ^ 31.

(** The buckets are there, and every entry is in the bucket of its hash. *)
Record container_wf (k : ao2_container) : Prop := {
  cw_hash_ok : hash_ok k;
  cw_n : 0 < n_buckets k;
  cw_len : Z.of_nat (length (buckets k)) = n_buckets k;
  cw_elements : elements k = Z.of_nat (length (members k));
  cw_hash i b e : buckets k !! i = Some b -> e ∈ b ->
    Z.of_nat i = Z.rem (c_abs (hash_fn k (e_astobj e) OBJ_POINTER)) (n_buckets k)
}.

Definition obj_wf (o : astobj2) : Prop :=
  match cont o with
  | Some k => destructor_fn o = ContainerDestruct /\ container_wf k
  | None => destructor_fn o <> ContainerDestruct
  end.

(** Every counter is the number of references to the object, from [held] (by the
    clients) and from other objects; and every reference is to an object. *)
Record counted (h : gmap Z astobj2) (held : list ptr) : Prop := {
  ct_count p o : h !! p = Some o -> ref_counter o = Z.of_nat (count (held ++ all_refs h) p) /\ 0 < ref_counter o;
  ct_live p : p ∈ held ++ all_refs h -> is_Some (h !! p);
  ct_wf p o : h !! p = Some o -> obj_wf o /\ p <> NULL
}.

Lemma occ_perm l l' p : l ≡ₚ l' -> count l p = count l' p.
Proof. intros H. by apply (Permutation_count_occ Z.eq_dec). Qed.

Lemma count_elem l p : p ∈ l <-> (0 < count l p)%nat.
Proof. rewrite list_elem_of_In, (count_occ_In Z.eq_dec). lia. Qed.

Lemma counted_perm h held held' : held ≡ₚ held' -> counted h held -> counted h held'.
Proof.
  intros Hp [Hc Hl Hw]. split; [|intros p Hin; apply Hl; by rewrite Hp|done].
  intros p o Ho. rewrite <- (occ_perm (held ++ all_refs h)); [by apply Hc|by rewrite Hp].
Qed.

#[export] Instance counted_proper h : Proper ((≡ₚ) ==> iff) (counted h).
Proof. intros H1 H2 HE. split; by apply counted_perm. Qed.

Lemma all_refs_insert h p o : h !! p = None -> all_refs (<[p := o]> h) ≡ₚ refs_of o ++ all_refs h.
Proof. intros Hp. unfold all_refs. by rewrite map_to_list_insert. Qed.

Lemma all_refs_delete h p o : h !! p = Some o -> all_refs h ≡ₚ refs_of o ++ all_refs (delete p h).
Proof. intros Hp. rewrite <- (insert_delete_id h p o Hp) at 1. apply all_refs_insert, lookup_delete_eq. Qed.

(** Replacing an object moves the difference of its references to the holders. *)
Lemma all_refs_replace h p o o' : h !! p = Some o -> all_refs (<[p := o']> h) ++ refs_of o ≡ₚ all_refs h ++ refs_of o'.
Proof.
  intros Hp. rewrite (all_refs_delete h p o Hp), <- insert_delete_eq, all_refs_insert by apply lookup_delete_eq.
  by rewrite !(Permutation_app_comm _ (all_refs _)), <- !app_assoc, (Permutation_app_comm (refs_of o')).
Qed.

Lemma count_replace h p o o' q : h !! p = Some o ->
  (count (all_refs (<[p := o']> h)) q + count (refs_of o) q = count (all_refs h) q + count (refs_of o') q)%nat.
Proof. intros Hp. rewrite <- !count_occ_app. by apply occ_perm, all_refs_replace. Qed.

(** Changing the data of an object keeps the counts when what it no longer holds is
    held by a client, and back. *)
Lemma counted_put h p o o' held held' : h !! p = Some o -> ref_counter o' = ref_counter o -> obj_wf o' ->
  held ++ refs_of o ≡ₚ held' ++ refs_of o' -> counted h held -> counted (<[p := o']> h) held'.
Proof.
  intros Hp Hr Hw HP [Hc Hl Hwf].
  assert (Hcnt : forall q, count (held' ++ all_refs (<[p := o']> h)) q = count (held ++ all_refs h) q).
  { intros q. pose proof (count_replace h p o o' q Hp) as H1. apply (Permutation_count_occ Z.eq_dec) with (x := q) in HP.
    rewrite !count_occ_app in *. lia. }
  split.
  - intros q oq. rewrite Hcnt. destruct (decide (q = p)) as [->|Hne].
    + rewrite lookup_insert_eq. intros [= <-]. rewrite Hr. by apply Hc.
    + rewrite lookup_insert_ne by done. apply Hc.
  - intros q Hq. apply count_elem in Hq. rewrite Hcnt in Hq. apply count_elem, Hl in Hq.
    destruct (decide (q = p)) as [->|Hne]; [by rewrite lookup_insert_eq|by rewrite lookup_insert_ne].
  - intros q oq. destruct (decide (q = p)) as [->|Hne].
    + rewrite lookup_insert_eq. intros [= <-]. split; [done|]. by eapply Hwf.
    + rewrite lookup_insert_ne by done. apply Hwf.
Qed.

(** Changing a counter by as much as the holders change. *)
Lemma counted_counter h p o held held' d : h !! p = Some o -> 0 < ref_counter o + d ->
  Z.of_nat (count held' p) = Z.of_nat (count held p) + d -> (forall q, q <> p -> count held' q = count held q) ->
  counted h held -> counted (<[p := o <| ref_counter := ref_counter o + d |>]> h) held'.
Proof.
  intros Hp Hd H1 H2 [Hc Hl Hwf]. set (o' := o <| ref_counter := _ |>).
  assert (Hcnt : forall q, count (all_refs (<[p := o']> h)) q = count (all_refs h) q).
  { intros q. pose proof (count_replace h p o o' q Hp) as H. change (refs_of o') with (refs_of o) in H. lia. }
  destruct (Hc p o Hp) as [Hcp _].
  split.
  - intros q oq. rewrite count_occ_app, Hcnt. destruct (decide (q = p)) as [->|Hne].
    + rewrite lookup_insert_eq. intros [= <-]. cbn. rewrite count_occ_app in Hcp. lia.
    + rewrite lookup_insert_ne, H2, <- count_occ_app by done. apply Hc.
  - intros q Hq. destruct (decide (q = p)) as [->|Hne]; [by rewrite lookup_insert_eq|rewrite lookup_insert_ne by done].
    apply Hl. apply count_elem. apply count_elem in Hq. rewrite count_occ_app, Hcnt, H2 in Hq by done. by rewrite count_occ_app.
  - intros q oq. destruct (decide (q = p)) as [->|Hne].
    + rewrite lookup_insert_eq. intros [= <-]. exact (Hwf p o Hp).
    + rewrite lookup_insert_ne by done. apply Hwf.
Qed.

(** The last reference: without the object its own references are held. *)
Lemma counted_last h p o held : h !! p = Some o -> ref_counter o = 1 -> counted h (p :: held) ->
  counted (delete p h) (refs_of o ++ held).
Proof.
  intros Hp Hr [Hc Hl Hwf].
  assert (Hcnt : forall q, count (p :: held ++ all_refs h) q = count (p :: (refs_of o ++ held) ++ all_refs (delete p h)) q).
  { intros q. apply occ_perm. rewrite (all_refs_delete h p o Hp). constructor. rewrite !app_assoc.
    by rewrite (Permutation_app_comm held). }
  destruct (Hc p o Hp) as [H1 _]. rewrite Hr in H1. cbn [app] in H1. rewrite Hcnt, count_occ_cons_eq in H1 by done.
  assert (H0 : count ((refs_of o ++ held) ++ all_refs (delete p h)) p = 0%nat) by lia.
  split.
  - intros q oq Hq. apply lookup_delete_Some in Hq as [Hne Hq]. destruct (Hc q oq Hq) as [-> ?]. cbn [app] in *.
    rewrite Hcnt, count_occ_cons_neq in * by done. done.
  - intros q Hq. assert (Hne : q <> p) by (intros ->; apply count_elem in Hq; lia). rewrite lookup_delete_ne by done.
    apply Hl. cbn [app]. apply count_elem. rewrite Hcnt, count_occ_cons_neq by done. by apply count_elem.
  - intros q oq Hq. apply lookup_delete_Some in Hq as [_ Hq]. by apply Hwf.
Qed.

(** ** Dropping a reference *)

(** What dropping references does to the heap: objects vanish, others keep their data;
    [freed] are the user's objects that were destroyed, each once. *)
Record evolves (h h' : gmap Z astobj2) (freed : list ptr) : Prop := {
  ev_data p o' : h' !! p = Some o' -> exists o, h !! p = Some o /\ cont o' = cont o /\ destructor_fn o' = destructor_fn o;
  ev_nodup : NoDup freed;
  ev_freed p : p ∈ freed <-> (exists o, h !! p = Some o /\ destructor_fn o = UserDestructor) /\ h' !! p = None
}.

Lemma evolves_refl h : evolves h h [].
Proof.
  split; [eauto|constructor|]. intros p. split; [by intros ?%elem_of_nil|]. intros [(o & Ho & _) Hn]. congruence.
Qed.

Lemma evolves_none h h' freed p : evolves h h' freed -> h !! p = None -> h' !! p = None.
Proof. intros [H _ _] Hp. destruct (h' !! p) as [o|] eqn:E; [|done]. destruct (H p o E) as (? & ? & _). congruence. Qed.

Lemma evolves_trans h1 h2 h3 f g : evolves h1 h2 f -> evolves h2 h3 g -> evolves h1 h3 (f ++ g).
Proof.
  intros E1 E2. pose proof (fun p => evolves_none _ _ _ p E2) as Hnone. destruct E1 as [D1 N1 F1], E2 as [D2 N2 F2]. split.
  - intros p o' Hp. destruct (D2 p o' Hp) as (o2 & H2 & E2 & E2'). destruct (D1 p o2 H2) as (o1 & H1 & E1 & E1'). exists o1. by rewrite E2, E2'.
  - apply list.NoDup_app. split_and!; [done| |done]. intros p Hp1 Hp2. apply F1 in Hp1 as [_ Hp1]. apply F2 in Hp2 as [(o & Ho & _) _]. congruence.
  - intros p. rewrite elem_of_app, F1, F2. split.
    + intros [[Ho Hn]|[(o & Ho & Hd) Hn]]; [split; [done|by apply Hnone]|]. destruct (D1 p o Ho) as (o1 & H1 & _ & E). split; [|done].
      exists o1. by rewrite <- E.
    + intros [(o & Ho & Hd) Hn]. destruct (h2 !! p) as [o2|] eqn:E; [right|left; eauto].
      destruct (D1 p o2 E) as (o1 & H1 & _ & E'). split; [|done]. exists o2. split; [done|]. congruence.
Qed.

Lemma evolves_size h h' f : evolves h h' f -> (size h' <= size h)%nat.
Proof.
  intros [D _ _]. rewrite <- !size_dom. apply subseteq_size. intros p Hp. apply elem_of_dom in Hp as [o Ho].
  apply elem_of_dom. destruct (D p o Ho) as (o1 & H1 & _). by exists o1.
Qed.

Lemma evolves_disjoint h h' f D : evolves h h' f -> h ##ₘ D -> h' ##ₘ D.
Proof.
  intros Hev Hd. apply map_disjoint_spec. intros p o d Ho HD. destruct (ev_data _ _ _ Hev p o Ho) as (o1 & H1 & _).
  by apply (proj1 (map_disjoint_spec h D) Hd p o1 d).
Qed.

(** A counter that changes. *)
Lemma evolves_counter h p o r : h !! p = Some o -> evolves h (<[p := o <| ref_counter := r |>]> h) [].
Proof.
  intros Hp. split; [|constructor|].
  - intros q o'. destruct (decide (q = p)) as [->|Hne].
    + rewrite lookup_insert_eq. intros [= <-]. by exists o.
    + rewrite lookup_insert_ne by done. eauto.
  - intros q. split; [by intros ?%elem_of_nil|]. intros [(o' & Ho & _) Hn]. apply lookup_insert_None in Hn as [? _]. congruence.
Qed.

(** An object that vanishes. *)
Lemma evolves_delete h p o : h !! p = Some o ->
  evolves h (delete p h) (match destructor_fn o with UserDestructor => [p] | _ => [] end).
Proof.
  intros Hp. split.
  - intros q o' Hq. apply lookup_delete_Some in Hq as [_ Hq]. eauto.
  - destruct (destructor_fn o); repeat constructor. by intros ?%elem_of_nil.
  - intros q. split.
    + destruct (destructor_fn o) eqn:E; intros Hq; try by apply elem_of_nil in Hq. apply list_elem_of_singleton in Hq as ->.
      split; [eauto|apply lookup_delete_eq].
    + intros [(o' & Ho & Hd) Hn]. apply lookup_delete_None in Hn as [<-|Hn]; [|congruence]. rewrite Ho in Hp. injection Hp as ->.
      rewrite Hd. by apply list_elem_of_singleton.
Qed.

Definition drop_all (ref : ptr -> Z -> world -> outcome (Z * world)) (ps : list ptr) (w : world) : outcome world :=
  ofold (fun w q => let* (_, w) := ref q (-1) w in Ret w) w ps.

(** The search of a container that is being destroyed drops its references in order. *)
Lemma scan_drops ref c link_ok k_i prev b ret w :
  scan_bucket ref c OBJ_UNLINK (cd_cb ref) None link_ok k_i prev b ret w =
  let* w := drop_all ref (e_astobj <$> b) w in Ret (false, ret, w).
Proof.
  revert prev w. induction b as [|e b IH]; intros prev w; [done|]. cbn [scan_bucket fmap list_fmap drop_all ofold].
  unfold cd_cb at 1. destruct (ref (e_astobj e) (-1) w) as [[r w']| | |]; cbn [obind]; try done. apply IH.
Qed.

Lemma drop_all_app ref ps qs w : drop_all ref (ps ++ qs) w = let* w := drop_all ref ps w in drop_all ref qs w.
Proof.
  revert w. induction ps as [|p ps IH]; intros w; [done|]. cbn [app drop_all ofold].
  destruct (ref p (-1) w) as [[r w']| | |]; cbn [obind]; try done. apply IH.
Qed.

(** Dropping a reference, with a set [D] of objects that are being destroyed. *)
Definition drop_spec (ref : ptr -> Z -> world -> outcome (Z * world)) (n : nat) : Prop :=
  forall h D held p l, counted h (p :: held) -> h ##ₘ D -> (size h < n)%nat ->
    exists r h' freed, ref p (-1) (mk_world (h ∪ D) l) = Ret (r, mk_world (h' ∪ D) (l ++ freed)) /\
      counted h' held /\ evolves h h' freed.

Lemma drop_all_spec ref n : drop_spec ref n ->
  forall ps h D held l, counted h (ps ++ held) -> h ##ₘ D -> (size h < n)%nat ->
    exists h' freed, drop_all ref ps (mk_world (h ∪ D) l) = Ret (mk_world (h' ∪ D) (l ++ freed)) /\
      counted h' held /\ evolves h h' freed.
Proof.
  intros Href ps. induction ps as [|p ps IH]; intros h D held l Hc Hd Hn.
  { exists h, []. rewrite app_nil_r. split_and!; [done|done|apply evolves_refl]. }
  destruct (Href h D (ps ++ held) p l Hc Hd Hn) as (r & h1 & f1 & E & Hc1 & Hev1). cbn [drop_all ofold]. rewrite E. cbn [obind].
  pose proof (evolves_size _ _ _ Hev1).
  destruct (IH h1 D held (l ++ f1) Hc1 (evolves_disjoint _ _ _ _ Hev1 Hd) ltac:(lia)) as (h2 & f2 & E2 & Hc2 & Hev2).
  exists h2, (f1 ++ f2). rewrite app_assoc. split_and!; [exact E2|done|by eapply evolves_trans].
Qed.

Lemma get_dying h D l c k o : h ##ₘ D -> D !! c = Some o -> cont o = Some k -> get_container (mk_world (h ∪ D) l) c = Ret k.
Proof.
  intros Hd Hc Hk. unfold get_container. cbn [heap]. rewrite lookup_union_r.
  - rewrite Hc. cbn. by rewrite Hk.
  - by eapply map_disjoint_Some_r.
Qed.

Lemma loop_drops ref n c k o link_ok start fuel : drop_spec ref n -> cont o = Some k -> container_wf k ->
  forall i h D held l, D !! c = Some o -> (i <= length (buckets k))%nat -> (length (buckets k) - i < fuel)%nat ->
    counted h ((e_astobj <$> concat (drop i (buckets k))) ++ held) -> h ##ₘ D -> (size h < n)%nat ->
    exists h' freed,
      bucket_loop ref c OBJ_UNLINK (cd_cb ref) None link_ok fuel start (n_buckets k) (Z.of_nat i) (n_buckets k) NULL (mk_world (h ∪ D) l) =
        Ret (NULL, mk_world (h' ∪ D) (l ++ freed)) /\ counted h' held /\ evolves h h' freed.
Proof.
  intros Href Hk Hwf. induction fuel as [|fuel IH]; intros i h D held l HD Hi Hf Hc Hd Hn; [lia|]. cbn [bucket_loop].
  rewrite <- (cw_len k Hwf). destruct (Z.ltb_spec (Z.of_nat i) (Z.of_nat (length (buckets k)))) as [Hlt|Hge]; cbn [negb].
  - rewrite (get_dying h D l c k o) by done. cbn [obind]. unfold bucket_at. rewrite (proj2 (Z.ltb_ge _ _)), Nat2Z.id by lia.
    destruct (lookup_lt_is_Some_2 (buckets k) i ltac:(lia)) as [b Hb]. rewrite Hb. cbn [oaccess obind].
    rewrite (drop_S (buckets k) b i Hb) in Hc. cbn [concat] in Hc. rewrite fmap_app, <- app_assoc in Hc.
    rewrite scan_drops. destruct (drop_all_spec ref n Href _ h D _ l Hc Hd Hn) as (h1 & f1 & -> & Hc1 & Hev1). cbn [obind].
    change (has OBJ_UNLINK OBJ_POINTER) with false. rewrite andb_false_r. cbn [negb andb Z.eqb].
    replace (Z.of_nat i + 1) with (Z.of_nat (S i)) by lia. rewrite (cw_len k Hwf). pose proof (evolves_size _ _ _ Hev1).
    destruct (IH (S i) h1 D held (l ++ f1)) as (h2 & f2 & E2 & Hc2 & Hev2); [done|lia|lia|done|by eapply evolves_disjoint|lia|].
    exists h2, (f1 ++ f2). rewrite app_assoc. split_and!; [exact E2|done|by eapply evolves_trans].
  - exists h, []. rewrite app_nil_r. split_and!; [done| |apply evolves_refl].
    rewrite drop_ge in Hc by lia. exact Hc.
Qed.

Lemma delete_dying (h D : gmap Z astobj2) p o o' : h ##ₘ D -> h !! p = None -> D !! p = None ->
  delete p (h ∪ <[p := o]> D) = h ∪ D /\ delete p (alter o' p (h ∪ <[p := o]> D)) = h ∪ D.
Proof.
  intros Hd Hh HD. assert (E : delete p (h ∪ <[p := o]> D) = h ∪ D).
  { rewrite delete_union, delete_insert_id by done. by rewrite delete_id. }
  split; [done|]. rewrite <- E. apply map_eq. intros q. destruct (decide (q = p)) as [->|Hne].
  - by rewrite !lookup_delete_eq.
  - by rewrite !lookup_delete_ne, lookup_alter_ne.
Qed.

Lemma destruct_spec ref n c k o : drop_spec ref n -> cont o = Some k -> container_wf k -> c <> NULL ->
  forall h D held l, D !! c = Some o -> counted h (members k ++ held) -> h ##ₘ D -> (size h < n)%nat ->
    exists h' freed f, container_destruct ref c (mk_world (h ∪ D) l) = Ret (mk_world (alter f c (h' ∪ D)) (l ++ freed)) /\
      counted h' held /\ evolves h h' freed.
Proof.
  intros Href Hk Hwf Hc0 h D held l HD Hc Hd Hn. unfold container_destruct, internal_ao2_callback, INTERNAL_OBJ. cbn [heap].
  rewrite (proj2 (Z.eqb_neq _ _) Hc0), lookup_union_r, HD by (by eapply map_disjoint_Some_r). cbn [oaccess obind].
  change (Z.land OBJ_UNLINK (Z.lor OBJ_MULTIPLE OBJ_NODATA) =? OBJ_MULTIPLE) with false. cbn iota.
  rewrite (get_dying h D l c k o) by done. cbn [obind]. change (has OBJ_UNLINK OBJ_POINTER) with false. cbn iota. cbn [Z.ltb Z.compare].
  destruct (loop_drops ref n c k o (fun _ => false) 0 (Z.to_nat (2 * n_buckets k + 2)) Href Hk Hwf 0 h D held l)
    as (h' & freed & E & Hc' & Hev); [done|lia| |done|done|done|].
  { pose proof (cw_len k Hwf). lia. }
  change (Z.of_nat 0) with 0 in E. rewrite E. cbn [obind].
  rewrite (get_dying h' D _ c k o) by (done || by eapply evolves_disjoint). cbn [obind].
  eexists h', freed, _. split_and!; [done..].
Qed.

(** Dropping a reference that is held neither touches freed memory nor fails: the
    counters stay right, and exactly the objects whose last reference went vanish. *)
Lemma drop_ref fuel : drop_spec (internal_ao2_ref fuel) fuel.
Proof.
  induction fuel as [|fuel IH]; intros h D held p l Hc Hd Hn; [lia|]. cbn [internal_ao2_ref]. unfold INTERNAL_OBJ. cbn [heap].
  destruct (ct_live _ _ Hc p) as [o Ho]; [cbn; left|]. destruct (ct_wf _ _ Hc p o Ho) as [Hwf Hp0].
  destruct (ct_count _ _ Hc p o Ho) as [_ Hpos].
  rewrite (proj2 (Z.eqb_neq _ _) Hp0), (lookup_union_Some_l _ _ _ _ Ho). cbn [oaccess obind Z.eqb].
  change (-1 =? 0) with false. cbn iota.
  assert (HDp : D !! p = None) by (by eapply map_disjoint_Some_l).
  destruct (Z.leb_spec (ref_counter o + -1) 0) as [Hlast|Hmore].
  - assert (H1 : ref_counter o = 1) by lia. pose proof (counted_last h p o held Ho H1 Hc) as Hc0.
    set (o' := o <| ref_counter := ref_counter o + -1 |>). set (h0 := delete p h) in *. set (D0 := <[p := o']> D).
    assert (Hheap : <[p := o']> (h ∪ D) = h0 ∪ D0).
    { unfold h0, D0. apply map_eq. intros q. destruct (decide (q = p)) as [->|Hne].
      - rewrite lookup_insert_eq, lookup_union_r, lookup_insert_eq; [done|apply lookup_delete_eq].
      - rewrite lookup_insert_ne by done. rewrite !lookup_union, lookup_delete_ne, lookup_insert_ne by done. done. }
    assert (Hd0 : h0 ##ₘ D0).
    { unfold h0, D0. apply map_disjoint_insert_r. split; [apply lookup_delete_eq|by apply map_disjoint_delete_l]. }
    assert (Hs0 : (size h0 < fuel)%nat).
    { pose proof (map_size_delete_Some p h ltac:(by exists o)). assert (0 < size h)%nat; [|unfold h0; lia].
      apply Nat.neq_0_lt_0. intros Hz. apply map_size_empty_inv in Hz as ->. done. }
    pose proof (evolves_delete h p o Ho) as Hevd. fold h0 in Hevd.
    change ((mk_world (h ∪ D) l) <| heap ::= <[p:=o']> |>) with (mk_world (<[p := o']> (h ∪ D)) l). rewrite Hheap.
    assert (Hfin : forall h' freed f, evolves h0 h' freed -> delete p (h' ∪ D0) = h' ∪ D /\ delete p (alter f p (h' ∪ D0)) = h' ∪ D).
    { intros h' freed f Hev. apply delete_dying; [|by eapply evolves_none, lookup_delete_eq|done].
      eapply evolves_disjoint; [exact Hev|]. by apply map_disjoint_delete_l. }
    unfold obj_wf in Hwf. unfold refs_of in Hc0. destruct (cont o) as [k|] eqn:Hk.
    + destruct Hwf as [Hdes Hkw]. rewrite Hdes in *.
      destruct (destruct_spec _ fuel p k o' IH Hk Hkw Hp0 h0 D0 held l) as (h' & freed & f & -> & Hc' & Hev);
        [apply lookup_insert_eq|done..|]. cbn [obind].
      exists (ref_counter o), h', freed. split_and!; [|done|by apply (evolves_trans _ _ _ _ _ Hevd)].
      f_equal. f_equal. cbn. unfold setter. cbn. f_equal. by apply (Hfin h' freed f).
    + destruct (destructor_fn o) eqn:Hdes; [| |done].
      * cbn [obind]. exists (ref_counter o), h0, []. split_and!; [|done|done].
        f_equal. f_equal. rewrite app_nil_r. cbn. unfold setter. cbn. f_equal. by apply (Hfin h0 [] id), evolves_refl.
      * unfold user_destruct. fold (drop_all (internal_ao2_ref fuel) (user_refs o)).
        change ((mk_world (h0 ∪ D0) l) <| log ::= fun l => l ++ [p] |>) with (mk_world (h0 ∪ D0) (l ++ [p])).
        destruct (drop_all_spec _ fuel IH (user_refs o) h0 D0 held (l ++ [p]) Hc0 Hd0 Hs0) as (h' & freed & E & Hc' & Hev).
        fold (drop_all (internal_ao2_ref fuel) (user_refs o) (mk_world (h0 ∪ D0) (l ++ [p]))). rewrite E. cbn [obind].
        exists (ref_counter o), h', ([p] ++ freed). split_and!; [|done|by apply (evolves_trans _ _ _ _ _ Hevd)].
        f_equal. f_equal. rewrite app_assoc. cbn. unfold setter. cbn. f_equal. by apply (Hfin h' freed id).
  - exists (ref_counter o), (<[p := o <| ref_counter := ref_counter o + -1 |>]> h), [].
    rewrite app_nil_r. split_and!; [|apply counted_counter with (held := p :: held); [done|lia| | |done]|by apply evolves_counter].
    + f_equal. f_equal. cbn. unfold setter. cbn. by rewrite <- insert_union_l.
    + rewrite count_occ_cons_eq by done. lia.
    + intros q Hq. by rewrite count_occ_cons_neq.
Qed.
