(* ===== verification/Astobj2Search.v ===== *)
(** * Searching containers of reference counted objects

    What linking, unlinking, callbacks and [ao2_find] of [main/astobj2.c] (Astobj2.v) do
    to a container and to the reference counters. *)

From Stdlib Require Import ZArith Lia.
From stdpp Require Import base list gmap numbers relations.
From S2P Require Import Prelude Astobj2.

#[local] Open Scope Z_scope.
#[local] Open Scope record_scope.
#[local] Open Scope outcome_scope.

#[local] Abbreviation ref := ao2_ref.

(** Like [evolves], where the containers of [S] may change. *)
Record evolves_on (S : list ptr) (h h' : gmap Z astobj2) (freed : list ptr) : Prop := {
  eo_data p o' : h' !! p = Some o' -> exists o, h !! p = Some o /\ destructor_fn o' = destructor_fn o /\ (p ∉ S -> cont o' = cont o);
  eo_freed p : p ∈ freed <-> (exists o, h !! p = Some o /\ destructor_fn o = UserDestructor) /\ h' !! p = None
}.

Lemma evolves_on_refl S h : evolves_on S h h [].
Proof.
  split; [eauto|]. intros p. split; [by intros ?%elem_of_nil|]. intros [(o & Ho & _) Hn]. congruence.
Qed.

Lemma evolves_evolves_on S h h' f : evolves h h' f -> evolves_on S h h' f.
Proof. intros [D _ F]. split; [|done]. intros p o' Hp. destruct (D p o' Hp) as (o & ? & ? & ?). eauto. Qed.

Lemma evolves_on_trans S h1 h2 h3 f g : evolves_on S h1 h2 f -> evolves_on S h2 h3 g -> evolves_on S h1 h3 (f ++ g).
Proof.
  intros [D1 F1] [D2 F2]. split.
  - intros p o' Hp. destruct (D2 p o' Hp) as (o2 & H2 & E2 & E2'). destruct (D1 p o2 H2) as (o1 & H1 & E1 & E1'). exists o1.
    split_and!; [done|congruence|]. intros Hs. by rewrite E2', E1'.
  - intros p. rewrite elem_of_app, F1, F2. split.
    + intros [[Ho Hn]|[(o & Ho & Hd) Hn]]; (split; [|]).
      * done.
      * destruct (h3 !! p) as [o3|] eqn:E; [|done]. destruct (D2 p o3 E) as (? & ? & _). congruence.
      * destruct (D1 p o Ho) as (o1 & H1 & E & _). exists o1. by rewrite <- E.
      * done.
    + intros [(o & Ho & Hd) Hn]. destruct (h2 !! p) as [o2|] eqn:E; [right|left; eauto].
      destruct (D1 p o2 E) as (o1 & H1 & E' & _). split; [|done]. exists o2. split; [done|]. congruence.
Qed.

(** An object that clients hold stays, with its data if it is not a container of [S]. *)
Lemma evolves_on_keeps S h h' f p o held : evolves_on S h h' f -> counted h' held -> p ∈ held -> h !! p = Some o ->
  exists o', h' !! p = Some o' /\ (p ∉ S -> cont o' = cont o).
Proof.
  intros Hev Hc Hp Ho. destruct (ct_live _ _ Hc p) as [o' Ho']; [set_solver|]. exists o'. split; [done|].
  destruct (eo_data _ _ _ _ Hev p o' Ho') as (o1 & H1 & _ & H2).
  rewrite Ho in H1. by injection H1 as <-.
Qed.

Lemma alter_some (h : gmap Z astobj2) p o (g : astobj2 -> astobj2) : h !! p = Some o -> alter g p h = <[p := g o]> h.
Proof.
  intros Hp. apply map_eq. intros q. destruct (decide (q = p)) as [->|Hne].
  - by rewrite lookup_alter_eq, lookup_insert_eq, Hp.
  - by rewrite lookup_alter_ne, lookup_insert_ne.
Qed.

(** ** References *)

Lemma ref_drop h held p l : counted h (p :: held) ->
  exists r h' freed, ref p (-1) (mk_world h l) = Ret (r, mk_world h' (l ++ freed)) /\ counted h' held /\ evolves h h' freed.
Proof.
  intros Hc. destruct (drop_ref (S (size h)) h ∅ held p l Hc) as (r & h' & freed & E & H); [apply map_disjoint_empty_r|lia|].
  rewrite !(right_id_L ∅ (∪)) in E. by exists r, h', freed.
Qed.

Lemma ref_add h held p o l : counted h held -> h !! p = Some o ->
  let h' := <[p := o <| ref_counter := ref_counter o + 1 |>]> h in
  ref p 1 (mk_world h l) = Ret (ref_counter o, mk_world h' l) /\ counted h' (p :: held) /\ evolves h h' [].
Proof.
  intros Hc Ho h'. destruct (ct_count _ _ Hc p o Ho) as [_ Hpos]. destruct (ct_wf _ _ Hc p o Ho) as [_ Hp0]. split_and!.
  - unfold ao2_ref. cbn [internal_ao2_ref heap]. unfold INTERNAL_OBJ. cbn [heap]. rewrite (proj2 (Z.eqb_neq _ _) Hp0), Ho.
    cbn [oaccess obind Z.eqb]. change (1 =? 0) with false. cbn iota. by rewrite (proj2 (Z.leb_gt _ _)) by lia.
  - apply counted_counter with (held := held); [done|lia| | |done].
    + rewrite count_occ_cons_eq by done. lia.
    + intros q Hq. by rewrite count_occ_cons_neq.
  - by apply evolves_counter.
Qed.

(** ** Putting a container *)

Lemma evolves_put h c o k : h !! c = Some o -> evolves_on [c] h (<[c := o <| cont := Some k |>]> h) [].
Proof.
  intros Hc. split.
  - intros p o'. destruct (decide (p = c)) as [->|Hne].
    + rewrite lookup_insert_eq. intros [= <-]. exists o. split_and!; [done|done|set_solver].
    + rewrite lookup_insert_ne by done. eauto.
  - intros p. split; [by intros ?%elem_of_nil|]. intros [(o' & Ho & _) Hn]. apply lookup_insert_None in Hn as [? _]. congruence.
Qed.

(** The references [X] leave the holders for the container, [Y] leave the container. *)
Lemma put_counted h c o k k' held held' : counted h held -> h !! c = Some o -> cont o = Some k -> container_wf k' ->
  held ++ members k ≡ₚ held' ++ members k' -> counted (<[c := o <| cont := Some k' |>]> h) held'.
Proof.
  intros Hc Ho Hk Hw HP. destruct (ct_wf _ _ Hc c o Ho) as [How _]. unfold obj_wf in How. rewrite Hk in How.
  apply (counted_put h c o _ held held' Ho); [done| | |done].
  - unfold obj_wf. cbn. split; [by apply How|done].
  - unfold refs_of. cbn. by rewrite Hk.
Qed.

Lemma get_container_live h l c o k : h !! c = Some o -> cont o = Some k -> get_container (mk_world h l) c = Ret k.
Proof. intros Ho Hk. unfold get_container. cbn [heap]. by rewrite Ho; cbn; rewrite Hk. Qed.

Lemma put_container_live h l c o k : h !! c = Some o ->
  put_container (mk_world h l) c k = mk_world (<[c := o <| cont := Some k |>]> h) l.
Proof. intros Ho. unfold put_container. cbn. unfold setter at 1. cbn. f_equal. by apply alter_some. Qed.

(** ** Buckets *)

Lemma members_split k i b : buckets k !! i = Some b ->
  members k ≡ₚ (e_astobj <$> b) ++ (e_astobj <$> concat (delete i (buckets k))).
Proof.
  intros Hb. unfold members. rewrite <- fmap_app. apply fmap_Permutation.
  rewrite <- (take_drop_middle (buckets k) i b Hb) at 1. rewrite delete_take_drop, !concat_app. cbn [concat].
  rewrite !(Permutation_app_comm (concat (take i _))). by rewrite <- app_assoc.
Qed.

Lemma members_put_bucket k i b b' : 0 <= i -> buckets k !! Z.to_nat i = Some b ->
  members (put_bucket k i b') ++ (e_astobj <$> b) ≡ₚ members k ++ (e_astobj <$> b').
Proof.
  intros Hi Hb. pose proof (lookup_lt_Some _ _ _ Hb).
  rewrite (members_split k _ b Hb), (members_split (put_bucket k i b') (Z.to_nat i) b').
  - cbn. rewrite (delete_take_drop (<[_:=_]> _)), take_insert_ge, drop_insert_lt, <- delete_take_drop by lia.
    rewrite <- !app_assoc, !(Permutation_app_comm (_ <$> concat _)), !app_assoc. by rewrite (Permutation_app_comm (_ <$> b')).
  - cbn. by apply list_lookup_insert_eq.
Qed.

(** Replacing a bucket by one whose entries were there or have its hash. *)
Lemma wf_put_bucket k i b b' k' : container_wf k -> 0 <= i -> buckets k !! Z.to_nat i = Some b ->
  (forall e, e ∈ b' -> e ∈ b \/ i = Z.rem (c_abs (hash_fn k (e_astobj e) OBJ_POINTER)) (n_buckets k)) ->
  hash_fn k' = hash_fn k -> n_buckets k' = n_buckets k -> buckets k' = buckets (put_bucket k i b') ->
  elements k' = elements k + Z.of_nat (length b') - Z.of_nat (length b) -> container_wf k'.
Proof.
  intros [Ho Hn Hl He Hh] Hi Hb Hin E1 E2 E3 E4.
  assert (Hlen : (length (members k') + length b = length (members k) + length b')%nat).
  { pose proof (Permutation_length (members_put_bucket k i b b' Hi Hb)) as H. rewrite !length_app, !length_fmap in H.
    unfold members in *. rewrite E3. exact H. }
  split; [by unfold hash_ok; rewrite E1|rewrite E2; done|rewrite E2, E3; by cbn; rewrite length_insert|lia|]. rewrite E1, E2, E3.
  intros j b1 e Hj Hin1. cbn in Hj. destruct (decide (Z.to_nat i = j)) as [<-|Hne].
  - rewrite list_lookup_insert_eq in Hj by (by eapply lookup_lt_Some). injection Hj as <-.
    destruct (Hin e Hin1) as [Hold|Hnew]; [by apply (Hh _ b)|]. by rewrite Z2Nat.id.
  - rewrite list_lookup_insert_ne in Hj by done. by apply (Hh j b1).
Qed.

(** ** Linking *)

Definition with_entry (k : ao2_container) (i : Z) (b : list bucket_entry) (p : ptr) : ao2_container :=
  (put_bucket (bump k) i (b ++ [mk_entry (c_version k) p])) <| elements ::= Z.add 1 |>.

Definition bucket_of (k : ao2_container) (p : ptr) : Z := Z.rem (c_abs (hash_fn k p OBJ_POINTER)) (n_buckets k).

Lemma bucket_of_range k p : container_wf k -> hash_ok k -> 0 <= bucket_of k p < n_buckets k.
Proof.
  intros Hw Hh. unfold bucket_of, c_abs. specialize (Hh p). pose proof (cw_n k Hw).
  rewrite (proj2 (Z.eqb_neq _ _)) by lia. rewrite Z.rem_mod_nonneg by lia. apply Z.mod_pos_bound. lia.
Qed.

Lemma bucket_lookup k i : container_wf k -> 0 <= i < n_buckets k -> exists b, buckets k !! Z.to_nat i = Some b.
Proof. intros Hw Hi. apply lookup_lt_is_Some_2. pose proof (cw_len k Hw). lia. Qed.

Lemma bucket_at_ok k i b : 0 <= i -> buckets k !! Z.to_nat i = Some b -> bucket_at k i = Ret b.
Proof. intros Hi Hb. unfold bucket_at. rewrite (proj2 (Z.ltb_ge _ _)) by lia. by rewrite Hb. Qed.

Lemma members_with_entry k p b : container_wf k -> hash_ok k -> buckets k !! Z.to_nat (bucket_of k p) = Some b ->
  container_wf (with_entry k (bucket_of k p) b p) /\ members (with_entry k (bucket_of k p) b p) ≡ₚ p :: members k.
Proof.
  intros Hw Hh Hb. pose proof (bucket_of_range k p Hw Hh) as Hi. split.
  - apply (wf_put_bucket k (bucket_of k p) b (b ++ [mk_entry (c_version k) p])); try done; try lia.
    + intros e [He|He]%elem_of_app; [by left|]. apply list_elem_of_singleton in He as ->. by right.
    + cbn. rewrite length_app. cbn. lia.
  - pose proof (members_put_bucket k (bucket_of k p) b (b ++ [mk_entry (c_version k) p]) ltac:(lia) Hb) as H.
    change (members (with_entry k (bucket_of k p) b p)) with (members (put_bucket k (bucket_of k p) (b ++ [mk_entry (c_version k) p]))).
    rewrite fmap_app, app_assoc in H. cbn [fmap list_fmap] in H.
    rewrite (Permutation_app_comm (members k)), <- app_assoc, (Permutation_app_comm (_ <$> b)) in H. apply Permutation_app_inv_r in H.
    rewrite H. apply Permutation_app_comm.
Qed.

(** Linking adds the object at the end of its bucket and takes a reference. *)
Lemma link_spec h held l ok c p oc op k : counted h held -> h !! c = Some oc -> cont oc = Some k -> h !! p = Some op -> hash_ok k ->
  exists h', ao2_link ref ok c p (mk_world h l) = Ret (ok, mk_world h' l) /\ counted h' held /\ evolves_on [c] h h' [] /\
    (if ok then exists oc' b, h' !! c = Some oc' /\ buckets k !! Z.to_nat (bucket_of k p) = Some b /\
       cont oc' = Some (with_entry k (bucket_of k p) b p)
     else h' = h).
Proof.
  intros Hc Hoc Hk Hop Hh. destruct (ct_wf _ _ Hc c oc Hoc) as [Hwc Hc0], (ct_wf _ _ Hc p op Hop) as [_ Hp0].
  unfold obj_wf in Hwc. rewrite Hk in Hwc. destruct Hwc as [_ Hw].
  unfold ao2_link, internal_ao2_link, INTERNAL_OBJ. cbn [heap]. rewrite !(proj2 (Z.eqb_neq _ _)), Hop, Hoc by done. cbn [oaccess obind].
  destruct ok; cbn [negb].
  2:{ cbn [obind]. exists h. split_and!; [done|done|apply evolves_on_refl|done]. }
  rewrite (get_container_live h l c oc k Hoc Hk). cbn [obind]. fold (bucket_of k p).
  pose proof (bucket_of_range k p Hw Hh) as Hi. destruct (bucket_lookup k _ Hw Hi) as [b Hb].
  rewrite (bucket_at_ok k _ b) by (done || lia). cbn [obind]. rewrite (put_container_live h l c oc _ Hoc). fold (with_entry k (bucket_of k p) b p).
  destruct (members_with_entry k p b Hw Hh Hb) as [Hw' Hm']. set (k' := with_entry k (bucket_of k p) b p) in *.
  destruct (ref_add h held p op l Hc Hop) as (_ & Hc1 & _). set (h1 := <[p := op <| ref_counter := ref_counter op + 1 |>]> h) in *.
  assert (H1c : exists oc1, h1 !! c = Some oc1 /\ cont oc1 = Some k).
  { unfold h1. destruct (decide (c = p)) as [->|Hne]; [|exists oc; by rewrite lookup_insert_ne].
    rewrite lookup_insert_eq. eexists. split; [done|]. cbn. congruence. }
  destruct H1c as (oc1 & Hoc1 & Hk1).
  pose proof (put_counted h1 c oc1 k k' (p :: held) held Hc1 Hoc1 Hk1 Hw') as Hc2.
  assert (Heq : exists op2, (<[c := oc <| cont := Some k' |>]> h) !! p = Some op2 /\
    <[p := op2 <| ref_counter := ref_counter op2 + 1 |>]> (<[c := oc <| cont := Some k' |>]> h) = <[c := oc1 <| cont := Some k' |>]> h1).
  { unfold h1 in *. destruct (decide (c = p)) as [->|Hne].
    - rewrite lookup_insert_eq in *. eexists. split; [done|]. rewrite !insert_insert_eq. injection Hoc1 as <-.
      by replace oc with op by congruence.
    - rewrite lookup_insert_ne in * by done. exists op. split; [done|]. rewrite insert_insert_ne by done. by simplify_eq. }
  destruct Heq as (op2 & Hop2 & Heq).
  assert (Href : ref p 1 (mk_world (<[c := oc <| cont := Some k' |>]> h) l) = Ret (ref_counter op2, mk_world (<[c := oc1 <| cont := Some k' |>]> h1) l)).
  { rewrite <- Heq. unfold ao2_ref. cbn [internal_ao2_ref heap]. unfold INTERNAL_OBJ. cbn [heap]. rewrite (proj2 (Z.eqb_neq _ _) Hp0), Hop2.
    cbn [oaccess obind Z.eqb]. change (1 =? 0) with false. cbn iota.
    assert (Hpos : ref_counter op2 = ref_counter op).
    { destruct (decide (c = p)) as [->|Hne]; [rewrite lookup_insert_eq in Hop2|rewrite lookup_insert_ne in Hop2 by done]; simplify_eq; done. }
    destruct (ct_count _ _ Hc p op Hop). by rewrite (proj2 (Z.leb_gt _ _)) by lia. }
  rewrite Href. cbn [obind]. eexists. split; [done|]. split.
  { apply Hc2. rewrite Hm'. apply Permutation_middle. }
  split.
  - apply (evolves_on_trans [c] _ h1 _ [] []); [|by apply evolves_put]. apply evolves_evolves_on. by apply evolves_counter.
  - exists (oc1 <| cont := Some k' |>), b. split_and!; [apply lookup_insert_eq|done|done].
Qed.

(** ** Unlinking *)

Definition has_cont (h : gmap Z astobj2) (c : ptr) (k : ao2_container) : Prop := exists o, h !! c = Some o /\ cont o = Some k.

Lemma has_cont_wf h held c k : counted h held -> has_cont h c k -> container_wf k /\ c <> NULL.
Proof.
  intros Hc (o & Ho & Hk). destruct (ct_wf _ _ Hc c o Ho) as [Hw Hc0]. unfold obj_wf in Hw. rewrite Hk in Hw. by destruct Hw.
Qed.

Lemma has_cont_keeps S h h' f c k held : evolves_on S h h' f -> counted h' held -> c ∈ held -> c ∉ S -> has_cont h c k -> has_cont h' c k.
Proof.
  intros Hev Hc Hin Hs (o & Ho & Hk). destruct (evolves_on_keeps S h h' f c o held Hev Hc Hin Ho) as (o' & Ho' & E).
  exists o'. split; [done|]. by rewrite E.
Qed.

Definition without_entry (k : ao2_container) (i : Z) (b : list bucket_entry) : ao2_container :=
  (put_bucket (bump k) i b) <| elements ::= fun n => n - 1 |>.

(** Unlinking one entry. *)
Definition unlinks (k k' : ao2_container) : Prop := exists i prev e rest, 0 <= i /\
  buckets k !! Z.to_nat i = Some (prev ++ e :: rest) /\ k' = without_entry k i (prev ++ rest).

Lemma unlink_spec h held c k i prev cur rest l : counted h held -> has_cont h c k -> 0 <= i ->
  buckets k !! Z.to_nat i = Some (prev ++ cur :: rest) ->
  let k' := without_entry k i (prev ++ rest) in
  exists h', put_container (mk_world h l) c k' = mk_world h' l /\ counted h' (e_astobj cur :: held) /\
    evolves_on [c] h h' [] /\ has_cont h' c k'.
Proof.
  intros Hc Hhc Hi Hb k'. destruct (has_cont_wf h held c k Hc Hhc) as [Hw _]. destruct Hhc as (o & Ho & Hk).
  exists (<[c := o <| cont := Some k' |>]> h). split_and!.
  - by apply put_container_live.
  - apply (put_counted h c o k k' held _ Hc Ho Hk).
    + apply (wf_put_bucket k i (prev ++ cur :: rest) (prev ++ rest)); try done.
      * intros e He. left. apply elem_of_app. apply elem_of_app in He as [?|?]; [by left|right; by apply elem_of_cons; right].
      * cbn. rewrite !length_app. cbn. lia.
    + pose proof (members_put_bucket k i _ (prev ++ rest) Hi Hb) as H.
      change (members k') with (members (put_bucket k i (prev ++ rest))). cbn [app].
      rewrite !fmap_app in H. cbn [fmap list_fmap] in H. rewrite <- (Permutation_middle (_ <$> prev)), <- fmap_app in H.
      rewrite (Permutation_cons_append (_ <$> prev ++ rest)), app_assoc in H. rewrite <- (Permutation_app_comm [e_astobj cur]) in H.
      rewrite app_assoc in H. apply Permutation_app_inv_r in H. cbn [app] in H. rewrite <- H. symmetry. apply Permutation_middle.
  - by apply evolves_put.
  - exists (o <| cont := Some k' |>). by rewrite lookup_insert_eq.
Qed.

(** ** What a search finds

    [f] are the answers of the callback.  The entries matched, those that are left when
    the matched ones are unlinked, and whether the search ended. *)

Fixpoint hits (multiple : bool) (f : ptr -> Z) (l : list bucket_entry) : list bucket_entry * list bucket_entry * bool :=
  match l with
  | [] => ([], [], false)
  | e :: l =>
      let m := Z.land (Z.lor CMP_MATCH CMP_STOP) (f (e_astobj e)) in
      if m =? 0 then let '(hs, kept, stop) := hits multiple f l in (hs, e :: kept, stop)
      else if m =? CMP_STOP then ([], e :: l, true)
      else if has m CMP_STOP || negb multiple then ([e], l, true)
      else let '(hs, kept, stop) := hits multiple f l in (e :: hs, kept, stop)
  end.

(** The entries a search matches. *)
Definition matched (multiple : bool) (f : ptr -> Z) (l : list bucket_entry) : list bucket_entry := (hits multiple f l).1.1.

Lemma hits_facts mu f l : let '(hs, kept, stop) := hits mu f l in
  hs ++ kept ≡ₚ l /\ sublist kept l /\ (stop = false -> mu = false -> hs = []) /\
  (stop = true -> (forall p, Z.land (Z.lor CMP_MATCH CMP_STOP) (f p) <> CMP_STOP) -> hs <> []).
Proof.
  induction l as [|e l IH]; cbn [hits]; [split_and!; try done; constructor|]. destruct (hits mu f l) as [[hs kept] stop].
  destruct IH as (IH1 & IH2 & IH3 & IH4). set (m := Z.land _ (f (e_astobj e))). destruct (m =? 0).
  { split_and!; [by rewrite <- Permutation_middle, IH1|by constructor|done|done]. }
  destruct (Z.eqb_spec m CMP_STOP) as [Hs|Hs].
  { split_and!; [done|done|done|]. intros _ H. by destruct (H (e_astobj e)). }
  destruct (has m CMP_STOP || negb mu) eqn:E.
  { split_and!; [done|by constructor|done|done]. }
  apply orb_false_iff in E as [_ E]. split_and!; [cbn; by rewrite IH1|by constructor| |done]. intros _ ->. done.
Qed.

Lemma matched_app mu f l l' : matched mu f (l ++ l') = matched mu f l ++ if (hits mu f l).2 then [] else matched mu f l'.
Proof.
  unfold matched. induction l as [|e l IH]; [done|]. cbn [app hits]. set (m := Z.land _ (f (e_astobj e))).
  destruct (m =? 0).
  { destruct (hits mu f (l ++ l')) as [[? ?] ?], (hits mu f l) as [[? ?] ?]. exact IH. }
  destruct (m =? CMP_STOP); [done|]. destruct (has m CMP_STOP || negb mu); [done|].
  destruct (hits mu f (l ++ l')) as [[? ?] ?], (hits mu f l) as [[? ?] ?]. cbn in *. by rewrite IH.
Qed.

Lemma has_lor flags a b : has flags (Z.lor a b) = has flags a || has flags b.
Proof.
  unfold has, ctrue. rewrite Z.land_lor_distr_r. apply Bool.eq_iff_eq_true.
  rewrite orb_true_iff, !negb_true_iff, !Z.eqb_neq, Z.lor_eq_0_iff. destruct (Z.eq_dec (Z.land flags a) 0); tauto.
Qed.

Section search.
Context (flags : Z) (f : ptr -> Z) (c : ptr) (multi : option ptr) (link_ok : ptr -> bool) (held : list ptr).

Abbreviation nd := (has flags OBJ_NODATA).
Abbreviation un := (has flags OBJ_UNLINK).
Abbreviation mu := (has flags OBJ_MULTIPLE).
Abbreviation cb := (fun (p : ptr) (w : world) => Ret (f p, w)).
Abbreviation SS := (c :: match multi with Some m => [m] | None => [] end).

(** The clients hold the container and the container of the results, which is there
    exactly when several objects are to be returned. *)
Context (Hheld : c ∈ held).
Context (Hmulti : match multi with Some m => m ∈ held /\ m <> c /\ nd = false /\ mu = true | None => nd || mu = nd end).

(** The object returned, and the references the caller gets. *)
Definition result (hs : list bucket_entry) : ptr :=
  if nd || mu then NULL else match hs with e :: _ => e_astobj e | [] => NULL end.

Definition hold (p : ptr) : list ptr := if p =? NULL then [] else [p].

(** The container of the results: one bucket of a list. *)
Definition results (h : gmap Z astobj2) (ps : list ptr) : Prop :=
  match multi with
  | Some m => exists km, has_cont h m km /\ hash_fn km = hash_zero /\ n_buckets km = 1 /\ members km = ps
  | None => True
  end.

Definition linked_hits (hs : list bucket_entry) : list ptr :=
  match multi with Some _ => filter (fun p => link_ok p = true) (e_astobj <$> hs) | None => [] end.

Lemma evolves_on_mono (S S' : list ptr) h h' g : (forall p, p ∈ S -> p ∈ S') -> evolves_on S h h' g -> evolves_on S' h h' g.
Proof.
  intros Hs [D F]. split; [|done]. intros p o' Hp. destruct (D p o' Hp) as (o & ? & ? & E). exists o. split_and!; [done..|].
  intros Hn. apply E. naive_solver.
Qed.

Lemma link_result h p op m km l : counted h held -> h !! p = Some op -> m ∈ held -> m <> c -> multi = Some m ->
  has_cont h m km -> hash_fn km = hash_zero -> n_buckets km = 1 ->
  exists h', ao2_link ref (link_ok p) m p (mk_world h l) = Ret (link_ok p, mk_world h' l) /\ counted h' held /\ evolves_on SS h h' [] /\
    results h' (members km ++ if link_ok p then [p] else []) /\ (forall k, has_cont h c k -> has_cont h' c k).
Proof.
  clear Hmulti. intros Hc Hop Hm Hmc Em (om & Hom & Hkm) Hz Hn. destruct (has_cont_wf h held m km Hc) as [Hw _]; [by exists om|].
  pose proof (cw_hash_ok km Hw) as Hho.
  destruct (link_spec h held l (link_ok p) m p om op km Hc Hom Hkm Hop Hho) as (h' & E & Hc' & Hev & Hr). exists h'.
  split_and!; [done|done| | |].
  - eapply evolves_on_mono; [|exact Hev]. intros q Hq. apply list_elem_of_singleton in Hq as ->. rewrite Em. set_solver.
  - unfold results. rewrite Em. destruct (link_ok p); [|subst h'; exists km; rewrite app_nil_r; split_and!; [by exists om|done..]].
    destruct Hr as (om' & b & Hom' & Hb & Hk'). eexists. split; [by exists om'|]. split_and!; [done|done|].
    assert (Hb0 : buckets km = [b]).
    { pose proof (bucket_of_range km p Hw Hho) as Hi. rewrite Hn in Hi. replace (bucket_of km p) with 0 in Hb by lia.
      pose proof (cw_len km Hw) as Hl. rewrite Hn in Hl. destruct (buckets km) as [|b0 [|]]; try (cbn in Hl; lia). change (Z.to_nat 0) with 0%nat in Hb. by injection Hb as ->. }
    assert (Hi : bucket_of km p = 0) by (pose proof (bucket_of_range km p Hw Hho); lia).
    unfold members, with_entry. cbn. rewrite Hi, Hb0. change (Z.to_nat 0) with 0%nat. cbn. by rewrite !app_nil_r, fmap_app.
  - intros k (o & Ho & Hk). destruct (evolves_on_keeps [m] h h' [] c o held Hev Hc' Hheld Ho) as (o' & Ho' & E').
    exists o'. split; [done|]. rewrite E'; [done|]. set_solver.
Qed.

(** The results stay when a reference is dropped or the searched container changes. *)
Lemma results_put h h' g held' ps : (forall m, multi = Some m -> m ∈ held /\ m <> c) -> evolves_on [c] h h' g -> counted h' (held' :: held) -> results h ps -> results h' ps.
Proof.
  clear Hmulti. unfold results. intros HM. destruct multi as [m|]; [|done]. destruct (HM m eq_refl) as [Hm Hmc]. intros Hev Hc (km & Hkm & H).
  exists km. split; [|done]. eapply has_cont_keeps; [exact Hev|exact Hc|set_solver|set_solver|done].
Qed.

Lemma results_keeps h h' g ps : (forall m, multi = Some m -> m ∈ held /\ m <> c) -> evolves_on [] h h' g -> counted h' held -> results h ps -> results h' ps.
Proof.
  clear Hmulti. unfold results. intros HM. destruct multi as [m|]; [|done]. destruct (HM m eq_refl) as [Hm Hmc]. intros Hev Hc (km & Hkm & H).
  exists km. split; [|done]. eapply has_cont_keeps; [exact Hev|exact Hc|set_solver|set_solver|done].
Qed.

(** What is done with one match. *)
Lemma found_spec h k i prev cur rest l ps : counted h held -> has_cont h c k -> 0 <= i ->
  buckets k !! Z.to_nat i = Some (prev ++ cur :: rest) -> results h ps ->
  exists h' freed,
    found ref c flags multi link_ok i prev cur rest NULL (mk_world h l) = Ret (result [cur], mk_world h' (l ++ freed)) /\
    counted h' (hold (result [cur]) ++ held) /\ evolves_on SS h h' freed /\
    has_cont h' c (if un then without_entry k i (prev ++ rest) else k) /\ results h' (ps ++ linked_hits [cur]).
Proof.
  intros Hc Hhc Hi Hb Hps. set (p := e_astobj cur). unfold found. fold p.
  assert (HM : forall m, multi = Some m -> m ∈ held /\ m <> c) by (intros m Em; rewrite Em in Hmulti; tauto).
  destruct (ct_live _ _ Hc p) as [op Hop].
  { destruct Hhc as (o & Ho & Hk). apply elem_of_app. right. rewrite (all_refs_delete h c o Ho). apply elem_of_app. left.
    unfold refs_of. rewrite Hk. unfold members. rewrite list_elem_of_fmap. exists cur. split; [done|].
    apply list_elem_of_In, in_concat. exists (prev ++ cur :: rest). split; [by eapply list_elem_of_In, list_elem_of_lookup_2|].
    apply list_elem_of_In. set_solver. }
  destruct (ct_wf _ _ Hc p op Hop) as [_ Hp0].
  assert (Hstep : exists ret h0 h1,
    (if negb nd then
       if negb (has flags (Z.lor OBJ_UNLINK OBJ_MULTIPLE)) then let* (_, w) := ref p 1 (mk_world h l) in Ret (p, w)
       else Ret (p, mk_world h l)
     else Ret (NULL, mk_world h l)) = Ret (ret, mk_world h0 l) /\
    match multi with
    | Some m =>
        if negb (ret =? NULL) then let* (_, w) := ao2_link ref (link_ok ret) m ret (mk_world h0 l) in Ret (NULL, w)
        else Ret (ret, mk_world h0 l)
    | None => Ret (ret, mk_world h0 l)
    end = Ret (result [cur], mk_world h1 l) /\
    counted h1 ((if un then [] else hold (result [cur])) ++ held) /\ evolves_on SS h h1 [] /\ has_cont h1 c k /\ results h1 (ps ++ linked_hits [cur])).
  { rewrite has_lor. unfold result, linked_hits, hold. destruct multi as [m|] eqn:Em.
    - destruct Hmulti as (Hm & Hmc & Hnd & Hmu). rewrite Hnd, Hmu. cbn [negb orb]. rewrite orb_true_r. cbn [negb obind].
      exists p, h. rewrite (proj2 (Z.eqb_neq _ _) Hp0). cbn [negb]. unfold results in Hps. rewrite Em in Hps. destruct Hps as (km & Hkm & Hz & Hn & Hmem).
      destruct (link_result h p op m km l Hc Hop Hm Hmc Em Hkm Hz Hn) as (h1 & -> & Hc1 & Hev & Hr & Hk1). cbn [obind].
      rewrite Em in Hev. exists h1. split_and!; [done|done|by destruct un|done|by apply Hk1|]. rewrite Hmem in Hr.
      cbn [fmap list_fmap]. rewrite filter_cons, filter_nil. fold p. destruct (link_ok p); cbn in *; done.
    - rewrite app_nil_r. destruct nd eqn:Hnd; cbn [negb orb obind].
      { exists NULL, h, h. split_and!; [done|done|by destruct un|apply evolves_on_refl|done|done]. }
      cbn [orb] in Hmulti. rewrite Hmulti, orb_false_r. destruct un eqn:Hun; cbn [negb].
      { exists p, h, h. split_and!; [done|done|done|apply evolves_on_refl|done|done]. }
      destruct (ref_add h held p op l Hc Hop) as (-> & Hc1 & Hev). cbn [obind]. fold p. rewrite (proj2 (Z.eqb_neq _ _) Hp0).
      eexists _, _, _. split_and!; [done|done|exact Hc1|by apply evolves_evolves_on| |unfold results; by rewrite Em].
      eapply has_cont_keeps; [apply (evolves_evolves_on []); exact Hev|exact Hc1|set_solver|set_solver|done]. }
  destruct Hstep as (ret & h0 & h1 & Hstep1 & Hstep2 & Hc1 & Hev1 & Hk1 & Hr1).
  rewrite Hstep1. cbn [obind]. rewrite Hstep2. cbn [obind]. destruct un eqn:Hun.
  2:{ exists h1, []. rewrite app_nil_r. split_and!; done. }
  assert (Hget : get_container (mk_world h1 l) c = Ret k) by (destruct Hk1 as (o1 & ? & ?); by eapply get_container_live).
  rewrite Hget. cbn [obind app] in *. fold (without_entry k i (prev ++ rest)).
  destruct (unlink_spec h1 held c k i prev cur rest l Hc1 Hk1 Hi Hb) as (h2 & -> & Hc2 & Hev2 & Hk2). fold p in Hc2.
  assert (Hsub : forall q, q ∈ [c] -> q ∈ SS) by (intros q Hq; set_solver).
  rewrite has_lor. destruct (nd || mu) eqn:Hdrop.
  - destruct (ref_drop h2 held p l Hc2) as (r & h3 & freed & -> & Hc3 & Hev3). cbn [obind].
    exists h3, freed. unfold hold, result in *. rewrite Hdrop in *. cbn [Z.eqb app].
    assert (Hev : evolves_on SS h1 h3 freed).
    { apply (evolves_on_trans SS h1 h2 h3 [] freed); [by eapply evolves_on_mono|by apply evolves_evolves_on]. }
    split_and!; [done|done|by apply (evolves_on_trans SS h h1 h3 [] freed)| |].
    + eapply (has_cont_keeps []); [by apply evolves_evolves_on|exact Hc3|done|set_solver|done].
    + eapply (results_keeps h2 h3); [exact HM|by apply evolves_evolves_on|exact Hc3|]. eapply results_put; [exact HM|exact Hev2|exact Hc2|done].
  - cbn [obind]. exists h2, []. rewrite app_nil_r. unfold hold, result in *. rewrite Hdrop in *. fold p.
    destruct (ct_wf _ _ Hc p op Hop) as [_ Hp]. rewrite (proj2 (Z.eqb_neq _ _) Hp). cbn [app].
    split_and!; [done|done| |done|].
    + apply (evolves_on_trans SS h h1 h2 [] []); [done|by eapply evolves_on_mono].
    + eapply results_put; [exact HM|exact Hev2|exact Hc2|done].
Qed.

(** The container after bucket [i] became [b'] and [n] entries were unlinked. *)
Record searched (i : Z) (b' : list bucket_entry) (n : nat) (k k' : ao2_container) : Prop := {
  sd_hash : hash_fn k' = hash_fn k;
  sd_cmp : cmp_fn k' = cmp_fn k;
  sd_n : n_buckets k' = n_buckets k;
  sd_buckets : buckets k' = <[Z.to_nat i := b']> (buckets k);
  sd_elements : elements k' = elements k - Z.of_nat n;
  sd_steps : rtc unlinks k k'
}.

Definition left_over (hs kept all : list bucket_entry) : list bucket_entry := if un then kept else all.
Definition unlinked (hs : list bucket_entry) : nat := if un then length hs else 0.

Lemma searched_refl i b k : buckets k !! Z.to_nat i = Some b -> searched i b 0 k k.
Proof. intros Hb. split; [done..| |lia|done]. by rewrite list_insert_id. Qed.

Lemma searched_trans i b1 b2 n1 n2 k1 k2 k3 : searched i b1 n1 k1 k2 -> searched i b2 n2 k2 k3 -> searched i b2 (n1 + n2) k1 k3.
Proof.
  intros [A1 A2 A3 A4 A5 A6] [B1 B2 B3 B4 B5 B6]. split; try congruence; [|lia|by transitivity k2]. by rewrite B4, A4, list_insert_insert_eq.
Qed.

Lemma linked_hits_nil : linked_hits [] = [].
Proof. unfold linked_hits. by destruct multi. Qed.

Lemma linked_hits_app hs hs' : linked_hits (hs ++ hs') = linked_hits hs ++ linked_hits hs'.
Proof. unfold linked_hits. destruct multi; [|done]. by rewrite fmap_app, list.filter_app. Qed.

Lemma scan_spec i : 0 <= i -> forall cur_list prev h l k ps, counted h held -> has_cont h c k ->
  buckets k !! Z.to_nat i = Some (prev ++ cur_list) -> results h ps ->
  let '(hs, kept, stop) := hits mu f cur_list in
  exists h' freed k',
    scan_bucket ref c flags cb multi link_ok i prev cur_list NULL (mk_world h l) = Ret (stop, result hs, mk_world h' (l ++ freed)) /\
    counted h' (hold (result hs) ++ held) /\ evolves_on SS h h' freed /\ has_cont h' c k' /\
    searched i (prev ++ left_over hs kept cur_list) (unlinked hs) k k' /\ results h' (ps ++ linked_hits hs).
Proof.
  intros Hi. induction cur_list as [|cur rest IH]; intros prev h l k ps Hc Hhc Hb Hps; cbn [hits scan_bucket].
  { exists h, [], k. rewrite !app_nil_r. unfold result, hold, left_over, unlinked. cbn [length].
    replace (if nd || mu then NULL else NULL) with NULL by (by destruct (nd || mu)).
    split_and!; [done|done|apply evolves_on_refl|done| |].
    - rewrite app_nil_r in Hb. destruct un; rewrite ?app_nil_r; by apply searched_refl.
    - by rewrite linked_hits_nil, app_nil_r. }
  cbn [obind]. set (m := Z.land (Z.lor CMP_MATCH CMP_STOP) (f (e_astobj cur))). destruct (m =? 0).
  { specialize (IH (prev ++ [cur]) h l k ps Hc Hhc). rewrite <- app_assoc in IH. specialize (IH Hb Hps).
    destruct (hits mu f rest) as [[hs kept] stop]. destruct IH as (h' & freed & k' & E & H1 & H2 & H3 & H4 & H5).
    exists h', freed, k'. split_and!; try done. unfold left_over in *. destruct un; by rewrite <- app_assoc in H4. }
  destruct (m =? CMP_STOP).
  { exists h, [], k. rewrite app_nil_r. unfold result, hold, left_over, unlinked. cbn [length].
    replace (if nd || mu then NULL else NULL) with NULL by (by destruct (nd || mu)).
    split_and!; [done|done|apply evolves_on_refl|done| |].
    - destruct un; by apply searched_refl.
    - by rewrite linked_hits_nil, app_nil_r. }
  destruct (found_spec h k i prev cur rest l ps Hc Hhc Hi Hb Hps) as (h1 & f1 & -> & Hc1 & Hev1 & Hk1 & Hr1). cbn [obind].
  set (k1 := if un then without_entry k i (prev ++ rest) else k) in *.
  assert (Hsd : searched i (prev ++ left_over [cur] rest (cur :: rest)) (unlinked [cur]) k k1).
  { unfold k1, left_over, unlinked. destruct un; [|by apply searched_refl]. split; cbn; try done || lia.
    apply rtc_once. exists i, prev, cur, rest. done. }
  destruct (has m CMP_STOP || negb mu) eqn:Hstop.
  { exists h1, f1, k1. split_and!; done. }
  apply orb_false_iff in Hstop as [_ Hmu]. apply negb_false_iff in Hmu.
  assert (Hres : forall hs, result hs = NULL) by (intros hs; unfold result; by rewrite Hmu, orb_true_r).
  rewrite Hres in *. cbn [hold app] in *. unfold hold in Hc1. cbn [Z.eqb app] in Hc1.
  specialize (IH (if un then prev else prev ++ [cur]) h1 (l ++ f1) k1 (ps ++ linked_hits [cur]) Hc1 Hk1).
  assert (Hb1 : buckets k1 !! Z.to_nat i = Some ((if un then prev else prev ++ [cur]) ++ rest)).
  { unfold k1. destruct un; [|by rewrite <- app_assoc]. cbn. apply list_lookup_insert_eq. by eapply lookup_lt_Some. }
  specialize (IH Hb1 Hr1). destruct (hits mu f rest) as [[hs kept] stop].
  destruct IH as (h' & freed & k' & E & H1 & H2 & H3 & H4 & H5). exists h', (f1 ++ freed), k'. rewrite !Hres in *.
  split_and!; [by rewrite app_assoc|done|by eapply evolves_on_trans|done| |].
  - pose proof (searched_trans _ _ _ _ _ _ _ _ Hsd H4) as H. unfold left_over, unlinked in *. destruct un; [exact H|].
    by rewrite <- app_assoc in H.
  - change (cur :: hs) with ([cur] ++ hs). by rewrite linked_hits_app, app_assoc.
Qed.

(** The container after a search: the same, less the entries unlinked. *)
Record narrowed (hs : list bucket_entry) (k k' : ao2_container) : Prop := {
  nr_hash : hash_fn k' = hash_fn k;
  nr_cmp : cmp_fn k' = cmp_fn k;
  nr_n : n_buckets k' = n_buckets k;
  nr_sub : Forall2 sublist (buckets k') (buckets k);
  nr_members : members k ≡ₚ members k' ++ (if un then e_astobj <$> hs else []);
  nr_keep : un = false -> buckets k' = buckets k;
  nr_steps : rtc unlinks k k'
}.

Lemma narrowed_refl k : narrowed [] k k.
Proof.
  split; [done..| | |done|done].
  - reflexivity.
  - destruct un; by rewrite app_nil_r.
Qed.

Lemma narrowed_trans hs1 hs2 k1 k2 k3 : narrowed hs1 k1 k2 -> narrowed hs2 k2 k3 -> narrowed (hs1 ++ hs2) k1 k3.
Proof.
  intros [A1 A2 A3 A4 A5 A6 A7] [B1 B2 B3 B4 B5 B6 B7]. split; try congruence.
  - by transitivity (buckets k2).
  - rewrite A5, B5. destruct un; [|by rewrite !app_nil_r]. rewrite fmap_app, <- app_assoc. f_equiv. apply Permutation_app_comm.
  - intros Hu. rewrite B6, A6; done.
  - by transitivity k2.
Qed.

Lemma narrowed_bucket i b hs kept k k' : 0 <= i -> buckets k !! Z.to_nat i = Some b -> hs ++ kept ≡ₚ b -> sublist kept b ->
  searched i (left_over hs kept b) (unlinked hs) k k' -> narrowed hs k k'.
Proof.
  intros Hi Hb Hp Hs [E1 E2 E3 E4 E5 E6]. unfold left_over in *. split; [done..| | | |done].
  - rewrite E4. rewrite <- (list_insert_id (buckets k) (Z.to_nat i) b Hb) at 2. apply Forall2_insert; [reflexivity|by destruct un].
  - pose proof (members_put_bucket k i b (if un then kept else b) Hi Hb) as H. unfold members in *. rewrite E4. unfold put_bucket in H. cbn in H.
    destruct un; [|rewrite app_nil_r in *; by apply Permutation_app_inv_r in H].
    rewrite <- Hp, fmap_app, app_assoc in H. apply Permutation_app_inv_r in H. by symmetry.
  - intros Hu. rewrite Hu in E4. by rewrite E4, list_insert_id.
Qed.

(** Everything a search establishes when it finds [hs]. *)
Definition search_post (h : gmap Z astobj2) (l : list ptr) (k : ao2_container) (ps : list ptr) (hs : list bucket_entry)
    (res : outcome (ptr * world)) : Prop :=
  exists h' freed k', res = Ret (result hs, mk_world h' (l ++ freed)) /\ counted h' (hold (result hs) ++ held) /\
    evolves_on SS h h' freed /\ has_cont h' c k' /\ narrowed hs k k' /\ results h' (ps ++ linked_hits hs).

Abbreviation cp := (has flags OBJ_POINTER && has flags OBJ_CONTINUE).

(** Where the search may go around, it ends only by returning an object. *)
Context (Hcont : cp = true -> nd = false /\ mu = false /\ forall p, Z.land (Z.lor CMP_MATCH CMP_STOP) (f p) <> CMP_STOP).

Lemma result_nonempty hs : cp = true -> hs <> [] -> (forall e, e ∈ hs -> e_astobj e <> NULL) -> result hs <> NULL.
Proof.
  intros H Hne Hn. destruct (Hcont H) as (E1 & E2 & _). unfold result. rewrite E1, E2. destruct hs as [|e hs]; [done|]. cbn. apply Hn. set_solver.
Qed.

(** One bucket. *)
Lemma step_spec h l k ps i b : counted h held -> has_cont h c k -> results h ps -> 0 <= i -> buckets k !! Z.to_nat i = Some b ->
  let '(hs, kept, stop) := hits mu f b in
  exists h' freed k',
    (let* k := get_container (mk_world h l) c in
     let* b := bucket_at k i in
     scan_bucket ref c flags cb multi link_ok i [] b NULL (mk_world h l)) = Ret (stop, result hs, mk_world h' (l ++ freed)) /\
    counted h' (hold (result hs) ++ held) /\ evolves_on SS h h' freed /\ has_cont h' c k' /\ narrowed hs k k' /\
    results h' (ps ++ linked_hits hs) /\ buckets k' = <[Z.to_nat i := left_over hs kept b]> (buckets k) /\
    (stop = false -> forall hs', result (hs ++ hs') = result hs' /\ result hs = NULL) /\ (stop = true -> cp = true -> result hs <> NULL).
Proof.
  intros Hc Hhc Hps Hi Hb. pose proof (scan_spec i Hi b [] h l k ps Hc Hhc Hb Hps) as H. pose proof (hits_facts mu f b) as Hf.
  destruct (hits mu f b) as [[hs kept] stop]. destruct Hf as (F1 & F2 & F3 & F4). destruct H as (h' & freed & k' & E & H1 & H2 & H3 & H4 & H5).
  exists h', freed, k'. cbn [app] in H4.
  assert (Hget : get_container (mk_world h l) c = Ret k) by (destruct Hhc as (o & ? & ?); by eapply get_container_live).
  split_and!; try done.
  - rewrite Hget. cbn [obind]. by rewrite (bucket_at_ok k i b Hi Hb).
  - by eapply narrowed_bucket.
  - by apply sd_buckets in H4.
  - intros Hs hs'. unfold result. destruct (nd || mu) eqn:E1; [done|]. apply orb_false_iff in E1 as [_ Emu]. by rewrite (F3 Hs Emu).
  - intros Hs Hcp. apply result_nonempty; [done|apply F4; [done|by apply Hcont]|].
    intros e He. assert (Hlive : e_astobj e ∈ held ++ all_refs h).
    { destruct Hhc as (o & Ho & Hk). apply elem_of_app. right. rewrite (all_refs_delete h c o Ho). apply elem_of_app. left.
      unfold refs_of. rewrite Hk. apply list_elem_of_fmap. exists e. split; [done|]. apply list_elem_of_In, in_concat. exists b.
      split; [by eapply list_elem_of_In, list_elem_of_lookup_2|]. apply list_elem_of_In. rewrite <- F1. set_solver. }
    destruct (ct_live _ _ Hc _ Hlive) as [o Ho]. by apply (ct_wf _ _ Hc _ o).
Qed.

Lemma post_done h l k ps : counted h held -> has_cont h c k -> results h ps -> search_post h l k ps [] (Ret (NULL, mk_world h l)).
Proof.
  intros Hc Hk Hps. assert (E : result [] = NULL) by (unfold result; by destruct (nd || mu)). exists h, [], k.
  rewrite E, linked_hits_nil, !app_nil_r. unfold hold. cbn. split_and!; [done|done|apply evolves_on_refl|done|apply narrowed_refl|done].
Qed.

Lemma post_step h l k ps hs h1 f1 k1 hs2 res :
  (forall hs', result (hs ++ hs') = result hs' /\ result hs = NULL) -> evolves_on SS h h1 f1 -> narrowed hs k k1 ->
  search_post h1 (l ++ f1) k1 (ps ++ linked_hits hs) hs2 res -> search_post h l k ps (hs ++ hs2) res.
Proof.
  intros Hr Hev Hn (h2 & f2 & k2 & -> & H1 & H2 & H3 & H4 & H5). exists h2, (f1 ++ f2), k2.
  rewrite (proj1 (Hr hs2)), linked_hits_app, !app_assoc.
  split_and!; [done|done|exact (evolves_on_trans SS h h1 h2 f1 f2 Hev H2)|done|by eapply narrowed_trans|done].
Qed.

Abbreviation loop := (bucket_loop ref c flags cb multi link_ok).

Lemma loop_straight start fuel : forall i last h l k ps n, counted h held -> has_cont h c k -> results h ps ->
  n = n_buckets k -> 0 <= i -> last <= n -> (cp = true -> last < n) -> (Z.to_nat (last - i) + 1 < fuel)%nat ->
  search_post h l k ps (matched mu f (concat (take (Z.to_nat (last - i)) (drop (Z.to_nat i) (buckets k)))))
    (loop fuel start n i last NULL (mk_world h l)).
Proof.
  induction fuel as [|fuel IH]; intros i last h l k ps n Hc Hhc Hps Hn Hi Hl Hcp Hf; [lia|]. cbn [bucket_loop].
  destruct (has_cont_wf h held c k Hc Hhc) as [Hw _].
  destruct (Z.ltb_spec i last) as [Hlt|Hge]; cbn [negb].
  2:{ replace (Z.to_nat (last - i)) with 0%nat by lia. by apply post_done. }
  destruct (bucket_lookup k i Hw ltac:(lia)) as [b Hb]. pose proof (step_spec h l k ps i b Hc Hhc Hps Hi Hb) as H.
  rewrite (drop_S (buckets k) b (Z.to_nat i) Hb). replace (Z.to_nat (last - i)) with (S (Z.to_nat (last - (i + 1)))) by lia.
  cbn [take concat]. rewrite matched_app. unfold matched at 1.
  assert (Hget : get_container (mk_world h l) c = Ret k) by (destruct Hhc as (o & ? & ?); by eapply get_container_live).
  rewrite Hget in *. cbn [obind] in *. rewrite (bucket_at_ok k i b Hi Hb) in *. cbn [obind] in *.
  destruct (hits mu f b) as [[hs kept] stop]. destruct H as (h1 & f1 & k1 & -> & H1 & H2 & H3 & H4 & H5 & H6 & H7 & H8). cbn [obind fst snd].
  destruct stop.
  - rewrite app_nil_r. destruct (Z.eqb_spec (result hs) NULL) as [E|E]; cbn [negb].
    2:{ exists h1, f1, k1. done. }
    assert (Hncp : cp = false) by (destruct cp; [by destruct (H8 eq_refl eq_refl)|done]).
    rewrite <- andb_assoc, Hncp, andb_false_r. destruct fuel as [|fuel']; [lia|]. cbn [bucket_loop].
    rewrite (proj2 (Z.ltb_ge _ _)) by lia. cbn [negb]. exists h1, f1, k1. by rewrite E in *.
  - destruct (H7 eq_refl []) as [_ E]. rewrite E in H1 |- *. cbn [Z.eqb negb]. unfold hold in H1. cbn [Z.eqb app] in H1.
    assert (Hnw : (i =? n - 1) && has flags OBJ_POINTER && has flags OBJ_CONTINUE = false).
    { rewrite <- andb_assoc. destruct cp eqn:Ecp; [|by rewrite andb_false_r]. specialize (Hcp eq_refl).
      by rewrite (proj2 (Z.eqb_neq _ _)) by lia. }
    rewrite Hnw. eapply post_step; [by apply H7|done|done|].
    specialize (IH (i + 1) last h1 (l ++ f1) k1 (ps ++ linked_hits hs) n H1 H3 H5).
    rewrite H6, drop_insert_lt in IH by lia. replace (Z.to_nat (i + 1)) with (S (Z.to_nat i)) in IH by lia.
    apply IH; [by rewrite (nr_n _ _ _ H4)|lia|lia|done|lia].
Qed.

Lemma loop_around start fuel : cp = true -> forall i h l k ps n, counted h held -> has_cont h c k -> results h ps ->
  n = n_buckets k -> 0 <= start <= i -> i < n -> (Z.to_nat (n - i) + Z.to_nat start + 1 < fuel)%nat ->
  search_post h l k ps (matched mu f (concat (drop (Z.to_nat i) (buckets k) ++ take (Z.to_nat start) (buckets k))))
    (loop fuel start n i n NULL (mk_world h l)).
Proof.
  intros Hcp. induction fuel as [|fuel IH]; intros i h l k ps n Hc Hhc Hps Hn Hi Hl Hf; [lia|]. cbn [bucket_loop].
  destruct (has_cont_wf h held c k Hc Hhc) as [Hw _]. pose proof (cw_len k Hw) as Hlen.
  rewrite (proj2 (Z.ltb_lt _ _)) by lia. cbn [negb].
  destruct (bucket_lookup k i Hw ltac:(lia)) as [b Hb]. pose proof (step_spec h l k ps i b Hc Hhc Hps ltac:(lia) Hb) as H.
  rewrite (drop_S (buckets k) b (Z.to_nat i) Hb). cbn [app concat]. rewrite matched_app. unfold matched at 1.
  assert (Hget : get_container (mk_world h l) c = Ret k) by (destruct Hhc as (o & ? & ?); by eapply get_container_live).
  rewrite Hget in *. cbn [obind] in *. rewrite (bucket_at_ok k i b) in * by (done || lia). cbn [obind] in *.
  destruct (hits mu f b) as [[hs kept] stop]. destruct H as (h1 & f1 & k1 & -> & H1 & H2 & H3 & H4 & H5 & H6 & H7 & H8). cbn [obind fst snd].
  destruct stop.
  { rewrite app_nil_r. rewrite (proj2 (Z.eqb_neq _ _) (H8 eq_refl Hcp)). cbn [negb]. by exists h1, f1, k1. }
  destruct (H7 eq_refl []) as [_ E]. rewrite E in H1 |- *. cbn [Z.eqb negb]. unfold hold in H1. cbn [Z.eqb app] in H1.
  eapply post_step; [by apply H7|done|done|]. rewrite <- andb_assoc, Hcp, andb_true_r.
  destruct (Z.eqb_spec i (n - 1)) as [Elast|Elast].
  - rewrite drop_ge by lia. cbn [app]. change (-1 + 1) with 0.
    pose proof (loop_straight start fuel 0 start h1 (l ++ f1) k1 (ps ++ linked_hits hs) n H1 H3 H5) as Hs.
    rewrite H6, drop_0, take_insert_ge in Hs by lia. rewrite Z.sub_0_r in Hs.
    apply Hs; [by rewrite (nr_n _ _ _ H4)|lia|lia|lia|lia].
  - specialize (IH (i + 1) h1 (l ++ f1) k1 (ps ++ linked_hits hs) n H1 H3 H5).
    rewrite H6, drop_insert_lt, take_insert_ge in IH by lia. replace (Z.to_nat (i + 1)) with (S (Z.to_nat i)) in IH by lia.
    apply IH; [by rewrite (nr_n _ _ _ H4)|lia|lia|lia].
Qed.

(** The entries a callback visits, in order: the bucket of the hash, and with
    [OBJ_CONTINUE] those after it and before it; without a hash, all. *)
Definition visited (k : ao2_container) (arg : ptr) : list bucket_entry :=
  let start := Z.rem (hash_fn k arg (Z.land flags OBJ_POINTER)) (n_buckets k) in
  concat (if has flags OBJ_POINTER && (0 <=? start) then
            if has flags OBJ_CONTINUE then drop (Z.to_nat start) (buckets k) ++ take (Z.to_nat start) (buckets k)
            else take 1 (drop (Z.to_nat start) (buckets k))
          else buckets k).

Definition loop_from (k : ao2_container) (arg : ptr) (w : world) : outcome (ptr * world) :=
  let n := n_buckets k in
  let start := if has flags OBJ_POINTER then Z.rem (hash_fn k arg (Z.land flags OBJ_POINTER)) n else -1 in
  let '(start, last) := if start <? 0 then (0, n) else if has flags OBJ_CONTINUE then (start, n) else (start, start + 1) in
  loop (Z.to_nat (2 * n + 2)) start n start last NULL w.

Lemma loop_from_spec h l k ps arg : counted h held -> has_cont h c k -> results h ps ->
  search_post h l k ps (matched mu f (visited k arg)) (loop_from k arg (mk_world h l)).
Proof.
  intros Hc Hhc Hps. destruct (has_cont_wf h held c k Hc Hhc) as [Hw _]. pose proof (cw_len k Hw) as Hlen. pose proof (cw_n k Hw) as Hn.
  pose proof loop_around as LA. pose proof loop_straight as LS.
  unfold loop_from, visited. set (s := Z.rem _ (n_buckets k)).
  assert (Hall : cp = false -> search_post h l k ps (matched mu f (concat (buckets k)))
    (loop (Z.to_nat (2 * n_buckets k + 2)) 0 (n_buckets k) 0 (n_buckets k) NULL (mk_world h l))).
  { intros Hcp. pose proof (LS 0 (Z.to_nat (2 * n_buckets k + 2)) 0 (n_buckets k) h l k ps _ Hc Hhc Hps eq_refl) as H.
    rewrite drop_0, take_ge in H by lia. apply H; [done|done|by rewrite Hcp|lia]. }
  destruct (has flags OBJ_POINTER) eqn:Hp; cbn [andb] in *; [|by apply Hall].
  assert (Hs : s < n_buckets k) by (unfold s; pose proof (Z.rem_bound_abs (hash_fn k arg (Z.land flags OBJ_POINTER)) (n_buckets k)); lia).
  destruct (Z.ltb_spec s 0) as [Hneg|Hpos].
  - rewrite (proj2 (Z.leb_gt _ _)) by lia. destruct (has flags OBJ_CONTINUE) eqn:Hcn; [|by apply Hall].
    pose proof (LA 0 (Z.to_nat (2 * n_buckets k + 2)) eq_refl 0 h l k ps _ Hc Hhc Hps eq_refl) as H. rewrite drop_0, take_0, app_nil_r in H. apply H; lia.
  - rewrite (proj2 (Z.leb_le _ _)) by lia. destruct (has flags OBJ_CONTINUE) eqn:Hcn.
    + pose proof (LA s (Z.to_nat (2 * n_buckets k + 2)) eq_refl s h l k ps _ Hc Hhc Hps eq_refl) as H. apply H; lia.
    + pose proof (LS s (Z.to_nat (2 * n_buckets k + 2)) s (s + 1) h l k ps _ Hc Hhc Hps eq_refl) as H.
      replace (Z.to_nat (s + 1 - s)) with 1%nat in H by lia. apply H; [lia|lia|done|lia].
Qed.
End search.

(** ** Allocation *)

Lemma counted_alloc h held p o : h !! p = None -> p <> NULL -> obj_wf o -> ref_counter o = 1 ->
  counted h (refs_of o ++ held) -> counted (<[p := o]> h) (p :: held).
Proof.
  intros Hp Hp0 Hw Hr [Hc Hl Hwf].
  assert (Hnone : p ∉ (refs_of o ++ held) ++ all_refs h) by (intros Hin; destruct (Hl p Hin); congruence).
  assert (Hcnt : forall q, count_occ Z.eq_dec ((p :: held) ++ all_refs (<[p := o]> h)) q =
    count_occ Z.eq_dec (p :: (refs_of o ++ held) ++ all_refs h) q).
  { intros q. apply occ_perm. rewrite (all_refs_insert h p o Hp). cbn [app]. constructor. rewrite !app_assoc. f_equiv.
    apply Permutation_app_comm. }
  split.
  - intros q oq. rewrite Hcnt. destruct (decide (q = p)) as [->|Hne].
    + rewrite lookup_insert_eq, count_occ_cons_eq by done. intros [= <-]. rewrite Hr.
      rewrite (proj1 (count_occ_not_In Z.eq_dec _ p)); [lia|]. by rewrite <- list_elem_of_In.
    + rewrite lookup_insert_ne, count_occ_cons_neq by done. apply Hc.
  - intros q Hq. apply count_elem in Hq. rewrite Hcnt in Hq. destruct (decide (q = p)) as [->|Hne]; [by rewrite lookup_insert_eq|].
    rewrite count_occ_cons_neq in Hq by done. rewrite lookup_insert_ne by done. by apply Hl, count_elem.
  - intros q oq. destruct (decide (q = p)) as [->|Hne].
    + rewrite lookup_insert_eq. by intros [= <-].
    + rewrite lookup_insert_ne by done. apply Hwf.
Qed.

Definition hash_range (hash : option (ptr -> Z -> Z)) : Prop :=
  match hash with Some h => forall p, - 2 ^ 31 < h p OBJ_POINTER < 2 ^ 31 | None => True end.

Lemma container_alloc_wf n hash cmp : 0 < n -> hash_range hash -> container_wf (internal_ao2_container_alloc n hash cmp) /\
  members (internal_ao2_container_alloc n hash cmp) = [].
Proof.
  intros Hn Hh. unfold internal_ao2_container_alloc. set (m := match hash with Some _ => n | None => 1 end).
  assert (Hm : 0 < m) by (unfold m; destruct hash; lia).
  assert (Hmem : forall j, concat (replicate j ([] : list bucket_entry)) = []) by (induction j; done).
  split; [|unfold members; cbn; by rewrite Hmem]. split; cbn; [by destruct hash|done| |unfold members; cbn; by rewrite Hmem|].
  - rewrite length_replicate. lia.
  - intros i b e Hb He. apply lookup_replicate in Hb as [-> _]. by apply elem_of_nil in He.
Qed.

Lemma container_alloc_spec h held l mem n hash cmp : counted h held -> h !! mem = None -> mem <> NULL -> 0 < n ->
  hash_range hash -> exists h', ao2_container_alloc mem n hash cmp (mk_world h l) = (mem, mk_world h' l) /\ counted h' (mem :: held) /\
    has_cont h' mem (internal_ao2_container_alloc n hash cmp) /\ (forall q, q <> mem -> h' !! q = h !! q).
Proof.
  intros Hc Hm Hm0 Hn Hh. destruct (container_alloc_wf n hash cmp Hn Hh) as [Hw He].
  unfold ao2_container_alloc, internal_ao2_alloc. rewrite (proj2 (Z.eqb_neq _ _) Hm0). eexists. split; [done|]. split_and!.
  - apply counted_alloc; [done|done|done|done|]. unfold refs_of. cbn [cont]. by rewrite He.
  - eexists. cbn. by rewrite lookup_insert_eq.
  - intros q Hq. cbn. by apply lookup_insert_ne.
Qed.

(** ** Callbacks *)

Lemma land_bit_value flags k : 0 <= k -> Z.land flags (2 ^ k) = if has flags (2 ^ k) then 2 ^ k else 0.
Proof.
  intros Hk. unfold has, ctrue. rewrite <- Z.shiftl_1_l, land_bit, Z.shiftl_1_l by done. rewrite negb_involutive.
  apply Z.bits_inj'. intros j Hj. rewrite Z.land_spec. destruct (Z.eq_dec k j) as [<-|Hne].
  - rewrite Z.pow2_bits_true, andb_true_r by done. destruct (Z.testbit flags k); [by rewrite Z.pow2_bits_true|by rewrite Z.bits_0].
  - rewrite Z.pow2_bits_false, andb_false_r by done. destruct (Z.testbit flags k); [by rewrite Z.pow2_bits_false|by rewrite Z.bits_0].
Qed.

Lemma wants_iterator flags :
  (Z.land flags (Z.lor OBJ_MULTIPLE OBJ_NODATA) =? OBJ_MULTIPLE) = has flags OBJ_MULTIPLE && negb (has flags OBJ_NODATA).
Proof.
  rewrite Z.land_lor_distr_r. change OBJ_MULTIPLE with (2 ^ 2). change OBJ_NODATA with (2 ^ 1).
  rewrite !land_bit_value by done. by destruct (has flags (2 ^ 2)), (has flags (2 ^ 1)).
Qed.

(** The references the caller of a callback gets. *)
Definition returned (r : cb_result) : list ptr := match r with Obj p => hold p | Iter a => [it_c a] end.

Definition results_iterator (m : ptr) : ao2_iterator :=
  mk_iter m (Z.lor AO2_ITERATOR_DONTLOCK (Z.lor AO2_ITERATOR_UNLINK AO2_ITERATOR_MALLOCD)) 0 0 None 0.

(** Where a search may go around, it must end only by returning an object. *)
Definition ends_by_result (flags : Z) (f : ptr -> Z) : Prop :=
  has flags OBJ_POINTER && has flags OBJ_CONTINUE = true ->
  has flags OBJ_NODATA = false /\ has flags OBJ_MULTIPLE = false /\ forall p, Z.land (Z.lor CMP_MATCH CMP_STOP) (f p) <> CMP_STOP.

Definition pure (f : ptr -> Z) : callback := fun p w => Ret (f p, w).

Lemma callback_single h held l mem ok link_ok c k flags f arg : counted h held -> c ∈ held -> has_cont h c k ->
  ends_by_result flags f -> has flags OBJ_MULTIPLE && negb (has flags OBJ_NODATA) = false ->
  let hs := matched (has flags OBJ_MULTIPLE) f (visited flags k arg) in
  exists h' freed k', ao2_callback mem ok link_ok c flags (Some (pure f)) arg (mk_world h l) =
      Ret (Obj (result flags hs), mk_world h' (l ++ freed)) /\
    counted h' (hold (result flags hs) ++ held) /\ evolves_on [c] h h' freed /\ has_cont h' c k' /\ narrowed flags hs k k'.
Proof.
  intros Hc Hin Hhc Hend Hone hs. destruct (has_cont_wf h held c k Hc Hhc) as [_ Hc0].
  assert (Hmu : has flags OBJ_NODATA || has flags OBJ_MULTIPLE = has flags OBJ_NODATA).
  { destruct (has flags OBJ_MULTIPLE), (has flags OBJ_NODATA); done. }
  destruct (loop_from_spec flags f c None link_ok held Hin Hmu Hend h l k [] arg Hc Hhc I) as (h' & freed & k' & E & H1 & H2 & H3 & H4 & _).
  exists h', freed, k'. split; [|done].
  unfold ao2_callback, internal_ao2_callback, INTERNAL_OBJ. destruct Hhc as (o & Ho & Hk). cbn [heap].
  rewrite (proj2 (Z.eqb_neq _ _) Hc0), Ho. cbn [oaccess obind]. rewrite wants_iterator, Hone.
  rewrite (get_container_live h l c o k Ho Hk). cbn [obind]. unfold loop_from, pure in *.
  destruct (if _ <? 0 then _ else _) as [start last]. rewrite E. done.
Qed.

Lemma callback_multiple h held l mem link_ok c k flags f arg : counted h held -> c ∈ held -> has_cont h c k ->
  ends_by_result flags f -> has flags OBJ_MULTIPLE && negb (has flags OBJ_NODATA) = true -> h !! mem = None -> mem <> NULL ->
  let hs := matched (has flags OBJ_MULTIPLE) f (visited flags k arg) in
  exists h' freed k' km, ao2_callback mem true link_ok c flags (Some (pure f)) arg (mk_world h l) =
      Ret (Iter (results_iterator mem), mk_world h' (l ++ freed)) /\
    counted h' (mem :: held) /\ has_cont h' c k' /\ narrowed flags hs k k' /\
    has_cont h' mem km /\ n_buckets km = 1 /\ members km = filter (fun p => link_ok p = true) (e_astobj <$> hs).
Proof.
  intros Hc Hin Hhc Hend Hmany Hmem Hmem0 hs. destruct (has_cont_wf h held c k Hc Hhc) as [_ Hc0].
  apply andb_true_iff in Hmany as Hmn. destruct Hmn as [Hmu Hnd]. apply negb_true_iff in Hnd.
  destruct (container_alloc_spec h held l mem 1 None None Hc Hmem Hmem0 eq_refl I) as (h1 & E1 & Hc1 & Hm1 & Hsame).
  assert (Hcm : c <> mem) by (intros ->; destruct Hhc as (? & ? & _); congruence).
  assert (Hhc1 : has_cont h1 c k) by (destruct Hhc as (o & Ho & Hk); exists o; by rewrite Hsame).
  assert (Hside : mem ∈ mem :: held /\ mem <> c /\ has flags OBJ_NODATA = false /\ has flags OBJ_MULTIPLE = true) by (split_and!; [set_solver|done..]).
  destruct (loop_from_spec flags f c (Some mem) link_ok (mem :: held) ltac:(set_solver) Hside Hend h1 l k [] arg Hc1 Hhc1)
    as (h2 & freed & k' & E2 & H1 & H2 & H3 & H4 & (km & Hkm & Hz & Hn & Hmem2)).
  { exists (internal_ao2_container_alloc 1 None None). split_and!; try done. }
  assert (Hres : forall es, result flags es = NULL) by (intros es; unfold result; by rewrite Hmu, orb_true_r).
  rewrite Hres in *. unfold hold in H1. cbn [Z.eqb app] in H1.
  destruct Hkm as (om & Hom & Hkm). destruct (ref_add h2 (mem :: held) mem om (l ++ freed) H1 Hom) as (E3 & Hc3 & Hev3).
  set (h3 := <[mem := _]> h2) in *. destruct (ref_drop h3 (mem :: held) mem (l ++ freed) Hc3) as (r & h4 & f4 & E4 & Hc4 & Hev4).
  assert (Hkeep : forall q kq, q ∈ mem :: held -> has_cont h2 q kq -> has_cont h4 q kq).
  { intros q kq Hq Hh. eapply (has_cont_keeps []); [by apply evolves_evolves_on|exact Hc4|done|set_solver|].
    eapply (has_cont_keeps []); [by apply evolves_evolves_on|exact Hc3|set_solver|set_solver|done]. }
  exists h4, (freed ++ f4), k', km. split_and!; [|done|apply Hkeep; [set_solver|done]|done|apply Hkeep; [set_solver|by exists om]|done|done].
  unfold ao2_callback, internal_ao2_callback, INTERNAL_OBJ. destruct Hhc as (o & Ho & Hk). cbn [heap].
  rewrite (proj2 (Z.eqb_neq _ _) Hc0), Ho. cbn [oaccess obind]. rewrite wants_iterator, Hmany, E1, (proj2 (Z.eqb_neq _ _) Hmem0).
  cbn [negb]. destruct Hhc1 as (o1 & Ho1 & Hk1). rewrite (get_container_live h1 l c o1 k Ho1 Hk1). cbn [obind]. unfold loop_from, pure in *.
  destruct (if _ <? 0 then _ else _) as [start last]. rewrite E2. cbn [obind]. unfold ao2_iterator_init.
  rewrite E3. cbn [obind]. rewrite E4. cbn [obind]. by rewrite app_assoc.
Qed.
