(* ===== verification/Astobj2Clients.v ===== *)
(** * Clients of reference counted objects

    Sequences of calls of [main/astobj2.c] (Astobj2.v) by clients that follow the
    protocol: who passes an object holds a reference to it, and it once.  The
    theorems are about every such sequence. *)

From Stdlib Require Import ZArith Lia.
From stdpp Require Import base list gmap numbers.
From S2P Require Import Prelude Astobj2 Astobj2Search.

#[local] Open Scope Z_scope.
#[local] Open Scope record_scope.
#[local] Open Scope outcome_scope.

(** The world, and the references held by all clients together. *)
Definition state : Type := world * list ptr.

(** Memory for a new object: none, or an address that is free. *)
Definition fresh (w : world) (mem : ptr) : Prop := mem = NULL \/ heap w !! mem = None.

(** What the data of a user's object holds. *)
Definition set_user_refs (p : ptr) (refs : list ptr) (w : world) : world :=
  w <| heap ::= alter (fun o => o <| user_refs := refs |>) p |>.

(** One call: what a client must have, and the outcome of the code.  Who holds an
    object may also move references between its own hands and the data of the object
    (when its destructor drops them). *)
Inductive client_step : state -> outcome state -> Prop :=
  | step_alloc w held mem user : fresh w mem ->
      client_step (w, held) (let '(p, w) := ao2_alloc mem user w in Ret (w, hold p ++ held))
  | step_store w held held' p o refs : p ∈ held -> p ∈ held' -> heap w !! p = Some o -> destructor_fn o = UserDestructor ->
      held ++ user_refs o ≡ₚ held' ++ refs ->
      client_step (w, held) (Ret (set_user_refs p refs w, held'))
  | step_container w held mem n hash cmp : fresh w mem -> 0 < n -> hash_range hash ->
      client_step (w, held) (let '(p, w) := ao2_container_alloc mem n hash cmp w in Ret (w, hold p ++ held))
  | step_ref w held p : p ∈ held ->
      client_step (w, held) (let* (_, w) := ao2_ref p 1 w in Ret (w, p :: held))
  | step_unref w held held' p : held ≡ₚ p :: held' ->
      client_step (w, held) (let* (_, w) := ao2_ref p (-1) w in Ret (w, held'))
  | step_link w held ok c k p : c ∈ held -> p ∈ held -> has_cont (heap w) c k ->
      client_step (w, held) (let* (_, w) := ao2_link (ao2_ref) ok c p w in Ret (w, held))
  | step_unlink w held c k p : c ∈ held -> p ∈ held -> has_cont (heap w) c k ->
      client_step (w, held) (let* w := ao2_unlink c p w in Ret (w, held))
  | step_callback w held mem ok link_ok c k flags f arg : c ∈ held -> has_cont (heap w) c k -> fresh w mem -> ends_by_result flags f ->
      client_step (w, held)
        (let* (r, w) := ao2_callback mem ok link_ok c flags (Some (pure f)) arg w in Ret (w, returned r ++ held)).

Definition initial : state := (mk_world ∅ [], []).

Inductive reachable : state -> Prop :=
  | reach_initial : reachable initial
  | reach_step s s' : reachable s -> client_step s (Ret s') -> reachable s'.

Definition good (s : state) : Prop := counted (heap s.1) s.2.

Lemma initial_good : good initial.
Proof. split; cbn; [by intros p o H; rewrite lookup_empty in H|by intros p ?%elem_of_nil|by intros p o H; rewrite lookup_empty in H]. Qed.

Lemma callback_good w held mem ok link_ok c k flags f arg : counted (heap w) held -> c ∈ held -> has_cont (heap w) c k ->
  fresh w mem -> ends_by_result flags f ->
  exists r w', ao2_callback mem ok link_ok c flags (Some (pure f)) arg w = Ret (r, w') /\
    counted (heap w') (returned r ++ held).
Proof.
  intros Hc Hin Hk Hm Hend. destruct w as [h l]; cbn [heap] in *. cbn [heap] in *.
  destruct (has flags OBJ_MULTIPLE && negb (has flags OBJ_NODATA)) eqn:Hmany.
  2:{ destruct (callback_single h held l mem ok link_ok c k flags f arg Hc Hin Hk Hend Hmany) as (h' & freed & k' & -> & H & _).
      eexists _, _. split; [done|exact H]. }
  destruct (Z.eq_dec mem NULL) as [->|Hm0].
  { exists (Obj NULL), (mk_world h l). split; [|exact Hc]. unfold ao2_callback, internal_ao2_callback, INTERNAL_OBJ. cbn [heap].
    destruct (has_cont_wf h held c k Hc Hk) as [_ Hc0]. destruct Hk as (o & Ho & _).
    by rewrite (proj2 (Z.eqb_neq _ _) Hc0), Ho; cbn [oaccess obind]; rewrite wants_iterator, Hmany. }
  assert (Hf : h !! mem = None) by (by destruct Hm). destruct ok.
  - destruct (callback_multiple h held l mem link_ok c k flags f arg Hc Hin Hk Hend Hmany Hf Hm0) as (h' & freed & k' & km & -> & H & _).
    eexists _, _. split; [done|exact H].
  - destruct (container_alloc_spec h held l mem 1 None None Hc Hf Hm0 eq_refl I) as (h1 & E1 & Hc1 & _ & _).
    destruct (ref_drop h1 held mem l Hc1) as (r & h2 & freed & E2 & Hc2 & _).
    exists (Obj NULL), (mk_world h2 (l ++ freed)). split; [|exact Hc2]. unfold ao2_callback, internal_ao2_callback, INTERNAL_OBJ. cbn [heap].
    destruct (has_cont_wf h held c k Hc Hk) as [_ Hc0]. destruct Hk as (o & Ho & _).
    rewrite (proj2 (Z.eqb_neq _ _) Hc0), Ho; cbn [oaccess obind]; rewrite wants_iterator, Hmany, E1, (proj2 (Z.eqb_neq _ _) Hm0).
    cbn [negb]. by rewrite E2.
Qed.

Lemma step_good s r : good s -> client_step s r -> exists s', r = Ret s' /\ good s'.
Proof.
  intros Hg Hs. unfold good in *. destruct Hs as [w held mem user Hm|w held held' p o refs Hin _ Ho Hu Hp|w held mem n hash cmp Hm Hn Hh
    |w held p Hin|w held held' p Hp|w held ok c k p Hc Hin Hk|w held c k p Hc Hin Hk|w held mem ok link_ok c k flags f arg Hc Hk Hm Hend];
    cbn [fst snd] in Hg.
  - unfold ao2_alloc, internal_ao2_alloc. destruct (Z.eqb_spec mem NULL) as [->|Hm0]; [by eexists|].
    eexists. split; [done|]. cbn. unfold hold. rewrite (proj2 (Z.eqb_neq _ _) Hm0).
    apply counted_alloc; [by destruct Hm|done|by destruct user|done|]. by destruct user.
  - eexists. split; [done|]. cbn. unfold setter. cbn. rewrite (alter_some (heap w) p o _ Ho).
    destruct (ct_wf _ _ Hg p o Ho) as [Hw _]. unfold obj_wf in Hw.
    assert (Hcont : cont o = None) by (destruct (cont o); [destruct Hw; congruence|done]). rewrite Hcont in Hw.
    apply (counted_put (heap w) p o _ held held'); [done|done| | |done].
    + unfold obj_wf. cbn. by rewrite Hcont.
    + unfold refs_of. cbn. by rewrite Hcont, Hu.
  - destruct (Z.eq_dec mem NULL) as [->|Hm0]; [by eexists|]. destruct w as [h l].
    destruct (container_alloc_spec h held l mem n hash cmp Hg ltac:(by destruct Hm) Hm0 Hn Hh) as (h' & -> & Hc & _).
    eexists. split; [done|]. cbn. unfold hold. by rewrite (proj2 (Z.eqb_neq _ _) Hm0).
  - destruct w as [h l]; cbn [heap] in *. destruct (ct_live _ _ Hg p ltac:(set_solver)) as [o Ho].
    destruct (ref_add h held p o l Hg Ho) as (-> & Hc & _). eexists. split; [done|exact Hc].
  - destruct w as [h l]; cbn [heap] in *. destruct (ref_drop h held' p l) as (r & h' & freed & -> & Hc & _); [by rewrite <- Hp|].
    eexists. split; [done|exact Hc].
  - destruct w as [h l]; cbn [heap] in *. destruct (ct_live _ _ Hg p ltac:(set_solver)) as [op Hop]. destruct (has_cont_wf h held c k Hg Hk) as [Hw _].
    destruct Hk as (oc & Hoc & Hkc).
    destruct (link_spec h held l ok c p oc op k Hg Hoc Hkc Hop (cw_hash_ok k Hw)) as (h' & -> & Hc' & _). eexists. split; [done|exact Hc'].
  - unfold ao2_unlink. destruct w as [h l]; cbn [heap] in *. destruct (ct_live _ _ Hg p ltac:(set_solver)) as [op Hop].
    destruct (ct_wf _ _ Hg p op Hop) as [_ Hp0]. unfold INTERNAL_OBJ. cbn [heap]. rewrite (proj2 (Z.eqb_neq _ _) Hp0), Hop. cbn [oaccess obind].
    set (f q := if q =? p then Z.lor CMP_MATCH CMP_STOP else 0). change (ao2_match_by_addr p) with (pure f).
    destruct (callback_good (mk_world h l) held NULL false (fun _ => false) c k (Z.lor OBJ_UNLINK (Z.lor OBJ_POINTER OBJ_NODATA)) f p Hg Hc Hk)
      as (r & w' & E & Hc'); [by left|by intros ?|].
    assert (Hr : returned r = []).
    { destruct (callback_single h held l NULL false (fun _ => false) c k (Z.lor OBJ_UNLINK (Z.lor OBJ_POINTER OBJ_NODATA)) f p Hg Hc Hk)
        as (h2 & f2 & k2 & E2 & _); [by intros ?|done|]. rewrite E in E2. by injection E2 as -> ->. }
    rewrite E. cbn [obind]. rewrite Hr in Hc'. eexists. split; [done|exact Hc'].
  - destruct (callback_good w held mem ok link_ok c k flags f arg Hg Hc Hk Hm Hend) as (r & w' & -> & Hc'). eexists. split; [done|exact Hc'].
Qed.

Lemma reachable_good s : reachable s -> good s.
Proof.
  induction 1 as [|s s' _ IH Hs]; [apply initial_good|]. destruct (step_good s _ IH Hs) as (s1 & E & H). by injection E as ->.
Qed.

(** ** Finding *)

Lemma match_bits v : let m := Z.land (Z.lor CMP_MATCH CMP_STOP) v in m <> CMP_STOP -> has v CMP_MATCH = negb (m =? 0).
Proof.
  intros m Hm. subst m. unfold has, ctrue. change (Z.lor CMP_MATCH CMP_STOP) with (Z.ones 2) in *. change CMP_MATCH with (Z.ones 1).
  rewrite (Z.land_comm (Z.ones 2)), Z.land_ones in * by done. rewrite Z.land_ones by done. change (2 ^ 2) with 4 in *. change (2 ^ 1) with 2.
  f_equal. apply Bool.eq_iff_eq_true. rewrite !Z.eqb_eq. unfold CMP_STOP in Hm.
  pose proof (Z.div_mod v 4 ltac:(done)). pose proof (Z.mod_pos_bound v 4 eq_refl).
  pose proof (Z.div_mod v 2 ltac:(done)). pose proof (Z.mod_pos_bound v 2 eq_refl). lia.
Qed.

(** A search for one object gives the first that matches. *)
Lemma matched_first f l : (forall p, Z.land (Z.lor CMP_MATCH CMP_STOP) (f p) <> CMP_STOP) ->
  (matched false f l = [] /\ forall e, e ∈ l -> has (f (e_astobj e)) CMP_MATCH = false) \/
  (exists e, e ∈ l /\ has (f (e_astobj e)) CMP_MATCH = true /\ matched false f l = [e]).
Proof.
  intros Hf. unfold matched. induction l as [|e l IH]; cbn [hits]; [left; split; [done|]; by intros e ?%elem_of_nil|].
  pose proof (match_bits (f (e_astobj e)) (Hf _)) as Hb. specialize (Hf (e_astobj e)). set (m := Z.land _ (f (e_astobj e))) in *.
  rewrite (proj2 (Z.eqb_neq _ _) Hf), orb_true_r. destruct (m =? 0).
  - destruct (hits false f l) as [[hs kept] stop]. cbn [fst] in *. destruct IH as [[-> H]|(e' & H1 & H2 & ->)].
    + left. split; [done|]. intros e' [->|He']%elem_of_cons; [done|by apply H].
    + right. exists e'. split_and!; [set_solver|done|done].
  - right. exists e. split_and!; [set_solver|done|done].
Qed.

(** The objects with the hash of the argument are visited. *)
Lemma visited_hash k arg flags i b e : container_wf k -> has flags OBJ_POINTER = true -> Z.land flags OBJ_POINTER = OBJ_POINTER ->
  has flags OBJ_CONTINUE = false -> buckets k !! i = Some b -> e ∈ b ->
  hash_fn k (e_astobj e) OBJ_POINTER = hash_fn k arg OBJ_POINTER -> e ∈ visited flags k arg.
Proof.
  intros Hw Hp Hl Hc Hb He Hh. pose proof (cw_hash k Hw i b e Hb He) as Hi. pose proof (cw_hash_ok k Hw (e_astobj e)) as Hr.
  pose proof (cw_n k Hw) as Hn. unfold visited. rewrite Hp, Hl, Hc, <- Hh. cbn [andb]. unfold c_abs in Hi.
  set (x := hash_fn k (e_astobj e) OBJ_POINTER) in *. rewrite (proj2 (Z.eqb_neq _ _)) in Hi by lia.
  apply list_elem_of_In, in_concat. exists b. split; [|by apply list_elem_of_In].
  assert (Hin : Z.rem x (n_buckets k) = Z.of_nat i \/ Z.rem x (n_buckets k) < 0).
  { destruct (Z.le_gt_cases 0 x).
    - left. by rewrite Hi, Z.abs_eq.
    - rewrite Z.abs_neq, Z.rem_opp_l in Hi by lia. destruct (Z.eq_dec (Z.rem x (n_buckets k)) 0); lia. }
  destruct (Z.leb_spec 0 (Z.rem x (n_buckets k))) as [Hpos|Hneg].
  - destruct Hin as [->|]; [|lia]. rewrite Nat2Z.id, (drop_S _ b) by done. by left.
  - apply list_elem_of_In. by eapply list_elem_of_lookup_2.
Qed.

Lemma visited_member k arg flags e : e ∈ visited flags k arg -> e_astobj e ∈ members k.
Proof.
  intros He. apply list_elem_of_In, in_concat in He as (b & Hb & He). apply list_elem_of_fmap. exists e. split; [done|].
  apply list_elem_of_In, in_concat. exists b. split; [|done]. destruct (_ && _); [|done]. destruct (has _ _).
  - apply in_app_or in Hb as [Hb|Hb]; apply list_elem_of_In in Hb; apply list_elem_of_In.
    + by eapply subseteq_drop.
    + by eapply subseteq_take.
  - apply list_elem_of_In in Hb. apply list_elem_of_In. eapply subseteq_drop. by eapply subseteq_take.
Qed.

(** ** A search that does not end *)

(** Without a match nothing is done. *)
Lemma scan_no_match flags f c multi link_ok i l kept stop prev ret w : hits (has flags OBJ_MULTIPLE) f l = ([], kept, stop) ->
  scan_bucket ao2_ref c flags (pure f) multi link_ok i prev l ret w = Ret (stop, ret, w).
Proof.
  revert kept stop prev. induction l as [|e l IH]; intros kept stop prev; cbn [hits scan_bucket]; [by intros [= <- <-]|].
  unfold pure at 1. cbn [obind]. destruct (_ =? 0).
  - destruct (hits _ f l) as [[hs k] s] eqn:E. intros [= -> <- <-]. by eapply IH.
  - destruct (_ =? CMP_STOP); [by intros [= <- <-]|]. destruct (_ || _); [done|]. by destruct (hits _ f l) as [[hs k] s].
Qed.

Section endless.
Context (flags : Z) (f : ptr -> Z) (c : ptr) (link_ok : ptr -> bool) (w : world) (k : ao2_container) (multi : option ptr).
Context (Hk : get_container w c = Ret k) (Hflags : has flags OBJ_POINTER && has flags OBJ_CONTINUE = true).

(** Bucket [i] has no match, and the callback ends the search there or not. *)
Definition no_match (i : Z) (stop : bool) : Prop :=
  exists b kept, bucket_at k i = Ret b /\ hits (has flags OBJ_MULTIPLE) f b = ([], kept, stop).

Lemma around_endless fuel j n : 0 <= j < n - 1 -> (forall i, 0 <= i < j -> no_match i false) -> no_match j true ->
  forall i, 0 <= i <= j -> bucket_loop ao2_ref c flags (pure f) multi link_ok fuel (n - 1) n i (n - 1) NULL w = NoFuel.
Proof.
  intros Hj Hbefore Hstop. induction fuel as [|fuel IH]; intros i Hi; [done|]. cbn [bucket_loop].
  rewrite (proj2 (Z.ltb_lt _ _)) by lia. cbn [negb]. rewrite Hk. cbn [obind].
  destruct (Z.eq_dec i j) as [->|Hne].
  - destruct Hstop as (b & kept & Hb & Hh). rewrite Hb. cbn [obind]. rewrite (scan_no_match _ _ _ _ _ _ _ _ _ _ _ _ Hh). cbn [obind Z.eqb negb].
    rewrite <- andb_assoc, Hflags, Z.eqb_refl. cbn [andb]. apply IH. lia.
  - destruct (Hbefore i ltac:(lia)) as (b & kept & Hb & Hh). rewrite Hb. cbn [obind].
    rewrite (scan_no_match _ _ _ _ _ _ _ _ _ _ _ _ Hh). cbn [obind Z.eqb negb].
    rewrite (proj2 (Z.eqb_neq i (n - 1))) by lia. cbn [andb]. apply IH. lia.
Qed.
End endless.

(** ** Properties *)

(** C14: no use after free, no leak.  From an empty heap, whatever calls clients make
    that follow the protocol (allocate, take and drop references, link, unlink, search
    with any flags and any results of the callback, allocations failing or not), the
    next call returns and never touches freed memory, however deep destructors nest;
    and afterwards the counter of every object is positive and is exactly the number of
    references clients, containers and objects hold to it, and what anyone holds
    exists.  (Excepted is the search that does not end: with [OBJ_CONTINUE] callbacks
    must return their result.) *)
Theorem ao2_clients_safe s r : reachable s -> client_step s r ->
  exists w held, r = Ret (w, held) /\
    (forall p o, heap w !! p = Some o ->
      ref_counter o = Z.of_nat (count_occ Z.eq_dec (held ++ all_refs (heap w)) p) /\ 0 < ref_counter o) /\
    (forall p, p ∈ held ++ all_refs (heap w) -> is_Some (heap w !! p)).
Proof.
  intros Hr Hs. destruct (step_good s r (reachable_good s Hr) Hs) as ([w held] & -> & Hg). exists w, held.
  split_and!; [done|apply Hg|apply Hg].
Qed.

(** [ao2_find] by a key finds an object exactly when there is one.  For a comparison
    that only matches objects with the hash of the argument (also hashes below 0), the
    search in one bucket is as good as one of the whole container: the result is an
    object of the container that matches, with a reference for the caller, or [NULL]
    when none matches; with [OBJ_UNLINK] exactly this object leaves the container,
    which hands its reference over. *)
Theorem ao2_find_correct h held l mem ok link_ok c k cmp arg (unlink : bool) :
  counted h held -> c ∈ held -> has_cont h c k -> cmp_fn k = Some cmp ->
  let flags := if unlink then Z.lor OBJ_POINTER OBJ_UNLINK else OBJ_POINTER in
  (forall p, Z.land (Z.lor CMP_MATCH CMP_STOP) (cmp p arg flags) <> CMP_STOP) ->
  (forall p, has (cmp p arg flags) CMP_MATCH = true -> hash_fn k p OBJ_POINTER = hash_fn k arg OBJ_POINTER) ->
  exists res h' freed k', ao2_find mem ok link_ok c arg flags (mk_world h l) = Ret (Obj res, mk_world h' (l ++ freed)) /\
    counted h' (hold res ++ held) /\ has_cont h' c k' /\
    (res = NULL /\ (forall p, p ∈ members k -> has (cmp p arg flags) CMP_MATCH = false) /\ members k ≡ₚ members k' \/
     res ∈ members k /\ has (cmp res arg flags) CMP_MATCH = true /\ members k ≡ₚ members k' ++ (if unlink then [res] else [])).
Proof.
  intros Hc Hin Hk Hcmp flags Hstop Hhash. set (f p := cmp p arg flags).
  assert (Hf1 : has flags OBJ_POINTER = true /\ Z.land flags OBJ_POINTER = OBJ_POINTER /\ has flags OBJ_CONTINUE = false /\
    has flags OBJ_MULTIPLE = false /\ has flags OBJ_NODATA = false /\ has flags OBJ_UNLINK = unlink) by (unfold flags; by destruct unlink).
  destruct Hf1 as (F1 & F2 & F3 & F4 & F5 & F6). destruct (has_cont_wf h held c k Hc Hk) as [Hw _].
  destruct (callback_single h held l mem ok link_ok c k flags f arg Hc Hin Hk) as (h' & freed & k' & E & H1 & _ & H3 & H4).
  { intros Hcp. rewrite F3, andb_false_r in Hcp. done. } { by rewrite F4. }
  rewrite F4 in *. set (hs := matched false f (visited flags k arg)) in *.
  exists (result flags hs), h', freed, k'. split_and!; [|done|done|].
  { unfold ao2_find. destruct Hk as (o & Ho & Hk). rewrite (get_container_live h l c o k Ho Hk). cbn [obind]. rewrite Hcmp. exact E. }
  pose proof (nr_members _ _ _ _ H4) as Hm. rewrite F6 in Hm. unfold result. rewrite F4, F5. cbn [orb].
  pose proof (matched_first f (visited flags k arg) Hstop) as HM. fold hs in HM.
  destruct HM as [[E0 Hno]|(e & He & Hyes & E1)].
  - left. rewrite E0 in *. split_and!; [done| |by destruct unlink; rewrite app_nil_r in Hm]. intros p Hp.
    destruct (has (cmp p arg flags) CMP_MATCH) eqn:Hmatch; [|done]. unfold members in Hp. apply list_elem_of_fmap in Hp as (e & -> & He).
    apply list_elem_of_In, in_concat in He as (b & Hb & He). apply list_elem_of_In in Hb, He. apply list_elem_of_lookup in Hb as [i Hb].
    rewrite <- Hmatch. apply Hno. eapply visited_hash; eauto.
  - right. rewrite E1 in *. split_and!; [by eapply visited_member|done|by destruct unlink].
Qed.

(** A search may never end.  With [OBJ_POINTER] and [OBJ_CONTINUE], when the hash of
    the argument selects the last bucket, nothing there matches, and the callback
    answers [CMP_STOP] for an object of an earlier bucket, then the search starts again
    at bucket 0, and again, without end: no number of steps gives a result.  The order
    to stop sets the position to the end of the search, which is the last bucket, and
    the last bucket means starting over. *)
Theorem ao2_continue_endless flags f c link_ok w k multi j fuel :
  get_container w c = Ret k -> has flags OBJ_POINTER && has flags OBJ_CONTINUE = true ->
  0 <= j < n_buckets k - 1 -> (forall i, 0 <= i < j -> no_match flags f k i false) -> no_match flags f k j true ->
  no_match flags f k (n_buckets k - 1) false ->
  bucket_loop ao2_ref c flags (pure f) multi link_ok fuel (n_buckets k - 1) (n_buckets k) (n_buckets k - 1) (n_buckets k) NULL w = NoFuel.
Proof.
  intros Hk Hflags Hj Hbefore Hstop (b & kept & Hb & Hh). destruct fuel as [|fuel]; [done|]. cbn [bucket_loop].
  rewrite (proj2 (Z.ltb_lt _ _)) by lia. cbn [negb]. rewrite Hk. cbn [obind]. rewrite Hb. cbn [obind].
  rewrite (scan_no_match _ _ _ _ _ _ _ _ _ _ _ _ Hh). cbn [obind Z.eqb negb]. rewrite <- andb_assoc, Hflags, Z.eqb_refl. cbn [andb].
  apply (around_endless flags f c link_ok w k multi Hk Hflags fuel j); done || lia.
Qed.

(** ** Witnesses *)

(** A container of 2 buckets at 16 holds the user's object 33, and the client only the
    container. *)
Definition ex_hash : ptr -> Z -> Z := fun p _ => p mod 100.
Definition ex_cmp : ptr -> ptr -> Z -> Z := fun p arg _ => if p =? arg then CMP_MATCH else 0.

Definition ex_run : outcome state :=
  let '(c, w) := ao2_container_alloc 16 2 (Some ex_hash) (Some ex_cmp) initial.1 in
  let '(p, w) := ao2_alloc 33 true w in
  let* (_, w) := ao2_link ao2_ref true c p w in
  Ret (w, [p; c]).

Definition ex_state : state := Eval vm_compute in match ex_run with Ret s => s | _ => initial end.

Lemma ex_state_container : exists k, has_cont (heap ex_state.1) 16 k /\ hash_fn k = ex_hash /\ cmp_fn k = Some ex_cmp /\ members k = [33].
Proof. eexists. split; [eexists; split; [vm_compute; reflexivity|reflexivity]|]. split_and!; reflexivity. Qed.

Lemma ex_reachable : reachable ex_state.
Proof.
  assert (Hr : hash_range (Some ex_hash)) by (intros p; unfold ex_hash; pose proof (Z.mod_pos_bound p 100 eq_refl); lia).
  assert (H1 : reachable (let '(p, w) := ao2_container_alloc 16 2 (Some ex_hash) (Some ex_cmp) initial.1 in (w, hold p ++ []))).
  { eapply reach_step; [apply reach_initial|]. eapply (step_container _ _ 16 2 (Some ex_hash) (Some ex_cmp)); [by right|done|done]. }
  assert (H2 : reachable (let '(p, w) := ao2_container_alloc 16 2 (Some ex_hash) (Some ex_cmp) initial.1 in
    let '(q, w) := ao2_alloc 33 true w in (w, hold q ++ [16]))).
  { eapply reach_step; [exact H1|]. cbn [fst snd]. apply (step_alloc _ _ 33 true). right. vm_compute. reflexivity. }
  assert (E : Ret ex_state = (let* (_, w) := ao2_link ao2_ref true 16 33
    (ao2_alloc 33 true (ao2_container_alloc 16 2 (Some ex_hash) (Some ex_cmp) initial.1).2).2 in Ret (w, [33; 16]))) by (vm_compute; reflexivity).
  eapply reach_step; [exact H2|]. rewrite E. eapply step_link; [set_solver|set_solver|].
  eexists. split; [vm_compute; reflexivity|reflexivity].
Qed.

(** Dropping the reference to the object keeps it: the container holds it. *)
Lemma ao2_clients_safe_witness : exists w held, (let* (_, w) := ao2_ref 33 (-1) ex_state.1 in Ret (w, [16])) = Ret (w, held) /\
  (forall p o, heap w !! p = Some o ->
    ref_counter o = Z.of_nat (count_occ Z.eq_dec (held ++ all_refs (heap w)) p) /\ 0 < ref_counter o) /\
  (forall p, p ∈ held ++ all_refs (heap w) -> is_Some (heap w !! p)).
Proof. apply (ao2_clients_safe ex_state _ ex_reachable). apply step_unref. reflexivity. Defined.

Lemma ao2_find_correct_witness : exists res h' freed k',
  ao2_find NULL false (fun _ => false) 16 33 (Z.lor OBJ_POINTER OBJ_UNLINK) (mk_world (heap ex_state.1) []) = Ret (Obj res, mk_world h' ([] ++ freed)) /\
  res = 33 /\ members k' = [].
Proof.
  destruct ex_state_container as (k & Hk & Hh & Hc & Hm).
  destruct (ao2_find_correct (heap ex_state.1) [33; 16] [] NULL false (fun _ => false) 16 k ex_cmp 33 true (reachable_good _ ex_reachable)
    ltac:(set_solver) Hk Hc) as (res & h' & freed & k' & E & _ & _ & H).
  { intros p. unfold ex_cmp. by destruct (p =? 33). }
  { intros p. rewrite Hh. unfold ex_cmp. destruct (Z.eqb_spec p 33) as [->|]; done. }
  rewrite Hm in H. exists res, h', freed, k'. split; [exact E|]. destruct H as [(_ & Hno & _)|(Hin & _ & HP)].
  - specialize (Hno 33 ltac:(set_solver)). vm_compute in Hno. discriminate Hno.
  - apply list_elem_of_singleton in Hin as ->. split; [reflexivity|]. apply Permutation_length in HP. rewrite length_app in HP.
    destruct (members k'); [reflexivity|cbn in HP; lia].
Defined.

(** Two buckets; the object 34 in bucket 0 stops the search for 33, whose bucket is 1. *)
Definition ex_loop_world : world :=
  mk_world {[ 16 := mk_obj 1 ContainerDestruct (Some (mk_container ex_hash None 2 1 2 [[mk_entry 1 34]; []])) [];
              34 := mk_obj 1 UserDestructor None [] ]} [].

Lemma ao2_continue_endless_witness :
  bucket_loop ao2_ref 16 (Z.lor OBJ_POINTER OBJ_CONTINUE) (pure (fun _ => CMP_STOP)) None (fun _ => false) 1000 1 2 1 2 NULL ex_loop_world = NoFuel.
Proof.
  apply (ao2_continue_endless (Z.lor OBJ_POINTER OBJ_CONTINUE) (fun _ => CMP_STOP) 16 (fun _ => false) ex_loop_world
    (mk_container ex_hash None 2 1 2 [[mk_entry 1 34]; []]) None 0); try done; try lia.
  - exists [mk_entry 1 34], [mk_entry 1 34]. split; reflexivity.
  - exists [], []. split; reflexivity.
Defined.
