(* ===== verification/Astobj2Iter.v ===== *)
(** * Iterators over containers that change

    [ao2_iterator_next] of [main/astobj2.c] (Astobj2.v) remembers the bucket and the
    version of the entry it gave last.  Between two calls any number of objects may be
    linked and unlinked; the theorem is about every such interleaving. *)

From Stdlib Require Import ZArith Lia Sorted.
From stdpp Require Import base list gmap numbers relations.
From S2P Require Import Prelude Astobj2 Astobj2Search Astobj2Clients.

#[local] Open Scope Z_scope.
#[local] Open Scope record_scope.
#[local] Open Scope outcome_scope.

(** ** Versions *)

(** An entry in bucket [i]. *)
Definition entry_at (k : ao2_container) (i : Z) (e : bucket_entry) : Prop :=
  0 <= i /\ exists b, buckets k !! Z.to_nat i = Some b /\ e ∈ b.

Definition older (e e' : bucket_entry) : Prop := e_version e < e_version e'.

(** Versions grow along each bucket, and are below the version of the container. *)
Record versions_ok (k : ao2_container) : Prop := {
  vo_sorted i b : buckets k !! i = Some b -> StronglySorted older b;
  vo_range i e : entry_at k i e -> 1 <= e_version e < c_version k;
  vo_len : Z.of_nat (length (buckets k)) = n_buckets k;
  vo_bound : 1 <= c_version k < 2 ^ 32
}.

(** What linking and unlinking do to a container, while the version does not wrap. *)
Inductive change (k : ao2_container) : ao2_container -> Prop :=
  | change_link i b p : 0 <= i -> buckets k !! Z.to_nat i = Some b -> c_version k + 1 < 2 ^ 32 -> change k (with_entry k i b p)
  | change_unlink i prev e rest : 0 <= i -> buckets k !! Z.to_nat i = Some (prev ++ e :: rest) -> c_version k + 1 < 2 ^ 32 ->
      change k (without_entry k i (prev ++ rest)).

Lemma entry_at_put k k' i b b' j e : 0 <= i -> buckets k !! Z.to_nat i = Some b -> buckets k' = <[Z.to_nat i := b']> (buckets k) ->
  entry_at k' j e <-> (j = i /\ e ∈ b') \/ (j <> i /\ entry_at k j e).
Proof.
  intros Hi Hb E. unfold entry_at. rewrite E. destruct (Z.eq_dec j i) as [->|Hne].
  - rewrite list_lookup_insert_eq by (by eapply lookup_lt_Some). split; [intros [_ (b1 & [= <-] & ?)]; by left|].
    intros [[_ ?]|[? _]]; [eauto|done].
  - split.
    + intros [Hj H]. right. split; [done|]. split; [done|]. by rewrite list_lookup_insert_ne in H by lia.
    + intros [[? _]|[_ [Hj H]]]; [done|]. split; [done|]. by rewrite list_lookup_insert_ne by lia.
Qed.

Lemma sorted_snoc b e : StronglySorted older b -> (forall x, x ∈ b -> older x e) -> StronglySorted older (b ++ [e]).
Proof.
  intros Hs He. induction Hs as [|x b _ IH Hx]; cbn; [by repeat constructor|]. constructor; [apply IH; set_solver|].
  apply Forall_app. split; [done|]. constructor; [apply He; set_solver|done].
Qed.

Lemma sorted_remove prev e rest : StronglySorted older (prev ++ e :: rest) -> StronglySorted older (prev ++ rest).
Proof.
  induction prev as [|x prev IH]; cbn; intros Hs; inversion Hs as [|? ? Hs' Hx]; subst; [done|]. constructor; [by apply IH|].
  apply Forall_app. apply Forall_app in Hx as [? Hx]. inversion Hx. by split.
Qed.

Lemma bumped k : 1 <= c_version k < 2 ^ 32 -> c_version k + 1 < 2 ^ 32 -> u32 (c_version k + 1) = c_version k + 1.
Proof. intros H1 H2. apply wrapu_id. unfold in_u. lia. Qed.

Lemma change_ok k k' : versions_ok k -> change k k' -> versions_ok k' /\ c_version k' = c_version k + 1.
Proof.
  intros [Hs Hr Hl Hb] Hch. destruct Hch as [i b p Hi Hbk Hv|i prev e rest Hi Hbk Hv].
  - set (k' := with_entry k i b p). assert (Ev : c_version k' = c_version k + 1) by (by apply bumped).
    assert (Eb : buckets k' = <[Z.to_nat i := b ++ [mk_entry (c_version k) p]]> (buckets k)) by done.
    split; [|done]. split; [| |by rewrite Eb, length_insert|rewrite Ev; lia].
    + intros j b1. rewrite Eb. destruct (decide (Z.to_nat i = j)) as [<-|Hne].
      * rewrite list_lookup_insert_eq by (by eapply lookup_lt_Some). intros [= <-]. apply sorted_snoc; [by eapply Hs|].
        intros x Hx. unfold older. cbn. apply (Hr i). split; [done|]. eauto.
      * rewrite list_lookup_insert_ne by done. apply Hs.
    + intros j x Hx. rewrite Ev. apply (entry_at_put k k' i b _ j x Hi Hbk Eb) in Hx as [[-> Hx]|[_ Hx]].
      * apply elem_of_app in Hx as [Hx|Hx]; [|apply list_elem_of_singleton in Hx as ->; cbn; lia].
        destruct (Hr i x); [split; eauto|lia].
      * destruct (Hr j x Hx). lia.
  - set (k' := without_entry k i (prev ++ rest)). assert (Ev : c_version k' = c_version k + 1) by (by apply bumped).
    assert (Eb : buckets k' = <[Z.to_nat i := prev ++ rest]> (buckets k)) by done.
    split; [|done]. split; [| |by rewrite Eb, length_insert|rewrite Ev; lia].
    + intros j b1. rewrite Eb. destruct (decide (Z.to_nat i = j)) as [<-|Hne].
      * rewrite list_lookup_insert_eq by (by eapply lookup_lt_Some). intros [= <-]. eapply sorted_remove. by eapply Hs.
      * rewrite list_lookup_insert_ne by done. apply Hs.
    + intros j x Hx. rewrite Ev. apply (entry_at_put k k' i _ _ j x Hi Hbk Eb) in Hx as [[-> Hx]|[_ Hx]].
      * destruct (Hr i x); [|lia]. split; [done|]. eexists. split; [done|]. set_solver.
      * destruct (Hr j x Hx). lia.
Qed.

Lemma changes_ok k k' : versions_ok k -> rtc change k k' -> versions_ok k' /\ (k' = k \/ c_version k < c_version k').
Proof.
  intros Hk Hr. induction Hr as [k|k k1 k2 H1 _ IH]; [auto|]. destruct (change_ok k k1 Hk H1) as [Hk1 E].
  destruct (IH Hk1) as [Hk2 [->|Hlt]]; (split; [done|right; lia]).
Qed.

(** What clients do between two calls are such changes. *)
Lemma unlinks_changes n k k' : nsteps unlinks n k k' -> 1 <= c_version k -> c_version k + Z.of_nat n < 2 ^ 32 -> rtc change k k'.
Proof.
  induction 1 as [k|n k k1 k2 (i & prev & e & rest & Hi & Hb & ->) _ IH]; intros H1 H2; [done|].
  eapply rtc_l; [by apply (change_unlink k i prev e rest); [done|done|lia]|]. 
  assert (E : c_version (without_entry k i (prev ++ rest)) = c_version k + 1) by (apply bumped; lia).
  apply IH; rewrite E; lia.
Qed.

Lemma link_changes k p b : container_wf k -> buckets k !! Z.to_nat (bucket_of k p) = Some b -> c_version k + 1 < 2 ^ 32 ->
  rtc change k (with_entry k (bucket_of k p) b p).
Proof.
  intros Hw Hb Hv. apply rtc_once, change_link; [|done|done]. by apply (bucket_of_range k p Hw (cw_hash_ok k Hw)).
Qed.

(** ** The place of an iterator *)

Definition after (x y : Z * Z) : Prop := x.1 < y.1 \/ x.1 = y.1 /\ x.2 < y.2.

Definition place (a : ao2_iterator) : Z * Z := (it_bucket a, it_version a).

(** The pointer to the last entry is good while the version is the one it was taken at. *)
Record iterator_ok (k : ao2_container) (a : ao2_iterator) : Prop := {
  io_bucket : 0 <= it_bucket a;
  io_version : 0 <= it_version a;
  io_past : it_c_version a <= c_version k;
  io_obj v : it_c_version a = c_version k -> it_obj a = Some v ->
    v = it_version a /\ exists e, entry_at k (it_bucket a) e /\ e_version e = v
}.

Lemma iterator_ok_changes k k' a : versions_ok k -> rtc change k k' -> iterator_ok k a -> iterator_ok k' a.
Proof.
  intros Hk Hr Ha. destruct (changes_ok k k' Hk Hr) as [_ [->|Hlt]]; [done|]. destruct Ha as [H1 H2 H3 _]. split; [done|done|lia|lia].
Qed.

Lemma newer_spec v b j0 : match newer v b j0 with
  | Some j => exists e, b !! (j - j0)%nat = Some e /\ (j0 <= j)%nat /\ v < e_version e /\ forall x, x ∈ take (j - j0) b -> e_version x <= v
  | None => forall x, x ∈ b -> e_version x <= v
  end.
Proof.
  revert j0. induction b as [|e b IH]; intros j0; cbn [newer]; [by intros x ?%elem_of_nil|].
  destruct (Z.gtb_spec (e_version e) v) as [Hgt|Hle].
  - exists e. rewrite Nat.sub_diag. split_and!; [done|lia|lia|]. by intros x ?%elem_of_nil.
  - specialize (IH (S j0)). destruct (newer v b (S j0)) as [j|].
    + destruct IH as (e' & H1 & H2 & H3 & H4). exists e'. replace (j - j0)%nat with (S (j - S j0)) by lia. split_and!; [done|lia|done|].
      intros x [->|Hx]%elem_of_cons; [lia|by apply H4].
    + intros x [->|Hx]%elem_of_cons; [lia|by apply IH].
Qed.

Lemma sorted_later b j e x : StronglySorted older b -> b !! j = Some e -> x ∈ b -> x ∈ take j b \/ x = e \/ older e x.
Proof.
  intros Hs Hj Hx. rewrite <- (take_drop_middle b j e Hj) in Hx. apply elem_of_app in Hx as [?|Hx]; [by left|right].
  apply elem_of_cons in Hx as [->|Hx]; [by left|right].
  rewrite <- (take_drop_middle b j e Hj) in Hs. clear Hj. induction (take j b) as [|y l IH]; cbn in Hs; inversion Hs as [|? ? Hs' Hall]; subst.
  - rewrite Forall_forall in Hall. by apply Hall.
  - by apply IH.
Qed.

(** What a seek finds: the first entry after the place [from]. *)
Definition finds (k : ao2_container) (from : Z * Z) (res : option nat) (a : ao2_iterator) : Prop :=
  match res with
  | Some j => exists b e, 0 <= it_bucket a /\ buckets k !! Z.to_nat (it_bucket a) = Some b /\ b !! j = Some e /\
      after from (it_bucket a, e_version e) /\
      forall i x, entry_at k i x -> after from (i, e_version x) -> (i, e_version x) = (it_bucket a, e_version e) \/ after (it_bucket a, e_version e) (i, e_version x)
  | None => forall i x, entry_at k i x -> ~ after from (i, e_version x)
  end.

Lemma browse_spec k n : versions_ok k -> forall a, 0 <= it_bucket a -> n = Z.to_nat (n_buckets k - it_bucket a) ->
  exists res a', browse n k a = Ret (res, a') /\ finds k (place a) res a' /\ it_flags a' = it_flags a /\ it_c a' = it_c a.
Proof.
  intros Hk. induction n as [|n IH]; intros a Ha Hn; cbn [browse].
  - exists None, a. split_and!; [done| |done|done]. intros i x [Hi (b & Hb & _)] [Hlt|[Heq _]]; cbn in *;
      apply lookup_lt_Some in Hb; pose proof (vo_len k Hk); lia.
  - destruct (lookup_lt_is_Some_2 (buckets k) (Z.to_nat (it_bucket a))) as [b Hb]; [pose proof (vo_len k Hk); lia|].
    rewrite (bucket_at_ok k _ b Ha Hb). cbn [obind]. pose proof (newer_spec (it_version a) b 0) as Hnew. destruct (newer (it_version a) b 0) as [j|].
    + destruct Hnew as (e & Hj & _ & Hgt & Hle). rewrite Nat.sub_0_r in *. exists (Some j), a. split_and!; [done| |done|done].
      exists b, e. split_and!; [done|done|done|by right|]. intros i x [Hi (b' & Hb' & Hx)] Haf. destruct Haf as [Hlt|[Heq Hlt]]; cbn in *.
      * right. by left.
      * subst i. rewrite Hb in Hb'. injection Hb' as <-.
        destruct (sorted_later b j e x (vo_sorted k Hk _ _ Hb) Hj Hx) as [Hin|[->|Ho]]; [apply Hle in Hin; lia|by left|right; by right].
    + destruct (IH (a <| it_bucket ::= Z.add 1 |> <| it_version := 0 |>)) as (res & a' & E & Hf & E1 & E2); [cbn; lia|cbn; lia|].
      exists res, a'. split_and!; [done| |done|done].
      assert (Hsame : forall i x, entry_at k i x -> after (place a) (i, e_version x) -> after (1 + it_bucket a, 0) (i, e_version x)).
      { intros i x Hx Haf. pose proof (vo_range k Hk i x Hx). destruct Hx as [Hi (b' & Hb' & Hx)]. destruct Haf as [Hlt|[Heq Hlt]]; cbn in *.
        - destruct (Z.eq_dec i (1 + it_bucket a)); [right; cbn; lia|left; cbn; lia].
        - subst i. rewrite Hb in Hb'. injection Hb' as <-. apply Hnew in Hx. lia. }
      unfold finds in *. cbn in Hf. destruct res as [j|].
      * destruct Hf as (b1 & e & H1 & H2 & H3 & H4 & H5). exists b1, e. split_and!; [done|done|done| |].
        -- destruct H4 as [H4|[H4 _]]; left; cbn in *; lia.
        -- intros i x Hx Haf. apply H5; [done|]. by apply Hsame.
      * intros i x Hx Haf. apply (Hf i x Hx). by apply Hsame.
Qed.

Lemma position_spec v b : (exists e, e ∈ b /\ e_version e = v) -> exists j e, position v b = Some j /\ b !! j = Some e /\ e_version e = v.
Proof.
  induction b as [|x b IH]; intros (e & He & Hv); [by apply elem_of_nil in He|]. cbn [position].
  destruct (Z.eqb_spec (e_version x) v) as [E|E]; [by exists 0%nat, x|]. apply elem_of_cons in He as [->|He]; [done|].
  destruct IH as (j & e' & -> & H1 & H2); [eauto|]. by exists (S j), e'.
Qed.

Lemma sorted_before b j e x : StronglySorted older b -> b !! j = Some e -> x ∈ take j b -> older x e.
Proof.
  intros Hs Hj Hin. rewrite <- (take_drop_middle b j e Hj) in Hs. clear Hj.
  induction (take j b) as [|y l IH]; [by apply elem_of_nil in Hin|].
  cbn in Hs. inversion Hs as [|? ? Hs' Hall]; subst. apply elem_of_cons in Hin as [->|Hin]; [|by apply IH].
  rewrite Forall_forall in Hall. apply Hall. set_solver.
Qed.

Lemma sorted_lookup b i j e e' : StronglySorted older b -> b !! i = Some e -> b !! j = Some e' -> (i < j)%nat -> older e e'.
Proof.
  intros Hs Hi Hj Hlt. apply (sorted_before b j e' e Hs Hj). apply list_elem_of_lookup. exists i. by rewrite lookup_take_lt.
Qed.

(** What is newer than an entry comes after it. *)
Lemma sorted_index b j e i x : StronglySorted older b -> b !! j = Some e -> b !! i = Some x -> older e x -> (j < i)%nat.
Proof.
  intros Hs Hj Hi Ho. destruct (Nat.lt_total j i) as [?|[->|Hlt]]; [done| |].
  - rewrite Hi in Hj. injection Hj as ->. unfold older in Ho. lia.
  - pose proof (sorted_lookup b i j x e Hs Hi Hj Hlt). unfold older in *. lia.
Qed.

Lemma sorted_next b j e e' x : StronglySorted older b -> b !! j = Some e -> b !! S j = Some e' -> x ∈ b -> older e x ->
  x = e' \/ older e' x.
Proof.
  intros Hs Hj Hj' Hx Ho. apply list_elem_of_lookup in Hx as [i Hi]. pose proof (sorted_index b j e i x Hs Hj Hi Ho) as Hlt.
  destruct (Nat.eq_dec i (S j)) as [->|Hne]; [left; congruence|right]. apply (sorted_lookup b (S j) i); [done..|lia].
Qed.

Lemma seek_spec k a : versions_ok k -> iterator_ok k a ->
  exists res a', iterator_seek k a = Ret (res, a') /\ finds k (place a) res a' /\ it_flags a' = it_flags a /\ it_c a' = it_c a.
Proof.
  intros Hk [H1 H2 H3 H4]. unfold iterator_seek. destruct (Z.eqb_spec (c_version k) (it_c_version a)) as [E|E].
  2:{ by apply browse_spec. }
  destruct (it_obj a) as [v|] eqn:Ho; [|by apply browse_spec].
  destruct (H4 v (eq_sym E) eq_refl) as [-> (e0 & He0 & Hv0)]. pose proof He0 as [_ (b & Hb & Hin)].
  rewrite (bucket_at_ok k _ b H1 Hb). cbn [obind]. destruct (position_spec (it_version a) b) as (j & e & -> & Hj & Hv); [eauto|]. cbn [oaccess obind].
  assert (Hle : forall x, x ∈ b -> it_version a < e_version x -> older e x) by (intros x _ ?; unfold older; lia).
  destruct (b !! S j) as [e'|] eqn:Hj'.
  - exists (Some (S j)), a. split_and!; [done| |done|done]. exists b, e'. split_and!; [done|done|done| |].
    + right. split; [done|]. cbn. rewrite <- Hv. apply (sorted_lookup b j (S j)); [by eapply vo_sorted|done|done|lia].
    + intros i x Hx Haf. pose proof Hx as [_ (b' & Hb' & Hx')]. destruct Haf as [Hlt|[Heq Hlt]]; cbn in *; [right; by left|].
      subst i. rewrite Hb in Hb'. injection Hb' as <-.
      destruct (sorted_next b j e e' x (vo_sorted k Hk _ _ Hb) Hj Hj' Hx' (Hle x Hx' Hlt)) as [->|Hol]; [by left|right; by right].
  - assert (Ha1 : 0 <= 1 + it_bucket a) by lia.
    set (a1 := a <| it_bucket ::= Z.add 1 |> <| it_version := 0 |> <| it_obj := None |>).
    destruct (browse_spec k _ Hk a1 Ha1 eq_refl)
      as (res & a' & Eb & Hf & F1 & F2). exists res, a'. split_and!; [exact Eb| |done|done].
    assert (Hsame : forall i x, entry_at k i x -> after (place a) (i, e_version x) -> after (1 + it_bucket a, 0) (i, e_version x)).
    { intros i x Hx Haf. pose proof (vo_range k Hk i x Hx). destruct Hx as [Hi (b' & Hb' & Hx)]. destruct Haf as [Hlt|[Heq Hlt]]; cbn in *.
      - destruct (Z.eq_dec i (1 + it_bucket a)); [right; cbn; lia|left; cbn; lia].
      - subst i. rewrite Hb in Hb'. injection Hb' as <-. apply lookup_ge_None in Hj'.
        destruct (proj1 (list_elem_of_lookup b x) Hx) as [i Hxi]. pose proof (lookup_lt_Some _ _ _ Hxi).
        pose proof (sorted_index b j e i x (vo_sorted k Hk _ _ Hb) Hj Hxi (Hle x Hx Hlt)). lia. }
    unfold finds in *. cbn in Hf. destruct res as [j'|].
    + destruct Hf as (b1 & e1 & G1 & G2 & G3 & G4 & G5). exists b1, e1. split_and!; [done|done|done| |].
      * destruct G4 as [G4|[G4 _]]; left; cbn in *; lia.
      * intros i x Hx Haf. apply G5; [done|]. by apply Hsame.
    + intros i x Hx Haf. apply (Hf i x Hx). by apply Hsame.
Qed.

(** ** One call *)

Lemma entry_unique k i e x : versions_ok k -> entry_at k i e -> entry_at k i x -> e_version x = e_version e -> x = e.
Proof.
  intros Hk [_ (b & Hb & He)] [_ (b' & Hb' & Hx)] Hv. rewrite Hb in Hb'. injection Hb' as <-.
  destruct (proj1 (list_elem_of_lookup b e) He) as [j Hj], (proj1 (list_elem_of_lookup b x) Hx) as [j' Hj'].
  pose proof (vo_sorted k Hk _ _ Hb) as Hs. destruct (Nat.lt_total j j') as [Hlt|[->|Hlt]]; [|congruence|].
  - pose proof (sorted_lookup b j j' e x Hs Hj Hj' Hlt). unfold older in *. lia.
  - pose proof (sorted_lookup b j' j x e Hs Hj' Hj Hlt). unfold older in *. lia.
Qed.

Definition keeps (a : ao2_iterator) : Prop := has (it_flags a) AO2_ITERATOR_UNLINK = false.

(** What a call gives: the first entry after the place of the iterator, with a reference,
    or [NULL] when there is none. *)
Lemma next_spec w held k a : counted (heap w) held -> it_c a ∈ held -> has_cont (heap w) (it_c a) k -> versions_ok k -> iterator_ok k a -> keeps a ->
  exists p a' w', ao2_iterator_next a w = Ret (p, a', w') /\ it_flags a' = it_flags a /\ it_c a' = it_c a /\
    (p = NULL /\ (forall i x, entry_at k i x -> ~ after (place a) (i, e_version x)) \/
     p <> NULL /\ has_cont (heap w') (it_c a) k /\ counted (heap w') (p :: held) /\ iterator_ok k a' /\
     exists e, entry_at k (it_bucket a') e /\ e_version e = it_version a' /\ e_astobj e = p /\ after (place a) (place a') /\
       forall i x, entry_at k i x -> after (place a) (i, e_version x) -> (i = it_bucket a' /\ x = e) \/ after (place a') (i, e_version x)).
Proof.
  intros Hc Hin Hk Hv Ha Hu. destruct (has_cont_wf _ _ _ _ Hc Hk) as [_ Hc0]. pose proof Hk as (o & Ho & Hko). destruct w as [h l]. cbn [heap] in *.
  destruct (seek_spec k a Hv Ha) as (res & a1 & E & Hf & F1 & F2).
  unfold ao2_iterator_next, internal_ao2_iterator_next, INTERNAL_OBJ. cbn [heap]. rewrite (proj2 (Z.eqb_neq _ _) Hc0), Ho. cbn [oaccess obind].
  rewrite (get_container_live h l _ o k Ho Hko). cbn [obind]. rewrite E. cbn [obind]. destruct res as [j|]; cbn [finds] in Hf.
  2:{ exists NULL, a1, (mk_world h l). split_and!; [done|done|done|]. left. split; [done|exact Hf]. }
  destruct Hf as (b & e & G1 & Hb & Hj & G4 & G5). rewrite (bucket_at_ok k _ b G1 Hb). cbn [obind]. rewrite Hj. cbn [oaccess obind].
  assert (Hua : has (it_flags a1) AO2_ITERATOR_UNLINK = false) by (by rewrite F1). rewrite Hua. cbn [obind].
  set (a2 := a1 <| it_version := e_version e |> <| it_obj := Some (e_version e) |> <| it_c_version := c_version k |>).
  assert (He : entry_at k (it_bucket a1) e) by (split; [done|]; exists b; split; [done|]; by eapply list_elem_of_lookup_2).
  destruct (ct_live _ _ Hc (e_astobj e)) as [op Hop].
  { apply elem_of_app. right. rewrite (all_refs_delete h _ o Ho). apply elem_of_app. left. unfold refs_of. rewrite Hko.
    apply list_elem_of_fmap. exists e. split; [done|]. apply list_elem_of_In, in_concat. exists b.
    split; apply list_elem_of_In; by eapply list_elem_of_lookup_2. }
  destruct (ct_wf _ _ Hc _ op Hop) as [_ Hp0]. destruct (ref_add h held (e_astobj e) op l Hc Hop) as (-> & Hc1 & Hev). cbn [obind].
  eexists _, a2, _. split_and!; [done|done|done|]. right. split; [done|]. split.
  { eapply (has_cont_keeps []); [by apply evolves_evolves_on|exact Hc1|set_solver|set_solver|done]. }
  split; [done|]. pose proof (vo_range k Hv _ e He). split.
  { split; [done|cbn; lia|cbn; lia|]. intros v _. cbn. intros [= <-]. split; [done|]. by exists e. }
  exists e. split_and!; [done|done|done|done|]. intros i x Hx Haf. destruct (G5 i x Hx Haf) as [[= -> Hxv]|Hlater]; [left|by right].
  split; [done|]. by apply (entry_unique k (it_bucket a1)).
Qed.

(** ** Iterations *)

Section iteration.
Context (c : ptr) (P : ao2_container -> Prop).

(** A walk from an iterator to the end.  Between two calls others may do anything that
    changes the container by linking and unlinking (and keeps the invariant of the
    heap); [P] holds of the container whenever they are done.  The places and the
    objects given. *)
Inductive iteration : world -> list ptr -> ao2_iterator -> list (Z * Z * ptr) -> Prop :=
  | iter_change w held k w' held' k' a out : has_cont (heap w) c k -> has_cont (heap w') c k' -> rtc change k k' -> P k' ->
      counted (heap w') held' -> c ∈ held' -> iteration w' held' a out -> iteration w held a out
  | iter_next w held a p a' w' out : ao2_iterator_next a w = Ret (p, a', w') -> p <> NULL ->
      iteration w' (p :: held) a' out -> iteration w held a ((place a', p) :: out)
  | iter_end w held a a' w' : ao2_iterator_next a w = Ret (NULL, a', w') -> iteration w held a [].

Lemma iteration_spec w held a out : iteration w held a out -> forall k, counted (heap w) held -> c ∈ held -> has_cont (heap w) c k ->
  versions_ok k -> iterator_ok k a -> keeps a -> it_c a = c -> P k ->
  StronglySorted after (fst <$> out) /\ Forall (fun x => after (place a) x.1) out /\
  forall i e, (forall k, P k -> entry_at k i e) -> after (place a) (i, e_version e) -> (i, e_version e, e_astobj e) ∈ out.
Proof.
  induction 1 as [w held k0 w' held' k' a out Hk0 Hk' Hch HP Hc' Hin' _ IH|w held a p a' w' out E Hp0 _ IH|w held a a' w' E];
    intros k Hc Hin Hk Hv Ha Hu Hac HPk.
  - assert (k0 = k) as -> by (destruct Hk0 as (? & ? & ?), Hk as (? & ? & ?); congruence).
    destruct (changes_ok k k' Hv Hch) as [Hv' _]. apply (IH k'); try done. by apply (iterator_ok_changes k).
  - destruct (next_spec w held k a Hc ltac:(by rewrite Hac) ltac:(by rewrite Hac) Hv Ha Hu) as (p1 & a1 & w1 & E1 & F1 & F2 & HH).
    rewrite E in E1. injection E1 as <- <- <-. destruct HH as [[? _]|(_ & Hk1 & Hc1 & Ha1 & e & He & Hev & Hep & Haf & Hmin)]; [done|].
    rewrite Hac in Hk1. destruct (IH k Hc1 ltac:(set_solver) Hk1 Hv Ha1 ltac:(unfold keeps; by rewrite F1) ltac:(by rewrite F2) HPk) as (S1 & S2 & S3).
    assert (Htrans : forall x, after (place a') x -> after (place a) x) by (intros [x1 x2]; unfold after, place in *; cbn in *; lia).
    split_and!.
    + cbn. constructor; [done|]. apply Forall_fmap. done.
    + constructor; [done|]. eapply Forall_impl; [exact S2|]. intros x. apply Htrans.
    + intros i x Hx Hafx. destruct (Hmin i x (Hx k HPk) Hafx) as [[-> ->]|Hlater].
      * apply elem_of_cons. left. unfold place. by rewrite Hev, Hep.
      * apply elem_of_cons. right. by apply S3.
  - destruct (next_spec w held k a Hc ltac:(by rewrite Hac) ltac:(by rewrite Hac) Hv Ha Hu) as (p1 & a1 & w1 & E1 & _ & _ & HH).
    rewrite E in E1. injection E1 as <- <- <-. destruct HH as [[_ Hnone]|[? _]]; [|done].
    split_and!; [constructor|constructor|]. intros i e He Haf. by destruct (Hnone i e (He k HPk)).
Qed.
End iteration.

(** ** Properties *)


(** ** Witness *)

Definition ex_container : ao2_container := mk_container ex_hash (Some ex_cmp) 2 1 2 [[]; [mk_entry 1 33]].

Lemma ex_container_at : has_cont (heap ex_state.1) 16 ex_container.
Proof. eexists. split; vm_compute; reflexivity. Qed.

Lemma ex_entry i e : entry_at ex_container i e -> i = 1 /\ e = mk_entry 1 33.
Proof.
  intros [Hi (b & Hb & He)]. cbn in Hb. destruct (Z.to_nat i) as [|[|j]] eqn:E; cbn in Hb; [| |done].
  - injection Hb as <-. by apply elem_of_nil in He.
  - injection Hb as <-. apply list_elem_of_singleton in He as ->. split; [lia|done].
Qed.

Lemma ex_versions : versions_ok ex_container.
Proof.
  split; [| |done|done].
  - intros i b Hb. cbn in Hb. destruct i as [|[|j]]; cbn in Hb; [| |done]; injection Hb as <-; repeat constructor.
  - intros i e He. apply ex_entry in He as [_ ->]. cbn. lia.
Qed.

