(* ===== verification/PatternNode.v ===== *)
(** * The nodes of an extension pattern ([main/pbx.c])

    The pattern trie of a context is built from the nodes of its extensions: single
    characters, and character sets written out, sorted and without duplicates.  This
    file models [get_pattern_node], which takes the next node from an extension, with
    the 256 bytes it writes a set into: every write is checked against the size.

    A string is the list of its characters, as in Extension.v.  A buffer that is being
    filled is the list of the characters before the write position. *)

From S2P Require Import Extension Prelude.
From Stdlib Require Import ZArith Lia Sorted.
From stdpp Require Import base list numbers sorting sets strings.

#[local] Open Scope Z_scope.
#[local] Open Scope outcome_scope.

Record pattern_node := mk_pattern_node { specif : Z; buf : str }.

Abbreviation c_back := 92.

(** ** Sets *)

(** [*dst = c; INC_DST_OVERFLOW_CHECK;] on the buffer of 256 bytes. *)
Definition put_char (c : Z) (st : str * bool) : outcome (str * bool) :=
  let '(b, overflow) := st in
  if Z.of_nat (length b) <? 256 then
    Ret (if Z.of_nat (length b) <? 256 - 1 then (b ++ [c], overflow) else (b, true))
  else BadAccess.

(** [while (++first <= last)], on [unsigned char]s. *)
Fixpoint expand_range (fuel : nat) (first last : Z) (st : str * bool) : outcome (str * bool) :=
  match fuel with
  | O => NoFuel
  | S fuel =>
      let first := u8 (first + 1) in
      if first <=? last then
        let* st := put_char (s8 first) st in expand_range fuel first last st
      else Ret st
  end.

(** The characters a backslash takes the meaning from. *)
Definition special (c : Z) : bool := (c =? c_open) || (c =? c_back) || (c =? c_dash) || (c =? c_close).

(** The loop over the characters of a set, [prev] being the one before [src]: what is
    left of the string, the buffer and the overflow flag.  A range cannot have more
    than 255 characters. *)
Fixpoint read_set (fuel : nat) (prev : Z) (src : str) (st : str * bool) : outcome (str * (str * bool)) :=
  match fuel with
  | O => NoFuel
  | S fuel =>
      match src with
      | [] => Ret ([], st)
      | c :: rest =>
          if c =? c_back then
            if special (deref rest) then
              let* st := put_char (deref rest) st in read_set fuel (deref rest) (tail rest) st
            else read_set fuel c rest st
          else if c =? c_dash then
            let first := u8 prev in
            let '(last, src_next) :=
              if u8 (deref rest) =? c_back then (u8 (deref (tail rest)), tail rest) else (u8 (deref rest), rest) in
            if negb (deref (fst st) =? 0) && negb (last =? 0) then
              let* st := expand_range 256 first last st in read_set fuel (deref src_next) (tail src_next) st
            else let* st := put_char c st in read_set fuel c rest st
          else if c =? c_close then Ret (rest, st)
          else let* st := put_char c st in read_set fuel c rest st
      end
  end.

Definition compare_char (a b : Z) : Z := u8 a - u8 b.

(** [qsort(node->buf, length, 1, compare_char)]. *)
Definition char_le (a b : Z) : Prop := compare_char a b <= 0.

#[export] Instance char_le_dec : RelDecision char_le.
Proof. intros a b. unfold char_le. apply _. Defined.

Definition qsort (b : str) : str := merge_sort char_le b.

(** The loop that removes duplicates; [dst] is the last character kept. *)
Fixpoint unique_from (dst : Z) (b : str) : str :=
  match b with
  | [] => []
  | c :: b => if negb (dst =? c) then c :: unique_from c b else unique_from dst b
  end.

Definition unique (b : str) : str := match b with [] => [] | c :: b => c :: unique_from c b end.

(** ** The next node *)

Definition set_specif (b : str) : Z := Z.lor (Z.shiftl (Z.of_nat (length b)) 8) (u8 (deref b)).

(** [n], [x] and [z] of patterns. *)
Definition canonical (c : Z) : Z := if c =? 110 then 78 else if c =? 120 then 88 else if c =? 122 then 90 else c.

Fixpoint next_node (fuel : nat) (pattern : bool) (src : str) : outcome (pattern_node * str) :=
  match fuel with
  | O => NoFuel
  | S fuel =>
      match src with
      | [] => Ret (mk_pattern_node 0 [], [])
      | c :: rest =>
          if (c =? c_open) && pattern then
            let* (src, (b, overflow)) := read_set (S (length rest)) c rest ([], false) in
            if overflow then next_node fuel pattern src
            else if Z.of_nat (length b) =? 0 then next_node fuel pattern src
            else let b := unique (qsort b) in Ret (mk_pattern_node (set_specif b) b, src)
          else if c =? c_dash then next_node fuel pattern rest
          else if c =? c_back then
            match rest with
            | [] => Ret (mk_pattern_node 0 [], [])
            | d :: rest => Ret (mk_pattern_node 1 [d], rest)
            end
          else Ret (mk_pattern_node 1 [if pattern then canonical c else c], rest)
      end
  end.

Definition get_pattern_node (src : str) (pattern : bool) : outcome (pattern_node * str) :=
  next_node (S (length src)) pattern src.

(** ** Sets: the buffer *)

Definition put_ok (st : str * bool) : Prop := Z.of_nat (length (fst st)) <= 255.

Lemma put_char_ok c st : put_ok st -> exists st', put_char c st = Ret st' /\ put_ok st' /\
  (exists added, fst st' = fst st ++ added /\ Forall (eq c) added) /\ (snd st' = false -> snd st = false /\ fst st' = fst st ++ [c]).
Proof.
  destruct st as [b ov]. unfold put_ok, put_char. cbn [fst snd]. intros Hb.
  destruct (Z.ltb_spec (Z.of_nat (length b)) 256); [|lia]. eexists. split; [done|].
  destruct (Z.ltb_spec (Z.of_nat (length b)) (256 - 1)); cbn [fst snd].
  - split_and!; [rewrite length_app; cbn; lia| |done]. exists [c]. auto.
  - split_and!; [done| |done]. exists []. by rewrite app_nil_r.
Qed.

Definition chars (s : str) : Prop := Forall (fun c => in_s 8 c /\ c <> 0) s.

Lemma chars_cstr s : chars s -> cstr s.
Proof. intros H. eapply Forall_impl; [exact H|]. by intros c []. Qed.

(** An [unsigned char] and the [char] it is stored as. *)
Lemma u8_s8 x : in_u 8 x -> u8 (s8 x) = x.
Proof.
  unfold in_u, wrapu, wraps. change (2 ^ 8) with 256. change (2 ^ (8 - 1)) with 128. intros Hx.
  destruct (Z_lt_dec x 128).
  - rewrite (Z.mod_small (x + 128)) by lia. replace (x + 128 - 128) with x by lia. by rewrite Z.mod_small.
  - replace (x + 128) with (x - 128 + 1 * 256) by lia. rewrite Z.mod_add by lia.
    rewrite (Z.mod_small (x - 128)) by lia. replace (x - 128 - 128) with (x + (-1) * 256) by lia.
    rewrite Z.mod_add by lia. by rewrite Z.mod_small.
Qed.

Lemma s8_u8 c : in_s 8 c -> s8 (u8 c) = c.
Proof.
  unfold in_s, wrapu, wraps. change (2 ^ 8) with 256. change (2 ^ (8 - 1)) with 128. intros Hc.
  destruct (Z_lt_dec c 0).
  - replace (c mod 256) with (c + 256).
    + replace (c + 256 + 128) with (c + 128 + 1 * 256) by lia. rewrite Z.mod_add by lia. rewrite Z.mod_small; lia.
    + symmetry. replace c with (c + 256 + (-1) * 256) at 1 by lia. rewrite Z.mod_add by lia. rewrite Z.mod_small; lia.
  - rewrite (Z.mod_small c) by lia. rewrite Z.mod_small; lia.
Qed.

Lemma u8_inj a b : in_s 8 a -> in_s 8 b -> u8 a = u8 b -> a = b.
Proof. intros Ha Hb Hu. by rewrite <- (s8_u8 a), <- (s8_u8 b), Hu. Qed.

Lemma u8_zero c : in_s 8 c -> u8 c = 0 <-> c = 0.
Proof. intros Hc. split; [|by intros ->]. intros Hu. rewrite <- (s8_u8 c), Hu by done. done. Qed.

(** The characters from [first + 1] to [last]. *)
Definition range_chars (first last : Z) : str := s8 <$> seqZ (first + 1) (last - first).

(** The characters the expansion can deal with: not 0, and not character 255. *)
Definition plain_char (c : Z) : Prop := in_s 8 c /\ c <> 0 /\ c <> -1.

Lemma plain_u8 c : plain_char c -> 0 < u8 c < 255.
Proof.
  intros (Hc & H0 & H1). pose proof (wrapu_range 8 c ltac:(lia)) as Hu. unfold in_u in Hu. change (2 ^ 8) with 256 in Hu.
  assert (u8 c <> 0) by (intros E; by apply H0, u8_zero).
  assert (u8 c <> 255); [|lia]. intros E. apply H1. rewrite <- (s8_u8 c), E by done. done.
Qed.

Lemma s8_char x : 0 < x < 256 -> in_s 8 (s8 x) /\ s8 x <> 0.
Proof.
  intros Hx. split; [by apply wraps_range|]. intros E.
  assert (u8 (s8 x) = x) as Hu by (apply u8_s8; unfold in_u; lia). rewrite E in Hu. change (u8 0) with 0 in Hu. lia.
Qed.

Lemma range_chars_cons first last : first < last ->
  range_chars first last = s8 (first + 1) :: range_chars (first + 1) last.
Proof. intros Hl. unfold range_chars. rewrite seqZ_cons by lia. cbn. repeat f_equal; lia. Qed.

Lemma range_chars_nil first last : last <= first -> range_chars first last = [].
Proof. intros Hl. unfold range_chars. by rewrite seqZ_nil by lia. Qed.

Lemma range_chars_chars first last : 0 <= first -> last < 256 -> chars (range_chars first last).
Proof.
  intros H0 Hl. apply Forall_fmap, Forall_forall. intros x Hx%elem_of_seqZ. cbn. apply s8_char. lia.
Qed.

(** What a write, or a row of writes, of [new] does to a buffer. *)
Definition writes (new : str) (st st' : str * bool) : Prop :=
  put_ok st' /\ (exists added, fst st' = fst st ++ added /\ added ⊆ new) /\
  (snd st' = false -> snd st = false /\ fst st' = fst st ++ new).

Lemma writes_put c st : put_ok st -> exists st', put_char c st = Ret st' /\ writes [c] st st'.
Proof.
  intros H. destruct (put_char_ok c st H) as (st' & E & H1 & (added & Ha & Hc) & H2).
  exists st'. split; [done|]. split_and!; [done| |done]. exists added. split; [done|].
  intros x Hx. rewrite Forall_forall in Hc. rewrite (Hc x Hx). set_solver.
Qed.

Lemma writes_nil st : put_ok st -> writes [] st st.
Proof. intros H. split_and!; [done| |]; [exists []|]; by rewrite app_nil_r. Qed.

Lemma writes_app new1 new2 st1 st2 st3 : writes new1 st1 st2 -> writes new2 st2 st3 -> writes (new1 ++ new2) st1 st3.
Proof.
  intros (H1 & (a1 & E1 & S1) & F1) (H2 & (a2 & E2 & S2) & F2). split_and!; [done| |].
  - exists (a1 ++ a2). rewrite E2, E1, app_assoc. split; [done|]. set_solver.
  - intros Hs. destruct (F2 Hs) as [Hs2 ->]. destruct (F1 Hs2) as [Hs1 ->]. by rewrite app_assoc.
Qed.

Lemma writes_chars new st st' : chars new -> writes new st st' -> chars (fst st) -> chars (fst st').
Proof.
  intros Hn (_ & (a & -> & S) & _) Hs. apply Forall_app. split; [done|].
  apply Forall_forall. intros x Hx. unfold chars in Hn. rewrite Forall_forall in Hn. auto.
Qed.

Lemma expand_range_ok fuel first last st : 0 <= first < 255 -> 0 <= last < 255 -> put_ok st ->
  Z.max 0 (last - first) < Z.of_nat fuel -> exists st', expand_range fuel first last st = Ret st' /\ writes (range_chars first last) st st'.
Proof.
  revert first st. induction fuel as [|fuel IH]; intros first st Hf Hl Hst Hfuel.
  - cbn in Hfuel. lia.
  - cbn [expand_range]. rewrite (wrapu_id 8) by (unfold in_u; lia). case_if.
    + destruct (writes_put (s8 (first + 1)) st Hst) as (st1 & -> & H1). cbn [obind].
      destruct (IH (first + 1) st1) as (st2 & -> & H2); [lia|done|apply H1|lia|]. exists st2. split; [done|].
      rewrite range_chars_cons by lia. by apply (writes_app [_] _ _ st1).
    + exists st. split; [done|]. rewrite range_chars_nil by lia. by apply writes_nil.
Qed.

(** On a range that ends in character 255 the loop never ends. *)
Lemma expand_range_endless fuel first st : put_ok st -> expand_range fuel first 255 st = NoFuel.
Proof.
  revert first st. induction fuel as [|fuel IH]; intros first st Hst; [done|]. cbn [expand_range].
  pose proof (wrapu_range 8 (first + 1) ltac:(lia)) as Hu. unfold in_u in Hu. change (2 ^ 8) with 256 in Hu.
  rewrite (proj2 (Z.leb_le _ _)) by lia. destruct (writes_put (s8 (u8 (first + 1))) st Hst) as (st1 & -> & H1). cbn [obind].
  apply IH, H1.
Qed.

Lemma deref_nil s : chars s -> (deref s =? 0) = bool_decide (s = []).
Proof. intros [|c s' [_ Hc] _]; cbn; [done|]. by apply Z.eqb_neq. Qed.

Definition plain (s : str) : Prop := Forall plain_char s.

Lemma plain_chars s : plain s -> chars s.
Proof. intros H. eapply Forall_impl; [exact H|]. by intros c (H1 & H2 & _). Qed.

Lemma plain_single c : plain_char c -> chars [c].
Proof. intros (H1 & H2 & _). by apply Forall_singleton. Qed.

Lemma plain_check s : forallb (fun c => (-128 <=? c) && (c <? 128) && negb (c =? 0) && negb (c =? -1)) s = true -> plain s.
Proof.
  intros H. apply Forall_forall. intros c Hc%list_elem_of_In. rewrite forallb_forall in H. specialize (H c Hc). zb.
  unfold plain_char, in_s. change (2 ^ (8 - 1)) with 128. lia.
Qed.

(** The position after the set, and its buffer. *)
Definition set_read (src src' : str) (st' : str * bool) : Prop :=
  plain src' /\ (length src' <= length src)%nat /\ put_ok st' /\ chars (fst st').

Lemma set_read_le src1 src2 src' st' : (length src1 <= length src2)%nat -> set_read src1 src' st' -> set_read src2 src' st'.
Proof. intros Hl (H1 & H2 & H3). split_and!; [done|lia|apply H3..]. Qed.

Lemma read_set_ok fuel prev src st : (length src < fuel)%nat -> plain_char prev -> plain src -> put_ok st -> chars (fst st) ->
  exists src' st', read_set fuel prev src st = Ret (src', st') /\ set_read src src' st'.
Proof.
  revert prev src st. induction fuel as [|fuel IH]; intros prev src st Hfuel Hprev Hsrc Hst Hch; [lia|].
  cbn [read_set]. destruct Hsrc as [|c rest Hc Hrest]; [exists [], st; split; [done|]; split_and!; [constructor|done..]|]. cbn [length] in Hfuel.
  assert (Hput : forall d src1, plain_char d -> plain src1 -> (length src1 <= length rest)%nat ->
    exists src' st', (let* st := put_char d st in read_set fuel d src1 st) = Ret (src', st') /\ set_read (c :: rest) src' st').
  { intros d src1 Hd Hs Hl. destruct (writes_put d st Hst) as (st1 & -> & Hw). cbn [obind].
    destruct (IH d src1 st1) as (src' & st' & -> & Hr); [lia|done|done|apply Hw|by apply (writes_chars [d] st), Hch; [apply plain_single|]|].
    exists src', st'. split; [done|]. apply (set_read_le src1); [cbn; lia|done]. }
  destruct (c =? c_back) eqn:Eb.
  - destruct (special (deref rest)) eqn:Es.
    + destruct Hrest as [|d rest Hd Hrest]; [done|]. cbn [deref tail]. apply Hput; [done..|]. cbn. lia.
    + destruct (IH c rest st) as (src' & st' & -> & Hr); [lia|done..|]. exists src', st'. split; [done|].
      apply (set_read_le rest); [cbn; lia|done].
  - destruct (c =? c_dash) eqn:Ed; [|destruct (c =? c_close) eqn:Ec].
    + assert (Hrange : forall last src_next, (exists x, deref src_next = x /\ last = u8 x) -> plain src_next -> (length src_next <= length rest)%nat ->
        exists src' st', (if negb (deref (fst st) =? 0) && negb (last =? 0)
          then let* st := expand_range 256 (u8 prev) last st in read_set fuel (deref src_next) (tail src_next) st
          else let* st := put_char c st in read_set fuel c rest st) = Ret (src', st') /\ set_read (c :: rest) src' st').
      { intros last src_next (x & <- & ->) Hn Hl. destruct (negb (deref (fst st) =? 0) && _) eqn:E; [|by apply Hput].
        zb. destruct Hn as [|d src_next Hd Hn]; [done|]. cbn [deref tail length] in *.
        pose proof (plain_u8 _ Hd). pose proof (plain_u8 _ Hprev).
        destruct (expand_range_ok 256 (u8 prev) (u8 d) st) as (st1 & -> & Hw); [lia|lia|done|lia|]. cbn [obind].
        destruct (IH d src_next st1) as (src' & st' & -> & Hr); [lia|done|done|apply Hw| |].
        { apply (writes_chars (range_chars (u8 prev) (u8 d)) st); [|done..]. apply range_chars_chars; lia. }
        exists src', st'. split; [done|]. apply (set_read_le src_next); [cbn; lia|done]. }
      destruct (u8 (deref rest) =? c_back).
      * apply Hrange; [by eexists|destruct Hrest; [constructor|done]|destruct rest; cbn; lia].
      * apply Hrange; [by eexists|done|done].
    + exists rest, st. split; [done|]. split_and!; [done|cbn; lia|done..].
    + by apply Hput.
Qed.

(** ** Sets: sorted, without duplicates *)

Definition char_lt (a b : Z) : Prop := u8 a < u8 b.

#[export] Instance char_le_total : Total char_le.
Proof. intros a b. unfold char_le, compare_char. lia. Qed.

#[export] Instance char_le_trans : Transitive char_le.
Proof. intros a b c. unfold char_le, compare_char. lia. Qed.

Lemma unique_from_spec d b : in_s 8 d -> Forall (in_s 8) b -> StronglySorted char_le (d :: b) ->
  StronglySorted char_lt (d :: unique_from d b) /\ (forall x, x ∈ d :: unique_from d b <-> x ∈ d :: b) /\
  (length (unique_from d b) <= length b)%nat.
Proof.
  intros Hd Hb. revert d Hd. induction Hb as [|c b Hc Hb IH]; intros d Hd Hs; [split_and!; [repeat constructor|done..]|].
  inversion_clear Hs as [|? ? Hcb Hall]. inversion_clear Hall as [|? ? Hdc Hdb]. cbn [unique_from].
  case_if.
  - destruct (IH c Hc Hcb) as (H1 & H2 & H3). split_and!; [|set_solver|cbn; lia].
    assert (Hlt : char_lt d c).
    { unfold char_lt, char_le, compare_char in *. assert (u8 d <> u8 c); [|lia]. intros E'. by apply E, u8_inj. }
    constructor; [done|]. constructor; [done|]. inversion_clear H1 as [|? ? _ Hu].
    eapply Forall_impl; [exact Hu|]. unfold char_lt in *. lia.
  - subst c. destruct (IH d Hd) as (H1 & H2 & H3); [done|]. split_and!; [done|set_solver|cbn; lia].
Qed.

Lemma unique_qsort b : chars b -> StronglySorted char_lt (unique (qsort b)) /\ (forall x, x ∈ unique (qsort b) <-> x ∈ b) /\
  (length (unique (qsort b)) <= length b)%nat /\ (b <> [] -> unique (qsort b) <> []).
Proof.
  intros Hb. assert (Hp : qsort b ≡ₚ b) by apply merge_sort_Permutation.
  assert (Hs : StronglySorted char_le (qsort b)) by apply (StronglySorted_merge_sort char_le).
  assert (Hc : Forall (in_s 8) (qsort b)). { rewrite Hp. eapply Forall_impl; [exact Hb|]. by intros c []. }
  rewrite <- (Permutation_length Hp). setoid_rewrite <- (fun x => elem_of_Permutation_proper x _ _ Hp).
  assert (Hn : b <> [] -> qsort b <> []).
  { intros Hne E. rewrite E in Hp. by apply Permutation_nil_l in Hp. }
  destruct Hc as [|d l Hd Hl]; cbn [unique].
  - split_and!; [constructor|done..].
  - destruct (unique_from_spec d l Hd Hl Hs) as (H1 & H2 & H3). split_and!; [done..|cbn; lia|done].
Qed.

(** ** The next node *)

(** What is true of every node: its characters fit the buffer, are sorted and distinct,
    and give the specificity. *)
Definition node_ok (n : pattern_node) : Prop :=
  chars (buf n) /\ (length (buf n) <= 255)%nat /\ StronglySorted char_lt (buf n) /\
  specif n = match buf n with [] => 0 | _ => if specif n =? 1 then Z.of_nat (length (buf n)) else set_specif (buf n) end.

Lemma canonical_char c : in_s 8 c /\ c <> 0 -> in_s 8 (canonical c) /\ canonical c <> 0.
Proof. intros Hc. unfold canonical. repeat case_if; done. Qed.

Lemma single_ok c : in_s 8 c /\ c <> 0 -> node_ok (mk_pattern_node 1 [c]).
Proof. intros Hc. unfold node_ok. cbn. split_and!; [by apply Forall_singleton|lia|repeat constructor|done]. Qed.

Lemma set_specif_ge b : b <> [] -> 256 <= set_specif b.
Proof.
  intros Hb. unfold set_specif. pose proof (wrapu_range 8 (deref b) ltac:(lia)) as Hu. unfold in_u in Hu.
  rewrite shiftl_mul, lor_add by (done || lia). destruct b; [done|]. cbn [length]. lia.
Qed.

Lemma set_specif_lt b : (length b <= 255)%nat -> set_specif b < 0x10000.
Proof.
  intros Hb. unfold set_specif. pose proof (wrapu_range 8 (deref b) ltac:(lia)) as Hu. unfold in_u in Hu.
  rewrite shiftl_mul, lor_add by (done || lia). lia.
Qed.

Lemma next_node_ok fuel pattern src : (length src < fuel)%nat -> plain src ->
  exists n src', next_node fuel pattern src = Ret (n, src') /\ node_ok n /\ plain src' /\
  (length src' <= length src)%nat /\ (buf n <> [] -> (length src' < length src)%nat).
Proof.
  assert (Hnone : node_ok (mk_pattern_node 0 [])). { split_and!; [constructor|cbn; lia|constructor|done]. }
  revert src. induction fuel as [|fuel IH]; intros src Hfuel Hsrc; [lia|]. cbn [next_node].
  destruct Hsrc as [|c rest Hc Hrest]; [eexists _, []; split; [done|]; split_and!; [done|constructor|done..]|].
  cbn [length] in *.
  assert (Hskip : forall src1, plain src1 -> (length src1 <= length rest)%nat ->
    exists n src', next_node fuel pattern src1 = Ret (n, src') /\ node_ok n /\ plain src' /\
      (length src' <= S (length rest))%nat /\ (buf n <> [] -> (length src' < S (length rest))%nat)).
  { intros src1 Hp Hl. destruct (IH src1) as (n & src' & -> & H1 & H2 & H3 & H4); [lia|done|].
    exists n, src'. split_and!; [done..|lia|]. intros Hb. specialize (H4 Hb). lia. }
  destruct ((c =? c_open) && pattern).
  - destruct (read_set_ok (S (length rest)) c rest ([], false)) as (src' & [b ov] & -> & H1 & H2 & H3 & H4); [lia|done|done|by cbv|constructor|].
    cbn [obind]. destruct ov; [by apply Hskip|]. destruct (Z.eqb_spec (Z.of_nat (length b)) 0); [by apply Hskip|].
    cbn [fst] in H4. destruct (unique_qsort b H4) as (U1 & U2 & U3 & U4). unfold put_ok in H3. cbn [fst] in H3.
    assert (Hne : unique (qsort b) <> []) by (apply U4; by intros ->).
    eexists _, src'. split; [done|]. cbn [buf]. split_and!; [|done|lia|lia].
    split_and!; cbn [buf specif]; [|lia|done|].
    + apply Forall_forall. intros x Hx%U2. unfold chars in H4. rewrite Forall_forall in H4. auto.
    + pose proof (set_specif_ge _ Hne). destruct (unique (qsort b)); [done|]. by rewrite (proj2 (Z.eqb_neq _ 1)) by lia.
  - destruct (c =? c_dash); [by apply Hskip|]. destruct (c =? c_back).
    + destruct Hrest as [|d rest (Hd & Hd0 & _) Hrest]; [eexists _, []; split; [done|]; split_and!; [done|constructor|cbn; lia|done]|].
      eexists _, rest. split; [done|]. split_and!; [by apply single_ok|done|cbn; lia..].
    + destruct Hc as (Hc & Hc0 & _). eexists _, rest. split; [done|]. split_and!; [|done|lia..].
      apply single_ok. destruct pattern; [|done]. by apply canonical_char.
Qed.

(** The next node is there for every string without character 255: the code never
    writes outside the buffer and never loops forever, a node takes at least one
    character, and its characters are sorted and distinct. *)

(** For every extension without character 255, [get_pattern_node] returns, never
    writing outside its 256-byte buffer; the characters of the node are sorted as
    [unsigned char]s and distinct, its specificity is 1 for a character outside of
    brackets and otherwise made of the number of characters and the first one; and
    unless the end is reached the position moves forward. *)
Theorem get_pattern_node_correct src pattern : plain src ->
  exists n src', get_pattern_node src pattern = Ret (n, src') /\ node_ok n /\ plain src' /\
  (length src' <= length src)%nat /\ (buf n <> [] -> (length src' < length src)%nat).
Proof. intros Hp. apply next_node_ok; [lia|done]. Qed.

Lemma get_pattern_node_correct_witness :
  get_pattern_node (zs "[5-7a46]X") true = Ret (mk_pattern_node (set_specif (zs "4567a")) (zs "4567a"), zs "X") /\
  exists n src', get_pattern_node (zs "[5-7a46]X") true = Ret (n, src') /\ node_ok n /\ plain src' /\
  (length src' <= 9)%nat /\ (buf n <> [] -> (length src' < 9)%nat).
Proof.
  split; [vm_compute; reflexivity|]. apply (get_pattern_node_correct (zs "[5-7a46]X")).
  by apply plain_check.
Defined.

(** The loop that writes out a range, started in the 256-byte buffer, ends if and
    only if the range does not end in character 255: on such a range
    [unsigned char first] never exceeds it. *)
Theorem range_ends_iff first last st : 0 <= first < 256 -> 0 <= last < 256 -> put_ok st ->
  (exists fuel st', expand_range fuel first last st = Ret st') <-> last <> 255.
Proof.
  intros Hf Hl Hst. split.
  - intros (fuel & st' & E) ->. by rewrite expand_range_endless in E.
  - intros Hne. destruct (Z.eq_dec first 255) as [->|].
    + destruct (writes_put (s8 0) st Hst) as (st1 & E1 & H1).
      destruct (expand_range_ok 256 0 last st1) as (st2 & E2 & H2); [lia|lia|apply H1|lia|].
      exists 257%nat, st2. change (expand_range 257 255 last st) with
        (if 0 <=? last then let* st := put_char (s8 0) st in expand_range 256 0 last st else Ret st).
      rewrite (proj2 (Z.leb_le _ _)) by lia. by rewrite E1.
    + destruct (expand_range_ok 256 first last st) as (st2 & E2 & H2); [lia|lia|done|lia|]. by exists 256%nat, st2.
Qed.

Lemma range_ends_iff_witness :
  (exists fuel st', expand_range fuel 97 255 ([97], false) = Ret st') <-> 255 <> 255.
Proof. apply range_ends_iff; [lia|lia|by cbv]. Defined.

(** ** What simple sets hold *)

(** Dialled characters: digits, [*], [#] and [A] to [D]. *)
Definition dtmf (c : Z) : bool := Extension.between 48 57 c || Extension.between 65 68 c || (c =? 42) || (c =? 35).

(** Sets of dialled characters and ranges of them. *)
Fixpoint simple_set (body : str) : bool :=
  match body with
  | [] => true
  | a :: ((d :: b :: rest2) as rest) =>
      if d =? c_dash then dtmf a && dtmf b && (a <=? b) && simple_set rest2 else dtmf a && simple_set rest
  | a :: rest => dtmf a && simple_set rest
  end.

(** The characters of a set as they are written into the buffer. *)
Fixpoint expansion (body : str) : str :=
  match body with
  | [] => []
  | a :: ((d :: b :: rest2) as rest) =>
      if d =? c_dash then a :: seqZ (a + 1) (b - a) ++ expansion rest2 else a :: expansion rest
  | a :: rest => a :: expansion rest
  end.

Lemma dtmf_range c : dtmf c = true -> 35 <= c <= 68 /\ c <> 45.
Proof. unfold dtmf, Extension.between. intros H. zb. destruct H as [H|H]; zb; [|lia]. destruct H as [H|H]; zb; [|lia]. destruct H as [H|H]; zb; lia. Qed.

(** Two characters at a time, as sets are read. *)
Lemma body_ind (P : str -> Prop) : P [] -> (forall a, P [a]) ->
  (forall a d, P [d] -> P [a; d]) ->
  (forall a b rest, P rest -> P (b :: rest) -> P (a :: c_dash :: b :: rest)) ->
  (forall a d b rest, d <> c_dash -> P (d :: b :: rest) -> P (a :: d :: b :: rest)) -> forall s, P s.
Proof.
  intros H0 H1 H2 H3 H4. assert (H : forall n s, (length s <= n)%nat -> P s).
  { induction n as [|n IH]; intros [|a [|d [|b rest]]] Hl; cbn in Hl; try lia; auto.
    destruct (Z.eq_dec d c_dash) as [->|].
    - apply H3; apply IH; cbn; lia.
    - apply H4; [done|]. apply IH. cbn. lia. }
  intros s. by apply (H (length s)).
Qed.

(** A range, and a character that no range starts with. *)
Lemma range_eqs c a b rest :
  set_match c (a :: c_dash :: b :: rest) = ((a <=? c) && (c <=? b)) || set_match c rest /\
  simple_set (a :: c_dash :: b :: rest) = dtmf a && dtmf b && (a <=? b) && simple_set rest /\
  expansion (a :: c_dash :: b :: rest) = a :: seqZ (a + 1) (b - a) ++ expansion rest.
Proof. by split_and!. Qed.

Lemma char_eqs c a d b rest : d <> c_dash ->
  set_match c (a :: d :: b :: rest) = (c =? a) || set_match c (d :: b :: rest) /\
  simple_set (a :: d :: b :: rest) = dtmf a && simple_set (d :: b :: rest) /\
  expansion (a :: d :: b :: rest) = a :: expansion (d :: b :: rest).
Proof. intros Hd%Z.eqb_neq. split_and!; cbn -[Z.eqb]; by rewrite Hd. Qed.

Lemma set_match_expansion body c : simple_set body = true -> set_match c body = true <-> c ∈ expansion body.
Proof.
  induction body as [| a |a d IH|a b rest IH _|a d b rest Hd IH] using body_ind; intros Hs.
  - cbn. split; [done|]. by intros ?%elem_of_nil.
  - cbn. rewrite orb_false_r, Z.eqb_eq. by rewrite list_elem_of_singleton.
  - cbn. rewrite orb_false_r, orb_true_iff, !Z.eqb_eq. set_solver.
  - destruct (range_eqs c a b rest) as (E1 & E2 & E3). rewrite E1, E3. rewrite E2 in Hs. zb.
    rewrite orb_true_iff, (IH H0), elem_of_cons, elem_of_app, elem_of_seqZ, andb_true_iff, !Z.leb_le.
    split; [intros [G|G]|intros [G|[G|G]]]; auto; lia.
  - destruct (char_eqs c a d b rest Hd) as (E1 & E2 & E3). rewrite E1, E3. rewrite E2 in Hs. zb.
    rewrite orb_true_iff, elem_of_cons, Z.eqb_eq. specialize (IH H0). tauto.
Qed.

Lemma put_char_fits c b ov : (length b < 255)%nat -> put_char c (b, ov) = Ret (b ++ [c], ov).
Proof. intros H. unfold put_char. by rewrite !(proj2 (Z.ltb_lt _ _)) by lia. Qed.

Lemma expand_range_fits fuel first last b ov : 0 <= first < 128 -> first <= last < 128 ->
  Z.of_nat (length b) + (last - first) <= 255 -> last - first < Z.of_nat fuel ->
  expand_range fuel first last (b, ov) = Ret (b ++ seqZ (first + 1) (last - first), ov).
Proof.
  revert first b. induction fuel as [|fuel IH]; intros first b Hf Hl Hb Hfuel; [lia|]. cbn [expand_range].
  rewrite (wrapu_id 8) by (unfold in_u; lia). case_if.
  - rewrite put_char_fits, wraps_id by (unfold in_s; lia). cbn [obind]. rewrite IH, <- app_assoc; try lia.
    + rewrite (seqZ_cons (first + 1)) by lia. cbn [app].
      replace (Z.succ (first + 1)) with (first + 1 + 1) by lia. by replace (Z.pred (last - first)) with (last - (first + 1)) by lia.
    + rewrite length_app. cbn. lia.
  - rewrite seqZ_nil, app_nil_r by lia. done.
Qed.

Lemma read_simple_set fuel prev body after b : (length body < fuel)%nat -> simple_set body = true ->
  Forall (fun c => 35 <= c <= 68) b -> (length b + length (expansion body) <= 255)%nat ->
  read_set fuel prev (body ++ c_close :: after) (b, false) = Ret (after, (b ++ expansion body, false)).
Proof.
  revert fuel prev b. assert (Hput : forall fuel prev c rest b, dtmf c = true -> (length b < 255)%nat ->
    read_set (S fuel) prev (c :: rest) (b, false) = read_set fuel c rest (b ++ [c], false)).
  { intros fuel prev c rest b Hc%dtmf_range Hb. cbn [read_set]. rewrite !(proj2 (Z.eqb_neq _ _)) by lia.
    by rewrite put_char_fits. }
  assert (Hend : forall fuel prev b, (0 < fuel)%nat -> read_set fuel prev (c_close :: after) (b, false) = Ret (after, (b, false))).
  { intros [|fuel] prev b Hf; [lia|done]. }
  induction body as [| a |a d IH|a b0 rest IH _|a d b0 rest Hd IH] using body_ind; intros fuel prev b Hf Hs Hb Hlen.
  - cbn [app]. rewrite app_nil_r. apply Hend. cbn in Hf. lia.
  - cbn in Hf, Hs, Hlen. zb. destruct fuel as [|fuel]; [lia|]. cbn [app]. rewrite Hput by (done || lia). apply Hend. lia.
  - cbn in Hf, Hs, Hlen. zb. destruct fuel as [|[|fuel]]; [lia..|]. cbn [app]. rewrite Hput by (done || lia).
    rewrite Hput by (done || (rewrite length_app; cbn; lia)). rewrite Hend, <- app_assoc by lia. done.
  - destruct (range_eqs 0 a b0 rest) as (_ & E2 & E3). rewrite E3 in *. rewrite E2 in Hs. zb. cbn [length] in Hf, Hlen.
    destruct fuel as [|[|fuel]]; [lia..|]. cbn [app]. rewrite length_app, length_seqZ in Hlen.
    rewrite Hput by (done || lia). pose proof (dtmf_range a ltac:(done)). pose proof (dtmf_range b0 ltac:(done)).
    cbn [read_set deref tail]. change (c_dash =? c_back) with false. change (c_dash =? c_dash) with true. cbn iota.
    rewrite (wrapu_id 8 a), (wrapu_id 8 b0) by (unfold in_u; lia). rewrite !(proj2 (Z.eqb_neq b0 _)) by lia.
    assert ((deref (b ++ [a]) =? 0) = false) as E.
    { apply Z.eqb_neq. destruct Hb as [|x l Hx _]; cbn; lia. }
    cbn [fst]. rewrite E. cbn [negb andb deref tail].
    rewrite expand_range_fits; [|lia|lia|rewrite length_app; cbn; lia|lia]. cbn [obind deref tail].
    rewrite IH; [|lia|done| |rewrite !length_app, length_seqZ; cbn; lia].
    + do 3 f_equal. by rewrite <- !app_assoc.
    + apply Forall_app. split; [apply Forall_app; split; [done|apply Forall_singleton; lia]|].
      apply Forall_forall. intros x Hx%elem_of_seqZ. lia.
  - destruct (char_eqs 0 a d b0 rest Hd) as (_ & E2 & E3). rewrite E3 in *. rewrite E2 in Hs. zb. cbn [length] in Hf, Hlen.
    destruct fuel as [|fuel]; [lia|]. cbn [app]. rewrite Hput by (done || lia). rewrite (IH fuel a); [|cbn; lia|done| |rewrite length_app; cbn [length]; lia].
    + by rewrite <- app_assoc.
    + apply Forall_app. split; [done|]. apply Forall_singleton. pose proof (dtmf_range a ltac:(done)). lia.
Qed.
