(* ===== verification/Trie.v ===== *)
(** * The pattern trie of a context ([main/pbx.c])

    A context keeps its extensions in a trie of [struct match_char]: the nodes with the
    same first part are linked by [alt_char], sorted by specificity, and what can follow
    a node hangs off [next_char].  This file models the building, searching for one
    extension, removal and destruction of the trie on a store of nodes, pointer by
    pointer, and shows that it implements a finite map from the node sequences of
    extensions to extensions.

    [struct match_char **] is a [slot]: the root pointer of the context or the
    [next_char] field of a node.  The allocator is a parameter that looks at the store;
    what is needed of it is that it returns addresses not in use. *)

From S2P Require Import Extension PatternNode Prelude.
From Stdlib Require Import ZArith Lia Sorted.
From stdpp Require Import base list gmap numbers sets strings.

#[local] Open Scope Z_scope.
#[local] Open Scope outcome_scope.
#[local] Open Scope record_scope.

(** [struct ast_exten] is an entry of the list of priorities of an extension: what differs
    between the priorities of one extension is in [ast_peer]; what they share, and the
    list, [peer_table] and [peer_label_table] of the first one, in [ast_exten]. *)
Record ast_peer := mk_peer {
  pr_priority : Z;
  pr_label : option str;
  pr_app : str;
  pr_data : option str;
  pr_registrar : str
}.

Record ast_exten := mk_exten {
  ex_exten : str;
  ex_matchcid : bool;
  ex_cidmatch : str;
  ex_peers : list ast_peer;
  peer_label_table : list ast_peer
}.

(** The labels in [peer_label_table]. *)
Definition ex_labels (e : ast_exten) : list str := omap pr_label (peer_label_table e).

Record match_char := mk_match_char {
  is_pattern : bool;
  deleted : bool;
  specificity : Z;
  alt_char : option positive;
  next_char : option positive;
  mexten : option ast_exten;
  mx : str;
}.

#[export] Instance match_char_eta : Eta match_char := fun n =>
  mk_match_char (is_pattern n) (deleted n) (specificity n) (alt_char n) (next_char n) (mexten n) (mx n).

Record ast_context := mk_context {
  pattern_tree : option positive;
  nodes : gmap positive match_char;
}.

#[export] Instance ast_context_eta : Eta ast_context := fun c => mk_context (pattern_tree c) (nodes c).

(** [p->...] for reading, and for writing. *)
Definition node_at (con : ast_context) (a : positive) : outcome match_char := oaccess (nodes con !! a).

Definition update (con : ast_context) (a : positive) (f : match_char -> match_char) : outcome ast_context :=
  let* n := node_at con a in Ret (con <| nodes ::= <[a := f n]> |>).

(** ** Inserting nodes *)

Fixpoint already_loop (fuel : nat) (con : ast_context) (t : option positive) (pat : str) (is_pat : bool) : outcome (option positive) :=
  match fuel with
  | O => NoFuel
  | S fuel =>
      match t with
      | None => Ret None
      | Some a =>
          let* n := node_at con a in
          if Bool.eqb is_pat (is_pattern n) && bool_decide (pat = mx n) then Ret t
          else already_loop fuel con (alt_char n) pat is_pat
      end
  end.

Definition already_in_tree (con : ast_context) (current : option positive) (pat : str) (is_pat : bool) : outcome (option positive) :=
  already_loop (S (size (nodes con))) con current pat is_pat.

Inductive slot := Root | Next (a : positive).

Definition read_slot (con : ast_context) (s : slot) : outcome (option positive) :=
  match s with Root => Ret (pattern_tree con) | Next a => let* n := node_at con a in Ret (next_char n) end.

Definition write_slot (con : ast_context) (s : slot) (p : option positive) : outcome ast_context :=
  match s with Root => Ret (con <| pattern_tree := p |>) | Next a => update con a (fun n => n <| next_char := p |>) end.

(** The loop [for (curr = ...; curr; curr = curr->alt_char)] and what follows it. *)
Fixpoint insert_loop (fuel : nat) (con : ast_context) (node lcurr : positive) (curr : option positive) : outcome ast_context :=
  match fuel with
  | O => NoFuel
  | S fuel =>
      match curr with
      | None => update con lcurr (fun l => l <| alt_char := Some node |>)
      | Some c =>
          let* cn := node_at con c in
          let* m := node_at con node in
          if specificity cn >? specificity m then
            let* con := update con node (fun m => m <| alt_char := curr |>) in
            update con lcurr (fun l => l <| alt_char := Some node |>)
          else insert_loop fuel con node c (alt_char cn)
      end
  end.

Definition insert_in_next_chars_alt_char_list (con : ast_context) (parent_ptr : slot) (node : positive) : outcome ast_context :=
  let* parent := read_slot con parent_ptr in
  match parent with
  | None => write_slot con parent_ptr (Some node)
  | Some h =>
      let* hn := node_at con h in
      let* m := node_at con node in
      if specificity hn >? specificity m then
        let* con := update con node (fun m => m <| alt_char := parent |>) in
        write_slot con parent_ptr (Some node)
      else insert_loop (S (size (nodes con))) con node h (alt_char hn)
  end.

(** The specificity a node gets. *)
Definition node_specificity (pattern : pattern_node) (is_pat : bool) : Z :=
  let c := deref (buf pattern) in
  if (specif pattern =? 1) && is_pat && (c =? 78) then 0x0832
  else if (specif pattern =? 1) && is_pat && (c =? 90) then 0x0931
  else if (specif pattern =? 1) && is_pat && (c =? 88) then 0x0a30
  else if (specif pattern =? 1) && is_pat && (c =? c_dot) then 0x18000
  else if (specif pattern =? 1) && is_pat && (c =? c_bang) then 0x28000
  else specif pattern.

(** [if (m2->exten) ...; m2->exten = e1; m2->deleted = 0], whose test only warns. *)
Definition cap (con : ast_context) (a : positive) e : outcome ast_context :=
  update con a (fun m => m <| deleted := false |> <| mexten := Some e |>).

(** The text of an extension: [None] if it is too big. *)
Definition extenbuf e : option str :=
  if ex_matchcid e then
    if 512 <? Z.of_nat (length (ex_exten e)) + Z.of_nat (length (ex_cidmatch e)) + 2 then None
    else Some (ex_exten e ++ c_slash :: ex_cidmatch e)
  else Some (take 511 (ex_exten e)).

(** Whether it is a pattern, and where its nodes start. *)
Definition pattern_start (text : str) : bool * str :=
  if deref text =? c_under then (true, tail text) else (false, text).

Section Allocator.
Context (ast_calloc : gmap positive match_char -> option positive).

Definition add_pattern_node (con : ast_context) (current : option positive) (pattern : pattern_node) (is_pat already : bool)
    (nextcharptr : slot) : outcome (ast_context * option positive) :=
  match ast_calloc (nodes con) with
  | None => Ret (con, None)
  | Some m =>
      let con := con <| nodes ::= <[m := mk_match_char is_pat false (node_specificity pattern is_pat) None None None (buf pattern)]> |> in
      let* con :=
        match pattern_tree con with
        | None => insert_in_next_chars_alt_char_list con Root m
        | Some _ =>
            if already then insert_in_next_chars_alt_char_list con nextcharptr m
            else let* c := oaccess current in insert_in_next_chars_alt_char_list con (Next c) m
        end in
      Ret (con, Some m)
  end.

(** The loop over the nodes of the extension: [m1], [m0], [already], the current node
    and the position of the next. *)
Fixpoint add_loop (fuel : nat) (con : ast_context) (e : ast_exten) (findonly pattern : bool) (m1 : option positive) (m0 : slot) (already : bool)
    (cur : pattern_node) (pos : str) : outcome (ast_context * option positive) :=
  match fuel with
  | O => NoFuel
  | S fuel =>
      if deref (buf cur) =? 0 then Ret (con, m1)
      else
        let* (next, pos) := get_pattern_node pos pattern in
        let last := deref (buf next) =? 0 in
        let* m2 := if already then already_in_tree con m1 (buf cur) pattern else Ret None in
        let* m2_next := match m2 with Some a => let* n := node_at con a in Ret (next_char n) | None => Ret None end in
        match m2, m2_next with
        | Some a, Some _ =>
            if last && findonly then Ret (con, m2)
            else
              let* con := if last then cap con a e else Ret con in
              add_loop fuel con e findonly pattern m2_next (Next a) already next pos
        | Some a, None =>
            if findonly then Ret (con, m2)
            else
              let* con := if last then cap con a e else Ret con in
              add_loop fuel con e findonly pattern m2 m0 false next pos
        | None, _ =>
            if findonly then Ret (con, m1)
            else
              let* (con, m1) := add_pattern_node con m1 cur pattern already m0 in
              match m1 with
              | None => Ret (con, None)
              | Some a =>
                  let* con := if last then cap con a e else Ret con in
                  add_loop fuel con e findonly pattern m1 (Next a) false next pos
              end
        end
  end.

Definition add_exten_to_pattern_tree (con : ast_context) (e : ast_exten) (findonly : bool) : outcome (ast_context * option positive) :=
  match extenbuf e with
  | None => Ret (con, None)
  | Some text =>
      let '(pattern, pos) := pattern_start text in
      let* (cur, pos) := get_pattern_node pos pattern in
      add_loop (S (S (length pos))) con e findonly pattern (pattern_tree con) Root true cur pos
  end.

(** [create_match_char_tree], over the extensions in the order the hash table gives
    them. *)
Definition create_match_char_tree (con : ast_context) (extens : list ast_exten) : outcome ast_context :=
  ofold (fun con e => let* (con, _) := add_exten_to_pattern_tree con e false in Ret con) con extens.

(** The removal of an extension from the trie; [x->exten] reads through [x]. *)
Definition trie_remove (con : ast_context) e : outcome ast_context :=
  let* (con, x) := add_exten_to_pattern_tree con e true in
  let* a := oaccess x in
  let* n := node_at con a in
  match mexten n with
  | Some _ => update con a (fun n => n <| deleted := true |> <| mexten := None |>)
  | None => Ret con
  end.

(** The replacement of [e] by [tmp]. *)
Definition trie_replace (con : ast_context) (e : ast_exten) (tmp : ast_exten) : outcome ast_context :=
  let* (con, x) := add_exten_to_pattern_tree con e true in
  match x with
  | None => Ret con
  | Some a =>
      let* n := node_at con a in
      match mexten n with
      | Some _ => update con a (fun n => n <| mexten := Some tmp |>)
      | None => Ret con
      end
  end.
End Allocator.

(** [destroy_pattern_tree]: the nodes are freed, deepest first. *)
Fixpoint destroy_pattern_tree (fuel : nat) (con : ast_context) (a : positive) : outcome ast_context :=
  match fuel with
  | O => NoFuel
  | S fuel =>
      let* n := node_at con a in
      let* con := match alt_char n with
                  | Some b => let* con := destroy_pattern_tree fuel con b in update con a (fun n => n <| alt_char := None |>)
                  | None => Ret con
                  end in
      let* n := node_at con a in
      let* con := match next_char n with
                  | Some b => let* con := destroy_pattern_tree fuel con b in update con a (fun n => n <| next_char := None |>)
                  | None => Ret con
                  end in
      let* con := update con a (fun n => n <| mexten := None |>) in
      Ret (con <| nodes ::= delete a |>)
  end.

(** ** The trie as a tree *)

Record label := mk_label { l_pat : bool; l_del : bool; l_spec : Z; l_exten : option ast_exten; l_x : str }.

(** First what follows the node, then its alternatives. *)
Inductive trie := TLeaf | TNode (l : label) (next alt : trie).

Definition node_of (l : label) (alt next : option positive) : match_char :=
  mk_match_char (l_pat l) (l_del l) (l_spec l) alt next (l_exten l) (l_x l).

(** The tree at a pointer, and the addresses of its nodes. *)
Inductive rep (m : gmap positive match_char) : option positive -> trie -> gset positive -> Prop :=
  | rep_leaf : rep m None TLeaf ∅
  | rep_node a l p q nx al B C : m !! a = Some (node_of l q p) -> rep m p nx B -> rep m q al C ->
      a ∉ B -> a ∉ C -> B ## C -> rep m (Some a) (TNode l nx al) ({[a]} ∪ B ∪ C).

Lemma rep_dom m p t A : rep m p t A -> forall b, b ∈ A -> is_Some (m !! b).
Proof. induction 1; [set_solver|]. intros b Hb. set_unfold. destruct Hb as [[->|Hb]|Hb]; eauto. Qed.

Lemma rep_frame m m' p t A : rep m p t A -> (forall b, b ∈ A -> m' !! b = m !! b) -> rep m' p t A.
Proof.
  induction 1 as [|a l p q nx al B C Hn _ IH1 _ IH2 HB HC HBC]; intros Hf; [constructor|].
  econstructor; eauto; [rewrite Hf by set_solver; done|apply IH1|apply IH2]; intros b Hb; apply Hf; set_solver.
Qed.

Lemma rep_null m p t A : rep m p t A -> p = None <-> t = TLeaf.
Proof. by destruct 1. Qed.

Lemma rep_none m t A : rep m None t A -> t = TLeaf /\ A = ∅.
Proof. inversion 1; by subst. Qed.

Fixpoint alts (t : trie) : nat := match t with TLeaf => 0%nat | TNode _ _ al => S (alts al) end.

Lemma rep_alts m p t A : rep m p t A -> (alts t <= size A)%nat.
Proof.
  induction 1 as [|a l p q nx al B C Hn _ IH1 _ IH2 HB HC HBC]; cbn [alts]; [lia|].
  rewrite size_union by set_solver. rewrite size_union by set_solver. rewrite size_singleton. lia.
Qed.

Lemma rep_size m p t A : rep m p t A -> (size A <= size m)%nat.
Proof.
  intros H. rewrite <- (size_dom (D := gset positive)). apply subseteq_size. intros b Hb.
  apply elem_of_dom. by apply (rep_dom _ _ _ _ H).
Qed.

(** ** Keys and children *)

Definition key : Type := bool * str.

Definition has_key (k : key) (l : label) : bool := Bool.eqb (fst k) (l_pat l) && bool_decide (snd k = l_x l).

Lemma has_key_spec k l : has_key k l = true <-> (l_pat l, l_x l) = k.
Proof.
  unfold has_key. destruct k as [b s]. cbn. rewrite andb_true_iff, Bool.eqb_true_iff, bool_decide_eq_true.
  split; [intros []; congruence|by intros [= -> ->]].
Qed.

Fixpoint child (t : trie) (k : key) : option (label * trie) :=
  match t with TLeaf => None | TNode l nx al => if has_key k l then Some (l, nx) else child al k end.

Fixpoint set_child (t : trie) (k : key) (l' : label) (nx' : trie) : trie :=
  match t with
  | TLeaf => TLeaf
  | TNode l nx al => if has_key k l then TNode l' nx' al else TNode l nx (set_child al k l' nx')
  end.

Fixpoint insert_sorted (t : trie) (l : label) (nx : trie) : trie :=
  match t with
  | TLeaf => TNode l nx TLeaf
  | TNode l' nx' al => if l_spec l' >? l_spec l then TNode l nx t else TNode l' nx' (insert_sorted al l nx)
  end.

(** Searching the alternatives. *)
Lemma already_none con p t A k fuel : rep (nodes con) p t A -> child t k = None -> (alts t < fuel)%nat ->
  already_loop fuel con p (snd k) (fst k) = Ret None.
Proof.
  intros H. revert fuel. induction H as [|a l p q nx al B C Hn _ _ H2 IH2 HB HC HBC]; intros [|fuel] Hk Hf; try (cbn in Hf; lia); [done|].
  cbn [already_loop child alts] in *. unfold node_at, oaccess. rewrite Hn. cbn [obind node_of is_pattern mx alt_char].
  fold (has_key k l). destruct (has_key k l); [done|]. apply IH2; [done|lia].
Qed.

(** A node that is among them, what it holds, and the tree when both change. *)
Lemma rep_child m p t A k l nx : rep m p t A -> child t k = Some (l, nx) ->
  exists a q p1 B, m !! a = Some (node_of l q p1) /\ rep m p1 nx B /\ a ∈ A /\ B ⊆ A /\ a ∉ B /\
  (forall con fuel, nodes con = m -> (alts t < fuel)%nat -> already_loop fuel con p (snd k) (fst k) = Ret (Some a)) /\
  (forall m' p1' l' nx' B', (forall b, b ∈ A -> b <> a -> b ∉ B -> m' !! b = m !! b) ->
    m' !! a = Some (node_of l' q p1') -> rep m' p1' nx' B' -> a ∉ B' -> B' ## A ∖ B ->
    rep m' p (set_child t k l' nx') (A ∖ B ∪ B')).
Proof.
  intros H. induction H as [|a l0 p q nx0 al B C Hn H1 IH1 H2 IH2 HB HC HBC]; intros Hk; [done|].
  cbn [child set_child] in *. destruct (has_key k l0) eqn:E.
  - simplify_eq. exists a, q, p, B. split_and!; [done|done|set_solver|set_solver|done| |].
    + intros con [|fuel] Hm Hf; [cbn in Hf; lia|]. cbn [already_loop]. unfold node_at, oaccess. rewrite Hm, Hn.
      cbn [obind node_of is_pattern mx]. fold (has_key k l). by rewrite E.
    + intros m' p1' l' nx' B' Hf Ha Hr HaB HB'.
      replace (({[a]} ∪ B ∪ C) ∖ B ∪ B') with ({[a]} ∪ B' ∪ C) by (apply set_eq; set_solver).
      econstructor; [done|done| |done|done|set_solver]. apply (rep_frame m); [done|].
      intros b Hb. apply Hf; set_solver.
  - destruct (IH2 Hk) as (a1 & q1 & p1 & B1 & G1 & G2 & G3 & G4 & G5 & G6 & G7).
    exists a1, q1, p1, B1. split_and!; [done|done|set_solver|set_solver|done| |].
    + intros con [|fuel] Hm Hf; [cbn in Hf; lia|]. cbn [already_loop alts] in *. unfold node_at, oaccess. rewrite Hm, Hn.
      cbn [obind node_of is_pattern mx alt_char]. fold (has_key k l0). rewrite E. apply G6; [done|lia].
    + intros m' p1' l' nx' B' Hf Ha Hr HaB HB'.
      replace (({[a]} ∪ B ∪ C) ∖ B1 ∪ B') with ({[a]} ∪ B ∪ (C ∖ B1 ∪ B')) by (apply set_eq; set_solver).
      econstructor; [|apply (rep_frame m); [done|]|apply (G7 m' p1' l' nx' B'); [|done..|set_solver]|done|set_solver|set_solver].
      * rewrite <- Hn. apply Hf; set_solver.
      * intros b Hb. apply Hf; set_solver.
      * intros b Hb. apply Hf; set_solver.
Qed.

(** ** Insertion *)

Lemma rep_eq m p t A B : rep m p t A -> A = B -> rep m p t B.
Proof. by intros H <-. Qed.

Lemma rep_single m a l : m !! a = Some (node_of l None None) -> rep m (Some a) (TNode l TLeaf TLeaf) {[a]}.
Proof. intros H. eapply rep_eq; [econstructor; [done|constructor|constructor|set_solver..]|set_solver]. Qed.

(** A store that was changed only in [A], and one pointer of which is now [p]. *)
Definition slot_step (con con' : ast_context) (s : slot) (p : option positive) (A : gset positive) : Prop :=
  match s with
  | Root => pattern_tree con' = p /\ forall b, b ∉ A -> nodes con' !! b = nodes con !! b
  | Next c => pattern_tree con' = pattern_tree con /\
      (exists l q r, nodes con !! c = Some (node_of l q r) /\ nodes con' !! c = Some (node_of l q p)) /\
      forall b, b ∉ A -> b <> c -> nodes con' !! b = nodes con !! b
  end.

Definition slot_out (s : slot) (A : gset positive) : Prop := match s with Root => True | Next c => c ∉ A end.

Lemma node_of_eta n : exists l, n = node_of l (alt_char n) (next_char n).
Proof. exists (mk_label (is_pattern n) (deleted n) (specificity n) (mexten n) (mx n)). by destruct n. Qed.

Lemma update_at con a n f : nodes con !! a = Some n -> update con a f = Ret (con <| nodes := <[a := f n]> (nodes con) |>).
Proof. intros H. unfold update, node_at, oaccess. by rewrite H. Qed.

Lemma node_at_some con a n : nodes con !! a = Some n -> node_at con a = Ret n.
Proof. intros H. unfold node_at, oaccess. by rewrite H. Qed.

(** Writing a slot outside of [A]. *)
Lemma write_slot_step con s p0 p A : read_slot con s = Ret p0 -> slot_out s A ->
  exists con', write_slot con s p = Ret con' /\ slot_step con con' s p A /\ forall b, b ∈ A -> nodes con' !! b = nodes con !! b.
Proof.
  destruct s as [|c]; cbn; intros Hr Ho; [by eexists|].
  unfold node_at, oaccess in Hr. destruct (nodes con !! c) as [n|] eqn:E; [|done].
  rewrite (update_at _ _ _ _ E). eexists. split; [done|]. cbn. split_and!.
  - done.
  - destruct (node_of_eta n) as [l ->]. eexists l, _, _. split; [done|]. by rewrite lookup_insert_eq.
  - intros b Hb Hbc. by rewrite lookup_insert_ne.
  - intros b Hb. rewrite lookup_insert_ne; [done|]. by intros <-.
Qed.

Lemma read_slot_step con con' s p A : slot_step con con' s p A -> read_slot con' s = Ret p.
Proof.
  destruct s as [|c]; cbn; [by intros [-> _]|]. intros (_ & (l & q & r & _ & H) & _). by rewrite (node_at_some _ _ _ H).
Qed.

Lemma slot_step_trans con1 con2 con3 s p q A B : slot_step con1 con2 s p A -> slot_step con2 con3 s q B -> A ⊆ B ->
  slot_step con1 con3 s q B.
Proof.
  destruct s as [|c]; cbn.
  - intros [H1 H2] [H3 H4] HAB. split; [done|]. intros b Hb. rewrite H4, H2 by set_solver. done.
  - intros (H1 & (l & q1 & r & H2 & H3) & H4) (H5 & (l' & q' & r' & H6 & H7) & H8) HAB. split_and!; [congruence| |].
    + eexists l, q1, r. split; [done|]. rewrite H3 in H6. injection H6 as E1 E2 E3 E4 E5 E6 E7.
      rewrite H7. f_equal. unfold node_of. by rewrite E1, E2, E3, E4, E6, E7.
    + intros b Hb Hc. rewrite H8, H4 by set_solver. done.
Qed.

Lemma slot_step_fresh con con' a n s p A : slot_step (con <| nodes := <[a := n]> (nodes con) |>) con' s p A ->
  a ∈ A -> slot_out s A -> slot_step con con' s p A.
Proof.
  destruct s as [|d]; cbn.
  - intros [H1 H2] Ha _. split; [done|]. intros b Hb. rewrite H2 by done. rewrite lookup_insert_ne; [done|set_solver].
  - intros (H1 & (l & q & r & H2 & H3) & H4) Ha Hd. split_and!; [done| |].
    + exists l, q, r. split; [|done]. rewrite lookup_insert_ne in H2; [done|set_solver].
    + intros b Hb Hbd. rewrite H4 by done. rewrite lookup_insert_ne; [done|set_solver].
Qed.

(** What the slot points to does not change. *)
Lemma slot_step_same con con' s p A : read_slot con s = Ret p -> pattern_tree con' = pattern_tree con ->
  (forall b, b ∉ A -> nodes con' !! b = nodes con !! b) -> slot_out s A -> slot_step con con' s p A.
Proof.
  destruct s as [|d]; cbn; intros Hs Hp Hf Ho; [split; [congruence|done]|].
  unfold node_at, oaccess in Hs. destruct (nodes con !! d) as [n|] eqn:Ed; [|done]. cbn in Hs. injection Hs as Hs.
  destruct (node_of_eta n) as [ld Hld]. rewrite Hs in Hld. split_and!; [done| |auto].
  exists ld, (alt_char n), p. split; [by f_equal|]. rewrite Hf, Ed by done. by f_equal.
Qed.

(** The node [a], labelled [l], is among the alternatives [t] at [p], and stays so when
    something is hung below it. *)
Definition inserted (m : gmap positive match_char) (a : positive) (l : label) (p : option positive) (t : trie)
    (C : gset positive) : Prop :=
  exists q, m !! a = Some (node_of l q None) /\
  forall m' l' p1 nx B, (forall b, b ∈ C -> m' !! b = m !! b) -> m' !! a = Some (node_of l' q p1) -> rep m' p1 nx B ->
    a ∉ B -> B ## C -> l_spec l' = l_spec l -> rep m' p (insert_sorted t l' nx) ({[a]} ∪ C ∪ B).

Lemma inserted_here m a l p t C : m !! a = Some (node_of l p None) -> rep m p t C -> a ∉ C ->
  match t with TLeaf => True | TNode l0 _ _ => l_spec l < l_spec l0 end -> inserted m a l (Some a) t C.
Proof.
  intros Ha Hrep HaC Ht. exists p. split; [done|]. intros m' l' p1 nx B Hf Ha' Hr HaB HB Hl.
  apply (rep_frame m m') in Hrep; [|done].
  assert (insert_sorted t l' nx = TNode l' nx t) as ->.
  { destruct t as [|l0 nx0 al]; cbn; [done|]. by rewrite Hl, Z.gtb_ltb, (proj2 (Z.ltb_lt _ _)). }
  eapply rep_eq; [by econstructor|set_solver].
Qed.

Lemma inserted_later m a l c lc q pc nx al B C : m !! c = Some (node_of lc q pc) -> rep m pc nx B -> inserted m a l q al C ->
  l_spec lc <= l_spec l -> c <> a -> a ∉ B -> a ∉ C -> c ∉ B -> c ∉ C -> B ## C ->
  inserted m a l (Some c) (TNode lc nx al) ({[c]} ∪ B ∪ C).
Proof.
  intros Hc Hnx (qa & Ha & Hw) Hspec Hca HaB HaC HcB HcC HBC. exists qa. split; [done|].
  intros m' l' p1 nx1 B1 Hf Ha' Hr HaB1 HB1 Hl. cbn [insert_sorted].
  rewrite Hl, Z.gtb_ltb, (proj2 (Z.ltb_ge _ _)) by done.
  eapply rep_eq; [eapply (rep_node _ c lc pc q nx _ B ({[a]} ∪ C ∪ B1))|set_solver]; [| | |done|..].
  - rewrite <- Hc. apply Hf. set_solver.
  - apply (rep_frame m); [done|]. intros b Hb. apply Hf. set_solver.
  - apply (Hw m' l' p1); [|done..|set_solver|done]. intros b Hb. apply Hf. set_solver.
  - enough (c ∉ B1) by set_solver. set_solver.
  - set_solver.
Qed.

Lemma insert_loop_ok con a h l l0 q p0 al C fuel : rep (nodes con) q al C -> (alts al < fuel)%nat ->
  nodes con !! a = Some (node_of l None None) -> nodes con !! h = Some (node_of l0 q p0) -> a ∉ C -> h ∉ C -> h <> a ->
  exists con' q', insert_loop fuel con a h q = Ret con' /\ pattern_tree con' = pattern_tree con /\
    nodes con' !! h = Some (node_of l0 q' p0) /\ inserted (nodes con') a l q' al C /\
    forall b, b ∉ {[a]} ∪ C -> b <> h -> nodes con' !! b = nodes con !! b.
Proof.
  intros Hrep. remember (nodes con) as m eqn:Hm. revert h l0 p0 fuel.
  induction Hrep as [|c lc pc qc nx al B C Hc Hnx _ Hal IH HB HC HBC]; intros h l0 p0 [|fuel] Hf Ha Hh HaC HhC Hha;
    try (cbn in Hf; lia); cbn [insert_loop].
  - rewrite (update_at con h _ _ ltac:(by rewrite <- Hm)). eexists _, (Some a). split; [done|]. cbn. rewrite <- Hm. split_and!.
    + done.
    + by rewrite lookup_insert_eq.
    + apply (inserted_here _ a l None); [by rewrite lookup_insert_ne|constructor|done|done].
    + intros b Hb Hbh. by rewrite lookup_insert_ne.
  - cbn [alts] in Hf. rewrite (node_at_some con c _ ltac:(by rewrite <- Hm)), (node_at_some con a _ ltac:(by rewrite <- Hm)).
    cbn [obind node_of specificity alt_char]. destruct (_ >? _) eqn:E; zb.
    + rewrite (update_at con a _ _ ltac:(by rewrite <- Hm)). cbn [obind].
      rewrite (update_at _ h (node_of l0 (Some c) p0)) by (cbn; rewrite lookup_insert_ne, <- Hm; done).
      eexists _, (Some a). split; [done|]. cbn. rewrite <- Hm. split_and!.
      * done.
      * by rewrite lookup_insert_eq.
      * apply (inserted_here _ a l (Some c)); [by rewrite lookup_insert_ne, lookup_insert_eq| |done|done].
        apply (rep_frame m); [by econstructor|]. intros b Hb. rewrite !lookup_insert_ne; [done|set_solver..].
      * intros b Hb Hbh. rewrite !lookup_insert_ne; [done|set_solver..].
    + destruct (IH c lc pc fuel) as (con' & q' & E1 & G1 & G2 & G3 & G4); [lia|done|done|set_solver|done|set_solver|].
      rewrite E1. eexists con', (Some c). split; [done|]. split_and!.
      * done.
      * rewrite G4, Hh by set_solver. done.
      * apply (inserted_later _ _ _ _ _ q' pc); [done| |done|done|set_solver..].
        apply (rep_frame m); [done|]. intros b Hb. apply G4; set_solver.
      * intros b Hb Hbh. apply G4; set_solver.
Qed.

Lemma insert_ok con s a l p t A : rep (nodes con) p t A -> read_slot con s = Ret p ->
  nodes con !! a = Some (node_of l None None) -> a ∉ A -> slot_out s ({[a]} ∪ A) ->
  exists con' p', insert_in_next_chars_alt_char_list con s a = Ret con' /\ slot_step con con' s p' ({[a]} ∪ A) /\
    inserted (nodes con') a l p' t A.
Proof.
  intros Hrep Hs Ha HaA Ho. unfold insert_in_next_chars_alt_char_list. rewrite Hs. cbn [obind].
  pose proof (rep_size _ _ _ _ Hrep) as Hsz. pose proof (rep_alts _ _ _ _ Hrep) as Halts.
  inversion Hrep as [|c lc pc qc nx al B C Hc Hnx Hal HB HC HBC]; subst.
  - destruct (write_slot_step con s None (Some a) ({[a]} ∪ ∅) Hs Ho) as (con' & E & G1 & G2).
    exists con', (Some a). split_and!; [done..|]. apply (inserted_here _ a l None); [|constructor|done|done].
    by rewrite G2 by set_solver.
  - cbn [alts] in Halts. rewrite (node_at_some con c _ Hc), (node_at_some con a _ Ha).
    cbn [obind node_of specificity alt_char]. destruct (_ >? _) eqn:E; zb.
    + rewrite (update_at con a _ _ Ha). cbn [obind].
      set (con1 := con <| nodes := <[a := _]> (nodes con) |>).
      assert (Hs1 : read_slot con1 s = Ret (Some c)).
      { destruct s as [|d]; [done|]. rewrite <- Hs. cbn. unfold node_at. cbn. rewrite lookup_insert_ne; [done|]. cbn in Ho. set_solver. }
      destruct (write_slot_step con1 s (Some c) (Some a) _ Hs1 Ho) as (con' & E1 & G1 & G2).
      exists con', (Some a). split_and!; [done| |].
      * eapply slot_step_fresh; [exact G1|set_solver|done].
      * apply (inserted_here _ a l (Some c)); [|apply (rep_frame (nodes con)); [done|]|done|done].
        -- rewrite G2 by set_solver. cbn. by rewrite lookup_insert_eq.
        -- intros b Hb. rewrite G2 by set_solver. cbn. rewrite lookup_insert_ne; [done|set_solver].
    + destruct (insert_loop_ok con a c l lc qc pc al C (S (size (nodes con)))) as (con' & q' & E1 & G1 & G2 & G3 & G4);
        [done|lia|done|done|set_solver|done|set_solver|].
      rewrite E1. exists con', (Some c). split_and!; [done| |].
      * apply slot_step_same; [done|done| |done]. intros b Hb. apply G4; set_solver.
      * apply (inserted_later _ _ _ _ _ q' pc); [done| |done|done|set_solver..].
        apply (rep_frame (nodes con)); [done|]. intros b Hb. apply G4; set_solver.
Qed.

(** ** Adding an extension *)

Definition new_label (pat : bool) (tok : pattern_node) : label :=
  mk_label pat false (node_specificity tok pat) None (buf tok).

Definition cap_label (oe : option ast_exten) (l : label) : label :=
  match oe with Some e => mk_label (l_pat l) false (l_spec l) (Some e) (l_x l) | None => l end.

(** The last node of a row gets the extension. *)
Definition cap_last (rest : list pattern_node) (oe : option ast_exten) (l : label) : label :=
  match rest with [] => cap_label oe l | _ => l end.

(** The trie with a row of nodes, the last of them capped with an extension, if any. *)
Fixpoint grow (t : trie) (pat : bool) (toks : list pattern_node) (oe : option ast_exten) : trie :=
  match toks with
  | [] => t
  | tok :: rest =>
      match child t (pat, buf tok) with
      | Some (l, nx) => set_child t (pat, buf tok) (cap_last rest oe l) (grow nx pat rest oe)
      | None => insert_sorted t (cap_last rest oe (new_label pat tok)) (grow TLeaf pat rest oe)
      end
  end.

(** The nodes the loop goes through: the current one and those that follow [pos]. *)
Inductive tokens_from (pat : bool) : pattern_node -> str -> list pattern_node -> Prop :=
  | tokens_end cur pos : deref (buf cur) = 0 -> tokens_from pat cur pos []
  | tokens_next cur pos next pos' ts : deref (buf cur) <> 0 -> get_pattern_node pos pat = Ret (next, pos') ->
      tokens_from pat next pos' ts -> tokens_from pat cur pos (cur :: ts).

Lemma tokens_last pat next pos ts : tokens_from pat next pos ts -> (deref (buf next) =? 0) = bool_decide (ts = []).
Proof. destruct 1 as [? ? E|? ? ? ? ? E]; [by rewrite E|]. by apply Z.eqb_neq. Qed.

Lemma cap_at con a l q p oe (last : bool) (rest : list pattern_node) : nodes con !! a = Some (node_of l q p) ->
  last = bool_decide (rest = []) ->
  exists con', match oe with Some e => if last then cap con a e else Ret con | None => Ret con end = Ret con' /\
    pattern_tree con' = pattern_tree con /\ nodes con' !! a = Some (node_of (cap_last rest oe l) q p) /\
    (forall b, b <> a -> nodes con' !! b = nodes con !! b).
Proof.
  intros Ha ->. destruct oe as [e|]; [|exists con; by destruct rest].
  destruct rest; cbn; [|by exists con]. unfold cap. rewrite (update_at _ _ _ _ Ha). eexists. split; [done|].
  cbn. rewrite lookup_insert_eq. split_and!; [done..|]. intros b Hb. by rewrite lookup_insert_ne.
Qed.

(** Where the loop stands: the slot whose contents are to be extended. *)
Definition at_slot (con : ast_context) (m1 : option positive) (m0 : slot) (already : bool) (s : slot) (p : option positive)
    (t : trie) : Prop :=
  read_slot con s = Ret p /\ (s = Root \/ pattern_tree con <> None) /\
  (already = true /\ s = m0 /\ m1 = p \/ already = false /\ (exists c, m1 = Some c /\ s = Next c) /\ t = TLeaf).


Section Growing.
Context (ast_calloc : gmap positive match_char -> option positive).
Hypothesis calloc_fresh : forall m a, ast_calloc m = Some a -> m !! a = None.

Definition adds (e : ast_exten) (pat : bool) (ts : list pattern_node) (t t' : trie) (r : option positive) : Prop :=
  t' = grow t pat ts (Some e) \/
  (exists j, (j < length ts)%nat /\ t' = grow t pat (take j ts) None /\ r = None /\ exists m, ast_calloc m = None).

Lemma add_pattern_node_ok con m1 m0 already s tok pat p t A : at_slot con m1 m0 already s p t ->
  rep (nodes con) p t A -> slot_out s A ->
  match ast_calloc (nodes con) with
  | None => add_pattern_node ast_calloc con m1 tok pat already m0 = Ret (con, None)
  | Some a => exists con' p', add_pattern_node ast_calloc con m1 tok pat already m0 = Ret (con', Some a) /\
      slot_step con con' s p' ({[a]} ∪ A) /\ inserted (nodes con') a (new_label pat tok) p' t A /\
      a ∉ A /\ nodes con !! a = None /\ slot_out s {[a]}
  end.
Proof.
  intros (Hs & Hroot & Hst) Hrep Ho. unfold add_pattern_node. destruct (ast_calloc (nodes con)) as [a|] eqn:Ea; [|done].
  apply calloc_fresh in Ea. assert (HaA : a ∉ A). { intros H%(rep_dom _ _ _ _ Hrep). rewrite Ea in H. by destruct H. }
  assert (Hsa : slot_out s {[a]}).
  { destruct s as [|d]; [done|]. cbn. intros Hd%elem_of_singleton. subst d. cbn in Hs. unfold node_at in Hs. by rewrite Ea in Hs. }
  set (con1 := con <| nodes ::= _ |>).
  assert (Hn : nodes con1 = <[a := node_of (new_label pat tok) None None]> (nodes con)) by done.
  assert (Hfr : forall b, b <> a -> nodes con1 !! b = nodes con !! b). { intros b Hb. by rewrite Hn, lookup_insert_ne. }
  destruct (insert_ok con1 s a (new_label pat tok) p t A) as (con' & p' & E & G1 & G2).
  - apply (rep_frame (nodes con)); [done|]. intros b Hb. apply Hfr. set_solver.
  - destruct s as [|d]; [done|]. rewrite <- Hs. cbn [read_slot]. unfold node_at. rewrite Hfr; [done|]. cbn in Hsa. set_solver.
  - by rewrite Hn, lookup_insert_eq.
  - done.
  - destruct s; [done|]. cbn in *. set_solver.
  - assert (match pattern_tree con1 with
        | None => insert_in_next_chars_alt_char_list con1 Root a
        | Some _ =>
            if already then insert_in_next_chars_alt_char_list con1 m0 a
            else let* c := oaccess m1 in insert_in_next_chars_alt_char_list con1 (Next c) a
        end = insert_in_next_chars_alt_char_list con1 s a) as ->.
    { destruct Hst as [(-> & <- & ->)|(-> & (c & -> & ->) & ->)].
      - change (pattern_tree con1) with (pattern_tree con). destruct (pattern_tree con) eqn:E0; [done|]. by destruct Hroot as [->|].
      - change (pattern_tree con1) with (pattern_tree con). destruct (pattern_tree con) eqn:E0; [done|]. by destruct Hroot. }
    rewrite E. cbn [obind]. exists con', p'. split_and!; [done| |done..].
    eapply slot_step_fresh; [exact G1|set_solver|]. destruct s; [done|]. cbn in *. set_solver.
Qed.

Lemma adds_child e pat cur ts l t nx nx' r : child t (pat, buf cur) = Some (l, nx) -> adds e pat ts nx nx' r ->
  adds e pat (cur :: ts) t (set_child t (pat, buf cur) (cap_last ts (Some e) l) nx') r.
Proof.
  intros Hc [->|(j & Hj & -> & H)]; [left; cbn [grow]; by rewrite Hc|]. right. exists (S j).
  split; [cbn; lia|]. split; [|done]. cbn [take grow]. rewrite Hc. destruct ts; [cbn in Hj; lia|]. by destruct j.
Qed.

Lemma adds_new e pat cur ts t nx' r : child t (pat, buf cur) = None -> adds e pat ts TLeaf nx' r ->
  adds e pat (cur :: ts) t (insert_sorted t (cap_last ts (Some e) (new_label pat cur)) nx') r.
Proof.
  intros Hc [->|(j & Hj & -> & H)]; [left; cbn [grow]; by rewrite Hc|]. right. exists (S j).
  split; [cbn; lia|]. split; [|done]. cbn [take grow]. rewrite Hc. destruct ts; [cbn in Hj; lia|]. by destruct j.
Qed.

Lemma cap_last_spec ts oe l : l_spec (cap_last ts oe l) = l_spec l.
Proof. by destruct ts, oe. Qed.

Lemma slot_step_next con con' a p A l q p0 : slot_step con con' (Next a) p A -> nodes con !! a = Some (node_of l q p0) ->
  pattern_tree con' = pattern_tree con /\ nodes con' !! a = Some (node_of l q p) /\
  forall b, b ∉ A -> b <> a -> nodes con' !! b = nodes con !! b.
Proof.
  intros (H1 & (l' & q' & r' & H2 & H3) & H4) Ha. split_and!; [done| |done].
  rewrite Ha in H2. injection H2 as E1 E2 E3 E4 E5 E6 E7. rewrite H3. unfold node_of. by rewrite E1, E2, E3, E4, E6, E7.
Qed.

Lemma slot_out_union s A B : slot_out s A -> slot_out s B -> slot_out s (A ∪ B).
Proof. destruct s; cbn; set_solver. Qed.

Lemma add_loop_ok e pat cur pos ts : tokens_from pat cur pos ts ->
  forall fuel con m1 m0 already s p t A, (length ts < fuel)%nat -> at_slot con m1 m0 already s p t ->
  rep (nodes con) p t A -> slot_out s A ->
  exists con' r p' t' A', add_loop ast_calloc fuel con e false pat m1 m0 already cur pos = Ret (con', r) /\
    slot_step con con' s p' A' /\ rep (nodes con') p' t' A' /\ A ⊆ A' /\ slot_out s A' /\
    (forall b, b ∈ A' -> b ∉ A -> nodes con !! b = None) /\ adds e pat ts t t' r.
Proof.
  induction 1 as [cur pos Hcur|cur pos next pos' ts Hcur Hnext Hts IH]; intros [|fuel] con m1 m0 already s p t A Hf Hat Hrep Ho;
    try (cbn in Hf; lia); cbn [add_loop].
  { rewrite (proj2 (Z.eqb_eq _ _)) by done. eexists con, m1, p, t, A. split_and!; [done| |done..|left; done].
    apply slot_step_same; [apply Hat|done..]. }
  cbn [length] in Hf. rewrite (proj2 (Z.eqb_neq _ _)) by done. rewrite Hnext. cbn [obind].
  pose proof (tokens_last _ _ _ _ Hts) as Hlast. rewrite Hlast, andb_false_r.
  destruct (child t (pat, buf cur)) as [[l nx]|] eqn:Hc.
  - destruct Hat as (Hs & Hroot & [(-> & <- & ->)|(-> & _ & ->)]); [|done].
    destruct (rep_child _ _ _ _ _ _ _ Hrep Hc) as (a & q & p1 & B & G1 & G2 & G3 & G4 & G5 & G6 & G7).
    pose proof (rep_size _ _ _ _ Hrep). pose proof (rep_alts _ _ _ _ Hrep).
    unfold already_in_tree. rewrite (G6 con) by (done || lia). cbn [obind]. rewrite (node_at_some _ _ _ G1). cbn [obind node_of next_char].
    destruct (cap_at con a l q p1 (Some e) _ ts G1 eq_refl) as (con1 & Ecap & Hroot1 & Ha1 & Hfr1).
    assert (Hstep : exists m1' m0' already', at_slot con1 m1' m0' already' (Next a) p1 nx /\
      match p1 with
      | Some _ => let* con := if bool_decide (ts = []) then cap con a e else Ret con in
                  add_loop ast_calloc fuel con e false pat p1 (Next a) true next pos'
      | None => let* con := if bool_decide (ts = []) then cap con a e else Ret con in
                  add_loop ast_calloc fuel con e false pat (Some a) s false next pos'
      end = add_loop ast_calloc fuel con1 e false pat m1' m0' already' next pos').
    { rewrite Ecap. assert (Hs1 : read_slot con1 (Next a) = Ret p1) by (cbn; by rewrite (node_at_some _ _ _ Ha1)).
      assert (Hne : pattern_tree con1 <> None).
      { rewrite Hroot1. destruct Hroot as [->|]; [|done]. cbn in Hs. injection Hs as ->. intros ->. apply rep_none in Hrep as [-> _]. done. }
      destruct p1 as [b|].
      - exists (Some b), (Next a), true. split; [|done]. split_and!; [done|by right|by left].
      - apply rep_none in G2 as [-> _]. exists (Some a), s, false. split; [|done]. split_and!; [done|by right|]. right. split_and!; eauto. }
    destruct Hstep as (m1' & m0' & already' & Hat1 & Eloop). cbn beta iota.
    replace (match p1 with Some _ => _ | None => _ end) with (add_loop ast_calloc fuel con1 e false pat m1' m0' already' next pos')
      by (rewrite <- Eloop; by destruct p1).
    assert (G2' : rep (nodes con1) p1 nx B). { apply (rep_frame (nodes con)); [done|]. intros b Hb. apply Hfr1. by intros ->. }
    destruct (IH fuel con1 m1' m0' already' (Next a) p1 nx B) as (con2 & r & p1' & nx' & B' & -> & K1 & K2 & K3 & K4 & K5 & K6);
      [lia|done|done|done|].
    destruct (slot_step_next _ _ _ _ _ _ _ _ K1 Ha1) as (L1 & L2 & L3).
    assert (HB' : B' ## A ∖ B).
    { intros b Hb [HbA HbB]%elem_of_difference. assert (Hn := K5 b Hb HbB). destruct (decide (b = a)) as [->|]; [done|].
      rewrite Hfr1 in Hn by done. apply (rep_dom _ _ _ _ Hrep) in HbA. rewrite Hn in HbA. by destruct HbA. }
    assert (Hdiff : forall b, b ∉ A ∖ B ∪ B' -> nodes con2 !! b = nodes con !! b).
    { intros b Hb. rewrite L3, Hfr1; [done|..]; set_solver. }
    assert (Hnew : forall b, b ∈ A ∖ B ∪ B' -> b ∉ A -> nodes con !! b = None).
    { intros b Hb HbA. rewrite <- Hfr1 by set_solver. apply K5; set_solver. }
    assert (Hout : slot_out s (A ∖ B ∪ B')).
    { destruct s as [|d]; [done|]. cbn in *. intros Hd. 
      unfold node_at in Hs. rewrite (Hnew d Hd Ho) in Hs. done. }
    eexists con2, r, p, _, (A ∖ B ∪ B'). split_and!; [done| | | |done|done|eapply adds_child; [exact Hc|exact K6]].
    + apply slot_step_same; [done|congruence|done|done].
    + apply (G7 _ p1'); [|done..|set_solver]. intros b Hb Hba HbB. rewrite L3, Hfr1; set_solver.
    + intros b Hb. destruct (decide (b ∈ B)); set_solver.
  - assert (Em2 : (if already then already_in_tree con m1 (buf cur) pat else Ret None) = Ret None).
    { destruct Hat as (_ & _ & [(-> & _ & ->)|(-> & _ & _)]); [|done]. pose proof (rep_size _ _ _ _ Hrep). pose proof (rep_alts _ _ _ _ Hrep).
      apply (already_none con p t A (pat, buf cur)); [done|done|lia]. }
    rewrite Em2. cbn [obind]. pose proof (add_pattern_node_ok con m1 m0 already s cur pat p t A Hat Hrep Ho) as Hadd.
    destruct (ast_calloc (nodes con)) as [a|] eqn:Ea.
    2: { rewrite Hadd. cbn [obind]. eexists con, None, p, t, A. split_and!; [done| |done..|].
         - apply slot_step_same; [apply Hat|done..].
         - right. exists 0%nat. split_and!; [cbn; lia|done|done|by eexists]. }
    destruct Hadd as (con0 & p' & -> & G1 & (q & Ha & Hw) & HaA & Hanew & Hsa). cbn [obind].
    destruct (cap_at con0 a _ q None (Some e) _ ts Ha eq_refl) as (con1 & Ecap & Hroot1 & Ha1 & Hfr1).
    cbn beta iota in Ecap. rewrite Ecap. cbn [obind].
    assert (Hw0 : rep (nodes con1) p' (insert_sorted t (cap_last ts (Some e) (new_label pat cur)) TLeaf) ({[a]} ∪ A ∪ ∅)).
    { apply (Hw _ _ None); [intros b Hb; apply Hfr1; by intros ->|done|constructor|set_solver|set_solver|apply cap_last_spec]. }
    destruct (IH fuel con1 (Some a) (Next a) false (Next a) None TLeaf ∅) as (con2 & r & p1' & nx' & B' & -> & K1 & K2 & K3 & K4 & K5 & K6);
      [lia| |constructor|done|].
    { split_and!; [cbn; by rewrite (node_at_some _ _ _ Ha1)| |right; split_and!; eauto].
      right. rewrite Hroot1. destruct s as [|d]; cbn in G1.
      - destruct G1 as [-> _]. intros ->. apply rep_none in Hw0 as [_ Hw0]. set_solver.
      - destruct G1 as [-> _]. destruct Hat as (_ & [?|?] & _); [done|done]. }
    destruct (slot_step_next _ _ _ _ _ _ _ _ K1 Ha1) as (L1 & L2 & L3).
    assert (Hdom : forall b, is_Some (nodes con !! b) -> is_Some (nodes con1 !! b)).
    { intros b [n Hn]. destruct (decide (b ∈ {[a]} ∪ A ∪ ∅)) as [HbA|HbA]; [by apply (rep_dom _ _ _ _ Hw0)|].
      rewrite Hfr1 by set_solver. destruct s as [|d]; cbn in G1.
      - destruct G1 as [_ G1]. rewrite G1, Hn by set_solver. done.
      - destruct G1 as (_ & (l & q' & r' & _ & G1) & G3). destruct (decide (b = d)) as [->|]; [by rewrite G1|].
        rewrite G3, Hn by set_solver. done. }
    assert (HB' : forall b, b ∈ B' -> nodes con !! b = None).
    { intros b Hb. specialize (K5 b Hb ltac:(set_solver)). destruct (nodes con !! b) as [n|] eqn:En; [|done].
      destruct (Hdom b) as [n' Hn']; [by eexists|]. congruence. }
    assert (HAB : A ## B'). { intros b HbA HbB%HB'. apply (rep_dom _ _ _ _ Hrep) in HbA. rewrite HbB in HbA. by destruct HbA. }
    assert (HsB : slot_out s B').
    { destruct s as [|d]; [done|]. intros Hd%HB'. destruct Hat as (Hs & _). cbn in Hs. unfold node_at in Hs. by rewrite Hd in Hs. }
    eexists con2, r, p', _, ({[a]} ∪ A ∪ B'). split_and!; [done| | |set_solver| | |eapply adds_new; [exact Hc|exact K6]].
    + destruct s as [|d]; cbn in G1 |- *.
      * destruct G1 as [G1 G3]. split; [congruence|]. intros b Hb. rewrite L3, Hfr1, G3; set_solver.
      * destruct G1 as (G1 & (l & q' & r' & G3 & G4) & G5). cbn in Hsa, HsB, Ho. split_and!; [congruence| |].
        -- exists l, q', r'. split; [done|]. rewrite L3, Hfr1 by set_solver. done.
        -- intros b Hb Hbd. rewrite L3, Hfr1, G5; set_solver.
    + apply (Hw _ _ p1'); [|done|done|done|set_solver|apply cap_last_spec].
      intros b Hb. rewrite L3, Hfr1; [done|by intros ->|set_solver|by intros ->].
    + apply slot_out_union; [by apply slot_out_union|done].
    + intros b Hb HbA. set_unfold. destruct Hb as [[->|Hb]|Hb]; [done|done|by apply HB'].
Qed.
End Growing.

(** ** The rows of nodes of extensions *)

(** The nodes of an extension text from a position. *)
Fixpoint row (fuel : nat) (pat : bool) (src : str) : outcome (list pattern_node) :=
  match fuel with
  | O => NoFuel
  | S fuel =>
      let* (n, src) := get_pattern_node src pat in
      if deref (buf n) =? 0 then Ret [] else let* ns := row fuel pat src in Ret (n :: ns)
  end.

Definition row_of (e : ast_exten) : outcome (bool * list pattern_node) :=
  match extenbuf e with
  | None => Ret (false, [])
  | Some text =>
      let '(pat, pos) := pattern_start text in
      let* ns := row (S (length pos)) pat pos in Ret (pat, ns)
  end.

Definition keys (pat : bool) (ts : list pattern_node) : list key := (fun n => (pat, buf n)) <$> ts.

Definition path_of (e : ast_exten) : list key :=
  match row_of e with Ret (pat, ts) => keys pat ts | _ => [] end.

(** Extensions without character 255. *)
Definition plain_exten (e : ast_exten) : Prop :=
  plain (ex_exten e) /\ (ex_matchcid e = true -> plain (ex_cidmatch e)).

Lemma node_nil n : node_ok n -> deref (buf n) <> 0 -> buf n <> [].
Proof. intros _ H E. by rewrite E in H. Qed.

Lemma row_spec fuel pat src : (length src < fuel)%nat -> plain src ->
  exists ns cur pos, row fuel pat src = Ret ns /\ get_pattern_node src pat = Ret (cur, pos) /\ tokens_from pat cur pos ns /\
  Forall node_ok ns /\ (length ns <= length src)%nat /\ (length ns <= S (length pos))%nat.
Proof.
  revert src. induction fuel as [|fuel IH]; intros src Hf Hp; [lia|]. cbn [row].
  destruct (next_node_ok (S (length src)) pat src) as (n & src' & E & H1 & H2 & H3 & H4); [lia|done|].
  unfold get_pattern_node at 1 2. rewrite E. cbn [obind]. destruct (Z.eqb_spec (deref (buf n)) 0) as [E0|E0].
  - exists [], n, src'. split_and!; [done|done|by constructor|constructor|cbn; lia|cbn; lia].
  - specialize (H4 (node_nil n H1 E0)). destruct (IH src') as (ns & cur & pos & -> & G1 & G2 & G3 & G4 & G5); [lia|done|].
    cbn [obind]. exists (n :: ns), n, src'. split_and!; [done|done|by econstructor|by constructor|cbn; lia|cbn; lia].
Qed.

Lemma plain_text e text : plain_exten e -> extenbuf e = Some text -> plain text.
Proof.
  intros [H1 H2]. unfold extenbuf. destruct (ex_matchcid e).
  - destruct (_ <? _); [done|]. intros [= <-]. apply Forall_app. split; [done|]. constructor; [|by apply H2].
    split_and!; [unfold in_s; lia|lia|lia].
  - intros [= <-]. by apply Forall_take.
Qed.

Lemma pattern_start_plain text pat pos : plain text -> pattern_start text = (pat, pos) -> plain pos.
Proof. unfold pattern_start. intros H. case_if; intros [= <- <-]; [by destruct H; [constructor|]|done]. Qed.

(** The nodes of an extension, as the code reads them. *)
Lemma row_of_spec e text pat pos : plain_exten e -> extenbuf e = Some text -> pattern_start text = (pat, pos) ->
  exists ts cur pos', row_of e = Ret (pat, ts) /\ path_of e = keys pat ts /\ get_pattern_node pos pat = Ret (cur, pos') /\
  tokens_from pat cur pos' ts /\ Forall node_ok ts /\ (length ts < S (S (length pos')))%nat.
Proof.
  intros Hp Ht Hs. pose proof (plain_text e text Hp Ht) as Hpt. pose proof (pattern_start_plain _ _ _ Hpt Hs) as Hpp.
  destruct (row_spec (S (length pos)) pat pos) as (ns & cur & pos' & E & G1 & G2 & G3 & G4 & G5); [lia|done|].
  assert (row_of e = Ret (pat, ns)) as Er. { unfold row_of. by rewrite Ht, Hs, E. }
  exists ns, cur, pos'. unfold path_of. rewrite Er. split_and!; [done..|lia].
Qed.

(** ** Looking up a row *)

Fixpoint node_lookup (t : trie) (ks : list key) : option label :=
  match ks with
  | [] => None
  | k :: ks =>
      match child t k with
      | Some (l, nx) => match ks with [] => Some l | _ => node_lookup nx ks end
      | None => None
      end
  end.

Definition live (l : label) : option ast_exten := if l_del l then None else l_exten l.

Definition exten_at (t : trie) (ks : list key) : option ast_exten :=
  match node_lookup t ks with Some l => live l | None => None end.

Lemma has_key_ne k k' l : has_key k l = true -> k' <> k -> has_key k' l = false.
Proof. intros H1%has_key_spec Hne. destruct (has_key k' l) eqn:E; [|done]. apply has_key_spec in E. congruence. Qed.

Lemma child_key t k l nx : child t k = Some (l, nx) -> has_key k l = true.
Proof. induction t as [|l0 nx0 _ al IH]; cbn; [done|]. destruct (has_key k l0) eqn:E; [by intros [= <- <-]|done]. Qed.

Lemma child_set_child t k l nx k' : has_key k l = true -> is_Some (child t k) ->
  child (set_child t k l nx) k' = if decide (k' = k) then Some (l, nx) else child t k'.
Proof.
  intros Hl. induction t as [|l0 nx0 _ al IH]; cbn; [by intros []|]. destruct (has_key k l0) eqn:E; cbn.
  - intros _. destruct (decide (k' = k)) as [->|Hne]; [by rewrite Hl|]. by rewrite (has_key_ne k k' l), (has_key_ne k k' l0).
  - intros Hk. rewrite (IH Hk). destruct (decide (k' = k)) as [->|]; [by rewrite E|done].
Qed.

Lemma child_insert t l nx k' : child t (l_pat l, l_x l) = None ->
  child (insert_sorted t l nx) k' = if decide (k' = (l_pat l, l_x l)) then Some (l, nx) else child t k'.
Proof.
  assert (Hh : forall k, has_key k l = bool_decide (k = (l_pat l, l_x l))).
  { intros k. destruct (has_key k l) eqn:E; symmetry; [apply bool_decide_eq_true|apply bool_decide_eq_false].
    - by apply has_key_spec in E. - intros ->. by rewrite (proj2 (has_key_spec _ _)) in E. }
  induction t as [|l0 nx0 _ al IH]; cbn; intros Hc.
  - rewrite Hh. by case_bool_decide; case_decide.
  - destruct (has_key _ l0) eqn:E in Hc; [done|]. destruct (_ >? _); cbn.
    + rewrite Hh. by case_bool_decide; case_decide.
    + rewrite (IH Hc). case_decide as Hd; [|done]. by rewrite Hd, E.
Qed.

Lemma exten_at_cons t k ks : exten_at t (k :: ks) =
  match child t k with Some (l, nx) => match ks with [] => live l | _ => exten_at nx ks end | None => None end.
Proof. unfold exten_at. cbn. destruct (child t k) as [[l nx]|]; [|done]. by destruct ks. Qed.

Lemma exten_at_leaf ks : exten_at TLeaf ks = None.
Proof. by destruct ks. Qed.

Lemma cap_last_key ts oe l k : has_key k (cap_last ts oe l) = has_key k l.
Proof. by destruct ts, oe. Qed.

(** Growing changes what is found at one row only. *)
Lemma exten_at_grow t pat ts oe ks : exten_at (grow t pat ts oe) ks =
  if decide (ks = keys pat ts /\ ks <> []) then match oe with Some e => Some e | None => exten_at t ks end else exten_at t ks.
Proof.
  revert t ks. induction ts as [|tok ts IH]; intros t ks; cbn [grow].
  { destruct (decide _) as [[-> ?]|]; done. }
  destruct ks as [|k ks]; [case_decide as Hd; [by destruct Hd|done]|].
  set (k0 := (pat, buf tok)).
  assert (Hd : forall A (x y : A), (if decide (k :: ks = keys pat (tok :: ts) /\ k :: ks <> []) then x else y) =
    if decide (k = k0) then if decide (ks = keys pat ts) then x else y else y).
  { intros A x y. cbn. repeat case_decide; destruct_and?; simplify_eq; tauto || (exfalso; eauto). }
  rewrite Hd. clear Hd. rewrite !exten_at_cons.
  destruct (child t k0) as [[l nx]|] eqn:Hc.
  - rewrite child_set_child by (rewrite ?cap_last_key; eauto using child_key).
    destruct (decide (k = k0)) as [->|]; [|done]. rewrite Hc. destruct ks as [|k1 ks].
    + destruct ts as [|tok1 ts]; cbn [cap_last keys fmap list_fmap]; (destruct (decide _) as [Hd|Hd]; [|try done]); try done; by destruct oe.
    + rewrite IH. case_decide as Hd; case_decide as Hd'; naive_solver.
  - assert (Hk : forall oe, (l_pat (cap_last ts oe (new_label pat tok)), l_x (cap_last ts oe (new_label pat tok))) = k0).
    { intros []; by destruct ts. }
    rewrite child_insert by (by rewrite Hk). rewrite Hk. destruct (decide (k = k0)) as [->|]; [|done]. rewrite Hc.
    destruct ks as [|k1 ks].
    + destruct ts as [|tok1 ts]; cbn [cap_last keys fmap list_fmap]; (destruct (decide _) as [Hd|Hd]; [|try done]); try done; by destruct oe.
    + rewrite IH, exten_at_leaf. case_decide as Hd; case_decide as Hd'; try naive_solver; by destruct oe.
Qed.

(** ** Sorted tries *)

(** Every label of a list of alternatives, and of a whole trie. *)
Fixpoint all_alts (P : label -> Prop) (t : trie) : Prop :=
  match t with TLeaf => True | TNode l _ al => P l /\ all_alts P al end.

Fixpoint all_labels (P : label -> Prop) (t : trie) : Prop :=
  match t with TLeaf => True | TNode l nx al => P l /\ all_labels P nx /\ all_labels P al end.

(** Alternatives are sorted by specificity and different. *)
Fixpoint sorted_trie (t : trie) : Prop :=
  match t with
  | TLeaf => True
  | TNode l nx al => all_alts (fun l' => l_spec l <= l_spec l') al /\ child al (l_pat l, l_x l) = None /\
      sorted_trie nx /\ sorted_trie al
  end.

(** Properties that depend on the character of a node and its specificity only. *)
Class Shape (P : label -> Prop) : Prop :=
  shape : forall l l', l_pat l' = l_pat l -> l_spec l' = l_spec l -> l_x l' = l_x l -> P l -> P l'.

Lemma cap_last_shape ts oe l : l_pat (cap_last ts oe l) = l_pat l /\ l_spec (cap_last ts oe l) = l_spec l /\ l_x (cap_last ts oe l) = l_x l.
Proof. by destruct ts, oe. Qed.

Lemma all_alts_set P t k l nx : (forall l0 nx0, child t k = Some (l0, nx0) -> P l0 -> P l) -> all_alts P t -> all_alts P (set_child t k l nx).
Proof.
  induction t as [|l0 nx0 _ al IH]; cbn; [done|]. intros H [H1 H2]. destruct (has_key k l0); cbn; [|by auto].
  split; [by apply (H l0 nx0)|done].
Qed.

Lemma all_alts_insert P t l nx : P l -> all_alts P t -> all_alts P (insert_sorted t l nx).
Proof. induction t as [|l0 nx0 _ al IH]; cbn; [done|]. intros H [H1 H2]. destruct (_ >? _); cbn; auto. Qed.

Lemma all_alts_impl (P Q : label -> Prop) t : (forall l, P l -> Q l) -> all_alts P t -> all_alts Q t.
Proof. intros H. induction t as [|l nx _ al IH]; cbn; [done|]. naive_solver. Qed.

Lemma all_labels_alts P t : all_labels P t -> all_alts P t.
Proof. induction t as [|l nx _ al IH]; cbn; naive_solver. Qed.

Lemma all_labels_child P t k l nx : all_labels P t -> child t k = Some (l, nx) -> P l /\ all_labels P nx.
Proof. induction t as [|l0 nx0 _ al IH]; cbn; [done|]. intros (H1 & H2 & H3). destruct (has_key k l0); [intros [= <- <-]; done|auto]. Qed.

Lemma sorted_child t k l nx : sorted_trie t -> child t k = Some (l, nx) -> sorted_trie nx.
Proof. induction t as [|l0 nx0 _ al IH]; cbn; [done|]. intros (H1 & H2 & H3 & H4). destruct (has_key k l0); [intros [= <- <-]; done|auto]. Qed.

Lemma all_labels_set P t k l nx : P l -> all_labels P nx -> all_labels P t -> all_labels P (set_child t k l nx).
Proof. intros Hl Hn. induction t as [|l0 nx0 _ al IH]; cbn; [done|]. intros (H1 & H2 & H3). destruct (has_key k l0); cbn; auto. Qed.

Lemma all_labels_insert P t l nx : P l -> all_labels P nx -> all_labels P t -> all_labels P (insert_sorted t l nx).
Proof. intros Hl Hn. induction t as [|l0 nx0 _ al IH]; cbn; [done|]. intros (H1 & H2 & H3). destruct (_ >? _); cbn; auto. Qed.

Lemma sorted_set t k l0 nx0 l nx : child t k = Some (l0, nx0) -> l_pat l = l_pat l0 -> l_spec l = l_spec l0 -> l_x l = l_x l0 ->
  sorted_trie nx -> sorted_trie t -> sorted_trie (set_child t k l nx).
Proof.
  intros Hc E1 E2 E3 Hn. induction t as [|l1 nx1 _ al IH]; cbn in *; [done|]. intros (H1 & H2 & H3 & H4).
  destruct (has_key k l1) eqn:E; cbn.
  - injection Hc as -> ->. rewrite E1, E2, E3. done.
  - split_and!; [|rewrite child_set_child|done|by apply IH].
    + apply all_alts_set; [|done]. intros l2 nx2 Hc2. rewrite Hc in Hc2. injection Hc2 as -> ->. by rewrite E2.
    + apply child_key in Hc as Hk. case_decide as Hd; [|done]. rewrite Hd in H2. congruence.
    + unfold has_key. apply child_key in Hc. unfold has_key in Hc. by rewrite E1, E3.
    + by eexists.
Qed.

Lemma sorted_insert t l nx : child t (l_pat l, l_x l) = None -> sorted_trie nx -> sorted_trie t -> sorted_trie (insert_sorted t l nx).
Proof.
  intros Hc Hn. induction t as [|l0 nx0 _ al IH]; cbn in *; [done|]. intros (H1 & H2 & H3 & H4).
  destruct (has_key _ l0) eqn:E in Hc; [done|]. destruct (_ >? _) eqn:Es; cbn; rewrite Z.gtb_ltb in Es; zb.
  - split_and!; [lia| |by rewrite E|done..]. eapply all_alts_impl; [|exact H1]. cbn. lia.
  - split_and!; [by apply all_alts_insert| |done|by apply IH]. rewrite child_insert by done. case_decide as Hd; [|done].
    rewrite (proj2 (has_key_spec _ _)) in E; [done|]. by symmetry.
Qed.

Lemma sorted_grow t pat ts oe : sorted_trie t -> sorted_trie (grow t pat ts oe).
Proof.
  revert t. induction ts as [|tok ts IH]; intros t Ht; cbn [grow]; [done|].
  destruct (child t (pat, buf tok)) as [[l nx]|] eqn:Hc.
  - destruct (cap_last_shape ts oe l) as (E1 & E2 & E3). eapply sorted_set; eauto using sorted_child.
  - destruct (cap_last_shape ts oe (new_label pat tok)) as (E1 & E2 & E3). apply sorted_insert; [by rewrite E1, E3|by apply IH|done].
Qed.

Lemma all_labels_grow (P : label -> Prop) `{!Shape P} t pat ts oe : (forall tok, tok ∈ ts -> P (new_label pat tok)) ->
  all_labels P t -> all_labels P (grow t pat ts oe).
Proof.
  revert t. induction ts as [|tok ts IH]; intros t Hts Ht; cbn [grow]; [done|].
  assert (Hin : forall t, all_labels P t -> all_labels P (grow t pat ts oe)) by (intros; apply IH; [set_solver|done]).
  destruct (child t (pat, buf tok)) as [[l nx]|] eqn:Hc.
  - destruct (all_labels_child _ _ _ _ _ Ht Hc) as [Hl Hnx]. destruct (cap_last_shape ts oe l) as (E1 & E2 & E3).
    apply all_labels_set; [by apply (shape l)|by apply Hin|done].
  - destruct (cap_last_shape ts oe (new_label pat tok)) as (E1 & E2 & E3).
    apply all_labels_insert; [apply (shape (new_label pat tok)); [done..|]; apply Hts; set_solver|by apply Hin|done].
Qed.

(** ** The trie is a map of rows *)

(** The trie in a context, which has no other nodes. *)
Definition holds (con : ast_context) (t : trie) : Prop := rep (nodes con) (pattern_tree con) t (dom (nodes con)).

Definition empty_context : ast_context := mk_context None ∅.

Lemma holds_empty : holds empty_context TLeaf.
Proof. unfold holds. cbn. rewrite dom_empty_L. constructor. Qed.

(** What adding an extension makes of the trie. *)
Definition with_exten (t : trie) (e : ast_exten) : trie :=
  match row_of e with Ret (pat, ts) => grow t pat ts (Some e) | _ => t end.

Definition trie_of (extens : list ast_exten) : trie := foldl with_exten TLeaf extens.

Lemma exten_at_with t e ks : exten_at (with_exten t e) ks =
  if decide (ks = path_of e /\ ks <> []) then Some e else exten_at t ks.
Proof.
  unfold with_exten, path_of. destruct (row_of e) as [[pat ts]| | |]; [apply exten_at_grow|..]; by case_decide as Hd; [destruct Hd|].
Qed.

Lemma sorted_with t e : sorted_trie t -> sorted_trie (with_exten t e).
Proof. unfold with_exten. destruct (row_of e) as [[pat ts]| | |]; [apply sorted_grow|done..]. Qed.

(** The extension a row belongs to: the last one that has it. *)
Definition owner (extens : list ast_exten) (ks : list key) : option ast_exten :=
  last (filter (fun e => path_of e = ks) extens).

Lemma owner_snoc extens e ks : owner (extens ++ [e]) ks = if decide (path_of e = ks) then Some e else owner extens ks.
Proof.
  unfold owner. rewrite filter_app, filter_cons, filter_nil. case_decide; [by rewrite last_snoc|by rewrite app_nil_r].
Qed.

Lemma exten_at_trie extens ks : ks <> [] -> exten_at (trie_of extens) ks = owner extens ks.
Proof.
  intros Hks. unfold trie_of. induction extens as [|e extens IH] using rev_ind; [by destruct ks|].
  rewrite foldl_app, owner_snoc. cbn. rewrite exten_at_with, IH. repeat case_decide; destruct_and?; simplify_eq; done || (exfalso; tauto).
Qed.

Lemma sorted_trie_of extens : sorted_trie (trie_of extens).
Proof. unfold trie_of. induction extens as [|e extens IH] using rev_ind; [done|]. rewrite foldl_app. by apply sorted_with. Qed.

Section Adding.
Context (ast_calloc : gmap positive match_char -> option positive).
Hypothesis calloc_fresh : forall m a, ast_calloc m = Some a -> m !! a = None.

Lemma add_exten_ok con t e : holds con t -> plain_exten e ->
  exists con' r t', add_exten_to_pattern_tree ast_calloc con e false = Ret (con', r) /\ holds con' t' /\
    (t' = with_exten t e \/ (r = None /\ (exists m, ast_calloc m = None) /\
      exists pat ts, t' = grow t pat ts None)).
Proof using calloc_fresh.
  intros Hrep Hp. unfold add_exten_to_pattern_tree, with_exten.
  destruct (extenbuf e) as [text|] eqn:Et; [|].
  - destruct (pattern_start text) as [pat pos] eqn:Es.
    destruct (row_of_spec e text pat pos Hp Et Es) as (ts & cur & pos' & -> & _ & -> & Hts & _ & Hlen). cbn [obind].
    destruct (add_loop_ok ast_calloc calloc_fresh e pat cur pos' ts Hts (S (S (length pos'))) con (pattern_tree con) Root true Root
      (pattern_tree con) t (dom (nodes con))) as (con' & r & p' & t' & A' & E & [G1 G1'] & G2 & G3 & G4 & G5 & G6); [lia| |exact Hrep|done|].
    { split_and!; [done|by left|by left]. }
    assert (Hdom : A' = dom (nodes con')).
    { apply set_eq. intros b. rewrite elem_of_dom. split; [apply (rep_dom _ _ _ _ G2)|]. intros Hb.
      destruct (decide (b ∈ A')) as [|Hn]; [done|]. rewrite G1' in Hb by done. apply G3, elem_of_dom, Hb. }
    exists con', r, t'. split_and!; [done|unfold holds; by rewrite G1, <- Hdom|]. destruct G6 as [->|(j & _ & -> & -> & Hm)]; [by left|].
    right. split_and!; [done|done|by eexists _, _].
  - exists con, None, t. split_and!; [done|done|]. left. unfold row_of. by rewrite Et.
Qed.

(** Adding an extension keeps the alternatives of every node sorted by
    specificity and distinct, and changes what is found at the row of nodes of that
    extension only: it gives the extension from then on, or, when memory runs out,
    nothing has changed and [NULL] is returned. *)
Theorem add_exten_to_pattern_tree_correct con t e : holds con t -> sorted_trie t -> plain_exten e ->
  exists con' r t', add_exten_to_pattern_tree ast_calloc con e false = Ret (con', r) /\ holds con' t' /\ sorted_trie t' /\
    ((forall ks, ks <> [] -> exten_at t' ks = if decide (ks = path_of e) then Some e else exten_at t ks) \/
     (r = None /\ (exists m, ast_calloc m = None) /\ forall ks, exten_at t' ks = exten_at t ks)).
Proof using calloc_fresh.
  intros Hh Hs Hp. destruct (add_exten_ok con t e Hh Hp) as (con' & r & t' & E & G1 & G2). exists con', r, t'.
  split_and!; [done|done|destruct G2 as [->|(_ & _ & pat & ts & ->)]; [by apply sorted_with|by apply sorted_grow]|].
  destruct G2 as [->|(-> & Hm & pat & ts & ->)]; [left|right].
  - intros ks Hks. rewrite exten_at_with. repeat case_decide; destruct_and?; done || (exfalso; tauto).
  - split_and!; [done..|]. intros ks. rewrite exten_at_grow. by case_decide.
Qed.

Hypothesis calloc_some : forall m, ast_calloc m <> None.

Lemma create_ok con t extens : holds con t -> Forall plain_exten extens ->
  exists con', create_match_char_tree ast_calloc con extens = Ret con' /\ holds con' (foldl with_exten t extens).
Proof using calloc_fresh calloc_some.
  intros Hh Hp. revert con t Hh. unfold create_match_char_tree. induction Hp as [|e extens He _ IH]; intros con t Hh; [by exists con|].
  cbn [ofold foldl]. destruct (add_exten_ok con t e Hh He) as (con' & r & t' & -> & G1 & [->|(_ & (m & Hm) & _)]);
    [|by destruct (calloc_some m)]. cbn [obind]. by apply IH.
Qed.
End Adding.

(** An allocator. *)
Definition fresh_calloc (m : gmap positive match_char) : option positive := Some (fresh (dom m)).

Lemma fresh_calloc_fresh m a : fresh_calloc m = Some a -> m !! a = None.
Proof. intros [= <-]. apply not_elem_of_dom, is_fresh. Qed.

(** Examples: a number, and a pattern that starts like it. *)
Definition ex_number : ast_exten := mk_exten (zs "12") false [] [] [].
Definition ex_pattern : ast_exten := mk_exten (zs "_1X.") false [] [mk_peer 1 (Some (zs "start")) [] None []] [mk_peer 1 (Some (zs "start")) [] None []].

Lemma ex_number_plain : plain_exten ex_number.
Proof. split; [by apply plain_check|done]. Qed.

Lemma ex_pattern_plain : plain_exten ex_pattern.
Proof. split; [by apply plain_check|done]. Qed.

Lemma add_exten_to_pattern_tree_correct_witness :
  exists con' r t', add_exten_to_pattern_tree fresh_calloc empty_context ex_pattern false = Ret (con', r) /\ holds con' t' /\ sorted_trie t' /\
    ((forall ks, ks <> [] -> exten_at t' ks = if decide (ks = path_of ex_pattern) then Some ex_pattern else exten_at TLeaf ks) \/
     (r = None /\ (exists m, fresh_calloc m = None) /\ forall ks, exten_at t' ks = exten_at TLeaf ks)).
Proof.
  apply (add_exten_to_pattern_tree_correct fresh_calloc fresh_calloc_fresh empty_context TLeaf); [apply holds_empty|done|apply ex_pattern_plain].
Defined.

(** C20: The trie made from the extensions of a context is sorted, and every row of nodes
    leads to the last extension with that row, if there is one: the trie implements the
    map from rows to extensions. *)
Theorem create_match_char_tree_correct (ast_calloc : gmap positive match_char -> option positive) extens :
  (forall m a, ast_calloc m = Some a -> m !! a = None) -> (forall m, ast_calloc m <> None) -> Forall plain_exten extens ->
  exists con t, create_match_char_tree ast_calloc empty_context extens = Ret con /\ holds con t /\ sorted_trie t /\
    forall ks, ks <> [] -> exten_at t ks = owner extens ks.
Proof.
  intros Hfresh Hsome Hp. destruct (create_ok ast_calloc Hfresh Hsome empty_context TLeaf extens holds_empty Hp) as (con & E & Hh).
  exists con, (trie_of extens). split_and!; [done|done|apply sorted_trie_of|]. intros ks Hks. by apply exten_at_trie.
Qed.

Lemma create_match_char_tree_correct_witness :
  exists con t, create_match_char_tree fresh_calloc empty_context [ex_number; ex_pattern] = Ret con /\ holds con t /\ sorted_trie t /\
    forall ks, ks <> [] -> exten_at t ks = owner [ex_number; ex_pattern] ks.
Proof.
  apply (create_match_char_tree_correct fresh_calloc [ex_number; ex_pattern]); [apply fresh_calloc_fresh|done|].
  constructor; [apply ex_number_plain|]. constructor; [apply ex_pattern_plain|constructor].
Defined.

(** ** Finding the node of an extension again *)

Fixpoint relabel (t : trie) (ks : list key) (l : label) : trie :=
  match ks with
  | [] => t
  | k :: ks =>
      match child t k with
      | Some (l0, nx) => match ks with [] => set_child t k l nx | _ => set_child t k l0 (relabel nx ks l) end
      | None => t
      end
  end.

Lemma has_key_eq k l l' : l_pat l' = l_pat l -> l_x l' = l_x l -> has_key k l' = has_key k l.
Proof. unfold has_key. by intros -> ->. Qed.

Lemma exten_at_relabel t ks l l0 ks' : node_lookup t ks = Some l0 -> l_pat l = l_pat l0 -> l_x l = l_x l0 ->
  exten_at (relabel t ks l) ks' = if decide (ks' = ks) then live l else exten_at t ks'.
Proof.
  intros Hl E1 E2. revert t ks' Hl. induction ks as [|k ks IH]; intros t ks' Hl; [done|]. cbn [node_lookup relabel] in *.
  destruct (child t k) as [[l1 nx]|] eqn:Hc; [|done]. destruct ks' as [|k' ks']; [by destruct ks|].
  rewrite !exten_at_cons. apply child_key in Hc as Hk. destruct ks as [|k1 ks].
  - simplify_eq. rewrite child_set_child by (rewrite ?(has_key_eq k l0 l); eauto).
    destruct (decide (k' = k)) as [->|]; [rewrite Hc; by destruct ks'; case_decide|by case_decide; simplify_eq].
  - rewrite child_set_child by eauto. destruct (decide (k' = k)) as [->|]; [|by case_decide; simplify_eq].
    rewrite Hc. destruct ks' as [|k2 ks']; [by case_decide|]. rewrite (IH nx) by done.
    repeat case_decide; simplify_eq; done.
Qed.

Lemma sorted_relabel t ks l l0 : node_lookup t ks = Some l0 -> l_pat l = l_pat l0 -> l_spec l = l_spec l0 -> l_x l = l_x l0 ->
  sorted_trie t -> sorted_trie (relabel t ks l).
Proof.
  intros Hl E1 E2 E3. revert t Hl. induction ks as [|k ks IH]; intros t Hl Hs; [done|]. cbn [node_lookup relabel] in *.
  destruct (child t k) as [[l1 nx]|] eqn:Hc; [|done]. pose proof (sorted_child _ _ _ _ Hs Hc). destruct ks as [|k1 ks].
  - simplify_eq. by eapply sorted_set.
  - eapply sorted_set; eauto.
Qed.

(** The search that adds nothing finds the node, and its label can be exchanged. *)
Lemma find_loop_ok calloc e pat cur pos ts : tokens_from pat cur pos ts ->
  forall fuel con m0 p t A l, (length ts < fuel)%nat -> rep (nodes con) p t A -> node_lookup t (keys pat ts) = Some l ->
  exists a q p1, add_loop calloc fuel con e true pat p m0 true cur pos = Ret (con, Some a) /\
    nodes con !! a = Some (node_of l q p1) /\ a ∈ A /\
    forall l', rep (<[a := node_of l' q p1]> (nodes con)) p (relabel t (keys pat ts) l') A.
Proof.
  induction 1 as [cur pos Hcur|cur pos next pos' ts Hcur Hnext Hts IH]; intros [|fuel] con m0 p t A l Hf Hrep Hl;
    try (cbn in Hf; lia); [done|]. cbn [add_loop keys fmap list_fmap node_lookup relabel length] in *.
  fold (keys pat ts) in *. rewrite (proj2 (Z.eqb_neq _ _)) by done. rewrite Hnext. cbn [obind].
  rewrite (tokens_last _ _ _ _ Hts), andb_true_r.
  destruct (child t (pat, buf cur)) as [[l1 nx]|] eqn:Hc; [|done].
  destruct (rep_child _ _ _ _ _ _ _ Hrep Hc) as (a & q & p1 & B & G1 & G2 & G3 & G4 & G5 & G6 & G7).
  pose proof (rep_size _ _ _ _ Hrep). pose proof (rep_alts _ _ _ _ Hrep).
  unfold already_in_tree. rewrite (G6 con) by (done || lia). cbn [obind]. rewrite (node_at_some _ _ _ G1). cbn [obind node_of next_char].
  assert (HA : A ∖ B ∪ B = A). { apply set_eq. intros b. destruct (decide (b ∈ B)); set_solver. }
  destruct ts as [|tok ts]; cbn [keys fmap list_fmap] in *.
  - rewrite bool_decide_true by done. simplify_eq. exists a, q, p1. split_and!; [by destruct p1|done|done|].
    intros l'. rewrite <- HA at 1. apply (G7 _ p1); [|by rewrite lookup_insert_eq| |done|set_solver].
    + intros b _ Hb _. by rewrite lookup_insert_ne.
    + apply (rep_frame (nodes con)); [done|]. intros b Hb. rewrite lookup_insert_ne; [done|]. by intros <-.
  - fold (keys pat ts) in *. rewrite bool_decide_false by done. cbn [andb].
    destruct p1 as [b1|]; [|apply rep_none in G2 as [-> _]; done].
    destruct (IH fuel con (Next a) (Some b1) nx B l) as (a2 & q2 & p2 & E & K1 & K2 & K3); [lia|done|done|].
    exists a2, q2, p2. split_and!; [exact E|done|set_solver|]. intros l'. rewrite <- HA at 1.
    assert (a <> a2) by (intros ->; done).
    apply (G7 _ (Some b1)); [| |apply K3|done|set_solver].
    + intros b _ _ Hb. rewrite lookup_insert_ne; [done|set_solver].
    + by rewrite lookup_insert_ne.
Qed.

(** C25: Removing an extension that is in the trie succeeds: nothing is found at its row
    any more, whatever is at other rows stays, and the trie stays sorted. *)
Theorem trie_remove_correct calloc con t e : holds con t -> sorted_trie t -> plain_exten e -> exten_at t (path_of e) <> None ->
  exists con' t', trie_remove calloc con e = Ret con' /\ holds con' t' /\ sorted_trie t' /\
    forall ks, exten_at t' ks = if decide (ks = path_of e) then None else exten_at t ks.
Proof.
  intros Hrep Hs Hp Hat. unfold trie_remove, add_exten_to_pattern_tree.
  destruct (extenbuf e) as [text|] eqn:Et; [|unfold path_of, row_of in Hat; by rewrite Et in Hat].
  destruct (pattern_start text) as [pat pos] eqn:Es.
  destruct (row_of_spec e text pat pos Hp Et Es) as (ts & cur & pos' & _ & Hpath & -> & Hts & _ & Hlen). cbn [obind].
  rewrite Hpath in *. unfold exten_at in Hat. destruct (node_lookup t (keys pat ts)) as [l|] eqn:Hl; [|done].
  destruct (find_loop_ok calloc e pat cur pos' ts Hts (S (S (length pos'))) con Root (pattern_tree con) t (dom (nodes con)) l) as (a & q & p1 & -> & G1 & G2 & G3);
    [lia|exact Hrep|done|].
  cbn [obind oaccess]. rewrite (node_at_some _ _ _ G1). cbn [obind]. change (mexten (node_of l q p1)) with (l_exten l).
  unfold live in Hat. destruct (l_exten l) as [e0|] eqn:He; [|by destruct (l_del l)]. rewrite (update_at _ _ _ _ G1).
  set (l' := mk_label (l_pat l) true (l_spec l) None (l_x l)).
  eexists _, (relabel t (keys pat ts) l'). split_and!; [done| |by eapply sorted_relabel|].
  { unfold holds. cbn. rewrite dom_insert_lookup_L by (by eexists). apply (G3 l'). }
  intros ks. by rewrite (exten_at_relabel t (keys pat ts) l' l).
Qed.

(** The context of the examples. *)
Lemma ex_context : exists con, create_match_char_tree fresh_calloc empty_context [ex_number; ex_pattern] = Ret con /\
  holds con (trie_of [ex_number; ex_pattern]).
Proof.
  apply (create_ok fresh_calloc fresh_calloc_fresh); [done|apply holds_empty|].
  constructor; [apply ex_number_plain|]. constructor; [apply ex_pattern_plain|constructor].
Qed.

Lemma trie_remove_correct_witness : exists con con' t',
  create_match_char_tree fresh_calloc empty_context [ex_number; ex_pattern] = Ret con /\
  trie_remove fresh_calloc con ex_number = Ret con' /\ holds con' t' /\ sorted_trie t' /\
  forall ks, exten_at t' ks = if decide (ks = path_of ex_number) then None else exten_at (trie_of [ex_number; ex_pattern]) ks.
Proof.
  destruct ex_context as (con & E & Hh).
  destruct (trie_remove_correct fresh_calloc con _ ex_number Hh (sorted_trie_of _) ex_number_plain) as (con' & t' & H).
  - vm_compute. discriminate.
  - exists con, con', t'. split; [exact E|exact H].
Defined.

(** ** Freeing the trie *)

(** [b] is gone from the store if it is in [A]. *)
Lemma destroy_ok fuel con a t A : rep (nodes con) (Some a) t A -> (size A < fuel)%nat ->
  exists con', destroy_pattern_tree fuel con a = Ret con' /\ pattern_tree con' = pattern_tree con /\
    (forall b, b ∈ A -> nodes con' !! b = None) /\ (forall b, b ∉ A -> nodes con' !! b = nodes con !! b).
Proof.
  revert con a t A. induction fuel as [|fuel IH]; intros con a t A Hrep Hf; [lia|]. cbn [destroy_pattern_tree].
  inversion Hrep as [|a' l p q nx al B C Ha Hnx Hal HB HC HBC]; subst.
  rewrite !size_union, size_singleton in Hf by set_solver.
  rewrite (node_at_some _ _ _ Ha). cbn [obind node_of alt_char].
  assert (H1 : exists con1, match q with
      | Some b => let* con := destroy_pattern_tree fuel con b in update con a (fun n => n <| alt_char := None |>)
      | None => Ret con end = Ret con1 /\ pattern_tree con1 = pattern_tree con /\ nodes con1 !! a = Some (node_of l None p) /\
      (forall b, b ∈ C -> nodes con1 !! b = None) /\ (forall b, b ∉ {[a]} ∪ C -> nodes con1 !! b = nodes con !! b)).
  { destruct q as [b|].
    - destruct (IH con b al C Hal) as (con0 & -> & K1 & K2 & K3); [lia|]. cbn [obind].
      rewrite (update_at con0 a (node_of l (Some b) p)) by (rewrite K3; done). eexists. split; [done|]. cbn. split_and!.
      + done. + by rewrite lookup_insert_eq.
      + intros b' Hb'. rewrite lookup_insert_ne by (intros ->; done). by apply K2.
      + intros b' Hb'. rewrite lookup_insert_ne, K3; [done|set_solver..].
    - apply rep_none in Hal as [-> ->]. exists con. split_and!; [done..|]; set_solver. }
  destruct H1 as (con1 & -> & R1 & A1 & D1 & F1). cbn [obind]. rewrite (node_at_some _ _ _ A1). cbn [obind node_of next_char].
  assert (H2 : exists con2, match p with
      | Some b => let* con := destroy_pattern_tree fuel con1 b in update con a (fun n => n <| next_char := None |>)
      | None => Ret con1 end = Ret con2 /\ pattern_tree con2 = pattern_tree con /\ nodes con2 !! a = Some (node_of l None None) /\
      (forall b, b ∈ B ∪ C -> nodes con2 !! b = None) /\ (forall b, b ∉ {[a]} ∪ B ∪ C -> nodes con2 !! b = nodes con !! b)).
  { destruct p as [b|].
    - destruct (IH con1 b nx B) as (con0 & -> & K1 & K2 & K3); [|lia|].
      { apply (rep_frame (nodes con)); [done|]. intros b' Hb'. apply F1. set_solver. }
      cbn [obind]. rewrite (update_at con0 a (node_of l None (Some b))) by (rewrite K3; done). eexists. split; [done|]. cbn. split_and!.
      + congruence. + by rewrite lookup_insert_eq.
      + intros b' Hb'. rewrite lookup_insert_ne by (intros ->; set_solver).
        destruct (decide (b' ∈ B)); [by apply K2|]. rewrite K3 by done. apply D1. set_solver.
      + intros b' Hb'. rewrite lookup_insert_ne, K3, F1; [done|set_solver..].
    - apply rep_none in Hnx as [-> ->]. exists con1. split_and!; [done..| |]; intros b' Hb'; [apply D1; set_solver|apply F1; set_solver]. }
  destruct H2 as (con2 & -> & R2 & A2 & D2 & F2). cbn [obind]. rewrite (update_at _ _ _ _ A2). cbn [obind].
  eexists. split; [done|]. cbn. split_and!; [done| |].
  - intros b Hb. destruct (decide (b = a)) as [->|]; [by rewrite lookup_delete_eq|]. rewrite lookup_delete_ne, lookup_insert_ne by done.
    apply D2. set_solver.
  - intros b Hb. rewrite lookup_delete_ne, lookup_insert_ne by set_solver. apply F2. set_solver.
Qed.

(** Freeing the trie of a context that owns all its nodes visits every node once,
    never follows a pointer to freed memory, and leaves no node allocated. *)
Theorem destroy_pattern_tree_correct con a t : holds con t -> pattern_tree con = Some a ->
  exists con', destroy_pattern_tree (S (size (nodes con))) con a = Ret con' /\ nodes con' = ∅.
Proof.
  intros Hrep Ha. unfold holds in Hrep. rewrite Ha in Hrep. destruct (destroy_ok (S (size (nodes con))) con a t (dom (nodes con)) Hrep) as (con' & -> & _ & K1 & K2).
  { rewrite size_dom. lia. }
  exists con'. split; [done|]. apply map_empty. intros b. destruct (decide (b ∈ dom (nodes con))); [by apply K1|].
  rewrite K2 by done. by apply not_elem_of_dom.
Qed.

Lemma destroy_pattern_tree_correct_witness : exists con a con',
  create_match_char_tree fresh_calloc empty_context [ex_number; ex_pattern] = Ret con /\ pattern_tree con = Some a /\
  destroy_pattern_tree (S (size (nodes con))) con a = Ret con' /\ nodes con' = ∅.
Proof.
  destruct ex_context as (con & E & Hh).
  destruct (pattern_tree con) as [a|] eqn:Ea.
  - destruct (destroy_pattern_tree_correct con a _ Hh Ea) as (con' & H). exists con, a, con'. split; [exact E|]. split; [exact Ea|exact H].
  - exfalso. unfold holds in Hh. rewrite Ea in Hh. apply rep_none in Hh as [Hh _]. vm_compute in Hh. discriminate.
Defined.
