(* ===== verification/TrieFind.v ===== *)
(** * Searching the pattern trie ([main/pbx.c])

    [new_find_extension] looks a dialled number up in the trie of a context, node by
    node: a node is tried before its alternatives, and what follows a node is searched
    before the next alternative is.  This file models the search with its scoreboard,
    in all modes, and what [pbx_find_extension] makes of the result.

    Strings are as in Extension.v; here reading the character after the final NUL, which
    [*(str + 1)] does for an empty string, is a bad access.  The two macros of the
    function are the definitions [chk_match] and [recurse]; the boolean they give back
    says that the function returns. *)

From S2P Require Import Extension PatternNode Trie Prelude.
From Stdlib Require Import ZArith Lia.
From stdpp Require Import base list gmap numbers sets strings.

#[local] Open Scope Z_scope.
#[local] Open Scope outcome_scope.
#[local] Open Scope record_scope.

Definition E_SPAWN : Z := 0x12.
Definition E_FINDLABEL : Z := 0x22.

Record scoreboard := mk_scoreboard {
  total_specificity : Z;
  total_length : Z;
  last_char : Z;
  canmatch : bool;
  sb_node : option positive;
  canmatch_exten : option ast_exten;
  sb_exten : option ast_exten;
}.

#[export] Instance scoreboard_eta : Eta scoreboard := fun s =>
  mk_scoreboard (total_specificity s) (total_length s) (last_char s) (canmatch s) (sb_node s) (canmatch_exten s) (sb_exten s).

Definition empty_scoreboard : scoreboard := mk_scoreboard 0 0 0 false None None None.

Definition update_scoreboard (board : scoreboard) (length spec : Z) (e : option ast_exten) (last : Z) (del : bool)
    (node : option positive) : scoreboard :=
  if del then board
  else board <| total_specificity := spec |> <| total_length := length |> <| sb_exten := e |> <| last_char := last |>
             <| sb_node := node |>.

(** [*(str + 1)]. *)
Definition char_after (s : str) : outcome Z := match s with [] => BadAccess | _ :: rest => Ret (deref rest) end.

(** [strchr(x, c)], which finds the final NUL, too. *)
Definition strchr (x : str) (c : Z) : bool := (c =? 0) || bool_decide (c ∈ x).

(** [x[0] == c && x[1] == 0]. *)
Definition is_char (x : str) (c : Z) : bool := (deref x =? c) && (deref (tail x) =? 0).

Definition is_some {A} (o : option A) : bool := match o with Some _ => true | None => false end.

Fixpoint get_canmatch_exten (fuel : nat) (con : ast_context) (node : option positive) : outcome (option ast_exten) :=
  match fuel with
  | O => NoFuel
  | S fuel =>
      match node with
      | None => Ret None
      | Some a =>
          let* n := node_at con a in
          match mexten n with Some e => Ret (Some e) | None => get_canmatch_exten fuel con (next_char n) end
      end
  end.

(** The loops over the alternatives in [trie_find_next_match]: the first extension, and
    the search below [m3], once for every alternative. *)
Fixpoint first_alt_exten (fuel : nat) (con : ast_context) (m4 : option positive) : outcome (option ast_exten) :=
  match fuel with
  | O => NoFuel
  | S fuel =>
      match m4 with
      | None => Ret None
      | Some a =>
          let* n := node_at con a in
          match mexten n with Some e => Ret (Some e) | None => first_alt_exten fuel con (alt_char n) end
      end
  end.

Fixpoint repeat_search (fuel : nat) (con : ast_context) (m4 : option positive) (search : outcome (option ast_exten)) :
    outcome (option ast_exten) :=
  match fuel with
  | O => NoFuel
  | S fuel =>
      match m4 with
      | None => Ret None
      | Some a =>
          let* e3 := search in
          match e3 with
          | Some _ => Ret e3
          | None => let* n := node_at con a in repeat_search fuel con (alt_char n) search
          end
      end
  end.

Fixpoint trie_find_next_match (fuel : nat) (con : ast_context) (node : option positive) : outcome (option ast_exten) :=
  match fuel with
  | O => NoFuel
  | S fuel =>
      match node with
      | None => Ret None
      | Some a =>
          let* n := node_at con a in
          if is_char (mx n) c_dot then Ret (mexten n)
          else if is_char (mx n) c_bang then Ret (mexten n)
          else
            match next_char n with
            | None => Ret None
            | Some m3 =>
                let* n3 := node_at con m3 in
                match mexten n3 with
                | Some e => Ret (Some e)
                | None =>
                    let* e4 := first_alt_exten (S (size (nodes con))) con (alt_char n3) in
                    match e4 with
                    | Some _ => Ret e4
                    | None => repeat_search (S (size (nodes con))) con (Some m3) (trie_find_next_match fuel con (Some m3))
                    end
                end
            end
      end
  end.

(** [NEW_MATCHER_CHK_MATCH]. *)
Definition chk_match (a : positive) (p : match_char) (s : str) (score : scoreboard) (length spec : Z) (label : str) (action : Z) :
    outcome (bool * scoreboard) :=
  match mexten p with
  | None => Ret (false, score)
  | Some e =>
      let* c := char_after s in
      if negb (c =? 0) then Ret (false, score)
      else if (action =? E_MATCH) || (action =? E_SPAWN) || (action =? E_FINDLABEL) then
        let score := update_scoreboard score (length + 1) (spec + specificity p) (Some e) 0 (deleted p) (Some a) in
        if deleted p then Ret (false, score)
        else if action =? E_FINDLABEL then Ret (bool_decide (label ∈ ex_labels e), score)
        else Ret (true, score)
      else Ret (false, score)
  end.

(** [action == E_CANMATCH || action == E_MATCHMORE]. *)
Definition early (action : Z) : bool := (action =? E_CANMATCH) || (action =? E_MATCHMORE).

(** Where a match in a callee ends the search. *)
Definition ends (action : Z) (score : scoreboard) : bool := is_some (sb_exten score) || early action && canmatch score.

(** [score->canmatch = 1; ...]. *)
Definition set_canmatch (con : ast_context) (a : positive) (score : scoreboard) (action : Z) : outcome (bool * scoreboard) :=
  let* e := get_canmatch_exten (S (size (nodes con))) con (Some a) in
  Ret (early action, score <| canmatch := true |> <| canmatch_exten := e |>).

Section Step.
Context (con : ast_context) (callerid : option str) (label : str) (action : Z).

(** A recursive call, on a string, a scoreboard, a tree, a length and a score. *)
Context (find : str -> scoreboard -> option positive -> Z -> Z -> outcome scoreboard).

(** [NEW_MATCHER_RECURSE]. *)
Definition recurse (a : positive) (p : match_char) (s : str) (score : scoreboard) (length spec : Z) : outcome (bool * scoreboard) :=
  match next_char p with
  | Some nx =>
      let* n := node_at con nx in
      let* c := char_after s in
      let bang := deref (mx n) =? c_bang in
      if negb (c =? 0) || is_char (mx n) c_slash || bang then
        if negb (c =? 0) || bang then
          let* score := find (tail s) score (Some nx) (length + 1) (spec + specificity p) in
          Ret (is_some (sb_exten score), score)
        else
          let* score := find [c_slash] score (Some nx) (length + 1) (spec + specificity p) in
          Ret (ends action score, score)
      else set_canmatch con a score action
  | None =>
      if action =? E_CANMATCH then
        let* c := char_after s in
        if c =? 0 then set_canmatch con a score action else Ret (false, score)
      else Ret (false, score)
  end.

Definition match_and_recurse (a : positive) (p : match_char) (s : str) (score : scoreboard) (length spec : Z) :
    outcome (bool * scoreboard) :=
  let* (done, score) := chk_match a p s score length spec label action in
  if done then Ret (true, score) else recurse a p s score length spec.

(** [if (p->next_char && p->next_char->x[0] == '/' && ...)] of [.] and [!]. *)
Definition after_wildcard (p : match_char) (score : scoreboard) (length spec : Z) : outcome (bool * scoreboard) :=
  match next_char p with
  | Some nx =>
      let* n := node_at con nx in
      if is_char (mx n) c_slash then
        let* score := find [c_slash] score (Some nx) length spec in Ret (ends action score, score)
      else Ret (false, score)
  | None => Ret (false, score)
  end.

(** [while ( *str2 && *str2 != '/')]: the number of characters, and [*str2]. *)
Fixpoint run (s : str) : Z * Z :=
  match s with
  | [] => (0, 0)
  | c :: rest => if c =? c_slash then (0, c) else let '(i, d) := run rest in (i + 1, d)
  end.

(** The round of the loop for the node [p] at [a]. *)
Definition round (a : positive) (p : match_char) (s : str) (score : scoreboard) (length spec : Z) : outcome (bool * scoreboard) :=
  let x0 := deref (mx p) in
  let c := deref s in
  let range lo hi := (deref (tail (mx p)) =? 0) && (lo <=? c) && (c <=? hi) in
  let step b := if b : bool then match_and_recurse a p s score length spec else Ret (false, score) in
  if is_pattern p then
    if x0 =? 78 then step (range 50 57)
    else if x0 =? 90 then step (range 49 57)
    else if x0 =? 88 then step (range 48 57)
    else if is_char (mx p) c_dot then
      let '(i, d) := run s in
      let score :=
        if is_some (mexten p) && negb (d =? c_slash) then
          update_scoreboard score (length + i) (spec + i * specificity p) (mexten p) c_dot (deleted p) (Some a)
        else score in
      if is_some (mexten p) && negb (d =? c_slash) && is_some (sb_exten score) then Ret (true, score)
      else after_wildcard p score (length + i) (spec + specificity p * i)
    else if is_char (mx p) c_bang then
      let '(i, d) := run s in
      let i := i + 1 in
      let score :=
        if is_some (mexten p) && negb (d =? c_slash) then
          update_scoreboard score (length + 1) (spec + specificity p * i) (mexten p) c_bang (deleted p) (Some a)
        else score in
      if is_some (mexten p) && negb (d =? c_slash) && is_some (sb_exten score) then Ret (true, score)
      else after_wildcard p score (length + i) (spec + specificity p * i)
    else if is_char (mx p) c_slash then
      match next_char p, callerid with
      | Some nx, Some ((_ :: _) as cid) =>
          let* score := find cid score (Some nx) (length + 1) spec in Ret (ends action score, score)
      | _, _ => Ret (false, score)
      end
    else step (strchr (mx p) c)
  else step (strchr (mx p) c).
End Step.

(** The loop over the alternatives of [tree]. *)
Fixpoint new_find_extension (fuel : nat) (con : ast_context) (s : str) (score : scoreboard) (tree : option positive)
    (length spec : Z) (callerid : option str) (label : str) (action : Z) : outcome scoreboard :=
  match fuel with
  | O => NoFuel
  | S fuel =>
      match tree with
      | None => Ret score
      | Some a =>
          let* p := node_at con a in
          let find s score tree length spec := new_find_extension fuel con s score tree length spec callerid label action in
          let* (done, score) := round con callerid label action find a p s score length spec in
          if done then Ret score else new_find_extension fuel con s score (alt_char p) length spec callerid label action
      end
  end.

(** The search as [pbx_find_extension] starts it. *)
Definition search_trie (con : ast_context) (s : str) (callerid : option str) (label : str) (action : Z) : outcome scoreboard :=
  new_find_extension (S (size (nodes con))) con s empty_scoreboard (pattern_tree con) 0 0 callerid label action.

(** What [pbx_find_extension] does next: it returns, or goes on with the extension that
    was found, or without one. *)
Inductive verdict := Returns (e : option ast_exten) | GoesOn (eroot : option ast_exten).

Definition trie_verdict (con : ast_context) (score : scoreboard) (action : Z) : outcome verdict :=
  let eroot := sb_exten score in
  if (last_char score =? c_bang) && (action =? E_MATCHMORE) then Ret (Returns None)
  else if negb (is_some eroot) && early action && is_some (canmatch_exten score) then Ret (Returns (canmatch_exten score))
  else if early action && is_some eroot then
    match sb_node score with
    | Some a =>
        let* z := trie_find_next_match (S (size (nodes con))) con (Some a) in
        Ret (Returns (match z with Some _ => z | None => canmatch_exten score end))
    | None => Ret (Returns None)
    end
  else Ret (GoesOn eroot).

(** ** The search is safe *)

(** A node that starts with [!] is the wildcard, and nothing else comes after all other
    nodes. *)
Definition bang_ok (l : label) : Prop :=
  (deref (l_x l) = c_bang -> l_pat l = true /\ l_x l = [c_bang] /\ l_spec l = 0x28000) /\
  (0x28000 <= l_spec l -> deref (l_x l) = c_bang).

#[export] Instance bang_ok_shape : Shape bang_ok.
Proof. intros l l' E1 E2 E3. unfold bang_ok. by rewrite E1, E2, E3. Qed.

Definition all_bang (t : trie) : Prop := all_alts (fun l => deref (l_x l) = c_bang) t.

Lemma all_bang_head l nx al : deref (l_x l) = c_bang -> sorted_trie (TNode l nx al) -> all_labels bang_ok (TNode l nx al) ->
  all_bang (TNode l nx al).
Proof.
  intros Hl (H1 & _) ((Hb & _) & _ & H3). destruct (Hb Hl) as (_ & _ & Hspec). split; [done|].
  assert (H : forall P Q R : label -> Prop, (forall l, P l -> Q l -> R l) -> forall t, all_alts P t -> all_labels Q t -> all_alts R t).
  { intros P Q R HPQ. induction t as [|l0 nx0 _ al0 IH]; cbn; [done|]. intros [] (? & _ & ?). auto. }
  apply (H (fun l' => l_spec l <= l_spec l') bang_ok); [|done|done]. intros l' Hs [_ Hb']. apply Hb'. lia.
Qed.

Lemma get_canmatch_total con p t A fuel : rep (nodes con) p t A -> (size A < fuel)%nat ->
  exists e, get_canmatch_exten fuel con p = Ret e.
Proof.
  intros Hrep. revert fuel. induction Hrep as [|a l p q nx al B C Ha _ IH _ _ HB HC HBC]; intros [|fuel] Hf; try lia; cbn; [by eexists|].
  rewrite !size_union, size_singleton in Hf by set_solver. rewrite (node_at_some _ _ _ Ha). cbn.
  destruct (l_exten l); [by eexists|]. apply IH. lia.
Qed.

(** The result of the recursive call in the goal. *)
Ltac call_find :=
  match goal with
  | H : forall s score len spec, _ -> exists score', ?f s score ?p len spec = Ret score' |- context [?f ?s ?sc ?p ?l ?sp] =>
      let r := fresh "r" in let E := fresh "E" in
      enough (exists r, f s sc p l sp = Ret r) as [r E]; [rewrite E; by eexists|apply H]
  end.

Section Round.
Context (con : ast_context) (callerid : option str) (label : str) (action : Z).
Context (find : str -> scoreboard -> option positive -> Z -> Z -> outcome scoreboard).
Context (a : positive) (l : Trie.label) (p q : option positive) (nx : trie) (B A : gset positive).
Hypothesis (Ha : nodes con !! a = Some (node_of l q p)) (Hnx : rep (nodes con) p nx B).
Hypothesis (Hrep : exists t, rep (nodes con) (Some a) t A).

Lemma set_canmatch_total score : exists r, set_canmatch con a score action = Ret r.
Proof using Hrep.
  destruct Hrep as [t H]. unfold set_canmatch. pose proof (rep_size _ _ _ _ H).
  destruct (get_canmatch_total con (Some a) t A (S (size (nodes con))) H) as [e ->]; [lia|]. by eexists.
Qed.

Hypothesis (Hfind : forall s score len spec, s <> [] \/ all_bang nx -> exists score', find s score p len spec = Ret score').
Hypothesis (Hsorted : sorted_trie nx) (Hlabels : all_labels bang_ok nx).

Lemma head_at b : p = Some b -> exists l1 q1 p1, nodes con !! b = Some (node_of l1 q1 p1) /\ (deref (l_x l1) = c_bang -> all_bang nx).
Proof using Hnx Hsorted Hlabels.
  intros Hp. pose proof Hnx as H. rewrite Hp in H. clear Hnx. revert Hsorted Hlabels. revert H. generalize nx, B. clear.
  intros nx B H Hs Hl. inversion H as [|b' l1 p1 q1 nx1 al1 B1 C1 Hb _ _ _ _ _]; subst. exists l1, q1, p1. split; [done|].
  intros Hl1. by apply all_bang_head.
Qed.

Lemma next_cases : p = None \/ exists b l1 q1 p1, p = Some b /\ nodes con !! b = Some (node_of l1 q1 p1) /\
  (deref (l_x l1) = c_bang -> all_bang nx).
Proof using Hnx Hsorted Hlabels.
  assert (Hp : p = None \/ exists b, p = Some b) by (clear; destruct p; eauto). destruct Hp as [Hp|[b Hp]]; [by left|].
  right. destruct (head_at b Hp) as (l1 & q1 & p1 & H). by exists b, l1, q1, p1.
Qed.

Lemma recurse_total s score len spec : s <> [] -> exists r, recurse con action find a (node_of l q p) s score len spec = Ret r.
Proof using Hnx Hrep Hfind Hsorted Hlabels.
  intros Hs. unfold recurse. destruct s as [|c s]; [done|]. cbn [char_after node_of next_char tail].
  destruct next_cases as [Hp|(b & l1 & q1 & p1 & Hp & Hb & Hbang)]; rewrite Hp.
  2: {
    rewrite (node_at_some _ _ _ Hb). cbn [obind node_of mx]. rewrite <- Hp.
    destruct (deref s =? 0) eqn:E0; cbn [negb orb].
    + destruct (deref (l_x l1) =? c_bang) eqn:Eb; zb.
      * rewrite orb_true_r. call_find; by auto.
      * rewrite orb_false_r. destruct (is_char _ _); [|apply set_canmatch_total].
        call_find; by left.
    + zb. call_find; left; by intros ->. }
  destruct (action =? E_CANMATCH); [|by eexists]. cbn [obind]. destruct (deref s =? 0); [apply set_canmatch_total|by eexists].
Qed.

Lemma after_wildcard_total score len spec : exists r, after_wildcard con action find (node_of l q p) score len spec = Ret r.
Proof using Hnx Hfind Hsorted Hlabels.
  unfold after_wildcard. cbn [node_of next_char].
  destruct next_cases as [Hp|(b & l1 & q1 & p1 & Hp & Hb & _)]; rewrite Hp; [by eexists|].
  rewrite (node_at_some _ _ _ Hb). cbn [obind node_of mx]. rewrite <- Hp.
  destruct (is_char _ _); [|by eexists]. call_find; by left.
Qed.

Lemma match_and_recurse_total s score len spec : s <> [] ->
  exists r, match_and_recurse con label action find a (node_of l q p) s score len spec = Ret r.
Proof using Hnx Hrep Hfind Hsorted Hlabels.
  intros Hs. unfold match_and_recurse, chk_match. cbn [node_of mexten deleted]. destruct s as [|c s]; [done|]. cbn [char_after].
  assert (Hr : forall score, exists r, recurse con action find a (node_of l q p) (c :: s) score len spec = Ret r) by (intros; by apply recurse_total).
  destruct (l_exten l) as [e|]; cbn [obind]; [|by apply Hr].
  destruct (negb _); [by apply Hr|]. destruct (_ || _); [|by apply Hr]. destruct (l_del l); [by apply Hr|].
  destruct (_ =? _); cbn [obind]; [destruct (bool_decide _); [by eexists|by apply Hr]|by eexists].
Qed.

Lemma round_total s score len spec : bang_ok l -> s <> [] \/ deref (l_x l) = c_bang ->
  exists r, round con callerid label action find a (node_of l q p) s score len spec = Ret r.
Proof using Hnx Hrep Hfind Hsorted Hlabels.
  intros [Hb _] Hs. unfold round. cbn [node_of is_pattern mx mexten deleted next_char].
  assert (Hstep : forall b : bool, s <> [] -> exists r, (if b then match_and_recurse con label action find a (node_of l q p) s score len spec
    else Ret (false, score)) = Ret r). { intros [] ?; [by apply match_and_recurse_total|by eexists]. }
  assert (Hwild : forall (b : bool) score len spec, exists r, (if b then Ret (true, score)
    else after_wildcard con action find (node_of l q p) score len spec) = Ret r).
  { intros [] ???; [by eexists|apply after_wildcard_total]. }
  destruct (Z.eq_dec (deref (l_x l)) c_bang) as [Eb|Eb].
  - destruct (Hb Eb) as (-> & -> & _). cbn [deref Z.eqb is_char tail andb]. destruct (run s) as [i d]. apply Hwild.
  - assert (Hs' : s <> []) by tauto. destruct (l_pat l); [|by apply Hstep].
    destruct (_ =? 78); [by apply Hstep|]. destruct (_ =? 90); [by apply Hstep|]. destruct (_ =? 88); [by apply Hstep|].
    destruct (is_char _ c_dot); [destruct (run s) as [i d]; apply Hwild|].
    destruct (is_char _ c_bang); [destruct (run s) as [i d]; apply Hwild|].
    destruct (is_char _ c_slash); [|by apply Hstep].
    destruct next_cases as [Hp|(b & _ & _ & _ & Hp & _)]; rewrite Hp; [by eexists|]. rewrite <- Hp.
    destruct callerid as [[|c0 cid]|]; [by eexists| |by eexists].
    call_find; by left.
Qed.
End Round.

Lemma find_total fuel con s score p t A len spec callerid label action : rep (nodes con) p t A -> (size A < fuel)%nat ->
  sorted_trie t -> all_labels bang_ok t -> s <> [] \/ all_bang t ->
  exists score', new_find_extension fuel con s score p len spec callerid label action = Ret score'.
Proof.
  revert s score p t A len spec. induction fuel as [|fuel IH]; intros s score p t A len spec Hrep Hf Hsorted Hl Hs; [lia|].
  cbn [new_find_extension]. inversion Hrep as [|a l p1 q nx al B C Ha Hnx Hal HB HC HBC]; subst; [by eexists|].
  rewrite !size_union, size_singleton in Hf by set_solver. rewrite (node_at_some _ _ _ Ha). cbn [obind].
  destruct Hsorted as (S1 & S2 & S3 & S4). destruct Hl as (L1 & L2 & L3).
  edestruct (round_total con callerid label action (fun s score tree len spec => new_find_extension fuel con s score tree len spec callerid label action)
    a l p1 q nx B) as [[fin score1] ->]; [done|by eexists| |done|done|done| |].
  - intros s1 score1 len1 spec1 Hs1. eapply IH; [done|lia|done..].
  - destruct Hs as [|[Hb _]]; [by left|by right].
  - cbn [obind]. destruct fin; [by eexists|]. cbn [node_of alt_char]. eapply IH; [done|lia|done..|]. destruct Hs as [|[_ Hb]]; [by left|by right].
Qed.

(** In a sorted trie whose only nodes that start with an exclamation mark are the
    wildcards, searching for a non-empty number ends in every mode, with and without a
    caller id and a label, and never reads past the end of the number. *)
Theorem new_find_extension_safe con t s callerid label action : holds con t -> sorted_trie t -> all_labels bang_ok t -> s <> [] ->
  exists score, search_trie con s callerid label action = Ret score.
Proof.
  intros Hh Hs Hl Hne. eapply find_total; [exact Hh| |done|done|by left]. rewrite size_dom. lia.
Qed.

Lemma new_find_extension_safe_witness : exists con score,
  create_match_char_tree fresh_calloc empty_context [ex_number; ex_pattern] = Ret con /\
  search_trie con (zs "1") (Some (zs "77")) (zs "start") E_MATCHMORE = Ret score.
Proof.
  destruct ex_context as (con & E & Hh).
  destruct (new_find_extension_safe con _ (zs "1") (Some (zs "77")) (zs "start") E_MATCHMORE Hh (sorted_trie_of _)) as (score & H).
  - vm_compute. repeat split; intros; discriminate || tauto.
  - discriminate.
  - exists con, score. split; [exact E|exact H].
Defined.

(** ** What the search finds

    In the modes that want a complete match, and without caller ids in the trie, the
    search gives the first of all matching rows of nodes. *)

(** Whether a node accepts a character, and whether it accepts any number of them. *)
Definition key_ok (k : key) (c : Z) : bool :=
  let '(pat, x) := k in
  let range lo hi := (deref (tail x) =? 0) && (lo <=? c) && (c <=? hi) in
  if pat then
    if deref x =? 78 then range 50 57
    else if deref x =? 90 then range 49 57
    else if deref x =? 88 then range 48 57
    else bool_decide (c ∈ x)
  else bool_decide (c ∈ x).

Definition key_wild (k : key) : bool := fst k && (is_char (snd k) c_dot || is_char (snd k) c_bang).

Definition label_key (l : Trie.label) : key := (l_pat l, l_x l).

Definition starts_bang (t : trie) : bool := match t with TLeaf => false | TNode l _ _ => deref (l_x l) =? c_bang end.

Definition own_hit (l : Trie.label) : list (list key * ast_exten) :=
  match live l with Some e => [([label_key l], e)] | None => [] end.

(** What the rest [s] of the number, after the character of a node, is matched with. *)
Definition goes_below (s : str) (nx : trie) : bool := negb (bool_decide (s = [])) || starts_bang nx.

Fixpoint hits (t : trie) (s : str) : list (list key * ast_exten) :=
  match t with
  | TLeaf => []
  | TNode l nx al =>
      (if key_wild (label_key l) then own_hit l
       else
         match s with
         | [] => []
         | c :: s =>
             if key_ok (label_key l) c then
               (if bool_decide (s = []) then own_hit l else []) ++
               (if goes_below s nx then prod_map (cons (label_key l)) id <$> hits nx s else [])
             else []
         end) ++ hits al s
  end.

(** Numbers without slashes, and nodes that do not start with one. *)
Definition number (s : str) : Prop := Forall (fun c => c <> 0 /\ c <> c_slash) s.

Definition no_slash (l : Trie.label) : Prop := deref (l_x l) <> c_slash.

Lemma run_number s : number s -> snd (run s) <> c_slash.
Proof.
  induction 1 as [|c s [_ Hc] _ IH]; cbn; [done|]. rewrite (proj2 (Z.eqb_neq _ _)) by done. by destruct (run s).
Qed.

Lemma is_char_deref x c d : deref x <> c -> is_char x c && d = false.
Proof. intros H. unfold is_char. by rewrite (proj2 (Z.eqb_neq _ _)) by done. Qed.

(** The two modes. *)
Definition complete (action : Z) : Prop := action = E_MATCH \/ action = E_SPAWN.

Definition found (score : scoreboard) (hs : list (list key * ast_exten)) : Prop := sb_exten score = snd <$> head hs.

Section FirstHit.
Context (con : ast_context) (callerid : option str) (label : str) (action : Z).
Context (find : str -> scoreboard -> option positive -> Z -> Z -> outcome scoreboard).
Context (a : positive) (l : Trie.label) (p q : option positive) (nx : trie) (B A : gset positive).
Hypothesis (Ha : nodes con !! a = Some (node_of l q p)) (Hnx : rep (nodes con) p nx B).
Hypothesis (Hrep : exists t, rep (nodes con) (Some a) t A) (Haction : complete action).
Hypothesis (Hfind : forall s score len spec, sb_exten score = None -> s <> [] \/ all_bang nx -> number s ->
  exists score', find s score p len spec = Ret score' /\ found score' (hits nx s)).
Hypothesis (Hsorted : sorted_trie nx) (Hlabels : all_labels bang_ok nx) (Hslash : all_labels no_slash nx).

Lemma complete_bools : (action =? E_CANMATCH) = false /\ early action = false /\ (action =? E_FINDLABEL) = false /\
  ((action =? E_MATCH) || (action =? E_SPAWN) || (action =? E_FINDLABEL)) = true.
Proof using Haction. by destruct Haction as [-> | ->]. Qed.

Lemma next_cases' : p = None /\ nx = TLeaf \/ exists b n, p = Some b /\ nodes con !! b = Some n /\ is_char (mx n) c_slash = false /\
  starts_bang nx = (deref (mx n) =? c_bang) /\ ((deref (mx n) =? c_bang) = true -> all_bang nx).
Proof using Hnx Hsorted Hlabels Hslash.
  revert Hnx Hsorted Hlabels Hslash. clear. intros H Hs Hl Hsl. inversion H as [|b l1 p1 q1 nx1 al1 B1 C1 Hb _ _ _ _ _]; subst; [by left|].
  right. eexists b, _. split_and!; [done|done| |done|].
  - cbn [node_of mx]. rewrite <- (andb_true_r (is_char _ _)). by apply is_char_deref, Hsl.
  - cbn [node_of mx]. intros Hb1. zb. by apply all_bang_head.
Qed.

Lemma recurse_first c s score len spec : sb_exten score = None -> number (c :: s) ->
  exists fin score', recurse con action find a (node_of l q p) (c :: s) score len spec = Ret (fin, score') /\
    found score' (if goes_below s nx then prod_map (cons (label_key l)) id <$> hits nx s else []) /\ fin = is_some (sb_exten score').
Proof using Hnx Hrep Hfind Hsorted Hlabels Hslash Haction.
  intros Hsc Hn. inversion_clear Hn as [|? ? _ Hs]. destruct complete_bools as (E1 & E2 & E3 & E4).
  assert (Hcan : exists fin score', set_canmatch con a score action = Ret (fin, score') /\ found score' [] /\ fin = is_some (sb_exten score')).
  { destruct (set_canmatch_total con action a A Hrep score) as [r E]. unfold set_canmatch in *.
    destruct (get_canmatch_exten _ _ _); try done. cbn in *. eexists _, _. split; [done|]. unfold found. cbn. by rewrite Hsc, E2. }
  assert (Hz : (deref s =? 0) = bool_decide (s = [])).
  { destruct Hs as [|d s [Hd _] _]; cbn; [done|]. by apply Z.eqb_neq. }
  unfold recurse, goes_below. cbn [node_of next_char char_after tail].
  destruct next_cases' as [(Hp & ->)|(b & n & Hp & Hb & Hsl & Hsb & Hbang)]; rewrite Hp.
  - cbn [obind starts_bang]. rewrite E1. eexists _, score. split; [done|]. unfold found. rewrite Hsc.
    split; [|done]. by destruct (negb _ || _).
  - rewrite (node_at_some _ _ _ Hb). cbn [obind]. rewrite Hsl, Hsb, Hz, orb_false_r, <- Hp.
    destruct (negb (bool_decide (s = [])) || (deref (mx n) =? c_bang)) eqn:Eg; [|apply Hcan].
    edestruct Hfind as (score' & -> & Hf); [exact Hsc| |exact Hs|].
    { apply orb_true_iff in Eg as [Eg|Eg]; [left; by apply negb_true_iff, bool_decide_eq_false in Eg|right; by apply Hbang]. }
    cbn [obind]. eexists _, score'. split; [done|]. split; [|done]. unfold found in *. rewrite Hf. by destruct (hits nx s).
Qed.

(** The hits of a node and what is below it. *)
Definition node_hits (s : str) : list (list key * ast_exten) :=
  if key_wild (label_key l) then own_hit l
  else
    match s with
    | [] => []
    | c :: s =>
        if key_ok (label_key l) c then
          (if bool_decide (s = []) then own_hit l else []) ++
          (if goes_below s nx then prod_map (cons (label_key l)) id <$> hits nx s else [])
        else []
    end.

Lemma match_first c s score len spec : sb_exten score = None -> number (c :: s) ->
  exists fin score', match_and_recurse con label action find a (node_of l q p) (c :: s) score len spec = Ret (fin, score') /\
    found score' ((if bool_decide (s = []) then own_hit l else []) ++
      (if goes_below s nx then prod_map (cons (label_key l)) id <$> hits nx s else [])) /\ fin = is_some (sb_exten score').
Proof using Hnx Hrep Hfind Hsorted Hlabels Hslash Haction.
  intros Hsc Hn. destruct complete_bools as (E1 & E2 & E3 & E4).
  unfold match_and_recurse, chk_match, own_hit, live. cbn [node_of mexten deleted char_after].
  assert (Hz : (deref s =? 0) = bool_decide (s = [])).
  { inversion_clear Hn as [|? ? _ Hs]. destruct Hs as [|d s [Hd _] _]; cbn; [done|]. by apply Z.eqb_neq. }
  destruct (l_exten l) as [e|]; cbn [obind].
  - rewrite Hz. destruct (bool_decide (s = [])); cbn [negb]; [|by apply recurse_first].
    rewrite E4, E3. unfold update_scoreboard. destruct (l_del l); cbn [obind]; [by apply recurse_first|].
    eexists _, _. split; [done|]. by unfold found.
  - destruct (l_del l), (bool_decide (s = [])); by apply recurse_first.
Qed.

Lemma round_first s score len spec : sb_exten score = None -> bang_ok l -> no_slash l -> s <> [] \/ deref (l_x l) = c_bang -> number s ->
  exists fin score', round con callerid label action find a (node_of l q p) s score len spec = Ret (fin, score') /\
    found score' (node_hits s) /\ fin = is_some (sb_exten score').
Proof using Hnx Hrep Hfind Hsorted Hlabels Hslash Haction.
  intros Hsc [Hb _] Hl Hs Hn. unfold round, node_hits. cbn [node_of is_pattern mx mexten deleted next_char].
  assert (key_wild (label_key l) = l_pat l && (is_char (l_x l) c_dot || is_char (l_x l) c_bang)) as -> by done.
  assert (Hko : forall c, key_ok (label_key l) c =
    let range lo hi := (deref (tail (l_x l)) =? 0) && (lo <=? c) && (c <=? hi) in
    if l_pat l then
      if deref (l_x l) =? 78 then range 50 57 else if deref (l_x l) =? 90 then range 49 57
      else if deref (l_x l) =? 88 then range 48 57 else bool_decide (c ∈ l_x l)
    else bool_decide (c ∈ l_x l)) by done.
  assert (Hstep : forall b, s <> [] -> exists fin score',
    (if b : bool then match_and_recurse con label action find a (node_of l q p) s score len spec else Ret (false, score)) = Ret (fin, score') /\
    found score' (match s with [] => [] | c :: s => if b then (if bool_decide (s = []) then own_hit l else []) ++
      (if goes_below s nx then prod_map (cons (label_key l)) id <$> hits nx s else []) else [] end) /\ fin = is_some (sb_exten score')).
  { intros b Hne. destruct s as [|c s]; [done|]. destruct b; [by apply match_first|]. eexists _, score. split; [done|].
    unfold found. rewrite Hsc. done. }
  assert (Hchr : forall c s', s = c :: s' -> strchr (l_x l) c = bool_decide (c ∈ l_x l)).
  { intros c s' ->. inversion_clear Hn as [|? ? [Hc _] _]. unfold strchr. by rewrite (proj2 (Z.eqb_neq _ _)). }
  assert (Hwild : forall last score len spec len' spec' node d, sb_exten score = None -> d <> c_slash -> exists fin score',
    (let score := if is_some (l_exten l) && negb (d =? c_slash) then update_scoreboard score len spec (l_exten l) last (l_del l) node else score in
     if is_some (l_exten l) && negb (d =? c_slash) && is_some (sb_exten score) then Ret (true, score)
     else after_wildcard con action find (node_of l q p) score len' spec') = Ret (fin, score') /\
    found score' (own_hit l) /\ fin = is_some (sb_exten score')).
  { clear -Hnx Hsorted Hlabels Hslash. intros last score len spec len' spec' node d Hsc Hd.
    rewrite (proj2 (Z.eqb_neq _ _) Hd). cbn [negb]. rewrite andb_true_r.
    assert (Haf : forall score len spec, after_wildcard con action find (node_of l q p) score len spec = Ret (false, score)).
    { intros. unfold after_wildcard. cbn [node_of next_char].
      destruct (next_cases') as [(Hp & _)|(b & n & Hp & Hb & Hsl & _)]; rewrite Hp; [done|]. rewrite (node_at_some _ _ _ Hb). cbn [obind]. by rewrite Hsl. }
    unfold own_hit, live, found, update_scoreboard. destruct (l_exten l) as [e|]; cbn [is_some andb].
    - destruct (l_del l); cbn; [rewrite Hsc; cbn; rewrite Haf; eexists _, score; split; [done|]; by rewrite Hsc|].
      eexists _, _. split; [done|]. done.
    - rewrite Haf. eexists _, score. split; [done|]. rewrite Hsc. by destruct (l_del l). }
  destruct (Z.eq_dec (deref (l_x l)) c_bang) as [Eb|Eb].
  { destruct (Hb Eb) as (-> & -> & _). cbn [deref Z.eqb is_char tail andb fst snd orb].
    pose proof (run_number s Hn) as Hrun. destruct (run s) as [i d]. by apply Hwild. }
  assert (Hs' : s <> []) by tauto. destruct s as [|c s]; [done|]. cbn [deref]. rewrite (Hchr c s eq_refl), Hko. cbv zeta.
  destruct (l_pat l); cbn [andb]; [|by apply Hstep].
  destruct (deref (l_x l) =? 78) eqn:E78; [|destruct (deref (l_x l) =? 90) eqn:E90; [|destruct (deref (l_x l) =? 88) eqn:E88]]; zb.
  1-3: unfold is_char; rewrite !(proj2 (Z.eqb_neq (deref (l_x l)) _)) by lia; cbn [andb orb]; by apply Hstep.
  destruct (is_char (l_x l) c_dot) eqn:Ed; cbn [orb].
  { pose proof (run_number _ Hn) as Hrun. destruct (run (c :: s)) as [i d]. by apply Hwild. }
  assert (is_char (l_x l) c_bang = false) as ->. { rewrite <- (andb_true_r (is_char _ _)). by apply is_char_deref. }
  assert (is_char (l_x l) c_slash = false) as ->. { rewrite <- (andb_true_r (is_char _ _)). by apply is_char_deref. }
  by apply Hstep.
Qed.
End FirstHit.

Lemma find_first fuel con s score p t A len spec callerid label action : rep (nodes con) p t A -> (size A < fuel)%nat ->
  complete action -> sorted_trie t -> all_labels bang_ok t -> all_labels no_slash t -> s <> [] \/ all_bang t -> number s ->
  sb_exten score = None ->
  exists score', new_find_extension fuel con s score p len spec callerid label action = Ret score' /\ found score' (hits t s).
Proof.
  intros Hrep Hf Hact. revert s score p t A len spec Hrep Hf.
  induction fuel as [|fuel IH]; intros s score p t A len spec Hrep Hf Hsorted Hl Hsl Hs Hn Hsc; [lia|].
  cbn [new_find_extension]. inversion Hrep as [|a l p1 q nx al B C Ha Hnx Hal HB HC HBC]; subst; [by exists score|].
  rewrite !size_union, size_singleton in Hf by set_solver. rewrite (node_at_some _ _ _ Ha). cbn [obind].
  destruct Hsorted as (S1 & S2 & S3 & S4). destruct Hl as (L1 & L2 & L3). destruct Hsl as (K1 & K2 & K3).
  edestruct (round_first con callerid label action (fun s score tree len spec => new_find_extension fuel con s score tree len spec callerid label action)
    a l p1 q nx B) as (fin & score1 & -> & Hf1 & Hfin); [done|by eexists|done| |done|done|done|exact Hsc|done|done| |exact Hn|].
  - intros s1 score1 len1 spec1 Hs1 Hs2 Hs3. eapply IH; [done|lia|done..].
  - destruct Hs as [|[Hb _]]; [by left|by right].
  - cbn [obind hits]. fold (node_hits l nx s). unfold found in Hf1. destruct fin.
    + eexists. split; [done|]. unfold found. rewrite Hf1 in *. by destruct (node_hits l nx s).
    + destruct (sb_exten score1) eqn:E1; [done|]. destruct (node_hits l nx s) as [|h hs]; [|done]. cbn [app].
      cbn [node_of alt_char]. eapply IH; [done|lia|done..| |done|done]. destruct Hs as [|[_ Hb]]; [by left|by right].
Qed.

(** ** Rows that accept a number *)

Fixpoint accepts (t : trie) (ks : list key) (s : str) : Prop :=
  match ks with
  | [] => False
  | k :: ks =>
      match child t k with
      | None => False
      | Some (_, nx) =>
          if key_wild k then ks = []
          else
            match s with
            | [] => False
            | c :: s => key_ok k c = true /\ match ks with [] => s = [] | _ => goes_below s nx = true /\ accepts nx ks s end
            end
      end
  end.

(** Where two rows part, the first one goes to the alternative of lower specificity
    value; a row is better than the rows it is the start of. *)
Inductive no_worse : trie -> list key -> list key -> Prop :=
  | no_worse_end t ks : no_worse t [] ks
  | no_worse_same t k l nx ks ks' : child t k = Some (l, nx) -> no_worse nx ks ks' -> no_worse t (k :: ks) (k :: ks')
  | no_worse_part t k k' l l' nx nx' ks ks' : k <> k' -> child t k = Some (l, nx) -> child t k' = Some (l', nx') ->
      l_spec l <= l_spec l' -> no_worse t (k :: ks) (k' :: ks').

Lemma child_own l nx al : child (TNode l nx al) (label_key l) = Some (l, nx).
Proof. cbn. by rewrite (proj2 (has_key_spec _ _)). Qed.

Lemma child_other l nx al k : k <> label_key l -> child (TNode l nx al) k = child al k.
Proof.
  intros H. cbn. destruct (has_key k l) eqn:E; [|done]. apply has_key_spec in E. by destruct H.
Qed.

Lemma child_all_alts P t k l nx : all_alts P t -> child t k = Some (l, nx) -> P l.
Proof. induction t as [|l0 nx0 _ al IH]; cbn; [done|]. intros [H1 H2]. destruct (has_key k l0); [by intros [= <- <-]|auto]. Qed.

(** Looking among the later alternatives. *)
Lemma alt_lookup l nx al k ks s : k <> label_key l ->
  exten_at (TNode l nx al) (k :: ks) = exten_at al (k :: ks) /\ accepts (TNode l nx al) (k :: ks) s = accepts al (k :: ks) s.
Proof. intros H. rewrite !exten_at_cons. cbn [accepts]. by rewrite child_other. Qed.

Lemma elem_of_own_hit l ks e : (ks, e) ∈ own_hit l <-> ks = [label_key l] /\ live l = Some e.
Proof.
  unfold own_hit. destruct (live l) as [e0|].
  - rewrite list_elem_of_singleton. split; [by intros [= -> ->]|by intros [-> [= ->]]].
  - split; [by intros ?%elem_of_nil|by intros []].
Qed.

Lemma elem_of_below k hs ks (e : ast_exten) : (ks, e) ∈ (prod_map (cons k) id <$> hs : list (list key * ast_exten)) <-> exists r, ks = k :: r /\ (r, e) ∈ hs.
Proof.
  rewrite list_elem_of_fmap. split.
  - intros ([r e'] & [= -> ->] & H). by exists r.
  - intros (r & -> & H). by exists (r, e).
Qed.

Lemma node_hits_spec l nx al s k ks e : (forall s ks e, (ks, e) ∈ hits nx s <-> exten_at nx ks = Some e /\ accepts nx ks s) ->
  (k :: ks, e) ∈ node_hits l nx s <-> k = label_key l /\ exten_at (TNode l nx al) (k :: ks) = Some e /\ accepts (TNode l nx al) (k :: ks) s.
Proof.
  intros IH. unfold node_hits.
  destruct (decide (k = label_key l)) as [->|Hk].
  2: { split; [|by intros [? _]]. intros H. exfalso. apply Hk. destruct (key_wild _).
    - apply elem_of_own_hit in H as [[= -> _] _]. done.
    - destruct s as [|c s]; [by apply elem_of_nil in H|]. destruct (key_ok _ _); [|by apply elem_of_nil in H].
      apply elem_of_app in H as [H|H]; [destruct (bool_decide _); [|by apply elem_of_nil in H]|destruct (goes_below _ _); [|by apply elem_of_nil in H]].
      + apply elem_of_own_hit in H as [[= -> _] _]. done.
      + apply elem_of_below in H as (r & [= -> _] & _). done. }
  rewrite exten_at_cons. cbn [accepts]. rewrite child_own. destruct (key_wild (label_key l)).
  - rewrite elem_of_own_hit. destruct ks; naive_solver.
  - destruct s as [|c s]; [split; [by intros ?%elem_of_nil|by intros (_ & _ & [])]|].
    destruct (key_ok (label_key l) c); [|split; [by intros ?%elem_of_nil|by intros (_ & _ & [])]].
    rewrite elem_of_app. destruct ks as [|k1 ks].
    + split.
      * intros [H|H]; [case_bool_decide; [|by apply elem_of_nil in H]; apply elem_of_own_hit in H as [_ H]; done|].
        destruct (goes_below _ _); [|by apply elem_of_nil in H]. apply elem_of_below in H as (r & [= <-] & H). apply IH in H as [H _]. done.
      * intros (_ & H & _ & ->). left. rewrite bool_decide_true by done. by apply elem_of_own_hit.
    + split.
      * intros [H|H]; [case_bool_decide; [|by apply elem_of_nil in H]; by apply elem_of_own_hit in H as [? _]|].
        destruct (goes_below _ _); [|by apply elem_of_nil in H]. apply elem_of_below in H as (r & [= <-] & H). apply IH in H as [H1 H2]. done.
      * intros (_ & H & _ & Hg & Hacc). right. rewrite Hg. apply elem_of_below. eexists. split; [done|]. by apply IH.
Qed.

(** All hits are rows of the trie that accept the number. *)
Lemma hits_spec t s ks e : sorted_trie t -> (ks, e) ∈ hits t s <-> exten_at t ks = Some e /\ accepts t ks s.
Proof.
  revert s ks e. induction t as [|l nx IHn al IHa]; intros s ks e Hs.
  { cbn. split; [by intros ?%elem_of_nil|]. intros [H _]. by rewrite exten_at_leaf in H. }
  destruct Hs as (S1 & S2 & S3 & S4). cbn [hits]. fold (node_hits l nx s). rewrite elem_of_app, (IHa s ks e S4).
  destruct ks as [|k ks].
  { split; [|by intros [? _]]. intros [H|[H _]]; [|done]. exfalso. unfold node_hits in H. destruct (key_wild _).
    - by apply elem_of_own_hit in H as [? _].
    - destruct s as [|c s]; [by apply elem_of_nil in H|]. destruct (key_ok _ _); [|by apply elem_of_nil in H].
      apply elem_of_app in H as [H|H]; [destruct (bool_decide _); [|by apply elem_of_nil in H]; by apply elem_of_own_hit in H as [? _]|].
      destruct (goes_below _ _); [|by apply elem_of_nil in H]. by apply elem_of_below in H as (r & ? & _). }
  rewrite (node_hits_spec l nx al) by (intros; by apply IHn).
  destruct (decide (k = label_key l)) as [->|Hk].
  - split; [intros [(_ & H)|[H _]]; [done|]|intros H; by left]. rewrite exten_at_cons in H. unfold label_key in H. by rewrite S2 in H.
  - destruct (alt_lookup l nx al k ks s Hk) as [-> ->]. naive_solver.
Qed.

Lemma no_worse_alt l nx al ks ks' : child al (label_key l) = None -> no_worse al ks ks' -> no_worse (TNode l nx al) ks ks'.
Proof.
  intros Hc H. assert (Hk : forall k l0 nx0, child al k = Some (l0, nx0) -> child (TNode l nx al) k = Some (l0, nx0)).
  { intros k l0 nx0 Hk. rewrite child_other; [done|]. intros ->. congruence. }
  inversion H; subst; [constructor|econstructor; eauto|eapply no_worse_part; eauto].
Qed.

Lemma hits_nonempty_row t s ks e : sorted_trie t -> (ks, e) ∈ hits t s -> exists k ks' l nx, ks = k :: ks' /\ child t k = Some (l, nx).
Proof.
  intros Hs [_ H]%hits_spec; [|done]. destruct ks as [|k ks']; [done|]. cbn in H. destruct (child t k) as [[l nx]|] eqn:E; [|done].
  by exists k, ks', l, nx.
Qed.

Lemma hits_best t s ks e : sorted_trie t -> head (hits t s) = Some (ks, e) -> forall ks' e', (ks', e') ∈ hits t s -> no_worse t ks ks'.
Proof.
  revert s ks e. induction t as [|l nx IHn al IHa]; intros s ks e Hs Hh ks' e' Hin; [done|].
  pose proof Hs as (S1 & S2 & S3 & S4). change (child al (label_key l) = None) in S2.
  cbn [hits] in Hh, Hin. fold (node_hits l nx s) in Hh, Hin.
  destruct (node_hits l nx s) as [|[r0 e0] hs] eqn:En.
  { cbn [app] in *. apply no_worse_alt; [done|]. by eapply IHa. }
  cbn in Hh. injection Hh as -> ->.
  assert (Hks : exists r, ks = label_key l :: r /\ (r = [] \/ exists s', s = default 0 (head s) :: s' /\ node_hits l nx s = prod_map (cons (label_key l)) id <$> hits nx s')).
  { revert En. unfold node_hits, own_hit. destruct (key_wild _); [destruct (live l); [intros [= <- <- <-]; eauto|done]|].
    destruct s as [|c s]; [done|]. destruct (key_ok _ _); [|done]. cbn [default head].
    assert (Hb : (if goes_below s nx then prod_map (cons (label_key l)) id <$> hits nx s else []) = (ks, e) :: hs ->
      exists r, ks = label_key l :: r /\ (r = [] \/ exists s', c :: s = c :: s' /\
        (if goes_below s nx then prod_map (cons (label_key l)) id <$> hits nx s else []) = prod_map (cons (label_key l)) id <$> hits nx s')).
    { destruct (goes_below _ _); [|done]. destruct (hits nx s) as [|[r e1] hs1] eqn:Eh; [done|]. cbn. intros [= <- _ _].
      eexists. split; [done|]. right. exists s. by rewrite Eh. }
    destruct (bool_decide _); [destruct (live l); [intros [= <- <- <-]; eauto|exact Hb]|exact Hb]. }
  destruct Hks as (r & -> & Hr). apply elem_of_app in Hin as [Hin|Hin].
  - rewrite <- En in Hin. destruct ks' as [|k' ks'].
    { exfalso. assert (([], e') ∈ hits (TNode l nx al) s) as Hx by (cbn [hits]; fold (node_hits l nx s); apply elem_of_app; by left).
      by apply hits_spec in Hx as [_ []]. }
    apply (node_hits_spec l nx al) in Hin as (-> & Hex & Hacc); [|intros; by apply hits_spec].
    eapply no_worse_same; [apply child_own|]. destruct Hr as [->|(s' & Es & Hn)]; [constructor|].
    rewrite Hn in En. destruct (hits nx s') as [|[r1 e1] hs1] eqn:Eh; [done|]. cbn in En. injection En as -> -> _.
    assert (Hin : (label_key l :: ks', e') ∈ node_hits l nx s).
    { apply (node_hits_spec l nx al); [intros; by apply hits_spec|done]. }
    rewrite Hn in Hin. apply (elem_of_below _ ((r, e) :: hs1)) in Hin as (r' & [= <-] & Hin). rewrite <- Eh in Hin.
    eapply (IHn s'); [done| |exact Hin]. by rewrite Eh.
  - destruct (hits_nonempty_row _ _ _ _ S4 Hin) as (k' & r' & l' & nx' & -> & Hc).
    assert (label_key l <> k') by (intros <-; congruence).
    eapply no_worse_part; [done|apply child_own|by rewrite child_other|]. by apply (child_all_alts _ _ _ _ _ S1 Hc).
Qed.

(** C18: In a sorted trie without caller ids, searching a number in the modes for a
    complete match ends; it finds nothing only if no row with an extension accepts the
    number, and otherwise an extension whose row accepts it and is, where it parts with
    any other such row, the more specific one. *)
Theorem new_find_extension_best con t s callerid label action : holds con t -> complete action -> sorted_trie t ->
  all_labels bang_ok t -> all_labels no_slash t -> s <> [] -> number s ->
  exists score, search_trie con s callerid label action = Ret score /\
    match sb_exten score with
    | None => forall ks, exten_at t ks <> None -> ~ accepts t ks s
    | Some e => exists ks, exten_at t ks = Some e /\ accepts t ks s /\
        forall ks', exten_at t ks' <> None -> accepts t ks' s -> no_worse t ks ks'
    end.
Proof.
  intros Hh Hact Hs Hb Hsl Hne Hn. destruct (find_first (S (size (nodes con))) con s empty_scoreboard (pattern_tree con) t (dom (nodes con)) 0 0
    callerid label action) as (score & E & Hf); [exact Hh|rewrite size_dom; lia|done..|by left|done|done|].
  exists score. split; [exact E|]. rewrite Hf. destruct (hits t s) as [|[ks e] hs] eqn:Eh; cbn.
  - intros ks Hex Hacc. destruct (exten_at t ks) as [e|] eqn:Ee; [|done].
    assert ((ks, e) ∈ hits t s) as Hin by (by apply hits_spec). rewrite Eh in Hin. by apply elem_of_nil in Hin.
  - assert (Hin : (ks, e) ∈ hits t s) by (rewrite Eh; by left). apply hits_spec in Hin as [H1 H2]; [|done].
    exists ks. split_and!; [done..|]. intros ks' Hex Hacc. destruct (exten_at t ks') as [e'|] eqn:Ee; [|done].
    eapply (hits_best t s ks e); [done|by rewrite Eh|]. by apply hits_spec.
Qed.

Lemma new_find_extension_best_witness : exists con score,
  create_match_char_tree fresh_calloc empty_context [ex_number; ex_pattern] = Ret con /\
  search_trie con (zs "123") None [] E_SPAWN = Ret score /\
  match sb_exten score with
  | None => forall ks, exten_at (trie_of [ex_number; ex_pattern]) ks <> None -> ~ accepts (trie_of [ex_number; ex_pattern]) ks (zs "123")
  | Some e => exists ks, exten_at (trie_of [ex_number; ex_pattern]) ks = Some e /\ accepts (trie_of [ex_number; ex_pattern]) ks (zs "123") /\
      forall ks', exten_at (trie_of [ex_number; ex_pattern]) ks' <> None -> accepts (trie_of [ex_number; ex_pattern]) ks' (zs "123") ->
        no_worse (trie_of [ex_number; ex_pattern]) ks ks'
  end.
Proof.
  destruct ex_context as (con & E & Hh).
  destruct (new_find_extension_best con _ (zs "123") None [] E_SPAWN Hh) as (score & H).
  - right. reflexivity.
  - apply sorted_trie_of.
  - vm_compute. repeat split; intros; discriminate || tauto.
  - vm_compute. repeat split; discriminate.
  - discriminate.
  - repeat constructor; discriminate.
  - exists con, score. split; [exact E|exact H].
Defined.
