(* ===== verification/TrieMatch.v ===== *)
(** * The trie and the matching of extensions agree ([main/pbx.c])

    The dialplan has two ways to find the extension for a number: matching it against
    the extensions one after the other, and the trie.  This file shows that for
    extensions without caller ids made of characters, [N], [X], [Z], sets of dialled
    characters and a final dot, both find something for the same numbers; and it has the
    inputs outside of this class on which they do not agree. *)

From S2P Require Import Extension PatternNode Trie TrieFind Prelude.
From Stdlib Require Import ZArith Lia.
From stdpp Require Import base list gmap numbers sets strings.

#[local] Open Scope Z_scope.
#[local] Open Scope outcome_scope.

(** ** Rows that accept numbers, without the trie *)

Fixpoint row_accepts (ks : list key) (s : str) : Prop :=
  match ks with
  | [] => False
  | k :: ks =>
      if key_wild k then ks = []
      else
        match s with
        | [] => False
        | c :: s => key_ok k c = true /\ match ks with [] => s = [] | _ => s <> [] /\ row_accepts ks s end
        end
  end.

(** Nodes that are none of the special ones. *)
Definition fine (l : Trie.label) : Prop :=
  deref (l_x l) <> c_bang /\ deref (l_x l) <> c_slash /\ l_spec l < 0x28000.

#[export] Instance fine_shape : Shape fine.
Proof. intros l l' E1 E2 E3. unfold fine. by rewrite E2, E3. Qed.

Lemma all_labels_impl (P Q : Trie.label -> Prop) t : (forall l, P l -> Q l) -> all_labels P t -> all_labels Q t.
Proof. intros H. induction t as [|l nx IHn al IHa]; cbn; [done|]. naive_solver. Qed.

Lemma fine_bang l : fine l -> bang_ok l.
Proof. intros (H1 & _ & H3). split; [done|]. lia. Qed.

Lemma accepts_row t ks s : all_labels fine t -> node_lookup t ks <> None -> accepts t ks s <-> row_accepts ks s.
Proof.
  revert t s. induction ks as [|k ks IH]; intros t s Hf Hl; [done|]. cbn [node_lookup accepts row_accepts] in *.
  destruct (child t k) as [[l nx]|] eqn:Hc; [|done]. destruct (all_labels_child _ _ _ _ _ Hf Hc) as [_ Hnx].
  destruct (key_wild k); [done|]. destruct s as [|c s]; [done|]. destruct ks as [|k1 ks]; [done|].
  rewrite (IH nx) by done. unfold goes_below.
  assert (starts_bang nx = false) as ->. { destruct nx as [|l1 nx1 al1]; [done|]. destruct Hnx as ((H1 & _) & _). by apply Z.eqb_neq. }
  rewrite orb_false_r. case_bool_decide; naive_solver.
Qed.

(** ** Literal extensions *)

Definition literal_char (c : Z) : Prop := plain_char c /\ c <> c_back /\ c <> c_slash /\ c <> c_bang.

Lemma get_char pat c p : c <> c_dash -> c <> c_back -> pat = false \/ c <> c_open ->
  get_pattern_node (c :: p) pat = Ret (mk_pattern_node 1 [if pat then canonical c else c], p).
Proof.
  intros H1 H2 H3. unfold get_pattern_node. cbn [length next_node].
  assert ((c =? c_open) && pat = false) as ->. { destruct H3 as [->|H3]; [apply andb_false_r|by rewrite (proj2 (Z.eqb_neq _ _) H3)]. }
  by rewrite !(proj2 (Z.eqb_neq _ _)).
Qed.

Lemma row_dash f pat p : (0 < f)%nat -> row f pat (c_dash :: p) = row f pat p.
Proof. destruct f as [|f]; [lia|]. intros _. reflexivity. Qed.

Lemma literal_row f p : Forall literal_char p -> (length p < f)%nat ->
  row f false p = Ret ((fun c => mk_pattern_node 1 [c]) <$> undash p).
Proof.
  intros H. revert f. induction H as [|c p (Hc & Hb & _) _ IH]; intros [|f] Hf; cbn in Hf; try lia; [done|].
  rewrite undash_cons. case_if.
  - subst c. rewrite row_dash by lia. apply IH. lia.
  - cbn [row]. rewrite get_char by auto. cbn [obind buf deref]. destruct Hc as (_ & Hc & _).
    rewrite (proj2 (Z.eqb_neq c 0)) by done. by rewrite IH by lia.
Qed.

Lemma literal_accepts p s : s <> [] -> row_accepts (keys false ((fun c => mk_pattern_node 1 [c]) <$> p)) s <-> s = p.
Proof.
  revert s. induction p as [|c p IH]; intros s Hs; cbn [fmap list_fmap keys row_accepts]; [split; [done|by intros ->]|].
  destruct s as [|d s]; [done|]. cbn [key_wild fst andb key_ok buf]. rewrite bool_decide_eq_true, list_elem_of_singleton.
  destruct p as [|c1 p]; cbn [fmap list_fmap]; [split; [by intros [-> ->]|by intros [= -> ->]]|].
  change ((false, [c1]) :: _) with (keys false ((fun c => mk_pattern_node 1 [c]) <$> (c1 :: p))).
  split.
  - intros (-> & Hne & H). apply IH in H as ->; [done|done].
  - intros [= -> ->]. split_and!; [done|done|]. by apply IH.
Qed.

(** ** Patterns *)

Definition simple_char (c : Z) : Prop := literal_char c /\ c <> c_open /\ c <> c_dash /\ c <> c_dot.

(** Patterns, without the underscore, of characters and classes, sets of at most 255
    dialled characters, ignored dashes, and a dot at the end. *)
Inductive simple_pattern : str -> Prop :=
  | simple_end : simple_pattern []
  | simple_dot : simple_pattern [c_dot]
  | simple_dash p : simple_pattern p -> simple_pattern (c_dash :: p)
  | simple_one c p : simple_char c -> simple_pattern p -> simple_pattern (c :: p)
  | simple_set_ body p : body <> [] -> simple_set body = true -> (length (expansion body) <= 255)%nat -> simple_pattern p ->
      simple_pattern (c_open :: body ++ c_close :: p).

(** A node of the trie and an element of the pattern accept the same. *)
Inductive same_language : list pattern_node -> list elem -> Prop :=
  | same_nil : same_language [] []
  | same_rest n : key_wild (true, buf n) = true -> same_language [n] [Rest]
  | same_chars n f ts es : key_wild (true, buf n) = false -> (forall c, c <> 0 -> key_ok (true, buf n) c = f c) ->
      same_language ts es -> same_language (n :: ts) (Chars f :: es).

Lemma same_accepts ts es s : same_language ts es -> Forall (fun c => c <> 0) s -> s <> [] ->
  row_accepts (keys true ts) s <-> Extension.outcome es s E_MATCH <> 0.
Proof.
  intros H. revert s. induction H as [|n Hw|n f ts es Hw Hok Hts IH]; intros s Hs Hne; (destruct Hs as [|c s Hc Hs]; [done|]).
  - cbn. done.
  - cbn [keys fmap list_fmap row_accepts Extension.outcome]. by rewrite Hw.
  - cbn [keys fmap list_fmap row_accepts Extension.outcome]. fold (keys true ts). rewrite Hw, Hok by done.
    destruct (f c); [|by split; [intros []|done]].
    destruct Hts as [|n1 Hw1|n1 f1 ts es Hw1 Hok1 Hts].
    + cbn. destruct s; naive_solver.
    + destruct s as [|d s]; [cbn; naive_solver|]. rewrite <- IH by done. naive_solver.
    + destruct s as [|d s]; [cbn; naive_solver|]. rewrite <- IH by done. naive_solver.
Qed.

(** The nodes of simple patterns. *)
Definition fine_node (pat : bool) (n : pattern_node) : Prop := fine (new_label pat n).

Lemma fine_char pat c : c <> c_bang -> c <> c_slash -> fine_node pat (mk_pattern_node 1 [c]).
Proof.
  intros H1 H2. split_and!; [done|done|]. unfold new_label, node_specificity. cbn [l_spec specif buf deref].
  rewrite (proj2 (Z.eqb_neq c c_bang)) by done. rewrite andb_false_r.
  repeat match goal with |- context [if ?b then _ else _] => destruct b end; lia.
Qed.

Lemma fine_set b : b <> [] -> (length b <= 255)%nat -> deref b <> c_bang -> deref b <> c_slash ->
  fine_node true (mk_pattern_node (set_specif b) b).
Proof.
  intros Hb Hl H1 H2. split_and!; [done|done|]. unfold new_label, node_specificity. cbn [l_spec specif buf].
  pose proof (set_specif_ge b Hb). pose proof (set_specif_lt b Hl). rewrite (proj2 (Z.eqb_neq (set_specif b) 1)) by lia. cbn [andb]. lia.
Qed.

Lemma simple_char_node c : simple_char c -> fine_node true (mk_pattern_node 1 [canonical c]) /\ key_wild (true, [canonical c]) = false /\
  forall d, key_ok (true, [canonical c]) d =
    (if (c =? 110) || (c =? 78) then Extension.between 50 57
     else if (c =? 120) || (c =? 88) then Extension.between 48 57
     else if (c =? 122) || (c =? 90) then Extension.between 49 57
     else (fun d => d =? c)) d.
Proof.
  intros ((_ & _ & Hsl & Hb) & _ & _ & Hd).
  assert (Hc : canonical c <> c_bang /\ canonical c <> c_slash /\ canonical c <> c_dot). { unfold canonical. repeat case_if; lia. }
  destruct Hc as (Hc1 & Hc2 & Hc3).
  split_and!.
  - by apply fine_char.
  - unfold key_wild, is_char. cbn [fst snd deref]. by rewrite !(proj2 (Z.eqb_neq (canonical c) _)).
  - intros d. unfold key_ok, canonical, Extension.between. cbn [deref tail].
    destruct (Z.eqb_spec c 110) as [->|]; [done|]. destruct (Z.eqb_spec c 120) as [->|]; [done|].
    destruct (Z.eqb_spec c 122) as [->|]; [done|]. destruct (Z.eqb_spec c 78) as [->|]; [done|].
    destruct (Z.eqb_spec c 88) as [->|]; [done|]. destruct (Z.eqb_spec c 90) as [->|]; [done|]. cbn [orb].
    destruct (Z.eqb_spec d c) as [->|]; [by apply bool_decide_true; set_solver|by apply bool_decide_false; set_solver].
Qed.

Lemma expansion_range body c : simple_set body = true -> c ∈ expansion body -> 35 <= c <= 68.
Proof.
  induction body as [| a |a d IH|a b rest IH _|a d b rest Hd IH] using body_ind; intros Hs Hc.
  - by apply elem_of_nil in Hc.
  - cbn in Hs. apply list_elem_of_singleton in Hc as ->. zb. pose proof (dtmf_range a ltac:(done)). lia.
  - cbn in Hs, Hc. zb. pose proof (dtmf_range a ltac:(done)). pose proof (dtmf_range d ltac:(done)). set_unfold. destruct Hc as [->|[->|[]]]; lia.
  - destruct (range_eqs 0 a b rest) as (_ & E2 & E3). rewrite E3 in Hc. rewrite E2 in Hs. zb.
    pose proof (dtmf_range a ltac:(done)). pose proof (dtmf_range b ltac:(done)).
    apply elem_of_cons in Hc as [->|[Hc%elem_of_seqZ|Hc]%elem_of_app]; [lia|lia|auto].
  - destruct (char_eqs 0 a d b rest Hd) as (_ & E2 & E3). rewrite E3 in Hc. rewrite E2 in Hs. zb.
    pose proof (dtmf_range a ltac:(done)). apply elem_of_cons in Hc as [->|Hc]; [lia|auto].
Qed.

(** The least character of a set is a dialled one. *)
Lemma expansion_least body c : simple_set body = true -> c ∈ expansion body ->
  exists a, a ∈ expansion body /\ dtmf a = true /\ a <= c.
Proof.
  induction body as [| a |a d IH|a b rest IH _|a d b rest Hd IH] using body_ind; intros Hs Hc.
  - by apply elem_of_nil in Hc.
  - cbn in Hs, Hc. zb. apply list_elem_of_singleton in Hc as ->. exists a. split_and!; [by left|done|lia].
  - cbn in Hs, Hc. zb. set_unfold. destruct Hc as [->|[->|[]]]; [exists a|exists d]; (split_and!; [set_solver|done|lia]).
  - destruct (range_eqs 0 a b rest) as (_ & E2 & E3). rewrite E3 in *. rewrite E2 in Hs. zb.
    apply elem_of_cons in Hc as [->|[Hc%elem_of_seqZ|Hc]%elem_of_app].
    + exists a. split_and!; [by left|done|lia].
    + exists a. split_and!; [by left|done|lia].
    + destruct IH as (a0 & G1 & G2 & G3); [done|done|]. exists a0. split_and!; [|done..]. right. apply elem_of_app. by right.
  - destruct (char_eqs 0 a d b rest Hd) as (_ & E2 & E3). rewrite E3 in *. rewrite E2 in Hs. zb.
    apply elem_of_cons in Hc as [->|Hc]; [exists a; split_and!; [by left|done|lia]|].
    destruct IH as (a0 & G1 & G2 & G3); [done|done|]. exists a0. split_and!; [by right|done..].
Qed.

Lemma expansion_ne body : body <> [] -> expansion body <> [].
Proof. destruct body as [|a [|d [|b rest]]]; cbn; try done. intros _. by destruct (d =? c_dash). Qed.

(** The node of a set: sorted, of the characters of the set. *)
Lemma set_node body : body <> [] -> simple_set body = true -> (length (expansion body) <= 255)%nat ->
  let b := unique (qsort (expansion body)) in
  b <> [] /\ fine_node true (mk_pattern_node (set_specif b) b) /\ key_wild (true, b) = false /\
  forall c, key_ok (true, b) c = set_match c body.
Proof.
  intros Hne Hs Hlen. set (b := unique (qsort (expansion body))). cbn zeta.
  assert (Hch : chars (expansion body)).
  { apply Forall_forall. intros c Hc%expansion_range; [|done]. unfold in_s. lia. }
  destruct (unique_qsort _ Hch) as (H1 & H2 & H3 & H4). fold b in H1, H2, H3, H4.
  assert (Hb : b <> []) by by apply H4, expansion_ne.
  assert (Hd : dtmf (deref b) = true).
  { destruct b as [|x b'] eqn:Eb; [done|]. cbn [deref]. assert (Hx : x ∈ expansion body) by (apply H2; by left).
    destruct (expansion_least body x Hs Hx) as (a & Ha & Hda & Hax). apply (expansion_range _ _ Hs) in Ha as Hra.
    apply (expansion_range _ _ Hs) in Hx. apply H2 in Ha as [->|Ha]%elem_of_cons; [done|].
    inversion_clear H1 as [|? ? _ Hall]. rewrite Forall_forall in Hall. specialize (Hall a Ha). unfold char_lt in Hall.
    rewrite !(wrapu_id 8) in Hall by (unfold in_u; lia). lia. }
  pose proof (dtmf_range _ Hd) as Hr.
  assert (Hne0 : forall c, dtmf c = false -> deref b <> c) by (intros c Hc E; congruence).
  split_and!; [done| | |].
  - apply fine_set; [done|lia|by apply Hne0..].
  - unfold key_wild, is_char. cbn [fst snd andb]. by rewrite !(proj2 (Z.eqb_neq (deref b) _)) by by apply Hne0.
  - intros c. unfold key_ok. rewrite !(proj2 (Z.eqb_neq (deref b) _)) by lia.
    pose proof (set_match_expansion body c Hs) as Hm. rewrite <- H2 in Hm. destruct (set_match c body); [by apply bool_decide_true, Hm|].
    apply bool_decide_false. intros Hc. by apply Hm in Hc.
Qed.

Lemma split_close_app body p : Forall (fun c => c <> c_close) body -> split_close (body ++ c_close :: p) = Some (body, p).
Proof. induction 1 as [|c body Hc _ IH]; cbn; [done|]. by rewrite (proj2 (Z.eqb_neq _ _)), IH. Qed.

Lemma simple_set_chars body : simple_set body = true -> Forall (fun c => plain_char c /\ c <> c_close) body.
Proof.
  assert (Hd : forall a, dtmf a = true -> plain_char a /\ a <> c_close).
  { intros a Ha%dtmf_range. unfold plain_char, in_s. change (2 ^ (8 - 1)) with 128. lia. }
  induction body as [| a |a d IH|a b rest IH _|a d b rest Hn IH] using body_ind; intros Hs; [constructor| | | |].
  - cbn in Hs. zb. constructor; [by apply Hd|constructor].
  - cbn in Hs. zb. repeat (constructor; [by apply Hd|]). constructor.
  - destruct (range_eqs 0 a b rest) as (_ & E2 & _). rewrite E2 in Hs. zb.
    constructor; [by apply Hd|]. constructor; [unfold plain_char, in_s; change (2 ^ (8 - 1)) with 128; lia|]. constructor; [by apply Hd|auto].
  - destruct (char_eqs 0 a d b rest Hn) as (_ & E2 & _). rewrite E2 in Hs. zb. constructor; [by apply Hd|auto].
Qed.

(** The nodes of a pattern and its elements go together. *)
Lemma pattern_row p : simple_pattern p -> forall f f', (length p < f)%nat -> (length p < f')%nat ->
  exists ts es, row f true p = Ret ts /\ parse f' p = Some es /\ same_language ts es /\ Forall (fine_node true) ts.
Proof.
  induction 1 as [| |p _ IH|c p Hc _ IH|body p Hne Hs Hlen _ IH]; intros [|f] [|f'] Hf Hf'; cbn in Hf, Hf'; try lia.
  - exists [], []. split_and!; [done|done|constructor|constructor].
  - destruct f as [|f]; [lia|]. eexists [_], [Rest]. split_and!; [reflexivity|done|by constructor|].
    apply Forall_singleton. by apply fine_char.
  - rewrite row_dash by lia. destruct (IH (S f) (S f')) as (ts & es & H1 & H2 & H3 & H4); [lia|lia|]. exists ts, es.
    split_and!; [done| |done|done]. rewrite <- H2. reflexivity.
  - destruct (IH f f') as (ts & es & H1 & H2 & H3 & H4); [lia|lia|]. destruct (simple_char_node c Hc) as (K1 & K2 & K3).
    destruct Hc as (((_ & Hc0 & _) & Hb & Hsl & Hbang) & Ho & Hda & Hdo).
    eexists (mk_pattern_node 1 [canonical c] :: ts), (Chars _ :: es). split_and!.
    + cbn [row]. rewrite get_char by auto. cbn [obind buf deref].
      assert (canonical c <> 0) by (unfold canonical; repeat case_if; lia). rewrite (proj2 (Z.eqb_neq (canonical c) 0)) by done. by rewrite H1.
    + cbn [parse skip_dash]. rewrite (proj2 (Z.eqb_neq c c_dash)), (proj2 (Z.eqb_neq c c_slash)), (proj2 (Z.eqb_neq c c_open)),
        (proj2 (Z.eqb_neq c c_dot)), (proj2 (Z.eqb_neq c c_bang)), H2 by done. reflexivity.
    + constructor; [done| |done]. intros d _. apply K3.
    + by constructor.
  - rewrite length_app in Hf, Hf'. cbn in Hf, Hf'.
    destruct (IH f f') as (ts & es & H1 & H2 & H3 & H4); [lia|lia|]. destruct (set_node body Hne Hs Hlen) as (K0 & K1 & K2 & K3).
    set (b := unique (qsort (expansion body))) in *. pose proof (simple_set_chars body Hs) as Hch.
    eexists (mk_pattern_node (set_specif b) b :: ts), (Chars _ :: es). split_and!.
    + cbn [row]. unfold get_pattern_node. cbn [length next_node]. change ((c_open =? c_open) && true) with true. cbn iota.
      rewrite read_simple_set by (try done; rewrite ?length_app; cbn; lia). cbn [obind app].
      assert (expansion body <> []) as Hx by by apply expansion_ne.
      destruct (Z.eqb_spec (Z.of_nat (length (expansion body))) 0) as [E|_]; [destruct (expansion body); [done|cbn in E; lia]|].
      cbn [obind buf]. fold b. assert (deref b <> 0) as Hb0.
      { destruct (expansion body) as [|x l] eqn:Ex; [done|]. destruct b as [|y b'] eqn:Eb; [done|]. cbn [deref].
        assert (y ∈ expansion body) as Hy.
        { destruct (unique_qsort (expansion body)) as (_ & U2 & _).
          - apply Forall_forall. intros c Hc%expansion_range; [|done]. unfold in_s. lia.
          - apply U2. rewrite Ex. fold b. rewrite Eb. by left. }
        apply (expansion_range _ _ Hs) in Hy. lia. }
      rewrite (proj2 (Z.eqb_neq _ _) Hb0). by rewrite H1.
    + cbn [parse skip_dash]. change (c_open =? c_dash) with false. change (c_open =? c_slash) with false. change (c_open =? c_open) with true.
      cbn iota. rewrite split_close_app by (eapply Forall_impl; [exact Hch|]; by intros ? []). rewrite H2. by destruct body.
    + constructor; [done| |done]. intros d _. apply K3.
    + by constructor.
Qed.

(** ** Simple extensions *)

Inductive simple_text : str -> Prop :=
  | simple_literal s : Forall literal_char s -> deref s <> c_under -> simple_text s
  | simple_under p : simple_pattern p -> simple_text (c_under :: p).

Definition simple_exten (e : ast_exten) : Prop :=
  ex_matchcid e = false /\ (length (ex_exten e) <= 511)%nat /\ simple_text (ex_exten e).

(** Numbers one can dial. *)
Definition dialled (s : str) : Prop :=
  s <> [] /\ deref s <> c_under /\ Forall (fun c => c <> 0 /\ c <> c_slash /\ c <> c_dash) s.

Lemma simple_pattern_plain p : simple_pattern p -> plain p.
Proof.
  assert (Hd : forall c, -128 <= c < 128 -> c <> 0 -> c <> -1 -> plain_char c).
  { intros c Hc H0 H1. unfold plain_char, in_s. change (2 ^ (8 - 1)) with 128. lia. }
  induction 1 as [| |p _ IH|c p ((Hc & _) & _) _ IH|body p _ Hs _ _ IH].
  - constructor.
  - apply Forall_singleton. apply Hd; lia.
  - constructor; [apply Hd; lia|done].
  - by constructor.
  - constructor; [apply Hd; lia|]. apply Forall_app. split; [|constructor; [apply Hd; lia|done]].
    eapply Forall_impl; [apply simple_set_chars, Hs|]. by intros c [].
Qed.

Lemma simple_plain e : simple_exten e -> plain_exten e.
Proof.
  intros (Hm & _ & Ht). split; [|by rewrite Hm]. destruct Ht as [s Hs _|p Hp].
  - eapply Forall_impl; [exact Hs|]. by intros c [].
  - constructor; [|by apply simple_pattern_plain]. unfold plain_char, in_s. change (2 ^ (8 - 1)) with 128. lia.
Qed.

Lemma undash_dialled s : dialled s -> undash s = s.
Proof.
  intros (_ & _ & H). induction H as [|c s (_ & _ & Hc) _ IH]; [done|]. rewrite undash_cons, IH. by rewrite (proj2 (Z.eqb_neq _ _)).
Qed.

Lemma dialled_cstr s : dialled s -> cstr s.
Proof. intros (_ & _ & H). eapply Forall_impl; [exact H|]. by intros c []. Qed.

Lemma row_of_simple e pat pos ts : simple_exten e -> pattern_start (ex_exten e) = (pat, pos) -> row (S (length pos)) pat pos = Ret ts ->
  row_of e = Ret (pat, ts).
Proof.
  intros (Hm & Hl & _) Hs Hr. unfold row_of, extenbuf. rewrite Hm, take_ge by done. by rewrite Hs, Hr.
Qed.

Lemma undash_forall (P : Z -> Prop) s : Forall P s -> Forall P (undash s).
Proof. induction 1 as [|c s Hc _ IH]; [constructor|]. rewrite undash_cons. case_if; [done|by constructor]. Qed.

(** What the extension matches is what the row of the extension accepts. *)
Lemma simple_exten_row e : simple_exten e -> exists pat ts, row_of e = Ret (pat, ts) /\ Forall (fine_node pat) ts /\
  forall s, dialled s -> exists r, extension_match_core_ (ex_exten e) s E_MATCH = Some r /\ (r <> 0 <-> row_accepts (keys pat ts) s).
Proof.
  intros He. assert (Ht : simple_text (ex_exten e)) by apply He. inversion Ht as [text Hlit Hu Etext|p Hp Etext].
  - exists false, ((fun c => mk_pattern_node 1 [c]) <$> undash (ex_exten e)). split_and!.
    + apply (row_of_simple _ _ (ex_exten e)); [done| |apply literal_row; [done|lia]].
      unfold pattern_start. by rewrite (proj2 (Z.eqb_neq _ _)).
    + apply Forall_fmap, undash_forall. eapply Forall_impl; [exact Hlit|]. intros c (_ & _ & H1 & H2). cbn. by apply fine_char.
    + intros s Hs. assert (Hc : cstr (ex_exten e)) by (eapply Forall_impl; [exact Hlit|]; by intros c ((_ & ? & _) & _)).
      destruct (literal_match (ex_exten e) s Hc (dialled_cstr s Hs) Hu) as (H1 & _ & _ & H4).
      destruct (H4 E_MATCH) as (r & Hr & H01). exists r. split; [done|]. rewrite literal_accepts by apply Hs.
      rewrite undash_dialled in H1 by done. rewrite <- H1, Hr. destruct H01 as [-> | ->]; split; done.
  - destruct (pattern_row p Hp (S (length p)) (S (length p))) as (ts & es & H1 & H2 & H3 & H4); [lia|lia|].
    exists true, ts. split_and!; [|done|].
    + apply (row_of_simple _ _ p); [done| |done]. by rewrite <- Etext.
    + intros s Hs. destruct (Hs) as (Hne & Hu & Hf). eexists. split.
      * unfold extension_match_core_. cbn [deref tail]. change (Z.land E_MATCH E_MATCH_MASK) with E_MATCH.
        rewrite (proj2 (Z.eqb_neq (deref s) c_under)), andb_false_r by done. reflexivity.
      * rewrite (match_loop_outcome _ _ _ _ es); [|by apply dialled_cstr|by apply chars_cstr, plain_chars, simple_pattern_plain|exact H2].
        rewrite undash_dialled, (same_accepts ts es s H3) by (done || by apply dialled_cstr). done.
Qed.

(** ** Agreement *)

Lemma trie_fine extens : Forall simple_exten extens -> all_labels fine (trie_of extens).
Proof.
  unfold trie_of. induction extens as [|e extens IH] using rev_ind; [done|]. intros [Hes [He _]%Forall_cons]%Forall_app. rewrite foldl_app. cbn.
  unfold with_exten at 1. destruct (simple_exten_row e He) as (pat & ts & -> & Hf & _).
  apply all_labels_grow; [apply _| |by apply IH]. intros tok Htok. rewrite Forall_forall in Hf. by apply Hf.
Qed.

Lemma owner_in extens ks e : owner extens ks = Some e -> e ∈ extens /\ path_of e = ks.
Proof. unfold owner. intros H%last_Some_elem_of. apply list_elem_of_filter in H as [H1 H2]. done. Qed.

Lemma owner_some extens e : e ∈ extens -> exists e', owner extens (path_of e) = Some e'.
Proof.
  intros He. unfold owner. destruct (last _) as [e'|] eqn:E; [by exists e'|]. apply last_None in E.
  assert (e ∈ filter (fun e' => path_of e' = path_of e) extens) as H by (by apply list_elem_of_filter). rewrite E in H. by apply elem_of_nil in H.
Qed.

(** C13: For simple extensions, whatever they are and in whatever order the trie is made
    from them, searching a dialled number in the trie finds an extension of the context
    that matches the number, and finds none only if no extension of the context
    matches. *)
Theorem trie_agrees (ast_calloc : gmap positive match_char -> option positive) extens s callerid label action :
  (forall m a, ast_calloc m = Some a -> m !! a = None) -> (forall m, ast_calloc m <> None) ->
  Forall simple_exten extens -> dialled s -> complete action ->
  exists con score, create_match_char_tree ast_calloc empty_context extens = Ret con /\
    search_trie con s callerid label action = Ret score /\
    match sb_exten score with
    | None => forall e, e ∈ extens -> extension_match_core_ (ex_exten e) s E_MATCH = Some 0
    | Some e => e ∈ extens /\ exists r, extension_match_core_ (ex_exten e) s E_MATCH = Some r /\ r <> 0
    end.
Proof.
  intros Hfresh Hsome Hes Hs Hact.
  destruct (create_ok ast_calloc Hfresh Hsome empty_context TLeaf extens holds_empty) as (con & E & Hh).
  { eapply Forall_impl; [exact Hes|]. apply simple_plain. }
  pose proof (trie_fine extens Hes) as Hf. pose proof (sorted_trie_of extens) as Hsort.
  assert (Hnum : number s). { destruct Hs as (_ & _ & Hs). eapply Forall_impl; [exact Hs|]. by intros c (H1 & H2 & _). }
  destruct (find_first (S (size (nodes con))) con s empty_scoreboard (pattern_tree con) (trie_of extens) (dom (nodes con)) 0 0
    callerid label action) as (score & Escore & Hfound);
    [exact Hh|rewrite size_dom; lia|done|done|eapply all_labels_impl; [apply fine_bang|done]
    |eapply all_labels_impl; [|exact Hf]; by intros l (_ & H & _)|left; apply Hs|done|done|].
  exists con, score. split_and!; [done|exact Escore|].
  assert (Hrow : forall ks e, (ks, e) ∈ hits (trie_of extens) s <-> owner extens ks = Some e /\ row_accepts ks s).
  { intros ks e. rewrite hits_spec by done. destruct (decide (ks = [])) as [->|Hks].
    - split; [by intros [_ []]|by intros [_ []]].
    - split.
      + intros [H1 H2]. split; [by rewrite <- exten_at_trie|]. apply (accepts_row (trie_of extens)); [done| |done].
        unfold exten_at in H1. by destruct (node_lookup _ _).
      + intros [H1 H2]. rewrite <- exten_at_trie in H1 by done. split; [done|]. apply accepts_row; [done| |done].
        unfold exten_at in H1. by destruct (node_lookup _ _). }
  assert (Hmatch : forall e, e ∈ extens -> exists r, extension_match_core_ (ex_exten e) s E_MATCH = Some r /\ (r <> 0 <-> row_accepts (path_of e) s)).
  { intros e He. rewrite Forall_forall in Hes. destruct (simple_exten_row e (Hes e He)) as (pat & ts & Hr & _ & H).
    unfold path_of. rewrite Hr. by apply H. }
  unfold found in Hfound. destruct (hits (trie_of extens) s) as [|[ks e] hs] eqn:Eh; cbn in Hfound; rewrite Hfound.
  - intros e He. destruct (Hmatch e He) as (r & Hr & Hr0). rewrite Hr. f_equal.
    destruct (Z.eq_dec r 0) as [->|Hne]; [done|]. apply Hr0 in Hne. destruct (owner_some extens e He) as (e' & He').
    assert (H : (path_of e, e') ∈ []) by (apply Hrow; done). by apply elem_of_nil in H.
  - assert (H : (ks, e) ∈ (ks, e) :: hs) by by left. apply Hrow in H as [H1 H2]. apply owner_in in H1 as [H1 <-].
    split; [done|]. destruct (Hmatch e H1) as (r & Hr & Hr0). exists r. split; [done|]. by apply Hr0.
Qed.

(** The extensions [12], [_[2-46]X-N] and [_9.]. *)
Definition ex_simple : list ast_exten :=
  [mk_exten (zs "12") false [] [] []; mk_exten (zs "_[2-46]X-N") false [] [] []; mk_exten (zs "_9.") false [] [] []].

Lemma ex_simple_simple : Forall simple_exten ex_simple.
Proof.
  assert (Hl : forall c, 48 <= c < 91 -> literal_char c). { intros c Hc. unfold literal_char, plain_char, in_s. change (2 ^ (8 - 1)) with 128. lia. }
  assert (Hs : forall c, 48 <= c < 91 -> simple_char c). { intros c Hc. split; [by apply Hl|lia]. }
  constructor; [|constructor; [|constructor; [|constructor]]]; (split_and!; [done|cbn; lia|]).
  - apply simple_literal; [|done]. change (ex_exten _) with [49; 50]. repeat (constructor; [apply Hl; lia|]). constructor.
  - apply simple_under. apply (simple_set_ (zs "2-46") [88; 45; 78]); [done|done|vm_compute; lia|].
    apply simple_one; [apply Hs; lia|]. apply simple_dash. apply simple_one; [apply Hs; lia|]. constructor.
  - apply (simple_under [57; 46]). apply simple_one; [apply Hs; lia|]. constructor.
Qed.

Lemma trie_agrees_witness : exists con score, create_match_char_tree fresh_calloc empty_context ex_simple = Ret con /\
  search_trie con (zs "605") None [] E_MATCH = Ret score /\
  match sb_exten score with
  | None => forall e, e ∈ ex_simple -> extension_match_core_ (ex_exten e) (zs "605") E_MATCH = Some 0
  | Some e => e ∈ ex_simple /\ exists r, extension_match_core_ (ex_exten e) (zs "605") E_MATCH = Some r /\ r <> 0
  end.
Proof.
  apply (trie_agrees fresh_calloc ex_simple (zs "605") None [] E_MATCH).
  - apply fresh_calloc_fresh.
  - discriminate.
  - apply ex_simple_simple.
  - split_and!; [discriminate|vm_compute; discriminate|]. repeat constructor; discriminate.
  - left. reflexivity.
Defined.

(** ** Where they do not agree *)

(** The extension the trie finds, in the mode for complete matches. *)
Definition find_number (extens : list ast_exten) (s : str) (callerid : option str) : outcome (option str) :=
  let* con := create_match_char_tree fresh_calloc empty_context extens in
  let* score := search_trie con s callerid [] E_MATCH in Ret (ex_exten <$> sb_exten score).

Definition exten_of (text : str) : ast_exten := mk_exten text false [] [] [].

Definition exten_cid (text cid : str) : ast_exten := mk_exten text true cid [] [].

(** A set of several characters whose first is one of the letters [N], [X] and [Z] accepts
    no character in the trie. *)
Theorem set_of_letters_dead x c : deref x = 78 \/ deref x = 88 \/ deref x = 90 -> deref (tail x) <> 0 -> key_ok (true, x) c = false.
Proof. intros H Ht. unfold key_ok. rewrite (proj2 (Z.eqb_neq _ 0)) by done. by destruct H as [-> | [-> | ->]]. Qed.

Lemma set_of_letters_dead_witness : key_ok (true, zs "XYZ") 88 = false.
Proof. apply set_of_letters_dead; [right; left; reflexivity|vm_compute; discriminate]. Defined.

(** Six ways in which the trie does not find what matching finds: a set that starts
    with a class letter matches nothing, a set of one such letter or of a dot is the
    class or the wildcard; an exclamation mark only counts if it is the sole
    alternative; which of a literal and a pattern is found depends on the order in which
    they were added; and a literal extension with a caller id is never found, with an
    empty caller id for every caller. *)
Theorem trie_disagrees :
  (extension_match_core_ (zs "_[XY]1") (zs "X1") E_MATCH = Some 1 /\ find_number [exten_of (zs "_[XY]1")] (zs "X1") None = Ret None) /\
  (extension_match_core_ (zs "_[N]") (zs "5") E_MATCH = Some 0 /\ find_number [exten_of (zs "_[N]")] (zs "5") None = Ret (Some (zs "_[N]"))) /\
  (extension_match_core_ (zs "_[.]") (zs "55") E_MATCH = Some 0 /\ find_number [exten_of (zs "_[.]")] (zs "55") None = Ret (Some (zs "_[.]"))) /\
  (extension_match_core_ (zs "_1!") (zs "1") E_MATCH = Some 2 /\ find_number [exten_of (zs "_1!"); exten_of (zs "_12")] (zs "1") None = Ret None) /\
  (find_number [exten_of (zs "12"); exten_of (zs "_1X")] (zs "12") None = Ret (Some (zs "12")) /\
   find_number [exten_of (zs "_1X"); exten_of (zs "12")] (zs "12") None = Ret (Some (zs "_1X")) /\
   ext_cmp (zs "12") (zs "_1X") = Some (-1)) /\
  (find_number [exten_cid (zs "100") (zs "555")] (zs "100") (Some (zs "555")) = Ret None /\
   find_number [exten_cid (zs "100") []] (zs "100") (Some (zs "555")) = Ret (Some (zs "100")) /\
   matchcid (Some []) (Some (zs "555")) = Some 0).
Proof. vm_compute. by split_and!. Qed.

(** A literal extension with an exclamation mark makes the search read past the end of
    the number. *)
Theorem literal_bang_overread : find_number [exten_of (zs "a!")] (zs "a") None = BadAccess.
Proof. vm_compute. reflexivity. Qed.
