(* ===== verification/Event.v ===== *)
(** * Events and their information elements ([main/event.c])

    Parts of the exchange tell each other what happens with events: blocks of bytes, a
    header with type and length and then information elements, each a type, a length and
    a payload.  This file models how events are built and read, byte by byte.

    An event is the list of the bytes of its block; a read outside is a bad access.  A
    pointer into the block is an offset.  The host is taken to be little endian, which
    only shows in the hash that is stored with strings.  Strings are lists of signed
    characters, as in Extension.v; [alloc_ok] says for which sizes memory is there. *)

From S2P Require Import Prelude.
From Stdlib Require Import ZArith Lia.
From stdpp Require Import base list numbers strings.

#[local] Open Scope Z_scope.
#[local] Open Scope outcome_scope.

Abbreviation AST_EVENT_ALL := 0.
Abbreviation AST_EVENT_MWI := 2.
Abbreviation AST_EVENT_SUB := 3.
Abbreviation AST_EVENT_UNSUB := 4.
Abbreviation AST_EVENT_DEVICE_STATE := 5.
Abbreviation AST_EVENT_DEVICE_STATE_CHANGE := 6.
Abbreviation AST_EVENT_TOTAL := 10.

Abbreviation AST_EVENT_IE_MAILBOX := 3.
Abbreviation AST_EVENT_IE_UNIQUEID := 4.
Abbreviation AST_EVENT_IE_EVENTTYPE := 5.
Abbreviation AST_EVENT_IE_EXISTS := 6.
Abbreviation AST_EVENT_IE_DEVICE := 7.
Abbreviation AST_EVENT_IE_CONTEXT := 9.
Abbreviation AST_EVENT_IE_DESCRIPTION := 32.
Abbreviation AST_EVENT_IE_EID := 33.
Abbreviation AST_EVENT_IE_TOTAL := 54.

(** ** Numbers in memory *)

(** [htons], [htonl] and a number in host order. *)
Definition be16 (v : Z) : list Z := [u8 (Z.shiftr v 8); u8 v].
Definition be32 (v : Z) : list Z := [u8 (Z.shiftr v 24); u8 (Z.shiftr v 16); u8 (Z.shiftr v 8); u8 v].
Definition le32 (v : Z) : list Z := rev (be32 v).

Fixpoint read_be (n : nat) (ev : list Z) (off : nat) (acc : Z) : outcome Z :=
  match n with
  | O => Ret acc
  | S n => let* b := oaccess (ev !! off) in read_be n ev (S off) (acc * 256 + b)
  end.

Definition get16 (ev : list Z) (off : nat) : outcome Z := read_be 2 ev off 0.
Definition get32 (ev : list Z) (off : nat) : outcome Z := read_be 4 ev off 0.

Fixpoint read_le (n : nat) (ev : list Z) (off : nat) : outcome Z :=
  match n with
  | O => Ret 0
  | S n => let* b := oaccess (ev !! off) in let* r := read_le n ev (S off) in Ret (b + 256 * r)
  end.

(** The C string at an offset. *)
Fixpoint string_in (s : list Z) : outcome str :=
  match s with
  | [] => BadAccess
  | b :: s => if b =? 0 then Ret [] else let* r := string_in s in Ret (s8 b :: r)
  end.

Definition string_at (ev : list Z) (off : nat) : outcome str := string_in (drop off ev).

(** [memcpy] of [n] bytes from an offset. *)
Definition bytes_at (ev : list Z) (off n : nat) : outcome (list Z) :=
  if (off + n <=? length ev)%nat then Ret (take n (drop off ev)) else BadAccess.

(** ** Strings *)

Definition str_hash_step (h c : Z) : Z := s32 (Z.lxor (s32 (h * 33)) c).

(** [abs] of an [int]. *)
Definition abs32 (h : Z) : Z := s32 (Z.abs h).

Definition ast_str_hash_add (s : str) (h : Z) : Z := abs32 (foldl str_hash_step h s).
Definition ast_str_hash (s : str) : Z := ast_str_hash_add s 5381.

Definition toupper (c : Z) : Z := if (97 <=? c) && (c <=? 122) then c - 32 else c.

Fixpoint upper_to_slash (s : str) : str :=
  match s with
  | [] => []
  | c :: rest => if c =? 47 then s else toupper c :: upper_to_slash rest
  end.

(** The technology of a device name in upper case. *)
Definition ast_tech_to_upper (s : str) : str := if existsb (Z.eqb 47) s then upper_to_slash s else s.

(** The name whose hash is kept for an element. *)
Definition hashed (ie_type : Z) (s : str) : str := if ie_type =? AST_EVENT_IE_DEVICE then ast_tech_to_upper s else s.

(** ** Reading events *)

Definition ast_event_get_size (ev : list Z) : outcome Z := get16 ev 2.
Definition ast_event_get_type (ev : list Z) : outcome Z := get16 ev 0.

Record ast_event_iterator := mk_iterator { it_event_len : Z; it_event : list Z; it_ie : nat }.

(** [sizeof(struct ast_event)] and [sizeof(struct ast_event_ie)] are 4. *)
Definition ast_event_iterator_init (ev : list Z) : outcome (Z * ast_event_iterator) :=
  let* len := ast_event_get_size ev in
  if len >=? 4 + 4 then Ret (0, mk_iterator len ev 4) else Ret (-1, mk_iterator len ev 0).

Definition ast_event_iterator_next (it : ast_event_iterator) : outcome (Z * ast_event_iterator) :=
  let* len := get16 (it_event it) (it_ie it + 2) in
  let ie := (it_ie it + 4 + Z.to_nat len)%nat in
  Ret (if it_event_len it <=? Z.of_nat ie then -1 else 0, mk_iterator (it_event_len it) (it_event it) ie).

Definition ast_event_iterator_get_ie_type (it : ast_event_iterator) : outcome Z := get16 (it_event it) (it_ie it).
Definition ast_event_iterator_get_ie_uint (it : ast_event_iterator) : outcome Z := get32 (it_event it) (it_ie it + 4).
Definition ast_event_iterator_get_ie_bitflags (it : ast_event_iterator) : outcome Z := get32 (it_event it) (it_ie it + 4).
Definition ast_event_iterator_get_ie_str (it : ast_event_iterator) : outcome str := string_at (it_event it) (it_ie it + 4 + 4).
Definition ast_event_iterator_get_ie_raw (it : ast_event_iterator) : nat := (it_ie it + 4)%nat.
Definition ast_event_iterator_get_ie_raw_payload_len (it : ast_event_iterator) : outcome Z := get16 (it_event it) (it_ie it + 2).

(** The loops of [ast_event_get_ie_raw] and [ast_event_get_ie_raw_payload_len]: the
    iterator at the first element of the type. Every round moves forward by at least
    four bytes. *)
Fixpoint find_loop (fuel : nat) (res : Z) (it : ast_event_iterator) (ie_type : Z) : outcome (option ast_event_iterator) :=
  match fuel with
  | O => NoFuel
  | S fuel =>
      if negb (res =? 0) then Ret None
      else
        let* t := ast_event_iterator_get_ie_type it in
        if t =? ie_type then Ret (Some it)
        else let* (res, it) := ast_event_iterator_next it in find_loop fuel res it ie_type
  end.

Definition find_ie (ev : list Z) (ie_type : Z) : outcome (option ast_event_iterator) :=
  let* (res, it) := ast_event_iterator_init ev in
  find_loop (S (Z.to_nat (it_event_len it))) res it ie_type.

Definition ast_event_get_ie_raw (ev : list Z) (ie_type : Z) : outcome (option nat) :=
  let* r := find_ie ev ie_type in
  match r with Some it => Ret (Some (ast_event_iterator_get_ie_raw it)) | None => Ret None end.

Definition ast_event_get_ie_raw_payload_len (ev : list Z) (ie_type : Z) : outcome Z :=
  let* r := find_ie ev ie_type in
  match r with Some it => ast_event_iterator_get_ie_raw_payload_len it | None => Ret 0 end.

Definition ast_event_get_ie_uint (ev : list Z) (ie_type : Z) : outcome Z :=
  let* r := ast_event_get_ie_raw ev ie_type in
  match r with Some off => get32 ev off | None => Ret 0 end.

Definition ast_event_get_ie_bitflags (ev : list Z) (ie_type : Z) : outcome Z :=
  let* r := ast_event_get_ie_raw ev ie_type in
  match r with Some off => get32 ev off | None => Ret 0 end.

Definition ast_event_get_ie_str_hash (ev : list Z) (ie_type : Z) : outcome Z :=
  let* r := ast_event_get_ie_raw ev ie_type in
  match r with Some off => read_le 4 ev off | None => Ret 0 end.

Definition ast_event_get_ie_str (ev : list Z) (ie_type : Z) : outcome (option str) :=
  let* r := ast_event_get_ie_raw ev ie_type in
  match r with Some off => let* s := string_at ev (off + 4) in Ret (Some s) | None => Ret None end.

(** ** Building events *)

(** What [realloc] leaves of a block of which [n] bytes are in use; what was never
    written is taken to be 0. *)
Definition in_use (ev : list Z) (n : nat) : list Z := take n ev ++ replicate (n - length ev) 0.

Definition set_len (ev : list Z) (len : Z) : list Z := <[3%nat := u8 len]> (<[2%nat := u8 (Z.shiftr len 8)]> ev).

Inductive ie_value :=
  | Uint (v : Z)
  | Bitflags (v : Z)
  | Str (s : str)
  | Raw (data : list Z)
  | Exists
  | Unknown.

#[export] Instance ie_value_eq_dec : EqDecision ie_value.
Proof. solve_decision. Defined.

Section Allocator.
Context (alloc_ok : Z -> bool) (ast_eid_default : list Z).

(** The event ([None] for [NULL]) and the result. *)
Definition ast_event_append_ie_raw (ev : list Z) (ie_type : Z) (data : list Z) : outcome (option (list Z) * Z) :=
  let* event_len := ast_event_get_size ev in
  let extra_len := u32 (4 + Z.of_nat (length data)) in
  let size := u32 (event_len + extra_len) in
  if alloc_ok size then
    if size <? event_len + 4 + Z.of_nat (length data) then BadAccess
    else
      let ev := in_use ev (Z.to_nat event_len) ++ be16 ie_type ++ be16 (Z.of_nat (length data)) ++ data in
      Ret (Some (set_len ev size), 0)
  else Ret (None, -1).

(** The payload of a string: the hash, and the string with its final NUL. *)
Definition str_payload (ie_type : Z) (s : str) : list Z := le32 (ast_str_hash (hashed ie_type s)) ++ (u8 <$> s) ++ [0].

Definition ast_event_append_ie_str (ev : list Z) (ie_type : Z) (s : str) : outcome (option (list Z) * Z) :=
  ast_event_append_ie_raw ev ie_type (str_payload ie_type s).

Definition ast_event_append_ie_uint (ev : list Z) (ie_type data : Z) : outcome (option (list Z) * Z) :=
  ast_event_append_ie_raw ev ie_type (be32 data).

Definition ast_event_append_ie_bitflags (ev : list Z) (ie_type flags : Z) : outcome (option (list Z) * Z) :=
  ast_event_append_ie_raw ev ie_type (be32 flags).

Definition ast_event_append_eid (ev : list Z) : outcome (option (list Z) * Z) :=
  ast_event_append_ie_raw ev AST_EVENT_IE_EID ast_eid_default.

(** The values that [ast_event_new] puts into the event. *)
Definition insert (value : ie_value) : bool := match value with Exists | Unknown => false | _ => true end.

Definition append_value (ev : list Z) (ie : Z * ie_value) : outcome (option (list Z) * Z) :=
  let '(ie_type, value) := ie in
  match value with
  | Uint v => ast_event_append_ie_uint ev ie_type v
  | Bitflags v => ast_event_append_ie_bitflags ev ie_type v
  | Str s => ast_event_append_ie_str ev ie_type s
  | Raw d => ast_event_append_ie_raw ev ie_type d
  | Exists | Unknown => Ret (Some ev, 0)
  end.

(** The loop over the values; [None] when memory ran out. *)
Fixpoint append_values (ev : list Z) (ies : list (Z * ie_value)) : outcome (option (list Z)) :=
  match ies with
  | [] => Ret (Some ev)
  | ie :: ies =>
      let* (r, _) := append_value ev ie in
      match r with Some ev => append_values ev ies | None => Ret None end
  end.

Definition ast_event_new (type : Z) (args : list (Z * ie_value)) : outcome (option (list Z)) :=
  if type >=? AST_EVENT_TOTAL then Ret None
  else
    let ies := List.filter (fun ie => insert (snd ie)) args in
    if alloc_ok 4 then
      let* r := append_values (be16 type ++ be16 4) ies in
      match r with
      | None => Ret None
      | Some ev =>
          let* eid := ast_event_get_ie_raw ev AST_EVENT_IE_EID in
          match ies, eid with
          | _ :: _, None => let* (r, _) := ast_event_append_eid ev in Ret r
          | _, _ => Ret (Some ev)
          end
      end
    else Ret None.

Definition ast_event_dup (ev : list Z) : outcome (option (list Z)) :=
  let* event_len := ast_event_get_size ev in
  if alloc_ok event_len then let* d := bytes_at ev 0 (Z.to_nat event_len) in Ret (Some d) else Ret None.
End Allocator.

(** ** What a block of bytes holds *)

(** The bytes [d] are in the block at [off]. *)
Definition holds (ev : list Z) (off : nat) (d : list Z) : Prop :=
  exists pre post, ev = pre ++ d ++ post /\ length pre = off.

Lemma holds_app ev off d1 d2 : holds ev off (d1 ++ d2) -> holds ev off d1 /\ holds ev (off + length d1) d2.
Proof.
  intros (pre & post & -> & <-). split.
  - exists pre, (d2 ++ post). by rewrite <- app_assoc.
  - exists (pre ++ d1), post. by rewrite length_app, !app_assoc.
Qed.

Lemma holds_all ev : holds ev 0 ev.
Proof. exists [], []. by rewrite app_nil_r. Qed.

Lemma holds_length ev off d : holds ev off d -> (off + length d <= length ev)%nat.
Proof. intros (pre & post & -> & <-). rewrite !length_app. lia. Qed.

Lemma holds_lookup ev off b d : holds ev off (b :: d) -> ev !! off = Some b /\ holds ev (S off) d.
Proof.
  intros (pre & post & -> & <-). split; [by apply list_lookup_middle|].
  exists (pre ++ [b]), post. rewrite length_app, <- app_assoc. split; [done|cbn; lia].
Qed.

Lemma holds_bytes ev off d : holds ev off d -> bytes_at ev off (length d) = Ret d.
Proof.
  intros H. unfold bytes_at. pose proof (holds_length _ _ _ H). destruct (Nat.leb_spec (off + length d) (length ev)); [|lia].
  destruct H as (pre & post & -> & <-). by rewrite drop_app_length, take_app_length.
Qed.

Lemma read_be_holds n ev off d acc :
  holds ev off d -> length d = n -> read_be n ev off acc = Ret (foldl (fun a b => a * 256 + b) acc d).
Proof.
  revert off d acc. induction n as [|n IH]; intros off [|b d] acc H Hl; try done. cbn.
  destruct (holds_lookup _ _ _ _ H) as [-> H']. cbn. apply IH; [done|]. cbn in Hl. lia.
Qed.

Lemma mod_mul a b : 0 < b -> a mod (256 * b) = a mod 256 + 256 * ((a / 256) mod b).
Proof. intros Hb. by rewrite Z.rem_mul_r. Qed.

Lemma be16_u16 v : foldl (fun a b => a * 256 + b) 0 (be16 v) = u16 v.
Proof.
  cbn -[Z.mul]. unfold wrapu. rewrite shiftr_div by lia. change (2 ^ 16) with (256 * 256). change (2 ^ 8) with 256.
  rewrite mod_mul by lia. lia.
Qed.

Lemma be32_u32 v : foldl (fun a b => a * 256 + b) 0 (be32 v) = u32 v.
Proof.
  cbn -[Z.mul]. unfold wrapu. rewrite !shiftr_div by lia.
  change (2 ^ 24) with (256 * (256 * 256)). change (2 ^ 16) with (256 * 256). change (2 ^ 8) with 256.
  change (2 ^ 32) with (256 * (256 * (256 * 256))). rewrite !mod_mul by lia. rewrite <- !Z.div_div by lia. lia.
Qed.

Lemma get16_holds ev off v : holds ev off (be16 v) -> get16 ev off = Ret (u16 v).
Proof. intros H. unfold get16. rewrite (read_be_holds 2 _ _ (be16 v)) by done. by rewrite be16_u16. Qed.

Lemma get32_holds ev off v : holds ev off (be32 v) -> get32 ev off = Ret (u32 v).
Proof. intros H. unfold get32. rewrite (read_be_holds 4 _ _ (be32 v)) by done. by rewrite be32_u32. Qed.

Lemma read_le32 ev off v : holds ev off (le32 v) -> read_le 4 ev off = Ret (u32 v).
Proof.
  intros H. rewrite <- be32_u32. unfold le32, be32 in *. cbn in H |- *.
  repeat (destruct (holds_lookup _ _ _ _ H) as [-> H']; clear H; rename H' into H; cbn). f_equal. lia.
Qed.

Lemma char_byte_s8 c : in_s 8 c -> s8 (u8 c) = c /\ (u8 c = 0 <-> c = 0).
Proof.
  unfold in_s, wraps, wrapu. change (2 ^ (8 - 1)) with 128. change (2 ^ 8) with 256. intros H.
  destruct (Z.lt_ge_cases c 0).
  - rewrite <- (Z_mod_plus_full c 1 256), (Z.mod_small (c + _)) by lia. split; [|lia].
    rewrite <- (Z_mod_plus_full _ (-1) 256), Z.mod_small by lia. lia.
  - rewrite (Z.mod_small c) by lia. split; [|lia]. rewrite Z.mod_small by lia. lia.
Qed.

(** The characters of a C string. *)
Definition chars (s : str) : Prop := Forall (fun c => in_s 8 c /\ c <> 0) s.

Lemma string_at_holds ev off s : holds ev off ((u8 <$> s) ++ [0]) -> chars s -> string_at ev off = Ret s.
Proof.
  intros (pre & post & -> & <-) Hs. unfold string_at. rewrite drop_app_length, <- app_assoc.
  induction Hs as [|c s [Hc H0] _ IH]; [done|]. destruct (char_byte_s8 c Hc) as [E1 E2]. cbn [fmap list_fmap app string_in].
  destruct (Z.eqb_spec (u8 c) 0); [tauto|]. cbn in IH |- *. by rewrite IH, E1.
Qed.

(** ** The bytes of an event *)

Definition ie_bytes (ie : Z * list Z) : list Z := be16 (fst ie) ++ be16 (Z.of_nat (length (snd ie))) ++ snd ie.

Definition body (ies : list (Z * list Z)) : list Z := mjoin (ie_bytes <$> ies).

Definition encode (type : Z) (ies : list (Z * list Z)) : list Z :=
  be16 type ++ be16 (4 + Z.of_nat (length (body ies))) ++ body ies.

(** The payload of the first element of a type. *)
Fixpoint first_ie {A} (t : Z) (ies : list (Z * A)) : option A :=
  match ies with [] => None | (t', d) :: ies => if t' =? t then Some d else first_ie t ies end.

(** An event whose length fits, with types that fit. *)
Definition fits (ies : list (Z * list Z)) : Prop :=
  Forall (fun ie => in_u 16 (fst ie)) ies /\ 4 + Z.of_nat (length (body ies)) < 2 ^ 16.

Lemma length_ie_bytes ie : length (ie_bytes ie) = (4 + length (snd ie))%nat.
Proof. done. Qed.

Lemma body_cons ie ies : body (ie :: ies) = ie_bytes ie ++ body ies.
Proof. done. Qed.

Lemma body_app ies ies' : body (ies ++ ies') = body ies ++ body ies'.
Proof. unfold body. by rewrite fmap_app, join_app. Qed.

Lemma first_ie_app {A} t (ies ies' : list (Z * A)) :
  first_ie t (ies ++ ies') = match first_ie t ies with Some d => Some d | None => first_ie t ies' end.
Proof. induction ies as [|[t' d] ies IH]; [done|]. cbn. by destruct (t' =? t). Qed.

(** A round of the search. *)
Lemma find_loop_step t fuel len ev ie t' d :
  in_u 16 t' -> in_u 16 (Z.of_nat (length d)) -> holds ev ie (ie_bytes (t', d)) ->
  find_loop (S fuel) 0 (mk_iterator len ev ie) t =
    if t' =? t then Ret (Some (mk_iterator len ev ie))
    else find_loop fuel (if len <=? Z.of_nat (ie + length (ie_bytes (t', d))) then -1 else 0)
           (mk_iterator len ev (ie + length (ie_bytes (t', d)))) t.
Proof.
  intros Ht Hd Hie. apply holds_app in Hie as [Htype Hd']. apply holds_app in Hd' as [Hlen _]. cbn in Htype, Hlen.
  cbn [find_loop]. change (negb (0 =? 0)) with false. unfold ast_event_iterator_get_ie_type, ast_event_iterator_next. cbn -[Z.eqb Z.add length get16 ie_bytes].
  rewrite (get16_holds _ _ _ Htype), wrapu_id by done. cbn -[Z.eqb Z.add length get16 ie_bytes]. destruct (t' =? t); [done|].
  rewrite (get16_holds _ _ _ Hlen), wrapu_id, length_ie_bytes by done. cbn -[Z.leb Z.of_nat Nat.add find_loop].
  by rewrite Nat2Z.id, Nat.add_assoc.
Qed.

(** The search finds the first element of the type. *)
Lemma find_loop_first t ies fuel len ev ie :
  ies <> [] -> (length ies < fuel)%nat -> Forall (fun ie => in_u 16 (fst ie) /\ in_u 16 (Z.of_nat (length (snd ie)))) ies ->
  holds ev ie (body ies) -> len = Z.of_nat (ie + length (body ies)) ->
  match first_ie t ies with
  | None => find_loop fuel 0 (mk_iterator len ev ie) t = Ret None
  | Some d => exists off, find_loop fuel 0 (mk_iterator len ev ie) t = Ret (Some (mk_iterator len ev off)) /\
      holds ev off (ie_bytes (t, d)) /\ in_u 16 (Z.of_nat (length d))
  end.
Proof.
  intros Hne. revert fuel ie. induction ies as [|[t' d] ies IH]; [done|]; clear Hne.
  intros [|fuel] ie Hf Hies Hb Hl; [cbn in Hf; lia|]. apply Forall_cons in Hies as [[Ht Hd] Hies].
  rewrite body_cons in Hb, Hl. destruct (holds_app _ _ _ _ Hb) as [Hie Hrest]. rewrite length_app in Hl.
  rewrite (find_loop_step _ _ _ _ _ t' d) by done. cbn [first_ie]. destruct (Z.eqb_spec t' t) as [->|_]; [by eauto|].
  destruct ies as [|i ies]; case_if.
  - by destruct fuel; [cbn in Hf; lia|].
  - cbn [body fmap list_fmap mjoin list_join length] in Hl. lia.
  - rewrite body_cons, length_app, !length_ie_bytes in Hl. rewrite length_ie_bytes in E. lia.
  - apply IH; [done|cbn in Hf |- *; lia|done|done|lia].
Qed.

Lemma fits_lengths ies : fits ies -> Forall (fun ie => in_u 16 (fst ie) /\ in_u 16 (Z.of_nat (length (snd ie)))) ies.
Proof.
  intros [Ht Hl]. unfold in_u in *. induction Ht as [|ie ies Hie _ IH]; [constructor|]. rewrite body_cons, length_app, length_ie_bytes in Hl.
  constructor; [|apply IH]; lia.
Qed.

Lemma length_ies_body ies : (4 * length ies <= length (body ies))%nat.
Proof. induction ies as [|ie ies IH]; [done|]. rewrite body_cons, length_app, length_ie_bytes. cbn [length]. lia. Qed.

Lemma encode_holds type ies : holds (encode type ies) 4 (body ies).
Proof. destruct (holds_app _ _ (be16 type ++ be16 (4 + Z.of_nat (length (body ies)))) (body ies) (holds_all _)) as [_ H]. exact H. Qed.

Lemma encode_size type ies : fits ies -> ast_event_get_size (encode type ies) = Ret (4 + Z.of_nat (length (body ies))).
Proof.
  intros [_ Hl]. unfold ast_event_get_size. rewrite (get16_holds _ _ (4 + Z.of_nat (length (body ies)))), wrapu_id.
  - done.
  - unfold in_u. lia.
  - exists (be16 type), (body ies). done.
Qed.

Lemma encode_type type ies : in_u 16 type -> ast_event_get_type (encode type ies) = Ret type.
Proof.
  intros Ht. unfold ast_event_get_type. rewrite (get16_holds _ _ type), wrapu_id; [done..|].
  exists [], (be16 (4 + Z.of_nat (length (body ies))) ++ body ies). done.
Qed.

Lemma find_ie_encode type ies t :
  fits ies ->
  match first_ie t ies with
  | None => find_ie (encode type ies) t = Ret None
  | Some d => exists len off, find_ie (encode type ies) t = Ret (Some (mk_iterator len (encode type ies) off)) /\
      holds (encode type ies) off (ie_bytes (t, d)) /\ in_u 16 (Z.of_nat (length d))
  end.
Proof.
  intros Hf. unfold find_ie, ast_event_iterator_init. rewrite encode_size by done. cbn -[Z.add Z.of_nat find_loop].
  destruct ies as [|ie ies].
  - reflexivity.
  - pose proof (length_ies_body (ie :: ies)) as Hn. case_if; [|cbn [length] in Hn; lia].
    cbn -[Z.add Z.of_nat find_loop first_ie body]. set (fuel := S _).
    pose proof (find_loop_first t (ie :: ies) fuel (4 + Z.of_nat (length (body (ie :: ies)))) (encode type (ie :: ies)) 4
      ltac:(done) ltac:(unfold fuel; lia) (fits_lengths _ Hf) (encode_holds _ _) ltac:(lia)) as H.
    destruct (first_ie t (ie :: ies)); [|done]. destruct H as (off & H). by eexists _, off.
Qed.

(** What the readers give for an element with a payload. *)
Lemma raw_encode type ies t :
  fits ies ->
  match first_ie t ies with
  | None => ast_event_get_ie_raw (encode type ies) t = Ret None /\ ast_event_get_ie_raw_payload_len (encode type ies) t = Ret 0
  | Some d => exists off, ast_event_get_ie_raw (encode type ies) t = Ret (Some off) /\
      holds (encode type ies) off d /\ ast_event_get_ie_raw_payload_len (encode type ies) t = Ret (Z.of_nat (length d))
  end.
Proof.
  intros Hf. pose proof (find_ie_encode type ies t Hf) as H. unfold ast_event_get_ie_raw, ast_event_get_ie_raw_payload_len.
  destruct (first_ie t ies) as [d|]; [|by rewrite H]. destruct H as (len & off & -> & H & Hd).
  apply holds_app in H as [_ H]. apply holds_app in H as [Hlen H]. cbn -[encode] in Hlen, H.
  exists (off + 4)%nat. cbn -[length get16 encode]. unfold ast_event_iterator_get_ie_raw, ast_event_iterator_get_ie_raw_payload_len. cbn -[length get16 encode].
  rewrite (get16_holds _ _ _ Hlen), (wrapu_id 16) by done. split; [done|]. split; [|done]. by replace (off + 4)%nat with (off + 2 + 2)%nat by lia.
Qed.

(** A search ends, whatever the bytes are. *)
Lemma find_loop_ends t fuel res it :
  (0 < fuel)%nat -> (res = 0 -> (it_ie it < Z.to_nat (it_event_len it) < fuel + it_ie it)%nat) -> find_loop fuel res it t <> NoFuel.
Proof.
  revert res it. induction fuel as [|fuel IH]; intros res it H0 Hf; [lia|]. cbn [find_loop].
  destruct (Z.eqb_spec res 0) as [->|]; [|done]. cbn [negb]. specialize (Hf eq_refl).
  unfold ast_event_iterator_get_ie_type, ast_event_iterator_next.
  assert (H16 : forall off, exists r, get16 (it_event it) off = r /\ r <> NoFuel /\ r <> AssertFail).
  { intros off. eexists. split; [done|]. unfold get16, read_be. by destruct (_ !! off); cbn; [destruct (_ !! S off)|]. }
  destruct (H16 (it_ie it)) as (r & -> & Hr & Hr'). destruct r; try done. cbn [obind]. case_if; [done|].
  destruct (H16 (it_ie it + 2)%nat) as (r & -> & Hr2 & _). destruct r as [len| | |]; try done. cbn [obind].
  case_if.
  - destruct fuel; [lia|done].
  - apply IH; cbn; lia.
Qed.

(** ** What the readers give *)

Definition payload (ie : Z * ie_value) : list Z :=
  match snd ie with
  | Uint v | Bitflags v => be32 v
  | Str s => str_payload (fst ie) s
  | Raw d => d
  | Exists | Unknown => []
  end.

Definition element (ie : Z * ie_value) : Z * list Z := (fst ie, payload ie).

(** Values of the types the code gives them. *)
Definition value_ok (ie : Z * ie_value) : Prop :=
  match snd ie with
  | Uint v | Bitflags v => in_u 32 v
  | Str s => chars s
  | _ => True
  end.

Lemma length_le32 v : length (le32 v) = 4%nat.
Proof. done. Qed.

Section read.
Context (type : Z) (ies : list (Z * list Z)) (t : Z) (Hfits : fits ies).

Lemma read_uint v : first_ie t ies = Some (be32 v) -> ast_event_get_ie_uint (encode type ies) t = Ret (u32 v).
Proof.
  intros H. pose proof (raw_encode type ies t Hfits) as R. rewrite H in R. destruct R as (off & R & Hd & _).
  unfold ast_event_get_ie_uint. rewrite R. cbn -[get32 encode]. by apply get32_holds.
Qed.

Lemma read_hash s : first_ie t ies = Some (str_payload t s) ->
  ast_event_get_ie_str_hash (encode type ies) t = Ret (u32 (ast_str_hash (hashed t s))).
Proof.
  intros H. pose proof (raw_encode type ies t Hfits) as R. rewrite H in R. destruct R as (off & R & Hd & _).
  unfold ast_event_get_ie_str_hash. rewrite R. cbn -[read_le encode]. apply read_le32. by apply holds_app in Hd as [Hd _].
Qed.

Lemma read_str s : first_ie t ies = Some (str_payload t s) -> chars s -> ast_event_get_ie_str (encode type ies) t = Ret (Some s).
Proof.
  intros H Hs. pose proof (raw_encode type ies t Hfits) as R. rewrite H in R. destruct R as (off & R & Hd & _).
  unfold ast_event_get_ie_str. rewrite R. cbn -[string_at encode]. apply holds_app in Hd as [_ Hd]. rewrite length_le32 in Hd.
  by rewrite (string_at_holds _ _ _ Hd Hs).
Qed.

Lemma read_raw d : first_ie t ies = Some d ->
  exists off, ast_event_get_ie_raw (encode type ies) t = Ret (Some off) /\
    ast_event_get_ie_raw_payload_len (encode type ies) t = Ret (Z.of_nat (length d)) /\
    bytes_at (encode type ies) off (length d) = Ret d.
Proof.
  intros H. pose proof (raw_encode type ies t Hfits) as R. rewrite H in R. destruct R as (off & R & Hd & Hl).
  exists off. by rewrite (holds_bytes _ _ _ Hd).
Qed.

Lemma read_absent : first_ie t ies = None ->
  ast_event_get_ie_raw (encode type ies) t = Ret None /\ ast_event_get_ie_raw_payload_len (encode type ies) t = Ret 0 /\
  ast_event_get_ie_uint (encode type ies) t = Ret 0 /\ ast_event_get_ie_str (encode type ies) t = Ret None /\
  ast_event_get_ie_str_hash (encode type ies) t = Ret 0.
Proof.
  intros H. pose proof (raw_encode type ies t Hfits) as R. rewrite H in R. destruct R as [R ->].
  unfold ast_event_get_ie_uint, ast_event_get_ie_str, ast_event_get_ie_str_hash. by rewrite R.
Qed.
End read.

(** ** Building gives the bytes *)

Lemma fits_app_l ies ies' : fits (ies ++ ies') -> fits ies.
Proof. unfold fits. rewrite Forall_app, body_app, length_app. intros [[H _] Hl]. split; [done|lia]. Qed.

Section building.
Context (alloc_ok : Z -> bool) (ast_eid_default : list Z).

(** Memory ran out for a block of some size. *)
Definition no_memory : Prop := exists size, alloc_ok size = false.

Lemma append_raw_encode type ies t d :
  fits (ies ++ [(t, d)]) ->
  ast_event_append_ie_raw alloc_ok (encode type ies) t d = Ret (Some (encode type (ies ++ [(t, d)])), 0) \/
  no_memory /\ ast_event_append_ie_raw alloc_ok (encode type ies) t d = Ret (None, -1).
Proof.
  intros Hf. unfold ast_event_append_ie_raw. rewrite encode_size by (by eapply fits_app_l).
  destruct Hf as [_ Hl]. rewrite body_app, length_app, body_cons, length_app, length_ie_bytes in Hl. cbn [length body fmap list_fmap mjoin list_join snd] in Hl.
  cbn -[Z.add encode length wrapu Z.of_nat in_use set_len].
  rewrite !(wrapu_id 32) by (unfold in_u; rewrite ?(wrapu_id 32) by (unfold in_u; lia); lia).
  destruct (alloc_ok _) eqn:E; [left|right; split; [by eexists|done]]. case_if; [lia|]. do 3 f_equal.
  unfold in_use. replace (Z.to_nat _) with (length (encode type ies)) by (cbn [encode be16 app length]; lia).
  rewrite take_ge by done. rewrite Nat.sub_diag. cbn [replicate]. rewrite app_nil_r. unfold encode.
  rewrite body_app, body_cons, !length_app. cbn -[Z.add length wrapu Z.of_nat Z.shiftr].
  cbn [length body fmap list_fmap mjoin list_join]. rewrite app_nil_r, Nat.add_0_r. cbn [length].
  replace (4 + Z.of_nat (length (body ies)) + (4 + Z.of_nat (length d))) with (4 + Z.of_nat (length (body ies) + S (S (S (S (length d)))))) by lia.
  done.
Qed.

Lemma append_value_encode type ies ie :
  insert (snd ie) = true -> fits (ies ++ [element ie]) ->
  append_value alloc_ok (encode type ies) ie = Ret (Some (encode type (ies ++ [element ie])), 0) \/
  no_memory /\ append_value alloc_ok (encode type ies) ie = Ret (None, -1).
Proof. destruct ie as [t []]; try done; intros _ Hf; by apply append_raw_encode. Qed.

Lemma append_values_encode type args ies :
  Forall (fun ie => insert (snd ie) = true) args -> fits (ies ++ (element <$> args)) ->
  append_values alloc_ok (encode type ies) args = Ret (Some (encode type (ies ++ (element <$> args)))) \/
  no_memory /\ append_values alloc_ok (encode type ies) args = Ret None.
Proof.
  intros Ha. revert ies. induction Ha as [|ie args Hie _ IH]; intros ies Hf; [left; by rewrite app_nil_r|].
  cbn [append_values]. rewrite fmap_cons, cons_middle, app_assoc in Hf |- *.
  destruct (append_value_encode type ies ie Hie (fits_app_l _ _ Hf)) as [->|[H ->]]; [|by right].
  cbn -[encode append_values]. destruct (IH _ Hf) as [->|[H ->]]; [by left|by right].
Qed.

(** The elements of the event that [ast_event_new] makes of its arguments: those with a
    value, and the entity identifier of the server when there is no other. *)
Definition new_args (args : list (Z * ie_value)) : list (Z * ie_value) :=
  let ies := List.filter (fun ie => insert (snd ie)) args in
  match ies, first_ie AST_EVENT_IE_EID ies with
  | _ :: _, None => ies ++ [(AST_EVENT_IE_EID, Raw ast_eid_default)]
  | _, _ => ies
  end.

Lemma first_element t args : first_ie t (element <$> args) = (fun v => payload (t, v)) <$> first_ie t args.
Proof. induction args as [|[t' v] args IH]; [done|]. cbn. by destruct (Z.eqb_spec t' t) as [->|]. Qed.

(** The event has the bytes of its elements, or memory ran out. *)
Lemma new_encode type args :
  0 <= type < AST_EVENT_TOTAL -> fits (element <$> new_args args) ->
  ast_event_new alloc_ok ast_eid_default type args = Ret (Some (encode type (element <$> new_args args))) \/
  no_memory /\ ast_event_new alloc_ok ast_eid_default type args = Ret None.
Proof.
  intros Ht Hf. unfold ast_event_new. case_if; [lia|]. unfold new_args in *.
  set (ies := List.filter _ args) in *. assert (Hi : Forall (fun ie => insert (snd ie) = true) ies).
  { apply Forall_forall. intros ie [_ H]%list_elem_of_In%filter_In. done. }
  assert (Hf' : fits (element <$> ies)).
  { destruct ies; [done|]. destruct (first_ie _ _); [done|]. rewrite fmap_app in Hf. by apply fits_app_l in Hf. }
  destruct (alloc_ok 4) eqn:E4; [|right; split; [by exists 4|done]].
  change (be16 type ++ be16 4) with (encode type []).
  destruct (append_values_encode type ies [] Hi Hf') as [->|[H ->]]; [|by right]. cbn [app obind].
  pose proof (raw_encode type _ AST_EVENT_IE_EID Hf') as R. rewrite first_element in R.
  destruct ies as [|ie ies]; [by left|]. destruct (first_ie _ (ie :: ies)) as [v|].
  - destruct R as (off & -> & _). by left.
  - destruct R as [-> _]. cbn [obind]. rewrite fmap_app in Hf |- *.
    destruct (append_raw_encode type _ _ _ Hf) as [H|[H H']]; unfold ast_event_append_eid.
    + left. cbn -[ast_event_append_ie_raw encode element] in H |- *. by rewrite H.
    + right. cbn -[ast_event_append_ie_raw encode element] in H' |- *. by rewrite H'.
Qed.
End building.

(** ** The events of the code *)

(** What the readers of an event give for an element. *)
Definition reads_as (ev : list Z) (t : Z) (value : option ie_value) : Prop :=
  match value with
  | Some (Uint v) => ast_event_get_ie_uint ev t = Ret v
  | Some (Bitflags v) => ast_event_get_ie_bitflags ev t = Ret v
  | Some (Str s) => ast_event_get_ie_str ev t = Ret (Some s) /\ ast_event_get_ie_str_hash ev t = Ret (u32 (ast_str_hash (hashed t s)))
  | Some (Raw d) =>
      exists off, ast_event_get_ie_raw ev t = Ret (Some off) /\
        ast_event_get_ie_raw_payload_len ev t = Ret (Z.of_nat (length d)) /\ bytes_at ev off (length d) = Ret d
  | _ =>
      ast_event_get_ie_raw ev t = Ret None /\ ast_event_get_ie_raw_payload_len ev t = Ret 0 /\
      ast_event_get_ie_uint ev t = Ret 0 /\ ast_event_get_ie_str ev t = Ret None /\ ast_event_get_ie_str_hash ev t = Ret 0
  end.

Lemma first_in {A} t (ies : list (Z * A)) v : first_ie t ies = Some v -> (t, v) ∈ ies.
Proof.
  induction ies as [|[t' v'] ies IH]; [done|]. cbn. destruct (Z.eqb_spec t' t) as [->|].
  - intros [= ->]. left.
  - intros H. right. by apply IH.
Qed.

Lemma encode_reads_as type args t :
  Forall value_ok args -> Forall (fun ie => insert (snd ie) = true) args -> fits (element <$> args) ->
  reads_as (encode type (element <$> args)) t (first_ie t args).
Proof.
  intros Hok Hi Hf. pose proof (first_element t args) as E. destruct (first_ie t args) as [v|] eqn:Ef.
  - pose proof (first_in _ _ _ Ef) as Hin. rewrite Forall_forall in Hok, Hi. specialize (Hok _ Hin). specialize (Hi _ Hin).
    destruct v as [v|v|s|d| |]; try done; cbn [reads_as] in *; unfold value_ok in Hok; cbn [snd] in Hok.
    + by rewrite (read_uint type _ t Hf v), wrapu_id.
    + change (ast_event_get_ie_uint (encode type (element <$> args)) t = Ret v). by rewrite (read_uint type _ t Hf v), wrapu_id.
    + split; [by apply read_str|by apply read_hash].
    + by apply read_raw.
  - by apply read_absent.
Qed.

Lemma new_args_ok eid args :
  Forall value_ok args -> Forall value_ok (new_args eid args) /\ Forall (fun ie => insert (snd ie) = true) (new_args eid args).
Proof.
  intros Hok. rewrite Forall_forall in Hok.
  assert (H : forall ie, ie ∈ new_args eid args -> value_ok ie /\ insert (snd ie) = true).
  { intros ie. assert (Hl : ie ∈ List.filter (fun ie => insert (snd ie)) args -> value_ok ie /\ insert (snd ie) = true).
    { intros [H Hie]%list_elem_of_In%filter_In. split; [|done]. apply Hok. by apply list_elem_of_In. }
    unfold new_args. destruct (List.filter _ args) as [|a l]; [done|]. destruct (first_ie _ (a :: l)); [done|].
    intros [Hin|Hin]%elem_of_app; [by apply Hl|]. apply list_elem_of_singleton in Hin as ->. done. }
  split; apply Forall_forall; intros ie Hie; by apply H.
Qed.

(** C32: an event is read back as it was built.  [ast_event_new] fails only when memory runs
    out; otherwise every reader finds for every type of element the first value given for
    it, strings with the hash of their name, and nothing for a type that was not given -
    except that an event with elements also has the entity identifier of the server when
    none was given. *)
Theorem event_roundtrip alloc_ok ast_eid_default type args :
  0 <= type < AST_EVENT_TOTAL -> Forall value_ok args -> fits (element <$> new_args ast_eid_default args) ->
  (exists ev, ast_event_new alloc_ok ast_eid_default type args = Ret (Some ev) /\
     ast_event_get_type ev = Ret type /\
     ast_event_get_size ev = Ret (Z.of_nat (length ev)) /\
     forall t, reads_as ev t (first_ie t (new_args ast_eid_default args))) \/
  (exists size, alloc_ok size = false) /\ ast_event_new alloc_ok ast_eid_default type args = Ret None.
Proof.
  intros Ht Hok Hf. destruct (new_encode alloc_ok ast_eid_default type args Ht Hf) as [H|H]; [left|by right].
  exists (encode type (element <$> new_args ast_eid_default args)). split; [done|]. split; [apply encode_type; unfold in_u; lia|].
  split; [rewrite encode_size by done; f_equal; cbn [encode be16 app length]; lia|].
  intros t. destruct (new_args_ok ast_eid_default args Hok). by apply encode_reads_as.
Qed.

Definition sample_eid : list Z := [2; 0; 94; 16; 32; 48].
Definition sample_args : list (Z * ie_value) :=
  [(AST_EVENT_IE_DEVICE, Str (zs "sip/phone")); (8, Uint 70000); (AST_EVENT_IE_EXISTS, Exists); (8, Uint 1)].

Lemma event_roundtrip_witness :
  exists ev, ast_event_new (fun _ => true) sample_eid AST_EVENT_DEVICE_STATE sample_args = Ret (Some ev) /\
    reads_as ev AST_EVENT_IE_DEVICE (Some (Str (zs "sip/phone"))) /\ reads_as ev 8 (Some (Uint 70000)) /\
    reads_as ev AST_EVENT_IE_EXISTS None /\ reads_as ev AST_EVENT_IE_EID (Some (Raw sample_eid)).
Proof.
  destruct (event_roundtrip (fun _ => true) sample_eid AST_EVENT_DEVICE_STATE sample_args) as [(ev & H & _ & _ & Hr)|[(size & H) _]].
  - lia.
  - repeat constructor; cbv; congruence.
  - split; [repeat constructor; cbv; congruence|by vm_compute].
  - exists ev. split; [exact H|]. repeat split; [apply (Hr AST_EVENT_IE_DEVICE)|apply (Hr AST_EVENT_IE_DEVICE)|apply (Hr 8)|apply (Hr AST_EVENT_IE_EXISTS)..|apply (Hr AST_EVENT_IE_EID)].
  - discriminate H.
Defined.

(** A copy has the same bytes. *)
Lemma dup_encode alloc_ok type ies :
  fits ies -> (forall size, alloc_ok size = true) -> ast_event_dup alloc_ok (encode type ies) = Ret (Some (encode type ies)).
Proof.
  intros Hf Ha. unfold ast_event_dup. rewrite encode_size by done. cbn [obind]. rewrite Ha. unfold bytes_at.
  replace (Z.to_nat _) with (length (encode type ies)) by (cbn [encode be16 app length]; lia).
  rewrite Nat.add_0_l, Nat.leb_refl, drop_0, take_ge by done. done.
Qed.

(** Reading an element of any block of bytes, also one that is not an event, ends: the
    loop is left after at most as many rounds as the length in the header. *)
Theorem event_get_ie_ends ev t :
  ast_event_get_ie_raw ev t <> NoFuel /\ ast_event_get_ie_raw_payload_len ev t <> NoFuel.
Proof.
  assert (H : find_ie ev t <> NoFuel).
  { unfold find_ie, ast_event_iterator_init, ast_event_get_size, get16, read_be.
    destruct (ev !! 2%nat); [|done]. cbn [oaccess obind]. destruct (ev !! 3%nat); [|done]. cbn [oaccess obind].
    case_if; cbn [obind]; apply find_loop_ends; cbn [it_event_len it_ie]; try lia; intros _; lia. }
  unfold ast_event_get_ie_raw, ast_event_get_ie_raw_payload_len. destruct (find_ie ev t) as [[it|]| | |] eqn:E; try done.
  split; [done|]. cbn. unfold ast_event_iterator_get_ie_raw_payload_len, get16, read_be. by destruct (_ !! _); cbn; [destruct (_ !! _)|].
Qed.

(** The check for the end of the event looks at the first byte of an element only: of an
    event whose length leaves one byte after the last element the readers read past the
    end. *)
Lemma truncated_event_overread :
  let ev := be16 AST_EVENT_DEVICE_STATE ++ be16 9 ++ be16 8 ++ be16 0 ++ [0] in
  ast_event_get_size ev = Ret (Z.of_nat (length ev)) /\ ast_event_get_ie_raw ev AST_EVENT_IE_DEVICE = BadAccess.
Proof. by vm_compute. Qed.

(** The length of an event has 16 bits: an element that makes the event a little longer
    than they hold is appended without an error, and then no element is found any more. *)
Lemma event_length_wraps alloc_ok type ies t d :
  fits ies -> (forall size, alloc_ok size = true) ->
  2 ^ 16 <= 8 + Z.of_nat (length (body ies) + length d) < 2 ^ 16 + 8 ->
  exists ev, ast_event_append_ie_raw alloc_ok (encode type ies) t d = Ret (Some ev, 0) /\
    forall t', ast_event_get_ie_raw ev t' = Ret None.
Proof.
  intros Hf Ha Hl. unfold ast_event_append_ie_raw. rewrite encode_size by done. cbn -[Z.add encode length wrapu Z.of_nat in_use set_len].
  rewrite Ha, !(wrapu_id 32) by (unfold in_u; rewrite ?(wrapu_id 32) by (unfold in_u; lia); lia).
  case_if; [lia|]. eexists. split; [done|]. intros t'.
  unfold in_use. rewrite Z2Nat.inj_add, Nat2Z.id by lia. cbn -[Z.add wrapu Z.shiftr get16].
  unfold ast_event_get_ie_raw, find_ie, ast_event_iterator_init, ast_event_get_size.
  set (size := 4 + Z.of_nat (length (body ies)) + (4 + Z.of_nat (length d))).
  match goal with |- context [get16 ?ev 2] => assert (H : get16 ev 2 = Ret (u16 size)) end.
  { apply get16_holds. eexists [_; _], _. done. }
  rewrite H. unfold wrapu. replace (size mod 2 ^ 16) with (size - 2 ^ 16) by (apply (Z.mod_unique_pos _ _ 1); unfold size; lia).
  cbn [obind]. case_if; [unfold size in *; lia|]. cbn [obind it_event_len].
  by destruct (Z.to_nat (size - 2 ^ 16)).
Qed.
