(* ===== verification/EventSub.v ===== *)
(** * Event subscriptions ([main/event.c])

    A subscription names the values of information elements that an event must have for
    its callback to be called.  The values are compared in two places: with the arguments
    of [ast_event_check_subscriber], before an event is built, and with the bytes of the
    event in [handle_event].  This file models both, the queue of the dispatcher and the
    operations on subscriptions, and shows when both places agree.

    The lists of subscriptions are an array of lists, one for every type of event; a
    subscription has the address of its block.  A callback that is called is recorded as
    the subscription it belongs to. *)

From Stdlib Require Import ZArith Lia.
From stdpp Require Import base list numbers strings.
From S2P Require Import Event Prelude.

#[local] Open Scope Z_scope.
#[local] Open Scope outcome_scope.

(** The value of an element in a subscription (with the hash of a string), or in the list
    that [ast_event_check_subscriber] makes of its arguments. *)
Record ast_event_ie_val := mk_ie_val { ie_type : Z; value : ie_value; hash : Z }.

Record ast_event_sub := mk_sub {
  sub_addr : ptr;
  sub_type : Z;
  sub_cb : ptr;
  sub_userdata : ptr;
  sub_description : str;
  sub_id : Z;
  ie_vals : list ast_event_ie_val
}.

#[local] Open Scope record_scope.
#[export] Instance eta_sub : Eta ast_event_sub :=
  fun s => mk_sub (sub_addr s) (sub_type s) (sub_cb s) (sub_userdata s) (sub_description s) (sub_id s) (ie_vals s).

(** ** Comparing values *)

Definition match_sub_ie_val_to_event (sub_ie_val : ast_event_ie_val) (check_ie_vals : list ast_event_ie_val) : bool :=
  match List.find (fun e => ie_type sub_ie_val =? ie_type e) check_ie_vals with
  | None => false
  | Some e =>
      match value sub_ie_val, value e with
      | Uint a, Uint b => a =? b
      | Bitflags a, Bitflags b => ctrue (Z.land a b)
      | Str s, Str s' => bool_decide (hashed (ie_type sub_ie_val) s = hashed (ie_type sub_ie_val) s')
      | Raw a, Raw b => bool_decide (a = b)
      | Exists, Exists => false
      | Exists, _ => true
      | _, _ => false
      end
  end.

(** [event2]: where the value comes from, if not from the subscription. *)
Definition match_ie_val (event : list Z) (ie_val : ast_event_ie_val) (event2 : option (list Z)) : outcome bool :=
  let t := ie_type ie_val in
  match value ie_val with
  | Uint v =>
      let* val := match event2 with Some e2 => ast_event_get_ie_uint e2 t | None => Ret v end in
      let* r := ast_event_get_ie_uint event t in
      Ret (val =? r)
  | Bitflags v =>
      let* flags := match event2 with Some e2 => ast_event_get_ie_uint e2 t | None => Ret v end in
      let* r := ast_event_get_ie_bitflags event t in
      Ret (ctrue (Z.land flags r))
  | Str s =>
      let* h := match event2 with Some e2 => ast_event_get_ie_str_hash e2 t | None => Ret (hash ie_val) end in
      let* h1 := ast_event_get_ie_str_hash event t in
      if negb (h =? h1) then Ret false
      else
        let* s := match event2 with Some e2 => ast_event_get_ie_str e2 t | None => Ret (Some s) end in
        match s with
        | None => Ret false
        | Some s =>
            let* s1 := ast_event_get_ie_str event t in
            match s1 with
            | None => BadAccess
            | Some s1 => Ret (bool_decide (hashed t s1 = hashed t s))
            end
        end
  | Raw d =>
      let* buf := match event2 with Some e2 => ast_event_get_ie_raw e2 t | None => Ret (Some 0%nat) end in
      let* len := match event2 with Some e2 => ast_event_get_ie_raw_payload_len e2 t | None => Ret (u16 (Z.of_nat (length d))) end in
      match buf with
      | None => Ret false
      | Some off =>
          let* len1 := ast_event_get_ie_raw_payload_len event t in
          if negb (len =? len1) then Ret false
          else
            let* buf1 := ast_event_get_ie_raw event t in
            if len =? 0 then Ret true
            else
              let* a := bytes_at (match event2 with Some e2 => e2 | None => d end) off (Z.to_nat len) in
              match buf1 with
              | None => BadAccess
              | Some off1 => let* b := bytes_at event off1 (Z.to_nat len) in Ret (bool_decide (a = b))
              end
      end
  | Exists => let* r := ast_event_get_ie_raw event t in Ret (bool_decide (is_Some r))
  | Unknown => Ret false
  end.

(** ** Who gets an event *)

(** The array of the lists. *)
Definition subs_of (subs : list (list ast_event_sub)) (type : Z) : outcome (list ast_event_sub) := oaccess (subs !! Z.to_nat type).

Definition check_list (args : list (Z * ie_value)) : list ast_event_ie_val :=
  (fun ie => mk_ie_val (fst ie) (snd ie) 0) <$> List.filter (fun ie => insert (snd ie)) args.

(** Does a list have a subscription that the values satisfy; without values, has it any? *)
Definition wanted (check : list ast_event_ie_val) (l : list ast_event_sub) : bool :=
  match check with
  | [] => match l with [] => false | _ => true end
  | _ => existsb (fun sub => forallb (fun v => match_sub_ie_val_to_event v check) (ie_vals sub)) l
  end.

(** [true] is [AST_EVENT_SUB_EXISTS]. *)
Definition ast_event_check_subscriber (subs : list (list ast_event_sub)) (type : Z) (args : list (Z * ie_value)) : outcome bool :=
  if type >=? AST_EVENT_TOTAL then Ret false
  else
    let check := check_list args in
    let* l := subs_of subs type in
    if wanted check l then Ret true else let* l := subs_of subs AST_EVENT_ALL in Ret (wanted check l).

(** The loop over the values of a subscription, left at the first that does not match. *)
Fixpoint all_match (ev : list Z) (vals : list ast_event_ie_val) : outcome bool :=
  match vals with
  | [] => Ret true
  | v :: vals => let* b := match_ie_val ev v None in if b then all_match ev vals else Ret false
  end.

Fixpoint matching (ev : list Z) (l : list ast_event_sub) : outcome (list ast_event_sub) :=
  match l with
  | [] => Ret []
  | sub :: l =>
      let* b := all_match ev (ie_vals sub) in
      let* called := matching ev l in
      Ret (if b then sub :: called else called)
  end.

(** The subscriptions whose callbacks are called, in order. *)
Definition handle_event (subs : list (list ast_event_sub)) (ev : list Z) : outcome (list ast_event_sub) :=
  let* type := ast_event_get_type ev in
  let* l := subs_of subs type in
  let* called := matching ev l in
  let* l := subs_of subs AST_EVENT_ALL in
  let* called' := matching ev l in
  Ret (called ++ called').

(** ** Queueing and subscribing *)

Record events := mk_events { subs : list (list ast_event_sub); sub_uniqueid : Z; queue : list (list Z) }.

#[export] Instance eta_events : Eta events := fun e => mk_events (subs e) (sub_uniqueid e) (queue e).

Section operations.
(** The answers of the allocator for blocks of events, for the reference of a queued event
    and its place in the queue, and for the values of a subscription. *)
Context (alloc_ok : Z -> bool) (ref_ok push_ok : bool) (val_ok : Z * ie_value -> bool).
Context (ast_eid_default : list Z).

(** An event nobody has subscribed to is destroyed; so is one whose result is not 0, by
    the caller. *)
Definition ast_event_queue (st : events) (ev : list Z) : outcome (Z * events) :=
  let* host_event_type := get16 ev 0 in
  if host_event_type >=? AST_EVENT_TOTAL then Ret (-1, st)
  else
    let* b := ast_event_check_subscriber (subs st) host_event_type [] in
    if negb b then Ret (0, st)
    else if ref_ok && push_ok then Ret (0, st <| queue ::= fun q => q ++ [ev] |>) else Ret (-1, st).

(** The dispatcher takes the first event. *)
Definition dispatch (st : events) : outcome (list ast_event_sub * events) :=
  match queue st with
  | [] => Ret ([], st)
  | ev :: q => let* called := handle_event (subs st) ev in Ret (called, st <| queue := q |>)
  end.

Definition ast_event_subscribe_new (st : events) (mem : ptr) (type cb userdata : Z) : option ast_event_sub * events :=
  if (type <? 0) || (type >=? AST_EVENT_TOTAL) then (None, st)
  else if mem =? NULL then (None, st)
  else (Some (mk_sub mem type cb userdata [] (sub_uniqueid st) []), st <| sub_uniqueid ::= fun n => u32 (n + 1) |>).

Definition sub_append (sub : ast_event_sub) (t : Z) (v : ie_value) (h : Z) : Z * ast_event_sub :=
  if (t <=? 0) || (t >=? AST_EVENT_IE_TOTAL) then (-1, sub)
  else if val_ok (t, v) then (0, sub <| ie_vals ::= fun l => l ++ [mk_ie_val t v h] |>)
  else (-1, sub).

Definition ast_event_sub_append_ie_uint sub t unsigned_int := sub_append sub t (Uint unsigned_int) 0.
Definition ast_event_sub_append_ie_bitflags sub t flags := sub_append sub t (Bitflags flags) 0.
Definition ast_event_sub_append_ie_exists sub t := sub_append sub t Exists 0.
Definition ast_event_sub_append_ie_str sub t s := sub_append sub t (Str s) (u32 (ast_str_hash (hashed t s))).
Definition ast_event_sub_append_ie_raw sub t data := sub_append sub t (Raw data) 0.

(** One argument of [ast_event_subscribe]; the result of appending it is not looked at. *)
Definition subscribe_arg (sub : ast_event_sub) (arg : Z * ie_value) : ast_event_sub :=
  let '(t, v) := arg in
  match v with
  | Unknown => sub
  | Uint v => snd (ast_event_sub_append_ie_uint sub t v)
  | Bitflags v => snd (ast_event_sub_append_ie_bitflags sub t v)
  | Str s => snd (ast_event_sub_append_ie_str sub t s)
  | Raw d => snd (ast_event_sub_append_ie_raw sub t d)
  | Exists => snd (ast_event_sub_append_ie_exists sub t)
  end.

Definition sub_args (sub : ast_event_sub) : list (Z * ie_value) :=
  [(AST_EVENT_IE_UNIQUEID, Uint (sub_id sub)); (AST_EVENT_IE_EVENTTYPE, Uint (sub_type sub)); (AST_EVENT_IE_DESCRIPTION, Str (sub_description sub))].

Definition append_sub_val (ev : list Z) (v : ast_event_ie_val) : outcome (option (list Z) * Z) :=
  match value v with
  | Exists => ast_event_append_ie_uint alloc_ok ev AST_EVENT_IE_EXISTS (ie_type v)
  | w => append_value alloc_ok ev (ie_type v, w)
  end.

Fixpoint append_sub_vals (ev : list Z) (vals : list ast_event_ie_val) : outcome (option (list Z)) :=
  match vals with
  | [] => Ret (Some ev)
  | v :: vals =>
      let* (r, _) := append_sub_val ev v in
      match r with Some ev => append_sub_vals ev vals | None => Ret None end
  end.

Definition gen_sub_event (sub : ast_event_sub) : outcome (option (list Z)) :=
  let* r := ast_event_new alloc_ok ast_eid_default AST_EVENT_SUB (sub_args sub) in
  match r with None => Ret None | Some ev => append_sub_vals ev (ie_vals sub) end.

(** Queue an event, if there is one. *)
Definition queue_made (st : events) (r : option (list Z)) : outcome events :=
  match r with None => Ret st | Some ev => let* (_, st) := ast_event_queue st ev in Ret st end.

Definition ast_event_sub_activate (st : events) (sub : ast_event_sub) : outcome events :=
  let* b := ast_event_check_subscriber (subs st) AST_EVENT_SUB [(AST_EVENT_IE_EVENTTYPE, Uint (sub_type sub))] in
  let* st := if b then let* r := gen_sub_event sub in queue_made st r else Ret st in
  let* l := subs_of (subs st) (sub_type sub) in
  Ret (st <| subs ::= fun s => <[Z.to_nat (sub_type sub) := l ++ [sub]]> s |>).

Definition ast_event_subscribe (st : events) (mem : ptr) (type cb userdata : Z) (description : str) (args : list (Z * ie_value))
    : outcome (option ast_event_sub * events) :=
  match ast_event_subscribe_new st mem type cb userdata with
  | (None, st) => Ret (None, st)
  | (Some sub, st) =>
      let sub := sub <| sub_description := take 63 description |> in
      let sub := foldl subscribe_arg sub args in
      let* st := ast_event_sub_activate st sub in
      Ret (Some sub, st)
  end.

(** [AST_DLLIST_REMOVE]: the block at an address leaves the list. *)
Definition remove_sub (l : list ast_event_sub) (sub : ast_event_sub) : list ast_event_sub :=
  List.filter (fun s => negb (sub_addr s =? sub_addr sub)) l.

Definition ast_event_unsubscribe (st : events) (sub : ast_event_sub) : outcome events :=
  let* l := subs_of (subs st) (sub_type sub) in
  let st := st <| subs ::= fun s => <[Z.to_nat (sub_type sub) := remove_sub l sub]> s |> in
  let* b := ast_event_check_subscriber (subs st) AST_EVENT_UNSUB [(AST_EVENT_IE_EVENTTYPE, Uint (sub_type sub))] in
  if b then
    let* r := ast_event_new alloc_ok ast_eid_default AST_EVENT_UNSUB (sub_args sub) in queue_made st r
  else Ret st.

Fixpoint report (l : list ast_event_sub) (event_sub : ast_event_sub) : outcome (list (list Z)) :=
  match l with
  | [] => Ret []
  | sub :: l =>
      if sub_addr event_sub =? sub_addr sub then report l event_sub
      else
        let* r := gen_sub_event sub in
        let* evs := report l event_sub in
        Ret (match r with Some ev => ev :: evs | None => evs end)
  end.

(** The events the callback of a subscription to subscriptions gets for those that are
    there.  The type is read from the value as a number; of a string this is the hash,
    of other data a part of a pointer, which is taken for a bad access. *)
Definition ast_event_report_subs (subs : list (list ast_event_sub)) (event_sub : ast_event_sub) : outcome (list (list Z)) :=
  if negb (sub_type event_sub =? AST_EVENT_SUB) then Ret []
  else
    match List.find (fun v => ie_type v =? AST_EVENT_IE_EVENTTYPE) (ie_vals event_sub) with
    | Some v =>
        let* event_type := match value v with Uint t | Bitflags t => Ret t | Str _ => Ret (hash v) | Exists => Ret 0 | _ => BadAccess end in
        if event_type =? 2 ^ 32 - 1 then Ret [] else let* l := subs_of subs event_type in report l event_sub
    | None => Ret []
    end.
End operations.

Definition ast_event_init : events := mk_events (replicate (Z.to_nat AST_EVENT_TOTAL) []) 0 [].

(** ** Both comparisons agree *)

(** Values of a subscription as the append functions make them. *)
Definition val_ok_for (v : ast_event_ie_val) : Prop :=
  match value v with
  | Uint n | Bitflags n => in_u 32 n
  | Str s => hash v = u32 (ast_str_hash (hashed (ie_type v) s))
  | Raw d => Z.of_nat (length d) < 2 ^ 16
  | _ => True
  end.

(** The subscription and the arguments of the event have the same type of payload for an
    element; and a value does not look like that of an element that is absent. *)
Definition same_payload (v w : ie_value) : Prop :=
  match v, w with
  | Uint _, Uint _ | Bitflags _, Bitflags _ | Str _, Str _ | Raw _, Raw _ | Exists, _ | Unknown, _ => True
  | _, _ => False
  end.

Definition compatible (v : ast_event_ie_val) (args : list (Z * ie_value)) : Prop :=
  match first_ie (ie_type v) args with
  | Some w => same_payload (value v) w
  | None =>
      ie_type v <> AST_EVENT_IE_EID /\
      match value v with Uint n => n <> 0 | Str _ => hash v <> 0 | Raw d => d <> [] | _ => True end
  end.

Lemma find_check t args :
  List.find (fun e => t =? ie_type e) (check_list args) =
    (fun v => mk_ie_val t v 0) <$> first_ie t (List.filter (fun ie => insert (snd ie)) args).
Proof.
  unfold check_list. induction (List.filter _ args) as [|[t' v] l IH]; [done|]. cbn. rewrite Z.eqb_sym.
  destruct (Z.eqb_spec t' t) as [->|]; [done|]. apply IH.
Qed.

Lemma new_args_first eid args t :
  first_ie t (new_args eid args) =
    match first_ie t (List.filter (fun ie => insert (snd ie)) args) with
    | Some v => Some v
    | None => if (t =? AST_EVENT_IE_EID) && negb (bool_decide (List.filter (fun ie => insert (snd ie)) args = [])) then Some (Raw eid) else None
    end.
Proof.
  unfold new_args. destruct (List.filter _ args) as [|ie l]; [by rewrite andb_false_r|]. rewrite andb_true_r.
  destruct (first_ie AST_EVENT_IE_EID (ie :: l)) as [v|] eqn:E.
  - destruct (first_ie t (ie :: l)) eqn:E'; [done|]. destruct (Z.eqb_spec t AST_EVENT_IE_EID) as [->|]; [congruence|done].
  - rewrite first_ie_app. cbn [first_ie]. rewrite (Z.eqb_sym AST_EVENT_IE_EID t). done.
Qed.

Lemma payload_short ies t d : fits ies -> first_ie t ies = Some d -> Z.of_nat (length d) < 2 ^ 16.
Proof.
  intros Hf H%first_in. pose proof (fits_lengths _ Hf) as Hl. rewrite Forall_forall in Hl. destruct (Hl _ H) as [_ [_ Hd]]. exact Hd.
Qed.

(** One value of a subscription against the event and against the arguments. *)
Lemma match_agree eid type args v :
  Forall value_ok args -> fits (element <$> new_args eid args) -> val_ok_for v ->
  compatible v (List.filter (fun ie => insert (snd ie)) args) ->
  match_ie_val (encode type (element <$> new_args eid args)) v None = Ret (match_sub_ie_val_to_event v (check_list args)).
Proof.
  intros Hok Hf Hv Hc. destruct (new_args_ok eid args Hok) as [Hok' Hi]. set (ev := encode _ _).
  pose proof (encode_reads_as type (new_args eid args) (ie_type v) Hok' Hi Hf) as Hr. fold ev in Hr.
  pose proof (raw_encode type _ (ie_type v) Hf) as Hraw. fold ev in Hraw. rewrite first_element in Hraw.
  rewrite new_args_first in Hr, Hraw. unfold match_sub_ie_val_to_event. rewrite find_check. unfold compatible in Hc. unfold match_ie_val, val_ok_for in *.
  destruct (first_ie (ie_type v) (List.filter _ args)) as [w|] eqn:Ew.
  - assert (Hw : insert w = true).
    { apply first_in, list_elem_of_In, filter_In in Ew as [_ Ew]. done. }
    cbn [fmap option_fmap option_map Event.payload snd] in Hraw |- *. destruct Hraw as (off & Hraw & Hd & Hlen). cbn [value].
    destruct (value v) as [n|n|s|d| |]; cbn [same_payload] in Hc.
    all: destruct w; try contradiction; try discriminate Hw; cbn [reads_as] in Hr.
    + by rewrite Hr.
    + by rewrite Hr.
    + destruct Hr as [Hs Hh]. rewrite Hh, Hs, Hv. cbn [obind].
      destruct (decide (hashed (ie_type v) s = hashed (ie_type v) s0)) as [e|Hne].
      * rewrite e, Z.eqb_refl. done.
      * rewrite !bool_decide_eq_false_2 by congruence. by case_if.
    + cbn [payload snd] in Hd, Hlen. rewrite Hlen, Hraw. cbn [obind]. rewrite wrapu_id by (unfold in_u; lia).
      destruct (Z.eqb_spec (Z.of_nat (length d)) (Z.of_nat (length data))) as [E|E]; cbn [negb].
      2:{ rewrite bool_decide_eq_false_2; [done|]. intros ->. lia. }
      destruct (Z.eqb_spec (Z.of_nat (length d)) 0) as [E0|E0].
      * destruct d; [|cbn in E0; lia]. destruct data; [done|cbn in E; lia].
      * rewrite Nat2Z.id. rewrite (holds_bytes d 0 d) by apply holds_all. cbn [obind]. rewrite E in *.
        assert (El : length d = length data) by lia. rewrite El, (holds_bytes _ _ _ Hd). done.
    + by rewrite Hraw.
    + by rewrite Hraw.
    + by rewrite Hraw.
    + by rewrite Hraw.
    + done.
    + done.
    + done.
    + done.
  - destruct Hc as [He Hc]. destruct (Z.eqb_spec (ie_type v) AST_EVENT_IE_EID); [done|]. cbn [andb fmap option_fmap option_map] in Hr, Hraw |- *.
    cbn [reads_as] in Hr. destruct Hr as (R & Rl & Ru & Rs & Rh).
    destruct (value v) as [n'|n'|s|d| |].
    + rewrite Ru. cbn [obind]. by destruct (Z.eqb_spec n' 0).
    + change (ast_event_get_ie_bitflags ev (ie_type v)) with (ast_event_get_ie_uint ev (ie_type v)).
      rewrite Ru. cbn [obind]. by rewrite Z.land_0_r.
    + rewrite Rh. cbn [obind]. by destruct (Z.eqb_spec (hash v) 0).
    + rewrite Rl. cbn [obind]. rewrite wrapu_id by (unfold in_u; lia).
      destruct (Z.eqb_spec (Z.of_nat (length d)) 0); [|done]. destruct d; [done|cbn in *; lia].
    + by rewrite R.
    + done.
Qed.

(** The values of the subscriptions that can get an event of a type fit its arguments. *)
Definition subs_fit (subs : list (list ast_event_sub)) (type : Z) (args : list (Z * ie_value)) : Prop :=
  forall t l sub v, t = type \/ t = AST_EVENT_ALL -> subs !! Z.to_nat t = Some l -> sub ∈ l -> v ∈ ie_vals sub ->
    val_ok_for v /\ compatible v (List.filter (fun ie => insert (snd ie)) args).

Definition sub_wants (args : list (Z * ie_value)) (sub : ast_event_sub) : bool :=
  forallb (fun v => match_sub_ie_val_to_event v (check_list args)) (ie_vals sub).

Section agree.
Context (eid : list Z) (type : Z) (args : list (Z * ie_value)).
Hypothesis Hok : Forall value_ok args.
Hypothesis Hfits : fits (element <$> new_args eid args).

Let ev := encode type (element <$> new_args eid args).

Lemma all_match_agree vals :
  (forall v, v ∈ vals -> val_ok_for v /\ compatible v (List.filter (fun ie => insert (snd ie)) args)) ->
  all_match ev vals = Ret (forallb (fun v => match_sub_ie_val_to_event v (check_list args)) vals).
Proof.
  induction vals as [|v vals IH]; intros H; [done|]. cbn [all_match forallb].
  destruct (H v ltac:(left)) as [Hv Hc]. unfold ev. rewrite match_agree by done. cbn [obind].
  destruct (match_sub_ie_val_to_event v _); [|done]. apply IH. intros w Hw. apply H. by right.
Qed.

Lemma matching_agree l :
  (forall sub v, sub ∈ l -> v ∈ ie_vals sub -> val_ok_for v /\ compatible v (List.filter (fun ie => insert (snd ie)) args)) ->
  matching ev l = Ret (List.filter (sub_wants args) l).
Proof.
  induction l as [|sub l IH]; intros H; [done|]. cbn [matching List.filter].
  rewrite all_match_agree by (intros v Hv; eapply H; [left|done]). cbn [obind].
  rewrite IH by (intros s v Hs Hv; eapply H; [right; exact Hs|done]). cbn [obind]. unfold sub_wants. by case_match.
Qed.
End agree.

Lemma wanted_filter args l :
  List.filter (fun ie => insert (snd ie)) args <> [] ->
  wanted (check_list args) l = negb (bool_decide (List.filter (sub_wants args) l = [])).
Proof.
  intros Hne. unfold wanted. destruct (check_list args) as [|c cs] eqn:E.
  { unfold check_list in E. by apply fmap_nil_inv in E. }
  rewrite <- E. clear Hne E. induction l as [|sub l IH]; [done|]. cbn [existsb List.filter]. fold (sub_wants args sub).
  destruct (sub_wants args sub); [done|]. exact IH.
Qed.

(** C17: [ast_event_check_subscriber] tells whether an event with the same arguments would
    reach anybody: it answers yes exactly when [handle_event] calls a callback for the
    event that [ast_event_new] makes of them.  The subscriptions that are called are, in
    order, those of the type and then those of all types whose values the arguments have.
    It is so when an argument has a value, the subscriptions use the types of payload of
    the arguments, and none of them has the value 0, an empty block or a string with hash
    0 for an element that is absent. *)
Theorem check_subscriber_predicts alloc_ok eid subs type args ev :
  0 <= type < AST_EVENT_TOTAL -> length subs = Z.to_nat AST_EVENT_TOTAL -> Forall value_ok args ->
  fits (element <$> new_args eid args) -> List.filter (fun ie => insert (snd ie)) args <> [] ->
  subs_fit subs type args -> ast_event_new alloc_ok eid type args = Ret (Some ev) ->
  exists called, handle_event subs ev = Ret called /\
    ast_event_check_subscriber subs type args = Ret (negb (bool_decide (called = []))) /\
    forall l all, subs !! Z.to_nat type = Some l -> subs !! Z.to_nat AST_EVENT_ALL = Some all ->
      called = List.filter (sub_wants args) l ++ List.filter (sub_wants args) all.
Proof.
  intros Ht Hn Hok Hf Hne Hfit Hnew.
  destruct (new_encode alloc_ok eid type args Ht Hf) as [H|[_ H]]; [|congruence].
  rewrite H in Hnew. injection Hnew as <-.
  unfold handle_event. rewrite encode_type by (unfold in_u; lia). cbn [obind]. unfold subs_of, ast_event_check_subscriber, subs_of.
  destruct (subs !! Z.to_nat type) as [l|] eqn:El; [|apply lookup_ge_None in El; lia].
  destruct (subs !! Z.to_nat AST_EVENT_ALL) as [all|] eqn:Ea; [|apply lookup_ge_None in Ea; lia].
  cbn [oaccess obind]. rewrite (matching_agree _ _ _ Hok Hf l) by (intros s v Hs Hv; apply (Hfit type l s v); auto). cbn [obind].
  rewrite (matching_agree _ _ _ Hok Hf all) by (intros s v Hs Hv; apply (Hfit AST_EVENT_ALL all s v); auto). cbn [obind].
  eexists. split; [done|]. split; [|by intros l' all' [= <-] [= <-]].
  case_if; [lia|]. rewrite !wanted_filter by done. destruct (List.filter _ l); [|done]. done.
Qed.

Definition sample_sub : ast_event_sub :=
  mk_sub 100 AST_EVENT_DEVICE_STATE 1 2 [] 0 [mk_ie_val AST_EVENT_IE_DEVICE (Str (zs "SIP/phone")) (u32 (ast_str_hash (zs "SIP/phone")))].
Definition sample_all : ast_event_sub := mk_sub 200 AST_EVENT_ALL 1 2 [] 1 [mk_ie_val 8 (Uint 3) 0].
Definition sample_subs : list (list ast_event_sub) := [[sample_all]; []; []; []; []; [sample_sub]; []; []; []; []].
Definition state_args : list (Z * ie_value) := [(AST_EVENT_IE_DEVICE, Str (zs "sip/phone")); (8, Uint 2)].

Lemma check_subscriber_predicts_witness :
  exists ev called, ast_event_new (fun _ => true) sample_eid AST_EVENT_DEVICE_STATE state_args = Ret (Some ev) /\
    handle_event sample_subs ev = Ret called /\ called = [sample_sub] /\
    ast_event_check_subscriber sample_subs AST_EVENT_DEVICE_STATE state_args = Ret true.
Proof.
  assert (Hev : exists ev, ast_event_new (fun _ => true) sample_eid AST_EVENT_DEVICE_STATE state_args = Ret (Some ev)) by (eexists; by vm_compute).
  destruct Hev as [ev Hev]. exists ev.
  destruct (check_subscriber_predicts (fun _ => true) sample_eid sample_subs AST_EVENT_DEVICE_STATE state_args ev) as (called & H1 & H2 & H3).
  - lia.
  - done.
  - repeat constructor; cbv; congruence.
  - split; [repeat constructor; cbv; congruence|by vm_compute].
  - done.
  - intros t l sub v [-> | ->] [= <-] Hs%list_elem_of_singleton Hv; subst sub; apply list_elem_of_singleton in Hv; subst v; cbn.
    + split; [by vm_compute|done].
    + split; [cbv; split; congruence|done].
  - exact Hev.
  - exists called. specialize (H3 _ _ eq_refl eq_refl). split; [exact Hev|]. split; [exact H1|]. subst called. split; [by vm_compute|exact H2].
Defined.

(** Without the condition on absent elements it is not so: a subscription to the value 0
    is called for events without the element, although [ast_event_check_subscriber] says
    that nobody wants them. *)
Lemma zero_not_predicted :
  let zero := mk_sub 300 1 1 2 [] 0 [mk_ie_val 8 (Uint 0) 0] in
  let subs := [[]; [zero]; []; []; []; []; []; []; []; []] in
  let args := [(1, Uint 5)] in
  ast_event_check_subscriber subs 1 args = Ret false /\
  exists ev, ast_event_new (fun _ => true) sample_eid 1 args = Ret (Some ev) /\ handle_event subs ev = Ret [zero].
Proof. split; [by vm_compute|]. eexists. split; vm_compute; reflexivity. Qed.

(** An event that [ast_event_queue] destroys would not have reached anybody. *)
Lemma queue_drops_unwanted ref_ok push_ok st type ies st' :
  length (subs st) = Z.to_nat AST_EVENT_TOTAL -> 0 <= type < AST_EVENT_TOTAL ->
  ast_event_queue ref_ok push_ok st (encode type ies) = Ret (0, st') ->
  queue st' = queue st ++ [encode type ies] \/ st' = st /\ handle_event (subs st) (encode type ies) = Ret [].
Proof.
  intros Hn Ht. unfold ast_event_queue. change (get16 (encode type ies) 0) with (ast_event_get_type (encode type ies)).
  unfold handle_event. rewrite encode_type by (unfold in_u; lia). cbn [obind]. unfold ast_event_check_subscriber, subs_of. case_if; [lia|].
  destruct (subs st !! Z.to_nat type) as [l|]; [|done]. destruct (subs st !! Z.to_nat AST_EVENT_ALL) as [all|] eqn:Ea; [|apply lookup_ge_None in Ea; lia].
  destruct l as [|s l]; cbn [oaccess obind wanted check_list List.filter fmap list_fmap].
  - destruct all as [|s all]; cbn [negb obind]; [intros [= <-]; by right|]. case_if; [intros [= <-]; by left|done].
  - cbn [negb]. case_if; [intros [= <-]; by left|done].
Qed.

(** ** Subscribing and unsubscribing *)

(** What a subscription keeps of an argument, and what its event tells of it. *)
Definition sub_val (arg : Z * ie_value) : ast_event_ie_val :=
  mk_ie_val (fst arg) (snd arg) (match snd arg with Str s => u32 (ast_str_hash (hashed (fst arg) s)) | _ => 0 end).

Definition known (v : ie_value) : bool := match v with Unknown => false | _ => true end.

Definition arg_ok (arg : Z * ie_value) : Prop := 0 < fst arg < AST_EVENT_IE_TOTAL.

Definition sub_element (v : ast_event_ie_val) : list (Z * list Z) :=
  match value v with
  | Unknown => []
  | Exists => [element (AST_EVENT_IE_EXISTS, Uint (ie_type v))]
  | w => [element (ie_type v, w)]
  end.

Definition sub_event_elements (eid : list Z) (sub : ast_event_sub) : list (Z * list Z) :=
  (element <$> new_args eid (sub_args sub)) ++ mjoin (sub_element <$> ie_vals sub).

Lemma subscribe_args val_ok sub args :
  Forall arg_ok args ->
  foldl (subscribe_arg val_ok) sub args = sub <| ie_vals := ie_vals sub ++ (sub_val <$> List.filter (fun a => known (snd a) && val_ok a) args) |>.
Proof.
  intros Ha. revert sub. induction Ha as [|[t v] args Ht _ IH]; intros sub; cbn [foldl List.filter fmap list_fmap].
  { rewrite app_nil_r. by destruct sub. }
  unfold arg_ok in Ht. cbn in Ht. rewrite IH.
  assert (Hs : forall v h, snd (sub_append val_ok sub t v h) = if val_ok (t, v) then sub <| ie_vals ::= fun l => l ++ [mk_ie_val t v h] |> else sub).
  { intros w h. unfold sub_append. case_if; [destruct E; zb; lia|]. by case_if. }
  destruct v; cbn [subscribe_arg known snd]; unfold ast_event_sub_append_ie_uint, ast_event_sub_append_ie_bitflags,
    ast_event_sub_append_ie_str, ast_event_sub_append_ie_raw, ast_event_sub_append_ie_exists; rewrite ?Hs; cbn [andb]; try done;
    destruct (val_ok _); try done; destruct sub; cbv [setter eta_of eta_sub]; cbn; by rewrite <- app_assoc.
Qed.

Lemma remove_fresh l sub :
  (forall s, s ∈ l -> sub_addr s <> sub_addr sub) -> remove_sub (l ++ [sub]) sub = l.
Proof.
  intros H. unfold remove_sub. rewrite List.filter_app. cbn [List.filter]. rewrite Z.eqb_refl. cbn [negb]. rewrite app_nil_r.
  induction l as [|s l IH]; [done|]. cbn [List.filter]. destruct (Z.eqb_spec (sub_addr s) (sub_addr sub)) as [E|]; [by destruct (H s ltac:(left))|].
  cbn [negb]. rewrite IH; [done|]. intros s' Hs'. apply H. by right.
Qed.

Section making.
Context (alloc_ok : Z -> bool) (ref_ok push_ok : bool) (eid : list Z).

Lemma append_sub_vals_encode type vals ies :
  fits (ies ++ mjoin (sub_element <$> vals)) ->
  append_sub_vals alloc_ok (encode type ies) vals = Ret (Some (encode type (ies ++ mjoin (sub_element <$> vals)))) \/
  append_sub_vals alloc_ok (encode type ies) vals = Ret None.
Proof.
  revert ies. induction vals as [|v vals IH]; intros ies Hf; [left; by rewrite app_nil_r|].
  change (mjoin (sub_element <$> v :: vals)) with (sub_element v ++ mjoin (sub_element <$> vals)) in *.
  rewrite app_assoc in Hf |- *. cbn [append_sub_vals].
  assert (H : append_sub_val alloc_ok (encode type ies) v = Ret (Some (encode type (ies ++ sub_element v)), 0) \/
              append_sub_val alloc_ok (encode type ies) v = Ret (None, -1)).
  { apply fits_app_l in Hf. unfold append_sub_val, sub_element in Hf |- *. destruct (value v) as [n|n|s|d| |] eqn:E.
    5:{ destruct (append_value_encode alloc_ok type ies (AST_EVENT_IE_EXISTS, Uint (ie_type v)) eq_refl Hf) as [H|[_ H]]; auto. }
    5:{ left. by rewrite app_nil_r. }
    all: match goal with Hf : context [element (_, ?w)] |- _ => destruct (append_value_encode alloc_ok type ies (ie_type v, w) eq_refl Hf) as [H|[_ H]]; auto end. }
  destruct H as [-> | ->]; cbn [obind]; [|by right]. apply IH, Hf.
Qed.

Lemma gen_sub_event_encode sub :
  fits (sub_event_elements eid sub) ->
  gen_sub_event alloc_ok eid sub = Ret (Some (encode AST_EVENT_SUB (sub_event_elements eid sub))) \/ gen_sub_event alloc_ok eid sub = Ret None.
Proof.
  intros Hf. unfold gen_sub_event.
  destruct (new_encode alloc_ok eid AST_EVENT_SUB (sub_args sub) ltac:(lia) (fits_app_l _ _ Hf)) as [->|[_ ->]]; cbn [obind]; [|by right].
  by apply append_sub_vals_encode.
Qed.

Lemma check_total st type args :
  length (subs st) = Z.to_nat AST_EVENT_TOTAL -> exists b, ast_event_check_subscriber (subs st) type args = Ret b.
Proof.
  intros Hn. unfold ast_event_check_subscriber, subs_of. case_if; [by eexists|].
  destruct (subs st !! Z.to_nat type) eqn:El; [|apply lookup_ge_None in El; lia].
  destruct (subs st !! Z.to_nat AST_EVENT_ALL) eqn:Ea; [|apply lookup_ge_None in Ea; lia]. cbn [oaccess obind].
  case_if; by eexists.
Qed.

(** Queueing what was made, if anything, leaves the subscriptions alone. *)
Lemma maybe_queued (b : bool) st type ies made :
  length (subs st) = Z.to_nat AST_EVENT_TOTAL -> in_u 16 type -> made = Ret (Some (encode type ies)) \/ made = Ret None ->
  exists st', (if b then let* r := made in queue_made ref_ok push_ok st r else Ret st) = Ret st' /\ subs st' = subs st /\
    (queue st' = queue st \/ queue st' = queue st ++ [encode type ies]).
Proof.
  intros Hn Ht Hm. destruct b; [|by eexists; eauto]. destruct Hm as [-> | ->]; cbn [obind]; [|by eexists; eauto].
  unfold queue_made, ast_event_queue.
  change (get16 (encode type ies) 0) with (ast_event_get_type (encode type ies)). rewrite encode_type by done. cbn [obind].
  case_if; [by eexists; eauto|]. destruct (check_total st type [] Hn) as [b ->]. cbn [obind].
  case_if; [by eexists; eauto|]. case_if; eexists; eauto.
Qed.

Lemma activate_correct st sub l :
  length (subs st) = Z.to_nat AST_EVENT_TOTAL -> subs st !! Z.to_nat (sub_type sub) = Some l -> fits (sub_event_elements eid sub) ->
  exists st', ast_event_sub_activate alloc_ok ref_ok push_ok eid st sub = Ret st' /\
    subs st' = <[Z.to_nat (sub_type sub) := l ++ [sub]]> (subs st) /\
    (queue st' = queue st \/ queue st' = queue st ++ [encode AST_EVENT_SUB (sub_event_elements eid sub)]).
Proof.
  intros Hn Hl Hf. unfold ast_event_sub_activate.
  destruct (check_total st AST_EVENT_SUB [(AST_EVENT_IE_EVENTTYPE, Uint (sub_type sub))] Hn) as [b ->]. cbn [obind].
  destruct (maybe_queued b st AST_EVENT_SUB (sub_event_elements eid sub) _ Hn ltac:(unfold in_u; lia) (gen_sub_event_encode sub Hf)) as (st1 & -> & Hs & Hq).
  cbn [obind]. unfold subs_of. rewrite Hs, Hl. cbn [oaccess obind]. eexists. split; [done|]. cbn. by rewrite Hs.
Qed.

Lemma unsubscribe_correct st sub l :
  length (subs st) = Z.to_nat AST_EVENT_TOTAL -> subs st !! Z.to_nat (sub_type sub) = Some l -> fits (element <$> new_args eid (sub_args sub)) ->
  exists st', ast_event_unsubscribe alloc_ok ref_ok push_ok eid st sub = Ret st' /\
    subs st' = <[Z.to_nat (sub_type sub) := remove_sub l sub]> (subs st) /\
    (queue st' = queue st \/ queue st' = queue st ++ [encode AST_EVENT_UNSUB (element <$> new_args eid (sub_args sub))]).
Proof.
  intros Hn Hl Hf. unfold ast_event_unsubscribe, subs_of. rewrite Hl. cbn [oaccess obind]. cbv [setter eta_of eta_events].
  set (st3 := mk_events _ _ _). assert (Hn3 : length (subs st3) = Z.to_nat AST_EVENT_TOTAL) by (cbn; by rewrite length_insert).
  destruct (check_total st3 AST_EVENT_UNSUB [(AST_EVENT_IE_EVENTTYPE, Uint (sub_type sub))] Hn3) as [b ->]. cbn [obind].
  apply (maybe_queued b st3 AST_EVENT_UNSUB _ _ Hn3); [unfold in_u; lia|].
  destruct (new_encode alloc_ok eid AST_EVENT_UNSUB (sub_args sub) ltac:(lia) Hf) as [H|[_ H]]; auto.
Qed.
End making.

(** Only the events that tell of the subscription were put into the queue. *)
Definition queue_grew (st st' : events) : Prop :=
  exists evs, queue st' = queue st ++ evs /\
    Forall (fun ev => ast_event_get_type ev = Ret AST_EVENT_SUB \/ ast_event_get_type ev = Ret AST_EVENT_UNSUB) evs /\ (length evs <= 2)%nat.

(** C33: if there is memory for it, subscribing puts a subscription behind the others of its
    type, with exactly the values of those arguments there is memory for (and the hashes of
    their strings), and unsubscribing takes it out again: the lists are as they were, whatever
    the allocator says to values and events.  All that both leave are events that tell of it. *)
Theorem subscribe_unsubscribe alloc_ok ref_ok push_ok val_ok eid st mem type cb userdata description args l sub :
  length (subs st) = Z.to_nat AST_EVENT_TOTAL -> 0 <= type < AST_EVENT_TOTAL -> subs st !! Z.to_nat type = Some l ->
  mem <> NULL -> (forall s, s ∈ l -> sub_addr s <> mem) -> Forall arg_ok args ->
  sub = mk_sub mem type cb userdata (take 63 description) (sub_uniqueid st) (sub_val <$> List.filter (fun a => known (snd a) && val_ok a) args) ->
  fits (sub_event_elements eid sub) ->
  exists st1 st2,
    ast_event_subscribe alloc_ok ref_ok push_ok val_ok eid st mem type cb userdata description args = Ret (Some sub, st1) /\
    subs st1 = <[Z.to_nat type := l ++ [sub]]> (subs st) /\
    ast_event_unsubscribe alloc_ok ref_ok push_ok eid st1 sub = Ret st2 /\ subs st2 = subs st /\ queue_grew st st2.
Proof.
  intros Hn Ht Hl Hm Hfresh Ha Hsub Hf.
  unfold ast_event_subscribe, ast_event_subscribe_new. case_if; [destruct E; zb; lia|]. case_if; [lia|].
  rewrite subscribe_args by done. cbv [setter eta_of eta_sub eta_events]. cbn [ie_vals sub_addr sub_type sub_cb sub_userdata sub_description sub_id app].
  rewrite <- Hsub. set (st0 := mk_events _ _ _). assert (Hst : sub_type sub = type) by by rewrite Hsub.
  destruct (activate_correct alloc_ok ref_ok push_ok eid st0 sub l Hn ltac:(by rewrite Hst) Hf) as (st1 & -> & Hs1 & Hq1).
  cbn [obind]. rewrite Hst in Hs1. change (subs st0) with (subs st) in Hs1. change (queue st0) with (queue st) in Hq1.
  pose proof (lookup_lt_Some _ _ _ Hl) as Hlt.
  destruct (unsubscribe_correct alloc_ok ref_ok push_ok eid st1 sub (l ++ [sub])) as (st4 & H4 & Hs4 & Hq4).
  { by rewrite Hs1, length_insert. }
  { rewrite Hst, Hs1. by apply list_lookup_insert_eq. }
  { by apply fits_app_l in Hf. }
  rewrite remove_fresh in Hs4 by (rewrite Hsub; exact Hfresh).
  exists st1, st4. do 3 (split; [done|]). split; [by rewrite Hs4, Hs1, Hst, list_insert_insert_eq, list_insert_id|]. unfold queue_grew.
  set (e1 := encode AST_EVENT_SUB _) in *. set (e2 := encode AST_EVENT_UNSUB _) in *.
  assert (T1 : ast_event_get_type e1 = Ret AST_EVENT_SUB) by (apply encode_type; unfold in_u; lia).
  assert (T2 : ast_event_get_type e2 = Ret AST_EVENT_UNSUB) by (apply encode_type; unfold in_u; lia).
  destruct Hq1 as [E1|E1], Hq4 as [E4|E4]; rewrite E4, E1.
  - exists []. rewrite app_nil_r, Forall_nil. cbn. auto.
  - exists [e2]. rewrite Forall_cons, Forall_nil. cbn. auto.
  - exists [e1]. rewrite Forall_cons, Forall_nil. cbn. auto.
  - exists [e1; e2]. rewrite <- app_assoc, !Forall_cons, Forall_nil. cbn. auto 6.
Qed.

Definition sample_state : events := mk_events sample_subs 2 [].

Lemma subscribe_unsubscribe_witness :
  exists sub st1 st2,
    ast_event_subscribe (fun _ => true) true true (fun a => fst a =? AST_EVENT_IE_DEVICE) sample_eid sample_state 400 AST_EVENT_DEVICE_STATE 1 2 (zs "watch") [(AST_EVENT_IE_DEVICE, Str (zs "sip/x")); (AST_EVENT_IE_CONTEXT, Str (zs "x"))]
      = Ret (Some sub, st1) /\ ast_event_unsubscribe (fun _ => true) true true sample_eid st1 sub = Ret st2 /\ subs st2 = sample_subs.
Proof.
  eexists. edestruct (subscribe_unsubscribe (fun _ => true) true true (fun a => fst a =? AST_EVENT_IE_DEVICE) sample_eid sample_state 400 AST_EVENT_DEVICE_STATE 1 2 (zs "watch") [(AST_EVENT_IE_DEVICE, Str (zs "sip/x")); (AST_EVENT_IE_CONTEXT, Str (zs "x"))] [sample_sub])
    as (st1 & st2 & H1 & _ & H2 & H3 & _).
  - done.
  - lia.
  - done.
  - lia.
  - intros s Hs%list_elem_of_singleton. by subst s.
  - by repeat constructor.
  - reflexivity.
  - split; [repeat constructor; cbv; congruence|by vm_compute].
  - exists st1, st2. split; [exact H1|]. split; [exact H2|exact H3].
Defined.
