(* ===== verification/EventCache.v ===== *)
(** * The cache of events ([main/event.c])

    Events of some types are kept in a cache: the last one for every value of the elements
    that tell what the event is about.  This file models the tables of event types and
    elements, hashing and comparing events, and the cache, and shows that it is a map from
    the values of those elements to the last event.

    The cache of a type is a container of astobj2.c.  Astobj2Search.v shows what the
    operations used here do on a container: a callback with a key goes through the bucket
    of its hash, linking puts an object behind those of its bucket.  Here a container is
    its buckets, and an object its event. *)

From Stdlib Require Import ZArith Lia.
From stdpp Require Import base list numbers strings.
From S2P Require Import Event EventSub Prelude.

#[local] Open Scope Z_scope.
#[local] Open Scope outcome_scope.

(** ** Tables *)

Inductive ie_pltype := PLTYPE_UNKNOWN | PLTYPE_EXISTS | PLTYPE_UINT | PLTYPE_STR | PLTYPE_RAW | PLTYPE_BITFLAGS.

#[local] Open Scope string_scope.

Definition event_names : list string :=
  ["All"; "Custom"; "MWI"; "Subscription"; "Unsubscription"; "DeviceState"; "DeviceStateChange"; "CEL"; "Security"; "NetworkChange"].

(** The rows; those without an entry are zero. *)
Definition ie_maps : list (ie_pltype * option string) :=
  [(PLTYPE_EXISTS, None); (PLTYPE_UINT, Some "NewMessages"); (PLTYPE_UINT, Some "OldMessages");
   (PLTYPE_STR, Some "Mailbox"); (PLTYPE_UINT, Some "UniqueID"); (PLTYPE_UINT, Some "EventType");
   (PLTYPE_UINT, Some "Exists"); (PLTYPE_STR, Some "Device"); (PLTYPE_UINT, Some "State");
   (PLTYPE_STR, Some "Context"); (PLTYPE_UINT, Some "CELEventType"); (PLTYPE_UINT, Some "CELEventTime");
   (PLTYPE_UINT, Some "CELEventTimeUSec"); (PLTYPE_UINT, Some "CELUserEventName"); (PLTYPE_STR, Some "CELCIDName");
   (PLTYPE_STR, Some "CELCIDNum"); (PLTYPE_STR, Some "CELExten"); (PLTYPE_STR, Some "CELContext");
   (PLTYPE_STR, Some "CELChanName"); (PLTYPE_STR, Some "CELAppName"); (PLTYPE_STR, Some "CELAppData");
   (PLTYPE_STR, Some "CELAMAFlags"); (PLTYPE_UINT, Some "CELAcctCode"); (PLTYPE_STR, Some "CELUniqueID");
   (PLTYPE_STR, Some "CELUserField"); (PLTYPE_STR, Some "CELCIDani"); (PLTYPE_STR, Some "CELCIDrdnis");
   (PLTYPE_STR, Some "CELCIDdnid"); (PLTYPE_STR, Some "CELPeer"); (PLTYPE_STR, Some "CELLinkedID");
   (PLTYPE_STR, Some "CELPeerAcct"); (PLTYPE_STR, Some "CELExtra"); (PLTYPE_EXISTS, None);
   (PLTYPE_RAW, Some "EntityID"); (PLTYPE_STR, Some "SecurityEvent"); (PLTYPE_UINT, Some "EventVersion");
   (PLTYPE_STR, Some "Service"); (PLTYPE_STR, Some "Module"); (PLTYPE_STR, Some "AccountID");
   (PLTYPE_STR, Some "SessionID"); (PLTYPE_STR, Some "SessionTV"); (PLTYPE_STR, Some "ACLName");
   (PLTYPE_STR, Some "LocalAddress"); (PLTYPE_STR, Some "RemoteAddress"); (PLTYPE_STR, Some "EventTV");
   (PLTYPE_STR, Some "RequestType"); (PLTYPE_STR, Some "RequestParams"); (PLTYPE_STR, Some "AuthMethod");
   (PLTYPE_STR, Some "Severity"); (PLTYPE_STR, Some "ExpectedAddress"); (PLTYPE_STR, Some "Challenge");
   (PLTYPE_STR, Some "Response"); (PLTYPE_STR, Some "ExpectedResponse"); (PLTYPE_UINT, Some "Cachable")].

#[local] Close Scope string_scope.

(** [None] is [NULL]. *)
Definition ast_event_get_type_name (ev : list Z) : outcome str :=
  let* type := ast_event_get_type ev in
  Ret (match event_names !! Z.to_nat type with Some n => zs n | None => [] end).

Fixpoint str_to_type (names : list string) (i : Z) (s : str) : option Z :=
  match names with [] => None | n :: names => if same_name (zs n) s then Some i else str_to_type names (i + 1) s end.

Definition ast_event_str_to_event_type (s : str) : option Z := str_to_type event_names 0 s.

Definition ast_event_get_ie_type_name (t : Z) : option str :=
  if (t <=? 0) || (t >=? AST_EVENT_IE_TOTAL) then Some []
  else match ie_maps !! Z.to_nat t with Some (_, n) => zs <$> n | None => None end.

Definition ast_event_get_ie_pltype (t : Z) : ie_pltype :=
  if (t <=? 0) || (t >=? AST_EVENT_IE_TOTAL) then PLTYPE_UNKNOWN
  else match ie_maps !! Z.to_nat t with Some (p, _) => p | None => PLTYPE_UNKNOWN end.

(** The loop compares every name with the string, also one that is [NULL]. *)
Fixpoint str_to_ie (rows : list (ie_pltype * option string)) (i : Z) (s : str) : outcome (option Z) :=
  match rows with
  | [] => Ret None
  | (_, None) :: _ => BadAccess
  | (_, Some n) :: rows => if same_name (zs n) s then Ret (Some i) else str_to_ie rows (i + 1) s
  end.

Definition ast_event_str_to_ie_type (s : str) : outcome (option Z) := str_to_ie ie_maps 0 s.

Definition cached_type (type : Z) : bool :=
  (type =? AST_EVENT_MWI) || (type =? AST_EVENT_DEVICE_STATE) || (type =? AST_EVENT_DEVICE_STATE_CHANGE).

(** [cache_args] of [ast_event_cache]. *)
Definition cache_args (type : Z) : list Z :=
  if type =? AST_EVENT_MWI then [AST_EVENT_IE_MAILBOX; AST_EVENT_IE_CONTEXT]
  else if type =? AST_EVENT_DEVICE_STATE then [AST_EVENT_IE_DEVICE]
  else if type =? AST_EVENT_DEVICE_STATE_CHANGE then [AST_EVENT_IE_DEVICE; AST_EVENT_IE_EID]
  else [].

(** ** Hashing and comparing *)

(** A string function on what may be [NULL]. *)
Definition with_str {A} (s : option str) (f : str -> A) : outcome A := match s with Some s => Ret (f s) | None => BadAccess end.

Definition ast_event_hash_mwi (ev : list Z) : outcome Z :=
  let* mailbox := ast_event_get_ie_str ev AST_EVENT_IE_MAILBOX in
  let* context := ast_event_get_ie_str ev AST_EVENT_IE_CONTEXT in
  let* h := with_str mailbox ast_str_hash in
  with_str context (fun c => ast_str_hash_add c h).

Definition ast_event_hash_devstate (ev : list Z) : outcome Z :=
  let* device := ast_event_get_ie_str ev AST_EVENT_IE_DEVICE in with_str device ast_str_hash.

Definition ast_event_hash_devstate_change (ev : list Z) : outcome Z :=
  let* device := ast_event_get_ie_str ev AST_EVENT_IE_DEVICE in with_str device ast_str_hash.

Definition ast_event_hash (ev : list Z) : outcome Z :=
  let* type := ast_event_get_type ev in
  if type >=? AST_EVENT_TOTAL then BadAccess
  else if type =? AST_EVENT_MWI then ast_event_hash_mwi ev
  else if type =? AST_EVENT_DEVICE_STATE then ast_event_hash_devstate ev
  else if type =? AST_EVENT_DEVICE_STATE_CHANGE then ast_event_hash_devstate_change ev
  else Ret 0.

(** The value that [ast_event_cmp] builds: a type of payload, and zero. *)
Definition zero_value (t : Z) : ast_event_ie_val :=
  mk_ie_val t (match ast_event_get_ie_pltype t with
               | PLTYPE_UNKNOWN => Unknown | PLTYPE_EXISTS => Exists | PLTYPE_UINT => Uint 0
               | PLTYPE_STR => Str [] | PLTYPE_RAW => Raw [] | PLTYPE_BITFLAGS => Bitflags 0 end) 0.

Fixpoint same_args (ts : list Z) (ev ev2 : list Z) : outcome bool :=
  match ts with
  | [] => Ret true
  | t :: ts => let* b := match_ie_val ev (zero_value t) (Some ev2) in if b then same_args ts ev ev2 else Ret false
  end.

Definition ast_event_cmp (ev ev2 : list Z) : outcome bool :=
  let* type := ast_event_get_type ev in
  if type >=? AST_EVENT_TOTAL then BadAccess else same_args (cache_args type) ev ev2.

(** ** The cache *)

Abbreviation NUM_CACHE_BUCKETS := 563.

Abbreviation container := (list (list (list Z))).

Definition bucket_at_index (c : container) (i : Z) : outcome (list (list Z)) := if i <? 0 then BadAccess else oaccess (c !! Z.to_nat i).

Definition set_bucket (c : container) (i : Z) (b : list (list Z)) : container := <[Z.to_nat i := b]> c.

(** The events of a bucket that do not match. *)
Fixpoint without (b : list (list Z)) (ev : list Z) : outcome (list (list Z)) :=
  match b with
  | [] => Ret []
  | e :: b => let* m := ast_event_cmp e ev in let* r := without b ev in Ret (if m then r else e :: r)
  end.

(** The first event of a bucket that matches. *)
Fixpoint first_match (b : list (list Z)) (ev : list Z) : outcome (option (list Z)) :=
  match b with
  | [] => Ret None
  | e :: b => let* m := ast_event_cmp e ev in if m then Ret (Some e) else first_match b ev
  end.

(** [ao2_callback] with [OBJ_POINTER | OBJ_UNLINK | OBJ_MULTIPLE | OBJ_NODATA], [ao2_link]
    and [ao2_find]. *)
Definition unlink_matches (c : container) (ev : list Z) : outcome container :=
  let* h := ast_event_hash ev in
  let i := Z.rem h NUM_CACHE_BUCKETS in
  let* b := bucket_at_index c i in
  let* b := without b ev in
  Ret (set_bucket c i b).

Definition link (c : container) (ev : list Z) : outcome container :=
  let* h := ast_event_hash ev in
  let i := Z.rem (abs32 h) NUM_CACHE_BUCKETS in
  let* b := bucket_at_index c i in
  Ret (set_bucket c i (b ++ [ev])).

Definition find (c : container) (ev : list Z) : outcome (option (list Z)) :=
  let* h := ast_event_hash ev in
  let* b := bucket_at_index c (Z.rem h NUM_CACHE_BUCKETS) in
  first_match b ev.

(** The containers of the types. *)
Abbreviation caches := (list (option (list (list (list Z))))).

Definition cache_init : caches :=
  (fun type => if cached_type (Z.of_nat type) then Some (replicate (Z.to_nat NUM_CACHE_BUCKETS) []) else None) <$> seq 0 (Z.to_nat AST_EVENT_TOTAL).

Section operations.
(** [ref_ok]: there is memory for the object and its entry in the bucket. *)
Context (alloc_ok : Z -> bool) (ref_ok push_ok : bool) (ast_eid_default : list Z).

Definition event_update_cache (cache : container) (ev : list Z) : outcome container :=
  let* cache := unlink_matches cache ev in
  let* dup_event := ast_event_dup alloc_ok ev in
  match dup_event with
  | Some d => if ref_ok then link cache d else Ret cache
  | None => Ret cache
  end.

(** The appends of [ast_event_get_cached]; without memory the event is [NULL], and is
    used all the same. *)
Fixpoint append_args (ev : list Z) (args : list (Z * ie_value)) : outcome (list Z) :=
  match args with
  | [] => Ret ev
  | ie :: args =>
      let* (r, _) := append_value alloc_ok ev ie in
      match r with Some ev => append_args ev args | None => BadAccess end
  end.

Definition ast_event_get_cached (cs : caches) (type : Z) (args : list (Z * ie_value)) : outcome (option (list Z)) :=
  if type >=? AST_EVENT_TOTAL then Ret None
  else
    let* c := oaccess (cs !! Z.to_nat type) in
    match c with
    | None => Ret None
    | Some c =>
        let* r := ast_event_new alloc_ok ast_eid_default type [] in
        match r with
        | None => Ret None
        | Some cache_arg_event =>
            let* cache_arg_event := append_args cache_arg_event args in
            let* r := find c cache_arg_event in
            match r with Some ev => ast_event_dup alloc_ok ev | None => Ret None end
        end
    end.

(** The type indexes the array before [ast_event_queue] looks at it. *)
Definition ast_event_queue_and_cache (st : events) (cs : caches) (ev : list Z) : outcome (events * caches) :=
  let* type := ast_event_get_type ev in
  let* c := oaccess (cs !! Z.to_nat type) in
  let* cs := match c with
             | None => Ret cs
             | Some c => let* c := event_update_cache c ev in Ret (<[Z.to_nat type := Some c]> cs)
             end in
  let* (_, st) := ast_event_queue ref_ok push_ok st ev in
  Ret (st, cs).
End operations.

Fixpoint dump_bucket (b : list (list Z)) (vals : list ast_event_ie_val) : outcome (list (list Z)) :=
  match b with
  | [] => Ret []
  | e :: b => let* m := all_match e vals in let* r := dump_bucket b vals in Ret (if m then e :: r else r)
  end.

Fixpoint dump_buckets (c : container) (vals : list ast_event_ie_val) : outcome (list (list Z)) :=
  match c with
  | [] => Ret []
  | b :: c => let* l := dump_bucket b vals in let* r := dump_buckets c vals in Ret (l ++ r)
  end.

(** The events the callback of the subscription is called for. *)
Definition ast_event_dump_cache (cs : caches) (event_sub : ast_event_sub) : outcome (list (list Z)) :=
  let* c := oaccess (cs !! Z.to_nat (sub_type event_sub)) in
  match c with Some c => dump_buckets c (ie_vals event_sub) | None => Ret [] end.

(** ** Names *)

Lemma event_names_roundtrip i n : event_names !! i = Some n -> ast_event_str_to_event_type (zs n) = Some (Z.of_nat i).
Proof. intros H. do 10 (destruct i as [|i]; [injection H as <-; by vm_compute|]). done. Qed.

(** Looking up the type of an element by its name reads a name that is not there: the
    rows of type 0 and of the description have none. *)
Lemma str_to_ie_type_null s : ast_event_str_to_ie_type s = BadAccess.
Proof. done. Qed.

Lemma description_has_no_name : ast_event_get_ie_type_name AST_EVENT_IE_DESCRIPTION = None.
Proof. by vm_compute. Qed.

(** ** Keys *)

(** What the elements of an event say about the elements of a key. *)
Definition key (type : Z) (args : list (Z * ie_value)) : list (option ie_value) := (fun t => first_ie t args) <$> cache_args type.

Definition key_value_ok (t : Z) (v : option ie_value) : Prop :=
  match ast_event_get_ie_pltype t, v with
  | PLTYPE_STR, Some (Str s) => hashed t s = s
  | PLTYPE_RAW, Some (Raw _) => True
  | _, _ => False
  end.

(** The hash of the key. *)
Definition key_hash (type : Z) (args : list (Z * ie_value)) : Z :=
  let name t := match first_ie t args with Some (Str s) => s | _ => [] end in
  if type =? AST_EVENT_MWI then ast_str_hash_add (name AST_EVENT_IE_CONTEXT) (ast_str_hash (name AST_EVENT_IE_MAILBOX))
  else ast_str_hash (name AST_EVENT_IE_DEVICE).

(** Events the cache can keep: the elements of the key are there, with device names whose
    technology is in upper case, and the hash has an absolute value. *)
Record cachable (type : Z) (args : list (Z * ie_value)) : Prop := {
  ca_values : Forall value_ok args;
  ca_insert : Forall (fun ie => insert (snd ie) = true) args;
  ca_fits : fits (element <$> args);
  ca_key : Forall (fun t => key_value_ok t (first_ie t args)) (cache_args type);
  ca_hash : key_hash type args <> - 2 ^ 31
}.

Definition event_of (type : Z) (args : list (Z * ie_value)) : list Z := encode type (element <$> args).

Lemma cached_type_cases type : cached_type type = true -> type = AST_EVENT_MWI \/ type = AST_EVENT_DEVICE_STATE \/ type = AST_EVENT_DEVICE_STATE_CHANGE.
Proof. unfold cached_type. intros H. zb. destruct H as [H|H]; [|zb; auto]. apply orb_true_iff in H as [H|H]; zb; auto. Qed.

Lemma abs32_range h : in_s 32 h -> in_s 32 (abs32 h) /\ (0 <= abs32 h \/ abs32 h = - 2 ^ 31).
Proof.
  intros H. split; [by apply wraps_range|]. unfold in_s in H. change (2 ^ (32 - 1)) with (2 ^ 31) in H. unfold abs32.
  destruct (Z.eq_dec h (- 2 ^ 31)) as [->|]; [by right|]. left. rewrite wraps_id by (unfold in_s; change (2 ^ (32 - 1)) with (2 ^ 31); lia). lia.
Qed.

Lemma str_hash_add_range s h : in_s 32 h -> in_s 32 (ast_str_hash_add s h) /\ (0 <= ast_str_hash_add s h \/ ast_str_hash_add s h = - 2 ^ 31).
Proof.
  intros H. apply abs32_range. revert h H. induction s as [|c s IH]; intros h H; [done|]. cbn. apply IH. by apply wraps_range.
Qed.

Lemma str_hash_range s : in_s 32 (ast_str_hash s) /\ (0 <= ast_str_hash s \/ ast_str_hash s = - 2 ^ 31).
Proof. apply str_hash_add_range. done. Qed.

Lemma key_hash_range type args : key_hash type args <> - 2 ^ 31 -> 0 <= key_hash type args < 2 ^ 31.
Proof.
  unfold key_hash. intros H.
  assert (R : forall h, in_s 32 h /\ (0 <= h \/ h = - 2 ^ 31) -> h <> - 2 ^ 31 -> 0 <= h < 2 ^ 31).
  { unfold in_s. change (2 ^ (32 - 1)) with (2 ^ 31). lia. }
  destruct (type =? AST_EVENT_MWI).
  - apply R; [|done]. apply str_hash_add_range. apply str_hash_range.
  - apply R; [|done]. apply str_hash_range.
Qed.

(** Membership in a list of constants. *)
Ltac in_list := apply list_elem_of_In; cbn; auto.

(** The hash of an event is that of its key. *)
Section cached.
Context (type : Z) (Htype : cached_type type = true).

Lemma type_range : 0 <= type < AST_EVENT_TOTAL.
Proof. destruct (cached_type_cases _ Htype) as [-> | [-> | ->]]; lia. Qed.

Lemma event_type args : ast_event_get_type (event_of type args) = Ret type.
Proof. apply encode_type. pose proof type_range. unfold in_u. lia. Qed.

Lemma key_str args t : cachable type args -> t ∈ cache_args type -> ast_event_get_ie_pltype t = PLTYPE_STR ->
  exists s, first_ie t args = Some (Str s) /\ hashed t s = s /\ ast_event_get_ie_str (event_of type args) t = Ret (Some s) /\
    ast_event_get_ie_str_hash (event_of type args) t = Ret (u32 (ast_str_hash s)).
Proof.
  intros [Hv Hi Hf Hk _] Ht Hp. rewrite Forall_forall in Hk. specialize (Hk _ Ht). unfold key_value_ok in Hk. rewrite Hp in Hk.
  pose proof (encode_reads_as type args t Hv Hi Hf) as Hr. destruct (first_ie t args) as [[]|]; try done.
  exists s. cbn [reads_as] in Hr. rewrite Hk in Hr. destruct Hr. done.
Qed.

Lemma hash_key args : cachable type args -> ast_event_hash (event_of type args) = Ret (key_hash type args).
Proof.
  intros Hc. unfold ast_event_hash. rewrite event_type. cbn [obind]. pose proof type_range. case_if; [lia|].
  unfold key_hash. destruct (cached_type_cases _ Htype) as [Et|[Et|Et]].
  - destruct (key_str args AST_EVENT_IE_MAILBOX Hc ltac:(rewrite Et; in_list) eq_refl) as (s & -> & _ & Hs & _).
    destruct (key_str args AST_EVENT_IE_CONTEXT Hc ltac:(rewrite Et; in_list) eq_refl) as (c & -> & _ & Hc' & _).
    unfold ast_event_hash_mwi. rewrite Hs, Hc'. by rewrite Et.
  - destruct (key_str args AST_EVENT_IE_DEVICE Hc ltac:(rewrite Et; in_list) eq_refl) as (s & -> & _ & Hs & _).
    unfold ast_event_hash_devstate. rewrite Hs. by rewrite Et.
  - destruct (key_str args AST_EVENT_IE_DEVICE Hc ltac:(rewrite Et; in_list) eq_refl) as (s & -> & _ & Hs & _).
    unfold ast_event_hash_devstate, ast_event_hash_devstate_change. rewrite Hs. by rewrite Et.
Qed.

Lemma same_key_hash a b : key type a = key type b -> key_hash type a = key_hash type b.
Proof.
  unfold key, key_hash. destruct (cached_type_cases _ Htype) as [-> | [-> | ->]]; cbn; intros E.
  - injection E as E1 E2. by rewrite E1, E2.
  - injection E as E1. by rewrite E1.
  - injection E as E1 _. by rewrite E1.
Qed.

(** Two events are compared by their keys. *)
Lemma match_zero a b t :
  cachable type a -> cachable type b -> t ∈ cache_args type ->
  match_ie_val (event_of type a) (zero_value t) (Some (event_of type b)) = Ret (bool_decide (first_ie t a = first_ie t b)).
Proof.
  intros Ha Hb Ht. assert (Hk : key_value_ok t (first_ie t a)) by (pose proof (ca_key _ _ Ha) as H; rewrite Forall_forall in H; auto).
  unfold match_ie_val, zero_value. cbn [ie_type value]. unfold key_value_ok in Hk. destruct (ast_event_get_ie_pltype t) eqn:Ep; try done.
  - destruct (key_str a t Ha Ht Ep) as (s & -> & Hs & Rs & Rh). destruct (key_str b t Hb Ht Ep) as (s' & -> & Hs' & Rs' & Rh').
    rewrite Rh, Rh'. cbn [obind]. rewrite Rs, Rs'. cbn [obind]. rewrite Hs, Hs'.
    destruct (decide (s = s')) as [->|Hne]; [by rewrite Z.eqb_refl, !bool_decide_eq_true_2|].
    rewrite !bool_decide_eq_false_2 by congruence. by case_if.
  - assert (R : forall c, cachable type c -> exists d off, first_ie t c = Some (Raw d) /\ ast_event_get_ie_raw (event_of type c) t = Ret (Some off) /\
        ast_event_get_ie_raw_payload_len (event_of type c) t = Ret (Z.of_nat (length d)) /\ bytes_at (event_of type c) off (length d) = Ret d).
    { intros c [Hv Hi Hf Hkc _]. rewrite Forall_forall in Hkc. specialize (Hkc _ Ht). unfold key_value_ok in Hkc. rewrite Ep in Hkc.
      pose proof (encode_reads_as type c t Hv Hi Hf) as Hr. destruct (first_ie t c) as [[]|]; try done. destruct Hr as (off & Hr). eauto. }
    destruct (R a Ha) as (d & off & -> & -> & -> & Hd). destruct (R b Hb) as (d' & off' & -> & -> & -> & Hd'). cbn [obind].
    destruct (Z.eqb_spec (Z.of_nat (length d')) (Z.of_nat (length d))) as [E|E]; cbn [negb].
    + case_if.
      * destruct d; [|cbn in *; lia]. destruct d'; [done|cbn in *; lia].
      * rewrite Nat2Z.id, Hd'. cbn [obind]. assert (El : length d' = length d) by lia. rewrite El, Hd. cbn [obind].
        f_equal. apply bool_decide_ext. split; congruence.
    + rewrite bool_decide_eq_false_2; [done|]. intros [= ->]. lia.
Qed.

Lemma same_args_key a b ts :
  cachable type a -> cachable type b -> (forall t, t ∈ ts -> t ∈ cache_args type) ->
  same_args ts (event_of type a) (event_of type b) = Ret (bool_decide ((fun t => first_ie t a) <$> ts = (fun t => first_ie t b) <$> ts)).
Proof.
  intros Ha Hb. induction ts as [|t ts IH]; intros Hin; [done|]. cbn [same_args].
  rewrite match_zero by (done || (apply Hin; left)). cbn [obind]. rewrite !fmap_cons. destruct (decide (first_ie t a = first_ie t b)) as [E'|E'].
  - rewrite (bool_decide_eq_true_2 _ E'). rewrite IH by (intros u Hu; apply Hin; by right). f_equal. apply bool_decide_ext. rewrite E'. split; congruence.
  - rewrite (bool_decide_eq_false_2 _ E'). rewrite bool_decide_eq_false_2; [done|congruence].
Qed.

Lemma cmp_key a b :
  cachable type a -> cachable type b -> ast_event_cmp (event_of type a) (event_of type b) = Ret (bool_decide (key type a = key type b)).
Proof.
  intros Ha Hb. unfold ast_event_cmp. rewrite event_type. cbn [obind]. pose proof type_range. case_if; [lia|]. by apply same_args_key.
Qed.

(** ** The cache as a map *)

(** The bucket of a key, and the events of the cache with their arguments. *)
Definition key_bucket (args : list (Z * ie_value)) : nat := Z.to_nat (Z.rem (key_hash type args) NUM_CACHE_BUCKETS).

Definition holds_args (l : list (list (list (Z * ie_value)))) : container := fmap (M := list) (fun b : list (list (Z * ie_value)) => event_of type <$> b) l.

Definition has_key (args a : list (Z * ie_value)) : bool := bool_decide (key type a = key type args).

(** The state of a cache after some events: in every bucket the last event of each key of
    the bucket. *)
Record cache_state (l : list (list (list (Z * ie_value)))) (seen : list (list (Z * ie_value))) : Prop := {
  cs_length : length l = Z.to_nat NUM_CACHE_BUCKETS;
  cs_cachable i b a : l !! i = Some b -> a ∈ b -> cachable type a /\ key_bucket a = i;
  cs_last i b k : l !! i = Some b -> key_bucket k = i -> List.filter (has_key k) b = option_list (last (List.filter (has_key k) seen))
}.

Lemma key_bucket_range args : cachable type args -> 0 <= Z.rem (key_hash type args) NUM_CACHE_BUCKETS < NUM_CACHE_BUCKETS.
Proof. intros Hc. pose proof (key_hash_range type args (ca_hash _ _ Hc)). apply Z.rem_bound_pos; lia. Qed.

Lemma bucket_there l args :
  cachable type args -> length l = Z.to_nat NUM_CACHE_BUCKETS ->
  exists b, l !! key_bucket args = Some b /\
    bucket_at_index (holds_args l) (Z.rem (key_hash type args) NUM_CACHE_BUCKETS) = Ret (event_of type <$> b).
Proof.
  intros Hc Hl. pose proof (key_bucket_range _ Hc) as Hr. unfold key_bucket, bucket_at_index, holds_args.
  destruct (Z.ltb_spec (Z.rem (key_hash type args) NUM_CACHE_BUCKETS) 0); [lia|].
  destruct (l !! Z.to_nat (Z.rem (key_hash type args) NUM_CACHE_BUCKETS)) as [b|] eqn:Eb; [|apply lookup_ge_None in Eb; lia].
  exists b. rewrite list_lookup_fmap, Eb. done.
Qed.

Lemma without_key b args :
  cachable type args -> Forall (cachable type) b ->
  without (event_of type <$> b) (event_of type args) = Ret (event_of type <$> List.filter (fun a => negb (has_key args a)) b).
Proof.
  intros Hc Hb. induction Hb as [|a b Ha _ IH]; [done|]. rewrite fmap_cons. cbn [without List.filter]. rewrite cmp_key by done. cbn [obind].
  rewrite IH. cbn [obind]. fold (has_key args a). by destruct (has_key args a).
Qed.

Lemma first_match_key b args :
  cachable type args -> Forall (cachable type) b ->
  first_match (event_of type <$> b) (event_of type args) = Ret (event_of type <$> head (List.filter (has_key args) b)).
Proof.
  intros Hc Hb. induction Hb as [|a b Ha _ IH]; [done|]. rewrite fmap_cons. cbn [first_match List.filter]. rewrite cmp_key by done. cbn [obind].
  fold (has_key args a). destruct (has_key args a); [done|]. exact IH.
Qed.

Lemma set_bucket_args l args b :
  set_bucket (holds_args l) (Z.rem (key_hash type args) NUM_CACHE_BUCKETS) (event_of type <$> b) = holds_args (<[key_bucket args := b]> l).
Proof. unfold set_bucket, holds_args. by rewrite list_fmap_insert. Qed.

Lemma abs_key_hash args : cachable type args -> abs32 (key_hash type args) = key_hash type args.
Proof.
  intros Hc. pose proof (key_hash_range type args (ca_hash _ _ Hc)). unfold abs32. rewrite Z.abs_eq, wraps_id; [done|lia|unfold in_s; lia|lia].
Qed.

Lemma same_key_bucket a b : key type a = key type b -> key_bucket a = key_bucket b.
Proof. intros H. unfold key_bucket. by rewrite (same_key_hash _ _ H). Qed.

Lemma filter_last {A} (f : A -> bool) (l : list A) x : last (List.filter f (l ++ [x])) = if f x then Some x else last (List.filter f l).
Proof. rewrite List.filter_app. cbn. destruct (f x); [apply last_snoc|by rewrite app_nil_r]. Qed.

Lemma filter_other {A} (f g : A -> bool) (l : list A) :
  (forall x, f x = true -> g x = false) -> List.filter g (List.filter (fun x => negb (f x)) l) = List.filter g l.
Proof.
  intros H. induction l as [|x l IH]; [done|]. cbn. destruct (f x) eqn:E; cbn; rewrite IH; [by rewrite (H _ E)|done].
Qed.

Lemma filter_same {A} (f g : A -> bool) (l : list A) :
  (forall x, g x = f x) -> List.filter g (List.filter (fun x => negb (f x)) l) = [].
Proof. intros H. induction l as [|x l IH]; [done|]. cbn. destruct (f x) eqn:E; cbn; [done|]. by rewrite H, E. Qed.

Section update.
Context (alloc_ok : Z -> bool) (eid : list Z) (Halloc : forall size, alloc_ok size = true).

(** Putting an event in the cache. *)
Lemma update_cache l seen a :
  cache_state l seen -> cachable type a ->
  exists l', event_update_cache alloc_ok true (holds_args l) (event_of type a) = Ret (holds_args l') /\ cache_state l' (seen ++ [a]).
Proof.
  intros [Hl Hc Hlast] Ha. destruct (bucket_there l a Ha Hl) as (b & Hb & Eb).
  assert (Hcb : Forall (cachable type) b) by (apply Forall_forall; intros x Hx; by apply (Hc _ _ _ Hb Hx)).
  set (b1 := List.filter (fun x => negb (has_key a x)) b).
  assert (Hl1 : length (<[key_bucket a := b1]> l) = Z.to_nat NUM_CACHE_BUCKETS) by by rewrite length_insert.
  pose proof (lookup_lt_Some _ _ _ Hb) as Hlt.
  exists (<[key_bucket a := b1 ++ [a]]> l). split.
  - unfold event_update_cache, unlink_matches. rewrite hash_key by done. cbn [obind]. rewrite Eb. cbn [obind].
    rewrite without_key by done. cbn [obind]. fold b1. rewrite set_bucket_args. pose proof (dup_encode alloc_ok type (element <$> a) (ca_fits _ _ Ha) Halloc) as Hd.
    fold (event_of type a) in Hd. rewrite Hd. cbn [obind]. unfold link. rewrite hash_key by done. cbn [obind]. rewrite abs_key_hash by done.
    destruct (bucket_there _ a Ha Hl1) as (b' & Hb' & ->). rewrite list_lookup_insert_eq in Hb' by done. injection Hb' as <-. cbn [obind].
    change [event_of type a] with (event_of type <$> [a]). by rewrite <- fmap_app, set_bucket_args, list_insert_insert_eq.
  - split; [by rewrite length_insert|..].
    + intros i c x Hi Hx. destruct (decide (i = key_bucket a)) as [->|Hne].
      * rewrite list_lookup_insert_eq in Hi by done. injection Hi as <-. apply elem_of_app in Hx as [Hx|Hx%list_elem_of_singleton]; [|by subst x].
        apply (Hc _ _ _ Hb). apply list_elem_of_In, filter_In in Hx as [Hx _]. by apply list_elem_of_In.
      * rewrite list_lookup_insert_ne in Hi by done. by apply (Hc i c).
    + intros i c k Hi Hk. rewrite filter_last. destruct (decide (i = key_bucket a)) as [E|Hne].
      * rewrite E, list_lookup_insert_eq in Hi by done. injection Hi as <-. rewrite List.filter_app. unfold b1.
        destruct (has_key k a) eqn:Eka; cbn [List.filter]; rewrite Eka.
        -- rewrite filter_same; [done|]. apply bool_decide_eq_true in Eka. intros x. unfold has_key. by rewrite Eka.
        -- rewrite app_nil_r, filter_other by (intros x Hx%bool_decide_eq_true; unfold has_key in *; by rewrite Hx). apply (Hlast (key_bucket a) b); [done|congruence].
      * rewrite list_lookup_insert_ne in Hi by done. assert (Ek : has_key k a = false).
        { apply bool_decide_eq_false_2. intros Ek%same_key_bucket. congruence. }
        rewrite Ek. by apply (Hlast i).
Qed.

Lemma update_all seen l events :
  cache_state l seen -> Forall (cachable type) events ->
  exists l', ofold (event_update_cache alloc_ok true) (holds_args l) (event_of type <$> events) = Ret (holds_args l') /\ cache_state l' (seen ++ events).
Proof.
  intros Hs He. revert l seen Hs. induction He as [|a events Ha _ IH]; intros l seen Hs; [exists l; by rewrite app_nil_r|].
  destruct (update_cache l seen a Hs Ha) as (l1 & E & Hs1). destruct (IH l1 _ Hs1) as (l2 & E2 & Hs2). exists l2.
  rewrite fmap_cons. cbn [ofold]. rewrite E. cbn [obind]. split; [exact E2|]. by rewrite <- app_assoc in Hs2.
Qed.

Lemma empty_state : cache_state (replicate (Z.to_nat NUM_CACHE_BUCKETS) []) [].
Proof.
  split; [done|..].
  - intros i b a [Hb _]%lookup_replicate Ha. rewrite Hb in Ha. by apply elem_of_nil in Ha.
  - intros i b k [Hb _]%lookup_replicate _. by rewrite Hb.
Qed.

(** Looking for an event. *)
Lemma find_cached l seen q :
  cache_state l seen -> cachable type q -> find (holds_args l) (event_of type q) = Ret (event_of type <$> last (List.filter (has_key q) seen)).
Proof.
  intros [Hl Hc Hlast] Hq. destruct (bucket_there l q Hq Hl) as (b & Hb & Eb). unfold find. rewrite hash_key by done. cbn [obind]. rewrite Eb. cbn [obind].
  rewrite first_match_key; [|done|apply Forall_forall; intros x Hx; by apply (Hc _ _ _ Hb Hx)].
  rewrite (Hlast _ _ _ Hb eq_refl). by destruct (last _).
Qed.

Lemma last_cachable l seen q a :
  cache_state l seen -> cachable type q -> last (List.filter (has_key q) seen) = Some a -> cachable type a.
Proof.
  intros [Hl Hc Hlast] Hq Ha. destruct (bucket_there l q Hq Hl) as (b & Hb & _). specialize (Hlast _ _ _ Hb eq_refl). rewrite Ha in Hlast.
  apply (Hc _ _ a Hb). assert (Hin : a ∈ List.filter (has_key q) b) by (rewrite Hlast; left).
  apply list_elem_of_In, filter_In in Hin as [Hin _]. by apply list_elem_of_In.
Qed.

Lemma append_args_encode args ies :
  Forall (fun ie => insert (snd ie) = true) args -> fits (ies ++ (element <$> args)) ->
  append_args alloc_ok (encode type ies) args = Ret (encode type (ies ++ (element <$> args))).
Proof.
  intros Ha. revert ies. induction Ha as [|ie args Hie _ IH]; intros ies Hf; [by rewrite app_nil_r|].
  rewrite fmap_cons, cons_middle, app_assoc in Hf |- *. cbn [append_args].
  destruct (append_value_encode alloc_ok type ies ie Hie (fits_app_l _ _ Hf)) as [->|[[size H] _]]; [|by rewrite Halloc in H].
  cbn [obind]. by apply IH.
Qed.

Lemma get_cached_state cs l seen q :
  cs !! Z.to_nat type = Some (Some (holds_args l)) -> cache_state l seen -> cachable type q ->
  ast_event_get_cached alloc_ok eid cs type q = Ret (event_of type <$> last (List.filter (has_key q) seen)).
Proof.
  intros Hcs Hs Hq. unfold ast_event_get_cached. pose proof type_range. case_if; [lia|]. rewrite Hcs. cbn [oaccess obind].
  destruct (new_encode alloc_ok eid type [] type_range) as [->|[[size H'] _]]; [by split; [constructor|]| |by rewrite Halloc in H'].
  cbn [obind]. pose proof (append_args_encode q [] (ca_insert _ _ Hq) (ca_fits _ _ Hq)) as Ea. cbn [app] in Ea.
  change (encode type (element <$> new_args eid [])) with (encode type []). rewrite Ea. cbn [obind].
  change (encode type (element <$> q)) with (event_of type q). rewrite (find_cached l seen q) by done. cbn [obind].
  destruct (last (List.filter (has_key q) seen)) as [a|] eqn:El; [|done]. cbn [fmap option_fmap option_map].
  apply dup_encode; [|done].
  apply (ca_fits type). by apply (last_cachable l seen q).
Qed.
End update.
End cached.

(** ** Sequences of events *)

(** The events of a type among those that were cached. *)
Definition of_type (type : Z) (hist : list (Z * list (Z * ie_value))) : list (list (Z * ie_value)) :=
  snd <$> List.filter (fun x => fst x =? type) hist.

Definition caches_ok (cs : caches) (hist : list (Z * list (Z * ie_value))) : Prop :=
  forall type, cached_type type = true ->
    exists l, cs !! Z.to_nat type = Some (Some (holds_args type l)) /\ cache_state type l (of_type type hist).

Lemma caches_ok_init : caches_ok cache_init [].
Proof.
  intros type Ht. exists (replicate (Z.to_nat NUM_CACHE_BUCKETS) []). split; [|apply empty_state].
  destruct (cached_type_cases _ Ht) as [-> | [-> | ->]]; by vm_compute.
Qed.

Lemma of_type_app type hist t a : of_type type (hist ++ [(t, a)]) = of_type type hist ++ if t =? type then [a] else [].
Proof. unfold of_type. rewrite List.filter_app, fmap_app. cbn. by destruct (t =? type). Qed.

Section sequences.
Context (alloc_ok : Z -> bool) (push_ok : bool) (eid : list Z) (Halloc : forall size, alloc_ok size = true).

(** [ast_event_queue_and_cache] of an event of the model. *)
Definition put_event (s : events * caches) (x : Z * list (Z * ie_value)) : outcome (events * caches) :=
  ast_event_queue_and_cache alloc_ok true push_ok (fst s) (snd s) (event_of (fst x) (snd x)).

Lemma put_event_correct st cs hist type a :
  caches_ok cs hist -> length (subs st) = Z.to_nat AST_EVENT_TOTAL -> cached_type type = true -> cachable type a ->
  exists st' cs', put_event (st, cs) (type, a) = Ret (st', cs') /\ caches_ok cs' (hist ++ [(type, a)]) /\ subs st' = subs st.
Proof.
  intros Hcs Hn Ht Ha. destruct (Hcs type Ht) as (l & Hl & Hs). pose proof (type_range type Ht) as Hr.
  destruct (update_cache type Ht alloc_ok Halloc l _ a Hs Ha) as (l' & E & Hs').
  destruct (maybe_queued true push_ok true st type (element <$> a) (Ret (Some (event_of type a))) Hn ltac:(unfold in_u; lia) (or_introl eq_refl)) as (st' & Eq & Hst & _).
  unfold put_event, ast_event_queue_and_cache. cbn [fst snd]. rewrite event_type by done. cbn [obind]. rewrite Hl. cbn [oaccess obind]. rewrite E. cbn [obind].
  cbn [obind queue_made] in Eq. destruct (ast_event_queue _ _ _ _) as [[r st1]| | |]; try done. injection Eq as ->. cbn [obind].
  exists st', (<[Z.to_nat type := Some (holds_args type l')]> cs). split; [done|]. split; [|done]. intros t Ht'. rewrite of_type_app.
  destruct (Z.eqb_spec type t) as [<-|Hne].
  - exists l'. by rewrite list_lookup_insert_eq by (by eapply lookup_lt_Some).
  - rewrite app_nil_r, list_lookup_insert_ne by (pose proof (type_range t Ht'); lia). by apply Hcs.
Qed.

Lemma put_events_correct hist seen st cs :
  caches_ok cs seen -> length (subs st) = Z.to_nat AST_EVENT_TOTAL ->
  Forall (fun x => cached_type (fst x) = true /\ cachable (fst x) (snd x)) hist ->
  exists st' cs', ofold put_event (st, cs) hist = Ret (st', cs') /\ caches_ok cs' (seen ++ hist) /\ subs st' = subs st.
Proof.
  intros Hcs Hn Hh. revert seen st cs Hcs Hn. induction Hh as [|[type a] hist [Ht Ha] _ IH]; intros seen st cs Hcs Hn.
  { exists st, cs. by rewrite app_nil_r. }
  destruct (put_event_correct st cs seen type a Hcs Hn Ht Ha) as (st1 & cs1 & E & Hcs1 & Hsubs). cbn [ofold]. rewrite E. cbn [obind].
  destruct (IH _ st1 cs1 Hcs1) as (st2 & cs2 & E2 & Hcs2 & Hsubs2); [by rewrite Hsubs|]. exists st2, cs2.
  rewrite <- app_assoc in Hcs2. by rewrite Hsubs2.
Qed.
End sequences.

(** C16: the cache of events is a map from what an event is about to the last event about
    it.  After any sequence of [ast_event_queue_and_cache], on an empty cache, of message
    waiting, device state and device state change events, [ast_event_get_cached] returns a
    copy of the last event of the type with the same mailbox and context, device, or
    device and server, and [NULL] when there was none.  (The technology of device names is
    in upper case, and memory is there.) *)
Theorem event_cache_correct alloc_ok push_ok eid st hist type q :
  (forall size, alloc_ok size = true) -> length (subs st) = Z.to_nat AST_EVENT_TOTAL ->
  Forall (fun x => cached_type (fst x) = true /\ cachable (fst x) (snd x)) hist ->
  cached_type type = true -> cachable type q ->
  exists st' cs, ofold (put_event alloc_ok push_ok) (st, cache_init) hist = Ret (st', cs) /\
    ast_event_get_cached alloc_ok eid cs type q = Ret (event_of type <$> last (List.filter (has_key type q) (of_type type hist))).
Proof.
  intros Ha Hn Hh Ht Hq. destruct (put_events_correct alloc_ok push_ok Ha hist [] st cache_init caches_ok_init Hn Hh) as (st' & cs & E & Hcs & _).
  exists st', cs. split; [done|]. destruct (Hcs type Ht) as (l & Hl & Hs). by apply (get_cached_state type Ht alloc_ok eid Ha cs l).
Qed.

Definition mwi (mailbox context : string) (n : Z) : Z * list (Z * ie_value) :=
  (AST_EVENT_MWI, [(AST_EVENT_IE_MAILBOX, Str (zs mailbox)); (AST_EVENT_IE_CONTEXT, Str (zs context)); (1, Uint n)]).
Definition sample_hist : list (Z * list (Z * ie_value)) := [mwi "100" "home" 1; mwi "200" "home" 5; mwi "100" "home" 2].

(** The conditions on a concrete event, by evaluation. *)
Ltac solve_cachable :=
  split; [repeat constructor; cbv; congruence|by repeat constructor|split; [repeat constructor; cbv; congruence|by vm_compute]|
          by repeat constructor|by vm_compute].

Lemma event_cache_correct_witness :
  exists st' cs, ofold (put_event (fun _ => true) true) (ast_event_init, cache_init) sample_hist = Ret (st', cs) /\
    ast_event_get_cached (fun _ => true) sample_eid cs AST_EVENT_MWI (snd (mwi "100" "home" 0)) = Ret (Some (event_of AST_EVENT_MWI (snd (mwi "100" "home" 2)))).
Proof.
  destruct (event_cache_correct (fun _ => true) true sample_eid ast_event_init sample_hist AST_EVENT_MWI (snd (mwi "100" "home" 0))) as (st' & cs & H1 & H2).
  - done.
  - done.
  - repeat (apply Forall_cons; split; [split; [done|solve_cachable]|]). constructor.
  - done.
  - solve_cachable.
  - exists st', cs. split; [exact H1|exact H2].
Defined.

(** Without upper case technologies it is not so: the hash is that of the name as it was
    given, while names are compared without regard to the case of the technology.  An
    event for [sip/phone] leaves the one for [SIP/phone] in its bucket, and it is found
    there. *)
Lemma cache_mixed_case :
  let ev d n := [(AST_EVENT_IE_DEVICE, Str (zs d)); (8, Uint n)] in
  ast_event_cmp (event_of AST_EVENT_DEVICE_STATE (ev "SIP/phone"%string 1)) (event_of AST_EVENT_DEVICE_STATE (ev "sip/phone"%string 2)) = Ret true /\
  exists st cs, ofold (put_event (fun _ => true) true) (ast_event_init, cache_init)
      [(AST_EVENT_DEVICE_STATE, ev "SIP/phone"%string 1); (AST_EVENT_DEVICE_STATE, ev "sip/phone"%string 2)] = Ret (st, cs) /\
    ast_event_get_cached (fun _ => true) sample_eid cs AST_EVENT_DEVICE_STATE [(AST_EVENT_IE_DEVICE, Str (zs "SIP/phone"))]
      = Ret (Some (event_of AST_EVENT_DEVICE_STATE (ev "SIP/phone"%string 1))).
Proof.
  cbv zeta. split; [vm_compute; reflexivity|].
  match goal with |- exists st cs, ?f = _ /\ _ => let v := eval vm_compute in f in lazymatch v with Ret (?st, ?cs) => exists st, cs end end.
  split; vm_compute; reflexivity.
Qed.
