(* ===== verification/DevState.v ===== *)
(** * Device states ([main/devicestate.c])

    The state of a device comes from a channel driver, from a provider registered for a
    prefix, or from the channels that are up.  A change is told with an event.  In a
    cluster every server tells its own changes; a collector takes the last state of every
    server from the cache of events and tells the aggregate.

    The model composes Event.v, EventSub.v and EventCache.v.  Callbacks of providers and
    channel drivers are functions; which channel has a name with a prefix is a parameter.
    The two background threads appear as the operations they run for an entry of their
    queue. *)

From Stdlib Require Import ZArith Lia.
From stdpp Require Import base list numbers strings.
From S2P Require Import Event EventSub EventCache Prelude.

#[local] Open Scope Z_scope.
#[local] Open Scope outcome_scope.
#[local] Open Scope record_scope.

Abbreviation AST_DEVICE_UNKNOWN := 0.
Abbreviation AST_DEVICE_NOT_INUSE := 1.
Abbreviation AST_DEVICE_INUSE := 2.
Abbreviation AST_DEVICE_BUSY := 3.
Abbreviation AST_DEVICE_INVALID := 4.
Abbreviation AST_DEVICE_UNAVAILABLE := 5.
Abbreviation AST_DEVICE_RINGING := 6.
Abbreviation AST_DEVICE_RINGINUSE := 7.
Abbreviation AST_DEVICE_ONHOLD := 8.
Abbreviation AST_DEVICE_TOTAL := 9.

Abbreviation AST_STATE_RINGING := 5.
Abbreviation MAX_SERVERS := 64.
Abbreviation AST_EVENT_IE_STATE := 8.
Abbreviation AST_EVENT_IE_CACHABLE := 53.

(** ** Names of states *)

#[local] Open Scope string_scope.

Definition devstatestring : list (string * string) :=
  [("Unknown", "UNKNOWN"); ("Not in use", "NOT_INUSE"); ("In use", "INUSE"); ("Busy", "BUSY"); ("Invalid", "INVALID");
   ("Unavailable", "UNAVAILABLE"); ("Ringing", "RINGING"); ("Ring+Inuse", "RINGINUSE"); ("On Hold", "ONHOLD")].

Definition ast_devstate2str (state : Z) : outcome str := let* r := oaccess (devstatestring !! Z.to_nat state) in Ret (zs (fst r)).
Definition ast_devstate_str (state : Z) : outcome str := let* r := oaccess (devstatestring !! Z.to_nat state) in Ret (zs (snd r)).

Definition ast_devstate_val (val : str) : Z :=
  if same_name val (zs "NOT_INUSE") then AST_DEVICE_NOT_INUSE
  else if same_name val (zs "INUSE") then AST_DEVICE_INUSE
  else if same_name val (zs "BUSY") then AST_DEVICE_BUSY
  else if same_name val (zs "INVALID") then AST_DEVICE_INVALID
  else if same_name val (zs "UNAVAILABLE") then AST_DEVICE_UNAVAILABLE
  else if same_name val (zs "RINGING") then AST_DEVICE_RINGING
  else if same_name val (zs "RINGINUSE") then AST_DEVICE_RINGINUSE
  else if same_name val (zs "ONHOLD") then AST_DEVICE_ONHOLD
  else AST_DEVICE_UNKNOWN.

#[local] Close Scope string_scope.

(** Channel states and device states, in the order of [chan2dev]. *)
Definition chan2dev : list (Z * Z) :=
  [(0, AST_DEVICE_NOT_INUSE); (1, AST_DEVICE_INUSE); (2, AST_DEVICE_INUSE); (3, AST_DEVICE_INUSE); (4, AST_DEVICE_INUSE);
   (5, AST_DEVICE_RINGING); (6, AST_DEVICE_INUSE); (7, AST_DEVICE_BUSY); (8, AST_DEVICE_INUSE); (9, AST_DEVICE_RINGING)].

Definition ast_state_chan2dev (chanstate : Z) : Z :=
  let chanstate := Z.land chanstate 0xFFFF in
  match List.find (fun p => fst p =? chanstate) chan2dev with Some (_, dev) => dev | None => AST_DEVICE_UNKNOWN end.

(** ** The aggregate of several states *)

Record ast_devstate_aggregate := mk_aggregate { ringing : bool; inuse : bool; agg_state : Z }.

#[export] Instance eta_aggregate : Eta ast_devstate_aggregate := fun a => mk_aggregate (ringing a) (inuse a) (agg_state a).

Definition state_order : list Z := [1; 3; 6; 7; 0; 2; 5; 8; 4].

Definition ast_devstate_aggregate_init : ast_devstate_aggregate := mk_aggregate false false AST_DEVICE_INVALID.

Definition ast_devstate_aggregate_add (agg : ast_devstate_aggregate) (state : Z) : outcome ast_devstate_aggregate :=
  let agg :=
    if state =? AST_DEVICE_RINGING then agg <| ringing := true |>
    else if (state =? AST_DEVICE_INUSE) || (state =? AST_DEVICE_ONHOLD) || (state =? AST_DEVICE_BUSY) then agg <| inuse := true |>
    else agg in
  if ringing agg && inuse agg then Ret (agg <| agg_state := AST_DEVICE_RINGINUSE |>)
  else
    let* o := oaccess (state_order !! Z.to_nat state) in
    let* o' := oaccess (state_order !! Z.to_nat (agg_state agg)) in
    Ret (if o >? o' then agg <| agg_state := state |> else agg).

Definition ast_devstate_aggregate_result (agg : ast_devstate_aggregate) : Z := agg_state agg.

Definition aggregate (states : list Z) : outcome Z :=
  let* agg := ofold ast_devstate_aggregate_add ast_devstate_aggregate_init states in Ret (ast_devstate_aggregate_result agg).

(** ** The state of the module *)

Record devstate_prov := mk_prov { label : str; callback : str -> Z }.

Record devstate_change := mk_change { sc_state : Z; sc_eid : list Z; sc_cachable : Z; sc_device : str }.

Record devstate := mk_devstate {
  devstate_provs : list devstate_prov;
  devstate_no_providers : list (str * str);
  state_changes : list (str * Z);
  collector_enabled : bool;
  devstate_change_q : list devstate_change;
  evs : events;
  cache : caches
}.

#[export] Instance eta_devstate : Eta devstate := fun s =>
  mk_devstate (devstate_provs s) (devstate_no_providers s) (state_changes s) (collector_enabled s) (devstate_change_q s) (evs s) (cache s).

(** A copy of at most [n] bytes, with the final NUL. *)
Definition copy_string (n : nat) (s : str) : str := take (n - 1) s.

(** The channel drivers by the name of their technology, with the callback for states if
    there is one ([main/channel.c]). *)
Definition ast_get_channel_tech (backends : list (str * option (str -> Z))) (name : str) : option (option (str -> Z)) :=
  snd <$> List.find (fun tech => same_name name (fst tech)) backends.

Section devicestate.
(** The answers of the allocator: for the blocks of events, for references, for places in
    the queue of the dispatcher and for the blocks of this file; the channel drivers; the
    state of a channel with a prefix; whether the thread for changes runs. *)
Context (alloc_ok : Z -> bool) (ref_ok push_ok mem_ok : bool) (ast_eid_default : list Z).
Context (backends : list (str * option (str -> Z))) (by_name_prefix : str -> option Z) (change_thread : bool).

(** ** Asking for a state *)

(** [AST_CHANNEL_NAME] is 80. *)
Definition ast_parse_device_state (device : str) : Z :=
  let match_ := copy_string 80 (device ++ [45]) in
  match by_name_prefix match_ with
  | None => AST_DEVICE_UNKNOWN
  | Some state => if state =? AST_STATE_RINGING then AST_DEVICE_RINGING else AST_DEVICE_INUSE
  end.

Definition devstate_cached (s : devstate) (device : str) : outcome Z :=
  let* event := ast_event_get_cached alloc_ok ast_eid_default (cache s) AST_EVENT_DEVICE_STATE [(AST_EVENT_IE_DEVICE, Str device)] in
  match event with None => Ret AST_DEVICE_UNKNOWN | Some ev => ast_event_get_ie_uint ev AST_EVENT_IE_STATE end.

Definition getproviderstate (s : devstate) (provider address : str) : Z * devstate :=
  match List.find (fun p => same_name (label p) provider) (devstate_provs s) with
  | Some p => (callback p address, s)
  | None =>
      (AST_DEVICE_INVALID,
       if mem_ok then s <| devstate_no_providers ::= fun l => (copy_string 40 provider, copy_string 256 address) :: l |> else s)
  end.

(** The part of [_ast_device_state] after the cache. *)
Definition ask_device (s : devstate) (device : str) : Z * devstate :=
  match strsep (Z.eqb 47) device with
  | (tech, None) =>
      match strsep (Z.eqb 58) tech with
      | (_, None) => (AST_DEVICE_INVALID, s)
      | (provider, Some number) => getproviderstate s provider number
      end
  | (tech, Some number) =>
      match ast_get_channel_tech backends tech with
      | None => (AST_DEVICE_INVALID, s)
      | Some None => (ast_parse_device_state device, s)
      | Some (Some devicestate) =>
          let res := devicestate number in
          (if negb (res =? AST_DEVICE_UNKNOWN) then res else ast_parse_device_state device, s)
      end
  end.

Definition _ast_device_state (s : devstate) (device : option str) (check_cache : bool) : outcome (Z * devstate) :=
  match device with
  | None | Some [] => Ret (AST_DEVICE_UNKNOWN, s)
  | Some device =>
      if check_cache then
        let* res := devstate_cached s device in
        if negb (res =? AST_DEVICE_UNKNOWN) then Ret (res, s) else Ret (ask_device s device)
      else Ret (ask_device s device)
  end.

Definition ast_device_state (s : devstate) (device : option str) : outcome (Z * devstate) := _ast_device_state s device true.

(** ** Telling a change *)

(** Queueing an event, and keeping it if it is cachable. *)
Definition tell (s : devstate) (cachable : bool) (ev : list Z) : outcome devstate :=
  if cachable then
    let* (e, c) := ast_event_queue_and_cache alloc_ok ref_ok push_ok (evs s) (cache s) ev in
    Ret (s <| evs := e |> <| cache := c |>)
  else let* (_, e) := ast_event_queue ref_ok push_ok (evs s) ev in Ret (s <| evs := e |>).

Definition devstate_event (s : devstate) (device : str) (state cachable : Z) : outcome devstate :=
  let event_type := if collector_enabled s then AST_EVENT_DEVICE_STATE_CHANGE else AST_EVENT_DEVICE_STATE in
  let* event := ast_event_new alloc_ok ast_eid_default event_type
    [(AST_EVENT_IE_DEVICE, Str device); (AST_EVENT_IE_STATE, Uint state); (AST_EVENT_IE_CACHABLE, Uint cachable)] in
  match event with None => Ret s | Some ev => tell s (ctrue cachable) ev end.

Definition do_state_change (s : devstate) (device : str) (cachable : Z) : outcome devstate :=
  let* (state, s) := _ast_device_state s (Some device) false in
  devstate_event s device (u32 state) cachable.

Definition ast_devstate_changed_literal (s : devstate) (state cachable : Z) (device : str) : outcome devstate :=
  if negb (state =? AST_DEVICE_UNKNOWN) then devstate_event s device state cachable
  else if negb change_thread || negb mem_ok then do_state_change s device cachable
  else Ret (s <| state_changes ::= fun q => q ++ [(device, cachable)] |>).

Definition ast_device_state_changed_literal (s : devstate) (dev : str) : outcome devstate :=
  ast_devstate_changed_literal s AST_DEVICE_UNKNOWN 1 dev.

(** The formatted string has at most [AST_MAX_EXTENSION] bytes. *)
Definition ast_devstate_changed (s : devstate) (state cachable : Z) (formatted : str) : outcome devstate :=
  ast_devstate_changed_literal s state cachable (copy_string 80 formatted).

Definition ast_device_state_changed (s : devstate) (formatted : str) : outcome devstate :=
  ast_devstate_changed_literal s AST_DEVICE_UNKNOWN 1 (copy_string 80 formatted).

(** A round of [do_devstate_changes]: the whole queue is taken, then every entry. *)
Definition do_devstate_changes (s : devstate) : outcome devstate :=
  let next := state_changes s in
  ofold (fun s c => do_state_change s (fst c) (snd c)) (s <| state_changes := [] |>) next.

(** ** Providers *)

(** The first entry that satisfies [f], and the others. *)
Fixpoint remove_first {A} (f : A -> bool) (l : list A) : option A * list A :=
  match l with
  | [] => (None, [])
  | x :: l => if f x then (Some x, l) else let '(r, l) := remove_first f l in (r, x :: l)
  end.

Definition ast_devstate_prov_add (s : devstate) (lab : str) (cb : option (str -> Z)) : outcome (Z * devstate) :=
  match cb with
  | None => Ret (-1, s)
  | Some cb =>
      if negb mem_ok then Ret (-1, s)
      else
        let s := s <| devstate_provs ::= fun l => mk_prov (copy_string 40 lab) cb :: l |> in
        match remove_first (fun p => same_name (fst p) lab) (devstate_no_providers s) with
        | (None, _) => Ret (0, s)
        | (Some (provider, data), rest) =>
            let* s := ast_device_state_changed (s <| devstate_no_providers := rest |>) (provider ++ [58] ++ data) in
            Ret (0, s)
        end
  end.

Definition ast_devstate_prov_del (s : devstate) (lab : str) : Z * devstate :=
  match remove_first (fun p => same_name (label p) lab) (devstate_provs s) with
  | (None, _) => (-1, s)
  | (Some _, rest) => (0, s <| devstate_provs := rest |>)
  end.

(** ** The collector *)

(** The callback for the events of the cache: the states (with identifiers of servers)
    collected so far. *)
Definition devstate_cache_cb (collection : list (Z * list Z)) (ev : list Z) : outcome (list (Z * list Z)) :=
  if Z.of_nat (length collection) =? MAX_SERVERS then Ret collection
  else
    let* eid := ast_event_get_ie_raw ev AST_EVENT_IE_EID in
    match eid with
    | None => Ret collection
    | Some off =>
        let* state := ast_event_get_ie_uint ev AST_EVENT_IE_STATE in
        let* eid := bytes_at ev off 6 in
        Ret (collection ++ [(state, eid)])
    end.

Definition process_collection (s : devstate) (device : str) (cachable : Z) (collection : list (Z * list Z)) : outcome devstate :=
  let* state := aggregate (fst <$> collection) in
  let* event := ast_event_get_cached alloc_ok ast_eid_default (cache s) AST_EVENT_DEVICE_STATE [(AST_EVENT_IE_DEVICE, Str device)] in
  let* same := match event with
               | Some ev => let* old_state := ast_event_get_ie_uint ev AST_EVENT_IE_STATE in Ret (state =? old_state)
               | None => Ret false
               end in
  if same then Ret s
  else
    let* event := ast_event_new alloc_ok ast_eid_default AST_EVENT_DEVICE_STATE
      [(AST_EVENT_IE_DEVICE, Str device); (AST_EVENT_IE_STATE, Uint state)] in
    match event with None => Ret s | Some ev => tell s (ctrue cachable) ev end.

(** [mem] is the block of the temporary subscription. *)
Definition handle_devstate_change (s : devstate) (mem : ptr) (sc : devstate_change) : outcome devstate :=
  match ast_event_subscribe_new (evs s) mem AST_EVENT_DEVICE_STATE_CHANGE NULL NULL with
  | (None, e) => Ret (s <| evs := e |>)
  | (Some tmp_sub, e) =>
      let s := s <| evs := e |> in
      let '(r, tmp_sub) := ast_event_sub_append_ie_str (fun _ => mem_ok) tmp_sub AST_EVENT_IE_DEVICE (sc_device sc) in
      if negb (r =? 0) then Ret s
      else
        let* dumped := ast_event_dump_cache (cache s) tmp_sub in
        let* collection := ofold devstate_cache_cb [] dumped in
        process_collection s (sc_device sc) (sc_cachable sc) collection
  end.

(** A round of [run_devstate_collector]. *)
Definition run_devstate_collector (s : devstate) (mem : ptr) : outcome devstate :=
  match devstate_change_q s with
  | [] => Ret s
  | sc :: q => handle_devstate_change (s <| devstate_change_q := q |>) mem sc
  end.

(** [cb] is the address of [devstate_change_collector_cb]; [thread_ok] tells whether the
    thread of the collector starts. *)
Definition ast_enable_distributed_devstate (s : devstate) (mem cb : ptr) (thread_ok : bool) : outcome (Z * devstate) :=
  if collector_enabled s then Ret (0, s)
  else
    let* (event_sub, e) := ast_event_subscribe alloc_ok ref_ok push_ok (fun _ => mem_ok) ast_eid_default (evs s) mem
      AST_EVENT_DEVICE_STATE_CHANGE cb NULL (zs "devstate_engine_enable_distributed") [] in
    let s := s <| evs := e |> in
    match event_sub with
    | None => Ret (-1, s)
    | Some _ => if thread_ok then Ret (0, s <| collector_enabled := true |>) else Ret (-1, s)
    end.

(** The callback of the subscription to changes. *)
Definition devstate_change_collector_cb (s : devstate) (ev : list Z) : outcome devstate :=
  let* device := ast_event_get_ie_str ev AST_EVENT_IE_DEVICE in
  let* eid := ast_event_get_ie_raw ev AST_EVENT_IE_EID in
  let* state := ast_event_get_ie_uint ev AST_EVENT_IE_STATE in
  let* cachable := ast_event_get_ie_uint ev AST_EVENT_IE_CACHABLE in
  match device, eid with
  | Some (c :: device), Some off =>
      if negb mem_ok then Ret s
      else
        let* eid := bytes_at ev off 6 in
        Ret (s <| devstate_change_q ::= fun q => q ++ [mk_change state eid cachable (c :: device)] |>)
  | _, _ => Ret s
  end.
End devicestate.

(** ** Theorems on the aggregate *)

(** The order of states in an aggregate. *)
Definition order (state : Z) : Z := nth (Z.to_nat state) state_order 0.

Definition in_use_state (state : Z) : bool := (state =? AST_DEVICE_INUSE) || (state =? AST_DEVICE_ONHOLD) || (state =? AST_DEVICE_BUSY).

Definition valid_state (state : Z) : Prop := 0 <= state < AST_DEVICE_TOTAL.

(** The first state of the greatest order, starting with [INVALID]. *)
Definition greatest (states : list Z) : Z := foldl (fun r s => if order s >? order r then s else r) AST_DEVICE_INVALID states.

Definition aggregate_spec (states : list Z) : Z :=
  if existsb (Z.eqb AST_DEVICE_RINGING) states && existsb in_use_state states then AST_DEVICE_RINGINUSE else greatest states.

Lemma valid_cases state : valid_state state ->
  state = 0 \/ state = 1 \/ state = 2 \/ state = 3 \/ state = 4 \/ state = 5 \/ state = 6 \/ state = 7 \/ state = 8.
Proof. unfold valid_state. lia. Qed.

Ltac state_cases :=
  repeat match goal with H : valid_state _ |- _ => apply valid_cases in H; repeat (destruct H as [->|H]); [..|subst] end.

Lemma order_inj a b : valid_state a -> valid_state b -> order a = order b -> a = b.
Proof. intros Ha Hb. state_cases; vm_compute; done. Qed.

Lemma order_lookup state : valid_state state -> state_order !! Z.to_nat state = Some (order state).
Proof. intros H. by state_cases. Qed.

Lemma order_top state : valid_state state -> order state <= order AST_DEVICE_RINGINUSE.
Proof. intros H. state_cases; vm_compute; congruence. Qed.

Lemma greatest_spec states :
  Forall valid_state states -> valid_state (greatest states) /\ (greatest states = AST_DEVICE_INVALID \/ greatest states ∈ states) /\
    forall s, s ∈ states -> order s <= order (greatest states).
Proof.
  intros H. unfold greatest. assert (Hg : forall r, valid_state r -> let g := foldl (fun r s => if order s >? order r then s else r) r states in
    valid_state g /\ (g = r \/ g ∈ states) /\ order r <= order g /\ forall s, s ∈ states -> order s <= order g).
  { induction H as [|s states Hs _ IH]; intros r Hr; cbn -[order].
    - split; [done|]. split; [by left|]. split; [lia|]. intros s Hs. by apply elem_of_nil in Hs.
    - destruct (Z.gtb_spec (order s) (order r)).
      + destruct (IH s Hs) as (H1 & H2 & H3 & H4). split; [exact H1|]. split; [right; destruct H2 as [E|H2]; [rewrite E; left|right; exact H2]|]. split; [lia|].
        intros t [->|Ht]%elem_of_cons; [exact H3|]. by apply H4.
      + destruct (IH r Hr) as (H1 & H2 & H3 & H4). split; [exact H1|]. split; [destruct H2 as [H2|H2]; [left; exact H2|right; right; exact H2]|]. split; [exact H3|].
        intros t [->|Ht]%elem_of_cons; [lia|]. by apply H4. }
  destruct (Hg AST_DEVICE_INVALID ltac:(unfold valid_state; lia)) as (H1 & H2 & _ & H4). done.
Qed.

(** The greatest state depends only on which states there are. *)
Lemma greatest_unique states g :
  Forall valid_state states -> valid_state g -> (g = AST_DEVICE_INVALID \/ g ∈ states) -> (forall s, s ∈ states -> order s <= order g) -> g = greatest states.
Proof.
  intros H Hg Hin Hle. destruct (greatest_spec states H) as (H1 & H2 & H3). apply order_inj; [done..|].
  assert (H0 : forall s, valid_state s -> order AST_DEVICE_INVALID <= order s) by (intros s Hs; state_cases; vm_compute; congruence).
  apply Z.le_antisymm.
  - destruct Hin as [->|Hin]; auto.
  - destruct H2 as [->|H2]; auto.
Qed.

Lemma greatest_app states s : greatest (states ++ [s]) = if order s >? order (greatest states) then s else greatest states.
Proof. unfold greatest. by rewrite foldl_app. Qed.

Lemma existsb_app1 {A} (f : A -> bool) l x : existsb f (l ++ [x]) = existsb f l || f x.
Proof. rewrite existsb_app. cbn. by rewrite orb_false_r. Qed.

(** One more state. *)
Lemma aggregate_add states s :
  Forall valid_state states -> valid_state s ->
  ast_devstate_aggregate_add (mk_aggregate (existsb (Z.eqb AST_DEVICE_RINGING) states) (existsb in_use_state states) (aggregate_spec states)) s =
    Ret (mk_aggregate (existsb (Z.eqb AST_DEVICE_RINGING) (states ++ [s])) (existsb in_use_state (states ++ [s])) (aggregate_spec (states ++ [s]))).
Proof.
  intros Hs H. unfold ast_devstate_aggregate_add. cbv [setter eta_of eta_aggregate]. rewrite !existsb_app1. cbn [ringing inuse agg_state].
  assert (E : (if s =? AST_DEVICE_RINGING then mk_aggregate true (existsb in_use_state states) (aggregate_spec states)
     else if (s =? AST_DEVICE_INUSE) || (s =? AST_DEVICE_ONHOLD) || (s =? AST_DEVICE_BUSY) then mk_aggregate (existsb (Z.eqb AST_DEVICE_RINGING) states) true (aggregate_spec states)
     else mk_aggregate (existsb (Z.eqb AST_DEVICE_RINGING) states) (existsb in_use_state states) (aggregate_spec states)) =
     mk_aggregate (existsb (Z.eqb AST_DEVICE_RINGING) states || (AST_DEVICE_RINGING =? s)) (existsb in_use_state states || in_use_state s) (aggregate_spec states)).
  { state_cases; cbn; by rewrite ?orb_false_r, ?orb_true_r. }
  rewrite E. cbn [ringing inuse agg_state]. unfold aggregate_spec at 3. rewrite !existsb_app1.
  destruct ((existsb (Z.eqb AST_DEVICE_RINGING) states || (AST_DEVICE_RINGING =? s)) && (existsb in_use_state states || in_use_state s)) eqn:E2; [done|].
  assert (Ea : aggregate_spec states = greatest states).
  { unfold aggregate_spec. destruct (existsb (Z.eqb _) states), (existsb in_use_state states); try done. }
  rewrite Ea, greatest_app. destruct (greatest_spec states Hs) as (Hg & _). rewrite !order_lookup by done. cbn [oaccess obind].
  by destruct (order s >? order (greatest states)).
Qed.

Lemma aggregate_value states : Forall valid_state states -> aggregate states = Ret (aggregate_spec states).
Proof.
  intros H. unfold aggregate.
  assert (Hf : forall rest seen, Forall valid_state (seen ++ rest) ->
    ofold ast_devstate_aggregate_add (mk_aggregate (existsb (Z.eqb AST_DEVICE_RINGING) seen) (existsb in_use_state seen) (aggregate_spec seen)) rest =
    Ret (mk_aggregate (existsb (Z.eqb AST_DEVICE_RINGING) (seen ++ rest)) (existsb in_use_state (seen ++ rest)) (aggregate_spec (seen ++ rest)))).
  { intros rest. induction rest as [|s rest IH]; intros seen Hv; [by rewrite app_nil_r|]. cbn [ofold]. rewrite cons_middle, app_assoc in Hv |- *.
    pose proof (proj1 (Forall_app _ _ _) Hv) as [Hv' _]. apply Forall_app in Hv' as [Hv1 Hv2]. apply Forall_cons in Hv2 as [Hv2 _].
    rewrite aggregate_add by done. cbn [obind]. by rewrite IH. }
  specialize (Hf states [] H). cbn in Hf. unfold ast_devstate_aggregate_init. by rewrite Hf.
Qed.

(** The aggregate depends only on which states there are. *)
Lemma aggregate_spec_same states states' :
  Forall valid_state states -> (forall s, s ∈ states <-> s ∈ states') -> aggregate_spec states = aggregate_spec states'.
Proof.
  intros H He. assert (Hv' : Forall valid_state states') by (rewrite Forall_forall in *; intros s Hs; apply H; by apply He).
  assert (Hx : forall f, existsb f states = existsb f states').
  { intros f. apply eq_iff_eq_true. rewrite !existsb_exists. setoid_rewrite <- (list_elem_of_In (A := Z)). by setoid_rewrite He. }
  unfold aggregate_spec. rewrite !Hx. destruct (_ && _); [done|]. destruct (greatest_spec states H) as (H1 & H2 & H3).
  apply greatest_unique; [done..| |].
  - destruct H2; [by left|right; by apply He].
  - intros s Hs. apply H3. by apply He.
Qed.

(** The aggregate of states.  Adding states one by one gives "ringing and in use" when
    one of them is ringing and another is in use, busy or on hold; otherwise the state of
    the greatest order, or "invalid".  The order of adding does not matter, nor how often
    a state is added; and no table is read outside. *)
Theorem aggregate_correct states :
  Forall valid_state states ->
  exists r, aggregate states = Ret r /\ valid_state r /\
    (if existsb (Z.eqb AST_DEVICE_RINGING) states && existsb in_use_state states then r = AST_DEVICE_RINGINUSE
     else (r = AST_DEVICE_INVALID \/ r ∈ states) /\ forall s, s ∈ states -> order s <= order r) /\
    forall states', (forall s, s ∈ states <-> s ∈ states') -> aggregate states' = Ret r.
Proof.
  intros H. exists (aggregate_spec states). rewrite aggregate_value by done. destruct (greatest_spec states H) as (H1 & H2 & H3). split; [done|].
  assert (Hv : valid_state (aggregate_spec states)) by (unfold aggregate_spec; case_if; [unfold valid_state; lia|done]).
  split; [done|]. split.
  - unfold aggregate_spec. by destruct (_ && _).
  - intros states' He. rewrite aggregate_value; [by rewrite (aggregate_spec_same states states')|].
    rewrite Forall_forall in *. intros s Hs. apply H. by apply He.
Qed.

Lemma aggregate_correct_witness : aggregate [AST_DEVICE_NOT_INUSE; AST_DEVICE_RINGING; AST_DEVICE_BUSY] = Ret AST_DEVICE_RINGINUSE.
Proof.
  destruct (aggregate_correct [AST_DEVICE_NOT_INUSE; AST_DEVICE_RINGING; AST_DEVICE_BUSY]) as (r & H & _ & E & _).
  - repeat constructor; cbv; congruence.
  - cbn in E. rewrite E in H. exact H.
Defined.

(** A state of an event from another server is not checked: one out of range is used as an
    index of the table. *)
Lemma aggregate_bad_state : aggregate [9] = BadAccess.
Proof. done. Qed.

(** The names of states are read back, except of those that are not known by name. *)
Lemma devstate_names_roundtrip state : valid_state state -> (let* n := ast_devstate_str state in Ret (ast_devstate_val n)) = Ret state.
Proof. intros H. state_cases; vm_compute; done. Qed.

(** ** What the cache knows of a device *)

Abbreviation CHANGE := AST_EVENT_DEVICE_STATE_CHANGE.

(** A change event as the servers send it. *)
Definition change_event (a : list (Z * ie_value)) : Prop :=
  exists d e n, first_ie AST_EVENT_IE_DEVICE a = Some (Str d) /\ first_ie AST_EVENT_IE_EID a = Some (Raw e) /\ length e = 6%nat /\
    first_ie AST_EVENT_IE_STATE a = Some (Uint n) /\ valid_state n.

Definition state_event (a : list (Z * ie_value)) : Prop := exists n, first_ie AST_EVENT_IE_STATE a = Some (Uint n).

(** The events that were cached. *)
Definition good_hist (hist : list (Z * list (Z * ie_value))) : Prop :=
  Forall (fun x => (cached_type (fst x) = true /\ cachable (fst x) (snd x)) /\ (fst x = CHANGE -> change_event (snd x)) /\
    (fst x = AST_EVENT_DEVICE_STATE -> state_event (snd x))) hist.

Definition of_device (d : str) (a : list (Z * ie_value)) : bool := bool_decide (first_ie AST_EVENT_IE_DEVICE a = Some (Str d)).

Definition state_of (a : list (Z * ie_value)) : Z := match first_ie AST_EVENT_IE_STATE a with Some (Uint n) => n | _ => 0 end.

(** The last change of a device that one server sent. *)
Definition last_change (hist : list (Z * list (Z * ie_value))) (d : str) (a : list (Z * ie_value)) : Prop :=
  first_ie AST_EVENT_IE_DEVICE a = Some (Str d) /\ last (List.filter (has_key CHANGE a) (of_type CHANGE hist)) = Some a.

(** How many servers sent changes of a device. *)
Definition servers (hist : list (Z * list (Z * ie_value))) (d : str) : nat :=
  length (remove_dups (key CHANGE <$> List.filter (of_device d) (of_type CHANGE hist))).

Lemma elem_of_filter_bool {A} (f : A -> bool) (l : list A) x : x ∈ List.filter f l <-> x ∈ l /\ f x = true.
Proof. rewrite !list_elem_of_In. apply filter_In. Qed.

Lemma in_of_type type hist a : a ∈ of_type type hist <-> (type, a) ∈ hist.
Proof.
  unfold of_type. rewrite list_elem_of_fmap. split.
  - intros ([t b] & -> & H%elem_of_filter_bool). cbn in H. destruct H as [H E]. zb. by subst t.
  - intros H. exists (type, a). split; [done|]. apply elem_of_filter_bool. cbn. by rewrite Z.eqb_refl.
Qed.

Lemma hist_change hist a : good_hist hist -> a ∈ of_type CHANGE hist -> cachable CHANGE a /\ change_event a.
Proof.
  unfold good_hist. rewrite Forall_forall, in_of_type. intros Hh Ha. destruct (Hh _ Ha) as [[_ Hc] [H _]]. split; [done|]. by apply H.
Qed.

Lemma mjoin_in {A} (l : list (list A)) (x : A) : x ∈ mjoin l <-> exists b i, l !! i = Some b /\ x ∈ b.
Proof.
  induction l as [|c l IH]; cbn.
  - split; [intros H; by apply elem_of_nil in H|]. intros (b & i & Hb & _). done.
  - rewrite elem_of_app, IH. split.
    + intros [H|(b & i & Hb & Hx)]; [by exists c, 0%nat|by exists b, (S i)].
    + intros (b & [|i] & Hb & Hx); [injection Hb as ->; by left|right; by exists b, i].
Qed.

Section dump.
Context (cs : caches) (hist : list (Z * list (Z * ie_value))) (d : str).
Hypothesis Hcs : caches_ok cs hist.
Hypothesis Hh : good_hist hist.
Hypothesis Hd : hashed AST_EVENT_IE_DEVICE d = d.

Let v := mk_ie_val AST_EVENT_IE_DEVICE (Str d) (u32 (ast_str_hash (hashed AST_EVENT_IE_DEVICE d))).

(** The subscription of the collector matches the changes of the device. *)
Lemma match_device a : cachable CHANGE a -> all_match (event_of CHANGE a) [v] = Ret (of_device d a).
Proof.
  intros Ha. destruct (key_str CHANGE a AST_EVENT_IE_DEVICE Ha ltac:(in_list) eq_refl) as (s & Hs & Hu & Rs & Rh).
  cbn [all_match]. unfold match_ie_val, v, of_device. cbn [ie_type value hash]. rewrite Rh, Hs, Hd. cbn [obind].
  destruct (decide (s = d)) as [->|Hne].
  - rewrite Z.eqb_refl. cbn [negb]. rewrite Rs. cbn [obind]. by rewrite !bool_decide_eq_true_2.
  - rewrite (bool_decide_eq_false_2 (Some (Str s) = Some (Str d))) by congruence. case_if; [done|]. rewrite Rs. cbn [obind].
    rewrite Hu, Hd. by rewrite bool_decide_eq_false_2.
Qed.

Lemma dump_bucket_device b :
  Forall (cachable CHANGE) b -> dump_bucket (event_of CHANGE <$> b) [v] = Ret (event_of CHANGE <$> List.filter (of_device d) b).
Proof.
  intros Hb. induction Hb as [|a b Ha _ IH]; [done|]. rewrite fmap_cons. cbn [dump_bucket List.filter].
  rewrite match_device by done. cbn [obind]. rewrite IH. cbn [obind]. by destruct (of_device d a).
Qed.

Lemma dump_buckets_device l :
  Forall (Forall (cachable CHANGE)) l ->
  dump_buckets (holds_args CHANGE l) [v] = Ret (event_of CHANGE <$> mjoin (List.filter (of_device d) <$> l)).
Proof.
  intros Hl. induction Hl as [|b l Hb _ IH]; [done|]. unfold holds_args in *. rewrite !fmap_cons. cbn [dump_buckets].
  rewrite dump_bucket_device by done. cbn [obind]. rewrite IH. cbn [obind mjoin list_join]. by rewrite fmap_app.
Qed.

(** In the cache a key has one event, the last. *)
Lemma in_bucket l i b a :
  cache_state CHANGE l (of_type CHANGE hist) -> l !! i = Some b -> a ∈ b -> List.filter (has_key CHANGE a) b = [a] /\
    last (List.filter (has_key CHANGE a) (of_type CHANGE hist)) = Some a.
Proof.
  intros [_ Hc Hl] Hb Ha. destruct (Hc _ _ _ Hb Ha) as [_ Hi]. pose proof (Hl _ _ _ Hb Hi) as E.
  assert (Hin : a ∈ List.filter (has_key CHANGE a) b) by (apply elem_of_filter_bool; split; [done|by apply bool_decide_eq_true_2]).
  rewrite E in Hin. destruct (last _) as [a'|]; cbn in *; [|by apply elem_of_nil in Hin].
  apply list_elem_of_singleton in Hin as <-. done.
Qed.

Lemma dumped_in l a :
  cache_state CHANGE l (of_type CHANGE hist) -> a ∈ mjoin (List.filter (of_device d) <$> l) <-> last_change hist d a.
Proof.
  intros Hs. rewrite mjoin_in. setoid_rewrite list_lookup_fmap. split.
  - intros (b' & i & Hb & Ha). destruct (l !! i) as [b|] eqn:Eb; [|done]. injection Hb as <-. apply elem_of_filter_bool in Ha as [Ha Hda%bool_decide_eq_true].
    split; [done|]. apply (in_bucket l i b a); done.
  - intros [Hda Hl]. assert (Hc : cachable CHANGE a).
    { apply (hist_change hist); [done|]. apply last_Some_elem_of in Hl. by apply elem_of_filter_bool in Hl as [Hl _]. }
    destruct (bucket_there CHANGE l a Hc (cs_length _ _ _ Hs)) as (b & Hb & _). exists (List.filter (of_device d) b), (key_bucket CHANGE a).
    rewrite Hb. split; [done|]. apply elem_of_filter_bool. split; [|by apply bool_decide_eq_true_2].
    pose proof (cs_last _ _ _ Hs _ _ _ Hb eq_refl) as E. rewrite Hl in E.
    assert (Hin : a ∈ List.filter (has_key CHANGE a) b) by (rewrite E; left). by apply elem_of_filter_bool in Hin as [Hin _].
Qed.
End dump.

(** ** The number of servers bounds the events *)

Lemma NoDup_keys_bucket {A B} (f : A -> B) (same : A -> A -> bool) (l : list A) :
  (forall x y, same x y = true <-> f y = f x) -> (forall x, x ∈ l -> List.filter (same x) l = [x]) -> NoDup (f <$> l).
Proof.
  intros Hsame. induction l as [|x l IH]; intros H; [constructor|]. rewrite fmap_cons. constructor.
  - intros (y & E & Hy)%list_elem_of_fmap. pose proof (H x ltac:(left)) as Hx. cbn in Hx.
    rewrite (proj2 (Hsame x x) eq_refl) in Hx. injection Hx as Hx. assert (Hin : y ∈ List.filter (same x) l).
    { apply elem_of_filter_bool. split; [done|]. by apply Hsame. }
    rewrite Hx in Hin. by apply elem_of_nil in Hin.
  - apply IH. intros y Hy. pose proof (H y ltac:(by right)) as Hf. cbn in Hf. destruct (same y x) eqn:E; [|done].
    injection Hf as -> Hf. assert (Hin : y ∈ List.filter (same y) l) by (apply elem_of_filter_bool; split; [done|by apply Hsame]).
    rewrite Hf in Hin. by apply elem_of_nil in Hin.
Qed.

Lemma NoDup_keys_join {A B} (f : A -> B) (idx : A -> nat) (l : list (list A)) :
  (forall x y, f x = f y -> idx x = idx y) -> Forall (fun b => NoDup (f <$> b)) l ->
  forall k, (forall i b x, l !! i = Some b -> x ∈ b -> idx x = (k + i)%nat) -> NoDup (f <$> mjoin l).
Proof.
  intros Hf Hn. induction Hn as [|b l Hb _ IH]; intros k Hi; [constructor|]. cbn [mjoin list_join]. rewrite fmap_app. apply NoDup_app.
  split; [done|]. split.
  - intros y (x & -> & Hx)%list_elem_of_fmap (x' & E & Hx')%list_elem_of_fmap. apply mjoin_in in Hx' as (b' & i & Hb' & Hx').
    pose proof (Hi 0%nat b x eq_refl Hx). pose proof (Hi (S i) b' x' Hb' Hx'). apply Hf in E. lia.
  - apply (IH (S k)). intros i b' x Hb' Hx. rewrite (Hi (S i) b' x Hb' Hx). lia.
Qed.

Lemma has_key_iff type x y : has_key type x y = true <-> key type y = key type x.
Proof. apply bool_decide_eq_true. Qed.

Lemma filter_filter {A} (f g : A -> bool) l : List.filter f (List.filter g l) = List.filter g (List.filter f l).
Proof. induction l as [|x l IH]; [done|]. cbn. destruct (g x) eqn:Eg, (f x) eqn:Ef; cbn; rewrite ?Eg, ?Ef, IH; done. Qed.

Lemma dumped_length hist d l :
  cache_state CHANGE l (of_type CHANGE hist) -> (length (mjoin (List.filter (of_device d) <$> l)) <= servers hist d)%nat.
Proof.
  intros Hs. set (D := mjoin _). rewrite <- (length_fmap (key CHANGE) D). apply submseteq_length, NoDup_submseteq.
  - apply (NoDup_keys_join (key CHANGE) (key_bucket CHANGE) _ (same_key_bucket CHANGE eq_refl)) with (k := 0%nat).
    + apply Forall_lookup. intros i b' Hb'. rewrite list_lookup_fmap in Hb'. destruct (l !! i) as [b|] eqn:Eb; [|done]. injection Hb' as <-.
      apply (NoDup_keys_bucket _ (has_key CHANGE)); [apply has_key_iff|]. intros x [Hx Hd]%elem_of_filter_bool.
      rewrite filter_filter. destruct (in_bucket hist l i b x Hs Eb Hx) as [-> _]. cbn. by rewrite Hd.
    + intros i b' x Hb' Hx. rewrite list_lookup_fmap in Hb'. destruct (l !! i) as [b|] eqn:Eb; [|done]. injection Hb' as <-.
      apply elem_of_filter_bool in Hx as [Hx _]. apply (cs_cachable _ _ _ Hs _ _ _ Eb Hx).
  - intros k (a & -> & Ha)%list_elem_of_fmap. apply elem_of_remove_dups, list_elem_of_fmap. exists a. split; [done|].
    apply mjoin_in in Ha as (b' & i & Hb' & Ha). rewrite list_lookup_fmap in Hb'. destruct (l !! i) as [b|] eqn:Eb; [|done]. injection Hb' as <-.
    apply elem_of_filter_bool in Ha as [Ha Hd]. destruct (in_bucket hist l i b a Hs Eb Ha) as [_ Hl].
    apply last_Some_elem_of, elem_of_filter_bool in Hl as [Hl _]. by apply elem_of_filter_bool.
Qed.

(** ** Collecting the states *)

Lemma collect col D :
  Forall (cachable CHANGE) D -> Forall change_event D -> (length col + length D <= Z.to_nat MAX_SERVERS)%nat ->
  exists col', ofold devstate_cache_cb col (event_of CHANGE <$> D) = Ret col' /\ fst <$> col' = (fst <$> col) ++ (state_of <$> D).
Proof.
  intros Hc Hd. revert col. induction Hd as [|a D Ha _ IH]; intros col Hl; [exists col; by rewrite app_nil_r|].
  apply Forall_cons in Hc as [Hca Hc]. destruct Ha as (d & e & n & _ & He & Hle & Hn & Hv).
  rewrite fmap_cons. cbn [ofold]. unfold devstate_cache_cb at 1. cbn [length] in Hl. case_if; [lia|]. destruct Hca as [Hvo Hi Hf _ _].
  pose proof (encode_reads_as CHANGE a AST_EVENT_IE_EID Hvo Hi Hf) as Re. rewrite He in Re. destruct Re as (off & Re & _ & Rb).
  pose proof (encode_reads_as CHANGE a AST_EVENT_IE_STATE Hvo Hi Hf) as Rs. rewrite Hn in Rs. cbn [reads_as] in Rs.
  fold (event_of CHANGE a) in Re, Rb, Rs. rewrite Re. cbn [obind]. rewrite Rs. cbn [obind]. rewrite <- Hle, Rb. cbn [obind].
  destruct (IH Hc (col ++ [(n, e)])) as (col' & Ec & E'); [rewrite length_app; cbn; lia|]. exists col'. split; [exact Ec|].
  rewrite E', fmap_app, <- app_assoc. assert (Es : state_of a = n) by (unfold state_of; by rewrite Hn). by rewrite (fmap_cons state_of), Es.
Qed.

(** ** Devices *)

(** Names the cache can keep. *)
Record device_ok (d : str) : Prop := {
  do_chars : chars d;
  do_upper : hashed AST_EVENT_IE_DEVICE d = d;
  do_hash : ast_str_hash d <> - 2 ^ 31;
  do_length : Z.of_nat (length d) < 2 ^ 15
}.

Lemma length_element_str t s : length (snd (element (t, Str s))) = (5 + length s)%nat.
Proof. unfold element, payload, str_payload. cbn [fst snd]. rewrite !length_app, length_fmap, length_le32. cbn. lia. Qed.

Lemma device_cachable d args :
  device_ok d -> Forall value_ok args -> Forall (fun ie => insert (snd ie) = true) args -> Forall (fun ie => in_u 16 (fst ie)) args ->
  Z.of_nat (length (body (element <$> args))) < 2 ^ 14 -> cachable AST_EVENT_DEVICE_STATE ((AST_EVENT_IE_DEVICE, Str d) :: args).
Proof.
  intros [Hc Hu Hh Hl] Hv Hi Ht Hb. split.
  - by constructor.
  - by constructor.
  - split.
    + rewrite fmap_cons. constructor; [by unfold in_u|]. by rewrite Forall_fmap.
    + rewrite fmap_cons, body_cons, length_app, length_ie_bytes, length_element_str. lia.
  - repeat constructor. exact Hu.
  - exact Hh.
Qed.

Lemma device_query d : device_ok d -> cachable AST_EVENT_DEVICE_STATE [(AST_EVENT_IE_DEVICE, Str d)].
Proof. intros Hd. apply device_cachable; [done|constructor..|cbn; lia]. Qed.

(** The event the collector makes. *)
Definition told_args (d : str) (n : Z) : list (Z * ie_value) := [(AST_EVENT_IE_DEVICE, Str d); (AST_EVENT_IE_STATE, Uint n)].

Lemma state_cachable eid d n :
  device_ok d -> valid_state n -> length eid = 6%nat -> cachable AST_EVENT_DEVICE_STATE (new_args eid (told_args d n)).
Proof.
  intros Hd Hn He. apply device_cachable; [done|..].
  - repeat constructor; unfold valid_state in Hn; cbn; lia.
  - by repeat constructor.
  - repeat constructor; cbv; congruence.
  - cbn -[Z.of_nat]. rewrite app_nil_r, He. done.
Qed.

(** ** The collector *)

Section collector.
Context (alloc_ok : Z -> bool) (push_ok : bool) (eid : list Z) (Halloc : forall size, alloc_ok size = true) (Heid : length eid = 6%nat).

Lemma cached_state cs hist d :
  caches_ok cs hist -> good_hist hist -> device_ok d ->
  exists r, ast_event_get_cached alloc_ok eid cs AST_EVENT_DEVICE_STATE [(AST_EVENT_IE_DEVICE, Str d)] = Ret r /\
    match r with Some ev => exists old, ast_event_get_ie_uint ev AST_EVENT_IE_STATE = Ret old | None => True end.
Proof.
  intros Hcs Hh Hd. destruct (Hcs AST_EVENT_DEVICE_STATE eq_refl) as (l & Hl & Hs).
  eexists. split; [by apply (get_cached_state AST_EVENT_DEVICE_STATE eq_refl alloc_ok eid Halloc cs l _ _ Hl Hs), device_query|].
  destruct (last _) as [a|] eqn:E; [|done]. apply last_Some_elem_of, elem_of_filter_bool in E as [Ha _]. apply in_of_type in Ha.
  unfold good_hist in Hh. rewrite Forall_forall in Hh. destruct (Hh _ Ha) as [[_ [Hv Hi Hf _ _]] [_ Hn]]. destruct (Hn eq_refl) as [n Es].
  pose proof (encode_reads_as AST_EVENT_DEVICE_STATE a AST_EVENT_IE_STATE Hv Hi Hf) as Rs. cbn [snd] in Es. rewrite Es in Rs. by exists n.
Qed.

(** Telling the aggregate, when it is not what was told last. *)
Lemma process_correct s hist d c states collection :
  caches_ok (cache s) hist -> good_hist hist -> length (subs (evs s)) = Z.to_nat AST_EVENT_TOTAL -> device_ok d -> c <> 0 ->
  Forall valid_state states -> fst <$> collection = states ->
  exists s', process_collection alloc_ok true push_ok eid s d c collection = Ret s' /\
    devstate_cached alloc_ok eid s' d = Ret (aggregate_spec states).
Proof.
  intros Hcs Hh Hn Hd Hc Hv E. unfold process_collection. rewrite E, aggregate_value by done. cbn [obind]. set (n := aggregate_spec states).
  assert (Hval : valid_state n).
  { unfold n, aggregate_spec. case_if; [unfold valid_state; lia|]. by destruct (greatest_spec states Hv). }
  destruct (cached_state (cache s) hist d Hcs Hh Hd) as (r & Er & Hr). rewrite Er. cbn [obind].
  assert (Hput : exists s', (let* event := ast_event_new alloc_ok eid AST_EVENT_DEVICE_STATE (told_args d n) in
      match event with None => Ret s | Some ev => tell alloc_ok true push_ok s (ctrue c) ev end) = Ret s' /\ devstate_cached alloc_ok eid s' d = Ret n).
  { pose proof (state_cachable eid d n Hd Hval Heid) as Hca.
    destruct (new_encode alloc_ok eid AST_EVENT_DEVICE_STATE (told_args d n) ltac:(lia) (ca_fits _ _ Hca)) as [->|[[size H] _]]; [|by rewrite Halloc in H].
    cbn [obind]. fold (event_of AST_EVENT_DEVICE_STATE (new_args eid (told_args d n))). unfold tell.
    replace (ctrue c) with true by (unfold ctrue; by destruct (Z.eqb_spec c 0)).
    destruct (put_event_correct alloc_ok push_ok Halloc (evs s) (cache s) hist AST_EVENT_DEVICE_STATE _ Hcs Hn eq_refl Hca) as (e & cs' & Ep & Hcs' & _).
    unfold put_event in Ep. cbn [fst snd] in Ep. rewrite Ep. cbn [obind]. eexists. split; [done|].
    cbv [setter eta_of eta_devstate]. unfold devstate_cached. cbn [cache].
    destruct (Hcs' AST_EVENT_DEVICE_STATE eq_refl) as (l & Hl & Hs).
    rewrite (get_cached_state AST_EVENT_DEVICE_STATE eq_refl alloc_ok eid Halloc cs' l _ _ Hl Hs) by (by apply device_query). cbn [obind].
    rewrite of_type_app. cbn [Z.eqb Pos.eqb]. rewrite filter_last.
    replace (has_key AST_EVENT_DEVICE_STATE [(AST_EVENT_IE_DEVICE, Str d)] (new_args eid (told_args d n))) with true by (symmetry; by apply bool_decide_eq_true_2).
    cbn [fmap option_fmap option_map]. destruct Hca as [Hvo Hi Hf _ _].
    exact (encode_reads_as AST_EVENT_DEVICE_STATE _ AST_EVENT_IE_STATE Hvo Hi Hf). }
  destruct r as [ev|]; [|exact Hput]. destruct Hr as [old Hr]. rewrite Hr. cbn [obind]. case_if; [|exact Hput].
  exists s. split; [done|]. unfold devstate_cached. rewrite Er. cbn [obind]. by rewrite Hr, E0.
Qed.
End collector.


(** Two servers with a phone: at one it rings, at the other it is in use. *)
Definition change_args (d : string) (e : list Z) (n : Z) : Z * list (Z * ie_value) :=
  (CHANGE, [(AST_EVENT_IE_DEVICE, Str (zs d)); (AST_EVENT_IE_STATE, Uint n); (AST_EVENT_IE_CACHABLE, Uint 1); (AST_EVENT_IE_EID, Raw e)]).

Definition other_eid : list Z := [2; 0; 94; 16; 32; 49].

Definition sample_changes : list (Z * list (Z * ie_value)) :=
  [change_args "SIP/a" sample_eid AST_DEVICE_NOT_INUSE; change_args "SIP/a" other_eid AST_DEVICE_INUSE;
   change_args "SIP/b" other_eid AST_DEVICE_BUSY; change_args "SIP/a" sample_eid AST_DEVICE_RINGING].

Definition sample_collector : devstate :=
  match ofold (put_event (fun _ => true) true) (ast_event_init, cache_init) sample_changes with
  | Ret (e, c) => mk_devstate [] [] [] true [] e c
  | _ => mk_devstate [] [] [] true [] ast_event_init cache_init
  end.

Definition sample_change : devstate_change := mk_change AST_DEVICE_RINGING sample_eid 1 (zs "SIP/a").

Lemma collector_ring_in_use :
  (let* s := handle_devstate_change (fun _ => true) true true true sample_eid sample_collector 100 sample_change in
   let* (r, _) := ast_device_state (fun _ => true) true sample_eid [] (fun _ => None) s (Some (zs "SIP/a")) in Ret r) = Ret AST_DEVICE_RINGINUSE.
Proof. by vm_compute. Qed.


(** A change on this server is such an event, with the identifier of the server. *)
Lemma local_change alloc_ok push_ok eid s d n :
  (forall size, alloc_ok size = true) -> length eid = 6%nat -> collector_enabled s = true -> device_ok d -> valid_state n ->
  let a := new_args eid (told_args d n ++ [(AST_EVENT_IE_CACHABLE, Uint 1)]) in
  (cached_type CHANGE = true /\ cachable CHANGE a) /\ change_event a /\
  devstate_event alloc_ok true push_ok eid s d n 1 =
    let* (e, c) := put_event alloc_ok push_ok (evs s, cache s) (CHANGE, a) in Ret (s <| evs := e |> <| cache := c |>).
Proof.
  intros Ha He Hen [Hc Hu Hh Hl] Hn a. assert (Hca : cachable CHANGE a).
  { split.
    - repeat constructor; unfold valid_state in Hn; cbn; try done; lia.
    - by repeat constructor.
    - split; [repeat constructor; cbv; congruence|].
      change (element <$> a) with (element (AST_EVENT_IE_DEVICE, Str d) :: (element <$> [(AST_EVENT_IE_STATE, Uint n); (AST_EVENT_IE_CACHABLE, Uint 1); (AST_EVENT_IE_EID, Raw eid)])).
      rewrite body_cons, length_app, length_ie_bytes, length_element_str. cbn -[Z.of_nat Z.add Nat.add]. rewrite app_nil_r, He. lia.
    - repeat constructor. exact Hu.
    - exact Hh. }
  split; [done|]. split; [by exists d, eid, n|]. unfold devstate_event. rewrite Hen.
  destruct (new_encode alloc_ok eid CHANGE (told_args d n ++ [(AST_EVENT_IE_CACHABLE, Uint 1)]) ltac:(lia) (ca_fits _ _ Hca)) as [H|[[size H] _]]; [|by rewrite Ha in H].
  cbn [told_args app] in H. rewrite H. done.
Qed.

(** A provider that registers is asked about one of the devices that waited for it only,
    the last: the loop is left after the first entry. *)
Lemma provider_asks_one :
  let s := mk_devstate [] [(zs "Custom", zs "b"); (zs "Custom", zs "a")] [] false [] ast_event_init cache_init in
  (let* (r, s) := ast_devstate_prov_add (fun _ => true) true true true sample_eid [] (fun _ => None) true s (zs "Custom") (Some (fun _ => AST_DEVICE_INUSE)) in
   Ret (state_changes s, devstate_no_providers s)) = Ret ([(zs "Custom:b", 1)], [(zs "Custom", zs "a")]).
Proof. by vm_compute. Qed.
