(* ===== verification/DynStr.v ===== *)
(** * Dynamic strings ([main/strings.c], [include/asterisk/strings.h])

    A dynamic string is a C string in a block that grows.  This file models the block
    as the list of its cells, so that every write is checked against its size, and shows
    what the operations do to the string in it; also where they write outside.

    What [realloc] adds is not known: [al] gives, for a new size, the cells it adds, or
    fails.  The format of a call is modelled by its result [text], the string the format
    and its arguments stand for.  Sizes are below [2^31], so that the [int] counters hold
    them. *)

From S2P Require Extension.
From S2P Require Import Prelude.
From Stdlib Require Import ZArith Lia.
From stdpp Require Import base list numbers strings.

#[local] Open Scope Z_scope.
#[local] Open Scope outcome_scope.
#[local] Open Scope record_scope.

Abbreviation zlen l := (Z.of_nat (length l)).

(** ** Memory *)

(** Storing the cells [s] from index [i] on. *)
Definition store_cells (m : list Z) (i : Z) (s : list Z) : outcome (list Z) :=
  if (0 <=? i) && (i + zlen s <=? zlen m)
  then Ret (take (Z.to_nat i) m ++ s ++ drop (Z.to_nat i + length s) m)
  else BadAccess.

(** The C string at the start of a block. *)
Fixpoint cstring (m : list Z) : outcome str :=
  match m with
  | [] => BadAccess
  | c :: m => if c =? 0 then Ret [] else let* s := cstring m in Ret (c :: s)
  end.

(** [vsnprintf] into the block; [size] is a [size_t]. It returns the length of [text]. *)
Definition vsnprintf (m : list Z) (offset size : Z) (text : str) : outcome (list Z) :=
  if size =? 0 then Ret m else store_cells m offset (take (Z.to_nat (size - 1)) text ++ [0]).

(** The difference of two sizes, as a [size_t]. *)
Definition size_sub (a b : Z) : Z := if b <=? a then a - b else a - b + 2 ^ 64.

(** ** The structure *)

Inductive str_storage := DS_MALLOC | DS_ALLOCA | DS_STATIC | DS_THREAD.

Record ast_str := mk_ast_str { as_ts : str_storage; as_str : list Z; as_used : Z }.

#[export] Instance eta_ast_str : Eta ast_str := fun b => mk_ast_str (as_ts b) (as_str b) (as_used b).

(** [__AST_STR_LEN] *)
Definition as_len (b : ast_str) : Z := zlen (as_str b).

(** The answers of [realloc]: the cells of a block of the size. *)
Definition reallocator := Z -> option (nat -> Z).

(** [calloc] clears the block. *)
Definition ast_str_create (mem_ok : bool) (init_len : Z) : option ast_str :=
  if mem_ok then Some (mk_ast_str DS_MALLOC (replicate (Z.to_nat init_len) 0) 0) else None.

(** [ast_str_alloca]: only the first cell is set. *)
Definition ast_str_alloca (init_len : Z) (stack : nat -> Z) : outcome ast_str :=
  let* m := store_cells (stack <$> seq 0 (Z.to_nat init_len)) 0 [0] in Ret (mk_ast_str DS_ALLOCA m 0).

Definition ast_str_reset (b : ast_str) : outcome ast_str :=
  if as_len b =? 0 then Ret (b <| as_used := 0 |>)
  else let* m := store_cells (as_str b) 0 [0] in Ret (b <| as_used := 0 |> <| as_str := m |>).

Definition ast_str_update (b : ast_str) : outcome ast_str :=
  let* s := cstring (as_str b) in Ret (b <| as_used := zlen s |>).

Definition ast_str_strlen (b : ast_str) : Z := as_used b.
Definition ast_str_size (b : ast_str) : Z := as_len b.

(** What a reader of [ast_str_buffer] sees. *)
Definition ast_str_buffer (b : ast_str) : outcome str := cstring (as_str b).

(** The loop of [ast_str_trim_blanks]; [char] is signed. *)
Fixpoint trim_loop (fuel : nat) (m : list Z) (used : Z) : outcome (list Z * Z) :=
  match fuel with
  | O => NoFuel
  | S fuel =>
      if used =? 0 then Ret (m, used)
      else
        let* c := oaccess (m !! Z.to_nat (used - 1)) in
        if c <? 33 then let* m := store_cells m (used - 1) [0] in trim_loop fuel m (used - 1)
        else Ret (m, used)
  end.

Definition ast_str_trim_blanks (b : ast_str) : outcome ast_str :=
  let* (m, used) := trim_loop (S (Z.to_nat (as_used b))) (as_str b) (as_used b) in
  Ret (b <| as_str := m |> <| as_used := used |>).

Definition ast_str_truncate (b : ast_str) (len : Z) : outcome ast_str :=
  let used := if len <? 0 then (if - len >=? as_used b then 0 else as_used b + len) else len in
  let* m := store_cells (as_str b) used [0] in Ret (b <| as_used := used |> <| as_str := m |>).

Definition ast_str_make_space (al : reallocator) (b : ast_str) (new_len : Z) : Z * ast_str :=
  if new_len <=? as_len b then (0, b)
  else match as_ts b with
  | DS_ALLOCA | DS_STATIC => (-1, b)
  | _ =>
      match al new_len with
      | None => (-1, b)
      | Some g => (0, b <| as_str ::= fun m => m ++ (g <$> seq (length m) (Z.to_nat new_len - length m)) |>)
      end
  end.

Definition ast_str_copy_string (al : reallocator) (dst src : ast_str) : outcome (Z * ast_str) :=
  let (rc, dst) := if as_used src + 1 >? as_len dst then ast_str_make_space al dst (as_used src + 1) else (0, dst) in
  if negb (rc =? 0) then Ret (-1, dst)
  else
    let n := Z.to_nat (as_used src + 1) in
    if (length (as_str src) <? n)%nat then BadAccess
    else let* m := store_cells (as_str dst) 0 (take n (as_str src)) in
         Ret (0, dst <| as_str := m |> <| as_used := as_used src |>).

(** ** Formatting *)

(** The loop of [__ast_str_helper]; [need] is what the string and its NUL take. *)
Fixpoint helper_loop (fuel : nat) (al : reallocator) (b : ast_str) (max_len offset : Z) (text : str)
    : outcome (Z * ast_str) :=
  match fuel with
  | O => NoFuel
  | S fuel =>
      let max_len := if max_len <? 0 then as_len b else max_len in
      let* m := vsnprintf (as_str b) offset (size_sub (as_len b) offset) text in
      let b := b <| as_str := m |> in
      let res := zlen text in
      let need := res + offset + 1 in
      if (need >? as_len b) && ((max_len =? 0) || (as_len b <? max_len)) then
        let need := if negb (max_len =? 0) && (max_len <? need) then max_len
                    else if max_len =? 0 then need + (16 + need / 4) else need in
        let (rc, b) := ast_str_make_space al b need in
        if negb (rc =? 0) then Ret (-1, b)
        else let* m := store_cells (as_str b) offset [0] in
             helper_loop fuel al (b <| as_str := m |>) max_len offset text
      else Ret (res, b <| as_used := if res + offset >? as_len b then size_sub (as_len b) 1 else res + offset |>)
  end.

Definition __ast_str_helper (al : reallocator) (b : ast_str) (max_len : Z) (append : bool) (text : str)
    : outcome (Z * ast_str) :=
  helper_loop 2 al b max_len (if append && negb (as_len b =? 0) then as_used b else 0) text.

Definition ast_str_set al b max_len text := __ast_str_helper al b max_len false text.
Definition ast_str_append al b max_len text := __ast_str_helper al b max_len true text.

(** ** Copying *)

(** One character of the loop of [__ast_str_helper2], escaped if it has to be, with the
    index of the next cell and the room left. *)
Definition helper2_char (escapecommas : bool) (b : ast_str) (ptr maxlen c : Z) : outcome (ast_str * Z * Z) :=
  let* (b, ptr, maxlen) :=
    (if escapecommas && ((c =? 92) || (c =? 44)) then
       let* m := store_cells (as_str b) ptr [92] in
       Ret (b <| as_str := m |> <| as_used ::= Z.succ |>, ptr + 1, maxlen - 1)
     else Ret (b, ptr, maxlen)) in
  let* m := store_cells (as_str b) ptr [c] in
  Ret (b <| as_str := m |> <| as_used ::= Z.succ |>, ptr + 1, maxlen - 1).

Fixpoint helper2_loop (al : reallocator) (escapecommas dynamic : bool) (b : ast_str) (ptr maxlen : Z)
    (src : str) (maxsrc : Z) : outcome (ast_str * Z * Z) :=
  match src with
  | [] => Ret (b, ptr, maxlen)
  | c :: src =>
      if (maxsrc =? 0) || (maxlen =? 0) || (escapecommas && (maxlen - 1 =? 0)) then Ret (b, ptr, maxlen)
      else
        let* (b, ptr, maxlen) := helper2_char escapecommas b ptr maxlen c in
        if (ptr >=? as_len b - 3) || (dynamic && ((maxlen =? 0) || (escapecommas && (maxlen - 1 =? 0)))) then
          let old := as_len b in
          let (rc, b) := ast_str_make_space al b (old * 2) in
          if negb (rc =? 0) then Ret (b, ptr, maxlen)
          else helper2_loop al escapecommas dynamic b ptr old src (maxsrc - 1)
        else helper2_loop al escapecommas dynamic b ptr maxlen src (maxsrc - 1)
  end.

(** [maxsrc] is a [size_t]. *)
Definition __ast_str_helper2 (al : reallocator) (b : ast_str) (maxlen : Z) (src : str) (maxsrc : Z)
    (append escapecommas : bool) : outcome ast_str :=
  let ptr := if append then as_used b else 0 in
  let dynamic := maxlen =? 0 in
  let maxlen := if maxlen <? 1 then as_len b else maxlen in
  let* (b, ptr, maxlen) := helper2_loop al escapecommas dynamic b ptr maxlen src (size_sub maxsrc 0) in
  let ptr := if maxlen =? 0 then ptr - 1 else ptr in
  let* m := store_cells (as_str b) ptr [0] in
  Ret (b <| as_str := m |>).

Definition ast_str_set_substr al b maxlen src maxsrc := __ast_str_helper2 al b maxlen src maxsrc false false.
Definition ast_str_append_substr al b maxlen src maxsrc := __ast_str_helper2 al b maxlen src maxsrc true false.
Definition ast_str_set_escapecommas al b maxlen src maxsrc := __ast_str_helper2 al b maxlen src maxsrc false true.
Definition ast_str_append_escapecommas al b maxlen src maxsrc := __ast_str_helper2 al b maxlen src maxsrc true true.

#[global] Arguments ast_str_set : simpl never.
#[global] Arguments ast_str_append : simpl never.
#[global] Arguments ast_str_set_substr : simpl never.
#[global] Arguments ast_str_append_substr : simpl never.
#[global] Arguments ast_str_reset : simpl never.
#[global] Arguments ast_str_create : simpl never.
#[global] Arguments ast_str_buffer : simpl never.

(** ** A part of the string ([ast_str_substring] of [main/pbx.c])

    Extension.v has the same function on strings; here it works on the block, with the
    length the structure says it has. *)

Definition ds_substring (b : ast_str) (offset length_ : Z) : outcome ast_str :=
  let lr := ast_str_strlen b in
  if (offset =? 0) && (length_ >=? lr) then Ret b
  else
    let offset := if offset <? 0 then (if lr + offset <? 0 then 0 else lr + offset) else offset in
    if offset >=? lr then ast_str_reset b
    else
      let* b := (if offset >? 0 then
                   let n := Z.to_nat (lr - offset + 1) in
                   if (length (as_str b) <? Z.to_nat offset + n)%nat then BadAccess
                   else let* m := store_cells (as_str b) 0 (take n (drop (Z.to_nat offset) (as_str b))) in
                        Ret (b <| as_str := m |>)
                 else Ret b) in
      let lr := if offset >? 0 then lr - offset else lr in
      if (length_ >=? 0) && (length_ <? lr) then
        let* m := store_cells (as_str b) length_ [0] in ast_str_update (b <| as_str := m |>)
      else if length_ <? 0 then
        if lr >? s32 (- length_) then
          let* m := store_cells (as_str b) (lr + length_) [0] in ast_str_update (b <| as_str := m |>)
        else ast_str_reset b
      else ast_str_update b.

(** ** What a block holds *)

(** The block has room and starts with the string [s]; [dyn] says also that the counter
    is its length. *)
Definition holds (b : ast_str) (s : str) : Prop := cstr s /\ exists rest, as_str b = s ++ 0 :: rest.

Record dyn (b : ast_str) (s : str) : Prop := { dyn_holds : holds b s; dyn_used : as_used b = zlen s }.

(** A block that can grow, when memory is there. *)
Definition growable (b : ast_str) : Prop := as_ts b = DS_MALLOC \/ as_ts b = DS_THREAD.
Definition never_fails (al : reallocator) : Prop := forall n, is_Some (al n).

Lemma cstring_app (s rest : str) : cstr s -> cstring (s ++ 0 :: rest) = Ret s.
Proof. induction 1 as [|c s Hc _ IH]; cbn; [done|]. rewrite (proj2 (Z.eqb_neq c 0) Hc), IH. done. Qed.

Lemma holds_buffer b s : holds b s -> ast_str_buffer b = Ret s.
Proof. intros [Hs [rest Hb]]. unfold ast_str_buffer. rewrite Hb. by apply cstring_app. Qed.

Lemma holds_len b s : holds b s -> zlen s < as_len b.
Proof. intros [_ [rest Hb]]. unfold as_len. rewrite Hb, length_app. cbn. lia. Qed.

Lemma cstr_app s t : cstr (s ++ t) <-> cstr s /\ cstr t.
Proof. apply Forall_app. Qed.

Lemma cstr_take n s : cstr s -> cstr (take n s).
Proof. apply Forall_take. Qed.

Lemma cstr_drop n s : cstr s -> cstr (drop n s).
Proof. apply Forall_drop. Qed.

Lemma store_after (m s r t : list Z) (i : Z) : m = s ++ r -> i = zlen s -> (length t <= length r)%nat ->
  store_cells m i t = Ret (s ++ t ++ drop (length t) r).
Proof.
  intros -> -> Hl. unfold store_cells. rewrite length_app, Nat2Z.id.
  rewrite !(proj2 (Z.leb_le _ _)) by lia. cbn [andb].
  by rewrite take_app_length, <- drop_drop, drop_app_length.
Qed.

(** Overwriting a cell with a NUL cuts the string there. *)
Lemma store_nul (m : list Z) (i : Z) : 0 <= i < zlen m ->
  exists r, store_cells m i [0] = Ret (take (Z.to_nat i) m ++ 0 :: r) /\ length r = (length m - Z.to_nat i - 1)%nat.
Proof.
  intros Hi. exists (drop 1 (drop (Z.to_nat i) m)). split.
  - apply (store_after _ _ (drop (Z.to_nat i) m)); [by rewrite take_drop| |cbn; rewrite length_drop; lia].
    rewrite length_take. lia.
  - rewrite !length_drop. lia.
Qed.

(** ** Growing *)

Lemma make_space_grows al b n : growable b -> never_fails al ->
  exists b', ast_str_make_space al b n = (0, b') /\ growable b' /\ as_used b' = as_used b /\
    as_len b' = Z.max n (as_len b) /\ exists r, as_str b' = as_str b ++ r.
Proof.
  intros Hg Ha. unfold ast_str_make_space. destruct (Z.leb_spec n (as_len b)).
  { exists b. repeat split; [done|lia|]. exists []. by rewrite app_nil_r. }
  destruct (Ha n) as [g ->].
  eexists. split; [by destruct Hg as [-> | ->]|]. cbn. split; [exact Hg|]. split; [done|].
  unfold as_len in *. cbn. split; [|eauto]. rewrite length_app, length_fmap, length_seq. lia.
Qed.

(** ** Formatting *)

Lemma vsnprintf_after (m s r text : list Z) : m = s ++ r -> r <> [] ->
  exists r', vsnprintf m (zlen s) (size_sub (zlen m) (zlen s)) text =
    Ret (s ++ take (length r - 1) text ++ 0 :: r') /\
    length (take (length r - 1) text ++ 0 :: r') = length r.
Proof.
  intros -> Hr. unfold vsnprintf, size_sub. rewrite length_app, (proj2 (Z.leb_le _ _)) by lia.
  replace (Z.of_nat (length s + length r) - zlen s) with (zlen r) by lia.
  destruct r as [|c r]; [done|]. rewrite (proj2 (Z.eqb_neq _ _)) by (cbn; lia).
  replace (Z.to_nat (zlen (c :: r) - 1)) with (length (c :: r) - 1)%nat by lia.
  set (t := take (length (c :: r) - 1) text). assert (Ht : (length t <= length r)%nat) by (unfold t; rewrite length_take; cbn; lia).
  clearbody t. rewrite (store_after _ s (c :: r)) by (done || (rewrite length_app; cbn [length]; lia)).
  rewrite length_app, <- app_assoc. cbn [app length]. eexists. split; [done|].
  rewrite length_app. cbn. rewrite length_drop. cbn. lia.
Qed.

(** The size of the block after a call. *)
Definition final_len (len max_len need : Z) : Z :=
  if need <=? len then len
  else if max_len =? 0 then need + (16 + need / 4)
  else if max_len <=? len then len else Z.min need max_len.

(** What [__ast_str_helper] leaves after text [text] was written behind [s]. *)
Definition formatted (b' : ast_str) (s text : str) (cap : Z) : Prop :=
  growable b' /\ as_len b' = cap /\ holds b' (take (Z.to_nat (cap - 1)) (s ++ text)) /\
  as_used b' = if zlen (s ++ text) >? cap then cap - 1 else zlen (s ++ text).

Lemma helper_fits fuel al b max_len s r text : growable b -> as_str b = s ++ r -> r <> [] -> cstr s -> cstr text ->
  zlen (s ++ text) + 1 <= as_len b \/ max_len < 0 \/ 0 < max_len <= as_len b ->
  exists b', helper_loop (S fuel) al b max_len (zlen s) text = Ret (zlen text, b') /\ formatted b' s text (as_len b).
Proof.
  intros Hg Hb Hr Hs Ht Hfit.
  assert (Hl : as_len b = zlen s + zlen r) by (unfold as_len; rewrite Hb, length_app; lia).
  assert (Hr1 : (1 <= length r)%nat) by (destruct r; [done|cbn; lia]).
  destruct (vsnprintf_after (as_str b) s r text Hb Hr) as (r' & Hv & Hlr).
  change (zlen (as_str b)) with (as_len b) in Hv. cbn [helper_loop]. rewrite Hv. cbn [obind].
  set (b1 := b <| as_str := _ |>).
  assert (Hl1 : as_len b1 = as_len b) by (unfold b1, as_len in *; cbn; rewrite length_app, Hlr; lia).
  rewrite !Hl1. rewrite length_app in Hfit.
  match goal with |- context [if ?c then _ else Ret _] => assert (E : c = false) end.
  { apply andb_false_iff. destruct (Z.gtb_spec (zlen text + zlen s + 1) (as_len b)); [right|by left].
    apply orb_false_iff. case_if; split; zb; first [apply Z.eqb_neq|apply Z.ltb_ge]; lia. }
  rewrite E. eexists. split; [done|]. split; [done|].
  replace (as_len (b1 <| as_used := _ |>)) with (as_len b1) by done. split; [exact Hl1|]. split.
  - split; [apply cstr_take, cstr_app; auto|].
    exists r'. cbn. rewrite take_app, (take_ge s) by lia.
    replace (Z.to_nat (as_len b - 1) - length s)%nat with (length r - 1)%nat by lia.
    by rewrite <- app_assoc.
  - cbn. rewrite length_app. destruct (Z.gtb_spec (zlen text + zlen s) (as_len b)), (Z.gtb_spec (Z.of_nat (length s + length text)) (as_len b)); try lia.
    unfold size_sub. by rewrite (proj2 (Z.leb_le _ _)) by lia.
Qed.

(** The first round of the loop when the block has to grow to [need]. *)
Lemma helper_grows al b max_len s r text need : growable b -> never_fails al -> as_str b = s ++ r -> r <> [] ->
  0 <= max_len -> max_len = 0 \/ as_len b < max_len -> as_len b < zlen text + zlen s + 1 ->
  as_len b < need ->
  need = (if negb (max_len =? 0) && (max_len <? zlen text + zlen s + 1) then max_len
          else if max_len =? 0 then zlen text + zlen s + 1 + (16 + (zlen text + zlen s + 1) / 4)
          else zlen text + zlen s + 1) ->
  exists b' r', helper_loop 2 al b max_len (zlen s) text = helper_loop 1 al b' max_len (zlen s) text /\
    growable b' /\ as_len b' = need /\ as_str b' = s ++ r' /\ r' <> [].
Proof.
  intros Hg Ha Hb Hr Hm0 Hm Hneed Hlt Hn.
  assert (Hl : as_len b = zlen s + zlen r) by (unfold as_len; rewrite Hb, length_app; lia).
  destruct (vsnprintf_after (as_str b) s r text Hb Hr) as (r' & Hv & Hlr).
  remember 1%nat as one; cbn [helper_loop]; subst one. rewrite (proj2 (Z.ltb_ge max_len 0)) by done.
  change (zlen (as_str b)) with (as_len b) in Hv. rewrite Hv. cbn [obind]. set (q := take (length r - 1) text ++ 0 :: r') in *.
  set (b1 := b <| as_str := _ |>).
  assert (Hl1 : as_len b1 = as_len b) by (unfold b1, as_len in *; cbn; rewrite length_app, Hlr; lia).
  rewrite Hl1, (proj2 (Z.gtb_lt _ _)) by lia. cbn [andb]. rewrite <- Hn.
  assert (Eb : (max_len =? 0) || (as_len b <? max_len) = true)
    by (apply orb_true_iff; rewrite Z.eqb_eq, Z.ltb_lt; tauto).
  rewrite Eb. destruct (make_space_grows al b1 need) as (b2 & -> & Hg2 & Hu2 & Hl2 & r2 & Hb2); [done|done|].
  cbn [negb Z.eqb]. assert (Hb2' : as_str b2 = s ++ q ++ r2) by (rewrite Hb2; unfold b1; cbn; by rewrite <- app_assoc).
  assert (Hq1 : (1 <= length (q ++ r2))%nat) by (rewrite length_app, Hlr; destruct r; [done|cbn; lia]).
  rewrite (store_after _ s (q ++ r2) [0]) by (done || cbn; lia). cbn [obind].
  eexists _, (0 :: drop 1 (q ++ r2)). split; [done|]. split; [done|]. split; [|done].
  unfold as_len in *. cbn. rewrite Hb2' in Hl2. rewrite !length_app in *. cbn. rewrite length_drop, length_app. lia.
Qed.

Lemma helper_spec al b max_len s r text : growable b -> never_fails al -> as_str b = s ++ r -> r <> [] -> cstr s -> cstr text ->
  let cap := final_len (as_len b) max_len (zlen (s ++ text) + 1) in
  exists b', helper_loop 2 al b max_len (zlen s) text = Ret (zlen text, b') /\ formatted b' s text cap.
Proof.
  intros Hg Ha Hb Hr Hs Ht cap. assert (Hc : cap = final_len (as_len b) max_len (zlen (s ++ text) + 1)) by done.
  clearbody cap. assert (Hb0 : 0 <= as_len b) by (unfold as_len; lia). assert (Hz : zlen (s ++ text) = zlen text + zlen s) by (rewrite length_app; lia).
  unfold final_len in Hc. revert Hc.
  destruct (Z.leb_spec (zlen (s ++ text) + 1) (as_len b)) as [Hn|Hn].
  { intros ->. apply (helper_fits 1 al b max_len s r text); auto. }
  destruct (Z.eqb_spec max_len 0) as [Hm0|Hm0]; [|destruct (Z.leb_spec max_len (as_len b)) as [Hm|Hm]]; intros Hc.
  2:{ rewrite Hc. apply (helper_fits 1 al b max_len s r text); auto. right. lia. }
  all: assert (Hq : 0 <= (zlen (s ++ text) + 1) / 4) by (apply Z.div_pos; lia).
  all: destruct (helper_grows al b max_len s r text cap) as (b3 & r3 & -> & Hg3 & Hl3 & Hb3 & Hr3); auto; try lia.
  - subst max_len. cbn. by rewrite <- Hz.
  - rewrite <- Hl3. apply (helper_fits 0 al b3 max_len s r3 text); auto.
    left. rewrite Hl3. lia.
  - rewrite (proj2 (Z.eqb_neq _ _) Hm0). cbn. case_if; lia.
  - rewrite <- Hl3. apply (helper_fits 0 al b3 max_len s r3 text); auto. lia.
Qed.

Lemma as_len_nonneg b : 0 <= as_len b.
Proof. unfold as_len. lia. Qed.

Lemma ast_str_append_formatted al b max_len s text : growable b -> never_fails al -> dyn b s -> cstr text ->
  let cap := final_len (as_len b) max_len (zlen (s ++ text) + 1) in
  exists b', ast_str_append al b max_len text = Ret (zlen text, b') /\ formatted b' s text cap.
Proof.
  intros Hg Ha [[Hs [rest Hb]] Hu] Ht cap. unfold ast_str_append, __ast_str_helper.
  assert (Hn : as_len b <> 0) by (unfold as_len; rewrite Hb, length_app; cbn; lia).
  rewrite (proj2 (Z.eqb_neq _ _) Hn), Hu. cbn [andb negb]. by apply helper_spec with (0 :: rest).
Qed.

Lemma ast_str_set_formatted al b max_len text : growable b -> never_fails al -> 0 < as_len b -> cstr text ->
  let cap := final_len (as_len b) max_len (zlen text + 1) in
  exists b', ast_str_set al b max_len text = Ret (zlen text, b') /\ formatted b' [] text cap.
Proof.
  intros Hg Ha Hp Ht cap. unfold ast_str_set, __ast_str_helper. cbn [andb].
  apply (helper_spec al b max_len [] (as_str b) text); try done; [|constructor].
  intros E. unfold as_len in Hp. by rewrite E in Hp.
Qed.

(** A text for which there is room, in the block or in what the call may make of it, is not
    cut. *)
Definition whole (len max_len need : Z) : Prop := need <= len \/ max_len = 0 \/ need <= max_len.

Lemma formatted_whole b b' s text max_len : whole (as_len b) max_len (zlen (s ++ text) + 1) -> cstr (s ++ text) ->
  formatted b' s text (final_len (as_len b) max_len (zlen (s ++ text) + 1)) -> growable b' /\ dyn b' (s ++ text).
Proof.
  intros Hw Hst (Hg & Hl & Hh & Hu). split; [done|].
  assert (Hc : zlen (s ++ text) + 1 <= final_len (as_len b) max_len (zlen (s ++ text) + 1)).
  { unfold final_len. case_if; [lia|]. assert (0 <= (zlen (s ++ text) + 1) / 4) by (apply Z.div_pos; lia).
    destruct Hw as [?|[-> |?]]; [lia|cbn; lia|]. repeat case_if; lia. }
  rewrite take_ge in Hh by lia. split; [done|]. rewrite Hu. case_if; lia.
Qed.

(** Without a bound, nothing is cut. *)
Lemma formatted_unbounded b b' s text : cstr (s ++ text) -> formatted b' s text (final_len (as_len b) 0 (zlen (s ++ text) + 1)) ->
  growable b' /\ dyn b' (s ++ text).
Proof. intros Hst. apply formatted_whole; [by right; left|done]. Qed.

(** ** Copying *)

(** The characters that are copied: at most [maxsrc], commas and backslashes escaped. *)
Definition escaped_char (escapecommas : bool) (c : Z) : str :=
  if escapecommas && ((c =? 92) || (c =? 44)) then [92; c] else [c].

Definition escaped (escapecommas : bool) (s : str) : str := s ≫= escaped_char escapecommas.

Lemma escaped_plain s : escaped false s = s.
Proof. induction s as [|c s IH]; cbn; [done|]. unfold escaped in IH. by rewrite IH. Qed.

Lemma escaped_cstr e s : cstr s -> cstr (escaped e s).
Proof.
  induction 1 as [|c s Hc _ IH]; [constructor|]. unfold escaped. cbn. apply Forall_app. split; [|exact IH].
  unfold escaped_char. case_if; repeat constructor; done.
Qed.

(** The room that has to be there before a character is copied. *)
Definition room (escapecommas : bool) : Z := if escapecommas then 2 else 1.

Lemma escaped_char_length e c : 1 <= zlen (escaped_char e c) <= room e.
Proof. unfold escaped_char, room. destruct e; cbn; [case_if; cbn; lia|lia]. Qed.

Lemma helper2_char_spec e b s r maxlen c : as_str b = s ++ r -> room e <= zlen r ->
  helper2_char e b (zlen s) maxlen c =
    Ret (b <| as_str := (s ++ escaped_char e c) ++ drop (length (escaped_char e c)) r |>
           <| as_used := as_used b + zlen (escaped_char e c) |>,
         zlen (s ++ escaped_char e c), maxlen - zlen (escaped_char e c)).
Proof.
  intros Hb Hr. unfold helper2_char, escaped_char, room in *.
  assert (Hone : forall s r b', as_str b' = s ++ r -> 1 <= zlen r -> store_cells (as_str b') (zlen s) [c] = Ret ((s ++ [c]) ++ drop 1 r)).
  { intros s0 r0 b' E Hl. rewrite (store_after _ s0 r0) by (done || cbn; lia). by rewrite <- app_assoc. }
  destruct (e && _) eqn:Ec.
  - destruct e; [|done]. rewrite (store_after _ s r) by (done || cbn; lia). cbn [obind].
    replace (zlen s + 1) with (zlen (s ++ [92])) by (rewrite length_app; cbn; lia).
    rewrite (Hone _ (drop 1 r)) by (cbn; rewrite ?length_drop, <- ?app_assoc; done || lia).
    cbn [obind]. rewrite drop_drop, <- !app_assoc, !length_app. cbn [length app].
    unfold setter. cbn.
    match goal with |- Ret (mk_ast_str _ _ ?u, ?p, ?m) = Ret (mk_ast_str _ _ ?u', ?p', ?m') =>
      replace u' with u by lia; replace p' with p by lia; replace m' with m by lia end. done.
  - cbn [obind]. rewrite (Hone _ r) by (done || destruct e; lia). cbn [obind]. rewrite !length_app. cbn [length].
    unfold setter. cbn.
    match goal with |- Ret (mk_ast_str _ _ ?u, ?p, ?m) = Ret (mk_ast_str _ _ ?u', ?p', ?m') =>
      replace u' with u by lia; replace p' with p by lia; replace m' with m by lia end. done.
Qed.

Lemma helper2_spec al e src : never_fails al -> forall b s r maxlen maxsrc,
  growable b -> as_str b = s ++ r -> room e <= zlen r -> room e <= maxlen -> 0 <= maxsrc ->
  exists b' r' maxlen', helper2_loop al e true b (zlen s) maxlen src maxsrc =
      Ret (b', zlen (s ++ escaped e (take (Z.to_nat maxsrc) src)), maxlen') /\
    growable b' /\ as_str b' = (s ++ escaped e (take (Z.to_nat maxsrc) src)) ++ r' /\
    room e <= zlen r' /\ room e <= maxlen' /\
    as_used b' = as_used b + zlen (escaped e (take (Z.to_nat maxsrc) src)).
Proof.
  intros Ha. induction src as [|c src IH]; intros b s r maxlen maxsrc Hg Hb Hr Hm Hs.
  { exists b, r, maxlen. cbn [helper2_loop]. rewrite take_nil. cbn [escaped mbind list_bind]. rewrite app_nil_r. cbn. repeat split; auto; lia. }
  cbn [helper2_loop]. destruct (Z.eqb_spec maxsrc 0) as [->|Hn]; cbn [orb].
  { exists b, r, maxlen. rewrite take_0. cbn [escaped mbind list_bind]. rewrite app_nil_r. cbn. repeat split; auto; lia. }
  assert (He : 1 <= room e <= 2) by (unfold room; destruct e; lia).
  rewrite (proj2 (Z.eqb_neq maxlen 0)) by lia. cbn [orb].
  assert (Hm1 : e && (maxlen - 1 =? 0) = false) by (destruct e; cbn in *; [apply Z.eqb_neq; lia|done]). rewrite Hm1.
  rewrite (helper2_char_spec e b s r) by done. cbn [obind].
  pose proof (escaped_char_length e c) as Hk. set (k := escaped_char e c) in *.
  replace (Z.to_nat maxsrc) with (S (Z.to_nat (maxsrc - 1))) by lia. cbn [take escaped mbind list_bind].
  change (mbind (escaped_char e) (take (Z.to_nat (maxsrc - 1)) src)) with (escaped e (take (Z.to_nat (maxsrc - 1)) src)).
  set (b1 := b <| as_str := _ |> <| as_used := _ |>).
  assert (Hl1 : as_len b1 = zlen s + zlen r) by (unfold as_len, b1; cbn; rewrite !length_app, length_drop; lia).
  change (escaped_char e c) with k. rewrite (app_assoc s k), (length_app k), Nat2Z.inj_add, Z.add_assoc.
  change (as_used b + zlen k) with (as_used b1).
  case_if.
  - destruct (make_space_grows al b1 (as_len b1 * 2)) as (b2 & -> & Hg2 & Hu2 & Hl2 & r2 & Hb2); [done|done|].
    cbn [negb Z.eqb]. rewrite <- Hu2. apply IH with (drop (length k) r ++ r2); try done; try lia.
    + rewrite Hb2. unfold b1; cbn. by rewrite <- app_assoc.
    + unfold as_len in Hl1, Hl2. rewrite Hb2, length_app in Hl2. rewrite length_app, length_drop. lia.
  - match goal with H : _ \/ _ |- _ => destruct H as [|Hm2]; [done|] end.
    match goal with H : _ < as_len b1 - 3 |- _ => rewrite length_app in H end.
    apply IH with (drop (length k) r); try done; try lia; [rewrite length_drop; lia|].
    unfold room in *. destruct e; cbn in *; zb; lia.
Qed.

(** [__ast_str_helper2] without a bound: what is copied stands behind [s]; the counter
    grows by its length, whatever it was. *)
Lemma helper2_unbounded al (b : ast_str) (s r src : str) (n : Z) (append e : bool) :
  growable b -> never_fails al -> as_str b = s ++ r -> zlen s = (if append then as_used b else 0) ->
  room e <= zlen r -> 0 <= n -> cstr s -> cstr src ->
  exists b', __ast_str_helper2 al b 0 src n append e = Ret b' /\ growable b' /\
    holds b' (s ++ escaped e (take (Z.to_nat n) src)) /\
    as_used b' = as_used b + zlen (escaped e (take (Z.to_nat n) src)).
Proof.
  intros Hg Ha Hb Hp Hr Hn Hs Hsrc. unfold __ast_str_helper2. cbn [Z.eqb Z.ltb Z.compare]. rewrite <- Hp.
  assert (Hlen : as_len b = zlen s + zlen r) by (unfold as_len; rewrite Hb, length_app; lia).
  unfold size_sub. rewrite (proj2 (Z.leb_le 0 n)), Z.sub_0_r by done.
  destruct (helper2_spec al e src Ha b s r (as_len b) n) as (b' & r' & ml & -> & Hg' & Hb' & Hr' & Hm' & Hu'); try done; [lia|].
  assert (1 <= room e) by (unfold room; destruct e; lia). cbn [obind]. rewrite (proj2 (Z.eqb_neq ml 0)) by lia.
  rewrite (store_after _ _ _ _ _ Hb') by (done || cbn; lia). cbn [obind].
  eexists. split; [done|]. split; [done|]. split; [|done]. split.
  - apply cstr_app. split; [done|]. by apply escaped_cstr, cstr_take.
  - cbn. eauto.
Qed.

Lemma ast_str_append_substr_ok al b s src n : growable b -> never_fails al -> dyn b s -> cstr src -> 0 <= n ->
  exists b', ast_str_append_substr al b 0 src n = Ret b' /\ growable b' /\ dyn b' (s ++ take (Z.to_nat n) src).
Proof.
  intros Hg Ha [[Hs [rest Hb]] Hu] Hsrc Hn.
  destruct (helper2_unbounded al b s (0 :: rest) src n true false) as (b' & Hr & Hg' & Hh & Hu'); try done; [cbn; lia|].
  rewrite escaped_plain in *. exists b'. split; [exact Hr|]. split; [done|]. split; [done|].
  rewrite Hu', Hu, length_app. lia.
Qed.

Lemma ast_str_set_substr_ok al b src n : growable b -> never_fails al -> 0 < as_len b -> cstr src -> 0 <= n ->
  exists b', ast_str_set_substr al b 0 src n = Ret b' /\ growable b' /\ holds b' (take (Z.to_nat n) src) /\
    as_used b' = as_used b + zlen (take (Z.to_nat n) src).
Proof.
  intros Hg Ha Hp Hsrc Hn.
  destruct (helper2_unbounded al b [] (as_str b) src n false false) as (b' & Hr & Hg' & Hh & Hu'); try done;
    [unfold as_len in *; cbn; lia|constructor|].
  rewrite escaped_plain in *. exists b'. auto.
Qed.

Lemma ast_str_append_ok al b s text : growable b -> never_fails al -> dyn b s -> cstr text ->
  exists b', ast_str_append al b 0 text = Ret (zlen text, b') /\ growable b' /\ dyn b' (s ++ text).
Proof.
  intros Hg Ha Hd Ht. destruct (ast_str_append_formatted al b 0 s text) as (b' & Hr & Hf); try done.
  exists b'. split; [done|]. apply (formatted_unbounded b); [|done]. apply cstr_app. split; [apply Hd|done].
Qed.

Lemma ast_str_set_ok al b text : growable b -> never_fails al -> 0 < as_len b -> cstr text ->
  exists b', ast_str_set al b 0 text = Ret (zlen text, b') /\ growable b' /\ dyn b' text.
Proof.
  intros Hg Ha Hp Ht. destruct (ast_str_set_formatted al b 0 text) as (b' & Hr & Hf); try done.
  exists b'. split; [done|]. by apply (formatted_unbounded b b' [] text).
Qed.

Lemma ast_str_create_ok n b : 0 < n -> ast_str_create true n = Some b -> growable b /\ dyn b [] /\ as_len b = n.
Proof.
  intros Hn [= <-]. split; [by left|]. split; [|unfold as_len; cbn; rewrite length_replicate; lia].
  split; [|done]. split; [constructor|]. cbn. replace (Z.to_nat n) with (S (Z.to_nat (n - 1))) by lia. cbn. eauto.
Qed.

Lemma ast_str_reset_ok b : growable b -> 0 < as_len b ->
  exists b', ast_str_reset b = Ret b' /\ growable b' /\ dyn b' [] /\ as_len b' = as_len b.
Proof.
  intros Hg Hp. unfold ast_str_reset. rewrite (proj2 (Z.eqb_neq _ 0)) by lia.
  destruct (store_nul (as_str b) 0) as (r & -> & Hr); [unfold as_len in Hp; lia|]. cbn [obind].
  eexists. split; [done|]. split; [done|]. split; [|unfold as_len in *; cbn; rewrite length_app, length_take; cbn; lia].
  split; [|done]. split; [constructor|]. cbn. eauto.
Qed.

(** Putting a NUL into the string, and setting the counter there. *)
Lemma cut_ok b s i : holds b s -> 0 <= i <= zlen s ->
  exists m, store_cells (as_str b) i [0] = Ret m /\ length m = length (as_str b) /\
    holds (b <| as_str := m |>) (take (Z.to_nat i) s).
Proof.
  intros [Hs [rest Hb]] Hi.
  assert (Hl : length (as_str b) = (length s + S (length rest))%nat) by (by rewrite Hb, length_app).
  destruct (store_nul (as_str b) i) as (r & -> & Hr); [lia|].
  eexists. split; [done|]. split; [rewrite length_app, length_take; cbn; lia|].
  split; [by apply cstr_take|]. cbn. rewrite Hb, take_app_le by lia. eauto.
Qed.

Lemma ast_str_update_ok b s : holds b s -> exists b', ast_str_update b = Ret b' /\ dyn b' s /\ as_str b' = as_str b /\ as_ts b' = as_ts b.
Proof.
  intros Hh. unfold ast_str_update. pose proof (holds_buffer _ _ Hh) as E. unfold ast_str_buffer in E. rewrite E. cbn [obind].
  eexists. split; [done|]. split; [|done]. split; [|done]. exact Hh.
Qed.

Lemma ast_str_truncate_ok b s len : growable b -> dyn b s -> len <= zlen s ->
  exists b', ast_str_truncate b len = Ret b' /\ growable b' /\
    dyn b' (take (Z.to_nat (if len <? 0 then Z.max 0 (zlen s + len) else len)) s).
Proof.
  intros Hg Hd Hl. unfold ast_str_truncate. destruct Hd as [Hh Hu]. rewrite Hu.
  set (u := if len <? 0 then _ else len).
  assert (Eu : u = if len <? 0 then Z.max 0 (zlen s + len) else len) by (unfold u; repeat case_if; lia).
  assert (Hu0 : 0 <= u <= zlen s) by (rewrite Eu; case_if; lia).
  destruct (cut_ok b s u) as (m & -> & Hm & Hh'); [done..|]. cbn [obind]. rewrite <- Eu.
  eexists. split; [done|]. split; [done|]. split; [exact Hh'|]. cbn. rewrite length_take. lia.
Qed.

(** ** Parts and blanks *)

(** Moving the rest of the string to the front. *)
Lemma chop_ok b s off : growable b -> dyn b s -> 0 <= off < zlen s ->
  exists b', (if off >? 0 then
      let n := Z.to_nat (ast_str_strlen b - off + 1) in
      if (length (as_str b) <? Z.to_nat off + n)%nat then BadAccess
      else let* m := store_cells (as_str b) 0 (take n (drop (Z.to_nat off) (as_str b))) in Ret (b <| as_str := m |>)
    else Ret b) = Ret b' /\ growable b' /\ holds b' (drop (Z.to_nat off) s).
Proof.
  intros Hg [[Hs [rest Hb]] Hu] Ho. destruct (Z.gtb_spec off 0) as [Hp|Hp].
  2:{ exists b. split; [done|]. split; [done|]. replace (Z.to_nat off) with 0%nat by lia. rewrite drop_0. split; eauto. }
  unfold ast_str_strlen. rewrite Hu. cbv zeta.
  assert (Hl : length (as_str b) = (length s + S (length rest))%nat) by (by rewrite Hb, length_app).
  rewrite (proj2 (Nat.ltb_ge _ _)) by lia.
  assert (E : take (Z.to_nat (zlen s - off + 1)) (drop (Z.to_nat off) (as_str b)) = drop (Z.to_nat off) s ++ [0]).
  { rewrite Hb, drop_app_le by lia. rewrite take_app, take_ge by (rewrite length_drop; lia).
    f_equal. rewrite length_drop. by replace (Z.to_nat (zlen s - off + 1) - (length s - Z.to_nat off))%nat with 1%nat by lia. }
  rewrite E. rewrite (store_after _ [] (as_str b)) by (done || (rewrite length_app, length_drop; cbn; lia)). cbn [obind app].
  eexists. split; [done|]. split; [done|]. split; [by apply cstr_drop|]. cbn. rewrite <- app_assoc. cbn. eauto.
Qed.

Lemma cut_update b s i : growable b -> holds b s -> 0 <= i <= zlen s ->
  exists b', (let* m := store_cells (as_str b) i [0] in ast_str_update (b <| as_str := m |>)) = Ret b' /\
    growable b' /\ dyn b' (take (Z.to_nat i) s).
Proof.
  intros Hg Hh Hi. destruct (cut_ok b s i Hh Hi) as (m & -> & Hm & Hh'). cbn [obind].
  destruct (ast_str_update_ok _ _ Hh') as (b' & Hr & Hd & _ & Ht). exists b'. split; [done|]. split; [|done].
  unfold growable. rewrite Ht. exact Hg.
Qed.

(** [ast_str_substring] on the block does what it does on the string. *)
Lemma ds_substring_ok b s o l t : growable b -> dyn b s -> Extension.ast_str_substring s o l = Some t ->
  exists b', ds_substring b o l = Ret b' /\ growable b' /\ dyn b' t.
Proof.
  intros Hg Hd Ht. assert (Hp : 0 < as_len b) by (pose proof (holds_len _ _ (dyn_holds _ _ Hd)); lia).
  unfold ds_substring, Extension.ast_str_substring in *.
  replace (ast_str_strlen b) with (zlen s) by (unfold ast_str_strlen; by rewrite (dyn_used _ _ Hd)).
  case_if; [injection Ht as <-; eauto|].
  set (off := if o <? 0 then _ else o) in *. assert (Hoff : 0 <= off) by (unfold off; repeat case_if; lia).
  destruct (Z.geb_spec off (zlen s)) as [Hge|Hge].
  { injection Ht as <-. destruct (ast_str_reset_ok b Hg Hp) as (b' & Hr & Hg' & Hd' & _). eauto. }
  destruct (chop_ok b s off Hg Hd) as (b1 & Hr1 & Hg1 & Hh1); [lia|].
  unfold ast_str_strlen in Hr1. rewrite (dyn_used _ _ Hd) in Hr1. rewrite Hr1. cbn [obind].
  assert (Hp1 : 0 < as_len b1) by (pose proof (holds_len _ _ Hh1); lia).
  replace (if off >? 0 then drop (Z.to_nat off) s else s) with (drop (Z.to_nat off) s) in Ht
    by (case_if; [done|]; by replace (Z.to_nat off) with 0%nat by lia).
  replace (if off >? 0 then zlen s - off else zlen s) with (zlen (drop (Z.to_nat off) s)) in *
    by (rewrite length_drop; case_if; lia).
  set (v := drop (Z.to_nat off) s) in *. unfold Extension.cut_at in Ht.
  case_if.
  { rewrite !(proj2 (Z.leb_le _ _)) in Ht by lia. injection Ht as <-. apply cut_update; [done..|lia]. }
  case_if; [case_if|].
  - destruct (0 <=? zlen v + l) eqn:Elo; [|done]. destruct (zlen v + l <=? zlen v) eqn:Ehi; [|done]. zb.
    injection Ht as <-. apply cut_update; [done..|lia].
  - injection Ht as <-. destruct (ast_str_reset_ok b1 Hg1 Hp1) as (b' & Hr & Hg' & Hd' & _). eauto.
  - injection Ht as <-. destruct (ast_str_update_ok _ _ Hh1) as (b' & Hr & Hd' & _ & Ht'). exists b'.
    split; [done|]. split; [|done]. unfold growable. by rewrite Ht'.
Qed.

(** Where the function on strings leaves the string, the one on the block leaves the block. *)
Lemma ds_substring_none b s o l : growable b -> dyn b s -> Extension.ast_str_substring s o l = None ->
  ds_substring b o l = BadAccess.
Proof.
  intros Hg Hd Ht. unfold ds_substring, Extension.ast_str_substring in *.
  replace (ast_str_strlen b) with (zlen s) by (unfold ast_str_strlen; by rewrite (dyn_used _ _ Hd)).
  case_if; [done|]. set (off := if o <? 0 then _ else o) in *. assert (Hoff : 0 <= off) by (unfold off; repeat case_if; lia).
  destruct (Z.geb_spec off (zlen s)) as [Hge|Hge]; [done|].
  destruct (chop_ok b s off Hg Hd) as (b1 & Hr1 & Hg1 & Hh1); [lia|].
  unfold ast_str_strlen in Hr1. rewrite (dyn_used _ _ Hd) in Hr1. rewrite Hr1. cbn [obind].
  set (lr := if off >? 0 then zlen s - off else zlen s) in *. unfold Extension.cut_at in Ht.
  set (v := if off >? 0 then _ else s) in *.
  assert (Hv : zlen v = lr) by (unfold v, lr; case_if; [rewrite length_drop; lia|done]). rewrite Hv in Ht.
  destruct ((l >=? 0) && (l <? lr)) eqn:E1.
  { zb. rewrite !(proj2 (Z.leb_le _ _)) in Ht by lia. done. }
  destruct (l <? 0) eqn:E2; [|done]. destruct (lr >? s32 (- l)); [|done].
  unfold store_cells. destruct (Z.leb_spec 0 (lr + l)); [|done]. zb. rewrite (proj2 (Z.leb_le _ lr)) in Ht by lia. done.
Qed.

(** The blanks of [ast_str_trim_blanks]: [char] is signed, so all bytes from 128 on are
    blanks to it. *)
Fixpoint trimmed (s : str) : str :=
  match s with
  | [] => []
  | c :: s => match trimmed s with [] => if c <? 33 then [] else [c] | t => c :: t end
  end.

Lemma trimmed_snoc s c : trimmed (s ++ [c]) = if c <? 33 then trimmed s else s ++ [c].
Proof.
  induction s as [|d s IH]; cbn; [done|]. rewrite IH. destruct (c <? 33); [done|]. by destruct s.
Qed.

Lemma trim_loop_ok s : forall fuel m rest, cstr s -> m = s ++ 0 :: rest -> (length s < fuel)%nat ->
  exists m' rest', trim_loop fuel m (zlen s) = Ret (m', zlen (trimmed s)) /\ m' = trimmed s ++ 0 :: rest'.
Proof.
  induction s as [|c s IH] using rev_ind; intros [|fuel] m rest Hs Hm Hf; try (cbn in *; lia).
  { exists m, rest. by split. }
  rewrite trimmed_snoc, length_app in *. cbn [length] in *. cbn [trim_loop].
  rewrite (proj2 (Z.eqb_neq _ 0)) by lia.
  replace (Z.of_nat (length s + 1) - 1) with (zlen s) by lia. rewrite Nat2Z.id.
  apply cstr_app in Hs as [Hs Hc]. rewrite <- app_assoc in Hm. cbn [app] in Hm.
  rewrite Hm, list_lookup_middle by done. cbn [oaccess obind]. destruct (c <? 33).
  - rewrite (store_after _ s (c :: 0 :: rest)) by (done || cbn; lia). cbn [obind length drop app].
    apply (IH fuel _ (0 :: rest)); [done|done|lia].
  - eexists _, rest. rewrite length_app. cbn. split; [done|]. by rewrite <- app_assoc.
Qed.

Lemma trimmed_cstr s : cstr s -> cstr (trimmed s).
Proof.
  induction 1 as [|c s Hc _ IH]; cbn; [constructor|]. destruct (trimmed s).
  - case_if; repeat constructor; done.
  - by constructor.
Qed.

Lemma ast_str_trim_blanks_ok b s : growable b -> dyn b s ->
  exists b', ast_str_trim_blanks b = Ret b' /\ growable b' /\ dyn b' (trimmed s).
Proof.
  intros Hg [[Hs [rest Hb]] Hu]. unfold ast_str_trim_blanks. rewrite Hu, Nat2Z.id.
  destruct (trim_loop_ok s (S (length s)) (as_str b) rest) as (m' & rest' & -> & Hm); [done..|lia|]. cbn [obind].
  eexists. split; [done|]. split; [done|]. split; [|done]. split; [by apply trimmed_cstr|]. cbn. eauto.
Qed.

(** ** Any sequence of operations *)

Inductive str_op :=
| OpReset
| OpUpdate
| OpMakeSpace (n : Z)
| OpSet (max_len : Z) (text : str)
| OpAppend (max_len : Z) (text : str)
| OpSetSubstr (escapecommas : bool) (src : str) (n : Z)
| OpAppendSubstr (escapecommas : bool) (src : str) (n : Z)
| OpTruncate (len : Z)
| OpTrim
| OpSubstring (offset len : Z).

Definition run_str_op (al : reallocator) (b : ast_str) (op : str_op) : outcome ast_str :=
  match op with
  | OpReset => ast_str_reset b
  | OpUpdate => ast_str_update b
  | OpMakeSpace n => Ret (snd (ast_str_make_space al b n))
  | OpSet max_len text => let* (_, b) := ast_str_set al b max_len text in Ret b
  | OpAppend max_len text => let* (_, b) := ast_str_append al b max_len text in Ret b
  | OpSetSubstr false src n => ast_str_set_substr al b 0 src n
  | OpSetSubstr true src n => ast_str_set_escapecommas al b 0 src n
  | OpAppendSubstr false src n => ast_str_append_substr al b 0 src n
  | OpAppendSubstr true src n => ast_str_append_escapecommas al b 0 src n
  | OpTruncate len => ast_str_truncate b len
  | OpTrim => ast_str_trim_blanks b
  | OpSubstring o l => ds_substring b o l
  end.

(** What the operations mean on strings. *)
Definition str_after (s : str) (op : str_op) : str :=
  match op with
  | OpReset => []
  | OpUpdate | OpMakeSpace _ => s
  | OpSet _ text => text
  | OpAppend _ text => s ++ text
  | OpSetSubstr e src n => escaped e (take (Z.to_nat n) src)
  | OpAppendSubstr e src n => s ++ escaped e (take (Z.to_nat n) src)
  | OpTruncate len => take (Z.to_nat (if len <? 0 then Z.max 0 (zlen s + len) else len)) s
  | OpTrim => trimmed s
  | OpSubstring o l => Extension.slice s o l
  end.

(** The arguments are strings; a text is not cut by the bound of its call; where commas are
    escaped there are two cells of room; a copy replaces an empty string only; a truncation
    is not beyond the end; the length of a part is not near [INT_MIN].  [len] is the size of
    the block. *)
Definition op_ok (len_ : Z) (s : str) (op : str_op) : Prop :=
  match op with
  | OpSet max_len text => cstr text /\ whole len_ max_len (zlen text + 1)
  | OpAppend max_len text => cstr text /\ whole len_ max_len (zlen (s ++ text) + 1)
  | OpSetSubstr e src n => s = [] /\ cstr src /\ 0 <= n /\ room e <= len_
  | OpAppendSubstr e src n => cstr src /\ 0 <= n /\ zlen s + room e <= len_
  | OpTruncate len => len <= zlen s
  | OpSubstring o l => zlen s < 2 ^ 31 /\ zlen s - 2 ^ 31 <= l /\ - 2 ^ 31 < l
  | _ => True
  end.

(** The operations are in order for the blocks they work on. *)
Fixpoint ops_ok (al : reallocator) (b : ast_str) (s : str) (ops : list str_op) : Prop :=
  match ops with
  | [] => True
  | op :: ops => op_ok (as_len b) s op /\ forall b', run_str_op al b op = Ret b' -> ops_ok al b' (str_after s op) ops
  end.

Lemma copy_ok al b s src n (append e : bool) : growable b -> never_fails al -> dyn b s -> (append = true \/ s = []) ->
  cstr src -> 0 <= n -> zlen s + room e <= as_len b ->
  exists b', __ast_str_helper2 al b 0 src n append e = Ret b' /\ growable b' /\ dyn b' (s ++ escaped e (take (Z.to_nat n) src)).
Proof.
  intros Hg Ha [[Hs [rest Hb]] Hu] Hap Hsrc Hn Hroom.
  destruct (helper2_unbounded al b s (0 :: rest) src n append e) as (b' & Hr & Hg' & Hh & Hu'); try done.
  - destruct append; [done|]. by destruct Hap as [| ->].
  - unfold as_len in Hroom. rewrite Hb, length_app in Hroom. lia.
  - exists b'. split; [done|]. split; [done|]. split; [done|]. rewrite Hu', Hu, length_app. lia.
Qed.

Lemma make_space_ok al b s n : growable b -> never_fails al -> dyn b s ->
  growable (snd (ast_str_make_space al b n)) /\ dyn (snd (ast_str_make_space al b n)) s.
Proof.
  intros Hg Ha [[Hs [rest Hb]] Hu]. destruct (make_space_grows al b n Hg Ha) as (b' & -> & Hg' & Hu' & _ & r & Hb').
  split; [done|]. split; [|cbn; congruence]. split; [done|]. exists (rest ++ r). cbn. by rewrite Hb', Hb, <- app_assoc.
Qed.

Lemma run_str_op_ok al b s op : growable b -> never_fails al -> dyn b s -> op_ok (as_len b) s op ->
  exists b', run_str_op al b op = Ret b' /\ growable b' /\ dyn b' (str_after s op).
Proof.
  intros Hg Ha Hd Hok. assert (Hp : 0 < as_len b) by (pose proof (holds_len _ _ (dyn_holds _ _ Hd)); lia).
  destruct op; cbn [run_str_op str_after op_ok] in *.
  - destruct (ast_str_reset_ok b Hg Hp) as (b' & Hr & Hg' & Hd' & _). eauto.
  - destruct (ast_str_update_ok b s (dyn_holds _ _ Hd)) as (b' & Hr & Hd' & _ & Ht). exists b'. split; [done|]. split; [|done]. unfold growable. by rewrite Ht.
  - eexists. split; [done|]. by apply make_space_ok.
  - destruct Hok as [Ht Hw]. destruct (ast_str_set_formatted al b max_len text) as (b' & -> & Hf); try done.
    exists b'. split; [done|]. by apply (formatted_whole b b' [] text max_len).
  - destruct Hok as [Ht Hw]. destruct (ast_str_append_formatted al b max_len s text) as (b' & -> & Hf); try done.
    exists b'. split; [done|]. apply (formatted_whole b b' s text max_len); [done| |done]. apply cstr_app. split; [apply Hd|done].
  - destruct Hok as (-> & Hsrc & Hn & Hr). destruct escapecommas; by apply (copy_ok al b []); auto.
  - destruct Hok as (Hsrc & Hn & Hr). destruct escapecommas; by apply copy_ok; auto.
  - by apply ast_str_truncate_ok.
  - by apply ast_str_trim_blanks_ok.
  - destruct Hok as (? & ? & ?). apply ds_substring_ok with s; [done..|]. by apply Extension.ast_str_substring_slice.
Qed.


(** A call with a bound (or [-1], the block as it is) keeps as much of the text as the
    block has room for after it grew as far as the bound lets it.  When the text is one
    character too long for that, the counter is one too big; otherwise it is the length of
    the string. *)
Theorem ast_str_append_bounded al b max_len s text : growable b -> never_fails al -> dyn b s -> cstr text ->
  let cap := final_len (as_len b) max_len (zlen (s ++ text) + 1) in
  exists b', ast_str_append al b max_len text = Ret (zlen text, b') /\ as_len b' = cap /\
    ast_str_buffer b' = Ret (take (Z.to_nat (cap - 1)) (s ++ text)) /\
    as_used b' = zlen (take (Z.to_nat (cap - 1)) (s ++ text)) + (if zlen (s ++ text) =? cap then 1 else 0).
Proof.
  intros Hg Ha Hd Ht cap. destruct (ast_str_append_formatted al b max_len s text Hg Ha Hd Ht) as (b' & Hr & Hg' & Hl & Hh & Hu).
  exists b'. split; [exact Hr|]. split; [done|]. split; [by apply holds_buffer|]. fold cap in Hl, Hu.
  assert (Hc : 0 < cap) by (rewrite <- Hl; pose proof (holds_len _ _ Hh); lia).
  rewrite Hu, length_take. destruct (Z.gtb_spec (zlen (s ++ text)) cap), (Z.eqb_spec (zlen (s ++ text)) cap); lia.
Qed.

(** A new string of [n] bytes, to which a text is added that may not make it grow. *)
Definition full_string (al : reallocator) (text : str) (n : Z) : outcome ast_str :=
  match ast_str_create true n with
  | Some b => let* (_, b) := ast_str_append al b (-1) text in Ret b
  | None => BadAccess
  end.

(** When the text is exactly as long as the block, its last character is cut off but
    the counter is one too large, past the NUL, and copying one more character writes
    behind the block. *)
Theorem ast_str_append_full al text src n : never_fails al -> cstr text -> 0 < n -> zlen text = n ->
  cstr src -> src <> [] ->
  exists b, full_string al text n = Ret b /\ ast_str_append_substr al b 0 src (zlen src) = BadAccess.
Proof.
  intros Ha Ht Hn Hl Hs Hne. unfold full_string. destruct (ast_str_create true n) as [b0|] eqn:Ec; [|done].
  destruct (ast_str_create_ok n b0 Hn Ec) as (Hg & Hd & Hlen).
  destruct (ast_str_append_bounded al b0 (-1) [] text Hg Ha Hd Ht) as (b & -> & Hl' & Hb & Hu). cbn [obind].
  exists b. split; [done|]. unfold final_len in *. cbn [app] in *. rewrite Hlen in *.
  rewrite (proj2 (Z.leb_gt (zlen text + 1) n)) in * by lia. cbn [Z.eqb Z.leb] in *.
  rewrite (proj2 (Z.leb_le (-1) n)) in * by lia.
  rewrite (proj2 (Z.eqb_eq (zlen text) n)), length_take in Hu by done.
  unfold ast_str_append_substr, __ast_str_helper2. destruct src as [|c src]; [done|].
  cbn [Z.eqb Z.ltb Z.compare helper2_loop andb orb]. unfold size_sub.
  rewrite (proj2 (Z.leb_le 0 _)), (proj2 (Z.eqb_neq (_ - 0) 0)), (proj2 (Z.eqb_neq (as_len b) 0)) by (cbn [length]; lia).
  cbn [orb]. unfold helper2_char. cbn [andb obind]. unfold store_cells. fold (as_len b).
  destruct (Z.leb_spec (as_used b + zlen [c]) (as_len b)) as [Hle|Hle]; [cbn in Hle; lia|].
  by rewrite andb_false_r.
Qed.

(** [ast_str_set_substr] replaces the string but adds to the counter. *)
Theorem ast_str_set_substr_counter al b s src : growable b -> never_fails al -> dyn b s -> cstr src ->
  exists b', ast_str_set_substr al b 0 src (zlen src) = Ret b' /\ ast_str_buffer b' = Ret src /\
    ast_str_strlen b' = zlen s + zlen src.
Proof.
  intros Hg Ha Hd Hs. assert (Hp : 0 < as_len b) by (pose proof (holds_len _ _ (dyn_holds _ _ Hd)); lia).
  destruct (ast_str_set_substr_ok al b src (zlen src) Hg Ha Hp Hs) as (b' & Hr & Hg' & Hh & Hu); [lia|].
  rewrite Nat2Z.id, take_ge in * by lia. exists b'. split; [done|]. split; [by apply holds_buffer|].
  unfold ast_str_strlen. rewrite Hu, (dyn_used _ _ Hd). done.
Qed.

(** The escape of a comma takes two cells, but only one is asked for: with the block full
    up to its NUL, the second one is written behind it. *)
Theorem append_escapecommas_overflows al text n : never_fails al -> cstr text -> 0 < n -> zlen text + 1 = n -> 1 < n ->
  exists b, full_string al text n = Ret b /\ ast_str_append_escapecommas al b 0 [44] 1 = BadAccess.
Proof.
  intros Ha Ht Hn Hl Hn1. unfold full_string. destruct (ast_str_create true n) as [b0|] eqn:Ec; [|done].
  destruct (ast_str_create_ok n b0 Hn Ec) as (Hg & Hd & Hlen).
  destruct (ast_str_append_bounded al b0 (-1) [] text Hg Ha Hd Ht) as (b & -> & Hl' & Hb & Hu). cbn [obind].
  exists b. split; [done|]. unfold final_len in *. cbn [app] in *. rewrite Hlen in *.
  rewrite (proj2 (Z.leb_le (zlen text + 1) n)) in * by lia.
  rewrite (proj2 (Z.eqb_neq (zlen text) n)), length_take in Hu by lia.
  unfold ast_str_append_escapecommas, __ast_str_helper2.
  cbn [Z.eqb Z.ltb Z.compare helper2_loop andb orb]. change (size_sub 1 0 =? 0) with false.
  rewrite (proj2 (Z.eqb_neq (as_len b) 0)), (proj2 (Z.eqb_neq (as_len b - 1) 0)) by lia. cbn [orb].
  unfold helper2_char. change ((44 =? 92) || (44 =? 44)) with true. cbn [andb].
  unfold store_cells at 1. fold (as_len b). rewrite !(proj2 (Z.leb_le _ _)) by (cbn [length]; lia). cbn [andb obind].
  unfold store_cells. destruct (Z.leb_spec (as_used b + 1 + zlen [44]) (zlen (as_str (b <| as_str := take (Z.to_nat (as_used b)) (as_str b) ++ [92] ++ drop (Z.to_nat (as_used b) + length [92]) (as_str b) |>
    <| as_used ::= Z.succ |>)))) as [Hle|Hle]; [|by rewrite andb_false_r].
  exfalso. cbn in Hle. unfold as_len in *. rewrite length_app, length_take in Hle. cbn [length] in Hle. rewrite length_drop in Hle. lia.
Qed.

(** ** Witnesses *)

Definition zero_cells : reallocator := fun _ => Some (fun _ => 0).

Lemma zero_cells_never_fails : never_fails zero_cells.
Proof. intros n. by eexists. Defined.

Definition sample_ops : list str_op :=
  [OpSetSubstr false (zs "hello, world") 7; OpAppendSubstr false (zs "worlds and moons") 5; OpSubstring (-5) 3; OpAppend 40 (zs "  ");
   OpTrim; OpTruncate (-1); OpMakeSpace 30; OpAppendSubstr true (zs "a,b") 2; OpUpdate; OpAppend (-1) (zs "!")].

Lemma sample_ops_ok : ops_ok zero_cells (mk_ast_str DS_MALLOC [0] 0) [] sample_ops.
Proof.
  assert (Hstep : forall b s op ops b', run_str_op zero_cells b op = Ret b' -> op_ok (as_len b) s op -> ops_ok zero_cells b' (str_after s op) ops ->
    ops_ok zero_cells b s (op :: ops)) by (intros b s op ops b' E Hop Hops; split; [done|]; intros b2; rewrite E; by intros [= <-]).
  unfold sample_ops. repeat (eapply Hstep; [vm_compute; reflexivity|vm_compute; intuition (try discriminate); repeat constructor; discriminate|]).
  exact I.
Qed.


Lemma ast_str_append_full_witness :
  exists b, full_string zero_cells (zs "abcd") 4 = Ret b /\ ast_str_append_substr zero_cells b 0 (zs "e") (zlen (zs "e")) = BadAccess.
Proof.
  apply (ast_str_append_full zero_cells (zs "abcd") (zs "e") 4); try done; [exact zero_cells_never_fails|..];
    vm_compute; repeat constructor; discriminate.
Defined.
