(* ===== verification/Vars.v ===== *)
(** * Dialplan variables and functions ([main/pbx.c], [main/chanvars.c], [main/channel.c])

    A channel has a list of variables, and so has the exchange (the globals).  A variable
    is found by its name without the underscores in front, which say how far it is
    inherited; putting a variable in front of the list hides the older ones of its name,
    so the lists are stacks, one for each name.  This file models the lists, the lookup of
    built-in and other variables, and the registry of dialplan functions.

    What the registered functions do, what the hint of an extension is and what an
    expression evaluates to are parameters, in [pbx_env]; functions may change the
    variables of all channels. *)

From S2P Require Extension.
From S2P Require Import Time.
From S2P Require Import Prelude DynStr.
From Stdlib Require Import ZArith Lia.
From stdpp Require Import base list numbers strings.

#[local] Open Scope Z_scope.
#[local] Open Scope outcome_scope.
#[local] Open Scope record_scope.

(** ** Variables *)

Record ast_var_t := mk_var { var_full : str; var_val : str }.

#[export] Instance ast_var_eq_dec : EqDecision ast_var_t.
Proof. solve_decision. Defined.

(** Without the first one or two underscores. *)
Definition skip_underscores (name : str) : str :=
  if deref name =? 95 then
    let name := tail name in if deref name =? 95 then tail name else name
  else name.

Definition ast_var_name (v : ast_var_t) : str := skip_underscores (var_full v).
Definition ast_var_full_name (v : ast_var_t) : str := var_full v.
Definition ast_var_value (v : ast_var_t) : str := var_val v.

Definition ast_var_assign (mem_ok : bool) (name value : str) : option ast_var_t :=
  if mem_ok then Some (mk_var name value) else None.

(** [AST_LIST_INSERT_HEAD] of what [ast_var_assign] returned, which may be [NULL]. *)
Definition insert_head (v : option ast_var_t) (l : list ast_var_t) : outcome (list ast_var_t) :=
  match v with Some v => Ret (v :: l) | None => BadAccess end.

(** The removal of the first variable of the name, in [pbx_builtin_setvar_helper]. *)
Fixpoint remove_var (nametail : str) (l : list ast_var_t) : list ast_var_t :=
  match l with
  | [] => []
  | v :: l => if bool_decide (ast_var_name v = nametail) then l else v :: remove_var nametail l
  end.

(** The list with the variable set (or only removed, for a [NULL] value), and pushed. *)
Definition set_in_list (mem_ok : bool) (name : str) (value : option str) (l : list ast_var_t) : outcome (list ast_var_t) :=
  let l := remove_var (skip_underscores name) l in
  match value with Some value => insert_head (ast_var_assign mem_ok name value) l | None => Ret l end.

Definition push_in_list (mem_ok : bool) (name : str) (value : option str) (l : list ast_var_t) : outcome (list ast_var_t) :=
  match value with Some value => insert_head (ast_var_assign mem_ok name value) l | None => Ret l end.

(** [ast_channel_inherit_variables]: the list of the child. A variable whose copy cannot
    be allocated is left out; [mem_ok] says for which that is. *)
Fixpoint ast_channel_inherit_variables (mem_ok : ast_var_t -> bool) (parent child : list ast_var_t) : list ast_var_t :=
  match parent with
  | [] => child
  | current :: parent =>
      let varname := ast_var_full_name current in
      let vartype := if deref varname =? 95 then (if deref (tail varname) =? 95 then 2 else 1) else 0 in
      let newvar :=
        if vartype =? 1 then ast_var_assign (mem_ok current) (tail varname) (ast_var_value current)
        else if vartype =? 2 then ast_var_assign (mem_ok current) varname (ast_var_value current)
        else None in
      ast_channel_inherit_variables mem_ok parent (child ++ match newvar with Some v => [v] | None => [] end)
  end.

(** The loops that look a name up, exactly and without regard to case. *)
Definition find_exact (name : str) (l : list ast_var_t) : option str :=
  ast_var_value <$> List.find (fun v => bool_decide (name = ast_var_name v)) l.

Definition find_nocase (name : str) (l : list ast_var_t) : option str :=
  ast_var_value <$> List.find (fun v => same_name (ast_var_name v) name) l.

(** ** The exchange *)

(** The number and name parts of [struct ast_party_id]. *)
Record ast_party_id := mk_party_id {
  name_valid : bool; name_presentation : Z; number_valid : bool; number_presentation : Z
}.

(** [struct ast_pbx] and [struct pbx_exception]: what the run of the dialplan keeps for a
    channel. *)
Record ast_pbx := mk_ast_pbx { dtimeoutms : Z; rtimeoutms : Z }.

Record pbx_exception := mk_exception { exc_reason : str; exc_context : str; exc_exten : str; exc_priority : Z }.

(** [caller_number] is the number of the caller if it is valid. *)
Record ast_channel := mk_ast_channel {
  ch_name : str; ch_uniqueid : str;
  ch_context : str; ch_exten : str; ch_priority : Z; ch_hangupcause : Z;
  caller_id : ast_party_id; caller_ani2 : Z; caller_plan : Z; transit_network_select : Z;
  varshead : list ast_var_t;
  caller_number : option str; softhangup : Z; whentohangup : timeval;
  in_autoloop : bool; bridge_hangup_run : bool; ch_pbx : option ast_pbx; ch_exception : option pbx_exception
}.

#[export] Instance eta_ast_channel : Eta ast_channel := fun c =>
  mk_ast_channel (ch_name c) (ch_uniqueid c) (ch_context c) (ch_exten c) (ch_priority c) (ch_hangupcause c)
    (caller_id c) (caller_ani2 c) (caller_plan c) (transit_network_select c) (varshead c)
    (caller_number c) (softhangup c) (whentohangup c) (in_autoloop c) (bridge_hangup_run c) (ch_pbx c) (ch_exception c).

(** A channel is named by its place in the list. *)
Record pbx := mk_pbx {
  globals : list ast_var_t;
  channels : list ast_channel;
  pbx_time : Z;
  ast_config_AST_SYSTEM_NAME : str;
  eid_str : str
}.

#[export] Instance eta_pbx : Eta pbx := fun w =>
  mk_pbx (globals w) (channels w) (pbx_time w) (ast_config_AST_SYSTEM_NAME w) (eid_str w).

(** What an expression evaluates to: [io.val] of the parser, with a number already
    printed. *)
Inductive expr_value := ExprNone | ExprNumber (text : str) | ExprString (text : option str).

Record ast_custom_function := mk_custom_function {
  acf_name : str;
  acf_read : option (pbx -> option nat -> str -> option str -> Z -> Z * str * pbx);
  acf_read2 : option (pbx -> option nat -> str -> option str -> Z * str * pbx);
  acf_write : option (pbx -> option nat -> str -> option str -> option str -> Z * pbx);
  acf_read_max : Z
}.

Record pbx_env := mk_env {
  acf_root : list ast_custom_function;
  hint_of : pbx -> nat -> option (str * option str);
  expr_of : pbx -> option nat -> str -> expr_value * pbx;
  dummy_channel : ast_channel;
  al : reallocator
}.

Definition channel_at (w : pbx) (c : nat) : outcome ast_channel := oaccess (channels w !! c).

Definition set_varshead (c : nat) (l : list ast_var_t) (w : pbx) : pbx :=
  w <| channels ::= alter (fun ch => ch <| varshead := l |>) c |>.

(** ** Dialplan functions *)

Definition c_paren : Z := 40.
Definition c_close : Z := 41.

(** What is before the first character [c], and what is after it. *)
Fixpoint cut_first (c : Z) (s : str) : option (str * str) :=
  match s with
  | [] => None
  | d :: s => if d =? c then Some ([], s) else (fun r => (d :: fst r, snd r)) <$> cut_first c s
  end.

(** What is before the last character [c]. *)
Fixpoint cut_last (c : Z) (s : str) : option str :=
  match s with
  | [] => None
  | d :: s => match cut_last c s with Some r => Some (d :: r) | None => if d =? c then Some [] else None end
  end.

(** The name of the function and its arguments. *)
Definition func_args (function : str) : str * option str :=
  match cut_first c_paren function with
  | None => (function, None)
  | Some (name, args) => (name, Some (default args (cut_last c_close args)))
  end.

Definition ast_custom_function_find (root : list ast_custom_function) (name : str) : option ast_custom_function :=
  List.find (fun acf => bool_decide (name = acf_name acf)) root.

Definition strcasecmp (s t : str) : Z :=
  Extension.strcmp ((fun c => tolower (u8 c)) <$> s) ((fun c => tolower (u8 c)) <$> t).

(** Before the first function that comes later in the alphabet, or at the end. *)
Fixpoint insert_function (acf : ast_custom_function) (root : list ast_custom_function) : list ast_custom_function :=
  match root with
  | [] => [acf]
  | cur :: root => if strcasecmp (acf_name acf) (acf_name cur) <? 0 then acf :: cur :: root else cur :: insert_function acf root
  end.

(** [docs_ok] is the answer of [acf_retrieve_docs]. *)
Definition __ast_custom_function_register (root : list ast_custom_function) (acf : option ast_custom_function) (docs_ok : bool)
    : Z * list ast_custom_function :=
  match acf with
  | None => (-1, root)
  | Some acf =>
      if negb docs_ok then (-1, root)
      else if existsb (fun cur => bool_decide (acf_name acf = acf_name cur)) root then (-1, root)
      else (0, insert_function acf root)
  end.

(** Functions are told apart by their names, of which no two are the same. *)
Fixpoint remove_function (name : str) (root : list ast_custom_function) : option (list ast_custom_function) :=
  match root with
  | [] => None
  | cur :: root => if bool_decide (acf_name cur = name) then Some root else (cons cur) <$> remove_function name root
  end.

Definition ast_custom_function_unregister (root : list ast_custom_function) (acf : option ast_custom_function)
    : Z * list ast_custom_function :=
  match acf with
  | None => (-1, root)
  | Some acf => match remove_function (acf_name acf) root with Some root => (0, root) | None => (-1, root) end
  end.

Definition VAR_BUF_SIZE : Z := 4096.

(** [ast_copy_string] into a buffer of [n] bytes, at least 1. *)
Definition copied (n : Z) (s : str) : str := take (Z.to_nat (n - 1)) s.

(** [ast_func_read] into a workspace of [len] bytes that holds [ws]. A callback that
    writes more than fits writes outside. *)
Definition ast_func_read (E : pbx_env) (w : pbx) (chan : option nat) (function : str) (ws : str) (len : Z)
    : outcome (Z * str * pbx) :=
  let (copy, args) := func_args function in
  match ast_custom_function_find (acf_root E) copy with
  | None => Ret (-1, ws, w)
  | Some acf =>
      match acf_read acf, acf_read2 acf with
      | None, None => Ret (-1, ws, w)
      | Some read, _ =>
          let '(res, text, w) := read w chan copy args len in
          if zlen text <? len then Ret (res, text, w) else BadAccess
      | None, Some read2 =>
          let '(res, text, w) := read2 w chan copy args in
          let* b := oaccess (ast_str_create true 16) in
          let* (_, b) := ast_str_set (al E) b 0 text in
          let* out := ast_str_buffer b in
          Ret (res, copied (if len >? ast_str_size b then ast_str_size b else len) out, w)
      end
  end.

(** [ast_func_read2]. A function of the old kind writes into the block itself, and the
    counter of the string is not set. *)
Definition ast_func_read2 (E : pbx_env) (w : pbx) (chan : option nat) (function : str) (b : ast_str) (maxlen : Z)
    : outcome (Z * ast_str * pbx) :=
  let (copy, args) := func_args function in
  match ast_custom_function_find (acf_root E) copy with
  | None => Ret (-1, b, w)
  | Some acf =>
      match acf_read acf, acf_read2 acf with
      | None, None => Ret (-1, b, w)
      | _, Some read2 =>
          let* b := ast_str_reset b in
          let '(res, text, w) := read2 w chan copy args in
          let* (_, b) := ast_str_set (al E) b maxlen text in
          Ret (res, b, w)
      | Some read, None =>
          let* b := ast_str_reset b in
          let maxsize :=
            if maxlen >? -1 then
              if maxlen =? 0 then (if negb (acf_read_max acf =? 0) then acf_read_max acf else VAR_BUF_SIZE) else maxlen
            else ast_str_size b in
          let b := if maxlen >? -1 then snd (ast_str_make_space (al E) b maxsize) else b in
          let '(res, text, w) := read w chan copy args maxsize in
          let* m := store_cells (as_str b) 0 (text ++ [0]) in
          Ret (res, b <| as_str := m |>, w)
      end
  end.

Definition ast_func_write (E : pbx_env) (w : pbx) (chan : option nat) (function : str) (value : option str) : Z * pbx :=
  let (copy, args) := func_args function in
  match ast_custom_function_find (acf_root E) copy with
  | None => (-1, w)
  | Some acf => match acf_write acf with None => (-1, w) | Some write => write w chan copy args value end
  end.

(** ** Retrieving *)

Abbreviation AST_PRES_NUMBER_TYPE := 0x03.
Abbreviation AST_PRES_USER_NUMBER_UNSCREENED := 0x00.
Abbreviation AST_PRES_RESTRICTION := 0x60.
Abbreviation AST_PRES_ALLOWED := 0x00.
Abbreviation AST_PRES_RESTRICTED := 0x20.
Abbreviation AST_PRES_UNAVAILABLE := 0x40.

(** The switches of [ast_party_id_presentation]: the priority of a valid presentation,
    unless it is none of the three. *)
Definition presentation_priority (value : Z) : option Z :=
  if value =? AST_PRES_RESTRICTED then Some 0
  else if value =? AST_PRES_ALLOWED then Some 1
  else if value =? AST_PRES_UNAVAILABLE then Some 2
  else None.

Definition ast_party_id_presentation (id : ast_party_id) : Z :=
  let '(name_value, name_priority) :=
    match name_valid id, presentation_priority (Z.land (name_presentation id) AST_PRES_RESTRICTION) with
    | true, Some p => (Z.land (name_presentation id) AST_PRES_RESTRICTION, p)
    | _, _ => (AST_PRES_UNAVAILABLE, 3)
    end in
  let '(number_screening, number_value, number_priority) :=
    match number_valid id, presentation_priority (Z.land (number_presentation id) AST_PRES_RESTRICTION) with
    | true, Some p => (Z.land (number_presentation id) AST_PRES_NUMBER_TYPE, Z.land (number_presentation id) AST_PRES_RESTRICTION, p)
    | _, _ => (AST_PRES_USER_NUMBER_UNSCREENED, AST_PRES_UNAVAILABLE, 3)
    end in
  let number_value := if name_priority <? number_priority then name_value else number_value in
  if number_value =? AST_PRES_UNAVAILABLE then 0x43 else Z.lor number_value number_screening.

Definition INT_LIMIT : Z := 2147483647.

(** [sscanf] with [%30d]: blanks, a sign, digits, at most 30 characters of them; the value
    saturates at the limits of [long] and is cut to an [int]. *)
Fixpoint skip_spaces (s : str) : str :=
  match s with c :: rest => if isspace c then skip_spaces rest else s | [] => [] end.

Definition is_digit (c : Z) : bool := (48 <=? c) && (c <=? 57).

Fixpoint sscanf_digits (width : nat) (s : str) (acc : Z) : Z * str :=
  match width, s with
  | S width, c :: rest => if is_digit c then sscanf_digits width rest (acc * 10 + (c - 48)) else (acc, s)
  | _, _ => (acc, s)
  end.

Definition clamp_long (v : Z) : Z := Z.max (- 2 ^ 63) (Z.min (2 ^ 63 - 1) v).

Definition scan_int (width : nat) (s : str) : option (Z * str) :=
  let s := skip_spaces s in
  let '(sign, width, s) :=
    match s with
    | 45 :: s => (-1, pred width, s)
    | 43 :: s => (1, pred width, s)
    | _ => (1, width, s)
    end in
  match width, s with
  | S _, c :: _ =>
      if is_digit c then let (v, s) := sscanf_digits width s 0 in Some (s32 (clamp_long (sign * v)), s) else None
  | _, _ => None
  end.

(** [sscanf(s, "%30d:%30d", &offset, &length)] *)
Definition scan_range (s : str) (offset length_ : Z) : Z * Z :=
  match scan_int 30 s with
  | None => (offset, length_)
  | Some (offset, s) =>
      match s with
      | 58 :: s => (offset, match scan_int 30 s with Some (l, _) => l | None => length_ end)
      | _ => (offset, length_)
      end
  end.

(** The loop of [parse_variable_name]: the name, the number of opening parentheses, and
    what is after the colon. *)
Fixpoint split_name (s : str) (parens isfunc : Z) : str * Z * option str :=
  match s with
  | [] => ([], isfunc, None)
  | c :: s =>
      if (c =? 58) && (parens =? 0) then ([], isfunc, Some s)
      else
        let '(parens, isfunc) :=
          if c =? c_paren then (parens + 1, isfunc + 1) else if c =? c_close then (parens - 1, isfunc) else (parens, isfunc) in
        let '(name, isfunc, rest) := split_name s parens isfunc in (c :: name, isfunc, rest)
  end.

Record variable_name := mk_variable_name { vn_name : str; vn_offset : Z; vn_length : Z; vn_isfunc : Z; vn_substring : bool }.

Definition parse_variable_name (var : str) : variable_name :=
  let '(name, isfunc, rest) := split_name var 0 0 in
  match rest with
  | None => mk_variable_name name 0 INT_LIMIT isfunc false
  | Some r => let (offset, length_) := scan_range r 0 INT_LIMIT in mk_variable_name name offset length_ isfunc true
  end.

(** What [s] points to. *)
Inductive var_found := NotFound | NoValue | Assembled | Value (text : str).

(** [%d] of an [int]: at most ten digits. *)
Fixpoint decimal_digits (fuel : nat) (n : Z) (text : str) : str :=
  match fuel with
  | O => text
  | S fuel => let text := 48 + n mod 10 :: text in if n / 10 =? 0 then text else decimal_digits fuel (n / 10) text
  end.

Definition decimal (n : Z) : str := if n <? 0 then 45 :: decimal_digits 10 (- n) [] else decimal_digits 10 n [].

Definition strncmp_eq (s : str) (prefix : str) : bool := bool_decide (take (length prefix) s = prefix).
Definition streq (s t : str) : bool := bool_decide (s = t).

(** The variables every channel has. *)
Definition channel_variable (E : pbx_env) (w : pbx) (c : nat) (ch : ast_channel) (str : ast_str) (maxlen : Z) (var : list Z)
    : outcome (var_found * ast_str) :=
  let assemble text := let* (_, str) := ast_str_set (al E) str maxlen text in Ret (Assembled, str) in
  if strncmp_eq var (zs "CALL") then
    if strncmp_eq (drop 4 var) (zs "ING") then
      if streq (drop 7 var) (zs "PRES") then assemble (decimal (ast_party_id_presentation (caller_id ch)))
      else if streq (drop 7 var) (zs "ANI2") then assemble (decimal (caller_ani2 ch))
      else if streq (drop 7 var) (zs "TON") then assemble (decimal (caller_plan ch))
      else if streq (drop 7 var) (zs "TNS") then assemble (decimal (transit_network_select ch))
      else Ret (NotFound, str)
    else Ret (NotFound, str)
  else if streq var (zs "HINT") then
    match hint_of E w c with None => Ret (NoValue, str) | Some (hint, _) => assemble hint end
  else if streq var (zs "HINTNAME") then
    match hint_of E w c with
    | None => Ret (NoValue, str)
    | Some (_, Some name) => assemble name
    | Some (_, None) => Ret (Assembled, str)
    end
  else if streq var (zs "EXTEN") then Ret (Value (ch_exten ch), str)
  else if streq var (zs "CONTEXT") then Ret (Value (ch_context ch), str)
  else if streq var (zs "PRIORITY") then assemble (decimal (ch_priority ch))
  else if streq var (zs "CHANNEL") then Ret (Value (ch_name ch), str)
  else if streq var (zs "UNIQUEID") then Ret (Value (ch_uniqueid ch), str)
  else if streq var (zs "HANGUPCAUSE") then assemble (decimal (ch_hangupcause ch))
  else Ret (NotFound, str).

(** The variables of the exchange. *)
Definition global_variable (E : pbx_env) (w : pbx) (str : ast_str) (maxlen : Z) (var : list Z) : outcome (var_found * ast_str) :=
  if streq var (zs "EPOCH") then
    let* (_, str) := ast_str_set (al E) str maxlen (decimal (u32 (s32 (pbx_time w)))) in Ret (Assembled, str)
  else if streq var (zs "SYSTEMNAME") then Ret (Value (ast_config_AST_SYSTEM_NAME w), str)
  else if streq var (zs "ENTITYID") then Ret (Value (eid_str w), str)
  else Ret (NotFound, str).

(** The first of the places that has the variable. *)
Fixpoint in_places (places : list (option (list ast_var_t))) (var : str) : var_found :=
  match places with
  | [] => NotFound
  | None :: places => in_places places var
  | Some l :: places => match find_nocase var l with Some v => Value v | None => in_places places var end
  end.

(** The result is whether the value is not [NULL], and the dynamic string. *)
Definition ast_str_retrieve_variable (E : pbx_env) (w : pbx) (str : ast_str) (maxlen : Z) (c : option nat)
    (headp : option (list ast_var_t)) (var : list Z) : outcome (bool * ast_str) :=
  let* ch := (match c with Some c => let* ch := channel_at w c in Ret (Some (c, ch)) | None => Ret None end) in
  let place := match ch with Some (_, ch) => Some (varshead ch) | None => headp end in
  let tmpvar := parse_variable_name var in
  let* (s, str) := (match ch with Some (c, ch) => channel_variable E w c ch str maxlen var | None => Ret (NotFound, str) end) in
  let* (s, str) := (match s with NotFound => global_variable E w str maxlen var | _ => Ret (s, str) end) in
  let s := match s with NotFound => in_places [place; Some (globals w)] var | _ => s end in
  match s with
  | NotFound | NoValue => Ret (false, str)
  | Assembled | Value _ =>
      let* str := (match s with Value v => let* (_, str) := ast_str_set (al E) str maxlen v in Ret str | _ => Ret str end) in
      let* str := (if vn_substring tmpvar then ds_substring str (vn_offset tmpvar) (vn_length tmpvar) else Ret str) in
      Ret (true, str)
  end.

(** The result is the value, unless [*ret] is [NULL], and what is in the workspace. *)
Definition pbx_retrieve_variable (E : pbx_env) (w : pbx) (c : option nat) (var : str) (workspacelen : Z)
    (headp : option (list ast_var_t)) : outcome (bool * str) :=
  let* b := oaccess (ast_str_create true 16) in
  let* (cret, b) := ast_str_retrieve_variable E w b 0 c headp var in
  let* text := ast_str_buffer b in
  Ret (cret, copied workspacelen text).

(** ** Setting *)

(** [name[strlen(name) - 1] == ')']; the name must not be empty. *)
Definition names_function (name : str) : outcome bool :=
  let* last := oaccess (last name) in Ret (last =? c_close).

Definition update_vars (f : list ast_var_t -> outcome (list ast_var_t)) (w : pbx) (chan : option nat) : outcome pbx :=
  match chan with
  | Some c => let* ch := channel_at w c in let* l := f (varshead ch) in Ret (set_varshead c l w)
  | None => let* l := f (globals w) in Ret (w <| globals := l |>)
  end.

Definition pbx_builtin_pushvar_helper (E : pbx_env) (mem_ok : bool) (w : pbx) (chan : option nat) (name : str) (value : option str)
    : outcome pbx :=
  let* f := names_function name in
  if f then Ret (snd (ast_func_write E w chan name value))
  else update_vars (push_in_list mem_ok name value) w chan.

Definition pbx_builtin_setvar_helper (E : pbx_env) (mem_ok : bool) (w : pbx) (chan : option nat) (name : str) (value : option str)
    : outcome (Z * pbx) :=
  let* f := names_function name in
  if f then Ret (ast_func_write E w chan name value)
  else let* w := update_vars (set_in_list mem_ok name value) w chan in Ret (0, w).

Definition pbx_builtin_getvar_helper (w : pbx) (chan : option nat) (name : option str) : outcome (option str) :=
  match name with
  | None => Ret None
  | Some name =>
      let* place := (match chan with Some c => let* ch := channel_at w c in Ret (Some (varshead ch)) | None => Ret None end) in
      Ret (match place with
           | Some l => match find_exact name l with Some v => Some v | None => find_exact name (globals w) end
           | None => find_exact name (globals w)
           end)
  end.

(** The lines of the loop of [pbx_builtin_serialize_variables]; [ast_str_append] without a
    bound fails only when memory does. *)
Fixpoint serialize_loop (al : reallocator) (vars : list ast_var_t) (buf : ast_str) (total : Z) : outcome (Z * ast_str) :=
  match vars with
  | [] => Ret (total, buf)
  | v :: vars =>
      let* (rc, buf) := ast_str_append al buf 0 (ast_var_name v ++ [61] ++ ast_var_value v ++ [10]) in
      if rc <? 0 then Ret (total, buf) else serialize_loop al vars buf (total + 1)
  end.

Definition pbx_builtin_serialize_variables (al : reallocator) (w : pbx) (chan : option nat) (buf : ast_str) : outcome (Z * ast_str) :=
  match chan with
  | None => Ret (0, buf)
  | Some c =>
      let* buf := ast_str_reset buf in
      let* ch := channel_at w c in
      serialize_loop al (varshead ch) buf 0
  end.

Definition pbx_builtin_clear_globals (w : pbx) : pbx := w <| globals := [] |>.

(** Conditions: numbers by their value, other strings are true. *)
Definition pbx_checkcondition (condition : option str) : Z :=
  match condition with
  | None | Some [] => 0
  | Some s => match scan_int 30 s with Some (res, _) => res | None => 1 end
  end.

(** ** What the callers may count on *)

(** Everything that is text is a C string. *)
Definition vars_ok (l : list ast_var_t) : Prop := Forall (fun v => cstr (var_full v) /\ cstr (var_val v)) l.

Record channel_ok (ch : ast_channel) : Prop := {
  ok_name : cstr (ch_name ch); ok_uniqueid : cstr (ch_uniqueid ch);
  ok_context : cstr (ch_context ch); ok_exten : cstr (ch_exten ch); ok_vars : vars_ok (varshead ch)
}.

Record pbx_ok (w : pbx) : Prop := {
  ok_globals : vars_ok (globals w); ok_channels : Forall channel_ok (channels w);
  ok_system : cstr (ast_config_AST_SYSTEM_NAME w); ok_eid : cstr (eid_str w)
}.

(** A callback leaves the exchange in order, with the same channels. *)
Definition step_ok (w w' : pbx) : Prop := pbx_ok w' /\ length (channels w') = length (channels w).

(** The contract of functions: what is read is a string, and for the old kind it fits. *)
Record function_ok (f : ast_custom_function) : Prop := {
  fun_read read w c name args len res text w' : acf_read f = Some read -> pbx_ok w -> 0 < len ->
    read w c name args len = (res, text, w') -> cstr text /\ zlen text < len /\ step_ok w w';
  fun_read2 read2 w c name args res text w' : acf_read2 f = Some read2 -> pbx_ok w ->
    read2 w c name args = (res, text, w') -> cstr text /\ step_ok w w';
  fun_max : 0 <= acf_read_max f
}.

Definition expr_text_ok (v : expr_value) : Prop :=
  match v with ExprNumber t | ExprString (Some t) => cstr t | _ => True end.

Record env_ok (E : pbx_env) : Prop := {
  env_al : never_fails (al E);
  env_hint w c hint name : hint_of E w c = Some (hint, name) -> cstr hint /\ from_option cstr True name;
  env_expr w c s v w' : pbx_ok w -> expr_of E w c s = (v, w') -> expr_text_ok v /\ step_ok w w';
  env_dummy : channel_ok (dummy_channel E);
  env_functions : Forall function_ok (acf_root E)
}.

Lemma step_ok_refl w : pbx_ok w -> step_ok w w.
Proof. by split. Qed.

Lemma step_ok_trans w1 w2 w3 : step_ok w1 w2 -> step_ok w2 w3 -> step_ok w1 w3.
Proof. intros [_ E1] [H2 E2]. split; [done|congruence]. Qed.

(** The channel of a call is there. *)
Definition chan_ok (w : pbx) (c : option nat) : Prop := match c with Some c => (c < length (channels w))%nat | None => True end.

Lemma chan_ok_step w w' c : step_ok w w' -> chan_ok w c -> chan_ok w' c.
Proof. intros [_ Hl]. destruct c; cbn; lia. Qed.

Lemma channel_at_ok w c : pbx_ok w -> (c < length (channels w))%nat -> exists ch, channel_at w c = Ret ch /\ channel_ok ch.
Proof.
  intros Hw Hc. unfold channel_at. destruct (lookup_lt_is_Some_2 _ _ Hc) as [ch Hch]. rewrite Hch.
  exists ch. split; [done|]. apply (proj1 (Forall_lookup _ _) (ok_channels _ Hw) _ _ Hch).
Qed.

Lemma cstr_decimal n : cstr (decimal n).
Proof.
  assert (H : forall fuel n text, 0 <= n -> cstr text -> cstr (decimal_digits fuel n text)).
  { induction fuel as [|fuel IH]; intros m text Hm Ht; cbn; [done|].
    assert (Hd : cstr (48 + m mod 10 :: text)) by (constructor; [pose proof (Z.mod_pos_bound m 10); lia|done]).
    case_if; [done|]. apply IH; [|done]. apply Z.div_pos; lia. }
  unfold decimal. case_if; [constructor; [done|]|]; apply H; try constructor; lia.
Qed.

(** ** What a variable means *)

(** The built-in variables as strings. *)
Definition channel_value (E : pbx_env) (w : pbx) (c : nat) (ch : ast_channel) (var : str) : var_found :=
  if strncmp_eq var (zs "CALL") then
    if strncmp_eq (drop 4 var) (zs "ING") then
      if streq (drop 7 var) (zs "PRES") then Value (decimal (ast_party_id_presentation (caller_id ch)))
      else if streq (drop 7 var) (zs "ANI2") then Value (decimal (caller_ani2 ch))
      else if streq (drop 7 var) (zs "TON") then Value (decimal (caller_plan ch))
      else if streq (drop 7 var) (zs "TNS") then Value (decimal (transit_network_select ch))
      else NotFound
    else NotFound
  else if streq var (zs "HINT") then match hint_of E w c with None => NoValue | Some (hint, _) => Value hint end
  else if streq var (zs "HINTNAME") then
    match hint_of E w c with None => NoValue | Some (_, name) => Value (default [] name) end
  else if streq var (zs "EXTEN") then Value (ch_exten ch)
  else if streq var (zs "CONTEXT") then Value (ch_context ch)
  else if streq var (zs "PRIORITY") then Value (decimal (ch_priority ch))
  else if streq var (zs "CHANNEL") then Value (ch_name ch)
  else if streq var (zs "UNIQUEID") then Value (ch_uniqueid ch)
  else if streq var (zs "HANGUPCAUSE") then Value (decimal (ch_hangupcause ch))
  else NotFound.

Definition exchange_value (w : pbx) (var : str) : var_found :=
  if streq var (zs "EPOCH") then Value (decimal (u32 (s32 (pbx_time w))))
  else if streq var (zs "SYSTEMNAME") then Value (ast_config_AST_SYSTEM_NAME w)
  else if streq var (zs "ENTITYID") then Value (eid_str w)
  else NotFound.

Definition first_found (s t : var_found) : var_found := match s with NotFound => t | _ => s end.
Definition found_value (s : var_found) : option str := match s with Value v => Some v | _ => None end.

(** The value of a variable: built-in, then of the channel (or the list), then global. *)
Definition variable_value (E : pbx_env) (w : pbx) (c : option nat) (headp : option (list ast_var_t)) (var : str) : outcome (option str) :=
  match c with
  | Some c =>
      let* ch := channel_at w c in
      Ret (found_value (first_found (first_found (channel_value E w c ch var) (exchange_value w var))
                                    (in_places [Some (varshead ch); Some (globals w)] var)))
  | None => Ret (found_value (first_found (exchange_value w var) (in_places [headp; Some (globals w)] var)))
  end.

(** [s] and the block together: [t], as a string. *)
Definition found_in (s : var_found) (b : ast_str) (t : var_found) : Prop :=
  growable b /\
  match s with
  | Assembled => exists v, t = Value v /\ dyn b v
  | _ => s = t /\ dyn b []
  end.

Lemma assemble_ok E b text : env_ok E -> growable b -> dyn b [] -> cstr text ->
  exists s b', (let* (_, b) := ast_str_set (al E) b 0 text in Ret (Assembled, b)) = Ret (s, b') /\ found_in s b' (Value text).
Proof.
  intros HE Hg Hd Ht. destruct (ast_str_set_ok (al E) b text) as (b' & -> & Hg' & Hd'); try done; [apply HE| |].
  - pose proof (holds_len _ _ (dyn_holds _ _ Hd)). lia.
  - exists Assembled, b'. split; [done|]. split; [done|]. eauto.
Qed.

Lemma channel_variable_ok E w c ch b var : env_ok E -> channel_ok ch -> growable b -> dyn b [] ->
  exists s b', channel_variable E w c ch b 0 var = Ret (s, b') /\ found_in s b' (channel_value E w c ch var).
Proof.
  intros HE Hch Hg Hd. unfold channel_variable, channel_value.
  repeat match goal with
  | |- context [if ?x then _ else _] => destruct x
  end;
  try (by eexists _, b; split; [done|split; [done|split; [done|exact Hd]]]);
  try (apply assemble_ok; [done..|apply cstr_decimal]).
  - destruct (hint_of E w c) as [[h n]|] eqn:Eh; [|by eexists _, b; split; [done|split; [done|split; [done|exact Hd]]]].
    apply assemble_ok; [done..|]. by apply (env_hint _ HE) in Eh as [? _].
  - destruct (hint_of E w c) as [[h [n|]]|] eqn:Eh; [| |by eexists _, b; split; [done|split; [done|split; [done|exact Hd]]]].
    + apply assemble_ok; [done..|]. by apply (env_hint _ HE) in Eh as [_ ?].
    + exists Assembled, b. split; [done|]. split; [done|]. by exists [].
Qed.

Lemma global_variable_ok E w b var : env_ok E -> growable b -> dyn b [] ->
  exists s b', global_variable E w b 0 var = Ret (s, b') /\ found_in s b' (exchange_value w var).
Proof.
  intros HE Hg Hd. unfold global_variable, exchange_value. repeat case_if;
    try (by eexists _, b; split; [done|split; [done|split; [done|exact Hd]]]).
  apply assemble_ok; [done..|apply cstr_decimal].
Qed.

Definition found_ok (s : var_found) : Prop := match s with Value v => cstr v | _ => True end.

Lemma find_nocase_ok var l v : vars_ok l -> find_nocase var l = Some v -> cstr v.
Proof.
  unfold find_nocase, ast_var_value. intros Hl Hf. destruct (List.find _ l) as [x|] eqn:E; [|done]. injection Hf as <-.
  apply find_some in E as [Hin _]. apply (proj1 (List.Forall_forall _ _) Hl) in Hin. apply Hin.
Qed.

Lemma in_places_ok places var : Forall (from_option vars_ok True) places -> found_ok (in_places places var).
Proof.
  induction 1 as [|[l|] places Hl _ IH]; cbn; [done| |done].
  destruct (find_nocase var l) eqn:E; [|done]. by apply find_nocase_ok in E.
Qed.

Lemma in_places_plain places var : in_places places var = NotFound \/ exists v, in_places places var = Value v.
Proof. induction places as [|[l|] places IH]; cbn; [by left| |done]. destruct (find_nocase var l); eauto. Qed.

Lemma channel_value_ok E w c ch var : env_ok E -> channel_ok ch -> found_ok (channel_value E w c ch var).
Proof.
  intros HE Hch. unfold channel_value.
  repeat match goal with |- context [if ?x then _ else _] => destruct x end;
    try exact I; try apply cstr_decimal; try apply Hch.
  - destruct (hint_of E w c) as [[h n]|] eqn:Eh; [|done]. by apply (env_hint _ HE) in Eh as [? _].
  - destruct (hint_of E w c) as [[h n]|] eqn:Eh; [|done]. apply (env_hint _ HE) in Eh as [_ ?].
    destruct n; [done|constructor].
Qed.

Lemma exchange_value_ok w var : pbx_ok w -> found_ok (exchange_value w var).
Proof. intros Hw. unfold exchange_value. repeat case_if; try exact I; try apply cstr_decimal; apply Hw. Qed.

(** What [s] points to and what it stands for are of one kind. *)
Ltac no_such_found H := try (by destruct H as [H _]); try (by destruct H as (? & H & _)).

(** The rest of the function, once the built-in variables of the channel were tried. *)
Lemma retrieve_rest E w b s t places var tmpvar : env_ok E -> pbx_ok w -> found_in s b t -> found_ok t ->
  Forall (from_option vars_ok True) places -> vn_substring tmpvar = false ->
  let v := found_value (first_found (first_found t (exchange_value w var)) (in_places places var)) in
  exists b', (let* (s, str) := (match s with NotFound => global_variable E w b 0 var | _ => Ret (s, b) end) in
    let s := match s with NotFound => in_places places var | _ => s end in
    match s with
    | NotFound | NoValue => Ret (false, str)
    | Assembled | Value _ =>
        let* str := (match s with Value v => let* (_, str) := ast_str_set (al E) str 0 v in Ret str | _ => Ret str end) in
        let* str := (if vn_substring tmpvar then ds_substring str (vn_offset tmpvar) (vn_length tmpvar) else Ret str) in
        Ret (true, str)
    end) = Ret (bool_decide (is_Some v), b') /\ growable b' /\ dyn b' (default [] v) /\ from_option cstr True v.
Proof.
  intros HE Hw Hs Ht Hp Hsub v.
  assert (H : exists s' b', (match s with NotFound => global_variable E w b 0 var | _ => Ret (s, b) end) = Ret (s', b') /\
    found_in s' b' (first_found t (exchange_value w var)) /\ found_ok (first_found t (exchange_value w var))).
  { destruct Hs as [Hg Hs]. destruct s; cbn in *.
    - destruct Hs as [<- Hd]. cbn. destruct (global_variable_ok E w b var HE Hg Hd) as (s' & b' & -> & Hf).
      exists s', b'. split; [done|]. split; [done|]. by apply exchange_value_ok.
    - destruct Hs as [<- Hd]. eexists _, b. split; [done|]. by split_and!.
    - destruct Hs as (x & -> & Hd). eexists _, b. split; [done|]. split; [split; [done|]; by exists x|done].
    - destruct Hs as [<- Hd]. eexists _, b. split; [done|]. by split_and!. }
  clear Hs Ht. destruct H as (s' & b' & -> & [Hg' Hf] & Hok). cbn [obind]. subst v.
  destruct (first_found t (exchange_value w var)) as [| | |x] eqn:Et.
  - destruct s'; cbn in Hf; no_such_found Hf. destruct Hf as [_ Hd].
    cbn [first_found]. pose proof (in_places_ok places var Hp) as Hv.
    destruct (in_places_plain places var) as [-> | [x Ex]]; cbn.
    { exists b'. by split_and!. }
    rewrite Ex in *. cbn in *. destruct (ast_str_set_ok (al E) b' x) as (b2 & -> & Hg2 & Hd2); try done; [apply HE| |].
    { pose proof (holds_len _ _ (dyn_holds _ _ Hd)). lia. }
    cbn. rewrite Hsub. cbn. exists b2. by split_and!.
  - destruct s'; cbn in Hf; no_such_found Hf.
    exists b'. split_and!; try done; apply Hf.
  - destruct s'; cbn in Hf; no_such_found Hf.
  - destruct s'; cbn in Hf; no_such_found Hf.
    + destruct Hf as (y & [= <-] & Hd). cbn. rewrite Hsub. cbn. exists b'. by split_and!.
    + destruct Hf as [[= <-] Hd]. cbn in *.
      destruct (ast_str_set_ok (al E) b' text) as (b2 & -> & Hg2 & Hd2); try done; [apply HE| |].
      { pose proof (holds_len _ _ (dyn_holds _ _ Hd)). lia. }
      cbn. rewrite Hsub. cbn. exists b2. by split_and!.
Qed.

(** Retrieving a variable whose name has no range gives its value. *)
Lemma retrieve_value E w b c headp var : env_ok E -> pbx_ok w -> chan_ok w c -> from_option vars_ok True headp ->
  growable b -> dyn b [] -> vn_substring (parse_variable_name var) = false ->
  exists v b', variable_value E w c headp var = Ret v /\
    ast_str_retrieve_variable E w b 0 c headp var = Ret (bool_decide (is_Some v), b') /\
    growable b' /\ dyn b' (default [] v) /\ from_option cstr True v.
Proof.
  intros HE Hw Hc Hh Hg Hd Hs. unfold variable_value, ast_str_retrieve_variable. destruct c as [c|].
  - destruct (channel_at_ok w c Hw Hc) as (ch & -> & Hch). cbn [obind].
    destruct (channel_variable_ok E w c ch b var HE Hch Hg Hd) as (s & b1 & -> & Hf). cbn [obind].
    eexists. destruct (retrieve_rest E w b1 s (channel_value E w c ch var) [Some (varshead ch); Some (globals w)] var
      (parse_variable_name var) HE Hw Hf) as (b' & Hr & Hrest); [by apply channel_value_ok| |done|].
    { repeat constructor; [apply Hch|apply Hw]. }
    exists b'. split; [done|]. split; [exact Hr|]. exact Hrest.
  - cbn [obind]. eexists. destruct (retrieve_rest E w b NotFound NotFound [headp; Some (globals w)] var
      (parse_variable_name var) HE Hw) as (b' & Hr & Hrest); [by split_and!|done| |done|].
    { repeat constructor; [done|apply Hw]. }
    exists b'. split; [done|]. split; [exact Hr|]. exact Hrest.
Qed.

(** ** Lists of variables are stacks *)

(** How far a variable is inherited: not at all, by one generation, by all. *)
Inductive level := Plain | Once | Always.

Definition level_of (name : str) : level :=
  if deref name =? 95 then if deref (tail name) =? 95 then Always else Once else Plain.

Definition inherit_level (x : level * str) : option (level * str) :=
  match x with (Plain, _) => None | (Once, v) => Some (Plain, v) | (Always, v) => Some (Always, v) end.

(** The values of a name with their levels, the latest first. *)
Definition entry (v : ast_var_t) : level * str := (level_of (var_full v), var_val v).
Definition stack (l : list ast_var_t) (n : str) : list (level * str) := entry <$> filter (fun v => ast_var_name v = n) l.

Lemma stack_cons v l n : stack (v :: l) n = (if decide (ast_var_name v = n) then [entry v] else []) ++ stack l n.
Proof. unfold stack. rewrite filter_cons. by case_decide. Qed.

Lemma stack_app l1 l2 n : stack (l1 ++ l2) n = stack l1 n ++ stack l2 n.
Proof. unfold stack. by rewrite filter_app, fmap_app. Qed.

Lemma stack_remove t l n : stack (remove_var t l) n = if decide (n = t) then tail (stack l n) else stack l n.
Proof.
  induction l as [|v l IH]; cbn [remove_var]; [by case_decide|]. case_bool_decide as Hv.
  - rewrite stack_cons, Hv. case_decide as Ht; case_decide as Hn; cbn; try done; congruence.
  - rewrite !stack_cons, IH. case_decide as Hn; [|done]. case_decide as Hm; [congruence|done].
Qed.

Lemma find_exact_stack l n : find_exact n l = snd <$> head (stack l n).
Proof.
  unfold find_exact, stack. induction l as [|v l IH]; [done|]. cbn [List.find]. rewrite filter_cons.
  case_bool_decide as Hv; case_decide; try done; congruence.
Qed.

(** The variables of a place: a channel, or the globals. *)
Definition vars_at (w : pbx) (p : option nat) : list ast_var_t :=
  match p with Some c => from_option varshead [] (channels w !! c) | None => globals w end.

Lemma vars_at_set w c l p : (c < length (channels w))%nat ->
  vars_at (set_varshead c l w) p = if decide (p = Some c) then l else vars_at w p.
Proof.
  intros Hc. unfold vars_at, set_varshead. destruct p as [d|]; cbn; [|done].
  destruct (decide (d = c)) as [->|Hne].
  - destruct (lookup_lt_is_Some_2 _ _ Hc) as [ch Hch]. rewrite list_lookup_alter, Hch. cbn. by rewrite !decide_True.
  - rewrite list_lookup_alter_ne by done. rewrite decide_False by congruence. done.
Qed.

(** Changing the variables of one place. *)
Lemma update_vars_ok f w p l : chan_ok w p -> f (vars_at w p) = Ret l ->
  exists w', update_vars f w p = Ret w' /\ length (channels w') = length (channels w) /\
    forall q, vars_at w' q = if decide (q = p) then l else vars_at w q.
Proof.
  intros Hp Hf. destruct p as [c|]; cbn in *.
  - destruct (lookup_lt_is_Some_2 _ _ Hp) as [ch Hch]. unfold channel_at. rewrite Hch in *. cbn in *. rewrite Hf. cbn.
    eexists. split; [done|]. split; [by apply length_alter|]. intros q. by apply vars_at_set.
  - rewrite Hf. cbn. eexists. split; [done|]. split; [done|]. by intros [q|].
Qed.

(** *** The operations, and their meaning on stacks *)

Inductive var_op :=
| SetVar (chan : option nat) (name : str) (value : option str)
| PushVar (chan : option nat) (name : str) (value : option str)
| InheritVars (parent child : nat)
| ClearGlobals.

Definition run_var_op (E : pbx_env) (w : pbx) (op : var_op) : outcome pbx :=
  match op with
  | SetVar c name value => let* (_, w) := pbx_builtin_setvar_helper E true w c name value in Ret w
  | PushVar c name value => pbx_builtin_pushvar_helper E true w c name value
  | InheritVars parent child =>
      let* p := channel_at w parent in
      update_vars (fun l => Ret (ast_channel_inherit_variables (fun _ => true) (varshead p) l)) w (Some child)
  | ClearGlobals => Ret (pbx_builtin_clear_globals w)
  end.

(** What is inherited of a variable: with one underscore it loses it, with two it stays. *)
Definition inherited (v : ast_var_t) : option ast_var_t :=
  if deref (var_full v) =? 95 then
    if deref (tail (var_full v)) =? 95 then Some v else Some (mk_var (tail (var_full v)) (var_val v))
  else None.

Lemma inherit_appends parent child :
  ast_channel_inherit_variables (fun _ => true) parent child = child ++ omap inherited parent.
Proof.
  revert child. induction parent as [|v parent IH]; intros child; [by rewrite app_nil_r|].
  cbn [ast_channel_inherit_variables omap list_omap]. rewrite IH, <- app_assoc. f_equal.
  unfold inherited, ast_var_full_name, ast_var_value, ast_var_assign. destruct v as [name val]. cbn [var_full var_val].
  by destruct (deref name =? 95), (deref (tail name) =? 95).
Qed.

(** Inheriting does not change the name a variable is found by. *)
Lemma inherited_entry v : inherit_level (entry v) = entry <$> inherited v /\
  from_option (fun v' => ast_var_name v' = ast_var_name v) True (inherited v).
Proof.
  unfold inherited, entry, level_of, ast_var_name, skip_underscores. destruct v as [name val]. cbn.
  destruct (deref name =? 95) eqn:E1; [|done]. destruct (deref (tail name) =? 95) eqn:E2; cbn.
  - by rewrite E1, E2.
  - by rewrite E2.
Qed.

Lemma stack_inherited l n : stack (omap inherited l) n = omap inherit_level (stack l n).
Proof.
  induction l as [|v l IH]; [done|]. cbn [omap list_omap]. rewrite stack_cons.
  destruct (inherited_entry v) as [He Hn]. destruct (inherited v) as [v'|]; cbn in Hn.
  - rewrite stack_cons, IH, Hn. case_decide; [|done]. cbn [app omap list_omap]. by rewrite He.
  - rewrite IH. case_decide; [|done]. cbn [app omap list_omap]. by rewrite He.
Qed.

(** For every place and name a stack. *)
Definition stacks := option nat -> str -> list (level * str).

Definition update_stack (st : stacks) (p : option nat) (f : str -> list (level * str) -> list (level * str)) : stacks :=
  fun q n => if decide (q = p) then f n (st q n) else st q n.

Definition stacks_after (st : stacks) (op : var_op) : stacks :=
  match op with
  | SetVar c name value =>
      update_stack st c (fun n s =>
        if decide (n = skip_underscores name) then
          match value with Some v => [(level_of name, v)] | None => [] end ++ tail s
        else s)
  | PushVar c name value =>
      update_stack st c (fun n s =>
        if decide (n = skip_underscores name) then
          match value with Some v => [(level_of name, v)] | None => [] end ++ s
        else s)
  | InheritVars parent child => update_stack st (Some child) (fun n s => s ++ omap inherit_level (st (Some parent) n))
  | ClearGlobals => update_stack st None (fun _ _ => [])
  end.

(** The latest value of the channel, or else of the globals. *)
Definition top_value (st : stacks) (c : option nat) (n : str) : option str :=
  match c with
  | Some c => match head (st (Some c) n) with Some x => Some (snd x) | None => snd <$> head (st None n) end
  | None => snd <$> head (st None n)
  end.

(** The name of a variable, and not of a function. *)
Definition plain_name (name : str) : Prop := from_option (fun c => c <> c_close) False (last name).

Definition var_op_ok (channels : nat) (op : var_op) : Prop :=
  match op with
  | SetVar c name _ | PushVar c name _ => plain_name name /\ from_option (fun c => (c < channels)%nat) True c
  | InheritVars parent child => (parent < channels)%nat /\ (child < channels)%nat
  | ClearGlobals => True
  end.

Lemma plain_name_function name : plain_name name -> names_function name = Ret false.
Proof.
  unfold plain_name, names_function. destruct (last name) as [c|]; cbn; [|done]. intros Hc.
  by rewrite (proj2 (Z.eqb_neq _ _)).
Qed.

(** [w] has the stacks [st]. *)
Definition has_stacks (w : pbx) (st : stacks) : Prop := forall p n, stack (vars_at w p) n = st p n.

Lemma update_has_stacks f w p l st g : has_stacks w st -> chan_ok w p -> f (vars_at w p) = Ret l ->
  (forall n, stack l n = g n (stack (vars_at w p) n)) ->
  exists w', update_vars f w p = Ret w' /\ length (channels w') = length (channels w) /\ has_stacks w' (update_stack st p g).
Proof.
  intros Hst Hp Hf Hl. destruct (update_vars_ok f w p l Hp Hf) as (w' & Hr & Hlen & Hv). exists w'.
  split; [done|]. split; [done|]. intros q n. rewrite Hv. unfold update_stack. case_decide as Hq; [|apply Hst].
  subst q. by rewrite Hl, Hst.
Qed.

Lemma run_var_op_refines E w op st : var_op_ok (length (channels w)) op -> has_stacks w st ->
  exists w', run_var_op E w op = Ret w' /\ length (channels w') = length (channels w) /\ has_stacks w' (stacks_after st op).
Proof.
  intros Hok Hst. destruct op as [c name value|c name value|parent child|]; cbn [run_var_op stacks_after var_op_ok] in *.
  - destruct Hok as [Hn Hc]. unfold pbx_builtin_setvar_helper. rewrite (plain_name_function _ Hn). cbn [obind].
    destruct (update_has_stacks (set_in_list true name value) w c
      (match value with Some v => [mk_var name v] | None => [] end ++ remove_var (skip_underscores name) (vars_at w c)) st
      (fun n s => if decide (n = skip_underscores name) then match value with Some v => [(level_of name, v)] | None => [] end ++ tail s else s))
      as (w' & -> & Hl & Hst'); [done|by destruct c|by destruct value| |by exists w'].
    intros n. rewrite stack_app, stack_remove. destruct value as [v|]; [|done].
    rewrite stack_cons. unfold ast_var_name. cbn. repeat case_decide; try done; congruence.
  - destruct Hok as [Hn Hc]. unfold pbx_builtin_pushvar_helper. rewrite (plain_name_function _ Hn). cbn [obind].
    apply update_has_stacks with (match value with Some v => [mk_var name v] | None => [] end ++ vars_at w c);
      [done|by destruct c|by destruct value|].
    intros n. rewrite stack_app. destruct value as [v|]; [|by case_decide].
    rewrite stack_cons. unfold ast_var_name. cbn. repeat case_decide; try done; congruence.
  - destruct Hok as [Hp Hc]. unfold channel_at. destruct (lookup_lt_is_Some_2 _ _ Hp) as [ch Hch]. rewrite Hch. cbn [oaccess obind].
    apply update_has_stacks with (vars_at w (Some child) ++ omap inherited (varshead ch)); [done|done|by rewrite inherit_appends|].
    intros n. rewrite stack_app, stack_inherited. f_equal. f_equal. rewrite <- Hst. cbn. by rewrite Hch.
  - eexists. split; [done|]. split; [done|]. intros [q|] n; unfold update_stack; case_decide; try done. apply (Hst (Some q)).
Qed.


(** ** Retrieving with a range *)

(** No built-in variable has a range in its name. *)
Lemma streq_eq s t : streq s t = true -> s = t.
Proof. unfold streq. by intros ?%bool_decide_eq_true_1. Qed.

Lemma range_not_builtin var : vn_substring (parse_variable_name var) = true ->
  (forall name, vn_substring (parse_variable_name (zs name)) = false -> streq var (zs name) = false) /\
  (forall name, strncmp_eq var (zs "CALL") = true -> strncmp_eq (drop 4 var) (zs "ING") = true ->
    vn_substring (parse_variable_name (zs "CALLING" ++ zs name)) = false -> streq (drop 7 var) (zs name) = false).
Proof.
  intros Hv. split.
  - intros name Hn. destruct (streq var (zs name)) eqn:E; [|done]. apply streq_eq in E. congruence.
  - intros name H1 H2 Hn. destruct (streq (drop 7 var) (zs name)) eqn:E; [|done]. apply streq_eq in E.
    unfold strncmp_eq in *. apply bool_decide_eq_true_1 in H1, H2.
    assert (var = zs "CALLING" ++ zs name) as ->; [|congruence].
    rewrite <- E, <- (take_drop 4 var) at 1. rewrite <- (take_drop 3 (drop 4 var)), drop_drop.
    change (length (zs "CALL")) with 4%nat in H1. change (length (zs "ING")) with 3%nat in H2. rewrite H1, H2.
    by rewrite app_assoc.
Qed.

Lemma range_builtin_not_found E w c ch b m var : vn_substring (parse_variable_name var) = true ->
  channel_variable E w c ch b m var = Ret (NotFound, b) /\ global_variable E w b m var = Ret (NotFound, b).
Proof.
  intros Hv. destruct (range_not_builtin var Hv) as [H1 H2]. unfold channel_variable, global_variable.
  rewrite !H1 by done. split; [|done].
  destruct (strncmp_eq var (zs "CALL")) eqn:E1; [|done]. destruct (strncmp_eq (drop 4 var) (zs "ING")) eqn:E2; [|done].
  by rewrite !H2 by done.
Qed.

(** A range in the name that is retrieved does not work: the variable is looked up by the
    whole name, range included, so that nothing is found (unless a variable has such a
    name). *)
Theorem retrieve_range_not_found E w c headp var len :
  vn_substring (parse_variable_name var) = true -> chan_ok w c ->
  in_places [match c with Some c => Some (vars_at w (Some c)) | None => headp end; Some (globals w)] var = NotFound ->
  pbx_retrieve_variable E w c var len headp = Ret (false, []).
Proof.
  intros Hv Hc Hp. unfold pbx_retrieve_variable, ast_str_retrieve_variable.
  change (oaccess (ast_str_create true 16)) with (Ret (mk_ast_str DS_MALLOC (replicate 16 0) 0)). cbn [obind].
  set (b := mk_ast_str _ _ _).
  assert (Hb : copied len [] = []) by (unfold copied; by rewrite take_nil).
  destruct c as [c|]; cbn [vars_at] in Hp.
  - unfold channel_at. destruct (lookup_lt_is_Some_2 _ _ Hc) as [ch Hch]. rewrite Hch in *. cbn [oaccess obind].
    destruct (range_builtin_not_found E w c ch b 0 var Hv) as [-> Hgv]. cbn [obind]. rewrite Hgv. cbn [obind from_option] in *. rewrite Hp. cbn [obind].
    change (ast_str_buffer b) with (@Ret (list Z) []). cbn [obind]. by rewrite Hb.
  - cbn [obind]. destruct (range_builtin_not_found E w 0 (dummy_channel E) b 0 var Hv) as [_ ->]. cbn [obind]. rewrite Hp. cbn [obind].
    change (ast_str_buffer b) with (@Ret (list Z) []). cbn [obind]. by rewrite Hb.
Qed.

(** ** Upper and lower case *)

(** Variables are set and read by exact name, but retrieved without regard to case: after
    setting [n1] and then [n2], which differ only in case, both names retrieve the second
    value. *)
Lemma find_nocase_cons v l n : same_name (ast_var_name v) n = true -> find_nocase n (v :: l) = Some (var_val v).
Proof. intros H. unfold find_nocase. cbn. by rewrite H. Qed.

Theorem case_confusion l n1 n2 v1 v2 l1 l2 :
  n1 <> n2 -> skip_underscores n1 = n1 -> skip_underscores n2 = n2 -> same_name n2 n1 = true ->
  set_in_list true n1 (Some v1) l = Ret l1 -> set_in_list true n2 (Some v2) l1 = Ret l2 ->
  find_exact n1 l2 = Some v1 /\ find_exact n2 l2 = Some v2 /\ find_nocase n1 l2 = Some v2.
Proof.
  unfold set_in_list, ast_var_assign, insert_head. intros Hne H1 H2 Hs. rewrite H1, H2. intros [= <-]. cbn [remove_var].
  rewrite bool_decide_false by (unfold ast_var_name; cbn; by rewrite H1). intros [= <-].
  assert (N1 : ast_var_name (mk_var n1 v1) = n1) by done. assert (N2 : ast_var_name (mk_var n2 v2) = n2) by done.
  rewrite !find_exact_stack, !stack_cons, N1, N2.
  rewrite (decide_False (P := n2 = n1)), !decide_True by done. cbn. split; [done|]. split; [done|].
  unfold find_nocase, ast_var_name. cbn. by rewrite H2, Hs.
Qed.

(** ** The registry of functions *)

(** No two functions have one name. *)
Definition root_ok (root : list ast_custom_function) : Prop := NoDup (acf_name <$> root).

Lemma insert_function_perm acf root : insert_function acf root ≡ₚ acf :: root.
Proof. induction root as [|cur root IH]; cbn; [done|]. case_if; [done|]. rewrite IH. constructor. Qed.

Lemma find_function root name acf : root_ok root ->
  ast_custom_function_find root name = Some acf <-> acf ∈ root /\ acf_name acf = name.
Proof.
  unfold ast_custom_function_find, root_ok. induction root as [|cur root IH]; intros Hnd; cbn.
  { split; [done|]. intros [Hin _]. by apply elem_of_nil in Hin. }
  cbn in Hnd. apply NoDup_cons in Hnd as [Hni Hnd]. rewrite elem_of_cons. case_bool_decide as Hc.
  - split; [intros [= <-]; auto|]. intros [[-> |Hin] Hn]; [done|]. exfalso. apply Hni. rewrite <- Hc, <- Hn.
    by apply list_elem_of_fmap_2.
  - rewrite IH by done. split; [intros []; auto|]. intros [[-> |Hin] Hn]; [congruence|auto].
Qed.

(** Registering adds a function under a new name and keeps the others; unregistering takes
    it away; names stay unique. *)
Theorem function_registry root acf :
  root_ok root ->
  (forall root', __ast_custom_function_register root (Some acf) true = (0, root') ->
    root_ok root' /\ forall name, ast_custom_function_find root' name =
      if decide (name = acf_name acf) then Some acf else ast_custom_function_find root name) /\
  (is_Some (ast_custom_function_find root (acf_name acf)) ->
    __ast_custom_function_register root (Some acf) true = (-1, root)) /\
  (forall root', ast_custom_function_unregister root (Some acf) = (0, root') ->
    root_ok root' /\ forall name, ast_custom_function_find root' name =
      if decide (name = acf_name acf) then None else ast_custom_function_find root name).
Proof.
  intros Hok. split; [|split].
  - intros root'. cbn. destruct (existsb _ _) eqn:E; [done|]. intros [= <-].
    assert (Hni : acf_name acf ∉ acf_name <$> root).
    { intros (x & Hx & Hin)%list_elem_of_fmap. assert (existsb (fun cur => bool_decide (acf_name acf = acf_name cur)) root = true); [|congruence].
      apply existsb_exists. exists x. split; [by apply list_elem_of_In|]. by apply bool_decide_eq_true. }
    assert (Hok' : root_ok (insert_function acf root)).
    { unfold root_ok. rewrite insert_function_perm. by constructor. }
    split; [done|]. intros name. apply option_eq. intros f. rewrite find_function by done. rewrite insert_function_perm, elem_of_cons.
    case_decide as Hn; [|rewrite find_function by done].
    + split; [|by intros [= ->]; auto]. intros [[-> |Hin] Hf]; [done|]. exfalso. apply Hni. rewrite <- Hn, <- Hf. by apply list_elem_of_fmap_2.
    + split; [intros [[-> |] ?]; [congruence|auto]|intros []; auto].
  - intros [f Hf]. cbn. apply find_function in Hf as [Hin Hf]; [|done].
    assert (existsb (fun cur => bool_decide (acf_name acf = acf_name cur)) root = true) as ->; [|done].
    apply existsb_exists. exists f. split; [by apply list_elem_of_In|]. by apply bool_decide_eq_true.
  - intros root'. cbn. destruct (remove_function (acf_name acf) root) as [r|] eqn:E; [|done]. intros [= <-].
    assert (Hr : forall root r, remove_function (acf_name acf) root = Some r -> exists f, acf_name f = acf_name acf /\ root ≡ₚ f :: r).
    { clear. induction root as [|cur root IH]; intros r; cbn; [done|]. case_bool_decide as Hc; [intros [= <-]; eauto|].
      destruct (remove_function _ root) as [r0|]; cbn; [|done]. intros [= <-]. destruct (IH r0 eq_refl) as (f & Hf & Hp).
      exists f. split; [done|]. rewrite Hp. constructor. }
    destruct (Hr _ _ E) as (f & Hf & Hp). assert (Hnd : NoDup (acf_name f :: (acf_name <$> r))) by (unfold root_ok in Hok; by rewrite Hp in Hok).
    apply NoDup_cons in Hnd as [Hni Hnd]. split; [done|]. intros name. apply option_eq. intros g. rewrite find_function by done.
    case_decide as Hn; [|rewrite find_function, Hp, elem_of_cons by done].
    + split; [|done]. intros [Hin Hg]. exfalso. apply Hni. rewrite Hf, <- Hn, <- Hg. by apply list_elem_of_fmap_2.
    + split; [intros []; auto|]. intros [[-> |] Hg]; [congruence|auto].
Qed.

(** ** Serializing *)

Definition serialized (l : list ast_var_t) : str := l ≫= fun v => ast_var_name v ++ [61] ++ ast_var_value v ++ [10].

Lemma cstr_skip name : cstr name -> cstr (skip_underscores name).
Proof.
  intros H. unfold skip_underscores. assert (Ht : forall s, cstr s -> cstr (tail s)) by (intros s; destruct 1; [constructor|done]).
  repeat case_if; auto.
Qed.

(** Every variable becomes a line, and the lines are counted. *)
Theorem serialize_correct al w c buf s : never_fails al -> growable buf -> dyn buf s -> chan_ok w (Some c) ->
  vars_ok (vars_at w (Some c)) ->
  exists buf', pbx_builtin_serialize_variables al w (Some c) buf = Ret (zlen (vars_at w (Some c)), buf') /\
    dyn buf' (serialized (vars_at w (Some c))).
Proof.
  intros Ha Hg Hd Hc Hv. unfold pbx_builtin_serialize_variables.
  assert (Hp : 0 < as_len buf) by (pose proof (holds_len _ _ (dyn_holds _ _ Hd)); lia).
  destruct (ast_str_reset_ok buf Hg Hp) as (b & -> & Hg1 & Hd1 & _). cbn [obind].
  unfold channel_at. cbn [vars_at] in *. destruct (lookup_lt_is_Some_2 _ _ Hc) as [ch Hch]. rewrite Hch in *. cbn [oaccess obind from_option] in *.
  assert (H : forall l b t total, growable b -> dyn b t -> vars_ok l -> exists b', serialize_loop al l b total = Ret (total + zlen l, b') /\ dyn b' (t ++ serialized l)).
  { clear - Ha. induction l as [|v l IH]; intros b t total Hg Hd Hv; cbn [serialize_loop].
    { exists b. rewrite app_nil_r, Z.add_0_r. by split. }
    apply Forall_cons in Hv as [[Hv1 Hv2] Hv]. set (line := ast_var_name v ++ _).
    destruct (ast_str_append_ok al b t line Hg Ha Hd) as (b1 & -> & Hg1 & Hd1).
    { unfold line. repeat (apply cstr_app; split); try done; [by apply cstr_skip|..]; by repeat constructor. }
    cbn [obind]. rewrite (proj2 (Z.ltb_ge _ 0)) by lia. destruct (IH b1 (t ++ line) (total + 1) Hg1 Hd1 Hv) as (b' & -> & Hd').
    exists b'. split; [do 2 f_equal; cbn; lia|]. unfold serialized in *. cbn. by rewrite <- app_assoc in Hd'. }
  destruct (H (varshead ch) b [] 0 Hg1 Hd1 Hv) as (b' & -> & Hd'). by exists b'.
Qed.

(** ** Witnesses *)

(** A function of the old kind that returns its argument, one of the new kind that returns
    its length, and expressions that count their characters. *)
Definition sample_echo : ast_custom_function :=
  mk_custom_function (zs "ECHO")
    (Some (fun w _ _ args len => (0, take (Z.to_nat (len - 1)) (filter (fun c => c <> 0) (default [] args)), w))) None None 0.

Definition sample_len : ast_custom_function :=
  mk_custom_function (zs "LEN") None (Some (fun w _ _ args => (0, decimal (zlen (default [] args)), w))) None 0.

Definition sample_channel : ast_channel :=
  mk_ast_channel (zs "SIP/a-1") (zs "17.1") (zs "default") (zs "1000") 1 0 (mk_party_id false 0 false 0) 0 0 0
    [mk_var (zs "_FOO") (zs "foo bar"); mk_var (zs "X") (zs "FOO")] None 0 (mk_tv 0 0) false false None None.

Definition sample_env (functions : list ast_custom_function) : pbx_env :=
  mk_env functions (fun _ _ => None) (fun w _ s => (ExprNumber (decimal (zlen s)), w)) sample_channel zero_cells.

Definition sample_pbx : pbx := mk_pbx [mk_var (zs "G") (zs "glob")] [sample_channel] 1300000000 (zs "pbx") (zs "00:11").

Ltac cstr_const := vm_compute; repeat constructor; discriminate.

Lemma sample_channel_ok : channel_ok sample_channel.
Proof. split; cstr_const. Qed.

Lemma sample_pbx_ok : pbx_ok sample_pbx.
Proof. split; cstr_const. Qed.

Lemma sample_echo_ok : function_ok sample_echo.
Proof.
  split; [|done..]. intros read w c name args len res text w' [= <-] Hw Hl [= _ <- <-].
  split; [apply cstr_take|split; [rewrite length_take; lia|by apply step_ok_refl]].
  apply Forall_forall. intros x [Hx _]%list_elem_of_filter. done.
Qed.

Lemma sample_len_ok : function_ok sample_len.
Proof.
  split; [done| |done]. intros read2 w c name args res text w' [= <-] Hw [= _ <- <-].
  split; [apply cstr_decimal|by apply step_ok_refl].
Qed.

Lemma sample_env_ok functions : Forall function_ok functions -> env_ok (sample_env functions).
Proof.
  intros Hf. split; [apply zero_cells_never_fails|done| |apply sample_channel_ok|done].
  intros w c s v w' Hw [= <- <-]. split; [apply cstr_decimal|by apply step_ok_refl].
Qed.

Lemma sample_functions_ok : Forall function_ok [sample_len; sample_echo].
Proof. apply Forall_cons. split; [apply sample_len_ok|]. apply Forall_singleton, sample_echo_ok. Qed.

(** Two channels; a variable is set to be inherited, hidden by another one, inherited,
    and the other one is deleted. *)
Definition sample_pair : pbx := sample_pbx <| channels ::= fun chs => chs ++ [sample_channel <| varshead := [] |>] |>.

Definition sample_var_ops : list var_op :=
  [SetVar (Some 0%nat) (zs "_A") (Some (zs "1")); PushVar (Some 0%nat) (zs "A") (Some (zs "2")); InheritVars 0 1;
   SetVar None (zs "B") (Some (zs "global")); SetVar (Some 0%nat) (zs "A") None].

Definition sample_stacks : stacks := fun p n => stack (vars_at sample_pair p) n.

Lemma sample_var_ops_ok : Forall (var_op_ok (length (channels sample_pair))) sample_var_ops.
Proof. unfold sample_var_ops. repeat apply Forall_cons_2; try apply Forall_nil_2; cbn; repeat split; lia || discriminate || exact I. Qed.


Lemma sample_root_ok : root_ok [sample_len].
Proof. apply NoDup_singleton. Qed.

Lemma sample_len_found : is_Some (ast_custom_function_find [sample_len] (acf_name sample_len)).
Proof. exists sample_len. apply (find_function _ _ _ sample_root_ok). split; [apply list_elem_of_here|done]. Qed.

Lemma function_registry_witness :
  (forall root', __ast_custom_function_register [sample_len] (Some sample_echo) true = (0, root') ->
    root_ok root' /\ forall name, ast_custom_function_find root' name =
      if decide (name = acf_name sample_echo) then Some sample_echo else ast_custom_function_find [sample_len] name) /\
  map acf_name (snd (__ast_custom_function_register [sample_len] (Some sample_echo) true)) = [zs "ECHO"; zs "LEN"] /\
  __ast_custom_function_register [sample_len] (Some sample_len) true = (-1, [sample_len]).
Proof.
  split; [exact (proj1 (function_registry [sample_len] sample_echo sample_root_ok))|].
  split; [vm_compute; reflexivity|].
  exact (proj1 (proj2 (function_registry [sample_len] sample_len sample_root_ok)) sample_len_found).
Defined.

(** ["FOO:1"], on a channel that has [FOO]. *)
Lemma retrieve_range_not_found_witness :
  pbx_retrieve_variable (sample_env []) sample_pbx (Some 0%nat) (zs "FOO:1") VAR_BUF_SIZE None = Ret (false, []) /\
  pbx_retrieve_variable (sample_env []) sample_pbx (Some 0%nat) (zs "FOO") VAR_BUF_SIZE None = Ret (true, zs "foo bar").
Proof.
  split; [|vm_compute; reflexivity].
  apply (retrieve_range_not_found (sample_env []) sample_pbx (Some 0%nat) None (zs "FOO:1") VAR_BUF_SIZE);
    [reflexivity|cbn; lia|vm_compute; reflexivity].
Defined.
