(* ===== verification/Subst.v ===== *)
(** * Substitution of variables and expressions ([main/pbx.c])

    The text of a dialplan may refer to variables, functions and expressions, also inside
    of each other.  Two functions replace the references: one writes into a dynamic string
    ([ast_str_substitute_variables_full]), one into a buffer of given size
    ([pbx_substitute_variables_helper_full]).  This file models both, statement by
    statement, and proves them correct against the meaning of templates, trees of
    characters and references. *)

From S2P Require Extension.
From S2P Require Import Prelude DynStr Vars.
From Stdlib Require Import ZArith Lia.
From stdpp Require Import base list numbers strings.

#[local] Open Scope Z_scope.
#[local] Open Scope outcome_scope.
#[local] Open Scope record_scope.

(** ** Reading a template *)

Abbreviation c_dollar := 36.
Abbreviation c_lbrace := 123.
Abbreviation c_rbrace := 125.
Abbreviation c_lbracket := 91.
Abbreviation c_rbracket := 93.

Inductive thing := NextVar | NextExp | NextPlain.

(** How many characters are copied as they are, and what comes then. *)
Definition next_thing (s : str) : nat * thing :=
  match cut_first c_dollar s with
  | None => (length s, NextPlain)
  | Some (before, after) =>
      if deref after =? c_lbrace then (length before, NextVar)
      else if deref after =? c_lbracket then (length before, NextExp)
      else (1%nat, NextPlain)
  end.

(** The loops that find the end: how far [vare] gets, the brackets still open, and how
    many references are inside. *)
Fixpoint scan_var (s : str) (brackets needsub : Z) : nat * Z * Z :=
  match s with
  | [] => (0%nat, brackets, needsub)
  | c :: rest =>
      if brackets =? 0 then (0%nat, brackets, needsub)
      else
        let '(brackets, needsub) :=
          if (c =? c_dollar) && (deref rest =? c_lbrace) then (brackets, needsub + 1)
          else if c =? c_lbrace then (brackets + 1, needsub)
          else if c =? c_rbrace then (brackets - 1, needsub)
          else if (c =? c_dollar) && (deref rest =? c_lbracket) then (brackets, needsub + 1)
          else (brackets, needsub) in
        let '(n, brackets, needsub) := scan_var rest brackets needsub in (S n, brackets, needsub)
  end.

Fixpoint scan_exp (s : str) (brackets needsub : Z) : nat * Z * Z :=
  match s with
  | [] => (0%nat, brackets, needsub)
  | c :: rest =>
      if brackets =? 0 then (0%nat, brackets, needsub)
      else
        let step brackets needsub := let '(n, brackets, needsub) := scan_exp rest brackets needsub in (S n, brackets, needsub) in
        match rest with
        | d :: rest' =>
            if (c =? c_dollar) && (d =? c_lbracket) then
              let '(n, brackets, needsub) := scan_exp rest' (brackets + 1) (needsub + 1) in (S (S n), brackets, needsub)
            else if c =? c_lbracket then step (brackets + 1) needsub
            else if c =? c_rbracket then step (brackets - 1) needsub
            else if (c =? c_dollar) && (d =? c_lbrace) then
              let '(n, brackets, needsub) := scan_exp rest' brackets (needsub + 1) in (S (S n), brackets, needsub)
            else step brackets needsub
        | [] =>
            if c =? c_lbracket then (1%nat, brackets + 1, needsub)
            else if c =? c_rbracket then (1%nat, brackets - 1, needsub)
            else (1%nat, brackets, needsub)
        end
  end.

(** In a buffer, a function called without a channel but with a list of variables gets a
    dummy channel with that list, which is gone afterwards; that the dummy can be
    allocated and that the function leaves the list to its owner is taken for granted. *)
Definition on_channel {A} (E : pbx_env) (w : pbx) (c : option nat) (headp : option (list ast_var_t))
    (call : pbx -> option nat -> outcome (A * pbx)) : outcome (A * pbx) :=
  match c, headp with
  | None, Some l =>
      let* (a, w') := call (w <| channels ::= fun chs => chs ++ [(dummy_channel E) <| varshead := l |>] |>) (Some (length (channels w))) in
      Ret (a, w' <| channels ::= take (length (channels w)) |>)
  | _, _ => call w c
  end.

(** ** Into a dynamic string *)

(** [ast_str_expr] *)
Definition ast_str_expr (E : pbx_env) (w : pbx) (b : ast_str) (maxlen : Z) (chan : option nat) (expr : str)
    : outcome (ast_str * pbx) :=
  let (v, w) := expr_of E w chan expr in
  match v with
  | ExprNone => let* (_, b) := ast_str_set (al E) b maxlen [48] in Ret (b, w)
  | ExprNumber text => let* (_, b) := ast_str_set (al E) b maxlen text in Ret (b, w)
  | ExprString (Some text) => let* (_, b) := ast_str_set (al E) b maxlen text in Ret (b, w)
  | ExprString None => Ret (b, w)
  end.

Record scratch := mk_scratch { substr1 : ast_str; substr2 : option ast_str; substr3 : ast_str }.

(** The text of the reference with what is inside substituted; [sub] is the recursive call. *)
Definition inner_text (E : pbx_env) (sub : pbx -> ast_str -> str -> outcome (ast_str * pbx))
    (w : pbx) (sc : scratch) (vars : str) (len : Z) (needsub : Z) : outcome (str * scratch * pbx) :=
  let* s1 := ast_str_set_substr (al E) (substr1 sc) 0 vars len in
  let* text := ast_str_buffer s1 in
  if negb (needsub =? 0) then
    let* s2 := oaccess (match substr2 sc with Some s2 => Some s2 | None => ast_str_create true 16 end) in
    let* (s2, w) := sub w s2 text in
    let* text := ast_str_buffer s2 in
    Ret (text, mk_scratch s1 (Some s2) (substr3 sc), w)
  else Ret (text, mk_scratch s1 (substr2 sc) (substr3 sc), w).

(** The value of the variable or function, in [substr3]; [None] is no value ([cp4]).
    Without a channel but with a list of variables a dummy channel is made here as well,
    but the call is made with [c], which is [NULL]. *)
Definition reference_value (E : pbx_env) (w : pbx) (c : option nat) (headp : option (list ast_var_t)) (s3 : ast_str)
    (finalvars : str) : outcome (option ast_str * ast_str * pbx) :=
  let vn := parse_variable_name finalvars in
  let* (ok, s3, w) :=
    (if negb (vn_isfunc vn =? 0) then
       let* (res, s3, w) := ast_func_read2 E w c (vn_name vn) s3 0 in Ret (res =? 0, s3, w)
     else
       let* (_, s3) := ast_str_retrieve_variable E w s3 0 c headp (vn_name vn) in Ret (true, s3, w)) in
  if ok then let* s3 := ds_substring s3 (vn_offset vn) (vn_length vn) in Ret (Some s3, s3, w)
  else Ret (None, s3, w).

Fixpoint subst_loop (fuel : nat) (E : pbx_env) (w : pbx) (buf : ast_str) (maxlen : Z) (c : option nat)
    (headp : option (list ast_var_t)) (sc : scratch) (whereweare : str) : outcome (ast_str * pbx) :=
  match fuel with
  | O => NoFuel
  | S fuel =>
      match whereweare with
      | [] => Ret (buf, w)
      | _ =>
          let sub w b templ :=
            let* b := ast_str_reset b in
            let* s1 := oaccess (ast_str_create true 16) in
            let* s3 := oaccess (ast_str_create true 16) in
            subst_loop fuel E w b 0 c headp (mk_scratch s1 None s3) templ in
          let* s3 := ast_str_reset (substr3 sc) in
          let sc := mk_scratch (substr1 sc) (substr2 sc) s3 in
          let '(pos, next) := next_thing whereweare in
          let* buf := (if (0 <? pos)%nat then ast_str_append_substr (al E) buf maxlen whereweare (Z.of_nat pos) else Ret buf) in
          let whereweare := drop pos whereweare in
          match next with
          | NextPlain => subst_loop fuel E w buf maxlen c headp sc whereweare
          | NextVar =>
              let vars := drop 2 whereweare in
              let '(vare, brackets, needsub) := scan_var vars 1 0 in
              let len := Z.of_nat vare - 1 in
              let whereweare := drop (Z.to_nat (len + 3)) whereweare in
              let* (finalvars, sc, w) := inner_text E sub w sc vars len needsub in
              let* (v, s3, w) := reference_value E w c headp (substr3 sc) finalvars in
              let* buf := (match v with
                           | Some s3 => let* text := ast_str_buffer s3 in let* (_, buf) := ast_str_append (al E) buf maxlen text in Ret buf
                           | None => Ret buf
                           end) in
              subst_loop fuel E w buf maxlen c headp (mk_scratch (substr1 sc) (substr2 sc) s3) whereweare
          | NextExp =>
              let vars := drop 2 whereweare in
              let '(vare, brackets, needsub) := scan_exp vars 1 0 in
              let len := Z.of_nat vare - 1 in
              let whereweare := drop (Z.to_nat (len + 3)) whereweare in
              let* (finalvars, sc, w) := inner_text E sub w sc vars len needsub in
              let* (s3, w) := ast_str_expr E w (substr3 sc) 0 c finalvars in
              let* text := ast_str_buffer s3 in
              let* (_, buf) := ast_str_append (al E) buf maxlen text in
              subst_loop fuel E w buf maxlen c headp (mk_scratch (substr1 sc) (substr2 sc) s3) whereweare
          end
      end
  end.

(** The result is the string, what [*used] is set to, and the exchange. *)
Definition ast_str_substitute_variables_full (E : pbx_env) (w : pbx) (buf : ast_str) (maxlen : Z) (c : option nat)
    (headp : option (list ast_var_t)) (templ : str) : outcome (ast_str * Z * pbx) :=
  let* s1 := oaccess (ast_str_create true 16) in
  let* s3 := oaccess (ast_str_create true 16) in
  let* buf := ast_str_reset buf in
  let* (buf, w) := subst_loop (S (length templ)) E w buf maxlen c headp (mk_scratch s1 None s3) templ in
  Ret (buf, ast_str_strlen buf, w).

Definition ast_str_substitute_variables E w buf maxlen chan templ :=
  ast_str_substitute_variables_full E w buf maxlen chan None templ.

Definition ast_str_substitute_variables_varshead E w buf maxlen headp templ :=
  ast_str_substitute_variables_full E w buf maxlen None (Some headp) templ.

(** ** Into a buffer *)

(** The C string in the cells written so far, with the NUL behind them. *)
Definition cells_text (out : list Z) : outcome str := cstring (out ++ [0]).

(** [ast_expr(expr, cp2, length, chan)] behind the cells [out]: the cells, and the return
    value.  A string is copied with [ast_copy_string], which with no room left writes
    before the buffer; a number that does not fit counts the NUL. *)
Definition ast_expr (E : pbx_env) (w : pbx) (out : list Z) (length_ : Z) (chan : option nat) (expr : str)
    : outcome (list Z * Z * pbx) :=
  let (v, w) := expr_of E w chan expr in
  match v with
  | ExprNone => Ret (if length_ >? 1 then (out ++ [48], 1, w) else (out, 0, w))
  | ExprNumber text =>
      if length_ <=? 0 then Ret (out, 0, w)
      else if zlen text <? length_ then Ret (out ++ text, zlen text, w)
      else Ret (out ++ take (Z.to_nat (length_ - 1)) text ++ [0], length_, w)
  | ExprString None => Ret (out, 0, w)
  | ExprString (Some text) =>
      if length_ =? 0 then
        match out with [] => BadAccess | _ => Ret (removelast out ++ [0], 0, w) end
      else let text := take (Z.to_nat (length_ - 1)) text in Ret (out ++ text, zlen text, w)
  end.

(** [ast_copy_string(var, vars, len + 1)] into a buffer of [VAR_BUF_SIZE] bytes, for a
    reference of which [len] characters are there. *)
Definition copy_name (vars : str) (len : Z) : outcome str :=
  if (1 <=? len + 1) && (len + 1 <=? VAR_BUF_SIZE) then Ret (take (Z.to_nat len) vars) else BadAccess.

Definition helper_inner_text (sub : pbx -> str -> outcome (list Z * pbx)) (w : pbx) (vars : str) (len : Z) (needsub : Z)
    : outcome (str * pbx) :=
  let* text := copy_name vars len in
  if negb (needsub =? 0) then
    let* (ltmp, w) := sub w text in let* text := cells_text ltmp in Ret (text, w)
  else Ret (text, w).

Definition helper_reference_value (E : pbx_env) (w : pbx) (c : option nat) (headp : option (list ast_var_t)) (vars : str)
    : outcome (option str * pbx) :=
  let vn := parse_variable_name vars in
  let* (cp4, w) :=
    (if negb (vn_isfunc vn =? 0) then
       on_channel E w c headp (fun w c =>
         let* (res, workspace, w) := ast_func_read E w c (vn_name vn) [] VAR_BUF_SIZE in
         Ret (if res =? 0 then Some workspace else None, w))
     else
       let* (cret, workspace) := pbx_retrieve_variable E w c (vn_name vn) VAR_BUF_SIZE headp in
       Ret (if cret then Some workspace else None, w)) in
  match cp4 with
  | Some cp4 =>
      let* cp4 := oaccess (Extension.substring cp4 (vn_offset vn) (vn_length vn) (Z.to_nat VAR_BUF_SIZE)) in
      Ret (Some cp4, w)
  | None => Ret (None, w)
  end.

Fixpoint helper_subst (fuel : nat) (E : pbx_env) (w : pbx) (c : option nat) (headp : option (list ast_var_t))
    (out : list Z) (count : Z) (whereweare : str) : outcome (list Z * pbx) :=
  match fuel with
  | O => NoFuel
  | S fuel =>
      match whereweare with
      | [] => Ret (out, w)
      | _ =>
          if count =? 0 then Ret (out, w)
          else
            let sub w templ := helper_subst fuel E w c headp [] (VAR_BUF_SIZE - 1) templ in
            let '(pos, next) := next_thing whereweare in
            let vars := drop (pos + 2) whereweare in
            let pos := if Z.of_nat pos >? count then Z.to_nat count else pos in
            let out := out ++ take pos whereweare in
            let count := count - Z.of_nat pos in
            let whereweare := drop pos whereweare in
            match next with
            | NextPlain => helper_subst fuel E w c headp out count whereweare
            | NextVar =>
                let '(vare, brackets, needsub) := scan_var vars 1 0 in
                let len := Z.of_nat vare - 1 in
                let whereweare := drop (Z.to_nat (len + 3)) whereweare in
                let* (vars, w) := helper_inner_text sub w vars len needsub in
                let* (cp4, w) := helper_reference_value E w c headp vars in
                match cp4 with
                | Some cp4 =>
                    let length_ := if zlen cp4 >? count then count else zlen cp4 in
                    helper_subst fuel E w c headp (out ++ take (Z.to_nat length_) cp4) (count - length_) whereweare
                | None => helper_subst fuel E w c headp out count whereweare
                end
            | NextExp =>
                let '(vare, brackets, needsub) := scan_exp vars 1 0 in
                let len := Z.of_nat vare - 1 in
                let whereweare := drop (Z.to_nat (len + 3)) whereweare in
                let* (vars, w) := helper_inner_text sub w vars len needsub in
                let* (out, length_, w) := ast_expr E w out count c vars in
                helper_subst fuel E w c headp out (count - length_) whereweare
            end
      end
  end.

(** The result is the text in the buffer, what [*used] is set to, and the exchange. *)
Definition pbx_substitute_variables_helper_full (E : pbx_env) (w : pbx) (c : option nat) (headp : option (list ast_var_t))
    (cp1 : str) (count : Z) : outcome (str * Z * pbx) :=
  let* (out, w) := helper_subst (S (length cp1)) E w c headp [] count cp1 in
  let* text := cells_text out in
  Ret (text, zlen out, w).

(** The list of variables of the channel is passed as well, but not used for it. *)
Definition pbx_substitute_variables_helper (E : pbx_env) (w : pbx) (c : option nat) (cp1 : str) (count : Z) : outcome (str * pbx) :=
  let* headp := (match c with Some n => let* ch := channel_at w n in Ret (Some (varshead ch)) | None => Ret None end) in
  let* (text, _, w) := pbx_substitute_variables_helper_full E w c headp cp1 count in Ret (text, w).

Definition pbx_substitute_variables_varshead (E : pbx_env) (w : pbx) (headp : list ast_var_t) (cp1 : str) (count : Z) : outcome (str * pbx) :=
  let* (text, _, w) := pbx_substitute_variables_helper_full E w None (Some headp) cp1 count in Ret (text, w).

(** [strstr(s, "${")] and [strstr(s, "$[")]. *)
Fixpoint has_reference (bracket : Z) (s : str) : bool :=
  match s with
  | [] => false
  | c :: rest => ((c =? c_dollar) && (deref rest =? bracket)) || has_reference bracket rest
  end.

(** The data of an extension, for the application it calls. *)
Definition pbx_substitute_variables (E : pbx_env) (w : pbx) (datalen : Z) (c : nat) (data : option str) : outcome (str * pbx) :=
  match data with
  | None => Ret ([], w)
  | Some data =>
      match cut_first c_dollar data with
      | None => Ret (copied datalen data, w)
      | Some (_, after) =>
          if negb (has_reference c_lbrace (c_dollar :: after)) && negb (has_reference c_lbracket (c_dollar :: after))
          then Ret (copied datalen data, w)
          else pbx_substitute_variables_helper E w (Some c) data (datalen - 1)
      end
  end.

(** ** Templates and their meaning

    A template is a row of characters, references to variables or functions, and
    expressions; what a reference names is a template again. *)

Inductive template :=
| Done
| Lit (c : Z) (t : template)
| VarRef (name : template) (t : template)
| ExprRef (expr : template) (t : template).

Fixpoint print (t : template) : str :=
  match t with
  | Done => []
  | Lit c t => c :: print t
  | VarRef b t => c_dollar :: c_lbrace :: print b ++ c_rbrace :: print t
  | ExprRef b t => c_dollar :: c_lbracket :: print b ++ c_rbracket :: print t
  end.

(** The depth of brackets after [s], unless it gets to 0 before the end. *)
Fixpoint depth_after (left right : Z) (s : str) (d : Z) : option Z :=
  match s with
  | [] => Some d
  | c :: s =>
      if d =? 0 then None
      else depth_after left right s (if c =? left then d + 1 else if c =? right then d - 1 else d)
  end.

Definition balanced (left right : Z) (s : str) : bool := bool_decide (depth_after left right s 1 = Some 1).

(** Characters stand for themselves: a dollar sign is not before a bracket; the text of a
    reference has its brackets in pairs. *)
Fixpoint wf (t : template) : bool :=
  match t with
  | Done => true
  | Lit c t =>
      negb (c =? 0) &&
      negb ((c =? c_dollar) && ((deref (print t) =? c_lbrace) || (deref (print t) =? c_lbracket))) && wf t
  | VarRef b t => balanced c_lbrace c_rbrace (print b) && wf b && wf t
  | ExprRef b t => balanced c_lbracket c_rbracket (print b) && wf b && wf t
  end.

Section meaning.
(** The values of references and expressions, which may change the exchange, and whether
    a reference with its text and what that stands for has room. *)
Context (V X : str -> pbx -> outcome (str * pbx)) (fits : str -> str -> bool).

Fixpoint eval (t : template) (w : pbx) : outcome (str * pbx) :=
  match t with
  | Done => Ret ([], w)
  | Lit c t => let* (r, w) := eval t w in Ret (c :: r, w)
  | VarRef b t =>
      let* (name, w) := eval b w in
      oassert (fits (print b) name) (
      let* (v, w) := V name w in
      let* (r, w) := eval t w in
      Ret (v ++ r, w))
  | ExprRef b t =>
      let* (expr, w) := eval b w in
      oassert (fits (print b) expr) (
      let* (v, w) := X expr w in
      let* (r, w) := eval t w in
      Ret (v ++ r, w))
  end.
End meaning.

(** *** The values of references *)

(** What a call of a function gives: the return code, the text, and whether the counter of
    a dynamic string knows its length. *)
Definition call_function2 (E : pbx_env) (w : pbx) (c : option nat) (function : str) : Z * str * bool * pbx :=
  let (copy, args) := func_args function in
  match ast_custom_function_find (acf_root E) copy with
  | None => (-1, [], true, w)
  | Some acf =>
      match acf_read acf, acf_read2 acf with
      | None, None => (-1, [], true, w)
      | _, Some read2 => let '(res, text, w) := read2 w c copy args in (res, text, true, w)
      | Some read, None =>
          let '(res, text, w) := read w c copy args (if negb (acf_read_max acf =? 0) then acf_read_max acf else VAR_BUF_SIZE) in
          (res, text, false, w)
      end
  end.

Definition call_function (E : pbx_env) (w : pbx) (c : option nat) (function : str) : Z * str * pbx :=
  let (copy, args) := func_args function in
  match ast_custom_function_find (acf_root E) copy with
  | None => (-1, [], w)
  | Some acf =>
      match acf_read acf, acf_read2 acf with
      | None, None => (-1, [], w)
      | Some read, _ => read w c copy args VAR_BUF_SIZE
      | None, Some read2 => read2 w c copy args
      end
  end.

(** The part of a text that a range selects. *)
Definition part (text : str) (offset length_ : Z) : outcome str := oaccess (Extension.ast_str_substring text offset length_).

(** With the counter at 0, every range but one from the start gives nothing. *)
Definition counted_part (counted : bool) (text : str) (offset length_ : Z) : outcome str :=
  if counted then part text offset length_
  else Ret (if (offset =? 0) && (length_ >=? 0) then text else []).

Definition dyn_value (E : pbx_env) (c : option nat) (headp : option (list ast_var_t)) (name : str) (w : pbx) : outcome (str * pbx) :=
  let vn := parse_variable_name name in
  if negb (vn_isfunc vn =? 0) then
    let '(res, text, counted, w) := call_function2 E w c (vn_name vn) in
    if res =? 0 then let* t := counted_part counted text (vn_offset vn) (vn_length vn) in Ret (t, w) else Ret ([], w)
  else
    let* v := variable_value E w c headp (vn_name vn) in
    let* t := part (default [] v) (vn_offset vn) (vn_length vn) in
    Ret (t, w).

(** In a buffer, values have to fit into the workspace, and the length of a range must not
    be near [INT_MIN]. *)
Definition static_value (E : pbx_env) (c : option nat) (headp : option (list ast_var_t)) (name : str) (w : pbx) : outcome (str * pbx) :=
  let vn := parse_variable_name name in
  if negb (vn_isfunc vn =? 0) then
    let* (r, w) := on_channel E w c headp (fun w c => Ret (call_function E w c (vn_name vn))) in
    let '(res, text) := r in
    if res =? 0 then
      oassert ((zlen text <? VAR_BUF_SIZE) && (- 2 ^ 31 + VAR_BUF_SIZE <=? vn_length vn)) (let* t := part text (vn_offset vn) (vn_length vn) in Ret (t, w))
    else Ret ([], w)
  else
    let* v := variable_value E w c headp (vn_name vn) in
    oassert ((zlen (default [] v) <? VAR_BUF_SIZE) && (- 2 ^ 31 + VAR_BUF_SIZE <=? vn_length vn)) (
    let* t := part (default [] v) (vn_offset vn) (vn_length vn) in
    Ret (t, w)).

Definition expr_text (E : pbx_env) (c : option nat) (expr : str) (w : pbx) : outcome (str * pbx) :=
  let (v, w) := expr_of E w c expr in
  Ret (match v with ExprNone => [48] | ExprNumber t | ExprString (Some t) => t | ExprString None => [] end, w).

Definition dyn_eval (E : pbx_env) (c : option nat) (headp : option (list ast_var_t)) :=
  eval (dyn_value E c headp) (expr_text E c) (fun _ _ => true).

Definition static_eval (E : pbx_env) (c : option nat) (headp : option (list ast_var_t)) :=
  eval (static_value E c headp) (expr_text E c) (fun body text => (zlen body <? VAR_BUF_SIZE) && (zlen text <? VAR_BUF_SIZE - 1)).

(** *** Rows of characters *)

Fixpoint lits (s : str) (t : template) : template := match s with [] => t | c :: s => Lit c (lits s t) end.

Lemma print_lits s t : print (lits s t) = s ++ print t.
Proof. induction s as [|c s IH]; cbn; [done|]. by rewrite IH. Qed.

Lemma eval_lits V X fits s t w : eval V X fits (lits s t) w = let* (r, w) := eval V X fits t w in Ret (s ++ r, w).
Proof.
  induction s as [|c s IH]; cbn; [by destruct (eval V X fits t w) as [[]| | |]|].
  rewrite IH. by destruct (eval V X fits t w) as [[]| | |].
Qed.

Lemma wf_lits s t : wf (lits s t) = true -> cstr s /\ wf t = true.
Proof.
  induction s as [|c s IH]; cbn; [split; [constructor|done]|]. intros H. zb. destruct IH as [Hs Ht]; [done|].
  split; [|done]. constructor; [|done]. destruct (Z.eqb_spec c 0); done.
Qed.

(** What the search for the next dollar sign finds. *)
Lemma cut_first_template t : wf t = true ->
  match cut_first c_dollar (print t) with
  | None => t = lits (print t) Done
  | Some (before, after) => exists t1, t = lits before t1 /\ print t1 = c_dollar :: after
  end.
Proof.
  induction t as [|c t IH|b IHb t IH|b IHb t IH]; cbn [print cut_first wf]; intros Hwf; [done| |by eexists|by eexists].
  destruct (Z.eqb_spec c c_dollar) as [->|Hc]; [by eexists|].
  assert (Ht : wf t = true) by (zb; done). specialize (IH Ht).
  destruct (cut_first c_dollar (print t)) as [[before after]|]; cbn.
  - destruct IH as (t1 & -> & Ht1). by exists t1.
  - by rewrite <- IH.
Qed.

(** One round of the loops: what is copied, and what comes then. *)
Lemma next_thing_template t : wf t = true -> print t <> [] ->
  exists pos next pre t1, next_thing (print t) = (pos, next) /\ t = lits pre t1 /\ pos = length pre /\
  match next with
  | NextPlain => pre <> []
  | NextVar => exists b r, t1 = VarRef b r
  | NextExp => exists b r, t1 = ExprRef b r
  end.
Proof.
  intros Hwf Hne. pose proof (cut_first_template t Hwf) as Hcut. unfold next_thing.
  destruct (cut_first c_dollar (print t)) as [[before after]|].
  2:{ eexists _, _, (print t), Done. by split_and!. }
  destruct Hcut as (t1 & Ht & Ht1). pose proof Hwf as Hwf1. rewrite Ht in Hwf1. apply wf_lits in Hwf1 as [_ Hwf1].
  destruct t1 as [|d t1|b r|b r]; cbn in Ht1; try done.
  - injection Ht1 as -> <-. cbn in Hwf1.
    assert (Hd : (deref (print t1) =? c_lbrace) = false /\ (deref (print t1) =? c_lbracket) = false).
    { by destruct (deref (print t1) =? c_lbrace), (deref (print t1) =? c_lbracket). }
    destruct Hd as [-> ->]. destruct before as [|x before].
    + by eexists _, _, [c_dollar], t1; split_and!.
    + by eexists _, _, [x], (lits before (Lit c_dollar t1)); split_and!.
  - injection Ht1 as <-. exists (length before), NextVar, before, (VarRef b r). split_and!; eauto.
  - injection Ht1 as <-. exists (length before), NextExp, before, (ExprRef b r). split_and!; eauto.
Qed.

(** *** Finding the end of a reference *)

(** The scans find the bracket that closes, for a text with its brackets in pairs; and no
    reference is counted only when none is there. *)
Definition no_reference (s : str) : Prop := has_reference c_lbrace s = false /\ has_reference c_lbracket s = false.

Lemma no_reference_cons c s : no_reference (c :: s) <->
  (c = c_dollar -> deref s <> c_lbrace /\ deref s <> c_lbracket) /\ no_reference s.
Proof.
  unfold no_reference. cbn. rewrite !orb_false_iff, !andb_false_iff, !Z.eqb_neq. split.
  - intros [[[H1|H1] H2] [[H3|H3] H4]]; split_and!; try done; intros; by split.
  - intros [H1 [H2 H3]]. destruct (Z.eq_dec c c_dollar) as [Hc|Hc]; [destruct (H1 Hc)|]; split_and!; auto.
Qed.

Lemma deref_body body close rest c : c <> close -> deref (body ++ close :: rest) = c -> c <> 0 -> deref body = c.
Proof. destruct body; cbn; congruence. Qed.

Lemma deref_body_ne body close rest c : c <> 0 -> deref (body ++ close :: rest) <> c -> deref body <> c.
Proof. destruct body; cbn; congruence. Qed.

(** A scan over [body] and a closing bracket, from depth [d]. *)
Definition scanned (r : nat * Z * Z) (body : str) (k : Z) : Prop :=
  exists k', r = (S (length body), 0, k') /\ k <= k' /\ (k' = k -> no_reference body).

Lemma scanned_step r body c k k1 : k <= k1 -> (k1 = k -> c = c_dollar -> deref body <> c_lbrace /\ deref body <> c_lbracket) ->
  scanned r body k1 -> scanned (let '(n, b, k) := r in (S n, b, k)) (c :: body) k.
Proof.
  intros Hk Hc (k' & -> & Hk' & Hn). exists k'. split; [done|]. split; [lia|]. intros ->.
  apply no_reference_cons. split; [apply Hc; lia|apply Hn; lia].
Qed.

Lemma scanned_two r x body k : x = c_lbrace \/ x = c_lbracket -> scanned r body (k + 1) ->
  scanned (let '(n, b, k) := r in (S (S n), b, k)) (c_dollar :: x :: body) k.
Proof. intros _ (k' & -> & Hk' & _). exists k'. split; [done|]. lia. Qed.

Lemma balanced_depth l r s : balanced l r s = true -> depth_after l r s 1 = Some 1.
Proof. unfold balanced. by intros H%bool_decide_eq_true. Qed.

Lemma scan_var_body body : forall rest d k, depth_after c_lbrace c_rbrace body d = Some 1 ->
  scanned (scan_var (body ++ c_rbrace :: rest) d k) body k.
Proof.
  induction body as [|c body IH]; intros rest d k Hd.
  { injection Hd as ->. exists k. cbn. destruct rest; cbn; split_and!; done. }
  cbn [depth_after] in Hd. destruct (Z.eqb_spec d 0) as [|Hd0]; [done|]. cbn [app scan_var].
  rewrite (proj2 (Z.eqb_neq _ _)) by done.
  pose proof (deref_body_ne body c_rbrace rest) as Hne.
  destruct (Z.eqb_spec c c_dollar) as [->|Hc]; cbn [andb Z.eqb Pos.eqb] in *.
  - destruct (Z.eqb_spec (deref (body ++ c_rbrace :: rest)) c_lbrace) as [E1|E1];
      [|destruct (Z.eqb_spec (deref (body ++ c_rbrace :: rest)) c_lbracket) as [E2|E2]].
    + apply scanned_step with (k + 1); [lia|lia|by apply IH].
    + apply scanned_step with (k + 1); [lia|lia|by apply IH].
    + apply scanned_step with k; [lia| |by apply IH]. intros _ _. split; by apply Hne.
  - destruct (c =? c_lbrace); [|destruct (c =? c_rbrace)]; apply scanned_step with k; try lia; try done; by apply IH.
Qed.

Lemma scan_exp_body body : forall rest d k, depth_after c_lbracket c_rbracket body d = Some 1 ->
  scanned (scan_exp (body ++ c_rbracket :: rest) d k) body k.
Proof.
  assert (Hlen : forall n body rest d k, (length body < n)%nat -> depth_after c_lbracket c_rbracket body d = Some 1 ->
    scanned (scan_exp (body ++ c_rbracket :: rest) d k) body k); [|intros; apply (Hlen (S (length body))); [lia|done]].
  clear body. induction n as [|n IH]; intros [|c body] rest d k Hn Hd; try (cbn in Hn; lia).
  { injection Hd as ->. exists k. cbn. destruct rest; cbn; split_and!; done. }
  cbn [depth_after] in Hd. destruct (Z.eqb_spec d 0) as [|Hd0]; [done|]. cbn [app scan_exp].
  rewrite (proj2 (Z.eqb_neq _ _)) by done. cbn [length] in Hn.
  assert (IH1 : forall d' k', depth_after c_lbracket c_rbracket body d' = Some 1 -> scanned (scan_exp (body ++ c_rbracket :: rest) d' k') body k').
  { intros d' k' Hd'. apply IH; [lia|done]. }
  destruct (Z.eqb_spec c c_dollar) as [->|Hc]; cbn [andb Z.eqb Pos.eqb] in *.
  - destruct body as [|x body]; cbn [app] in *; cbn [Z.eqb Pos.eqb] in *.
    { apply scanned_step with k; [lia|done|by apply IH1]. }
    cbn [depth_after length] in Hd, Hn. rewrite (proj2 (Z.eqb_neq _ _) Hd0) in Hd.
    destruct (Z.eqb_spec x c_lbracket) as [->|Hx]; [|destruct (Z.eqb_spec x c_lbrace) as [->|Hx']].
    + apply scanned_two; [by right|]. apply IH; [lia|done].
    + apply scanned_two; [by left|]. apply IH; [lia|done].
    + apply scanned_step with k; [lia|done|]. apply IH1. cbn [depth_after]. by rewrite (proj2 (Z.eqb_neq _ _) Hd0), (proj2 (Z.eqb_neq _ _) Hx).
  - destruct (body ++ c_rbracket :: rest) as [|y ys] eqn:El; [by destruct body|].
    destruct (c =? c_lbracket); [|destruct (c =? c_rbracket)]; (apply scanned_step with k; [lia|done|by apply IH1]).
Qed.

Lemma no_reference_lits b : wf b = true -> no_reference (print b) -> b = lits (print b) Done.
Proof.
  induction b as [|c b IH|b _ r _|b _ r _]; cbn [print]; intros Hwf Hn; [done| |..].
  - apply no_reference_cons in Hn as [_ Hn]. cbn in *. f_equal. apply IH; [zb; done|done].
  - apply no_reference_cons in Hn as [Hn _]. by destruct (Hn eq_refl).
  - apply no_reference_cons in Hn as [Hn _]. by destruct (Hn eq_refl).
Qed.

Lemma eval_plain V X fits b w : wf b = true -> no_reference (print b) -> eval V X fits b w = Ret (print b, w).
Proof. intros Hwf Hn. rewrite (no_reference_lits b Hwf Hn) at 1. rewrite eval_lits. cbn. by rewrite app_nil_r. Qed.

(** *** Calls of functions *)

(** Two ways of making a call that agree on every channel agree here. *)
Lemma on_channel_sim {A B} (R : A -> B -> Prop) E w c headp (call1 : pbx -> option nat -> outcome (A * pbx))
    (call2 : pbx -> option nat -> outcome (B * pbx)) (b : B) w' :
  env_ok E -> pbx_ok w -> chan_ok w c -> from_option vars_ok True headp ->
  (forall w1 c1 b1 w1', pbx_ok w1 -> chan_ok w1 c1 -> call2 w1 c1 = Ret (b1, w1') ->
    exists a1, call1 w1 c1 = Ret (a1, w1') /\ R a1 b1 /\ step_ok w1 w1') ->
  on_channel E w c headp call2 = Ret (b, w') ->
  exists a, on_channel E w c headp call1 = Ret (a, w') /\ R a b /\ step_ok w w'.
Proof.
  intros HE Hw Hc Hh Hcall. unfold on_channel. destruct c as [c|]; [by apply Hcall|]. destruct headp as [l|]; [|by apply Hcall].
  set (w1 := w <| channels ::= _ |>). cbn in Hh.
  assert (Hw1 : pbx_ok w1).
  { destruct Hw as [Hg Hchs Hs He]. split; [done| |done..]. apply Forall_app. split; [done|]. constructor; [|constructor].
    destruct (env_dummy _ HE). by split. }
  destruct (call2 w1 _) as [[b1 w2]| | |] eqn:E2; cbn [obind]; try done. intros [= -> <-].
  destruct (Hcall w1 (Some (length (channels w))) b w2) as (a & -> & HR & [Hw2 Hlen]); [done| |done|].
  { cbn. rewrite length_app. cbn. lia. }
  cbn [obind]. exists a. split; [done|]. split; [done|]. unfold w1 in Hlen. cbn in Hlen. rewrite length_app in Hlen. cbn in Hlen.
  split; [|cbn; rewrite length_take; lia]. destruct Hw2 as [Hg Hchs Hs He]. split; [done| |done..]. by apply Forall_take.
Qed.

Lemma find_function_ok E name acf : env_ok E -> ast_custom_function_find (acf_root E) name = Some acf -> function_ok acf.
Proof.
  intros HE Hf. apply find_some in Hf as [Hin _]. by apply (proj1 (List.Forall_forall _ _) (env_functions _ HE)).
Qed.

(** [ast_func_read2] makes the call, and leaves the text in the block. *)
Definition called (r : Z * ast_str) (x : Z * str * bool) : Prop :=
  let '(res, b) := r in let '(res', text, counted) := x in
  res = res' /\ growable b /\ holds b text /\ cstr text /\ as_used b = if counted then zlen text else 0.

Lemma func_read2_ok E w c function b res text counted w' : env_ok E -> pbx_ok w -> growable b -> dyn b [] ->
  call_function2 E w c function = (res, text, counted, w') ->
  exists b', ast_func_read2 E w c function b 0 = Ret (res, b', w') /\ called (res, b') (res, text, counted) /\ step_ok w w'.
Proof.
  intros HE Hw Hg Hd. unfold call_function2, ast_func_read2. destruct (func_args function) as [copy args].
  assert (Hnone : exists b', Ret (-1, b, w) = Ret (-1, b', w) /\ called (-1, b') (-1, [], true) /\ step_ok w w).
  { exists b. split; [done|]. split; [|by apply step_ok_refl]. split_and!; try done; [apply Hd|constructor|apply Hd]. }
  assert (Hp : 0 < as_len b) by (pose proof (holds_len _ _ (dyn_holds _ _ Hd)); lia).
  destruct (ast_str_reset_ok b Hg Hp) as (b1 & Hr & Hg1 & Hd1 & Hl1).
  destruct (ast_custom_function_find (acf_root E) copy) as [acf|] eqn:Ef; [|by intros [= <- <- <- <-]].
  pose proof (find_function_ok E copy acf HE Ef) as Hacf.
  destruct (acf_read acf) as [read|] eqn:E1, (acf_read2 acf) as [read2|] eqn:E2; [| | |by intros [= <- <- <- <-]]; rewrite ?Hr; cbn [obind].
  2:{ cbn [Z.gtb Z.compare Z.eqb]. set (size := if negb (acf_read_max acf =? 0) then _ else _).
      destruct (read w c copy args size) as [[res1 text1] w1] eqn:Er. intros [= <- <- <- <-].
      assert (Hsize : 0 < size). { pose proof (fun_max _ Hacf). unfold size. destruct (Z.eqb_spec (acf_read_max acf) 0); cbn; [done|lia]. }
      destruct (fun_read _ Hacf _ _ _ _ _ _ _ _ _ E1 Hw Hsize Er) as (Ht & Hlt & Hs).
      destruct (make_space_grows (al E) b1 size Hg1 (env_al _ HE)) as (b2 & -> & Hg2 & Hu2 & Hl2 & _). cbn [snd].
      rewrite (store_after _ [] (as_str b2)) by (done || (rewrite length_app; cbn [length]; unfold as_len in Hl2; lia)). cbn [obind app].
      eexists. split; [done|]. split; [|done]. split_and!; [done|done|split; [done|]|done|].
      - cbn. rewrite <- app_assoc. cbn. eauto.
      - cbn. by rewrite Hu2, (dyn_used _ _ Hd1). }
  all: destruct (read2 w c copy args) as [[res1 text1] w1] eqn:Er; intros [= <- <- <- <-];
    destruct (fun_read2 _ Hacf _ _ _ _ _ _ _ _ E2 Hw Er) as [Ht Hs];
    destruct (ast_str_set_ok (al E) b1 text1 Hg1 (env_al _ HE)) as (b2 & -> & Hg2 & Hd2); [lia|done|]; cbn [obind];
    exists b2; split; [done|]; split; [|done]; split_and!; try done; apply Hd2.
Qed.

(** A range, when the counter is at 0. *)
Lemma ds_substring_uncounted b text o l : growable b -> holds b text -> as_used b = 0 ->
  exists b', ds_substring b o l = Ret b' /\ growable b' /\ holds b' (if (o =? 0) && (l >=? 0) then text else []).
Proof.
  intros Hg Hh Hu. unfold ds_substring, ast_str_strlen. rewrite Hu. case_if; [eauto|].
  set (off := if o <? 0 then _ else o). assert (0 <= off) by (unfold off; repeat case_if; lia).
  rewrite Z.geb_leb, (proj2 (Z.leb_le _ _)) by done.
  destruct (ast_str_reset_ok b Hg) as (b' & Hr & Hg' & Hd' & _); [pose proof (holds_len _ _ Hh); lia|].
  exists b'. split; [done|]. split; [done|]. apply Hd'.
Qed.

Lemma counted_part_ok b text (counted : bool) o l t : growable b -> holds b text -> as_used b = (if counted then zlen text else 0) ->
  counted_part counted text o l = Ret t -> exists b', ds_substring b o l = Ret b' /\ growable b' /\ holds b' t.
Proof.
  intros Hg Hh Hu. destruct counted; cbn.
  - unfold part. destruct (Extension.ast_str_substring text o l) as [t'|] eqn:E; [|done]. intros [= ->].
    destruct (ds_substring_ok b text o l t Hg) as (b' & Hr & Hg' & Hd'); [by split|done|]. exists b'. split_and!; try done. apply Hd'.
  - intros [= <-]. by apply ds_substring_uncounted.
Qed.

(** The name that is left has no range. *)
Lemma split_name_again s : forall p k name f rest, split_name s p k = (name, f, rest) -> split_name name p k = (name, f, None).
Proof.
  induction s as [|c s IH]; intros p k name f rest; cbn [split_name]; [by intros [= <- <- <-]|].
  destruct ((c =? 58) && (p =? 0)) eqn:Ec; [by intros [= <- <- <-]|].
  set (pk := if c =? c_paren then _ else _). destruct pk as [p1 k1] eqn:Epk.
  destruct (split_name s p1 k1) as [[n1 f1] r1] eqn:Es. intros [= <- <- <-]. cbn [split_name]. rewrite Ec.
  fold pk. rewrite Epk. by rewrite (IH _ _ _ _ _ Es).
Qed.

Lemma vn_name_no_range s : vn_substring (parse_variable_name (vn_name (parse_variable_name s))) = false.
Proof.
  unfold parse_variable_name. destruct (split_name s 0 0) as [[name f] rest] eqn:E.
  assert (Hn : vn_name (match rest with None => mk_variable_name name 0 INT_LIMIT f false
    | Some r => let (offset, length_) := scan_range r 0 INT_LIMIT in mk_variable_name name offset length_ f true end) = name).
  { destruct rest as [r|]; [|done]. by destruct (scan_range r 0 INT_LIMIT). }
  rewrite Hn, (split_name_again _ _ _ _ _ _ E). done.
Qed.

(** ** Substitution into a dynamic string is correct *)

Lemma cstr_part text o l t : cstr text -> part text o l = Ret t -> cstr t.
Proof.
  intros Ht. unfold part. destruct (Extension.ast_str_substring text o l) as [t'|] eqn:E; [|done]. intros [= ->].
  revert E. unfold Extension.ast_str_substring, Extension.cut_at.
  assert (Hnil : cstr []) by constructor.
  repeat case_if; try done; intros [= <-]; auto using cstr_take, cstr_drop.
Qed.

Definition ready (b : ast_str) : Prop := growable b /\ 0 < as_len b.

Lemma ready_holds b s : growable b -> holds b s -> ready b.
Proof. intros Hg Hh. split; [done|]. pose proof (holds_len _ _ Hh). lia. Qed.

Section dynamic.
Context (E : pbx_env) (c : option nat) (headp : option (list ast_var_t)).
Context (HE : env_ok E) (Hh : from_option vars_ok True headp).

Lemma reference_value_ok w s3 name t w' : pbx_ok w -> chan_ok w c -> growable s3 -> dyn s3 [] ->
  dyn_value E c headp name w = Ret (t, w') ->
  exists v s3', reference_value E w c headp s3 name = Ret (v, s3', w') /\ ready s3' /\ step_ok w w' /\ cstr t /\
    match v with Some b => holds b t | None => t = [] end.
Proof.
  intros Hw Hc Hg Hd. unfold dyn_value, reference_value. set (vn := parse_variable_name name).
  destruct (negb (vn_isfunc vn =? 0)).
  - destruct (call_function2 E w c (vn_name vn)) as [[[res text] counted] w1] eqn:Ec.
    destruct (func_read2_ok E w c (vn_name vn) s3 res text counted w1 HE Hw Hg Hd Ec) as (s3' & -> & (_ & Hg' & Hh' & Ht & Hu) & Hs).
    cbn [obind]. destruct (res =? 0).
    + destruct (counted_part counted text (vn_offset vn) (vn_length vn)) as [t'| | |] eqn:Ep; cbn [obind]; try done. intros [= -> <-].
      destruct (counted_part_ok s3' text counted _ _ _ Hg' Hh' Hu Ep) as (b' & -> & Hg2 & Hh2). cbn [obind].
      eexists _, _. split; [done|]. split; [by apply (ready_holds _ t)|]. split; [done|]. split; [|done]. apply Hh2.
    + intros [= <- <-]. eexists _, _. split; [done|]. split; [by apply (ready_holds _ text)|]. split; [done|]. split; [constructor|done].
  - destruct (retrieve_value E w s3 c headp (vn_name vn) HE Hw Hc Hh Hg Hd (vn_name_no_range name)) as (v & b' & -> & -> & Hg' & Hd' & Hv).
    cbn [obind]. destruct (part (default [] v) (vn_offset vn) (vn_length vn)) as [t'| | |] eqn:Ep; cbn [obind]; try done. intros [= -> <-].
    destruct (counted_part_ok b' (default [] v) true _ _ _ Hg' (dyn_holds _ _ Hd') (dyn_used _ _ Hd') Ep) as (b2 & -> & Hg2 & Hh2). cbn [obind].
    eexists _, _. split; [done|]. split; [by apply (ready_holds _ t)|]. split; [by apply step_ok_refl|]. split; [|done]. apply Hh2.
Qed.

Lemma str_expr_ok w s3 expr t w' : pbx_ok w -> growable s3 -> dyn s3 [] -> expr_text E c expr w = Ret (t, w') ->
  exists s3', ast_str_expr E w s3 0 c expr = Ret (s3', w') /\ growable s3' /\ holds s3' t /\ step_ok w w' /\ cstr t.
Proof.
  intros Hw Hg Hd. unfold expr_text, ast_str_expr. destruct (expr_of E w c expr) as [v w1] eqn:Ev. intros [= <- <-].
  destruct (env_expr _ HE _ _ _ _ _ Hw Ev) as [Hv Hs].
  assert (Hp : 0 < as_len s3) by (pose proof (holds_len _ _ (dyn_holds _ _ Hd)); lia).
  assert (Hset : forall text, cstr text -> exists s3', (let* (_, b) := ast_str_set (al E) s3 0 text in Ret (b, w1)) = Ret (s3', w1) /\
    growable s3' /\ holds s3' text /\ step_ok w w1 /\ cstr text).
  { intros text Ht. destruct (ast_str_set_ok (al E) s3 text Hg (env_al _ HE) Hp Ht) as (b & -> & Hg' & Hd'). cbn. exists b. split_and!; try done. apply Hd'. }
  destruct v as [|text|[text|]]; cbn in Hv; [apply Hset; by repeat constructor|by apply Hset|by apply Hset|].
  exists s3. split_and!; try done; [apply Hd|constructor].
Qed.

Record scratch_ok (sc : scratch) : Prop := {
  sc1 : ready (substr1 sc); sc2 : from_option ready True (substr2 sc); sc3 : ready (substr3 sc)
}.

Lemma inner_text_ok sub w sc vars len needsub body text w1 : scratch_ok sc -> cstr body -> 0 <= len ->
  body = take (Z.to_nat len) vars -> cstr vars ->
  (needsub = 0 -> text = body /\ w1 = w) ->
  (needsub <> 0 -> forall b, ready b -> exists b', sub w b body = Ret (b', w1) /\ growable b' /\ dyn b' text) ->
  exists sc', inner_text E sub w sc vars len needsub = Ret (text, sc', w1) /\ scratch_ok sc' /\ substr3 sc' = substr3 sc.
Proof.
  intros [[Hg1 Hp1] H2 H3] Hb Hl Hbody Hvars Hn0 Hn1. unfold inner_text.
  destruct (ast_str_set_substr_ok (al E) (substr1 sc) vars len Hg1 (env_al _ HE) Hp1 Hvars Hl) as (s1 & -> & Hg1' & Hh1 & _).
  cbn [obind]. rewrite <- Hbody in Hh1. rewrite (holds_buffer _ _ Hh1). cbn [obind].
  pose proof (ready_holds _ _ Hg1' Hh1) as Hr1.
  destruct (Z.eqb_spec needsub 0) as [Hn|Hn]; cbn [negb].
  - destruct (Hn0 Hn) as [-> ->]. eexists. split; [done|]. by split.
  - assert (Hs2 : exists s2, oaccess (match substr2 sc with Some s2 => Some s2 | None => ast_str_create true 16 end) = Ret s2 /\ ready s2).
    { destruct (substr2 sc) as [s2|]; [by exists s2|]. eexists. split; [done|].
      destruct (ast_str_create_ok 16 (mk_ast_str DS_MALLOC (replicate 16 0) 0)) as (? & ? & ?); [lia|done|]. by split. }
    destruct Hs2 as (s2 & -> & Hr2). cbn [obind]. destruct (Hn1 Hn s2 Hr2) as (b' & -> & Hg' & Hd'). cbn [obind].
    rewrite (holds_buffer _ _ (dyn_holds _ _ Hd')). cbn [obind]. eexists. split; [done|].
    split; [|done]. split; [done| |done]. cbn. by apply (ready_holds _ text), Hd'.
Qed.

Lemma append_value b pre s t : growable b -> dyn b pre -> holds s t -> cstr t ->
  exists b', (let* text := ast_str_buffer s in let* (_, b) := ast_str_append (al E) b 0 text in Ret b) = Ret b' /\
    growable b' /\ dyn b' (pre ++ t).
Proof.
  intros Hg Hd Hs Ht. rewrite (holds_buffer _ _ Hs). cbn [obind].
  destruct (ast_str_append_ok (al E) b pre t Hg (env_al _ HE) Hd Ht) as (b' & -> & ?). cbn. eauto.
Qed.

(** *** The pieces of a printed reference *)

Lemma obind_ret {A B} (x : outcome A) (k : A -> outcome B) b : obind x k = Ret b <-> exists a, x = Ret a /\ k a = Ret b.
Proof.
  split; [|by intros (a & -> & H)]. destruct x; cbn; try done. eauto.
Qed.

Lemma reference_drop pre o body close rest :
  drop (length pre) (pre ++ c_dollar :: o :: body ++ close :: rest) = c_dollar :: o :: body ++ close :: rest.
Proof. apply drop_app_length. Qed.

Lemma ref_rest o (body rest : str) close :
  drop (Z.to_nat (Z.of_nat (S (length body)) - 1 + 3)) (c_dollar :: o :: body ++ close :: rest) = rest.
Proof.
  replace (Z.to_nat (Z.of_nat (S (length body)) - 1 + 3)) with (S (S (length body + 1))) by lia.
  cbn [drop]. rewrite <- drop_drop, drop_app_length. done.
Qed.

Lemma ref_body (body rest : str) close : take (Z.to_nat (Z.of_nat (S (length body)) - 1)) (body ++ close :: rest) = body.
Proof. replace (Z.to_nat (Z.of_nat (S (length body)) - 1)) with (length body) by lia. apply take_app_length. Qed.

Lemma wf_cstr t : wf t = true -> cstr (print t).
Proof.
  induction t as [|x t IH|b IHb t IH|b IHb t IH]; cbn [print wf]; intros Hwf.
  - constructor.
  - zb. constructor; [done|by apply IH].
  - zb. constructor; [done|]. constructor; [done|]. apply cstr_app. split; [by apply IHb|]. constructor; [done|by apply IH].
  - zb. constructor; [done|]. constructor; [done|]. apply cstr_app. split; [by apply IHb|]. constructor; [done|by apply IH].
Qed.

Lemma create_ready : exists b, oaccess (ast_str_create true 16) = Ret b /\ ready b /\ dyn b [].
Proof.
  eexists. split; [done|]. destruct (ast_str_create_ok 16 (mk_ast_str DS_MALLOC (replicate 16 0) 0)) as (? & ? & ?); [lia|done|].
  split; [by split|done].
Qed.

Lemma reset_ready b : ready b -> exists b', ast_str_reset b = Ret b' /\ growable b' /\ dyn b' [] /\ ready b'.
Proof.
  intros [Hg Hp]. destruct (ast_str_reset_ok b Hg Hp) as (b' & Hr & Hg' & Hd & Hl). exists b'. split_and!; try done. split; [done|lia].
Qed.

(** Copying the characters before the reference. *)
Lemma copy_chunk b pre (chunk rest : str) : growable b -> dyn b pre -> cstr (chunk ++ rest) ->
  exists b', (if (0 <? length chunk)%nat then ast_str_append_substr (al E) b 0 (chunk ++ rest) (Z.of_nat (length chunk)) else Ret b) = Ret b' /\
    growable b' /\ dyn b' (pre ++ chunk).
Proof.
  intros Hg Hd Hc. destruct (Nat.ltb_spec 0 (length chunk)) as [Hl|Hl].
  - destruct (ast_str_append_substr_ok (al E) b pre (chunk ++ rest) (Z.of_nat (length chunk)) Hg (env_al _ HE) Hd Hc) as (b' & Hr & Hg' & Hd'); [lia|].
    rewrite Nat2Z.id, take_app_length in Hd'. eauto.
  - destruct chunk; [|cbn in Hl; lia]. exists b. by rewrite app_nil_r.
Qed.

(** What the loop does on a printed template, with enough fuel. *)
Definition loop_correct (fuel : nat) : Prop := forall t w buf sc pre text w',
  (length (print t) < fuel)%nat -> wf t = true ->
  pbx_ok w -> chan_ok w c -> growable buf -> dyn buf pre -> scratch_ok sc -> dyn_eval E c headp t w = Ret (text, w') ->
  exists buf', subst_loop fuel E w buf 0 c headp sc (print t) = Ret (buf', w') /\ growable buf' /\ dyn buf' (pre ++ text) /\
    step_ok w w' /\ cstr text.

(** The text of a reference, given that the loop is correct with less fuel. *)
Lemma inner_ok fuel (b : template) w sc k vars len nm w1 :
  loop_correct fuel -> (length (print b) < fuel)%nat -> wf b = true -> pbx_ok w -> chan_ok w c -> scratch_ok sc ->
  dyn_eval E c headp b w = Ret (nm, w1) -> 0 <= len -> print b = take (Z.to_nat len) vars -> cstr vars ->
  (k = 0 -> no_reference (print b)) ->
  exists sc', inner_text E (fun w b templ =>
      let* b := ast_str_reset b in
      let* s1 := oaccess (ast_str_create true 16) in
      let* s3 := oaccess (ast_str_create true 16) in
      subst_loop fuel E w b 0 c headp (mk_scratch s1 None s3) templ) w sc vars len k = Ret (nm, sc', w1) /\
    scratch_ok sc' /\ substr3 sc' = substr3 sc /\ step_ok w w1 /\ cstr nm.
Proof.
  intros IH Hf Hwf Hw Hc Hsc Hev Hl Hb Hvars Hk. pose proof (wf_cstr _ Hwf) as Hcs.
  destruct create_ready as (s1 & Hs1 & Hr1 & _).
  assert (Hsub : forall b0, ready b0 -> exists b', (let* d := ast_str_reset b0 in
      let* s1 := oaccess (ast_str_create true 16) in
      let* s3 := oaccess (ast_str_create true 16) in
      subst_loop fuel E w d 0 c headp (mk_scratch s1 None s3) (print b)) = Ret (b', w1) /\ growable b' /\ dyn b' nm /\ step_ok w w1 /\ cstr nm).
  { intros b0 Hr0. destruct (reset_ready b0 Hr0) as (b1 & -> & Hg1 & Hd1 & _). rewrite Hs1. cbn [obind].
    apply (IH b w b1 (mk_scratch s1 None s1) [] nm w1); try done. }
  destruct (Hsub s1 Hr1) as (_ & _ & _ & _ & Hs & Hnm).
  destruct (inner_text_ok (fun w b templ =>
      let* b := ast_str_reset b in
      let* s1 := oaccess (ast_str_create true 16) in
      let* s3 := oaccess (ast_str_create true 16) in
      subst_loop fuel E w b 0 c headp (mk_scratch s1 None s3) templ) w sc vars len k (print b) nm w1) as (sc' & Hi & Hsc' & H3); try done.
  - intros Hk0. unfold dyn_eval in Hev. rewrite eval_plain in Hev by auto. by injection Hev as <- <-.
  - intros _ b0 Hr0. destruct (Hsub b0 Hr0) as (b' & ? & ? & ? & _). eauto.
  - exists sc'. split_and!; try done; apply Hs.
Qed.

(** A reference and what comes behind it. *)
Lemma eval_var_ret V X fits b r w text w' : eval V X fits (VarRef b r) w = Ret (text, w') <->
  exists nm w1 v w2 rt, eval V X fits b w = Ret (nm, w1) /\ fits (print b) nm = true /\ V nm w1 = Ret (v, w2) /\
    eval V X fits r w2 = Ret (rt, w') /\ text = v ++ rt.
Proof.
  cbn [eval]. split.
  - intros ([nm w1] & H1 & H)%obind_ret. unfold oassert in H. destruct (fits (print b) nm) eqn:Hfit; [|done].
    apply obind_ret in H as ([v w2] & H2 & H). apply obind_ret in H as ([rt w3] & H3 & [= <- ->]). by exists nm, w1, v, w2, rt.
  - intros (nm & w1 & v & w2 & rt & -> & Hfit & H2 & H3 & ->). cbn. rewrite Hfit. cbn. rewrite H2. cbn. by rewrite H3.
Qed.

Lemma eval_exp_ret V X fits b r w text w' : eval V X fits (ExprRef b r) w = Ret (text, w') <->
  exists nm w1 v w2 rt, eval V X fits b w = Ret (nm, w1) /\ fits (print b) nm = true /\ X nm w1 = Ret (v, w2) /\
    eval V X fits r w2 = Ret (rt, w') /\ text = v ++ rt.
Proof.
  cbn [eval]. split.
  - intros ([nm w1] & H1 & H)%obind_ret. unfold oassert in H. destruct (fits (print b) nm) eqn:Hfit; [|done].
    apply obind_ret in H as ([v w2] & H2 & H). apply obind_ret in H as ([rt w3] & H3 & [= <- ->]). by exists nm, w1, v, w2, rt.
  - intros (nm & w1 & v & w2 & rt & -> & Hfit & H2 & H3 & ->). cbn. rewrite Hfit. cbn. rewrite H2. cbn. by rewrite H3.
Qed.

(** The rest of the template behind a value that was appended. *)
Lemma loop_continue fuel r w w2 w' b1 sc pre v rt chunk : loop_correct fuel -> (length (print r) < fuel)%nat -> wf r = true ->
  step_ok w w2 -> chan_ok w c -> growable b1 -> dyn b1 ((pre ++ chunk) ++ v) -> scratch_ok sc -> cstr chunk -> cstr v ->
  dyn_eval E c headp r w2 = Ret (rt, w') ->
  exists buf', subst_loop fuel E w2 b1 0 c headp sc (print r) = Ret (buf', w') /\ growable buf' /\
    dyn buf' (pre ++ chunk ++ v ++ rt) /\ step_ok w w' /\ cstr (chunk ++ v ++ rt).
Proof.
  intros IH Hf Hwf Hs Hc Hg Hd Hsc Hchunk Hv Hev.
  destruct (IH r w2 b1 sc ((pre ++ chunk) ++ v) rt w') as (b' & -> & Hg' & Hd' & Hs' & Hrt); try done; [apply Hs|by apply (chan_ok_step w)|].
  rewrite <- !app_assoc in Hd'. pose proof (step_ok_trans _ _ _ Hs Hs') as Hs2.
  exists b'. split; [done|]. split; [done|]. split; [done|]. split; [done|].
  apply cstr_app. split; [done|]. apply cstr_app. by split.
Qed.

(** The loop of [ast_str_substitute_variables_full] on a printed template. *)
Lemma subst_loop_ok fuel : loop_correct fuel.
Proof.
  induction fuel as [|fuel IH]; intros t w buf sc pre text w' Hf Hwf Hw Hc Hg Hd Hsc Hev; [lia|].
  destruct (decide (print t = [])) as [Hnil|Hne].
  { assert (t = Done) as -> by (destruct t; cbn in Hnil; congruence). injection Hev as <- <-. exists buf. rewrite app_nil_r.
    split_and!; try done. constructor. }
  destruct (next_thing_template t Hwf Hne) as (pos & next & chunk & t1 & Hnext & -> & -> & Hkind).
  cbn [subst_loop]. destruct (print (lits chunk t1)) as [|x s] eqn:Es; [done|]. cbn match. rewrite <- Es in *. clear x s Es.
  destruct (reset_ready (substr3 sc) (sc3 _ Hsc)) as (s3 & -> & Hg3 & Hd3 & Hr3). cbn [obind].
  rewrite Hnext. pose proof (wf_cstr _ Hwf) as Hcs. rewrite print_lits in *.
  destruct (copy_chunk buf pre chunk (print t1) Hg Hd Hcs) as (b1 & -> & Hg1 & Hd1). cbn [obind].
  rewrite drop_app_length. apply wf_lits in Hwf as [Hchunk Hwf1]. apply cstr_app in Hcs as [_ Hcs].
  unfold dyn_eval in Hev. rewrite eval_lits in Hev. fold (dyn_eval E c headp) in Hev.
  apply obind_ret in Hev as ([rt wr] & Hev & [= <- ->]).
  assert (Hsc1 : scratch_ok (mk_scratch (substr1 sc) (substr2 sc) s3)) by (split; [apply Hsc..|done]).
  rewrite length_app in Hf.
  destruct next; [destruct Hkind as (b & r & ->)..|].
  - cbn [print wf] in *. zb. apply eval_var_ret in Hev as (nm & w1 & v & w2 & rt' & Hb & _ & Hv & Hr & ->).
    cbn [drop length] in *. rewrite !drop_0. rewrite length_app in Hf. cbn [length] in Hf.
    destruct (scan_var_body (print b) (print r) 1 0) as (k & -> & Hk & Hk0); [by apply balanced_depth|].
    assert (Hcs' : cstr (print b ++ c_rbrace :: print r)) by (by do 2 apply Forall_inv_tail in Hcs).
    destruct (inner_ok fuel b w (mk_scratch (substr1 sc) (substr2 sc) s3) k (print b ++ c_rbrace :: print r)
      (Z.of_nat (S (length (print b))) - 1) nm w1 IH ltac:(lia) ltac:(done) Hw Hc Hsc1 Hb ltac:(lia) (eq_sym (ref_body _ _ _)) Hcs' Hk0)
      as (sc' & -> & Hsc' & H3 & Hs1 & Hnm). cbn [obind substr3] in *. rewrite H3, ref_rest.
    pose proof (chan_ok_step _ _ _ Hs1 Hc) as Hc1.
    destruct (reference_value_ok w1 s3 nm v w2 (proj1 Hs1) Hc1 Hg3 Hd3 Hv) as (ov & s3' & -> & Hr3' & Hs2 & Hvs & Hov). cbn [obind].
    assert (Happ : exists b2, (match ov with
        | Some s3 => let* text := ast_str_buffer s3 in let* (_, buf) := ast_str_append (al E) b1 0 text in Ret buf
        | None => Ret b1 end) = Ret b2 /\ growable b2 /\ dyn b2 ((pre ++ chunk) ++ v)).
    { destruct ov as [sv|]; [by apply append_value|]. subst v. exists b1. by rewrite app_nil_r. }
    destruct Happ as (b2 & -> & Hg2 & Hd2). cbn [obind].
    apply (loop_continue fuel r w w2 w' b2 _ pre v rt' chunk); try done; [lia|by apply (step_ok_trans w w1)|].
    split; [apply Hsc'..|done].
  - cbn [print wf] in *. zb. apply eval_exp_ret in Hev as (nm & w1 & v & w2 & rt' & Hb & _ & Hv & Hr & ->).
    cbn [drop length] in *. rewrite !drop_0. rewrite length_app in Hf. cbn [length] in Hf.
    destruct (scan_exp_body (print b) (print r) 1 0) as (k & -> & Hk & Hk0); [by apply balanced_depth|].
    assert (Hcs' : cstr (print b ++ c_rbracket :: print r)) by (by do 2 apply Forall_inv_tail in Hcs).
    destruct (inner_ok fuel b w (mk_scratch (substr1 sc) (substr2 sc) s3) k (print b ++ c_rbracket :: print r)
      (Z.of_nat (S (length (print b))) - 1) nm w1 IH ltac:(lia) ltac:(done) Hw Hc Hsc1 Hb ltac:(lia) (eq_sym (ref_body _ _ _)) Hcs' Hk0)
      as (sc' & -> & Hsc' & H3 & Hs1 & Hnm). cbn [obind substr3] in *. rewrite H3, ref_rest.
    destruct (str_expr_ok w1 s3 nm v w2 (proj1 Hs1) Hg3 Hd3 Hv) as (s3' & -> & Hg3' & Hh3' & Hs2 & Hvs). cbn [obind].
    rewrite (holds_buffer _ _ Hh3'). cbn [obind].
    destruct (ast_str_append_ok (al E) b1 (pre ++ chunk) v Hg1 (env_al _ HE) Hd1 Hvs) as (b2 & -> & Hg2 & Hd2). cbn [obind].
    apply (loop_continue fuel r w w2 w' b2 _ pre v rt' chunk); try done; [lia|by apply (step_ok_trans w w1)|].
    split; [apply Hsc'..|by apply (ready_holds _ v)].
  - assert (Hl : (0 < length chunk)%nat) by (destruct chunk; [done|cbn; lia]).
    destruct (IH t1 w b1 (mk_scratch (substr1 sc) (substr2 sc) s3) (pre ++ chunk) rt w') as (b2 & -> & Hg2 & Hd2 & Hs & Ht);
      try done; [lia|]. rewrite <- app_assoc in Hd2. exists b2. split; [done|]. split; [done|]. split; [done|]. split; [done|].
    apply cstr_app. by split.
Qed.
End dynamic.

(** C11: the substitution into a dynamic string implements the meaning of templates: the
    text of any template, with references and expressions nested to any depth, is replaced
    by its meaning, references from left to right and those inside first; the counter of
    the string and [*used] are the length of the result. *)
Theorem ast_str_substitute_correct E w buf c headp t text w' :
  env_ok E -> pbx_ok w -> chan_ok w c -> from_option vars_ok True headp -> ready buf -> wf t = true ->
  dyn_eval E c headp t w = Ret (text, w') ->
  exists buf', ast_str_substitute_variables_full E w buf 0 c headp (print t) = Ret (buf', zlen text, w') /\
    dyn buf' text /\ ast_str_buffer buf' = Ret text.
Proof.
  intros HE Hw Hc Hh Hb Hwf Hev. unfold ast_str_substitute_variables_full.
  destruct create_ready as (s1 & -> & Hr1 & _). cbn [obind]. destruct (reset_ready buf Hb) as (b1 & -> & Hg1 & Hd1 & _). cbn [obind].
  destruct (subst_loop_ok E c headp HE Hh (S (length (print t))) t w b1 (mk_scratch s1 None s1) [] text w')
    as (b2 & -> & Hg2 & Hd2 & _); try done; [lia|]. cbn [obind app] in *.
  exists b2. unfold ast_str_strlen. rewrite (dyn_used _ _ Hd2). split_and!; try done. apply holds_buffer, Hd2.
Qed.

(** ** Substitution into a buffer is correct *)

Section static.
Context (E : pbx_env) (c : option nat) (headp : option (list ast_var_t)).
Context (HE : env_ok E) (Hh : from_option vars_ok True headp).

Lemma copied_whole n s : zlen s < n -> copied n s = s.
Proof. intros H. unfold copied. apply take_ge. lia. Qed.

Lemma func_read_ok w c1 function res text w' : pbx_ok w -> call_function E w c1 function = (res, text, w') ->
  exists text', ast_func_read E w c1 function [] VAR_BUF_SIZE = Ret (res, text', w') /\
    (zlen text < VAR_BUF_SIZE -> text' = text) /\ step_ok w w' /\ cstr text.
Proof.
  intros Hw. unfold call_function, ast_func_read. destruct (func_args function) as [copy args].
  assert (Hnone : exists text' : str, Ret (-1, [], w) = Ret (-1, text', w) /\ (zlen (@nil Z) < VAR_BUF_SIZE -> text' = []) /\ step_ok w w /\ cstr []).
  { exists []. split_and!; try done. constructor. }
  destruct (ast_custom_function_find (acf_root E) copy) as [acf|] eqn:Ef; [|by intros [= <- <- <-]].
  pose proof (find_function_ok E copy acf HE Ef) as Hacf.
  destruct (acf_read acf) as [read|] eqn:E1.
  { destruct (read w c1 copy args VAR_BUF_SIZE) as [[res1 text1] w1] eqn:Er. intros [= <- <- <-].
    assert (Hlen : 0 < VAR_BUF_SIZE) by done. destruct (fun_read _ Hacf _ _ _ _ _ _ _ _ _ E1 Hw Hlen Er) as (Ht & Hlt & Hs).
    rewrite (proj2 (Z.ltb_lt _ _)) by done. eexists. by split_and!; try apply Hs. }
  destruct (acf_read2 acf) as [read2|] eqn:E2; [|by intros [= <- <- <-]].
  destruct (read2 w c1 copy args) as [[res1 text1] w1] eqn:Er. intros [= <- <- <-].
  destruct (fun_read2 _ Hacf _ _ _ _ _ _ _ _ E2 Hw Er) as [Ht Hs].
  destruct create_ready as (b & -> & [Hg Hp] & _). cbn [obind].
  destruct (ast_str_set_ok (al E) b text1 Hg (env_al _ HE) Hp Ht) as (b2 & -> & Hg2 & Hd2). cbn [obind].
  rewrite (holds_buffer _ _ (dyn_holds _ _ Hd2)). cbn [obind]. eexists. split; [done|]. split; [|done].
  intros Hlt. apply copied_whole. pose proof (holds_len _ _ (dyn_holds _ _ Hd2)). unfold ast_str_size. case_if; lia.
Qed.

(** Both routines take the same part of a text that fits. *)
Lemma substring_part text o l t : zlen text < VAR_BUF_SIZE -> - 2 ^ 31 + VAR_BUF_SIZE <= l -> part text o l = Ret t ->
  Extension.substring text o l (Z.to_nat VAR_BUF_SIZE) = Some t.
Proof.
  intros Ht Hl. unfold part, VAR_BUF_SIZE in *.
  rewrite Extension.ast_str_substring_slice, Extension.substring_slice, take_ge by lia. by intros [= ->].
Qed.

Lemma part_nil o l : part [] o l = Ret [].
Proof.
  unfold part, Extension.ast_str_substring. cbn [length Z.of_nat].
  set (off := if o <? 0 then _ else o). assert (0 <= off) by (unfold off; repeat case_if; lia).
  case_if; [done|]. rewrite Z.geb_leb, (proj2 (Z.leb_le _ _)) by done. done.
Qed.

Lemma helper_reference_value_ok w name t w' : pbx_ok w -> chan_ok w c -> static_value E c headp name w = Ret (t, w') ->
  exists v, helper_reference_value E w c headp name = Ret (v, w') /\ default [] v = t /\ step_ok w w' /\ cstr t.
Proof.
  intros Hw Hc. unfold static_value, helper_reference_value. set (vn := parse_variable_name name).
  destruct (negb (vn_isfunc vn =? 0)).
  - destruct (on_channel E w c headp (fun w c => Ret (call_function E w c (vn_name vn)))) as [[[res text] w1]| | |] eqn:Ec; cbn [obind]; try done.
    destruct (on_channel_sim (fun a b => a = (if fst b =? 0 then a else None) /\ (fst b = 0 -> zlen (snd b) < VAR_BUF_SIZE -> a = Some (snd b)) /\ cstr (snd b)) E w c headp
      (fun w c => let* (res, workspace, w) := ast_func_read E w c (vn_name vn) [] VAR_BUF_SIZE in Ret (if res =? 0 then Some workspace else None, w))
      (fun w c => Ret (call_function E w c (vn_name vn))) (res, text) w1 HE Hw Hc Hh) with (2 := Ec) as (cp4 & -> & (Hn & Hv & Ht) & Hs).
    { intros w1' c1 [res1 text1] w1'' Hw1 Hc1 [= H1].
      destruct (func_read_ok w1' c1 (vn_name vn) res1 text1 w1'' Hw1 H1) as (text' & -> & Heq & Hs & Ht). cbn [obind].
      eexists. split; [done|]. split; [|done]. cbn. split; [by destruct (res1 =? 0)|]. split; [|done]. intros -> Hlt. cbn. f_equal. auto. }
    cbn in Hn, Hv, Ht. cbn [obind]. destruct (Z.eqb_spec res 0) as [->|Hr]; unfold oassert.
    + destruct (_ && _) eqn:Eg; [|done]. zb. intros (t1 & Hp & [= <- <-])%obind_ret.
      rewrite (Hv eq_refl) by done. rewrite (substring_part text _ _ t1) by done. cbn. eexists. split; [done|]. split_and!; try done; [apply Hs..|].
      by apply (cstr_part _ _ _ _ Ht Hp).
    + intros [= <- <-]. rewrite Hn. eexists. split; [done|]. split_and!; try done; [apply Hs..|constructor].
  - unfold pbx_retrieve_variable. destruct create_ready as (b & -> & [Hg _] & Hd). cbn [obind].
    destruct (retrieve_value E w b c headp (vn_name vn) HE Hw Hc Hh Hg Hd (vn_name_no_range name)) as (v & b' & -> & -> & Hg' & Hd' & Hv).
    cbn [obind]. rewrite (holds_buffer _ _ (dyn_holds _ _ Hd')). cbn [obind]. unfold oassert.
    destruct (_ && _) eqn:Eg; [|done]. zb. intros (t1 & Hp & [= <- <-])%obind_ret. rewrite copied_whole by done.
    destruct v as [v|]; cbn [is_Some default from_option] in *.
    + rewrite bool_decide_true by done. rewrite (substring_part v _ _ t1) by done. cbn. eexists. split; [done|].
      split_and!; try done. by apply (cstr_part _ _ _ _ Hv Hp).
    + rewrite bool_decide_false by (by intros []). rewrite part_nil in Hp. injection Hp as <-.
      eexists. split; [done|]. split_and!; try done. constructor.
Qed.

Lemma cells_text_cstr s : cstr s -> cells_text s = Ret s.
Proof. intros Hs. unfold cells_text. by apply cstring_app. Qed.

Lemma ast_expr_ok w out len expr t w' : pbx_ok w -> expr_text E c expr w = Ret (t, w') -> zlen t < len ->
  ast_expr E w out len c expr = Ret (out ++ t, zlen t, w') /\ step_ok w w' /\ cstr t.
Proof.
  intros Hw. unfold expr_text, ast_expr. destruct (expr_of E w c expr) as [v w1] eqn:Ev. intros [= <- <-] Hl.
  destruct (env_expr _ HE _ _ _ _ _ Hw Ev) as [Hv Hs]. split; [|split; [done|]].
  - destruct v as [|text|[text|]]; cbn [length] in *.
    + by rewrite Z.gtb_ltb, (proj2 (Z.ltb_lt _ _)) by lia.
    + by rewrite (proj2 (Z.leb_gt _ _)), (proj2 (Z.ltb_lt _ _)) by lia.
    + rewrite (proj2 (Z.eqb_neq _ _)) by lia. by rewrite take_ge by lia.
    + by rewrite app_nil_r.
  - destruct v as [|text|[text|]]; cbn in Hv; try done; repeat constructor; done.
Qed.

(** What the loop does on a printed template that fits. *)
Definition helper_correct (fuel : nat) : Prop := forall t w out count text w',
  (length (print t) < fuel)%nat -> wf t = true -> pbx_ok w -> chan_ok w c ->
  static_eval E c headp t w = Ret (text, w') -> zlen text < count ->
  helper_subst fuel E w c headp out count (print t) = Ret (out ++ text, w') /\ step_ok w w' /\ cstr text.

Lemma helper_inner_ok fuel (b : template) w k close (rest : str) nm w1 :
  helper_correct fuel -> (length (print b) < fuel)%nat -> wf b = true -> pbx_ok w -> chan_ok w c ->
  static_eval E c headp b w = Ret (nm, w1) -> (k = 0 -> no_reference (print b)) ->
  zlen (print b) < VAR_BUF_SIZE -> zlen nm < VAR_BUF_SIZE - 1 ->
  helper_inner_text (fun w templ => helper_subst fuel E w c headp [] (VAR_BUF_SIZE - 1) templ) w
    (print b ++ close :: rest) (Z.of_nat (S (length (print b))) - 1) k = Ret (nm, w1) /\ step_ok w w1 /\ cstr nm.
Proof.
  intros IH Hf Hwf Hw Hc Hev Hk Hb Hnm. unfold helper_inner_text, copy_name.
  rewrite !(proj2 (Z.leb_le _ _)) by lia. cbn [andb obind]. rewrite ref_body.
  destruct (Z.eqb_spec k 0) as [Hk0|Hk0]; cbn [negb].
  - unfold static_eval in Hev. rewrite eval_plain in Hev by auto. injection Hev as <- <-.
    split; [done|]. split; [by apply step_ok_refl|by apply wf_cstr].
  - destruct (IH b w [] (VAR_BUF_SIZE - 1) nm w1) as (-> & Hs & Hc'); try done. cbn [obind app].
    rewrite cells_text_cstr by done. done.
Qed.

(** The rest of the template behind a value. *)
Lemma helper_continue fuel r w w2 w' out count chunk v rt : helper_correct fuel -> (length (print r) < fuel)%nat -> wf r = true ->
  step_ok w w2 -> chan_ok w c -> cstr chunk -> cstr v -> static_eval E c headp r w2 = Ret (rt, w') ->
  zlen chunk + zlen (v ++ rt) < count ->
  helper_subst fuel E w2 c headp ((out ++ chunk) ++ v) (count - zlen chunk - zlen v) (print r) = Ret (out ++ chunk ++ v ++ rt, w') /\
    step_ok w w' /\ cstr (chunk ++ v ++ rt).
Proof.
  intros IH Hf Hwf Hs Hc Hchunk Hv Hev Hl. rewrite length_app in Hl.
  destruct (IH r w2 ((out ++ chunk) ++ v) (count - zlen chunk - zlen v) rt w') as (-> & Hs' & Hrt); try done; [apply Hs|by apply (chan_ok_step w)|lia|].
  rewrite <- !app_assoc. pose proof (step_ok_trans _ _ _ Hs Hs') as Hs2.
  split; [done|]. split; [done|]. apply cstr_app. split; [done|]. apply cstr_app. by split.
Qed.

Lemma helper_subst_ok fuel : helper_correct fuel.
Proof.
  induction fuel as [|fuel IH]; intros t w out count text w' Hf Hwf Hw Hc Hev Hcount; [lia|].
  destruct (decide (print t = [])) as [Hnil|Hne].
  { assert (t = Done) as -> by (destruct t; cbn in Hnil; congruence). injection Hev as <- <-. rewrite app_nil_r.
    split; [done|]. split; [by apply step_ok_refl|constructor]. }
  destruct (next_thing_template t Hwf Hne) as (pos & next & chunk & t1 & Hnext & -> & -> & Hkind).
  cbn [helper_subst]. destruct (print (lits chunk t1)) as [|x s] eqn:Es; [done|]. cbn match. rewrite <- Es in *. clear x s Es.
  rewrite (proj2 (Z.eqb_neq count 0)) by lia. rewrite Hnext.
  rewrite print_lits in *. apply wf_lits in Hwf as [Hchunk Hwf1].
  unfold static_eval in Hev. rewrite eval_lits in Hev. fold (static_eval E c headp) in Hev.
  apply obind_ret in Hev as ([rt wr] & Hev & [= <- ->]). rewrite length_app in Hf, Hcount.
  rewrite Z.gtb_ltb, (proj2 (Z.ltb_ge _ _)) by lia.
  rewrite take_app_length, drop_app_length.
  replace (drop (length chunk + 2) (chunk ++ print t1)) with (drop 2 (print t1)) by (by rewrite <- drop_drop, drop_app_length).
  destruct next; [destruct Hkind as (b & r & ->)..|].
  - cbn [print wf] in *. zb. apply eval_var_ret in Hev as (nm & w1 & v & w2 & rt' & Hb & Hfit & Hv & Hr & ->). zb.
    cbn [drop length] in *. rewrite !drop_0. rewrite length_app in *. cbn [length] in Hf.
    destruct (scan_var_body (print b) (print r) 1 0) as (k & -> & Hk & Hk0); [by apply balanced_depth|].
    destruct (helper_inner_ok fuel b w k c_rbrace (print r) nm w1 IH ltac:(lia) ltac:(done) Hw Hc Hb Hk0) as (-> & Hs1 & Hnm); [done..|].
    cbn [obind]. rewrite ref_rest. pose proof (chan_ok_step _ _ _ Hs1 Hc) as Hc1.
    destruct (helper_reference_value_ok w1 nm v w2 (proj1 Hs1) Hc1 Hv) as (ov & -> & Hov & Hs2 & Hvs). cbn [obind].
    pose proof (helper_continue fuel r w w2 w' out count chunk v rt' IH ltac:(lia) ltac:(done) (step_ok_trans _ _ _ Hs1 Hs2) Hc
      Hchunk Hvs Hr ltac:(rewrite length_app; lia)) as Hrest.
    destruct ov as [ov|]; cbn in Hov; subst v.
    + rewrite Z.gtb_ltb, (proj2 (Z.ltb_ge _ _)) by lia. by rewrite Nat2Z.id, take_ge by lia.
    + cbn [length Z.of_nat] in Hrest. by rewrite Z.sub_0_r, app_nil_r in Hrest.
  - cbn [print wf] in *. zb. apply eval_exp_ret in Hev as (nm & w1 & v & w2 & rt' & Hb & Hfit & Hv & Hr & ->). zb.
    cbn [drop length] in *. rewrite !drop_0. rewrite length_app in *. cbn [length] in Hf.
    destruct (scan_exp_body (print b) (print r) 1 0) as (k & -> & Hk & Hk0); [by apply balanced_depth|].
    destruct (helper_inner_ok fuel b w k c_rbracket (print r) nm w1 IH ltac:(lia) ltac:(done) Hw Hc Hb Hk0) as (-> & Hs1 & Hnm); [done..|].
    cbn [obind]. rewrite ref_rest.
    destruct (ast_expr_ok w1 (out ++ chunk) (count - zlen chunk) nm v w2 (proj1 Hs1) Hv ltac:(lia)) as (-> & Hs2 & Hvs). cbn [obind].
    apply (helper_continue fuel r w w2 w' out count chunk v rt' IH ltac:(lia) ltac:(done) (step_ok_trans _ _ _ Hs1 Hs2) Hc
      Hchunk Hvs Hr ltac:(rewrite length_app; lia)).
  - assert (Hl : (0 < length chunk)%nat) by (destruct chunk; [done|cbn; lia]).
    destruct (IH t1 w (out ++ chunk) (count - zlen chunk) rt w') as (-> & Hs & Ht); try done; [lia|lia|].
    rewrite <- app_assoc. split; [done|]. split; [done|]. apply cstr_app. by split.
Qed.
End static.

(** A printed template whose pieces fit into their buffers is replaced by what it means. *)
Theorem helper_substitute_correct E w c headp t count text w' :
  env_ok E -> pbx_ok w -> chan_ok w c -> from_option vars_ok True headp -> wf t = true ->
  static_eval E c headp t w = Ret (text, w') -> zlen text < count ->
  pbx_substitute_variables_helper_full E w c headp (print t) count = Ret (text, zlen text, w').
Proof.
  intros HE Hw Hc Hh Hwf Hev Hcount. unfold pbx_substitute_variables_helper_full.
  destruct (helper_subst_ok E c headp HE Hh (S (length (print t))) t w [] count text w') as (-> & _ & Ht); try done; [lia|].
  cbn [obind app]. by rewrite cells_text_cstr.
Qed.

(** ** The two ways agree *)

(** Functions that know the length of what they return. *)
Definition new_functions (E : pbx_env) : Prop := Forall (fun f => acf_read f = None) (acf_root E).

Lemma call_functions_agree E w c function : new_functions E ->
  call_function2 E w c function = (let '(res, text, w) := call_function E w c function in (res, text, true, w)).
Proof.
  intros Hnew. unfold call_function, call_function2. destruct (func_args function) as [copy args].
  destruct (ast_custom_function_find (acf_root E) copy) as [acf|] eqn:Ef; [|done].
  apply find_some in Ef as [Hin _]. pose proof (proj1 (List.Forall_forall _ _) Hnew _ Hin) as Hr. cbn in Hr. rewrite Hr.
  destruct (acf_read2 acf) as [read2|]; [|done]. by destruct (read2 w c copy args) as [[]].
Qed.

(** Functions are called with a channel, or there is no list they could look at. *)
Definition own_channel (c : option nat) (headp : option (list ast_var_t)) : Prop := is_Some c \/ headp = None.

Lemma on_own_channel {A} E w c headp (call : pbx -> option nat -> outcome (A * pbx)) : own_channel c headp ->
  on_channel E w c headp call = call w c.
Proof. unfold on_channel. intros [[n ->]| ->]; [done|by destruct c]. Qed.

Lemma values_agree E c headp name w t w' : env_ok E -> new_functions E -> own_channel c headp -> pbx_ok w -> chan_ok w c -> from_option vars_ok True headp ->
  static_value E c headp name w = Ret (t, w') -> dyn_value E c headp name w = Ret (t, w') /\ step_ok w w'.
Proof.
  intros HE Hnew Hown Hw Hc Hh Hv. destruct (helper_reference_value_ok E c headp HE Hh w name t w' Hw Hc Hv) as (_ & _ & _ & Hs & _).
  split; [|done]. revert Hv. unfold static_value, dyn_value. set (vn := parse_variable_name name).
  destruct (negb (vn_isfunc vn =? 0)).
  - rewrite (on_own_channel _ _ _ _ _ Hown), call_functions_agree by done.
    destruct (call_function E w c (vn_name vn)) as [[res text] w1]. cbn [obind].
    destruct (res =? 0); [|done]. unfold oassert. by destruct (_ && _).
  - destruct (variable_value E w c headp (vn_name vn)) as [v| | |]; cbn [obind]; try done. unfold oassert. by destruct (_ && _).
Qed.

Lemma static_dyn E c headp t : env_ok E -> new_functions E -> own_channel c headp -> from_option vars_ok True headp -> forall w text w',
  pbx_ok w -> chan_ok w c -> static_eval E c headp t w = Ret (text, w') ->
  dyn_eval E c headp t w = Ret (text, w') /\ step_ok w w'.
Proof.
  intros HE Hnew Hown Hh. induction t as [|x t IH|b IHb r IHr|b IHb r IHr]; intros w text w' Hw Hc Hev.
  - injection Hev as <- <-. split; [done|by apply step_ok_refl].
  - apply obind_ret in Hev as ([rt w1] & Hev & [= <- ->]). destruct (IH w rt w' Hw Hc Hev) as [Hd Hs].
    split; [|done]. unfold dyn_eval in *. cbn. by rewrite Hd.
  - apply eval_var_ret in Hev as (nm & w1 & v & w2 & rt & Hb & _ & Hv & Hr & ->).
    destruct (IHb w nm w1 Hw Hc Hb) as [Hb' Hs1]. pose proof (chan_ok_step _ _ _ Hs1 Hc) as Hc1.
    destruct (values_agree E c headp nm w1 v w2 HE Hnew Hown (proj1 Hs1) Hc1 Hh Hv) as [Hv' Hs2].
    pose proof (step_ok_trans _ _ _ Hs1 Hs2) as Hs12. destruct (IHr w2 rt w' (proj1 Hs12) (chan_ok_step _ _ _ Hs12 Hc) Hr) as [Hr' Hs3].
    split; [|by apply (step_ok_trans w w2)]. apply eval_var_ret. by exists nm, w1, v, w2, rt.
  - apply eval_exp_ret in Hev as (nm & w1 & v & w2 & rt & Hb & _ & Hv & Hr & ->).
    destruct (IHb w nm w1 Hw Hc Hb) as [Hb' Hs1]. pose proof (chan_ok_step _ _ _ Hs1 Hc) as Hc1.
    assert (Hs2 : step_ok w1 w2).
    { unfold expr_text in Hv. destruct (expr_of E w1 c nm) as [ev w3] eqn:Ee. injection Hv as _ <-.
      by apply (env_expr _ HE _ _ _ _ _ (proj1 Hs1) Ee). }
    pose proof (step_ok_trans _ _ _ Hs1 Hs2) as Hs12. destruct (IHr w2 rt w' (proj1 Hs12) (chan_ok_step _ _ _ Hs12 Hc) Hr) as [Hr' Hs3].
    split; [|by apply (step_ok_trans w w2)]. apply eval_exp_ret. by exists nm, w1, v, w2, rt.
Qed.

(** C3: the two implementations of substitution give the same text and the same exchange, the
    meaning of the template, when the pieces fit into the buffers, functions are of the
    new kind, and a list of variables is not given in place of a channel. *)
Theorem substitutions_agree E w c headp t count buf text w' :
  env_ok E -> new_functions E -> own_channel c headp ->
  pbx_ok w -> chan_ok w c -> from_option vars_ok True headp -> ready buf -> wf t = true ->
  static_eval E c headp t w = Ret (text, w') -> zlen text < count ->
  pbx_substitute_variables_helper_full E w c headp (print t) count = Ret (text, zlen text, w') /\
  exists buf', ast_str_substitute_variables_full E w buf 0 c headp (print t) = Ret (buf', zlen text, w') /\
    ast_str_buffer buf' = Ret text.
Proof.
  intros HE Hnew Hown Hw Hc Hh Hb Hwf Hev Hcount. split; [by apply helper_substitute_correct|].
  destruct (static_dyn E c headp t HE Hnew Hown Hh w text w' Hw Hc Hev) as [Hd _].
  destruct (ast_str_substitute_correct E w buf c headp t text w' HE Hw Hc Hh Hb Hwf Hd) as (b' & ? & _ & ?). eauto.
Qed.

(** They do not agree on a range of what a function of the old kind returns: the dynamic
    string then has its counter at 0, so that the range gives nothing. *)
Theorem old_function_range_lost E w c n f read s3 name text part_text :
  env_ok E -> pbx_ok w -> chan_ok w (Some c) -> growable s3 -> dyn s3 [] ->
  let vn := parse_variable_name name in
  vn_isfunc vn <> 0 -> ast_custom_function_find (acf_root E) (fst (func_args (vn_name vn))) = Some f ->
  acf_read f = Some read -> acf_read2 f = None -> acf_read_max f = 0 ->
  read w (Some c) (fst (func_args (vn_name vn))) (snd (func_args (vn_name vn))) VAR_BUF_SIZE = (0, text, w) ->
  part text (vn_offset vn) (vn_length vn) = Ret part_text -> - 2 ^ 31 + VAR_BUF_SIZE <= vn_length vn ->
  vn_offset vn <> 0 \/ vn_length vn < 0 ->
  helper_reference_value E w (Some c) n name = Ret (Some part_text, w) /\
  exists b s3', reference_value E w (Some c) n s3 name = Ret (Some b, s3', w) /\ ast_str_buffer b = Ret [].
Proof.
  intros HE Hw Hc Hg Hd vn Hfun Hfind Hread Hread2 Hmax Hcall Hpart Hlen Hrange.
  pose proof (find_function_ok E _ f HE Hfind) as Hacf.
  assert (Hbuf : 0 < VAR_BUF_SIZE) by done.
  destruct (fun_read _ Hacf _ _ _ _ _ _ _ _ _ Hread Hw Hbuf Hcall) as (Ht & Hlt & Hs).
  assert (Hcall2 : call_function2 E w (Some c) (vn_name vn) = (0, text, false, w)).
  { unfold call_function2. destruct (func_args (vn_name vn)) as [copy args]. cbn in *. rewrite Hfind, Hread, Hread2, Hmax. cbn [negb Z.eqb]. by rewrite Hcall. }
  split.
  - unfold helper_reference_value. fold vn. rewrite (proj2 (Z.eqb_neq _ _) Hfun). cbn [negb on_channel]. unfold ast_func_read.
    destruct (func_args (vn_name vn)) as [copy args]. cbn in Hfind, Hcall. rewrite Hfind, Hread, Hcall, (proj2 (Z.ltb_lt _ _)) by done.
    cbn [obind Z.eqb]. by rewrite (substring_part text _ _ part_text).
  - unfold reference_value. fold vn. rewrite (proj2 (Z.eqb_neq _ _) Hfun). cbn [negb on_channel].
    destruct (func_read2_ok E w (Some c) (vn_name vn) s3 0 text false w HE Hw Hg Hd Hcall2) as (b & -> & (_ & Hg' & Hh' & _ & Hu) & _).
    cbn [obind Z.eqb]. destruct (ds_substring_uncounted b text (vn_offset vn) (vn_length vn) Hg' Hh' Hu) as (b' & -> & Hg2 & Hh2).
    cbn [obind]. exists b', b'. split; [done|].
    assert (E0 : (vn_offset vn =? 0) && (vn_length vn >=? 0) = false).
    { rewrite Z.geb_leb. destruct (Z.eqb_spec (vn_offset vn) 0), (Z.leb_spec 0 (vn_length vn)); cbn; try done. lia. }
    rewrite E0 in Hh2. by apply holds_buffer.
Qed.

(** ** Texts that are not templates *)

(** The text of a reference without brackets or dollar signs. *)
Definition plain_char (c : Z) : Prop := c <> 0 /\ c <> c_dollar /\ c <> c_lbrace /\ c <> c_rbrace.

Lemma scan_var_plain s d k : Forall plain_char s -> d <> 0 -> scan_var s d k = (length s, d, k).
Proof.
  intros Hs Hd. induction Hs as [|c s (H0 & H1 & H2 & H3) _ IH]; [done|]. cbn [scan_var].
  rewrite (proj2 (Z.eqb_neq d 0) Hd), (proj2 (Z.eqb_neq c _) H1), (proj2 (Z.eqb_neq c _) H2), (proj2 (Z.eqb_neq c _) H3). cbn [andb].
  by rewrite IH.
Qed.

Lemma scan_var_closed s rest k : Forall plain_char s -> scan_var (s ++ c_rbrace :: rest) 1 k = (S (length s), 0, k).
Proof.
  intros Hs. induction Hs as [|c s (H0 & H1 & H2 & H3) _ IH]; [by destruct rest|]. cbn [app scan_var Z.eqb].
  rewrite (proj2 (Z.eqb_neq c _) H1), (proj2 (Z.eqb_neq c _) H2), (proj2 (Z.eqb_neq c _) H3). cbn [andb]. by rewrite IH.
Qed.

(** A round of the loop that starts with a reference. *)
Lemma helper_subst_ref fuel E w c headp out count vars : 0 < count ->
  helper_subst (S fuel) E w c headp out count (c_dollar :: c_lbrace :: vars) =
    let '(vare, _, needsub) := scan_var vars 1 0 in
    let* (nm, w) := helper_inner_text (fun w templ => helper_subst fuel E w c headp [] (VAR_BUF_SIZE - 1) templ) w vars
                      (Z.of_nat vare - 1) needsub in
    let* (cp4, w) := helper_reference_value E w c headp nm in
    let v := default [] cp4 in
    let length_ := if zlen v >? count then count else zlen v in
    helper_subst fuel E w c headp (out ++ take (Z.to_nat length_) v) (count - length_)
      (drop (Z.to_nat (Z.of_nat vare - 1 + 3)) (c_dollar :: c_lbrace :: vars)).
Proof.
  intros Hcount. cbn [helper_subst]. rewrite (proj2 (Z.eqb_neq count 0)) by lia.
  unfold next_thing. cbn [cut_first Z.eqb Pos.eqb deref length Nat.add drop take].
  rewrite Z.gtb_ltb, (proj2 (Z.ltb_ge count (Z.of_nat 0))) by lia. cbn [take drop]. rewrite !drop_0, app_nil_r. rewrite Z.sub_0_r.
  destruct (scan_var vars 1 0) as [[vare brackets] needsub].
  destruct (helper_inner_text _ w vars (Z.of_nat vare - 1) needsub) as [[nm w1]| | |]; cbn [obind]; try done.
  destruct (helper_reference_value E w1 c headp nm) as [[cp4 w2]| | |]; cbn [obind]; try done.
  destruct cp4 as [v|]; cbn [default from_option]; [done|]. cbn [length Z.of_nat].
  change (Z.of_nat 0) with 0. rewrite Z.gtb_ltb, (proj2 (Z.ltb_ge count 0)) by lia. cbn [Z.to_nat take]. by rewrite Z.sub_0_r, app_nil_r.
Qed.

Lemma helper_subst_end fuel E w c headp out count : helper_subst (S fuel) E w c headp out count [] = Ret (out, w).
Proof. done. Qed.

(** Without the closing brace the last character of the name is dropped: the value is
    that of the variable with the shorter name. *)
Theorem missing_brace E w c headp name count : Forall plain_char name -> name <> [] -> 0 < count ->
  zlen name < VAR_BUF_SIZE ->
  pbx_substitute_variables_helper_full E w c headp (c_dollar :: c_lbrace :: name) count =
    let* (v, w) := helper_reference_value E w c headp (removelast name) in
    let v := take (Z.to_nat count) (default [] v) in
    let* text := cells_text v in Ret (text, zlen v, w).
Proof.
  intros Hs Hne Hcount Hl. unfold pbx_substitute_variables_helper_full.
  destruct name as [|x name]; [done|]. set (nm := x :: name) in *.
  rewrite helper_subst_ref, scan_var_plain by done. unfold helper_inner_text, copy_name.
  assert (Hn : 1 <= zlen nm) by (unfold nm; cbn; lia).
  rewrite !(proj2 (Z.leb_le _ _)) by lia. cbn [andb obind negb Z.eqb].
  replace (take (Z.to_nat (zlen nm - 1)) nm) with (removelast nm) by (rewrite removelast_firstn_len; f_equal; lia).
  destruct (helper_reference_value E w c headp (removelast nm)) as [[cp4 w2]| | |]; cbn [obind]; try done.
  rewrite drop_ge by (cbn [length]; lia). cbn [length]. rewrite helper_subst_end. cbn [obind app].
  assert (Ht : take (Z.to_nat (if zlen (default [] cp4) >? count then count else zlen (default [] cp4))) (default [] cp4) =
    take (Z.to_nat count) (default [] cp4)).
  { rewrite Z.gtb_ltb. case_if; [done|]. rewrite !take_ge by lia. done. }
  by rewrite Ht.
Qed.

(** A reference that starts at the very end writes before the buffer of its name; a name as
    long as the buffer writes behind it. *)
Theorem reference_buffer_overrun E w c headp count : 0 < count ->
  pbx_substitute_variables_helper_full E w c headp [c_dollar; c_lbrace] count = BadAccess /\
  forall name rest, Forall plain_char name -> VAR_BUF_SIZE <= zlen name ->
    pbx_substitute_variables_helper_full E w c headp (c_dollar :: c_lbrace :: name ++ c_rbrace :: rest) count = BadAccess.
Proof.
  intros Hcount. unfold pbx_substitute_variables_helper_full. split.
  - by rewrite helper_subst_ref by done.
  - intros name rest Hs Hl. rewrite helper_subst_ref, scan_var_closed by done. unfold helper_inner_text, copy_name.
    rewrite (proj2 (Z.leb_gt (_ + 1) VAR_BUF_SIZE)) by lia. by rewrite andb_false_r.
Qed.

(** ** The data of an application *)

Lemma has_reference_none b s : cut_first c_dollar s = None -> has_reference b s = false.
Proof.
  induction s as [|c s IH]; cbn [cut_first has_reference]; [done|]. destruct (Z.eqb_spec c c_dollar); [done|].
  destruct (cut_first c_dollar s); [done|]. intros _. by rewrite IH.
Qed.

Lemma has_reference_from b s before after : cut_first c_dollar s = Some (before, after) ->
  has_reference b s = has_reference b (c_dollar :: after).
Proof.
  revert before. induction s as [|c s IH]; intros before; cbn [cut_first]; [done|].
  destruct (Z.eqb_spec c c_dollar) as [->|Hc]; [by intros [= <- <-]|].
  destruct (cut_first c_dollar s) as [[b1 a1]|] eqn:Ecut; [|done]. intros [= <- <-]. rewrite <- (IH b1) by done.
  cbn [has_reference]. by rewrite (proj2 (Z.eqb_neq _ _) Hc).
Qed.

(** The application is called with what its data means, also when the scan for a
    reference is all that is done. *)
Theorem pbx_substitute_variables_correct E w c t datalen text w' :
  env_ok E -> pbx_ok w -> chan_ok w (Some c) -> wf t = true ->
  static_eval E (Some c) (Some (vars_at w (Some c))) t w = Ret (text, w') -> zlen text < datalen - 1 ->
  pbx_substitute_variables E w datalen c (Some (print t)) = Ret (text, w').
Proof.
  intros HE Hw Hc Hwf Hev Hlen.
  assert (Hhelper : pbx_substitute_variables_helper E w (Some c) (print t) (datalen - 1) = Ret (text, w')).
  { unfold pbx_substitute_variables_helper. cbn [vars_at] in Hev. unfold channel_at.
    destruct (channel_at_ok w c Hw Hc) as (ch & Hch & Hok). unfold channel_at in Hch.
    destruct (channels w !! c) as [ch'|]; [|done]. injection Hch as ->. cbn [oaccess obind from_option] in *.
    rewrite (helper_substitute_correct E w (Some c) (Some (varshead ch)) t (datalen - 1) text w'); try done. apply Hok. }
  assert (Hplain : no_reference (print t) -> Ret (copied datalen (print t), w) = Ret (text, w')).
  { intros Hn. unfold static_eval in Hev. rewrite eval_plain in Hev by done. injection Hev as <- <-.
    by rewrite copied_whole by lia. }
  unfold pbx_substitute_variables. destruct (cut_first c_dollar (print t)) as [[before after]|] eqn:Ecut.
  - destruct (_ && _) eqn:Er; [|done]. zb. apply Hplain. split; by rewrite (has_reference_from _ _ _ _ Ecut).
  - apply Hplain. split; by apply has_reference_none.
Qed.

(** ** Substitution ends *)

Lemma next_plain_moves s pos : next_thing s = (pos, NextPlain) -> (0 < length s)%nat -> (0 < pos)%nat.
Proof.
  unfold next_thing. intros En Hs. destruct (cut_first c_dollar s) as [[before after]|]; [|by injection En as <-].
  destruct (deref after =? c_lbrace); [done|]. destruct (deref after =? c_lbracket); [done|]. injection En as <-. lia.
Qed.

Lemma scan_var_moves c s brackets needsub vare br ns : scan_var (c :: s) brackets needsub = (vare, br, ns) -> brackets <> 0 ->
  0 <= Z.of_nat vare - 1.
Proof.
  intros H Hb. cbn [scan_var] in H. destruct (Z.eqb_spec brackets 0); [done|]. repeat case_match; simplify_eq; lia.
Qed.

Lemma scan_exp_moves c s brackets needsub vare br ns : scan_exp (c :: s) brackets needsub = (vare, br, ns) -> brackets <> 0 ->
  0 <= Z.of_nat vare - 1.
Proof.
  intros H Hb. cbn [scan_exp] in H. destruct (Z.eqb_spec brackets 0); [done|]. destruct s as [|d s].
  - repeat case_match; simplify_eq; lia.
  - repeat case_match; simplify_eq; lia.
Qed.

(** A call returns something of the kind, or accesses memory it must not; it does not run out
    of fuel.  This is about ending, not about memory. *)
Definition stops {A} (P : A -> Prop) (x : outcome A) : Prop :=
  match x with Ret a => P a | BadAccess => True | _ => False end.

Lemma stops_bind {A B} (P : A -> Prop) (Q : B -> Prop) x k :
  stops P x -> (forall a, P a -> stops Q (k a)) -> stops Q (obind x k).
Proof. destruct x; cbn; auto. Qed.

Lemma stops_access {A} (x : option A) : stops (fun a => x = Some a) (oaccess x).
Proof. by destruct x. Qed.

Lemma cells_text_stops out : stops (fun _ => True) (cells_text out).
Proof.
  unfold cells_text. induction out as [|c out IH]; cbn [app cstring]; [done|]. case_if; [done|].
  by apply stops_bind with (fun _ => True).
Qed.

Section ends.
Context (E : pbx_env) (c : option nat) (headp : option (list ast_var_t)).
Context (HE : env_ok E) (Hh : from_option vars_ok True headp).

Lemma on_channel_pure {A} w (f : pbx -> option nat -> A * pbx) :
  exists a w', on_channel E w c headp (fun w c => Ret (f w c)) = Ret (a, w').
Proof.
  unfold on_channel. destruct c as [n|]; [|destruct headp as [l|]].
  - destruct (f w (Some n)) as [a w']. eauto.
  - destruct (f _ _) as [a w']. cbn. eauto.
  - destruct (f w None) as [a w']. eauto.
Qed.

Lemma helper_value_stops w name : pbx_ok w -> chan_ok w c -> stops (fun r => step_ok w (snd r)) (helper_reference_value E w c headp name).
Proof.
  intros Hw Hc. unfold helper_reference_value. set (vn := parse_variable_name name).
  apply stops_bind with (fun r => step_ok w (snd r)).
  - destruct (negb (vn_isfunc vn =? 0)).
    + destruct (on_channel_pure w (fun w c => call_function E w c (vn_name vn))) as (r & w1 & Ec).
      destruct (on_channel_sim (fun _ _ => True) E w c headp
        (fun w c => let* (res, workspace, w) := ast_func_read E w c (vn_name vn) [] VAR_BUF_SIZE in Ret (if res =? 0 then Some workspace else None, w))
        (fun w c => Ret (call_function E w c (vn_name vn))) r w1 HE Hw Hc Hh) with (2 := Ec) as (a & -> & _ & Hs); [|done].
      intros w1' c1 [res1 text1] w1'' Hw1 Hc1 [= H1].
      destruct (func_read_ok E HE w1' c1 (vn_name vn) res1 text1 w1'' Hw1 H1) as (text' & -> & _ & Hs & _). cbn. eauto.
    + unfold pbx_retrieve_variable. destruct create_ready as (b & -> & [Hg _] & Hd). cbn [obind].
      destruct (retrieve_value E w b c headp (vn_name vn) HE Hw Hc Hh Hg Hd (vn_name_no_range name)) as (v & b' & _ & -> & _ & Hd' & _).
      cbn [obind]. rewrite (holds_buffer _ _ (dyn_holds _ _ Hd')). cbn. by apply step_ok_refl.
  - intros [[v|] w1] Hs; [|done]. eapply stops_bind; [apply stops_access|]. done.
Qed.

Lemma expr_stops w out len expr : pbx_ok w -> 0 <= len ->
  stops (fun r => step_ok w (snd r) /\ 0 <= snd (fst r) <= len) (ast_expr E w out len c expr).
Proof.
  intros Hw Hl. unfold ast_expr. destruct (expr_of E w c expr) as [v w1] eqn:Ev.
  destruct (env_expr _ HE _ _ _ _ _ Hw Ev) as [_ Hs].
  destruct v as [|text|[text|]]; cbn.
  - destruct (Z.gtb_spec len 1); cbn; split; try done; lia.
  - repeat case_if; cbn; split; try done; lia.
  - case_if; [destruct out; cbn; [done|split; [done|lia]]|]. cbn. rewrite length_take. split; [done|lia].
  - split; [done|lia].
Qed.

Lemma helper_subst_stops fuel : forall w out count s, (length s < fuel)%nat -> 0 <= count -> pbx_ok w -> chan_ok w c ->
  stops (fun r => step_ok w (snd r)) (helper_subst fuel E w c headp out count s).
Proof.
  induction fuel as [|fuel IH]; intros w out count s Hf Hcount Hw Hc; [lia|].
  cbn [helper_subst]. destruct s as [|x s]; [by apply step_ok_refl|]. set (ws := x :: s) in *. cbn match.
  destruct (Z.eqb_spec count 0) as [|Hc0]; [by apply step_ok_refl|].
  assert (Hinner : forall vars len k, (length vars < length ws)%nat ->
    stops (fun r => step_ok w (snd r)) (helper_inner_text (fun w templ => helper_subst fuel E w c headp [] (VAR_BUF_SIZE - 1) templ) w vars len k)).
  { intros vars len k Hv. unfold helper_inner_text, copy_name. case_if; cbn; [|done]. case_if; [|by apply step_ok_refl].
    apply stops_bind with (fun r => step_ok w (snd r)).
    - apply IH; [rewrite length_take; lia|done|done|done].
    - intros [o w1] Hs. eapply stops_bind; [apply cells_text_stops|done]. }
  assert (Hgo : forall w2 out count s', step_ok w w2 -> (length s' < length ws)%nat -> 0 <= count ->
    stops (fun r => step_ok w (snd r)) (helper_subst fuel E w2 c headp out count s')).
  { intros w2 o1 c1 s' Hs Hl Hc1. assert (Hset := IH w2 o1 c1 s' ltac:(lia) Hc1 (proj1 Hs) (chan_ok_step _ _ _ Hs Hc)).
    destruct (helper_subst fuel E w2 c headp o1 c1 s') as [[o2 w3]| | |]; cbn in *; try done. by apply (step_ok_trans w w2). }
  destruct (next_thing ws) as [pos next] eqn:En. set (pos' := if Z.of_nat pos >? count then _ else pos).
  assert (Hpos : Z.of_nat pos' <= count) by (unfold pos'; destruct (Z.gtb_spec (Z.of_nat pos) count); lia).
  assert (Hws : (0 < length ws)%nat) by (unfold ws; cbn; lia).
  assert (Hvars : forall n, (length (drop (n + 2) ws) < length ws)%nat) by (intros; rewrite length_drop; lia).
  assert (Hdrop : forall m vare, (length (drop (Z.to_nat (Z.of_nat vare - 1 + 3)) (drop m ws)) < length ws)%nat)
    by (intros; rewrite !length_drop; lia).
  destruct next.
  - destruct (scan_var _ 1 0) as [[vare brackets] needsub].
    eapply stops_bind; [apply Hinner, Hvars|]. intros [nm w1] Hs1. cbn in Hs1.
    eapply stops_bind; [apply helper_value_stops; [apply Hs1|by apply (chan_ok_step w)]|]. intros [[v|] w2] Hs2; cbn in Hs2.
    + apply Hgo; [by apply (step_ok_trans w w1)|apply Hdrop|]. destruct (Z.gtb_spec (zlen v) (count - Z.of_nat pos')); lia.
    + apply Hgo; [by apply (step_ok_trans w w1)|apply Hdrop|lia].
  - destruct (scan_exp _ 1 0) as [[vare brackets] needsub].
    eapply stops_bind; [apply Hinner, Hvars|]. intros [nm w1] Hs1. cbn in Hs1.
    eapply stops_bind; [apply expr_stops; [apply Hs1|]; lia|]. intros [[o l] w2] [Hs2 Hl2]; cbn in Hs2, Hl2.
    apply Hgo; [by apply (step_ok_trans w w1)|apply Hdrop|lia].
  - apply Hgo; [by apply step_ok_refl| |lia]. rewrite length_drop.
    pose proof (next_plain_moves _ _ En Hws). unfold pos'; destruct (Z.gtb_spec (Z.of_nat pos) count); lia.
Qed.

(** The same for dynamic strings, which also stay in order. *)
Definition value_ready (w : pbx) (r : option ast_str * ast_str * pbx) : Prop :=
  let '(v, s3, w') := r in ready s3 /\ step_ok w w' /\ from_option (fun b => exists t, holds b t /\ cstr t) True v.

Lemma range_stops b text (counted : bool) o l : growable b -> holds b text -> cstr text ->
  as_used b = (if counted then zlen text else 0) ->
  stops (fun b' => growable b' /\ exists t, holds b' t /\ cstr t) (ds_substring b o l).
Proof.
  intros Hg Hh0 Ht Hu. destruct counted.
  - destruct (Extension.ast_str_substring text o l) as [t|] eqn:Ep.
    + destruct (ds_substring_ok b text o l t Hg) as (b' & -> & Hg' & Hd'); [by split|done|]. cbn. split; [done|].
      exists t. split; [apply Hd'|]. apply (cstr_part text o l t Ht). unfold part. by rewrite Ep.
    + rewrite (ds_substring_none b text) by (done || by split). done.
  - destruct (ds_substring_uncounted b text o l Hg Hh0 Hu) as (b' & -> & Hg' & Hh'). cbn. split; [done|]. eexists. split; [exact Hh'|]. apply Hh'.
Qed.

Lemma value_stops w s3 name : pbx_ok w -> chan_ok w c -> growable s3 -> dyn s3 [] ->
  stops (value_ready w) (reference_value E w c headp s3 name).
Proof.
  intros Hw Hc Hg Hd. unfold reference_value. set (vn := parse_variable_name name).
  apply stops_bind with (fun r => growable (snd (fst r)) /\ step_ok w (snd r) /\
    exists text (counted : bool), holds (snd (fst r)) text /\ cstr text /\ as_used (snd (fst r)) = if counted then zlen text else 0).
  - destruct (negb (vn_isfunc vn =? 0)).
    + destruct (call_function2 E w c (vn_name vn)) as [[[res text] counted] w1] eqn:Ec.
      destruct (func_read2_ok E w c (vn_name vn) s3 res text counted w1 HE Hw Hg Hd Ec) as (s3' & -> & (_ & Hg' & Hh' & Ht & Hu) & Hs).
      cbn in *. split; [done|]. split; [done|]. by exists text, counted.
    + destruct (retrieve_value E w s3 c headp (vn_name vn) HE Hw Hc Hh Hg Hd (vn_name_no_range name)) as (v & b' & _ & -> & Hg' & Hd' & Hv).
      cbn. split; [done|]. split; [by apply step_ok_refl|]. exists (default [] v), true. split_and!; apply Hd'.
  - intros [[ok b] w1] (Hg' & Hs & text & counted & Hh' & Ht & Hu). cbn in *. destruct ok.
    + eapply stops_bind; [by apply (range_stops b text counted)|]. intros b' (Hg2 & t & Hh2 & Ht2). cbn.
      split; [by apply (ready_holds _ t)|]. split; [done|]. by exists t.
    + cbn. split; [by apply (ready_holds _ text)|]. by split.
Qed.

Lemma set_substr_any b vars len : ready b -> cstr vars -> -1 <= len -> (0 <= len \/ vars = []) ->
  exists b', ast_str_set_substr (al E) b 0 vars len = Ret b' /\ growable b' /\ holds b' (take (Z.to_nat len) vars).
Proof.
  intros [Hg Hp] Hv Hl [Hl0| ->].
  - destruct (ast_str_set_substr_ok (al E) b vars len Hg (env_al _ HE) Hp Hv Hl0) as (b' & ? & ? & ? & _). eauto.
  - rewrite take_nil. destruct (ast_str_set_substr_ok (al E) b [] 0 Hg (env_al _ HE) Hp Hv) as (b' & Hr & ? & ? & _); [done|].
    exists b'. by split_and!.
Qed.

Definition string_ready (w : pbx) (r : ast_str * pbx) : Prop := growable (fst r) /\ step_ok w (snd r) /\ exists t, dyn (fst r) t.

Lemma inner_stops fuel w sc vars len k :
  (forall w b pre sc s, (length s < fuel)%nat -> cstr s -> pbx_ok w -> chan_ok w c -> growable b -> dyn b pre -> scratch_ok sc ->
    stops (string_ready w) (subst_loop fuel E w b 0 c headp sc s)) ->
  (length vars < fuel)%nat -> cstr vars -> -1 <= len -> (0 <= len \/ vars = []) -> pbx_ok w -> chan_ok w c -> scratch_ok sc ->
  stops (fun r => scratch_ok (snd (fst r)) /\ step_ok w (snd r) /\ substr3 (snd (fst r)) = substr3 sc)
    (inner_text E (fun w b templ =>
      let* b := ast_str_reset b in
      let* s1 := oaccess (ast_str_create true 16) in
      let* s3 := oaccess (ast_str_create true 16) in
      subst_loop fuel E w b 0 c headp (mk_scratch s1 None s3) templ) w sc vars len k).
Proof.
  intros IH Hf Hv Hl Hl0 Hw Hc Hsc. unfold inner_text.
  destruct (set_substr_any (substr1 sc) vars len) as (s1 & -> & Hg1 & Hh1); [apply Hsc|done..|]. cbn [obind].
  rewrite (holds_buffer _ _ Hh1). cbn [obind]. pose proof (ready_holds _ _ Hg1 Hh1) as Hr1.
  case_if; [|cbn; split; [split; [done|apply Hsc..]|]; by split; [apply step_ok_refl|]].
  assert (Hs2 : exists s2, oaccess (match substr2 sc with Some s2 => Some s2 | None => ast_str_create true 16 end) = Ret s2 /\ ready s2).
  { pose proof (sc2 _ Hsc) as H2. destruct (substr2 sc) as [s2|]; [by exists s2|]. destruct create_ready as (b & ? & ? & _). eauto. }
  destruct Hs2 as (s2 & -> & Hr2). cbn [obind]. destruct (reset_ready s2 Hr2) as (b1 & -> & Hgb & Hdb & _). cbn [obind].
  destruct create_ready as (s0 & -> & Hr0 & _). cbn [obind].
  eapply stops_bind.
  { apply (IH w b1 [] (mk_scratch s0 None s0)); try done; [rewrite length_take; lia|by apply cstr_take]. }
  intros [b2 w2] (Hg2 & Hs & t & Hd2). cbn in *. rewrite (holds_buffer _ _ (dyn_holds _ _ Hd2)). cbn.
  split; [|by split]. split; [done| |apply Hsc]. by apply (ready_holds _ t), Hd2.
Qed.

Lemma expr_text_ret expr w : exists t w', expr_text E c expr w = Ret (t, w').
Proof. unfold expr_text. destruct (expr_of E w c expr) as [[|?|[?|]] w1]; eauto. Qed.

Lemma append_stops b pre s : growable b -> dyn b pre -> (exists t, holds s t /\ cstr t) ->
  stops (fun b' => growable b' /\ exists t, dyn b' t)
    (let* text := ast_str_buffer s in let* (_, b) := ast_str_append (al E) b 0 text in Ret b).
Proof.
  intros Hg Hd (t & Hh0 & Ht). rewrite (holds_buffer _ _ Hh0). cbn [obind].
  destruct (ast_str_append_ok (al E) b pre t Hg (env_al _ HE) Hd Ht) as (b' & -> & Hg' & Hd'). cbn. eauto.
Qed.

Lemma subst_loop_stops fuel : forall w b pre sc s, (length s < fuel)%nat -> cstr s -> pbx_ok w -> chan_ok w c ->
  growable b -> dyn b pre -> scratch_ok sc -> stops (string_ready w) (subst_loop fuel E w b 0 c headp sc s).
Proof.
  induction fuel as [|fuel IH]; intros w b pre sc s Hf Hcs Hw Hc Hg Hd Hsc; [lia|].
  cbn [subst_loop]. destruct s as [|x s].
  { cbn. split; [done|]. split; [by apply step_ok_refl|eauto]. }
  set (ws := x :: s) in *. cbn match. assert (Hws : (0 < length ws)%nat) by (unfold ws; cbn; lia).
  destruct (reset_ready (substr3 sc) (sc3 _ Hsc)) as (s3 & -> & Hg3 & Hd3 & Hr3). cbn [obind].
  assert (Hsc1 : scratch_ok (mk_scratch (substr1 sc) (substr2 sc) s3)) by (split; [apply Hsc..|done]).
  destruct (next_thing ws) as [pos next] eqn:En.
  assert (Hcopy : exists b1, (if (0 <? pos)%nat then ast_str_append_substr (al E) b 0 ws (Z.of_nat pos) else Ret b) = Ret b1 /\
    growable b1 /\ exists t, dyn b1 t).
  { destruct (0 <? pos)%nat; [|eauto]. destruct (ast_str_append_substr_ok (al E) b pre ws (Z.of_nat pos) Hg (env_al _ HE) Hd Hcs) as (b1 & ? & ? & ?); [lia|eauto]. }
  destruct Hcopy as (b1 & -> & Hg1 & t1 & Hd1). cbn [obind].
  assert (Hgo : forall w2 b2 t2 (sc2 : scratch) s', step_ok w w2 -> growable b2 -> dyn b2 t2 -> scratch_ok sc2 -> (length s' < length ws)%nat -> cstr s' ->
    stops (string_ready w) (subst_loop fuel E w2 b2 0 c headp sc2 s')).
  { intros w2 b2 t2 sc2 s' Hs Hg2 Hd2 Hsc2 Hl Hc2.
    assert (Hset := IH w2 b2 t2 sc2 s' ltac:(lia) Hc2 (proj1 Hs) (chan_ok_step _ _ _ Hs Hc) Hg2 Hd2 Hsc2).
    destruct (subst_loop fuel E w2 b2 0 c headp sc2 s') as [[b3 w3]| | |]; cbn in *; try done.
    destruct Hset as (? & ? & ?). split; [done|]. split; [by apply (step_ok_trans w w2)|done]. }
  assert (Hdrop : forall m vare, (length (drop (Z.to_nat (Z.of_nat vare - 1 + 3)) (drop m ws)) < length ws)%nat)
    by (intros; rewrite !length_drop; lia).
  assert (Hcd : forall n m, cstr (drop n (drop m ws))) by (intros; by do 2 apply cstr_drop).
  assert (Hvl : (length (drop 2 (drop pos ws)) < fuel)%nat) by (rewrite !length_drop; lia).
  assert (Hscan0 : forall vare br ns, scan_var (drop 2 (drop pos ws)) 1 0 = (vare, br, ns) -> 0 <= Z.of_nat vare - 1 \/ drop 2 (drop pos ws) = []).
  { intros vare br ns. destruct (drop 2 (drop pos ws)) as [|y ys]; [by right|]. left. by apply (scan_var_moves y ys 1 0 vare br ns). }
  assert (Hscan1 : forall vare br ns, scan_exp (drop 2 (drop pos ws)) 1 0 = (vare, br, ns) -> 0 <= Z.of_nat vare - 1 \/ drop 2 (drop pos ws) = []).
  { intros vare br ns. destruct (drop 2 (drop pos ws)) as [|y ys]; [by right|]. left. by apply (scan_exp_moves y ys 1 0 vare br ns). }
  destruct next.
  - destruct (scan_var _ 1 0) as [[vare brackets] needsub] eqn:Esc.
    eapply stops_bind; [by apply inner_stops; try done; [lia|by apply (Hscan0 _ _ _ eq_refl)]|].
    intros [[nm sc2] w1] (Hsc2 & Hs1 & H3). cbn in Hsc2, Hs1, H3. rewrite H3.
    eapply stops_bind; [by apply value_stops; try done; [apply Hs1|by apply (chan_ok_step w)]|].
    intros [[v s3'] w2] (Hr3' & Hs2 & Hv). apply stops_bind with (fun b' => growable b' /\ exists t, dyn b' t).
    + destruct v as [sv|]; [by apply append_stops with t1|cbn; eauto].
    + intros b2 (Hg2 & t2 & Hd2). apply Hgo with t2; try done; [by apply (step_ok_trans w w1)|]. by split; try apply Hsc2.
  - destruct (scan_exp _ 1 0) as [[vare brackets] needsub] eqn:Esc.
    eapply stops_bind; [by apply inner_stops; try done; [lia|by apply (Hscan1 _ _ _ eq_refl)]|].
    intros [[nm sc2] w1] (Hsc2 & Hs1 & H3). cbn in Hsc2, Hs1, H3. rewrite H3.
    destruct (expr_text_ret nm w1) as (t & w2 & Ht).
    destruct (str_expr_ok E c HE w1 s3 nm t w2 (proj1 Hs1) Hg3 Hd3 Ht) as (s3' & -> & Hg3' & Hh3' & Hs2 & Hct). cbn [obind].
    rewrite (holds_buffer _ _ Hh3'). cbn [obind].
    destruct (ast_str_append_ok (al E) b1 t1 t Hg1 (env_al _ HE) Hd1 Hct) as (b2 & -> & Hg2 & Hd2). cbn [obind].
    apply Hgo with (t1 ++ t); try done; [by apply (step_ok_trans w w1)|]. split; [apply Hsc2..|]. by apply (ready_holds _ t).
  - apply Hgo with t1; try done; [|by apply cstr_drop]. rewrite length_drop. pose proof (next_plain_moves _ _ En Hws). lia.
Qed.
End ends.

(** C25: neither function runs for ever, whatever the text is: with the fuel they start with,
    one unit for each character and one more, neither runs out of it or fails an assertion.
    Each returns, with the exchange well-formed whatever the functions, variables and
    expressions it refers to did to it, and with the right counter in the dynamic string; or
    it accesses memory outside of its buffers, as [reference_buffer_overrun] shows it can on a
    text that is not a template.  The depth of the calls is bounded the same way, as the text
    of a reference is shorter than the template. *)
Theorem substitution_ends E w c headp templ count buf : env_ok E -> pbx_ok w -> chan_ok w c -> from_option vars_ok True headp ->
  cstr templ -> ready buf -> 0 <= count ->
  stops (fun r => step_ok w (snd r)) (pbx_substitute_variables_helper_full E w c headp templ count) /\
  stops (fun r => step_ok w (snd r) /\ growable (fst (fst r)) /\
      (exists text, dyn (fst (fst r)) text) /\ snd (fst r) = as_used (fst (fst r)))
    (ast_str_substitute_variables_full E w buf 0 c headp templ).
Proof.
  intros HE Hw Hc Hh Ht Hb Hcount. split.
  - unfold pbx_substitute_variables_helper_full. eapply stops_bind; [by apply helper_subst_stops; try done; lia|].
    intros [out w1] Hs. by eapply stops_bind; [apply cells_text_stops|].
  - unfold ast_str_substitute_variables_full. destruct create_ready as (s0 & -> & Hr0 & _). cbn [obind].
    destruct (reset_ready buf Hb) as (b & -> & Hg & Hd & _). cbn [obind].
    eapply stops_bind; [apply (subst_loop_stops E c headp HE Hh _ _ _ [])|]; try done; [lia|].
    intros [b' w1] (Hg' & Hs & Hd'). by split_and!.
Qed.

(** ** Witnesses *)

(** ["a$b ${FOO} ${EXTEN:1} ${${X}:-3:2} $[1+${PRIORITY}] ${G} ${LEN(${FOO})}"] *)
Definition sample_template : template :=
  lits (zs "a$b ") (VarRef (lits (zs "FOO") Done)
  (lits (zs " ") (VarRef (lits (zs "EXTEN:1") Done)
  (lits (zs " ") (VarRef (VarRef (lits (zs "X") Done) (lits (zs ":-3:2") Done))
  (lits (zs " ") (ExprRef (lits (zs "1+") (VarRef (lits (zs "PRIORITY") Done) Done))
  (lits (zs " ") (VarRef (lits (zs "G") Done)
  (lits (zs " ") (VarRef (lits (zs "LEN(") (VarRef (lits (zs "FOO") Done) (lits (zs ")") Done))) Done))))))))))).

Definition sample_result : str := zs "a$b foo bar 000 ba 3 glob 7".

Lemma substitutions_agree_witness :
  pbx_substitute_variables_helper_full (sample_env [sample_len]) sample_pbx (Some 0%nat) None (print sample_template) 4095 =
    Ret (sample_result, zlen sample_result, sample_pbx) /\
  exists buf', ast_str_substitute_variables_full (sample_env [sample_len]) sample_pbx (mk_ast_str DS_MALLOC [0] 0) 0 (Some 0%nat) None
      (print sample_template) = Ret (buf', zlen sample_result, sample_pbx) /\
    ast_str_buffer buf' = Ret sample_result.
Proof.
  apply (substitutions_agree (sample_env [sample_len]) sample_pbx (Some 0%nat) None sample_template 4095
           (mk_ast_str DS_MALLOC [0] 0) sample_result sample_pbx).
  - apply sample_env_ok, Forall_singleton, sample_len_ok.
  - by repeat constructor.
  - left. by exists 0%nat.
  - apply sample_pbx_ok.
  - cbn. lia.
  - exact I.
  - split; [by left|done].
  - vm_compute. reflexivity.
  - vm_compute. reflexivity.
  - vm_compute. reflexivity.
Defined.

Lemma ast_str_substitute_correct_witness :
  exists buf', ast_str_substitute_variables_full (sample_env [sample_len; sample_echo]) sample_pbx (mk_ast_str DS_MALLOC [0] 0) 0 (Some 0%nat) None
      (print sample_template) = Ret (buf', zlen sample_result, sample_pbx) /\
    dyn buf' sample_result /\ ast_str_buffer buf' = Ret sample_result.
Proof.
  apply (ast_str_substitute_correct (sample_env [sample_len; sample_echo]) sample_pbx (mk_ast_str DS_MALLOC [0] 0) (Some 0%nat) None
           sample_template sample_result sample_pbx).
  - apply sample_env_ok, sample_functions_ok.
  - apply sample_pbx_ok.
  - cbn. lia.
  - exact I.
  - split; [by left|done].
  - vm_compute. reflexivity.
  - vm_compute. reflexivity.
Defined.

(** ["$[${FOO}"], in which a bracket is not closed, as well. *)
Lemma substitution_ends_witness :
  stops (fun r => step_ok sample_pbx (snd r))
    (pbx_substitute_variables_helper_full (sample_env [sample_len; sample_echo]) sample_pbx (Some 0%nat) None (zs "$[${FOO}") 100) /\
  stops (fun r => step_ok sample_pbx (snd r) /\ growable (fst (fst r)) /\
      (exists text, dyn (fst (fst r)) text) /\ snd (fst r) = as_used (fst (fst r)))
    (ast_str_substitute_variables_full (sample_env [sample_len; sample_echo]) sample_pbx (mk_ast_str DS_MALLOC [0] 0) 0 (Some 0%nat) None
      (zs "$[${FOO}")).
Proof.
  apply (substitution_ends (sample_env [sample_len; sample_echo]) sample_pbx (Some 0%nat) None (zs "$[${FOO}") 100 (mk_ast_str DS_MALLOC [0] 0)).
  - apply sample_env_ok, sample_functions_ok.
  - apply sample_pbx_ok.
  - cbn. lia.
  - exact I.
  - cstr_const.
  - split; [by left|done].
  - lia.
Defined.

(** ["${ECHO(abcdef):2}"] *)
Lemma old_function_range_lost_witness :
  helper_reference_value (sample_env [sample_len; sample_echo]) sample_pbx (Some 0%nat) None (zs "ECHO(abcdef):2") =
    Ret (Some (zs "cdef"), sample_pbx) /\
  exists b s3', reference_value (sample_env [sample_len; sample_echo]) sample_pbx (Some 0%nat) None (mk_ast_str DS_MALLOC [0] 0)
      (zs "ECHO(abcdef):2") = Ret (Some b, s3', sample_pbx) /\ ast_str_buffer b = Ret [].
Proof.
  refine (old_function_range_lost (sample_env [sample_len; sample_echo]) sample_pbx 0 None sample_echo _ (mk_ast_str DS_MALLOC [0] 0)
    (zs "ECHO(abcdef):2") (zs "abcdef") (zs "cdef") _ _ _ _ _ _ _ eq_refl eq_refl eq_refl _ _ _ _).
  - apply sample_env_ok, sample_functions_ok.
  - apply sample_pbx_ok.
  - cbn. lia.
  - by left.
  - split; [split; [constructor|by exists []]|done].
  - vm_compute. discriminate.
  - reflexivity.
  - vm_compute. reflexivity.
  - vm_compute. reflexivity.
  - vm_compute. discriminate.
  - left. vm_compute. discriminate.
Defined.

(** A function that returns a variable, of the channel first. *)
Definition sample_chanvar : ast_custom_function :=
  mk_custom_function (zs "CHANVAR") None
    (Some (fun w c _ args => match pbx_builtin_getvar_helper w c args with Ret v => (0, default [] v, w) | _ => (-1, [], w) end)) None 0.

(** With a list of variables in place of a channel, functions see the list when the text
    goes into a buffer, but not when it goes into a dynamic string, where they get no
    channel at all. *)
Lemma list_hidden_from_functions :
  let E := sample_env [sample_chanvar] in let l := [mk_var (zs "FOO") (zs "bar")] in let templ := zs "${CHANVAR(FOO)} ${FOO}" in
  (let* (text, _) := pbx_substitute_variables_varshead E sample_pbx l templ 100 in Ret text) = Ret (zs "bar bar") /\
  (let* (b, _, _) := ast_str_substitute_variables_varshead E sample_pbx (mk_ast_str DS_MALLOC [0] 0) 0 l templ in ast_str_buffer b) = Ret (zs " bar").
Proof. split; vm_compute; reflexivity. Qed.
