(* ===== verification/Contexts.v ===== *)
(** * Finding an extension ([pbx_find_extension] of [main/pbx.c])

    The dialplan is a set of contexts.  A context has extensions, each with a list of
    priorities, and includes other contexts, always or at certain times; a switch may
    answer for extensions that are not there.  This file models the search of an extension
    through a context, its switches and the contexts it includes, with both ways of
    searching one context: the list of extensions (Extension.v) and the trie
    (TrieFind.v), which is made when a context is searched for the first time; and the
    calls that use the search, up to the execution of what was found.

    Theorems, for contexts with names that differ by more than their case and switches that
    do not answer: the search ends, also if contexts include each other, never leaves its
    stack, and finds exactly what is reachable, if there are no more contexts than fit on
    the stack. *)

From S2P Require Import Extension Time Timing PatternNode Trie TrieFind TrieMatch Prelude.
From S2P Require Import DynStr Vars Subst.
From Stdlib Require Import ZArith Lia.
From stdpp Require Import base list gmap numbers strings.

#[local] Open Scope Z_scope.
#[local] Open Scope outcome_scope.
#[local] Open Scope record_scope.

(** ** Contexts *)

Record ast_include := mk_include { in_name : str; in_rname : str; in_registrar : str; in_timing : ast_timing }.

Record ast_sw := mk_sw { sw_name : str; sw_registrar : str; sw_data : str; sw_eval : bool }.

(** [cx_root] is the list of extensions in their order, [root_table] the table of them, in
    the order of its traversal, and [cx_tree] the pattern tree. *)
Record context := mk_cx {
  cx_name : str;
  cx_root : list ast_exten;
  root_table : option (list ast_exten);
  cx_tree : ast_context;
  includes : list ast_include;
  ignorepats : list (str * ptr);
  alts : list ast_sw
}.

#[export] Instance eta_context : Eta context := fun c =>
  mk_cx (cx_name c) (cx_root c) (root_table c) (cx_tree c) (includes c) (ignorepats c) (alts c).

(** A switch: its functions work on the exchange and are given the channel, the context,
    the extension, the priority, the caller id and the data. *)
Definition ast_switch_f : Type := pbx -> option nat -> option str -> str -> Z -> option str -> option str -> Z * pbx.

Record ast_switch := mk_switch {
  asw_name : str;
  asw_exists : option ast_switch_f;
  asw_canmatch : option ast_switch_f;
  asw_exec : option ast_switch_f;
  asw_matchmore : option ast_switch_f
}.

(** [struct ast_exten *]: a priority of an extension, or, where only the extension
    matters, its first one. *)
Inductive exten_ptr := Peer (e : ast_exten) (p : ast_peer) | Head (e : ast_exten).

Abbreviation STATUS_NO_CONTEXT := 1.
Abbreviation STATUS_NO_EXTENSION := 2.
Abbreviation STATUS_NO_PRIORITY := 3.
Abbreviation STATUS_NO_LABEL := 4.
Abbreviation STATUS_SUCCESS := 5.
Definition AST_PBX_MAX_STACK : nat := 128.

(** The last entry of [incstack] is its first element here. *)
Record pbx_find_info := mk_find_info {
  incstack : list str;
  q_status : Z;
  swo : option ast_switch;
  q_data : option str;
  foundcontext : option str
}.

#[export] Instance eta_pbx_find_info : Eta pbx_find_info := fun q =>
  mk_find_info (incstack q) (q_status q) (swo q) (q_data q) (foundcontext q).

Definition new_find_info : pbx_find_info := mk_find_info [] 0 None None None.

(** What the search works on: the contexts, the context [bypass] if there is one, the
    exchange with its channels, and what it knows. *)
Record search := mk_search { s_contexts : list context; s_bypass : option context; s_pbx : pbx; s_q : pbx_find_info }.

#[export] Instance eta_search : Eta search := fun s => mk_search (s_contexts s) (s_bypass s) (s_pbx s) (s_q s).

(** The name is cut to 255 characters for the lookup. *)
Definition find_context (contexts : list context) (name : str) : option context :=
  List.find (fun c => bool_decide (cx_name c = take 255 name)) contexts.

Definition pbx_findswitch (switches : list ast_switch) (sw : str) : option ast_switch :=
  List.find (fun asw => same_name (asw_name asw) sw) switches.

(** The lookup of [pattern] in [peer_label_table] or [peer_table]. *)
Definition find_peer (label : option str) (priority action : Z) (e : ast_exten) : option ast_peer :=
  match label with
  | Some l =>
      if action =? E_FINDLABEL then List.find (fun p => bool_decide (pr_label p = Some l)) (peer_label_table e)
      else List.find (fun p => pr_priority p =? priority) (ex_peers e)
  | None => List.find (fun p => pr_priority p =? priority) (ex_peers e)
  end.

(** How far a search with an extension that matches gets without a priority. *)
Definition no_priority (label : option str) (action status : Z) : Z :=
  let status := Z.max status STATUS_NO_PRIORITY in
  if (action =? E_FINDLABEL) && bool_decide (is_Some label) then Z.max status STATUS_NO_LABEL else status.

(** The result of looking in one context: the search ends, or goes on with the switches. *)
Inductive looked := Decided (e : option exten_ptr) | Undecided.

(** The scan of the list of extensions, from [ast_walk_context_extensions] on. *)
Fixpoint list_search (extens : list ast_exten) (exten : str) (priority : Z) (label : option str) (callerid : option str)
    (action status : Z) : outcome (looked * Z) :=
  match extens with
  | [] => Ret (Undecided, status)
  | eroot :: extens =>
      let* match_ := oaccess (extension_match_core (Some (ex_exten eroot)) (Some exten) action) in
      let* cid := (if negb (match_ =? 0) && ex_matchcid eroot then oaccess (matchcid (Some (ex_cidmatch eroot)) callerid) else Ret 1) in
      if (match_ =? 0) || (cid =? 0) then list_search extens exten priority label callerid action status
      else if (match_ =? 2) && (action =? E_MATCHMORE) then Ret (Decided None, status)
      else
        match find_peer label priority action eroot with
        | Some p => Ret (Decided (Some (Peer eroot p)), STATUS_SUCCESS)
        | None => list_search extens exten priority label callerid action (no_priority label action status)
        end
  end.

(** The search of the trie, and what is made of its result. *)
Definition tree_search (con : ast_context) (exten : str) (priority : Z) (label : option str) (callerid : option str)
    (action status : Z) : outcome (looked * Z) :=
  let* score := search_trie con exten callerid (default [] label) action in
  let* v := trie_verdict con score action in
  match v with
  | Returns e =>
      let final := (last_char score =? c_bang) && (action =? E_MATCHMORE) in
      let status := if negb final && negb (is_some (sb_exten score)) then STATUS_SUCCESS else status in
      Ret (Decided (Head <$> e), status)
  | GoesOn None => Ret (Undecided, status)
  | GoesOn (Some eroot) =>
      match find_peer label priority action eroot with
      | Some p => Ret (Decided (Some (Peer eroot p)), STATUS_SUCCESS)
      | None => Ret (Undecided, no_priority label action status)
      end
  end.

(** ** The search *)

Section find.
Context (ast_calloc : gmap positive match_char -> option positive).
Context (E : pbx_env) (switches : list ast_switch) (overrideswitch : str) (extenpatternmatchnew : bool).
Context (ast_localtime : timeval -> option str -> ast_tm) (now : timeval).

(** The context gets its tree with the first search. *)
Definition make_tree (c : context) : outcome context :=
  match pattern_tree (cx_tree c), root_table c with
  | None, Some extens => let* t := create_match_char_tree ast_calloc (cx_tree c) extens in Ret (c <| cx_tree := t |>)
  | _, _ => Ret c
  end.

(** The data of a switch, substituted into a string of the thread that has 512 bytes; all
    of them are said to be free for characters, and the NUL may go behind them. *)
Definition switch_data_size : Z := 512.

Definition eval_data (w : pbx) (chan : option nat) (data : str) : outcome (str * pbx) :=
  let* headp := (match chan with Some n => let* ch := channel_at w n in Ret (Some (varshead ch)) | None => Ret None end) in
  let* (text, used, w) := pbx_substitute_variables_helper_full E w chan headp data switch_data_size in
  if used <? switch_data_size then Ret (text, w) else BadAccess.

Section request.
Context (chan : option nat) (exten : str) (priority : Z) (label callerid : option str) (action : Z).

Definition ask_switch (w : pbx) (asw : ast_switch) (ctx : option str) (data : option str) : Z * pbx :=
  let aswf := if action =? E_CANMATCH then asw_canmatch asw else if action =? E_MATCHMORE then asw_matchmore asw else asw_exists asw in
  match aswf with
  | None => (0, w)
  | Some f => f w chan ctx exten priority callerid data
  end.

Definition got_match (s : search) (asw : ast_switch) (data : option str) (ctx : option str) : search :=
  s <| s_q ::= fun q => q <| swo := Some asw |> <| q_data := data |> <| foundcontext := ctx |> |>.

(** The switch that overrides all; the result tells whether it had a match. *)
Definition override (s : search) (ctx : option str) : outcome (bool * search) :=
  match overrideswitch with
  | [] => Ret (false, s)
  | _ =>
      let '(name, osw) := strsep (Z.eqb 47) overrideswitch in
      match pbx_findswitch switches name with
      | None => Ret (false, s)
      | Some asw =>
          let* (datap, w) :=
            (match osw with
             | Some text =>
                 if bool_decide (36 ∈ text) then let* (t, w) := eval_data (s_pbx s) chan text in Ret (Some t, w)
                 else Ret (osw, s_pbx s)
             | None => Ret (None, s_pbx s)
             end) in
          let '(res, w) := ask_switch w asw ctx datap in
          let s := s <| s_pbx := w |> in
          if negb (res =? 0) then Ret (true, got_match s asw datap ctx) else Ret (false, s)
      end
  end.

(** The switches of a context. *)
Fixpoint try_switches (alts : list ast_sw) (s : search) (ctx : option str) : outcome (bool * search) :=
  match alts with
  | [] => Ret (false, s)
  | sw :: alts =>
      match pbx_findswitch switches (sw_name sw) with
      | None => try_switches alts s ctx
      | Some asw =>
          let* (datap, w) := (if sw_eval sw then eval_data (s_pbx s) chan (sw_data sw) else Ret (sw_data sw, s_pbx s)) in
          let '(res, w) := ask_switch w asw ctx (Some datap) in
          let s := s <| s_pbx := w |> in
          if negb (res =? 0) then Ret (true, got_match s asw (Some datap) ctx) else try_switches alts s ctx
      end
  end.

(** The context that is searched, and putting it back with its tree. *)
Definition search_in (s : search) (ctx : option str) : outcome (option context) :=
  match s_bypass s with
  | Some c => Ret (Some c)
  | None => let* name := oaccess ctx in Ret (find_context (s_contexts s) name)
  end.

Definition put_context (s : search) (c : context) : search :=
  match s_bypass s with
  | Some _ => s <| s_bypass := Some c |>
  | None => s <| s_contexts ::= fmap (fun c' => if bool_decide (cx_name c' = cx_name c) then c else c') |>
  end.

Definition look_in (c : context) (status : Z) : outcome (looked * Z) :=
  if extenpatternmatchnew then tree_search (cx_tree c) exten priority label callerid action status
  else list_search (cx_root c) exten priority label callerid action status.

(** Up to the includes: a search that is over, or the context to go on with, which is on
    the stack then. *)
Inductive stage := Over (e : option exten_ptr) | IncludesOf (c : context).

Definition search_context (s : search) (ctx : option str) (tmp : context) : outcome (stage * search) :=
  let s := s <| s_q ::= fun q => q <| q_status ::= Z.max STATUS_NO_EXTENSION |> |> in
  let* tmp := make_tree tmp in
  let s := put_context s tmp in
  let* (over, s) := override s ctx in
  if over then Ret (Over None, s)
  else
    let* (found, status) := look_in tmp (q_status (s_q s)) in
    let s := s <| s_q ::= fun q => q <| q_status := status |> |> in
    match found with
    | Decided e =>
        Ret (Over e, match e with Some (Peer _ _) => s <| s_q ::= fun q => q <| foundcontext := ctx |> |> | _ => s end)
    | Undecided =>
        let* (over, s) := try_switches (alts tmp) s ctx in
        if over then Ret (Over None, s)
        else if (length (incstack (s_q s)) <? AST_PBX_MAX_STACK)%nat then
          Ret (IncludesOf tmp, s <| s_q ::= fun q => q <| incstack ::= cons (cx_name tmp) |> |>)
        else BadAccess
    end.

(** The loop over the includes; [find] is the recursive call. *)
Fixpoint try_includes (find : search -> str -> outcome (option exten_ptr * search)) (l : list ast_include) (s : search)
    : outcome (option exten_ptr * search) :=
  match l with
  | [] => Ret (None, s)
  | i :: l =>
      let* valid := include_valid ast_localtime (in_timing i) now in
      if valid =? 0 then try_includes find l s
      else
        let* (e, s) := find s (in_rname i) in
        match e, swo (s_q s) with
        | Some e, _ => Ret (Some e, s)
        | None, Some _ => Ret (None, s)
        | None, None => try_includes find l s
        end
  end.

(** The name is on the stack. *)
Definition already_checked (s : search) (ctx : option str) : outcome bool :=
  match incstack (s_q s), ctx with
  | [], _ => Ret false
  | _, None => BadAccess
  | names, Some name => Ret (existsb (fun n => same_name n name) names)
  end.

Fixpoint pbx_find_extension (fuel : nat) (s : search) (ctx : option str) : outcome (option exten_ptr * search) :=
  match fuel with
  | O => NoFuel
  | S fuel =>
      let s := match incstack (s_q s) with
               | [] => s <| s_q ::= fun q => q <| q_status := STATUS_NO_CONTEXT |> <| swo := None |> <| q_data := None |> <| foundcontext := None |> |>
               | _ => s
               end in
      if (AST_PBX_MAX_STACK <=? length (incstack (s_q s)))%nat then Ret (None, s)
      else
        let* seen := already_checked s ctx in
        if seen then Ret (None, s)
        else
          let* tmp := search_in s ctx in
          match tmp with
          | None => Ret (None, s)
          | Some tmp =>
              let* (next, s) := search_context s ctx tmp in
              match next with
              | Over e => Ret (e, s)
              | IncludesOf tmp => try_includes (fun s name => pbx_find_extension fuel s (Some name)) (includes tmp) s
              end
          end
  end.
End request.

(** The search as a caller starts it. *)
Definition find_extension (contexts : list context) (bypass : option context) (w : pbx) (chan : option nat) (ctx : option str)
    (exten : str) (priority : Z) (label callerid : option str) (action : Z) : outcome (option exten_ptr * search) :=
  pbx_find_extension chan exten priority label callerid action (S AST_PBX_MAX_STACK) (mk_search contexts bypass w new_find_info) ctx.

(** ** What the search is for *)

(** [pbx_findapp] and the execution of the application. *)
Context (pbx_findapp : str -> option (pbx -> nat -> str -> Z * pbx)).

Definition EXT_DATA_SIZE : Z := 8192.

(** [E_MATCH], [E_CANMATCH] and [E_MATCHMORE]. *)
Definition matching_action (action : Z) : bool := (action =? E_MATCH) || (action =? E_CANMATCH) || (action =? E_MATCHMORE).

(** The priority [e] points to; the list of an extension is never empty. *)
Definition peer_of (e : exten_ptr) : outcome ast_peer :=
  match e with Peer _ p => Ret p | Head e => oaccess (head (ex_peers e)) end.

Definition set_location (c : nat) (ctx exten : str) (priority : Z) (w : pbx) : pbx :=
  w <| channels ::= alter (fun ch => ch <| ch_context := take 79 ctx |> <| ch_exten := take 79 exten |> <| ch_priority := priority |>) c |>.

(** The return value, what [found] is set to, and the exchange. *)
Definition pbx_extension_helper (contexts : list context) (con : option context) (w : pbx) (c : option nat) (ctx : option str)
    (exten : str) (priority : Z) (label callerid : option str) (action : Z) : outcome (Z * bool * search) :=
  let* (e, s) := find_extension contexts con w c ctx exten priority label callerid action in
  match e, swo (s_q s) with
  | Some e, _ =>
      if matching_action action then Ret (-1, true, s)
      else
        let* p := peer_of e in
        if action =? E_FINDLABEL then Ret (pr_priority p, true, s)
        else
          match pbx_findapp (pr_app p) with
          | None => Ret (-1, true, s)
          | Some execute =>
              let* c := oaccess c in
              let* name := oaccess ctx in
              let w := set_location c name exten priority (s_pbx s) in
              let* (passdata, w) := pbx_substitute_variables E w EXT_DATA_SIZE c (pr_data p) in
              let '(res, w) := execute w c passdata in
              Ret (res, true, s <| s_pbx := w |>)
          end
  | None, Some asw =>
      if matching_action action then Ret (-1, true, s)
      else
        let* exec := oaccess (asw_exec asw) in
        let ctx := match foundcontext (s_q s) with Some f => Some f | None => ctx end in
        let '(res, w) := exec (s_pbx s) c ctx exten priority callerid (q_data (s_q s)) in
        Ret (res, true, s <| s_pbx := w |>)
  | None, None => Ret (if matching_action action then 0 else -1, false, s)
  end.

Definition ast_exists_extension contexts w c ctx exten priority callerid :=
  pbx_extension_helper contexts None w c ctx exten priority None callerid E_MATCH.

Definition ast_findlabel_extension contexts w c ctx exten label callerid :=
  pbx_extension_helper contexts None w c ctx exten 0 label callerid E_FINDLABEL.

Definition ast_findlabel_extension2 contexts w c con exten label callerid :=
  pbx_extension_helper contexts (Some con) w c None exten 0 label callerid E_FINDLABEL.

Definition ast_canmatch_extension contexts w c ctx exten priority callerid :=
  pbx_extension_helper contexts None w c ctx exten priority None callerid E_CANMATCH.

Definition ast_matchmore_extension contexts w c ctx exten priority callerid :=
  pbx_extension_helper contexts None w c ctx exten priority None callerid E_MATCHMORE.

Definition ast_spawn_extension contexts w c ctx exten priority callerid :=
  pbx_extension_helper contexts None w c ctx exten priority None callerid E_SPAWN.

Definition PRIORITY_HINT : Z := -1.

Definition ast_hint_extension (contexts : list context) (w : pbx) (c : option nat) (ctx : option str) (exten : str) :
    outcome (option exten_ptr * search) :=
  find_extension contexts None w c ctx exten PRIORITY_HINT None (Some []) E_MATCH.

(** Whether dial tone goes on after the digits. *)
Definition ast_ignore_pattern (contexts : list context) (ctx : option str) (pattern : str) : outcome Z :=
  match ctx with
  | None => Ret 0
  | Some name =>
      match find_context contexts name with
      | None => Ret 0
      | Some con =>
          ofold (fun r pat => if negb (r =? 0) then Ret r else
                   let* m := oaccess (ast_extension_match (Some (fst pat)) (Some pattern)) in
                   Ret (if negb (m =? 0) then 1 else 0)) 0 (ignorepats con)
      end
  end.
End find.

(** ** What is reachable *)

(** A dialplan in which no two names differ in case only and no included name is cut off,
    that can be searched: the times of includes can be looked up, trees can be made, and
    looking into a context gives a priority or nothing; and whose switches have nothing.
    [own] is what a context has itself. *)
Section reachable.
Context (ast_calloc : gmap positive match_char -> option positive).
Context (E : pbx_env) (switches : list ast_switch) (overrideswitch : str) (new : bool).
Context (ast_localtime : timeval -> option str -> ast_tm) (now : timeval).
Context (chan : option nat) (exten : str) (priority : Z) (label callerid : option str) (action : Z).
Context (cs : list context) (w : pbx) (own : context -> option exten_ptr).

Abbreviation tree_of c := (make_tree ast_calloc c).
Abbreviation look c status := (look_in new exten priority label callerid action c status).
Abbreviation valid i := (include_valid ast_localtime (in_timing i) now).
Abbreviation find fuel s ctx :=
  (pbx_find_extension ast_calloc E switches overrideswitch new ast_localtime now chan exten priority label callerid action fuel s ctx).

Definition names_distinct : Prop := NoDup ((fun c => tolower <$> cx_name c) <$> cs).

(** What looking into the context with its tree gives. *)
Definition looks (c : context) (e : option exten_ptr) : Prop :=
  exists c', tree_of c = Ret c' /\ tree_of c' = Ret c' /\
    forall status, exists status', look c' status = Ret (match e with Some p => Decided (Some p) | None => Undecided end, status').

Definition quiet (c : context) : Prop :=
  forall s ctx, s_pbx s = w -> try_switches E switches chan exten priority callerid action (alts c) s ctx = Ret (false, s).

Record dialplan_ok : Prop := {
  dp_names : names_distinct;
  dp_override : forall s ctx, s_pbx s = w ->
    override E switches overrideswitch chan exten priority callerid action s ctx = Ret (false, s);
  dp_includes c i : c ∈ cs -> i ∈ includes c -> (length (in_rname i) <= 255)%nat /\ exists v, valid i = Ret v;
  dp_looks c : c ∈ cs -> looks c (own c);
  dp_quiet c : c ∈ cs -> quiet c
}.

(** The contexts a search from [name] is to look at. *)
Inductive reach : str -> context -> Prop :=
| reach_here name c : find_context cs name = Some c -> reach name c
| reach_included name c i v d : find_context cs name = Some c -> i ∈ includes c -> valid i = Ret v -> v <> 0 ->
    reach (in_rname i) d -> reach name d.

Context (Hok : dialplan_ok).

(** A context, or the context with its tree. *)
Definition version (c c' : context) : Prop := c' = c \/ tree_of c = Ret c'.

Lemma tree_same c c' : tree_of c = Ret c' -> cx_name c' = cx_name c /\ includes c' = includes c /\ alts c' = alts c.
Proof.
  unfold make_tree. destruct (pattern_tree (cx_tree c)); [by intros [= <-]|]. destruct (root_table c); [|by intros [= <-]].
  destruct (create_match_char_tree _ _ _); cbn; try done. by intros [= <-].
Qed.

Lemma version_same c c' : version c c' -> cx_name c' = cx_name c /\ includes c' = includes c /\ alts c' = alts c.
Proof. intros [->|H]; [done|by apply tree_same]. Qed.

Lemma version_tree c c' : c ∈ cs -> version c c' ->
  exists c'', tree_of c' = Ret c'' /\ version c c'' /\ cx_name c'' = cx_name c /\ includes c'' = includes c /\ alts c'' = alts c /\
    forall status, exists status', look c'' status = Ret (match own c with Some p => Decided (Some p) | None => Undecided end, status').
Proof.
  intros Hc Hv. destruct (dp_looks Hok c Hc) as (c1 & H1 & H2 & Hl). destruct (tree_same _ _ H1) as (? & ? & ?).
  exists c1. split_and!; try done; [|by right]. destruct Hv as [-> |Hv]; [done|]. congruence.
Qed.

Lemma find_context_in l name c : find_context l name = Some c -> c ∈ l /\ cx_name c = take 255 name.
Proof.
  intros H. apply find_some in H as [H1 H2]. apply bool_decide_eq_true_1 in H2. split; [by apply list_elem_of_In|done].
Qed.

Lemma find_version l name : Forall2 version cs l ->
  match find_context l name with
  | Some c' => exists c, find_context cs name = Some c /\ version c c'
  | None => find_context cs name = None
  end.
Proof.
  clear Hok. unfold find_context. induction 1 as [|c c' k k' Hv _ IH]; [done|]. cbn. rewrite (proj1 (version_same _ _ Hv)).
  destruct (bool_decide (cx_name c = take 255 name)); [|exact IH]. exists c. by split.
Qed.

(** Two names of contexts that are the same up to case. *)
Lemma same_context c d : c ∈ cs -> d ∈ cs -> same_name (cx_name c) (cx_name d) = true -> c = d.
Proof.
  intros [i Hi]%list_elem_of_lookup [j Hj]%list_elem_of_lookup Hn. unfold same_name in Hn. apply bool_decide_eq_true_1 in Hn.
  assert (Hij : i = j); [|congruence]. eapply (NoDup_lookup _ i j _ (dp_names Hok)); rewrite list_lookup_fmap.
  - by rewrite Hi.
  - rewrite Hj. cbn. by rewrite Hn.
Qed.

Lemma put_version l c c'' : Forall2 version cs l -> c ∈ cs -> version c c'' ->
  Forall2 version cs ((fun d => if bool_decide (cx_name d = cx_name c'') then c'' else d) <$> l).
Proof.
  intros Hl Hc Hv. destruct (version_same _ _ Hv) as (Hn & _). rewrite Hn. apply Forall2_fmap_r.
  apply Forall2_same_length_lookup. apply Forall2_same_length_lookup in Hl as [Hlen Hl]. split; [done|].
  intros i d d' Hd Hd'. pose proof (Hl i d d' Hd Hd') as Hdd. destruct (version_same _ _ Hdd) as (Hnd & _). cbn. rewrite Hnd.
  case_bool_decide as Hb; [|done]. replace d with c; [done|]. apply same_context; [done|by eapply list_elem_of_lookup_2|].
  unfold same_name. apply bool_decide_eq_true. by rewrite Hb.
Qed.

(** *** The search visits what is reachable *)

(** The stack holds names of contexts, each once. *)
Definition stack_ok (stack : list str) : Prop := NoDup stack /\ forall n, n ∈ stack -> n ∈ cx_name <$> cs.

Record searching (s : search) : Prop := {
  sg_contexts : Forall2 version cs (s_contexts s);
  sg_bypass : s_bypass s = None;
  sg_pbx : s_pbx s = w;
  sg_stack : stack_ok (incstack (s_q s));
  sg_swo : incstack (s_q s) <> [] -> swo (s_q s) = None
}.

(** What is new on the stack [st'] has nothing itself, and what it includes is on the
    stack. *)
Definition explored (st st' : list str) : Prop :=
  forall c, c ∈ cs -> cx_name c ∈ st' -> cx_name c ∉ st ->
    own c = None /\ forall i v d, i ∈ includes c -> valid i = Ret v -> v <> 0 -> find_context cs (in_rname i) = Some d -> cx_name d ∈ st'.

(** The result of searching, from the name or from the includes of a context: something
    reachable, or everything is explored. *)
Definition searched (st : list str) (from : str -> Prop) (r : option exten_ptr) (s : search) : Prop :=
  exists new_names, incstack (s_q s) = new_names ++ st /\ Forall2 version cs (s_contexts s) /\ s_bypass s = None /\ s_pbx s = w /\
  match r with
  | Some p => exists name c, from name /\ reach name c /\ own c = Some p
  | None => searching s /\ swo (s_q s) = None /\
      ((length cs <= AST_PBX_MAX_STACK)%nat -> explored st (incstack (s_q s)) /\
        forall name d, from name -> find_context cs name = Some d -> cx_name d ∈ incstack (s_q s))
  end.

Lemma explored_trans st st1 st2 : explored st st1 -> explored st1 st2 -> (forall n, n ∈ st1 -> n ∈ st2) -> explored st st2.
Proof.
  intros H1 H2 Hsub c Hc Hin Hni. destruct (decide (cx_name c ∈ st1)) as [Hin1|Hni1]; [|by apply H2].
  destruct (H1 c Hc Hin1 Hni) as [Ho Hi]. split; [done|]. intros i v d ????. apply Hsub. by apply (Hi i v d).
Qed.

Lemma explored_refl st : explored st st.
Proof. by intros c _ ? ?. Qed.

(** A full stack has every context. *)
Lemma stack_full st name d : stack_ok st -> (length cs <= length st)%nat -> find_context cs name = Some d -> cx_name d ∈ st.
Proof.
  intros [Hnd Hsub] Hlen Hf. apply find_context_in in Hf as [Hd _].
  assert (Hp : st ≡ₚ cx_name <$> cs).
  { apply submseteq_length_Permutation; [by apply NoDup_submseteq|]. by rewrite length_fmap. }
  rewrite Hp. by apply list_elem_of_fmap_2.
Qed.

(** A name that was checked before. *)
Lemma checked_here st name d : stack_ok st -> existsb (fun n => same_name n name) st = true -> (length name <= 255)%nat ->
  find_context cs name = Some d -> cx_name d ∈ st.
Proof.
  intros [_ Hsub] (n & Hn & Hs)%existsb_exists Hlen Hf. apply list_elem_of_In in Hn.
  apply find_context_in in Hf as [Hd Hname]. rewrite take_ge in Hname by done.
  pose proof (Hsub n Hn) as Hc. apply list_elem_of_fmap in Hc as (c & -> & Hc).
  rewrite <- Hname in Hs. by rewrite <- (same_context c d Hc Hd Hs).
Qed.

Lemma try_includes_searched (find_ : search -> str -> outcome (option exten_ptr * search)) l n : forall s,
  (forall s name, incstack (s_q s) <> [] -> (n <= length (incstack (s_q s)))%nat -> searching s -> swo (s_q s) = None ->
    (length name <= 255)%nat -> exists r s', find_ s name = Ret (r, s') /\ searched (incstack (s_q s)) (eq name) r s') ->
  (forall i, i ∈ l -> (length (in_rname i) <= 255)%nat /\ exists v, valid i = Ret v) ->
  incstack (s_q s) <> [] -> (n <= length (incstack (s_q s)))%nat -> searching s -> swo (s_q s) = None ->
  exists r s', try_includes ast_localtime now find_ l s = Ret (r, s') /\
    searched (incstack (s_q s)) (fun name => exists i v, i ∈ l /\ in_rname i = name /\ valid i = Ret v /\ v <> 0) r s'.
Proof.
  induction l as [|i l IH]; intros s Hfind Hl Hne Hlen Hs Hswo.
  { eexists _, _. split; [done|]. exists []. split; [done|]. do 3 (split; [apply Hs|]). split; [done|]. split; [done|]. intros _.
    split; [apply explored_refl|]. intros name d (i & v & Hi & _). by apply elem_of_nil in Hi. }
  cbn [try_includes]. destruct (Hl i) as (Hname & v & Hv); [by left|]. rewrite Hv. cbn [obind].
  assert (Hl' : forall i, i ∈ l -> (length (in_rname i) <= 255)%nat /\ exists v, valid i = Ret v) by (intros; apply Hl; by right).
  destruct (Z.eqb_spec v 0) as [->|Hv0].
  - destruct (IH s Hfind Hl' Hne Hlen Hs Hswo) as (r & s' & -> & (nn & Hst & Hcs & Hby & Hw & Hr)). eexists _, _. split; [done|].
    exists nn. split_and!; try done. destruct r as [p|].
    + destruct Hr as (name & c & (i' & v' & Hi & ? & ? & ?) & Hre & Ho). exists name, c. split; [|done]. exists i', v'. split; [by right|done].
    + destruct Hr as (? & ? & Hr). split_and!; try done. intros Hb. destruct (Hr Hb) as [Hex Hin]. split; [done|].
      intros name d (i' & v' & Hi & Hn & Hv' & Hne0) Hf. apply elem_of_cons in Hi as [-> |Hi]; [congruence|].
      apply (Hin name d); [|done]. by exists i', v'.
  - destruct (Hfind s (in_rname i) Hne Hlen Hs Hswo Hname) as (r & s1 & -> & (nn & Hst & Hcs & Hby & Hw & Hr)). cbn [obind].
    destruct r as [p|].
    { destruct Hr as (name & c & <- & Hre & Ho). eexists _, _. split; [done|]. exists nn. split_and!; try done.
      exists (in_rname i), c. split; [|done]. exists i, v. split; [by left|done]. }
    destruct Hr as (Hs1 & Hswo1 & Hr). rewrite Hswo1.
    assert (Hne1 : incstack (s_q s1) <> []) by (rewrite Hst; destruct nn, (incstack (s_q s)); done).
    assert (Hlen1 : (n <= length (incstack (s_q s1)))%nat) by (rewrite Hst, length_app; lia).
    destruct (IH s1 Hfind Hl' Hne1 Hlen1 Hs1 Hswo1) as (r & s2 & -> & (nn2 & Hst2 & Hcs2 & Hby2 & Hw2 & Hr2)).
    eexists _, _. split; [done|]. exists (nn2 ++ nn). rewrite <- app_assoc, <- Hst. split_and!; try done. destruct r as [p|].
    + destruct Hr2 as (name & c & (i' & v' & Hi & ? & ? & ?) & Hre & Ho). exists name, c. split; [|done]. exists i', v'. split; [by right|done].
    + destruct Hr2 as (Hs2 & Hswo2 & Hr2). split_and!; try done. intros Hb. destruct (Hr Hb) as [Hex Hin], (Hr2 Hb) as [Hex2 Hin2].
      assert (Hsub : forall n, n ∈ incstack (s_q s1) -> n ∈ incstack (s_q s2)) by (intros; rewrite Hst2; apply elem_of_app; by right).
      split; [by apply (explored_trans _ (incstack (s_q s1)))|].
      intros name d (i' & v' & Hi & Hn & Hv' & Hne0) Hf. apply elem_of_cons in Hi as [-> |Hi].
      * apply Hsub. by apply (Hin name d).
      * apply (Hin2 name d); [|done]. by exists i', v'.
Qed.

Abbreviation search_ctx := (search_context ast_calloc E switches overrideswitch new chan exten priority label callerid action).

(** Looking into a context that is not on the stack. *)
Lemma search_context_ok s ctx c c' : searching s -> swo (s_q s) = None -> (length (incstack (s_q s)) < AST_PBX_MAX_STACK)%nat ->
  c ∈ cs -> version c c' ->
  exists s', Forall2 version cs (s_contexts s') /\ s_bypass s' = None /\ s_pbx s' = w /\ swo (s_q s') = None /\
    match own c with
    | Some p => search_ctx s ctx c' = Ret (Over (Some p), s') /\ incstack (s_q s') = incstack (s_q s)
    | None => exists c'', search_ctx s ctx c' = Ret (IncludesOf c'', s') /\ includes c'' = includes c /\
        incstack (s_q s') = cx_name c :: incstack (s_q s)
    end.
Proof.
  intros Hs Hswo Hlen Hc Hv. destruct (version_tree c c' Hc Hv) as (c'' & Ht & Hv' & Hn & Hi & Ha & Hlook).
  unfold search_context. set (s1 := s <| s_q ::= _ |>). rewrite Ht. cbn [obind].
  set (s2 := put_context s1 c'').
  assert (H2 : Forall2 version cs (s_contexts s2) /\ s_bypass s2 = None /\ s_pbx s2 = w /\
    s_q s2 = (s_q s) <| q_status ::= Z.max STATUS_NO_EXTENSION |>).
  { unfold s2, put_context. change (s_bypass s1) with (s_bypass s). rewrite (sg_bypass _ Hs). cbn.
    split_and!; [|apply Hs..|done]. apply put_version with c; [apply Hs|done|done]. }
  destruct H2 as (Hc2 & Hb2 & Hw2 & Hq2). clearbody s2.
  rewrite (dp_override Hok) by done. cbn [obind]. destruct (Hlook (q_status (s_q s2))) as [status' ->]. cbn [obind].
  set (s3 := s2 <| s_q ::= _ |>).
  assert (H3 : Forall2 version cs (s_contexts s3) /\ s_bypass s3 = None /\ s_pbx s3 = w /\ swo (s_q s3) = None /\
    incstack (s_q s3) = incstack (s_q s)).
  { unfold s3. cbn. rewrite Hq2. cbn. by split_and!. }
  destruct H3 as (Hc3 & Hb3 & Hw3 & Hs3 & Hi3). clearbody s3.
  destruct (own c) as [p|].
  - destruct p as [e p|e]; [exists (s3 <| s_q ::= fun q => q <| foundcontext := ctx |> |>)|exists s3]; by split_and!.
  - rewrite Ha, (dp_quiet Hok) by done. cbn [obind]. rewrite Hi3, (proj2 (Nat.ltb_lt _ _) Hlen).
    exists (s3 <| s_q ::= fun q => q <| incstack ::= cons (cx_name c'') |> |>). split_and!; try done. exists c''. split_and!; try done.
    cbn. by rewrite Hi3, Hn.
Qed.

(** The state a search starts with. *)
Definition started (s : search) : search :=
  match incstack (s_q s) with
  | [] => s <| s_q ::= fun q => q <| q_status := STATUS_NO_CONTEXT |> <| swo := None |> <| q_data := None |> <| foundcontext := None |> |>
  | _ => s
  end.

Lemma started_ok s : searching s -> searching (started s) /\ swo (s_q (started s)) = None /\ incstack (s_q (started s)) = incstack (s_q s).
Proof.
  intros Hs. unfold started. destruct (incstack (s_q s)) as [|n st] eqn:Est.
  - split; [|split; [done|exact Est]]. destruct Hs as [H1 H2 H3 H4 H5]. by split.
  - split; [done|]. split; [|exact Est]. apply Hs. by rewrite Est.
Qed.

Lemma push_ok s c : searching s -> c ∈ cs -> cx_name c ∉ incstack (s_q s) -> stack_ok (cx_name c :: incstack (s_q s)).
Proof.
  intros Hs Hc Hni. destruct (sg_stack _ Hs) as [H1 H2]. split; [by constructor|]. intros n [-> |Hn]%elem_of_cons; [by apply list_elem_of_fmap_2|by apply H2].
Qed.

(** The names of contexts that are not checked are not on the stack. *)
Lemma unchecked st name c : stack_ok st -> existsb (fun n => same_name n name) st = false -> (length name <= 255)%nat ->
  find_context cs name = Some c -> cx_name c ∉ st.
Proof.
  intros _ He Hlen Hf Hin. apply find_context_in in Hf as [_ Hn]. rewrite take_ge in Hn by done. rewrite Hn in Hin.
  assert (existsb (fun n => same_name n name) st = true); [|congruence].
  apply existsb_exists. exists name. split; [by apply list_elem_of_In|]. unfold same_name. by apply bool_decide_eq_true.
Qed.

(** A name that leads nowhere new. *)
Lemma searched_nothing s name : searching s -> swo (s_q s) = None ->
  ((length cs <= AST_PBX_MAX_STACK)%nat -> forall d, find_context cs name = Some d -> cx_name d ∈ incstack (s_q s)) ->
  searched (incstack (s_q s)) (eq name) None s.
Proof.
  intros Hs Hswo H. exists []. split; [done|]. do 3 (split; [apply Hs|]). split; [done|]. split; [done|]. intros Hb.
  split; [apply explored_refl|]. intros ? d <- Hf. by apply H.
Qed.

Lemma find_searched fuel : forall s name, (0 < fuel)%nat -> (AST_PBX_MAX_STACK < length (incstack (s_q s)) + fuel)%nat ->
  searching s -> (length name <= 255)%nat ->
  exists r s', find fuel s (Some name) = Ret (r, s') /\ searched (incstack (s_q s)) (eq name) r s'.
Proof.
  induction fuel as [|fuel IH]; intros s name Hpos Hfuel Hs Hname; [lia|].
  cbn [pbx_find_extension]. fold (started s). destruct (started_ok s Hs) as (Hs0 & Hswo & Hst). rewrite <- Hst in Hfuel |- *.
  clear Hs Hst. revert Hs0 Hswo Hfuel. generalize (started s) as s0. clear s. intros s Hs Hswo Hfuel.
  destruct (Nat.leb_spec AST_PBX_MAX_STACK (length (incstack (s_q s)))) as [Hfull|Hroom].
  { eexists _, _. split; [done|]. apply searched_nothing; [done..|]. intros Hb d Hf. apply (stack_full _ name); [apply Hs|lia|done]. }
  assert (Hck : already_checked s (Some name) = Ret (existsb (fun n => same_name n name) (incstack (s_q s)))).
  { unfold already_checked. by destruct (incstack (s_q s)). }
  rewrite Hck. cbn [obind]. destruct (existsb _ _) eqn:Eck.
  { eexists _, _. split; [done|]. apply searched_nothing; [done..|]. intros Hb d Hf. by apply (checked_here _ name); [apply Hs|..]. }
  unfold search_in. rewrite (sg_bypass _ Hs). cbn [oaccess obind].
  pose proof (find_version _ name (sg_contexts _ Hs)) as Hfv. destruct (find_context (s_contexts s) name) as [c'|].
  2:{ eexists _, _. split; [done|]. apply searched_nothing; [done..|]. intros Hb d Hf. congruence. }
  destruct Hfv as (c & Hf & Hv). pose proof (find_context_in _ _ _ Hf) as [Hc _].
  destruct (search_context_ok s (Some name) c c' Hs Hswo Hroom Hc Hv) as (s1 & Hc1 & Hb1 & Hw1 & Hs1 & Hown).
  pose proof (unchecked _ _ _ (sg_stack _ Hs) Eck Hname Hf) as Hni.
  destruct (own c) as [p|] eqn:Eo.
  - destruct Hown as [-> Hi1]. cbn [obind]. eexists _, _. split; [done|]. exists []. split_and!; try done.
    exists name, c. split; [done|]. split; [by apply reach_here|done].
  - destruct Hown as (c'' & -> & Hinc & Hi1). cbn [obind]. rewrite Hinc.
    assert (Hsg : searching s1). { split; [done..| |done]. rewrite Hi1. by apply push_ok. }
    destruct (try_includes_searched (fun s name => find fuel s (Some name)) (includes c) (length (incstack (s_q s1))) s1)
      as (r & s2 & -> & (nn & Hst2 & Hcs2 & Hby2 & Hw2 & Hr2)); try done.
    { intros s2 name2 _ Hlen Hs2 _ Hn2. apply IH; [lia| |done..]. rewrite Hi1 in Hlen. cbn in Hlen. lia. }
    { intros i Hi. by apply (dp_includes Hok c). }
    { by rewrite Hi1. }
    eexists _, _. split; [done|]. exists (nn ++ [cx_name c]). rewrite <- app_assoc. cbn [app]. rewrite <- Hi1. split_and!; try done.
    destruct r as [p|].
    + destruct Hr2 as (n2 & d & (i & v & Hi & <- & Hvi & Hv0) & Hre & Ho). exists name, d. split; [done|]. split; [|done].
      by apply reach_included with c i v.
    + destruct Hr2 as (Hs2 & Hswo2 & Hr2). split_and!; try done. intros Hb. destruct (Hr2 Hb) as [Hex Hin].
      assert (Hcin : cx_name c ∈ incstack (s_q s2)) by (rewrite Hst2, Hi1; apply elem_of_app; right; by left).
      split.
      * intros e He Hein Heni. destruct (decide (cx_name e ∈ incstack (s_q s1))) as [Hin1|Hni1]; [|by apply Hex].
        rewrite Hi1 in Hin1. apply elem_of_cons in Hin1 as [Hn|Hin1]; [|done].
        assert (e = c) as -> by (apply same_context; [done..|]; unfold same_name; apply bool_decide_eq_true; by rewrite Hn).
        split; [done|]. intros i v d Hi Hvi Hv0 Hfd. apply (Hin (in_rname i) d); [|done]. by exists i, v.
      * intros ? d <- Hfd. rewrite Hf in Hfd. by injection Hfd as <-.
Qed.

(** A search through a dialplan ends, whatever includes what, and leaves the exchange
    alone.  What it finds is the priority of an extension that a reachable context has
    itself, where a context is reachable through includes that are valid at the time; and
    when it finds nothing and there are at most 128 contexts, no reachable context has
    anything. *)
Theorem find_extension_searched name : (length name <= 255)%nat ->
  exists r s', find_extension ast_calloc E switches overrideswitch new ast_localtime now cs None w chan (Some name) exten priority label
      callerid action = Ret (r, s') /\
    s_pbx s' = w /\
    match r with
    | Some p => exists c, reach name c /\ own c = Some p
    | None => swo (s_q s') = None /\ ((length cs <= AST_PBX_MAX_STACK)%nat -> forall c, reach name c -> own c = None)
    end.
Proof.
  intros Hname. unfold find_extension. set (s := mk_search cs None w new_find_info).
  assert (Hs : searching s).
  { split; [|done|done| |done]; cbn.
    - apply Forall2_same_length_lookup. split; [done|]. intros i c c' Hc Hc'. left. congruence.
    - split; [constructor|]. intros n Hn. by apply elem_of_nil in Hn. }
  destruct (find_searched (S AST_PBX_MAX_STACK) s name) as (r & s' & -> & (nn & Hst & _ & _ & Hw & Hr)); [lia|cbn; lia|done|done|].
  exists r, s'. split; [done|]. split; [done|]. destruct r as [p|].
  - destruct Hr as (? & c & <- & Hre & Ho). by exists c.
  - destruct Hr as (_ & Hswo & Hr). split; [done|]. intros Hb. destruct (Hr Hb) as [Hex Hin].
    assert (Hd : forall d, find_context cs name = Some d -> cx_name d ∈ incstack (s_q s')) by (intros; by apply (Hin name)).
    intros c Hre. clear Hin Hname Hr. induction Hre as [name c Hf|name c i v d Hf Hi Hv Hv0 _ IH].
    + apply (Hex c); [by apply find_context_in in Hf as []|by apply Hd|apply not_elem_of_nil].
    + apply IH. intros e He. destruct (Hex c) as [_ Hinc]; [by apply find_context_in in Hf as []|by apply Hd|apply not_elem_of_nil|].
      by apply (Hinc i v e).
Qed.
End reachable.
