(* ===== verification/ContextMatch.v ===== *)
(** * Both ways of finding an extension ([main/pbx.c])

    A context is searched through the list of its extensions or through the trie.
    [extenpatternmatchnew] of the exchange says which.  This file shows that for dialplans
    of simple extensions without switches both find the same numbers, through all the includes
    of at most 128 contexts; and what the search does where it is not what its comments say,
    or where there are more contexts, switches, or names that differ in their case only. *)

From S2P Require Import Extension Time Timing PatternNode Trie TrieFind TrieMatch Prelude.
From S2P Require Import DynStr Vars Subst Contexts.
From Stdlib Require Import ZArith Lia.
From stdpp Require Import base list gmap numbers strings.

#[local] Open Scope Z_scope.
#[local] Open Scope outcome_scope.
#[local] Open Scope record_scope.

Section agreement.
Context (ast_calloc : gmap positive match_char -> option positive).
Context (Hfresh : forall m a, ast_calloc m = Some a -> m !! a = None) (Hsome : forall m, ast_calloc m <> None).
Context (E : pbx_env) (switches : list ast_switch).
Context (ast_localtime : timeval -> option str -> ast_tm) (now : timeval).
Context (chan : option nat) (exten : str) (priority : Z) (label callerid : option str) (action : Z).
Context (Hexten : dialled exten) (Haction : complete action).

Definition matches_number (e : ast_exten) : Prop :=
  exists r, extension_match_core_ (ex_exten e) exten E_MATCH = Some r /\ r <> 0.

Abbreviation peer e := (find_peer label priority action e).

(** The extensions of a context are simple, each has the priority that is asked for, and
    the table and the list have the same; the tree is not made yet. *)
Record simple_context (c : context) : Prop := {
  sc_simple : Forall simple_exten (cx_root c);
  sc_peer : Forall (fun e => is_Some (peer e)) (cx_root c);
  sc_table : match root_table c with Some l => l ≡ₚ cx_root c | None => cx_root c = [] end;
  sc_tree : cx_tree c = empty_context
}.

(** What a context has itself, as the search computes it. *)
Definition own (new : bool) (c : context) : option exten_ptr :=
  match make_tree ast_calloc c with
  | Ret c' => match look_in new exten priority label callerid action c' 0 with Ret (Decided e, _) => e | _ => None end
  | _ => None
  end.

(** A priority of an extension of the context that matches, or there is none. *)
Definition own_spec (c : context) (o : option exten_ptr) : Prop :=
  match o with
  | Some (Peer e p) => e ∈ cx_root c /\ matches_number e /\ peer e = Some p
  | Some (Head _) => False
  | None => forall e, e ∈ cx_root c -> ~ matches_number e
  end.

Lemma action_mode p : extension_match_core (Some p) (Some exten) action = extension_match_core_ p exten E_MATCH.
Proof. by destruct Haction as [-> | ->]. Qed.

Lemma not_early : early action = false /\ (action =? E_MATCHMORE) = false.
Proof. by destruct Haction as [-> | ->]. Qed.

Lemma simple_match e : simple_exten e -> exists r, extension_match_core_ (ex_exten e) exten E_MATCH = Some r.
Proof.
  intros He. destruct (simple_exten_row e He) as (pat & ts & _ & _ & H). destruct (H exten Hexten) as (r & Hr & _). by exists r.
Qed.

Lemma list_looks es : Forall simple_exten es -> Forall (fun e => is_Some (peer e)) es ->
  exists o, (forall status, exists status', list_search es exten priority label callerid action status =
      Ret (match o with Some p => Decided (Some p) | None => Undecided end, status')) /\
    match o with
    | Some (Peer e p) => e ∈ es /\ matches_number e /\ peer e = Some p
    | Some (Head _) => False
    | None => forall e, e ∈ es -> ~ matches_number e
    end.
Proof.
  induction es as [|e es IH]; intros Hs Hp.
  { exists None. split; [intros status; by exists status|]. intros e He. by apply elem_of_nil in He. }
  apply Forall_cons in Hs as [He Hs], Hp as [[p Hpe] Hp]. destruct (simple_match e He) as (r & Hr).
  assert (Hcid : ex_matchcid e = false) by apply He. destruct (Z.eqb_spec r 0) as [->|Hr0].
  - destruct (IH Hs Hp) as (o & Hl & Ho). exists o. split.
    + intros status. cbn [list_search]. rewrite action_mode, Hr, Hcid. cbn. apply Hl.
    + destruct o as [[e1 p1|e1]|]; [|done|].
      * destruct Ho as (? & ? & ?). split_and!; [by right|done|done].
      * intros e1 [-> |Hin]%elem_of_cons; [|by apply Ho]. intros (r & Hr' & Hne). congruence.
  - exists (Some (Peer e p)). split; [|split; [by left|split; [by exists r|done]]]. intros status. exists STATUS_SUCCESS.
    cbn [list_search]. rewrite action_mode, Hr, Hcid. cbn [oaccess obind]. rewrite (proj2 (Z.eqb_neq r 0)) by done.
    rewrite (proj2 not_early), !andb_false_r. cbn [andb orb negb obind Z.eqb]. by rewrite Hpe.
Qed.

Lemma made_again l con t : create_match_char_tree ast_calloc empty_context l = Ret con -> Trie.holds con t -> pattern_tree con = None ->
  create_match_char_tree ast_calloc con l = Ret con.
Proof.
  intros Hc Hh Hn. assert (con = empty_context) as ->; [|done]. unfold Trie.holds in Hh. rewrite Hn in Hh. destruct con as [p m]. cbn in *.
  subst p. unfold empty_context. f_equal. inversion Hh as [|]; subst. by apply dom_empty_inv_L.
Qed.

(** The context with its tree. *)
Lemma simple_tree c : simple_context c -> exists c', make_tree ast_calloc c = Ret c' /\ make_tree ast_calloc c' = Ret c' /\
  cx_root c' = cx_root c /\
  exists score, search_trie (cx_tree c') exten callerid (default [] label) action = Ret score /\
    match sb_exten score with
    | None => forall e, e ∈ cx_root c -> ~ matches_number e
    | Some e => e ∈ cx_root c /\ matches_number e
    end.
Proof.
  intros [Hs Hp Ht Hc]. assert (Hempty : pattern_tree (cx_tree c) = None) by (by rewrite Hc).
  unfold make_tree at 1. rewrite Hempty. destruct (root_table c) as [l|] eqn:El.
  - assert (Hsl : Forall simple_exten l) by (by rewrite Ht). rewrite Hc.
    destruct (trie_agrees ast_calloc l exten callerid (default [] label) action Hfresh Hsome Hsl Hexten Haction) as (con & score & Hcr & Hse & Hm).
    rewrite Hcr. cbn [obind]. eexists. split; [done|]. split; [|split; [done|]].
    + unfold make_tree. cbn. rewrite El. destruct (pattern_tree con) eqn:Ep; [done|].
      destruct (create_ok ast_calloc Hfresh Hsome empty_context TLeaf l holds_empty) as (con' & E' & Hh).
      { eapply Forall_impl; [exact Hsl|]. apply simple_plain. }
      replace con' with con in Hh by congruence. by rewrite (made_again l con _ Hcr Hh Ep).
    + exists score. split; [done|]. destruct (sb_exten score) as [e|].
      * destruct Hm as [He Hm]. split; [by rewrite <- Ht|done].
      * intros e He (r & Hr & Hne). rewrite <- Ht in He. rewrite (Hm e He) in Hr. congruence.
  - exists c. split; [done|]. unfold make_tree. rewrite Hempty, El. split; [done|]. split; [done|].
    rewrite Hc. eexists. split; [by vm_compute|]. cbn. intros e He. rewrite Ht in He. by apply elem_of_nil in He.
Qed.

Lemma simple_looks new c : simple_context c ->
  exists o, looks ast_calloc new exten priority label callerid action c o /\ own_spec c o.
Proof.
  intros Hsc. destruct (simple_tree c Hsc) as (c' & H1 & H2 & Hroot & score & Hse & Hm). destruct Hsc as [Hs Hp _ _].
  destruct new.
  - destruct (sb_exten score) as [e|] eqn:Ee.
    + destruct Hm as [He Hm]. rewrite Forall_forall in Hp. destruct (Hp e He) as [p Hpe].
      exists (Some (Peer e p)). split; [|done]. exists c'. split_and!; [done..|]. intros status. exists STATUS_SUCCESS.
      unfold look_in, tree_search. rewrite Hse. cbn [obind]. unfold trie_verdict. rewrite Ee.
      destruct not_early as [He1 He2]. rewrite He1, He2, !andb_false_r. cbn [andb negb obind]. by rewrite Hpe.
    + exists None. split; [|done]. exists c'. split_and!; [done..|]. intros status. exists status.
      unfold look_in, tree_search. rewrite Hse. cbn [obind]. unfold trie_verdict. rewrite Ee.
      destruct not_early as [He1 He2]. by rewrite He1, He2, !andb_false_r.
  - destruct (list_looks (cx_root c) Hs Hp) as (o & Hl & Ho). exists o. split; [|by destruct o as [[]|]].
    exists c'. split_and!; [done..|]. unfold look_in. by rewrite Hroot.
Qed.

Lemma simple_own new c : simple_context c ->
  looks ast_calloc new exten priority label callerid action c (own new c) /\ own_spec c (own new c).
Proof.
  intros Hsc. destruct (simple_looks new c Hsc) as (o & Hl & Ho). destruct (Hl) as (c' & H1 & H2 & Hlook).
  assert (own new c = o) as ->; [|done]. unfold own. rewrite H1. destruct (Hlook 0) as [st ->]. by destruct o.
Qed.

Context (cs : list context) (w : pbx).

(** A dialplan of simple contexts without switches. *)
Record simple_dialplan : Prop := {
  sd_names : names_distinct cs;
  sd_contexts : Forall simple_context cs;
  sd_alts : Forall (fun c => alts c = []) cs;
  sd_includes c i : c ∈ cs -> i ∈ includes c ->
    (length (in_rname i) <= 255)%nat /\ exists v, include_valid ast_localtime (in_timing i) now = Ret v
}.

Lemma simple_ok new : simple_dialplan ->
  dialplan_ok ast_calloc E switches [] new ast_localtime now chan exten priority label callerid action cs w (own new).
Proof.
  intros [Hn Hc Ha Hi]. rewrite Forall_forall in Hc, Ha. split; [done|by intros s ctx _|done| |].
  - intros c Hin. by apply simple_own, Hc.
  - intros c Hin s ctx _. by rewrite (Ha c Hin).
Qed.

Lemma reach_in name c : reach ast_localtime now cs name c -> c ∈ cs.
Proof. induction 1 as [? ? Hf|]; [by apply find_context_in in Hf as []|done]. Qed.

Abbreviation search new name :=
  (find_extension ast_calloc E switches [] new ast_localtime now cs None w chan (Some name) exten priority label callerid action).

(** C1: in a dialplan without switches, of simple extensions that all have the priority, with
    no more contexts than fit on the stack and names that differ by more than the case of
    their letters, the search by the lists of extensions and the search by the tries end, and
    find an extension for the same numbers.  Each finds one that matches, in a context that is
    reachable, and nothing only if no extension of a reachable context matches. *)
Theorem searches_agree name : simple_dialplan -> (length name <= 255)%nat -> (length cs <= AST_PBX_MAX_STACK)%nat ->
  exists by_list by_tree s1 s2, search false name = Ret (by_list, s1) /\ search true name = Ret (by_tree, s2) /\
    (is_Some by_list <-> is_Some by_tree) /\
    forall r, r ∈ [by_list; by_tree] ->
      match r with
      | Some (Peer e p) => peer e = Some p /\ matches_number e /\ exists c, reach ast_localtime now cs name c /\ e ∈ cx_root c
      | Some (Head _) => False
      | None => forall c e, reach ast_localtime now cs name c -> e ∈ cx_root c -> ~ matches_number e
      end.
Proof.
  intros Hd Hname Hlen. pose proof (simple_ok false Hd) as H1. pose proof (simple_ok true Hd) as H2.
  destruct (find_extension_searched _ _ _ _ _ _ _ _ _ _ _ _ _ _ _ _ H1 name Hname) as (r1 & s1 & E1 & _ & R1).
  destruct (find_extension_searched _ _ _ _ _ _ _ _ _ _ _ _ _ _ _ _ H2 name Hname) as (r2 & s2 & E2 & _ & R2).
  assert (Hown : forall new c, reach ast_localtime now cs name c -> own_spec c (own new c)).
  { intros new c Hre. apply simple_own. pose proof (sd_contexts Hd) as Hc. rewrite Forall_forall in Hc. by apply Hc, (reach_in name). }
  assert (Hspec : forall new r s,
    match r with Some p => exists c, reach ast_localtime now cs name c /\ own new c = Some p
               | None => swo s = None /\ ((length cs <= AST_PBX_MAX_STACK)%nat -> forall c, reach ast_localtime now cs name c -> own new c = None) end ->
    match r with
    | Some (Peer e p) => peer e = Some p /\ matches_number e /\ exists c, reach ast_localtime now cs name c /\ e ∈ cx_root c
    | Some (Head _) => False
    | None => forall c e, reach ast_localtime now cs name c -> e ∈ cx_root c -> ~ matches_number e
    end).
  { intros new [[e p|e]|] s Hr.
    - destruct Hr as (c & Hre & Ho). specialize (Hown new c Hre). rewrite Ho in Hown. destruct Hown as (? & ? & ?). eauto 10.
    - destruct Hr as (c & Hre & Ho). specialize (Hown new c Hre). by rewrite Ho in Hown.
    - intros c e Hre. specialize (Hown new c Hre). rewrite (proj2 Hr Hlen c Hre) in Hown. apply Hown. }
  apply Hspec in R1, R2. exists r1, r2, s1, s2. split; [done|]. split; [done|]. split.
  - destruct r1 as [[e1 p1|]|], r2 as [[e2 p2|]|]; try done; split; intros [? ?]; try done; exfalso.
    + destruct R1 as (_ & Hm & c & Hre & He). by apply (R2 c e1).
    + destruct R2 as (_ & Hm & c & Hre & He). by apply (R1 c e2).
  - intros r [-> |[-> |Hr]%elem_of_cons]%elem_of_cons; [done..|]. by apply elem_of_nil in Hr.
Qed.
End agreement.

(** ** Whether an extension exists *)

(** C4: in a dialplan with no more contexts than fit on the stack, with names that differ by
    more than the case of their letters and switches that do not answer,
    [ast_exists_extension] ends with -1 or 0, also when contexts include each other: -1
    exactly if a context that is reachable from the given one through includes that are valid
    at the time has the priority of an extension itself. *)
Theorem ast_exists_extension_correct ast_calloc E switches overrideswitch new ast_localtime now findapp chan exten priority callerid
    cs w own name :
  dialplan_ok ast_calloc E switches overrideswitch new ast_localtime now chan exten priority None callerid E_MATCH cs w own ->
  (length name <= 255)%nat -> (length cs <= AST_PBX_MAX_STACK)%nat ->
  exists r found s, ast_exists_extension ast_calloc E switches overrideswitch new ast_localtime now findapp cs w chan (Some name) exten
      priority callerid = Ret (r, found, s) /\
    s_pbx s = w /\ r = (if found : bool then -1 else 0) /\
    (found = true <-> exists c p, reach ast_localtime now cs name c /\ own c = Some p).
Proof.
  intros Hok Hname Hlen. unfold ast_exists_extension, pbx_extension_helper.
  destruct (find_extension_searched _ _ _ _ _ _ _ _ _ _ _ _ _ _ _ _ Hok name Hname) as (r & s & -> & Hw & Hr). cbn [obind].
  destruct r as [p|].
  - exists (-1), true, s. split_and!; try done. split; [|done]. intros _. destruct Hr as (c & Hre & Ho). by exists c, p.
  - destruct Hr as (Hswo & Hr). rewrite Hswo. exists 0, false, s. split_and!; try done. split; [done|].
    intros (c & p & Hre & Ho). rewrite (Hr Hlen c Hre) in Ho. done.
Qed.

(** ** A dialplan *)

Definition sample_include (name : str) : ast_include := mk_include name name [] (mk_timing 0 0 0 0 (replicate 48 0) TzNull).

Definition noop_exten (exten : str) : ast_exten := mk_exten exten false [] [mk_peer 1 None (zs "NoOp") None []] [].

Definition sample_context (name : str) (extens : list str) (included : list str) : context :=
  mk_cx name (noop_exten <$> extens) (Some (noop_exten <$> extens)) empty_context (sample_include <$> included) [] [].

(** [default] has [12] and includes [local]; this has [_[2-46]X-N] and includes [more],
    that has [_9.], and [default] again. *)
Definition sample_dialplan : list context :=
  [sample_context (zs "default") [zs "12"] [zs "local"];
   sample_context (zs "local") [zs "_[2-46]X-N"] [zs "more"; zs "default"];
   sample_context (zs "more") [zs "_9."] []].

Lemma sample_extens_simple : Forall simple_exten (noop_exten <$> [zs "12"; zs "_[2-46]X-N"; zs "_9."]).
Proof.
  pose proof ex_simple_simple as H. apply Forall_cons in H as [H1 H]. apply Forall_cons in H as [H2 H]. apply Forall_cons in H as [H3 _].
  by repeat (apply Forall_cons_2; [first [exact H1|exact H2|exact H3]|]).
Qed.

Lemma sample_dialled : dialled (zs "9123").
Proof. split_and!; [discriminate|vm_compute; discriminate|]. repeat constructor; discriminate. Qed.

Lemma sample_dialplan_simple : simple_dialplan ex_clock (mk_tv 0 0) 1 None E_MATCH sample_dialplan.
Proof.
  split.
  - apply (bool_decide_unpack _). vm_compute. exact I.
  - pose proof sample_extens_simple as H. apply Forall_cons in H as [H1 H]. apply Forall_cons in H as [H2 H]. apply Forall_cons in H as [H3 _].
    repeat (apply Forall_cons_2; [split; [by apply Forall_singleton|apply Forall_singleton; eexists; vm_compute; reflexivity|cbn; done|cbn; done]|]). done.
  - by repeat constructor.
  - intros c i Hc Hi. repeat (apply elem_of_cons in Hc as [-> |Hc]); [..|by apply elem_of_nil in Hc];
      repeat (apply elem_of_cons in Hi as [-> |Hi]); try (by apply elem_of_nil in Hi);
      (split; [vm_compute; lia|by exists 1]).
Qed.

(** Not to be unfolded when terms are compared. *)
#[local] Opaque find_extension.

Lemma searches_agree_witness :
  exists by_list by_tree s1 s2,
    find_extension fresh_calloc (sample_env []) [] [] false ex_clock (mk_tv 0 0) sample_dialplan None sample_pbx (Some 0%nat) (Some (zs "default"))
      (zs "9123") 1 None None E_MATCH = Ret (by_list, s1) /\
    find_extension fresh_calloc (sample_env []) [] [] true ex_clock (mk_tv 0 0) sample_dialplan None sample_pbx (Some 0%nat) (Some (zs "default"))
      (zs "9123") 1 None None E_MATCH = Ret (by_tree, s2) /\
    (is_Some by_list <-> is_Some by_tree) /\
    forall r, r ∈ [by_list; by_tree] ->
      match r with
      | Some (Peer e p) => find_peer None 1 E_MATCH e = Some p /\ matches_number (zs "9123") e /\
          exists c, reach ex_clock (mk_tv 0 0) sample_dialplan (zs "default") c /\ e ∈ cx_root c
      | Some (Head _) => False
      | None => forall c e, reach ex_clock (mk_tv 0 0) sample_dialplan (zs "default") c -> e ∈ cx_root c -> ~ matches_number (zs "9123") e
      end.
Proof.
  apply (searches_agree fresh_calloc fresh_calloc_fresh ltac:(discriminate) (sample_env []) [] ex_clock (mk_tv 0 0) (Some 0%nat) (zs "9123") 1
    None None E_MATCH sample_dialled (or_introl eq_refl) sample_dialplan sample_pbx (zs "default") sample_dialplan_simple).
  - vm_compute. lia.
  - vm_compute. lia.
Defined.

Lemma sample_dialplan_ok new : dialplan_ok fresh_calloc (sample_env []) [] [] new ex_clock (mk_tv 0 0) (Some 0%nat) (zs "9123") 1 None None E_MATCH
  sample_dialplan sample_pbx (own fresh_calloc (zs "9123") 1 None None E_MATCH new).
Proof.
  apply simple_ok; [apply fresh_calloc_fresh|discriminate|apply sample_dialled|by left|apply sample_dialplan_simple].
Qed.

Lemma ast_exists_extension_correct_witness :
  exists r found s, ast_exists_extension fresh_calloc (sample_env []) [] [] true ex_clock (mk_tv 0 0) (fun _ => None) sample_dialplan sample_pbx
      (Some 0%nat) (Some (zs "default")) (zs "9123") 1 None = Ret (r, found, s) /\
    s_pbx s = sample_pbx /\ r = (if found : bool then -1 else 0) /\
    (found = true <-> exists c p, reach ex_clock (mk_tv 0 0) sample_dialplan (zs "default") c /\
      own fresh_calloc (zs "9123") 1 None None E_MATCH true c = Some p).
Proof.
  apply (ast_exists_extension_correct fresh_calloc (sample_env []) [] [] true ex_clock (mk_tv 0 0) (fun _ => None) (Some 0%nat) (zs "9123") 1 None
    sample_dialplan sample_pbx (own fresh_calloc (zs "9123") 1 None None E_MATCH true) (zs "default") (sample_dialplan_ok true)).
  - vm_compute. lia.
  - vm_compute. lia.
Defined.

(** ** What the search does besides *)

(** The extension that a search in [cs] finds, with its priority, and the status. *)
Definition finding (new : bool) (cs : list context) (ctx exten : string) (priority action : Z) : option (option (str * Z)) * Z :=
  match find_extension fresh_calloc (sample_env []) [] [] new ex_clock (mk_tv 0 0) cs None sample_pbx None (Some (zs ctx)) (zs exten)
    priority None None action with
  | Ret (r, s) =>
      (Some (match r with Some (Peer e p) => Some (ex_exten e, pr_priority p) | Some (Head e) => Some (ex_exten e, 0) | None => None end),
       q_status (s_q s))
  | _ => (None, 0)
  end.

(** The bound on the stack is said to be one on the depth of includes.  But contexts stay
    on the stack when they are left: of a context with 128 includes without includes of
    their own, the last is not searched. *)
Lemma flat_includes_lost :
  let names n := (fun i => zs "c" ++ decimal (Z.of_nat i)) <$> seq 1 n in
  let dialplan n := sample_context (zs "all") [] (names n) :: ((fun name => sample_context name [] []) <$> names (n - 1)%nat) ++
    [sample_context (zs "c" ++ decimal (Z.of_nat n)) [zs "12"] []] in
  finding false (dialplan 127%nat) "all" "12" 1 E_MATCH = (Some (Some (zs "12", 1)), STATUS_SUCCESS) /\
  finding false (dialplan 128%nat) "all" "12" 1 E_MATCH = (Some None, STATUS_NO_EXTENSION).
Proof. vm_compute. split; reflexivity. Qed.

(** Names of contexts that differ in case only are different names, but not for the check
    for loops: [foo] in [Foo] is not searched. *)
Lemma case_include_skipped :
  let dialplan := [sample_context (zs "Foo") [] [zs "foo"]; sample_context (zs "foo") [zs "12"] []] in
  finding false dialplan "foo" "12" 1 E_MATCH = (Some (Some (zs "12", 1)), STATUS_SUCCESS) /\
  finding false dialplan "Foo" "12" 1 E_MATCH = (Some None, STATUS_NO_EXTENSION).
Proof. vm_compute. split; reflexivity. Qed.

(** That an extension with [!] is all that could match more is final only in the context
    itself: a context that includes it goes on. *)
Lemma matchmore_not_final :
  let first := sample_context (zs "first") [zs "_1!"] [zs "second"] in
  let second := sample_context (zs "second") [zs "_1XX"] [] in
  let both := sample_context (zs "both") [] [zs "first"; zs "second"] in
  finding false [first; second; both] "first" "1" 1 E_MATCHMORE = (Some None, STATUS_NO_EXTENSION) /\
  finding false [first; second; both] "both" "1" 1 E_MATCHMORE = (Some (Some (zs "_1XX", 1)), STATUS_SUCCESS).
Proof. vm_compute. split; reflexivity. Qed.

(** Where the best extension lacks the priority, the list is searched further; in the trie
    the search of the context is over. *)
Lemma priority_falls_through :
  let pattern := mk_exten (zs "_1X") false [] [mk_peer 1 None (zs "NoOp") None []; mk_peer 2 None (zs "NoOp") None []] [] in
  let extens := [noop_exten (zs "12"); pattern] in
  let dialplan := [mk_cx (zs "all") extens (Some extens) empty_context [] [] []] in
  finding false dialplan "all" "12" 2 E_MATCH = (Some (Some (zs "_1X", 2)), STATUS_SUCCESS) /\
  finding true dialplan "all" "12" 2 E_MATCH = (Some None, STATUS_NO_PRIORITY).
Proof. vm_compute. split; reflexivity. Qed.

(** With [ast_findlabel_extension2] the given context is searched again in place of the
    contexts that it includes. *)
Lemma bypass_skips_includes :
  let label := mk_exten (zs "12") false [] [mk_peer 1 (Some (zs "l")) (zs "NoOp") None []] [mk_peer 1 (Some (zs "l")) (zs "NoOp") None []] in
  let dialplan := [sample_context (zs "main") [] [zs "sub"]; mk_cx (zs "sub") [label] (Some [label]) empty_context [] [] []] in
  let result r := match r with Ret (r, found, _) => Some (r, found) | _ => None end in
  result (ast_findlabel_extension fresh_calloc (sample_env []) [] [] false ex_clock (mk_tv 0 0) (fun _ => None) dialplan sample_pbx None
    (Some (zs "main")) (zs "12") (Some (zs "l")) None) = Some (1, true) /\
  result (ast_findlabel_extension2 fresh_calloc (sample_env []) [] [] false ex_clock (mk_tv 0 0) (fun _ => None) dialplan sample_pbx None
    (sample_context (zs "main") [] [zs "sub"]) (zs "12") (Some (zs "l")) None) = Some (-1, false).
Proof. vm_compute. split; reflexivity. Qed.

(** A switch that has the extension but no function to execute it: the warning about it
    does not end [pbx_extension_helper], that calls the function. *)
Lemma spawn_without_exec :
  let asw := mk_switch (zs "S") (Some (fun w _ _ _ _ _ _ => (1, w))) None None None in
  let con := mk_cx (zs "main") [] None empty_context [] [] [mk_sw (zs "S") [] [] false] in
  ast_spawn_extension fresh_calloc (sample_env []) [asw] [] false ex_clock (mk_tv 0 0) (fun _ => None) [con] sample_pbx (Some 0%nat)
    (Some (zs "main")) (zs "12") 1 None = BadAccess.
Proof. vm_compute. reflexivity. Qed.

(** The data of a switch that substitute to 512 characters are ended behind the string of
    512 bytes. *)
Lemma switch_data_overflow :
  let asw := mk_switch (zs "S") (Some (fun w _ _ _ _ _ _ => (1, w))) None None None in
  let con data := mk_cx (zs "main") [] None empty_context [] [] [mk_sw (zs "S") [] (replicate data 97) true] in
  let result r := match r with Ret (r, found, _) => Some (r, found) | _ => None end in
  let ask data := result (ast_exists_extension fresh_calloc (sample_env []) [asw] [] false ex_clock (mk_tv 0 0) (fun _ => None) [con data]
    sample_pbx None (Some (zs "main")) (zs "12") 1 None) in
  ask 511%nat = Some (-1, true) /\ ask 512%nat = None.
Proof. vm_compute. split; reflexivity. Qed.
