(* ===== verification/Dialplan.v ===== *)
(** * Making a dialplan ([main/pbx.c])

    The operations that fill a context: extensions ([ast_add_extension2] and
    [add_priority]), includes, switches and patterns of digits that leave the dial tone on.
    Extensions are added here to a context that has no pattern tree, as when a
    configuration is loaded: the tree is made by the first search.

    Theorems: whatever is added, the list of extensions stays sorted, the table has the
    same extensions and the priorities of each are in order; the context acts as a map from
    extensions, caller ids and priorities to what was registered first, or last if it may
    be replaced; the search of the list finds the first of the order of extensions that
    matches; and what becomes of a label that is used twice. *)

From S2P Require Import Extension Timing Trie TrieFind Prelude.
From S2P Require Import DynStr Vars Subst Contexts.
From Stdlib Require Import ZArith Lia Sorted.
From stdpp Require Import base list gmap numbers strings sorting.

#[local] Open Scope Z_scope.
#[local] Open Scope outcome_scope.
#[local] Open Scope record_scope.

#[export] Instance eta_ast_peer : Eta ast_peer := fun p =>
  mk_peer (pr_priority p) (pr_label p) (pr_app p) (pr_data p) (pr_registrar p).

#[export] Instance eta_ast_exten : Eta ast_exten := fun e =>
  mk_exten (ex_exten e) (ex_matchcid e) (ex_cidmatch e) (ex_peers e) (peer_label_table e).

(** ** Texts *)

(** Blanks outside of brackets are left out; [room] is what is left of the buffer. *)
Fixpoint ext_strncpy_loop (src : str) (room : nat) (insquares : bool) : str :=
  match src, room with
  | [], _ | _, O => []
  | c :: src, S less =>
      if c =? c_open then c :: ext_strncpy_loop src less true
      else if c =? c_close then c :: ext_strncpy_loop src less false
      else if (c =? 32) && negb insquares then ext_strncpy_loop src room insquares
      else c :: ext_strncpy_loop src less insquares
  end.

Definition ext_strncpy (src : str) (len : nat) : str := ext_strncpy_loop src (len - 1) false.

(** ** The order of extensions, and the table *)

(** What the loop over the extensions compares; a comparison of patterns may not end. *)
Definition ocompare (x : option Z) : outcome Z := match x with Some z => Ret z | None => NoFuel end.

Definition exten_cmp (e tmp : ast_exten) : outcome Z :=
  let* res := ocompare (ext_cmp (ex_exten e) (ex_exten tmp)) in
  if res =? 0 then
    if negb (ex_matchcid e) && negb (ex_matchcid tmp) then Ret 0
    else if ex_matchcid tmp && negb (ex_matchcid e) then Ret 1
    else if ex_matchcid e && negb (ex_matchcid tmp) then Ret (-1)
    else ocompare (ext_cmp (ex_cidmatch e) (ex_cidmatch tmp))
  else Ret res.

(** The extensions before the place of [tmp], those from there on, and the last result;
    without extensions behind it that does not matter. *)
Fixpoint scan (tmp : ast_exten) (l : list ast_exten) : outcome (list ast_exten * list ast_exten * Z) :=
  match l with
  | [] => Ret ([], [], 0)
  | e :: rest =>
      let* res := exten_cmp e tmp in
      if res >=? 0 then Ret ([], l, res)
      else let* (pre, post, res) := scan tmp rest in Ret (e :: pre, post, res)
  end.

(** [hashtab_compare_extens] tells that they are equal. *)
Definition same_exten (a b : ast_exten) : bool :=
  bool_decide (ex_exten a = ex_exten b) &&
  (if ex_matchcid a && ex_matchcid b then bool_decide (ex_cidmatch a = ex_cidmatch b)
   else negb (ex_matchcid a) && negb (ex_matchcid b)).

Definition same_label (a b : ast_peer) : bool := bool_decide (default [] (pr_label a) = default [] (pr_label b)).

(** A table is the list of its objects, the last inserted one first: insertion unless there
    is an equal object, and removal of the equal object. *)
Definition insert_safe {A} (same : A -> A -> bool) (x : A) (l : list A) : list A :=
  if existsb (same x) l then l else x :: l.

Fixpoint remove_via_lookup {A} (same : A -> A -> bool) (x : A) (l : list A) : list A :=
  match l with
  | [] => []
  | y :: l => if same x y then l else y :: remove_via_lookup same x l
  end.

Definition is_labelled (p : ast_peer) : bool := is_some (pr_label p).

Definition insert_label (p : ast_peer) (t : list ast_peer) : list ast_peer :=
  if is_labelled p then insert_safe same_label p t else t.

Definition remove_label (p : ast_peer) (t : list ast_peer) : list ast_peer :=
  if is_labelled p then remove_via_lookup same_label p t else t.

(** ** Priorities *)

(** The priorities before the place of a new one, and those from there on. *)
Fixpoint split_peers (priority : Z) (peers : list ast_peer) : list ast_peer * list ast_peer :=
  match peers with
  | [] => ([], [])
  | q :: rest =>
      if pr_priority q >=? priority then ([], peers)
      else let '(before, from) := split_peers priority rest in (q :: before, from)
  end.

(** Another priority among those that are passed has the label. *)
Definition repeated_label (p : ast_peer) (before from : list ast_peer) : bool :=
  existsb (fun q => is_labelled q && is_labelled p && negb (pr_priority q =? pr_priority p) && same_label q p) (before ++ take 1 from).

Inductive hint_call := AddHint (p : ast_peer) | ChangeHint (old new : ast_peer).

(** The object of the table changes with the extension that it is. *)
Definition in_table (e e' : ast_exten) (table : list ast_exten) : list ast_exten :=
  (fun x => if same_exten e x then e' else x) <$> table.

(** [tmp] becomes the first priority of [e]. *)
Definition swap_in_table (e e' : ast_exten) (table : list ast_exten) : list ast_exten :=
  insert_safe same_exten e' (remove_via_lookup same_exten e table).

(** The new priority [p], with the texts of [tmp], of the extension [e]; [first] tells that
    this is the first extension of the context.  The result is the extension and the table,
    and what becomes of a hint; [None] if the priority is there already. *)
Definition add_priority (first replace : bool) (tmp : ast_exten) (p : ast_peer) (e : ast_exten) (table : list ast_exten)
    : option (ast_exten * list ast_exten * option hint_call) :=
  let '(before, from) := split_peers (pr_priority p) (ex_peers e) in
  let p := if repeated_label p before from then p <| pr_label := None |> else p in
  let behind e' := (e', in_table e e' table) in
  match from with
  | [] => Some (behind (e <| ex_peers := before ++ [p] |> <| peer_label_table ::= insert_label p |>), None)
  | q :: rest =>
      if pr_priority q =? pr_priority p then
        if negb replace then None
        else
          let labels := insert_label p (remove_label q (peer_label_table e)) in
          let hint := if pr_priority p =? PRIORITY_HINT then Some (ChangeHint q p) else None in
          match before with
          | _ :: _ => Some (behind (e <| ex_peers := before ++ p :: rest |> <| peer_label_table := labels |>), hint)
          | [] =>
              let e' := mk_exten (ex_exten tmp) (ex_matchcid tmp) (ex_cidmatch tmp) (p :: rest) labels in
              let table := swap_in_table e e' table in
              Some (e', if first then swap_in_table e e' table else table, hint)
          end
      else
        let labels := insert_label p (peer_label_table e) in
        let hint := if pr_priority p =? PRIORITY_HINT then Some (AddHint p) else None in
        match before with
        | _ :: _ => Some (behind (e <| ex_peers := before ++ p :: from |> <| peer_label_table := labels |>), hint)
        | [] =>
            let e' := mk_exten (ex_exten tmp) (ex_matchcid tmp) (ex_cidmatch tmp) (p :: from) labels in
            Some (e', swap_in_table e e' table, hint)
        end
  end.

(** ** Extensions *)

(** The extensions of a context without a tree. *)
Record loading := mk_loading { ld_root : list ast_exten; ld_table : option (list ast_exten) }.

Definition new_context : loading := mk_loading [] None.

(** The new extension, and its priority. *)
Definition new_exten (extension : str) (priority : Z) (label callerid : option str) (application : str) (data : option str)
    (registrar : str) : ast_exten * ast_peer :=
  let label := match label with Some [] => None | _ => label end in
  let text := ext_strncpy extension (S (length extension)) in
  (match callerid with
   | Some cid => mk_exten text true (ext_strncpy cid (S (length cid))) [] []
   | None => mk_exten text false [] [] []
   end, mk_peer priority label application data registrar).

(** The first priority of an extension, between [pre] and [post]. *)
Definition insert_first (tmp : ast_exten) (p : ast_peer) (con : loading) (pre post : list ast_exten) : loading * option hint_call :=
  let e' := tmp <| ex_peers := [p] |> <| peer_label_table := if is_labelled p then [p] else [] |> in
  let table := match ld_table con, pre with None, [] => Some [] | t, _ => t end in
  (mk_loading (pre ++ e' :: post) (insert_safe same_exten e' <$> table), if pr_priority p =? PRIORITY_HINT then Some (AddHint p) else None).

(** The search for the place, and the insertion there; [None] if the priority is there. *)
Definition insert_exten (replace : bool) (tmp : ast_exten) (p : ast_peer) (con : loading) : outcome (option (loading * option hint_call)) :=
  let* (pre, post, res) := scan tmp (ld_root con) in
  match post with
  | e :: rest =>
      if res =? 0 then
        Ret (match add_priority (bool_decide (pre = [])) replace tmp p e (default [] (ld_table con)) with
             | Some (e', table, hint) =>
                 Some (mk_loading (pre ++ e' :: rest) (match ld_table con with Some _ => Some table | None => None end), hint)
             | None => None
             end)
      else Ret (Some (insert_first tmp p con pre post))
  | [] => Ret (Some (insert_first tmp p con pre post))
  end.

(** The variables in the application of a hint are substituted on a channel that is made
    for it, into a buffer of the stack. *)
Definition is_hint_text (extension application : str) (priority : Z) : bool :=
  (priority =? PRIORITY_HINT) && has_reference 123 application && negb (deref extension =? c_under).

Definition hint_text (E : pbx_env) (w : pbx) (name extension application : str) : outcome (str * pbx) :=
  let n := length (channels w) in
  let c := (dummy_channel E) <| ch_exten := take 79 extension |> <| ch_context := take 79 name |> in
  let* (text, used, w) := pbx_substitute_variables_helper_full E (w <| channels ::= fun chs => chs ++ [c] |>) (Some n)
    (Some (varshead c)) application VAR_BUF_SIZE in
  if used <? VAR_BUF_SIZE then Ret (text, w <| channels ::= take n |>) else BadAccess.

(** The return value is 0 also if the priority is there already. *)
Definition ast_add_extension2 (E : pbx_env) (ok : bool) (w : pbx) (name : str) (con : loading) (replace : bool) (extension : str)
    (priority : Z) (label callerid : option str) (application : str) (data : option str) (registrar : str)
    : outcome (Z * loading * option hint_call * pbx) :=
  match extension with
  | [] => Ret (-1, con, None, w)
  | _ =>
      let* (application, w) :=
        (if is_hint_text extension application priority then hint_text E w name extension application else Ret (application, w)) in
      if negb ok then Ret (-1, con, None, w)
      else
        let '(tmp, p) := new_exten extension priority label callerid application data registrar in
        let* r := insert_exten replace tmp p con in
        match r with
        | Some (con, hint) => Ret (0, con, hint, w)
        | None => Ret (0, con, None, w)
        end
  end.

(** ** Includes, switches and ignored patterns *)

(** An entry goes behind the others, unless one of the same name is there. *)
Definition add_last {A} (same : A -> A -> bool) (x : A) (l : list A) : Z * list A :=
  if existsb (fun y => same y x) l then (-1, l) else (0, l ++ [x]).

(** The first entry that is meant is removed. *)
Fixpoint remove_meant {A} (meant : A -> bool) (l : list A) : Z * list A :=
  match l with
  | [] => (-1, [])
  | x :: l => if meant x then (0, l) else let '(ret, l) := remove_meant meant l in (ret, x :: l)
  end.

Definition registered_by (registrar : option str) (r : str) : bool :=
  match registrar with None => true | Some s => bool_decide (r = s) end.

Definition ast_context_add_include2 (ok ok_build : bool) (con : context) (value registrar : str) : outcome (Z * context) :=
  if negb ok then Ret (-1, con)
  else
    let* (rname, timing) := include_timing ok_build value in
    let '(ret, l) := add_last (fun a b => same_name (in_name a) (in_name b)) (mk_include value rname registrar timing) (includes con) in
    Ret (ret, con <| includes := l |>).

Definition ast_context_remove_include2 (con : context) (include : str) (registrar : option str) : Z * context :=
  let '(ret, l) := remove_meant (fun i => bool_decide (in_name i = include) && registered_by registrar (in_registrar i)) (includes con) in
  (ret, con <| includes := l |>).

Definition ast_context_add_switch2 (ok : bool) (con : context) (value : str) (data : option str) (eval : bool) (registrar : str) : Z * context :=
  if negb ok then (-1, con)
  else
    let '(ret, l) := add_last (fun a b => same_name (sw_name a) (sw_name b) && same_name (sw_data a) (sw_data b))
      (mk_sw value registrar (default [] data) eval) (alts con) in
    (ret, con <| alts := l |>).

Definition ast_context_remove_switch2 (con : context) (sw data : str) (registrar : option str) : Z * context :=
  let '(ret, l) := remove_meant (fun i => bool_decide (sw_name i = sw) && bool_decide (sw_data i = data) &&
      registered_by registrar (sw_registrar i)) (alts con) in
  (ret, con <| alts := l |>).

(** Registrars of patterns are compared as pointers. *)
Definition ast_context_add_ignorepat2 (ok : bool) (con : context) (value : str) (registrar : ptr) : Z * context :=
  if negb ok then (-1, con)
  else
    let '(ret, l) := add_last (fun a b => same_name (fst a) (fst b)) (value, registrar) (ignorepats con) in
    (ret, con <| ignorepats := l |>).

Definition ast_context_remove_ignorepat2 (con : context) (ignorepat : str) (registrar : ptr) : Z * context :=
  let '(ret, l) := remove_meant (fun ip => bool_decide (fst ip = ignorepat) && ((registrar =? NULL) || (registrar =? snd ip)))
    (ignorepats con) in
  (ret, con <| ignorepats := l |>).

(** ** Lists *)

Section lists.
Context {A : Type}.

Lemma find_skip (f : A -> bool) pre x l : f x = false -> List.find f (pre ++ x :: l) = List.find f (pre ++ l).
Proof. intros Hx. induction pre as [|y pre IH]; cbn; [by rewrite Hx|]. by rewrite IH. Qed.

Lemma find_here (f : A -> bool) pre x l : Forall (fun y => f y = false) pre -> f x = true -> List.find f (pre ++ x :: l) = Some x.
Proof. intros Hp Hx. induction Hp as [|y pre Hy _ IH]; cbn; [by rewrite Hx|]. by rewrite Hy. Qed.

Lemma find_nothing (f : A -> bool) l : Forall (fun y => f y = false) l -> List.find f l = None.
Proof. induction 1 as [|y l Hy _ IH]; cbn; [done|]. by rewrite Hy. Qed.

Context (same : A -> A -> bool).

Lemma remove_nothing x l : (forall y, y ∈ l -> same x y = false) -> remove_via_lookup same x l = l.
Proof.
  induction l as [|y l IH]; intros H; cbn; [done|]. rewrite (H y) by (by left). by rewrite IH by (intros; apply H; by right).
Qed.

Lemma remove_elem x l y : y ∈ remove_via_lookup same x l -> y ∈ l.
Proof.
  induction l as [|z l IH]; cbn; [done|]. case_if; [by right|]. intros [-> |H]%elem_of_cons; [by left|right; auto].
Qed.

Lemma remove_perm x z l l' : same x z = true -> (forall y, y ∈ l' -> same x y = false) -> l ≡ₚ z :: l' -> remove_via_lookup same x l ≡ₚ l'.
Proof.
  intros Hz. revert l'. induction l as [|y l IH]; intros l' Hl' Hp; [by apply Permutation_nil_cons in Hp|]. cbn.
  assert (Hy : y ∈ z :: l') by (rewrite <- Hp; by left). destruct (same x y) eqn:E.
  - apply elem_of_cons in Hy as [-> |Hy]; [by apply Permutation_cons_inv in Hp|]. by rewrite Hl' in E.
  - apply elem_of_cons in Hy as [-> |Hy]; [congruence|].
    apply list_elem_of_split in Hy as (l1 & l2 & ->). rewrite <- Permutation_middle. apply perm_skip, IH.
    + intros t Ht. apply Hl'. rewrite elem_of_app in *. rewrite elem_of_cons. tauto.
    + apply (Permutation_cons_inv (a := y)). rewrite Hp, <- (Permutation_middle l1 l2 y). apply perm_swap.
Qed.

Lemma insert_new x l : (forall y, y ∈ l -> same x y = false) -> insert_safe same x l = x :: l.
Proof.
  intros H. unfold insert_safe. destruct (existsb _ l) eqn:E; [|done]. apply existsb_exists in E as (y & Hy & Hs).
  apply list_elem_of_In in Hy. by rewrite H in Hs.
Qed.

Lemma insert_elem x l y : y ∈ insert_safe same x l -> y = x \/ y ∈ l.
Proof. unfold insert_safe. case_if; [by right|]. by rewrite elem_of_cons. Qed.
End lists.

(** ** The order *)

Definition cid_key (e : ast_exten) : (list Z + list (Z * list Z)) + list Z :=
  if ex_matchcid e then inl (ext_key (ex_cidmatch e)) else inr [].

Definition exten_key (e : ast_exten) := (ext_key (ex_exten e), cid_key e).

Definition exten_compare := pair_compare key_compare (sum_compare key_compare (lex_compare Z.compare)).

#[local] Instance exten_total : TotalCompare exten_compare.
Proof.
  pose proof key_total. pose proof (lex_total Z.compare). pose proof (sum_total key_compare (lex_compare Z.compare)).
  exact (pair_total key_compare _).
Qed.

Abbreviation compares e e' := (exten_compare (exten_key e) (exten_key e')).

Definition exten_ok (e : ast_exten) : Prop := ascii7 (ex_exten e) /\ ascii7 (ex_cidmatch e).

Lemma ext_cmp_key a b : ascii7 a -> ascii7 b -> exists z, ext_cmp a b = Some z /\ Z.sgn z = sign_of (key_compare (ext_key a) (ext_key b)).
Proof.
  intros Ha Hb. pose proof (ast_extension_cmp_key a b Ha Hb) as H. unfold ast_extension_cmp in H.
  destruct (ext_cmp a b) as [z|]; [|done]. exists z. split; [done|]. injection H as <-. rewrite Z.gtb_ltb.
  destruct (Z.ltb_spec z 0), (Z.ltb_spec 0 z); lia.
Qed.

Lemma exten_cmp_key e tmp : exten_ok e -> exten_ok tmp -> exists z, exten_cmp e tmp = Ret z /\ Z.sgn z = sign_of (compares e tmp).
Proof.
  intros [He1 He2] [Ht1 Ht2]. unfold exten_cmp, exten_compare, pair_compare, exten_key, cid_key. cbn [fst snd].
  destruct (ext_cmp_key _ _ He1 Ht1) as (z & -> & Hz). cbn [ocompare obind]. destruct (Z.eqb_spec z 0) as [->|Hne].
  - destruct (key_compare _ _); try done. destruct (ex_matchcid e), (ex_matchcid tmp); cbn [negb andb sum_compare].
    + destruct (ext_cmp_key _ _ He2 Ht2) as (y & -> & Hy). by exists y.
    + by exists (-1).
    + by exists 1.
    + by exists 0.
  - exists z. split; [done|]. destruct (key_compare _ _); cbn in *; try done. lia.
Qed.

Lemma same_exten_refl e : same_exten e e = true.
Proof. unfold same_exten. rewrite !bool_decide_eq_true_2 by done. by destruct (ex_matchcid e). Qed.

Lemma same_exten_key a b : same_exten a b = true -> exten_key a = exten_key b.
Proof.
  unfold same_exten, exten_key, cid_key. intros [H1%bool_decide_eq_true H2]%andb_true_iff. rewrite H1. f_equal.
  destruct (ex_matchcid a), (ex_matchcid b); cbn in H2; try done. apply bool_decide_eq_true in H2. by rewrite H2.
Qed.

Lemma other_exten a b : exten_key a <> exten_key b -> same_exten a b = false.
Proof. intros H. destruct (same_exten a b) eqn:E; [|done]. by apply same_exten_key in E. Qed.

Lemma compares_key_l a a' b : exten_key a = exten_key a' -> compares a b = compares a' b.
Proof. by intros ->. Qed.

(** ** Contexts that are well-formed *)

Definition peers_sorted : list ast_peer -> Prop := StronglySorted (fun p q => pr_priority p < pr_priority q).

Definition exten_before (a b : ast_exten) : Prop := compares a b = Lt.

Record peers_ok (e : ast_exten) : Prop := {
  pk_some : ex_peers e <> [];
  pk_sorted : peers_sorted (ex_peers e);
  pk_labels p : p ∈ peer_label_table e -> p ∈ ex_peers e /\ is_labelled p = true;
  pk_distinct : NoDup (pr_label <$> peer_label_table e)
}.

Record loading_ok (con : loading) : Prop := {
  lo_ascii : Forall exten_ok (ld_root con);
  lo_peers : Forall peers_ok (ld_root con);
  lo_sorted : StronglySorted exten_before (ld_root con);
  lo_table : match ld_table con with Some t => t ≡ₚ ld_root con | None => ld_root con = [] end
}.

(** What is registered for an extension, up to the order, and a priority. *)
Definition priority_of (priority : Z) (peers : list ast_peer) : option ast_peer := List.find (fun p => pr_priority p =? priority) peers.

Definition extension_of (e : ast_exten) (l : list ast_exten) : option ast_exten :=
  List.find (fun x => bool_decide (exten_key x = exten_key e)) l.

Definition registered (l : list ast_exten) (e : ast_exten) (priority : Z) : option ast_peer :=
  x ← extension_of e l; priority_of priority (ex_peers x).

(** ** The place *)

Lemma scan_place tmp l : exten_ok tmp -> Forall exten_ok l -> StronglySorted exten_before l ->
  exists pre post res, scan tmp l = Ret (pre, post, res) /\ l = pre ++ post /\ Forall (fun e => compares e tmp = Lt) pre /\
    match post with
    | [] => True
    | e :: rest => Z.sgn res = sign_of (compares e tmp) /\ compares e tmp <> Lt /\ Forall (fun x => compares x tmp = Gt) rest
    end.
Proof.
  intros Ht. induction l as [|e l IH]; intros Hl Hs; [by exists [], [], 0|].
  apply Forall_cons in Hl as [He Hl]. apply StronglySorted_cons in Hs as [Hb Hs]. cbn [scan].
  destruct (exten_cmp_key e tmp He Ht) as (z & -> & Hz). cbn [obind]. rewrite Z.geb_leb. destruct (Z.leb_spec 0 z) as [Hz0|Hz0].
  - exists [], (e :: l), z. split_and!; try done.
    + intros Hc. rewrite Hc in Hz. cbn in Hz. lia.
    + eapply Forall_impl; [exact Hb|]. intros x Hx. unfold exten_before in Hx. rewrite compare_opp.
      assert (H : exten_compare (exten_key tmp) (exten_key x) = Lt); [|by rewrite H].
      destruct (compares e tmp) eqn:Ec; [apply compare_eq in Ec as <-; done|cbn in Hz; lia|].
      apply (compare_trans _ (exten_key e)); [|done]. by rewrite compare_opp, Ec.
  - destruct (IH Hl Hs) as (pre & post & res & -> & -> & Hp & Hpost). cbn [obind]. exists (e :: pre), post, res. split_and!; try done.
    constructor; [|done]. destruct (compares e tmp); cbn in Hz; lia || done.
Qed.

(** ** Priorities *)

Lemma split_peers_spec n peers before from : peers_sorted peers -> split_peers n peers = (before, from) ->
  peers = before ++ from /\ Forall (fun q => pr_priority q < n) before /\
  match from with [] => True | q :: rest => n <= pr_priority q /\ Forall (fun x => n < pr_priority x) rest end.
Proof.
  intros Hs. revert before from. induction peers as [|q peers IH]; intros before from; [by intros [= <- <-]|].
  apply StronglySorted_cons in Hs as [Hq Hs]. cbn [split_peers]. rewrite Z.geb_leb. destruct (Z.leb_spec n (pr_priority q)).
  - intros [= <- <-]. split; [done|]. split; [done|]. split; [done|]. eapply Forall_impl; [exact Hq|]. cbn. lia.
  - destruct (split_peers n peers) as [b f]. intros [= <- <-]. destruct (IH Hs b f eq_refl) as (-> & Hb & Hf). split; [done|].
    by split; [constructor|].
Qed.

Lemma same_label_refl p : same_label p p = true.
Proof. by apply bool_decide_eq_true. Qed.

Lemma same_label_eq p q : is_labelled p = true -> is_labelled q = true -> same_label p q = true -> pr_label p = pr_label q.
Proof.
  unfold is_labelled, same_label. destruct (pr_label p), (pr_label q); cbn; try done. intros _ _ H. apply bool_decide_eq_true in H. by subst.
Qed.

(** The tables of labels. *)
Definition labels_ok (peers labels : list ast_peer) : Prop :=
  (forall p, p ∈ labels -> p ∈ peers /\ is_labelled p = true) /\ NoDup (pr_label <$> labels).

Lemma insert_label_ok p peers labels : labels_ok peers labels -> p ∈ peers -> labels_ok peers (insert_label p labels).
Proof.
  intros [Hin Hnd] Hp. unfold insert_label. destruct (is_labelled p) eqn:El; [|done]. unfold insert_safe.
  destruct (existsb (same_label p) labels) eqn:E; [done|]. split; [intros q [-> |Hq]%elem_of_cons; [done|by apply Hin]|].
  rewrite fmap_cons. constructor; [|done]. intros (q & Hq & Hql)%list_elem_of_fmap.
  assert (existsb (same_label p) labels = true); [|congruence]. apply existsb_exists. exists q. split; [by apply list_elem_of_In|].
  unfold same_label. by rewrite Hq, bool_decide_eq_true.
Qed.

Lemma remove_labelled q labels : is_labelled q = true -> (forall p, p ∈ labels -> is_labelled p = true) -> NoDup (pr_label <$> labels) ->
  NoDup (pr_label <$> remove_via_lookup same_label q labels) /\
  forall p, p ∈ remove_via_lookup same_label q labels -> pr_label p <> pr_label q.
Proof.
  intros Hq. induction labels as [|x labels IH]; intros Hl Hnd; [split; [constructor|intros p Hp; by apply elem_of_nil in Hp]|].
  rewrite fmap_cons in Hnd. apply NoDup_cons in Hnd as [Hx Hnd]. cbn [remove_via_lookup].
  assert (Hlx : is_labelled x = true) by (apply Hl; by left). destruct (same_label q x) eqn:E.
  - split; [done|]. intros p Hp Heq. apply Hx. rewrite <- (same_label_eq q x Hq Hlx E), <- Heq. by apply list_elem_of_fmap_2.
  - destruct IH as [H1 H2]; [intros; apply Hl; by right|done|]. split.
    + rewrite fmap_cons. constructor; [|done]. intros (p & Hp & Hin)%list_elem_of_fmap. apply Hx. rewrite Hp.
      apply list_elem_of_fmap_2. by apply remove_elem in Hin.
    + intros p [-> |Hp]%elem_of_cons; [|by apply H2]. intros Heq. unfold same_label in E. rewrite Heq in E.
      by apply bool_decide_eq_false in E.
Qed.

Lemma remove_label_ok q peers labels : labels_ok peers labels ->
  NoDup (pr_label <$> remove_label q labels) /\ forall p, p ∈ remove_label q labels -> p <> q /\ p ∈ peers /\ is_labelled p = true.
Proof.
  intros [Hin Hnd]. unfold remove_label. destruct (is_labelled q) eqn:El.
  - destruct (remove_labelled q labels El) as [H1 H2]; [intros p Hp; by apply Hin|done|]. split; [done|]. intros p Hp.
    split; [intros ->; by apply (H2 q Hp)|]. by apply Hin, (remove_elem same_label q).
  - split; [done|]. intros p Hp. apply Hin in Hp as [H1 H2]. split; [|done]. congruence.
Qed.

(** A list of priorities in which [p] is put, in place of [old] if there is one. *)
Lemma peers_with p before old rest e' : Forall (fun q => pr_priority q < pr_priority p) before ->
  Forall (fun q => pr_priority p < pr_priority q) rest -> Forall (fun q => pr_priority q = pr_priority p) old -> tail old = [] ->
  peers_sorted (before ++ old ++ rest) -> ex_peers e' = before ++ p :: rest -> labels_ok (ex_peers e') (peer_label_table e') ->
  peers_ok e' /\ forall n, priority_of n (ex_peers e') = if n =? pr_priority p then Some p else priority_of n (before ++ old ++ rest).
Proof.
  intros Hb Hr Ho Hlen Hs He [Hl Hnd]. split; [split|]; [by rewrite He; destruct before| |done|done|].
  - rewrite He. apply StronglySorted_app in Hs as (H1 & H2 & H3). apply StronglySorted_app in H3 as (_ & _ & H3).
    apply StronglySorted_app. split_and!; [|done|by apply StronglySorted_cons].
    intros x y Hx [-> |Hy]%elem_of_cons; [rewrite Forall_forall in Hb; by apply Hb|]. apply H1; [done|]. apply elem_of_app. by right.
  - intros n. rewrite He. unfold priority_of. destruct (Z.eqb_spec n (pr_priority p)) as [->|Hne].
    + apply find_here; [|apply Z.eqb_refl]. eapply Forall_impl; [exact Hb|]. cbn. intros. apply Z.eqb_neq. lia.
    + rewrite find_skip by (apply Z.eqb_neq; congruence). destruct old as [|q [|]]; [done| |done].
      apply Forall_inv in Ho. cbn. rewrite find_skip; [done|]. apply Z.eqb_neq. congruence.
Qed.

(** *** The table *)

Lemma in_table_perm e e' pre rest table : table ≡ₚ pre ++ e :: rest -> Forall (fun x => exten_key x <> exten_key e) (pre ++ rest) ->
  in_table e e' table ≡ₚ pre ++ e' :: rest.
Proof.
  intros Hp Hne. unfold in_table. rewrite Hp, fmap_app, fmap_cons, same_exten_refl. apply Forall_app in Hne as [H1 H2].
  assert (H : forall l, Forall (fun x => exten_key x <> exten_key e) l -> (fun x => if same_exten e x then e' else x) <$> l = l).
  { induction 1 as [|x l Hx _ IH]; [done|]. rewrite fmap_cons, IH, other_exten by congruence. done. }
  by rewrite !H.
Qed.

(** [z] is what the table has for [e]: [e], or its successor already. *)
Lemma swap_in_table_perm e z e' l table : same_exten e z = true -> table ≡ₚ z :: l -> Forall (fun x => exten_key x <> exten_key e) l ->
  exten_key e' = exten_key e -> swap_in_table e e' table ≡ₚ e' :: l.
Proof.
  intros Hz Hp Hne Hk. unfold swap_in_table. rewrite Forall_forall in Hne.
  assert (Hr : remove_via_lookup same_exten e table ≡ₚ l).
  { apply (remove_perm _ e z); [done| |done]. intros y Hy. apply other_exten. apply not_eq_sym. by apply Hne. }
  rewrite insert_new; [by constructor|]. intros y Hy. rewrite Hr in Hy. apply other_exten. rewrite Hk. intros Heq. by apply (Hne y).
Qed.

(** Done again, this changes nothing but the order. *)
Lemma swap_again e e' l table : table ≡ₚ e' :: l -> Forall (fun x => exten_key x <> exten_key e) l -> exten_key e' = exten_key e ->
  swap_in_table e e' table ≡ₚ e' :: l.
Proof.
  intros Hp Hne Hk. destruct (same_exten e e') eqn:E; [by apply (swap_in_table_perm e e')|].
  unfold swap_in_table. rewrite remove_nothing.
  - unfold insert_safe. assert (existsb (same_exten e') table = true) as ->; [|done]. apply existsb_exists. exists e'.
    split; [|apply same_exten_refl]. apply list_elem_of_In. rewrite Hp. by left.
  - intros y Hy. rewrite Hp in Hy. apply elem_of_cons in Hy as [-> |Hy]; [done|]. apply other_exten. apply not_eq_sym.
    rewrite Forall_forall in Hne. by apply Hne.
Qed.

(** What is stored for [p]: its label is left out if another priority of the extension
    that comes before, or in its place, has it. *)
Definition stored (peers : list ast_peer) (p p' : ast_peer) : Prop :=
  p' = p \/ p' = p <| pr_label := None |> /\
    exists q, q ∈ peers /\ pr_priority q <> pr_priority p /\ is_Some (pr_label q) /\ pr_label q = pr_label p.

Lemma stored_label p before from :
  let p' := if repeated_label p before from then p <| pr_label := None |> else p in stored (before ++ from) p p' /\ pr_priority p' = pr_priority p.
Proof.
  unfold repeated_label, stored. destruct (existsb _ _) eqn:E; [|by split; [left|]]. split; [|done]. right. split; [done|].
  apply existsb_exists in E as (q & Hq & Hs). apply list_elem_of_In in Hq.
  apply andb_true_iff in Hs as [Hs H4]. apply andb_true_iff in Hs as [Hs H3]. apply andb_true_iff in Hs as [H1 H2]. zb.
  exists q. split_and!; [|done| |by apply same_label_eq].
  - apply elem_of_app in Hq as [Hq|Hq]; apply elem_of_app; [by left|right]. by eapply elem_of_take in Hq as (? & ? & _); eapply list_elem_of_lookup_2.
  - unfold is_labelled in H1. destruct (pr_label q); [by eexists|done].
Qed.

Lemma priority_there n before q rest : Forall (fun x => pr_priority x < n) before -> pr_priority q = n ->
  priority_of n (before ++ q :: rest) = Some q.
Proof.
  intros Hb Hq. apply find_here; [|by apply Z.eqb_eq]. eapply Forall_impl; [exact Hb|]. cbn. intros. apply Z.eqb_neq. lia.
Qed.

Lemma priority_missing n l : Forall (fun x => pr_priority x <> n) l -> priority_of n l = None.
Proof. intros H. apply find_nothing. eapply Forall_impl; [exact H|]. cbn. intros. by apply Z.eqb_neq. Qed.

Lemma labels_grow peers peers' labels : labels_ok peers labels -> (forall p, p ∈ peers -> p ∈ peers') -> labels_ok peers' labels.
Proof. intros [H1 H2] Hsub. split; [|done]. intros p Hp. destruct (H1 p Hp). auto. Qed.

(** One extension, after a priority is added to it. *)
Record with_priority (e e' : ast_exten) (p p' : ast_peer) : Prop := {
  wp_ok : peers_ok e';
  wp_key : exten_key e' = exten_key e;
  wp_stored : stored (ex_peers e) p p';
  wp_map n : priority_of n (ex_peers e') = if n =? pr_priority p then Some p' else priority_of n (ex_peers e)
}.

Lemma with_priority_intro p before old rest e e' p' : Forall (fun q => pr_priority q < pr_priority p) before ->
  Forall (fun q => pr_priority p < pr_priority q) rest -> Forall (fun q => pr_priority q = pr_priority p) old -> tail old = [] ->
  pr_priority p' = pr_priority p -> stored (ex_peers e) p p' ->
  peers_sorted (ex_peers e) -> ex_peers e = before ++ old ++ rest -> exten_key e' = exten_key e -> ex_peers e' = before ++ p' :: rest ->
  labels_ok (ex_peers e') (peer_label_table e') -> with_priority e e' p p'.
Proof.
  intros Hb Hr Ho Hlen Hp' Hst Hs He Hk He' Hl. rewrite <- Hp' in Hb, Hr, Ho. rewrite He in Hs.
  destruct (peers_with p' before old rest e' Hb Hr Ho Hlen Hs He' Hl) as [H1 H2]. split; [done..|]. intros n. by rewrite H2, <- He, Hp'.
Qed.

Lemma add_priority_spec first replace tmp p e table pre rest : exten_ok e -> exten_ok tmp -> peers_ok e ->
  table ≡ₚ pre ++ e :: rest -> Forall (fun x => exten_key x <> exten_key e) (pre ++ rest) -> exten_key e = exten_key tmp ->
  match priority_of (pr_priority p) (ex_peers e), replace with
  | Some _, false => add_priority first replace tmp p e table = None
  | _, _ => exists e' table' hint p', add_priority first replace tmp p e table = Some (e', table', hint) /\
      exten_ok e' /\ with_priority e e' p p' /\ table' ≡ₚ pre ++ e' :: rest
  end.
Proof.
  intros He Htmp [_ Hs Hl Hnd] Ht Hne Hk. assert (Hlab : labels_ok (ex_peers e) (peer_label_table e)) by done. clear Hl Hnd.
  unfold add_priority. destruct (split_peers (pr_priority p) (ex_peers e)) as [before from] eqn:Esp.
  destruct (split_peers_spec _ _ _ _ Hs Esp) as (Hpeers & Hb & Hf). clear Esp.
  destruct (stored_label p before from) as [Hst Hp']. rewrite <- Hpeers in Hst. set (p' := if repeated_label p before from then _ else _) in *.
  clearbody p'. set (e1 := mk_exten (ex_exten tmp) (ex_matchcid tmp) (ex_cidmatch tmp)).
  assert (Hk1 : forall peers labels, exten_key (e1 peers labels) = exten_key e) by (intros; by rewrite Hk).
  assert (Hin : forall e', in_table e e' table ≡ₚ pre ++ e' :: rest) by (intros; by apply in_table_perm).
  assert (Hsw : forall peers labels, swap_in_table e (e1 peers labels) table ≡ₚ pre ++ e1 peers labels :: rest).
  { intros peers labels. rewrite <- Permutation_middle. apply (swap_in_table_perm e e); [apply same_exten_refl| |done|done].
    by rewrite Permutation_middle. }
  assert (Hsw2 : forall peers labels, swap_in_table e (e1 peers labels) (swap_in_table e (e1 peers labels) table) ≡ₚ pre ++ e1 peers labels :: rest).
  { intros peers labels. rewrite <- Permutation_middle. apply swap_again; [|done|done]. by rewrite Hsw, Permutation_middle. }
  destruct from as [|q from].
  - rewrite app_nil_r in Hpeers. rewrite priority_missing by (rewrite Hpeers; eapply Forall_impl; [exact Hb|]; cbn; lia).
    eexists _, _, _, p'. split; [destruct replace; done|]. split; [done|]. split; [|apply Hin].
    apply (with_priority_intro p before [] []); try done.
    { by rewrite app_nil_r. }
    apply insert_label_ok; [|by apply elem_of_app; right; left]. cbn. eapply labels_grow; [exact Hlab|]. rewrite Hpeers. intros x Hx. apply elem_of_app. by left.
  - destruct Hf as [Hq Hf]. destruct (Z.eqb_spec (pr_priority q) (pr_priority p)) as [Heq|Hneq].
    + rewrite Hpeers, (priority_there _ before q from Hb Heq). rewrite Hp', (proj2 (Z.eqb_eq _ _) Heq). destruct replace; [|done]. cbn [negb].
      assert (Hl' : labels_ok (before ++ p' :: from) (insert_label p' (remove_label q (peer_label_table e)))).
      { apply insert_label_ok; [|by apply elem_of_app; right; left]. destruct (remove_label_ok q _ _ Hlab) as [H1 H2]. split; [|done].
        intros x Hx. destruct (H2 x Hx) as (Hxq & Hin' & Hlx). split; [|done]. rewrite Hpeers in Hin'. rewrite elem_of_app, elem_of_cons in *.
        naive_solver. }
      destruct before as [|b before].
      * eexists _, _, _, p'. split; [done|]. split; [done|]. split; [|destruct first; [apply Hsw2|apply Hsw]].
        apply (with_priority_intro p [] [q] from); try done. by repeat constructor.
      * eexists _, _, _, p'. split; [done|]. split; [done|]. split; [|apply Hin].
        apply (with_priority_intro p (b :: before) [q] from); try done. by repeat constructor.
    + assert (Hq' : pr_priority p < pr_priority q) by lia.
      rewrite priority_missing.
      2:{ rewrite Hpeers. apply Forall_app. split; [eapply Forall_impl; [exact Hb|]; cbn; lia|]. constructor; [lia|].
          eapply Forall_impl; [exact Hf|]; cbn; lia. }
      rewrite Hp', (proj2 (Z.eqb_neq _ _) Hneq).
      assert (Hl' : labels_ok (before ++ p' :: q :: from) (insert_label p' (peer_label_table e))).
      { apply insert_label_ok; [|by apply elem_of_app; right; left]. eapply labels_grow; [exact Hlab|]. rewrite Hpeers.
        intros x. rewrite !elem_of_app, !elem_of_cons. tauto. }
      assert (Hall : Forall (fun x => pr_priority p < pr_priority x) (q :: from)) by by constructor.
      destruct before as [|b before]; (eexists _, _, _, p'; split; [destruct replace; done|]; split; [done|]; split; [|apply Hin || apply Hsw]).
      * by apply (with_priority_intro p [] [] (q :: from)).
      * by apply (with_priority_intro p (b :: before) [] (q :: from)).
Qed.

(** ** Adding an extension *)

Lemma Lt_ne a b : exten_before a b -> exten_key a <> exten_key b.
Proof. intros H Hk. unfold exten_before in H. rewrite Hk in H. by rewrite (proj2 (compare_eq (exten_key b) (exten_key b))) in H. Qed.

Lemma Gt_before a b : compares a b = Gt -> exten_before b a.
Proof. intros H. unfold exten_before. by rewrite compare_opp, H. Qed.

Lemma extension_at pre e rest x : Forall (fun y => exten_key y <> exten_key e) pre ->
  extension_of x (pre ++ e :: rest) = if decide (exten_key x = exten_key e) then Some e else extension_of x (pre ++ rest).
Proof.
  intros Hp. unfold extension_of. case_decide as Hk.
  - apply find_here; [|by apply bool_decide_eq_true]. eapply Forall_impl; [exact Hp|]. cbn. intros y Hy. apply bool_decide_eq_false. congruence.
  - apply find_skip. apply bool_decide_eq_false. congruence.
Qed.

Lemma extension_none x l : Forall (fun y => exten_key y <> exten_key x) l -> extension_of x l = None.
Proof. intros H. apply find_nothing. eapply Forall_impl; [exact H|]. cbn. intros y Hy. by apply bool_decide_eq_false. Qed.

(** The priorities of the extension that is meant. *)
Definition peers_of (l : list ast_exten) (e : ast_exten) : list ast_peer := from_option ex_peers [] (extension_of e l).

Lemma registered_peers l e n : registered l e n = priority_of n (peers_of l e).
Proof. unfold registered, peers_of. by destruct (extension_of e l). Qed.

(** [p'] is registered for [tmp], with all that was before. *)
Definition also_registered (con con' : loading) (tmp : ast_exten) (p p' : ast_peer) : Prop :=
  loading_ok con' /\ stored (peers_of (ld_root con) tmp) p p' /\
  forall e n, registered (ld_root con') e n =
    if decide (exten_key e = exten_key tmp /\ n = pr_priority p) then Some p' else registered (ld_root con) e n.

Lemma also_registered_at con con' pre e e' rest tmp p p' :
  loading_ok con' -> ld_root con' = pre ++ e' :: rest -> Forall (fun y => exten_key y <> exten_key tmp) pre ->
  Forall (fun y => exten_key y <> exten_key tmp) rest -> exten_key e' = exten_key tmp ->
  (ld_root con = pre ++ rest /\ e = None \/ exists e0, e = Some e0 /\ exten_key e0 = exten_key tmp /\ ld_root con = pre ++ e0 :: rest) ->
  stored (from_option ex_peers [] e) p p' ->
  (forall n, priority_of n (ex_peers e') = if n =? pr_priority p then Some p' else priority_of n (from_option ex_peers [] e)) ->
  also_registered con con' tmp p p'.
Proof.
  intros Hok Hroot Hpre Hrest Hk He Hst Hmap.
  assert (Hp : forall x, peers_of (ld_root con) x =
    if decide (exten_key x = exten_key tmp) then from_option ex_peers [] e else peers_of (pre ++ rest) x).
  { intros x. unfold peers_of. destruct He as [[-> ->]|(e0 & -> & Hk0 & ->)].
    - case_decide as Hx; [|done]. rewrite extension_none; [done|]. rewrite Hx. by apply Forall_app.
    - rewrite extension_at by (by rewrite Hk0). rewrite Hk0. by case_decide. }
  split; [done|]. split; [rewrite Hp; by rewrite decide_True|]. intros x n. rewrite !registered_peers, Hp, Hroot.
  assert (Hp' : peers_of (pre ++ e' :: rest) x = if decide (exten_key x = exten_key tmp) then ex_peers e' else peers_of (pre ++ rest) x).
  { unfold peers_of. rewrite extension_at by (by rewrite Hk). rewrite Hk. by case_decide. }
  rewrite Hp'. destruct (decide (exten_key x = exten_key tmp)) as [Hx|Hx].
  - rewrite Hmap. destruct (Z.eqb_spec n (pr_priority p)) as [->|Hn]; [by rewrite decide_True|]. rewrite decide_False by (by intros [_ ?]). done.
  - rewrite decide_False by (by intros [? _]). done.
Qed.

(** The list with one extension in its place is sorted. *)
Lemma sorted_at pre e' rest tmp : exten_key e' = exten_key tmp -> StronglySorted exten_before (pre ++ rest) ->
  Forall (fun e => compares e tmp = Lt) pre -> Forall (fun x => compares x tmp = Gt) rest -> StronglySorted exten_before (pre ++ e' :: rest).
Proof.
  intros Hk (H1 & H2 & H3)%StronglySorted_app Hpre Hrest. rewrite Forall_forall in Hpre, Hrest.
  apply StronglySorted_app. split_and!; [|done|].
  - intros x y Hx [-> |Hy]%elem_of_cons; [|by apply H1]. unfold exten_before. rewrite Hk. by apply Hpre.
  - apply StronglySorted_cons. split; [|done]. apply Forall_forall. intros x Hx. unfold exten_before. rewrite Hk. by apply Gt_before, Hrest.
Qed.

Lemma place_other tmp pre post : Forall (fun e => compares e tmp = Lt) pre -> Forall (fun x => compares x tmp = Gt) post ->
  Forall (fun y => exten_key y <> exten_key tmp) pre /\ Forall (fun y => exten_key y <> exten_key tmp) post.
Proof.
  intros H1 H2. split; (eapply Forall_impl; [eassumption|]); cbn; intros y Hy; [by apply Lt_ne|]. apply Gt_before in Hy. by apply not_eq_sym, Lt_ne.
Qed.

Lemma insert_first_spec con tmp p pre post : loading_ok con -> exten_ok tmp -> ld_root con = pre ++ post ->
  Forall (fun e => compares e tmp = Lt) pre -> Forall (fun x => compares x tmp = Gt) post ->
  registered (ld_root con) tmp (pr_priority p) = None /\ also_registered con (fst (insert_first tmp p con pre post)) tmp p p.
Proof.
  intros [Ha Hp Hs Ht] Htmp Hroot Hpre Hpost. destruct (place_other _ _ _ Hpre Hpost) as [Hnpre Hnpost].
  rewrite Hroot in Ha, Hp, Hs, Ht. apply Forall_app in Ha as [Ha1 Ha2], Hp as [Hp1 Hp2].
  assert (Hall : Forall (fun y => exten_key y <> exten_key tmp) (pre ++ post)) by by apply Forall_app.
  split; [rewrite registered_peers, Hroot; unfold peers_of; by rewrite extension_none|].
  unfold insert_first. set (new := tmp <| ex_peers := _ |> <| peer_label_table := _ |>). cbn [fst].
  assert (Hpnew : peers_ok new).
  { split; [done|by repeat constructor| |]; unfold new; cbn; destruct (is_labelled p) eqn:El.
    - intros q Hq. apply list_elem_of_singleton in Hq as ->. split; [by left|done].
    - intros q Hq. by apply elem_of_nil in Hq.
    - apply NoDup_singleton.
    - constructor. }
  apply (also_registered_at _ _ pre None new post); try done; [|by left|by left|].
  - split; cbn; [by apply Forall_app; split; [|constructor]..|by apply (sorted_at _ _ _ tmp)|].
    assert (Htab : exists t, match ld_table con, pre with None, [] => Some [] | t, _ => t end = Some t /\ t ≡ₚ pre ++ post).
    { destruct (ld_table con) as [t|]; [by exists t|]. apply app_eq_nil in Ht as [-> ->]. by exists []. }
    destruct Htab as (t & -> & Hperm). cbn. rewrite insert_new; [by rewrite Hperm, Permutation_middle|].
    intros y Hy. rewrite Hperm in Hy. apply other_exten, not_eq_sym. rewrite Forall_forall in Hall. by apply Hall.
  - intros n. cbn. rewrite Z.eqb_sym. by case_if.
Qed.

Lemma exten_keys_other pre e rest : StronglySorted exten_before (pre ++ e :: rest) -> Forall (fun x => exten_key x <> exten_key e) (pre ++ rest).
Proof.
  intros (H1 & _ & H2)%StronglySorted_app. apply StronglySorted_cons in H2 as [H2 _]. apply Forall_app. split.
  - apply Forall_forall. intros x Hx. apply Lt_ne, H1; [done|by left].
  - eapply Forall_impl; [exact H2|]. intros x Hx. by apply not_eq_sym, Lt_ne.
Qed.

Lemma insert_at_spec con replace tmp p pre e rest : loading_ok con -> exten_ok tmp -> ld_root con = pre ++ e :: rest ->
  exten_key e = exten_key tmp ->
  let added := add_priority (bool_decide (pre = [])) replace tmp p e (default [] (ld_table con)) in
  match registered (ld_root con) tmp (pr_priority p), replace with
  | Some _, false => added = None
  | _, _ => exists e' table hint p', added = Some (e', table, hint) /\
      also_registered con (mk_loading (pre ++ e' :: rest) (match ld_table con with Some _ => Some table | None => None end)) tmp p p'
  end.
Proof.
  intros [Ha Hp Hs Ht] Htmp Hroot Hk. rewrite Hroot in Ha, Hp, Hs, Ht.
  pose proof (exten_keys_other _ _ _ Hs) as Hne. apply Forall_app in Ha as [Ha1 Ha2], Hp as [Hp1 Hp2].
  apply Forall_cons in Ha2 as [Hae Ha2], Hp2 as [Hpe Hp2].
  destruct (ld_table con) as [t|] eqn:Et; [|by destruct pre]. cbn [default from_option id].
  assert (Hreg : registered (ld_root con) tmp (pr_priority p) = priority_of (pr_priority p) (ex_peers e)).
  { rewrite registered_peers, Hroot. unfold peers_of. pose proof Hne as [Hne1 _]%Forall_app. by rewrite extension_at, decide_True by done. }
  rewrite Hreg. pose proof (add_priority_spec (bool_decide (pre = [])) replace tmp p e t pre rest Hae Htmp Hpe Ht Hne Hk) as H.
  assert (Hadd : (exists e' table' hint p', add_priority (bool_decide (pre = [])) replace tmp p e t = Some (e', table', hint) /\
      exten_ok e' /\ with_priority e e' p p' /\ table' ≡ₚ pre ++ e' :: rest) ->
    exists e' table hint p', add_priority (bool_decide (pre = [])) replace tmp p e t = Some (e', table, hint) /\
      also_registered con (mk_loading (pre ++ e' :: rest) (Some table)) tmp p p').
  { intros (e' & table & hint & p' & Hr & Hae' & [Hok Hke Hst Hmap] & Htab). exists e', table, hint, p'. split; [done|].
    apply Forall_app in Hne as [Hne1 Hne2]. rewrite Hk in Hne1, Hne2.
    apply (also_registered_at _ _ pre (Some e) e' rest); try done; [|by rewrite Hke|by right; exists e].
    split; cbn; [by apply Forall_app; split; [|constructor]..| |done].
    apply StronglySorted_app in Hs as (H1 & H2 & H3). apply StronglySorted_cons in H3 as [H3 H4]. apply StronglySorted_app. split_and!; [|done|].
    - intros x y Hx [-> |Hy]%elem_of_cons; [|by apply H1; [|right]]. unfold exten_before. rewrite Hke. by apply H1; [|left].
    - apply StronglySorted_cons. split; [|done]. eapply Forall_impl; [exact H3|]. intros x Hx. unfold exten_before. by rewrite Hke. }
  destruct (priority_of _ _), replace; try done; by apply Hadd.
Qed.

Lemma insert_exten_spec con replace tmp p : loading_ok con -> exten_ok tmp ->
  match registered (ld_root con) tmp (pr_priority p), replace with
  | Some _, false => insert_exten replace tmp p con = Ret None
  | _, _ => exists con' hint p', insert_exten replace tmp p con = Ret (Some (con', hint)) /\ also_registered con con' tmp p p'
  end.
Proof.
  intros Hok Htmp. pose proof Hok as [Ha _ Hs _]. unfold insert_exten.
  destruct (scan_place tmp (ld_root con) Htmp Ha Hs) as (pre & post & res & -> & Hroot & Hpre & Hpost). cbn [obind].
  assert (Hfirst : Forall (fun x => compares x tmp = Gt) post ->
    match registered (ld_root con) tmp (pr_priority p), replace with
    | Some _, false => Ret (Some (insert_first tmp p con pre post)) = Ret None
    | _, _ => exists con' hint p', Ret (Some (insert_first tmp p con pre post)) = Ret (Some (con', hint)) /\ also_registered con con' tmp p p'
    end).
  { intros Hgt. destruct (insert_first_spec con tmp p pre post Hok Htmp Hroot Hpre Hgt) as [-> H].
    destruct (insert_first tmp p con pre post) as [con' hint]. by exists con', hint, p. }
  destruct post as [|e rest]; [by apply Hfirst|]. destruct Hpost as (Hres & Hge & Hgt). destruct (Z.eqb_spec res 0) as [->|Hne].
  - destruct (compares e tmp) eqn:Ec; [|done|done]. apply compare_eq in Ec.
    pose proof (insert_at_spec con replace tmp p pre e rest Hok Htmp Hroot Ec) as H. cbn zeta in H.
    destruct (registered _ _ _), replace; try (by rewrite H); destruct H as (e' & t & hint & p' & -> & H); by eexists _, hint, p'.
  - apply Hfirst. constructor; [|done]. destruct (compares e tmp); [cbn in Hres; lia|done|done].
Qed.

Lemma ext_strncpy_ascii src len : ascii7 src -> ascii7 (ext_strncpy src len).
Proof.
  intros Hs. unfold ext_strncpy. generalize (len - 1)%nat as room, false as insquares. induction Hs as [|c src Hc _ IH]; intros [|room] b; cbn.
  1-3: constructor.
  repeat case_if; try (constructor; [done|]); apply IH.
Qed.

(** ** Loading a dialplan *)

(** A registration: the arguments of one call. *)
Record registration := mk_registration {
  rg_replace : bool;
  rg_exten : str;
  rg_priority : Z;
  rg_label : option str;
  rg_callerid : option str;
  rg_app : str;
  rg_data : option str;
  rg_registrar : str
}.

Definition rg_new (r : registration) : ast_exten * ast_peer :=
  new_exten (rg_exten r) (rg_priority r) (rg_label r) (rg_callerid r) (rg_app r) (rg_data r) (rg_registrar r).

Definition add_registration (E : pbx_env) (name : str) (st : loading * pbx) (r : registration) : outcome (loading * pbx) :=
  let* (_, con, _, w) := ast_add_extension2 E true (snd st) name (fst st) (rg_replace r) (rg_exten r) (rg_priority r) (rg_label r)
    (rg_callerid r) (rg_app r) (rg_data r) (rg_registrar r) in Ret (con, w).

(** The text of the extension is there and 7-bit, and the application has no variables. *)
Definition registration_ok (r : registration) : Prop :=
  rg_exten r <> [] /\ ascii7 (rg_exten r) /\ ascii7 (default [] (rg_callerid r)) /\
  is_hint_text (rg_exten r) (rg_app r) (rg_priority r) = false.

Lemma rg_new_ok r : registration_ok r -> exten_ok (fst (rg_new r)).
Proof.
  intros (_ & H1 & H2 & _). unfold rg_new, new_exten. destruct (rg_callerid r); split; cbn; try constructor; by apply ext_strncpy_ascii.
Qed.

Lemma add_registration_spec E name con w r : loading_ok con -> registration_ok r ->
  match registered (ld_root con) (fst (rg_new r)) (pr_priority (snd (rg_new r))), rg_replace r with
  | Some _, false => add_registration E name (con, w) r = Ret (con, w)
  | _, _ => exists con' p', add_registration E name (con, w) r = Ret (con', w) /\
      also_registered con con' (fst (rg_new r)) (snd (rg_new r)) p'
  end.
Proof.
  intros Hok Hr. pose proof (insert_exten_spec con (rg_replace r) (fst (rg_new r)) (snd (rg_new r)) Hok (rg_new_ok r Hr)) as H.
  unfold add_registration, ast_add_extension2. destruct Hr as (Hne & _ & _ & Hh). cbn [fst snd]. rewrite Hh.
  destruct (rg_exten r) as [|c text] eqn:Ex; [done|]. cbn [obind negb]. rewrite <- Ex. fold (rg_new r).
  destruct (rg_new r) as [tmp p]. cbn [fst snd] in *.
  destruct (registered _ _ _), (rg_replace r); try (by rewrite H); destruct H as (con' & hint & p' & -> & H); by exists con', p'.
Qed.

(** The registry that a context implements: from extensions, up to their order, and
    priorities to what is registered, labels left out. *)
Definition unlabelled (p : ast_peer) : ast_peer := p <| pr_label := None |>.

Abbreviation registry := (gmap (((list Z + list (Z * list Z)) * ((list Z + list (Z * list Z)) + list Z)) * Z) ast_peer).

Definition register (m : registry) (r : registration) : registry :=
  let '(e, p) := rg_new r in
  match m !! (exten_key e, pr_priority p), rg_replace r with
  | Some _, false => m
  | _, _ => <[(exten_key e, pr_priority p) := unlabelled p]> m
  end.

Definition implements (con : loading) (m : registry) : Prop :=
  forall e n, unlabelled <$> registered (ld_root con) e n = m !! (exten_key e, n).

Lemma stored_unlabelled peers p p' : stored peers p p' -> unlabelled p' = unlabelled p.
Proof. by intros [->|[-> _]]. Qed.

Lemma register_implemented E name con w r m : loading_ok con -> implements con m -> registration_ok r ->
  exists con', add_registration E name (con, w) r = Ret (con', w) /\ loading_ok con' /\ implements con' (register m r).
Proof.
  intros Hok Hm Hr. pose proof (add_registration_spec E name con w r Hok Hr) as H. unfold register.
  destruct (rg_new r) as [tmp p]. cbn [fst snd] in H. pose proof (Hm tmp (pr_priority p)) as Hthere. rewrite <- Hthere.
  assert (Hadd : (exists con' p', add_registration E name (con, w) r = Ret (con', w) /\ also_registered con con' tmp p p') ->
    exists con', add_registration E name (con, w) r = Ret (con', w) /\ loading_ok con' /\
      implements con' (<[(exten_key tmp, pr_priority p) := unlabelled p]> m)).
  { intros (con' & p' & Hret & Hok' & Hst & Hmap). exists con'. split; [done|]. split; [done|]. intros e n. rewrite Hmap. case_decide as Hk.
    - destruct Hk as [-> ->]. rewrite lookup_insert_eq. cbn. f_equal. by apply (stored_unlabelled _ _ _ Hst).
    - rewrite lookup_insert_ne; [apply Hm|]. intros [= Hk1 Hk2 Hk3]. apply Hk. split; [|done]. unfold exten_key. by rewrite Hk1, Hk2. }
  destruct (registered _ tmp _), (rg_replace r); try (by apply Hadd). rewrite H. by exists con.
Qed.

Lemma new_context_ok : loading_ok new_context.
Proof. by split; try constructor. Qed.

(** C2: whatever is registered in a new context, in any order, the context becomes a map
    from extensions, caller ids and priorities to what was registered for them first, or
    last with [replace]; its list is sorted strictly by the order of extensions, each
    extension has its priorities in increasing order, the table has the extensions of the
    list, and a table of labels only has labelled priorities of its extension, each label
    once. *)
Theorem load_refines E name w rs : Forall registration_ok rs ->
  exists con, ofold (add_registration E name) (new_context, w) rs = Ret (con, w) /\ loading_ok con /\ implements con (foldl register ∅ rs).
Proof.
  assert (H : forall con m, loading_ok con -> implements con m -> Forall registration_ok rs ->
    exists con', ofold (add_registration E name) (con, w) rs = Ret (con', w) /\ loading_ok con' /\ implements con' (foldl register m rs)).
  { induction rs as [|r rs IH]; intros con m Hok Hm Hrs; [by exists con|]. apply Forall_cons in Hrs as [Hr Hrs]. cbn [ofold foldl].
    destruct (register_implemented E name con w r m Hok Hm Hr) as (con' & -> & Hok' & Hm'). by apply IH. }
  intros Hrs. apply H; [apply new_context_ok| |done]. intros e n. by rewrite lookup_empty.
Qed.

(** ** The search of the list *)

(** The extension, with its caller id, matches. *)
Definition exten_accepts (exten : str) (callerid : option str) (e : ast_exten) : bool :=
  match extension_match_core_ (ex_exten e) exten E_MATCH, matchcid (Some (ex_cidmatch e)) callerid with
  | Some r, Some c => negb (r =? 0) && (negb (ex_matchcid e) || negb (c =? 0))
  | _, _ => false
  end.

Lemma match_total p d : deref d <> c_under -> exists r, extension_match_core_ p d E_MATCH = Some r.
Proof.
  intros Hd. unfold extension_match_core_. rewrite (proj2 (Z.eqb_neq (deref d) c_under)), !andb_false_r by done.
  repeat case_match; by eexists.
Qed.

Lemma matchcid_total p callerid : deref (default [] callerid) <> c_under -> exists r, matchcid (Some p) callerid = Some r.
Proof. intros Hd. unfold matchcid. destruct (default [] callerid) eqn:E; [by eexists|]. by apply match_total; cbn; rewrite E. Qed.

Lemma list_search_find exten callerid n l : deref exten <> c_under -> deref (default [] callerid) <> c_under ->
  forall status, exists status', list_search l exten n None callerid E_MATCH status =
    Ret (match List.find (fun e => exten_accepts exten callerid e && is_some (priority_of n (ex_peers e))) l with
         | Some e => Decided (Peer e <$> priority_of n (ex_peers e))
         | None => Undecided
         end, status').
Proof.
  intros He Hc. induction l as [|e l IH]; intros status; [by exists status|]. cbn [list_search List.find]. unfold exten_accepts at 1.
  destruct (match_total (ex_exten e) exten He) as (r & Hr), (matchcid_total (ex_cidmatch e) callerid Hc) as (c & Hcid).
  unfold extension_match_core. cbn [default from_option id]. rewrite Hr, Hcid. cbn [oaccess obind].
  destruct (r =? 0) eqn:Er; cbn [negb andb orb]; [apply IH|]. destruct (ex_matchcid e); cbn [obind negb orb].
  - destruct (c =? 0) eqn:Ec; cbn [negb andb]; [apply IH|]. rewrite andb_false_r. unfold find_peer. fold (priority_of n (ex_peers e)).
    destruct (priority_of n (ex_peers e)) eqn:Ep; [|apply IH]. cbn. rewrite Ep. by eexists.
  - cbn [Z.eqb]. rewrite andb_false_r. unfold find_peer. fold (priority_of n (ex_peers e)).
    destruct (priority_of n (ex_peers e)) eqn:Ep; [|apply IH]. cbn. rewrite Ep. by eexists.
Qed.

Lemma find_before l f : StronglySorted exten_before l ->
  match List.find f l with
  | Some e => e ∈ l /\ f e = true /\ forall e', e' ∈ l -> f e' = true -> e' = e \/ exten_before e e'
  | None => forall e, e ∈ l -> f e = false
  end.
Proof.
  induction l as [|e l IH]; intros Hs; [intros e He; by apply elem_of_nil in He|]. apply StronglySorted_cons in Hs as [Hb Hs]. cbn.
  rewrite Forall_forall in Hb. destruct (f e) eqn:Ef.
  - split; [by left|]. split; [done|]. intros e' [-> |He']%elem_of_cons _; [by left|right; by apply Hb].
  - specialize (IH Hs). destruct (List.find f l) as [x|].
    + destruct IH as (Hin & Hx & Hall). split; [by right|]. split; [done|]. intros e' [-> |He']%elem_of_cons Hf; [congruence|by apply Hall].
    + intros x [-> |Hx]%elem_of_cons; [done|by apply IH].
Qed.

Lemma registered_here l e n : StronglySorted exten_before l -> e ∈ l -> registered l e n = priority_of n (ex_peers e).
Proof.
  intros Hs (l1 & l2 & ->)%list_elem_of_split. rewrite registered_peers. unfold peers_of.
  pose proof (exten_keys_other _ _ _ Hs) as [Hne _]%Forall_app. by rewrite extension_at, decide_True by done.
Qed.

(** C5: the search of the list of a loaded context for a number, a priority and a caller id
    ends with what is registered for the first extension, in the order of extensions,
    that matches number and caller id and has the priority; and with nothing only if no
    extension that matches has the priority.  The first in the order need not be the one that
    matches most characters: [longest_not_first]. *)
Theorem list_search_best con exten n callerid status : loading_ok con ->
  deref exten <> c_under -> deref (default [] callerid) <> c_under ->
  exists found status', list_search (ld_root con) exten n None callerid E_MATCH status = Ret (found, status') /\
    match found with
    | Decided (Some (Peer e p)) => e ∈ ld_root con /\ exten_accepts exten callerid e = true /\ registered (ld_root con) e n = Some p /\
        forall e', e' ∈ ld_root con -> exten_accepts exten callerid e' = true -> registered (ld_root con) e' n <> None ->
          e' = e \/ exten_before e e'
    | Undecided => forall e, e ∈ ld_root con -> exten_accepts exten callerid e = true -> registered (ld_root con) e n = None
    | _ => False
    end.
Proof.
  intros [_ _ Hs _] He Hc. destruct (list_search_find exten callerid n (ld_root con) He Hc status) as (status' & ->).
  eexists _, status'. split; [done|].
  pose proof (find_before (ld_root con) (fun e => exten_accepts exten callerid e && is_some (priority_of n (ex_peers e))) Hs) as H.
  destruct (List.find _ _) as [e|].
  - destruct H as (Hin & [Ha Hp]%andb_true_iff & Hall). destruct (priority_of n (ex_peers e)) as [p|] eqn:Ep; [|done]. cbn.
    split; [done|]. split; [done|]. rewrite registered_here, Ep by done. split; [done|]. intros e' Hin' Ha' Hr'. apply Hall; [done|].
    rewrite registered_here in Hr' by done. rewrite Ha'. by destruct (priority_of n (ex_peers e')).
  - intros e Hin Ha. rewrite registered_here by done. specialize (H e Hin). cbn in H. rewrite Ha in H. by destruct (priority_of n (ex_peers e)).
Qed.

(** *** A sample *)

Definition sample_registrations : list registration :=
  [mk_registration false (zs "_1X") 1 None None (zs "NoOp") None []; mk_registration false (zs "12") 2 None None (zs "Dial") None [];
   mk_registration false (zs "1 2") 1 (Some (zs "start")) None (zs "Answer") None [];
   mk_registration true (zs "_1X") 1 None None (zs "Busy") None []; mk_registration false (zs "1-2") 2 None None (zs "Hangup") None [];
   mk_registration false (zs "12") 1 None (Some (zs "555")) (zs "Playback") None []].

Lemma sample_registrations_ok : Forall registration_ok sample_registrations.
Proof.
  assert (H : forall s : str, forallb (fun c => (1 <=? c) && (c <=? 127)) s = true -> ascii7 s).
  { intros s. unfold ascii7. induction s as [|c s IH]; cbn; [by constructor|]. intros [[? ?]%andb_true_iff ?]%andb_true_iff. zb. constructor; [lia|auto]. }
  unfold sample_registrations. repeat (constructor; [split_and!; [done|by apply H..|done]|]). constructor.
Qed.

Lemma load_refines_witness : exists con,
  ofold (add_registration (sample_env []) (zs "default")) (new_context, sample_pbx) sample_registrations = Ret (con, sample_pbx) /\
  loading_ok con /\ implements con (foldl register ∅ sample_registrations).
Proof. apply (load_refines (sample_env []) (zs "default") sample_pbx sample_registrations sample_registrations_ok). Defined.

(** The context that is loaded: the caller id comes first, then the number, then the
    pattern. *)
Definition loaded (rs : list registration) : loading :=
  match ofold (add_registration (sample_env []) (zs "default")) (new_context, sample_pbx) rs with Ret (con, _) => con | _ => new_context end.

Lemma sample_loaded :
  (fun e => (ex_exten e, ex_cidmatch e, (fun p => (pr_priority p, pr_app p)) <$> ex_peers e)) <$> ld_root (loaded sample_registrations) =
  [(zs "12", zs "555", [(1, zs "Playback")]); (zs "12", [], [(1, zs "Answer"); (2, zs "Dial")]); (zs "_1X", [], [(1, zs "Busy")])].
Proof. vm_compute. reflexivity. Qed.

Lemma loaded_ok rs : Forall registration_ok rs -> loading_ok (loaded rs).
Proof.
  intros H. unfold loaded.
  assert (Hl : forall con w, loading_ok con -> Forall registration_ok rs ->
    exists con', ofold (add_registration (sample_env []) (zs "default")) (con, w) rs = Ret (con', w) /\ loading_ok con').
  { clear H. induction rs as [|r rs IH]; intros con w Hok Hrs; [by exists con|]. apply Forall_cons in Hrs as [Hr Hrs]. cbn [ofold].
    pose proof (add_registration_spec (sample_env []) (zs "default") con w r Hok Hr) as Hadd.
    destruct (registered _ _ _), (rg_replace r); try (rewrite Hadd; by apply IH); destruct Hadd as (con' & p' & -> & Hok' & _); by apply IH. }
  destruct (Hl new_context sample_pbx new_context_ok H) as (con & -> & Hok). done.
Qed.

Lemma list_search_best_witness : exists found status',
  list_search (ld_root (loaded sample_registrations)) (zs "12") 1 None (Some (zs "777")) E_MATCH 0 = Ret (found, status') /\
  match found with
  | Decided (Some (Peer e p)) => e ∈ ld_root (loaded sample_registrations) /\ exten_accepts (zs "12") (Some (zs "777")) e = true /\
      registered (ld_root (loaded sample_registrations)) e 1 = Some p /\
      forall e', e' ∈ ld_root (loaded sample_registrations) -> exten_accepts (zs "12") (Some (zs "777")) e' = true ->
        registered (ld_root (loaded sample_registrations)) e' 1 <> None -> e' = e \/ exten_before e e'
  | Undecided => forall e, e ∈ ld_root (loaded sample_registrations) -> exten_accepts (zs "12") (Some (zs "777")) e = true ->
      registered (ld_root (loaded sample_registrations)) e 1 = None
  | _ => False
  end.
Proof.
  apply (list_search_best (loaded sample_registrations) (zs "12") 1 (Some (zs "777")) 0 (loaded_ok _ sample_registrations_ok)); vm_compute; discriminate.
Defined.

(** A comment says that the longest match is selected, which means the number of characters
    that are matched in the extension.  The order compares the characters one after the other
    instead: [_12.] comes before [_1X34] for its second one, and is found for [1234]. *)
Lemma longest_not_first :
  let con := loaded [mk_registration false (zs "_1X34") 1 None None (zs "Longest") None []; mk_registration false (zs "_12.") 1 None None (zs "First") None []] in
  (exten_accepts (zs "1234") None <$> ld_root con) = [true; true] /\
  exists e p status, list_search (ld_root con) (zs "1234") 1 None None E_MATCH 0 = Ret (Decided (Some (Peer e p)), status) /\
    ex_exten e = zs "_12." /\ pr_app p = zs "First".
Proof. split; [vm_compute; reflexivity|]. eexists _, _, _. split; [vm_compute; reflexivity|]. done. Qed.

(** *** Labels used twice, and other inputs *)

(** A label that a later priority has is not noticed, so two priorities have it and the
    table the later one; when the earlier one is replaced, the label of the later one goes,
    and is not found any more. *)
Lemma label_lost :
  let second := mk_registration false (zs "12") 2 (Some (zs "l")) None (zs "Dial") None [] in
  let filler := mk_registration false (zs "12") 1 None None (zs "NoOp") None [] in
  let first := mk_registration false (zs "12") 0 (Some (zs "l")) None (zs "Answer") None [] in
  let again := mk_registration true (zs "12") 0 None None (zs "Answer") None [] in
  let labels rs := (fun e => ((fun p => (pr_priority p, pr_label p)) <$> ex_peers e, pr_priority <$> peer_label_table e)) <$> ld_root (loaded rs) in
  labels [second; filler; first] = [([(0, Some (zs "l")); (1, None); (2, Some (zs "l"))], [2])] /\
  labels [second; filler; first; again] = [([(0, None); (1, None); (2, Some (zs "l"))], [])].
Proof. vm_compute. split; reflexivity. Qed.

(** An extension of blanks is one without a name: only the text before the blanks are
    removed is looked at. *)
Lemma blank_exten :
  (ex_exten <$> ld_root (loaded [mk_registration false (zs " ") 1 None None (zs "NoOp") None []])) = [[]].
Proof. vm_compute. reflexivity. Qed.

(** The buffer for the application of a hint has no room for the NUL of 4096 characters. *)
Lemma hint_overflow :
  let add n := ast_add_extension2 (sample_env []) true sample_pbx (zs "default") new_context false (zs "12") PRIORITY_HINT None None
    (zs "${NONE}" ++ replicate n 97) None [] in
  (exists con hint w, add 4095%nat = Ret (0, con, hint, w)) /\ add 4096%nat = BadAccess.
Proof. split; [eexists _, _, _|]; vm_compute; reflexivity. Qed.

(** *** Adding and removing *)

Lemma remove_added_last {A} (meant : A -> bool) (same : A -> A -> bool) (x : A) l : meant x = true -> (forall y, meant y = true -> same y x = true) ->
  existsb (fun y => same y x) l = false -> remove_meant meant (l ++ [x]) = (0, l).
Proof.
  intros Hx Hm. induction l as [|y l IH]; cbn; [by rewrite Hx|]. intros [Hy Hl]%orb_false_iff.
  destruct (meant y) eqn:E; [by rewrite (Hm y E) in Hy|]. by rewrite (IH Hl).
Qed.

Lemma same_name_refl s : same_name s s = true.
Proof. by apply bool_decide_eq_true. Qed.

(** Removing what was added last by the same registrar gives the context back. *)
Lemma remove_added_include ok con value registrar con' : ast_context_add_include2 true ok con value registrar = Ret (0, con') ->
  ast_context_remove_include2 con' value (Some registrar) = (0, con).
Proof.
  unfold ast_context_add_include2, ast_context_remove_include2, add_last. cbn [negb]. destruct (include_timing ok value) as [[rname t]| | |]; try done.
  cbn [obind]. destruct (existsb _ _) eqn:E; intros [= <-]. cbn.
  rewrite (remove_added_last _ (fun a b => same_name (in_name a) (in_name b))); [by destruct con|..|done]; cbn.
  - by rewrite !bool_decide_eq_true_2.
  - intros y [->%bool_decide_eq_true _]%andb_true_iff. apply same_name_refl.
Qed.

Lemma remove_added_switch con value data eval registrar con' : ast_context_add_switch2 true con value data eval registrar = (0, con') ->
  ast_context_remove_switch2 con' value (default [] data) (Some registrar) = (0, con).
Proof.
  unfold ast_context_add_switch2, ast_context_remove_switch2, add_last. cbn [negb]. destruct (existsb _ _) eqn:E; intros [= <-]. cbn.
  rewrite (remove_added_last _ (fun a b => same_name (sw_name a) (sw_name b) && same_name (sw_data a) (sw_data b))); [by destruct con|..|done]; cbn.
  - by rewrite !bool_decide_eq_true_2.
  - intros y [[->%bool_decide_eq_true ->%bool_decide_eq_true]%andb_true_iff _]%andb_true_iff. by rewrite !same_name_refl.
Qed.

Lemma remove_added_ignorepat con value registrar con' : ast_context_add_ignorepat2 true con value registrar = (0, con') ->
  ast_context_remove_ignorepat2 con' value registrar = (0, con).
Proof.
  unfold ast_context_add_ignorepat2, ast_context_remove_ignorepat2, add_last. cbn [negb]. destruct (existsb _ _) eqn:E; intros [= <-]. cbn.
  rewrite (remove_added_last _ (fun a b => same_name (fst a) (fst b))); [by destruct con|..|done]; cbn.
  - rewrite bool_decide_eq_true_2 by done. by rewrite Z.eqb_refl, orb_true_r.
  - intros y [->%bool_decide_eq_true _]%andb_true_iff. apply same_name_refl.
Qed.
