(* ===== verification/PbxRun.v ===== *)
(** * Running the dialplan on a channel ([__ast_pbx_run] of [main/pbx.c])

    A call is in an extension of a context at a priority.  The run executes one priority
    after the other, and when the extension ends or an application asks for it, collects
    digits, goes to the extension that was dialled or to the special ones ([i], [t], [T],
    [e]) and in the end to [h].

    The run works on the interface [pbx_ops]: whether an extension exists or may be
    continued, the execution of a priority, and what the channel does (waiting for a digit,
    busy and congestion tones, the hangup).  [dialplan_ops] implements the first three by
    the search of Contexts.v.

    Theorems: digits are collected inside the buffer and as long as more can match; the main
    loop ends soon after the channel is hung up, wherever applications jump, and the
    priorities of [h] end unless one of them jumps back; and how a sample call goes. *)

From S2P Require Import Extension Time Timing PatternNode Trie TrieFind TrieMatch Prelude.
From S2P Require Import DynStr Vars Subst Contexts ContextMatch.
From Stdlib Require Import ZArith Lia.
From stdpp Require Import base list gmap numbers strings.

#[local] Open Scope Z_scope.
#[local] Open Scope outcome_scope.
#[local] Open Scope record_scope.

(** ** The channel *)

Abbreviation AST_SOFTHANGUP_DEV := 1.
Abbreviation AST_SOFTHANGUP_ASYNCGOTO := 2.
Abbreviation AST_SOFTHANGUP_TIMEOUT := 8.
Abbreviation AST_SOFTHANGUP_APPUNLOAD := 16.

Abbreviation AST_PBX_ERROR := 1.
Abbreviation AST_PBX_INCOMPLETE := 12.

Record call := mk_call { dialplan : list context; exchange : pbx }.

#[export] Instance eta_call : Eta call := fun s => mk_call (dialplan s) (exchange s).

Definition change (c : nat) (f : ast_channel -> ast_channel) (s : call) : call :=
  s <| exchange ::= fun w => w <| channels ::= alter f c |> |>.

Definition here (c : nat) (s : call) : outcome ast_channel := channel_at (exchange s) c.

Definition set_ext_pri (c : nat) (exten : str) (pri : Z) : call -> call :=
  change c (fun ch => ch <| ch_exten := take 79 exten |> <| ch_priority := pri |>).

Definition has_flag (flag : Z) (ch : ast_channel) : bool := negb (Z.land (softhangup ch) flag =? 0).

Definition ast_channel_clear_softhangup (c : nat) (flag : Z) : call -> call :=
  change c (fun ch => ch <| softhangup ::= fun f => Z.ldiff f flag |>).

Definition ast_softhangup (c : nat) (cause : Z) : call -> call :=
  change c (fun ch => ch <| softhangup ::= fun f => Z.lor f cause |>).

Definition ast_check_hangup (now : timeval) (c : nat) (s : call) : outcome (bool * call) :=
  let* ch := here c s in
  if negb (softhangup ch =? 0) then Ret (true, s)
  else if ast_tvzero (whentohangup ch) then Ret (false, s)
  else if ast_tvdiff_ms (whentohangup ch) now >? 0 then Ret (false, s)
  else Ret (true, ast_softhangup c AST_SOFTHANGUP_TIMEOUT s).

(** A jump of an application: in the run the priority is one less, since it will be
    increased. *)
Definition ast_explicit_goto (chan : option nat) (context exten : option str) (priority : Z) (s : call) : Z * call :=
  match chan with
  | None => (-1, s)
  | Some c =>
      (0, change c (fun ch =>
        let ch := match default [] context with [] => ch | t => ch <| ch_context := take 79 t |> end in
        let ch := match default [] exten with [] => ch | t => ch <| ch_exten := take 79 t |> end in
        if priority >? -1 then ch <| ch_priority := if in_autoloop ch then priority - 1 else priority |> else ch) s)
  end.

(** ** The interface *)

(** [op_exists], [op_matchmore] and [op_spawn] are [ast_exists_extension],
    [ast_matchmore_extension] and [ast_spawn_extension] with the number of the caller;
    [op_spawn] executes what the channel is at, and tells whether it was found. *)
Class pbx_ops := {
  op_exists : nat -> str -> str -> Z -> call -> outcome (bool * call);
  op_matchmore : nat -> str -> str -> Z -> call -> outcome (bool * call);
  op_spawn : nat -> call -> outcome (Z * bool * call);
  op_waitfordigit : nat -> Z -> call -> outcome (Z * call);
  op_busy : nat -> call -> outcome (Z * call);
  op_congestion : nat -> call -> outcome (Z * call);
  op_hangup : nat -> call -> call;
  op_now : call -> timeval;
  op_memory : call -> bool
}.

Section run.
Context `{pbx_ops} (E : pbx_env) (autofallthrough : bool) (c : nat).

Definition exists_here (exten : str) (pri : Z) (s : call) : outcome (bool * call) :=
  let* ch := here c s in op_exists c (ch_context ch) exten pri s.

(** Without memory for it nothing is raised. *)
Definition raise_exception (reason : str) (priority : Z) (s : call) : outcome call :=
  let* ch := here c s in
  if bool_decide (ch_exception ch = None) && negb (op_memory s) then Ret s
  else Ret (set_ext_pri c (zs "e") priority
    (change c (fun ch => ch <| ch_exception := Some (mk_exception reason (ch_context ch) (ch_exten ch) (ch_priority ch)) |>) s)).

(** ** Digits *)

(** The string in a buffer of which some cells are written. *)
Fixpoint until_nul (cells : list Z) : str :=
  match cells with [] => [] | x :: cells => if x =? 0 then [] else x :: until_nul cells end.

Definition dtimeout (s : call) : outcome Z :=
  let* ch := here c s in let* p := oaccess (ch_pbx ch) in Ret (dtimeoutms p).

(** [buf] is what is written before the position; the result tells of an error. *)
Fixpoint collect_digits (fuel : nat) (waittime : Z) (buf : list Z) (buflen : nat) (s : call) : outcome (Z * list Z * call) :=
  match fuel with
  | O => NoFuel
  | S fuel =>
      let* ch := here c s in
      let* (more, s) := op_matchmore c (ch_context ch) (until_nul buf) 1 s in
      if negb more then Ret (0, buf, s)
      else
        let* (digit, s) := op_waitfordigit c waittime s in
        let* ch := here c s in
        if has_flag AST_SOFTHANGUP_ASYNCGOTO ch then
          collect_digits fuel waittime buf buflen (ast_channel_clear_softhangup c AST_SOFTHANGUP_ASYNCGOTO s)
        else if digit =? 0 then Ret (0, buf, s)
        else if digit <? 0 then Ret (-1, buf, s)
        else
          let buf := if (length buf <? buflen - 1)%nat then buf ++ [s8 digit] else buf in
          let* waittime := dtimeout s in
          collect_digits fuel waittime buf buflen s
  end.

(** ** Priorities *)

(** The absolute timeout is over: to [T] or [e], if there is one. *)
Definition timed_out (s : call) : outcome (bool * call) :=
  let over := fun s => ast_channel_clear_softhangup c AST_SOFTHANGUP_TIMEOUT (change c (fun ch => ch <| whentohangup := mk_tv 0 0 |>) s) in
  let* (to_T, s) := exists_here (zs "T") 1 s in
  if to_T then Ret (true, over (set_ext_pri c (zs "T") 1 s))
  else
    let* (to_e, s) := exists_here (zs "e") 1 s in
    if to_e then let* s := raise_exception (zs "ABSOLUTETIMEOUT") 1 s in Ret (true, over s)
    else Ret (false, s).

(** The loop on priorities: the last result, whether it was found, and [error]. *)
Fixpoint spawn_loop (fuel : nat) (s : call) : outcome (Z * bool * bool * call) :=
  match fuel with
  | O => NoFuel
  | S fuel =>
      let* (res, found, s) := op_spawn c s in
      if negb (res =? 0) then Ret (res, found, false, s)
      else
        let* (hung, s) := ast_check_hangup (op_now s) c s in
        if negb hung then spawn_loop fuel (change c (fun ch => ch <| ch_priority ::= Z.add 1 |>) s)
        else
          let* ch := here c s in
          if has_flag AST_SOFTHANGUP_ASYNCGOTO ch then spawn_loop fuel (ast_channel_clear_softhangup c AST_SOFTHANGUP_ASYNCGOTO s)
          else if has_flag AST_SOFTHANGUP_TIMEOUT ch then
            let* (go, s) := timed_out s in
            if go then spawn_loop fuel s else Ret (res, found, true, s)
          else Ret (res, found, true, s)
  end.

(** What follows the loop: the next round, the end with an error, or to go on with digits
    in the buffer. *)
Inductive spawn_verdict := Round (error : bool) | Failed | GoOn (dst_exten : list Z) (digit : Z) (invalid : bool).

(** [strchr("0123456789ABCDEF*#", res)], which also finds the NUL. *)
Definition is_digit_result (res : Z) : bool := (s8 res =? 0) || bool_decide (s8 res ∈ zs "0123456789ABCDEF*#").

Definition after_spawn (res : Z) (found error : bool) (s : call) : outcome (spawn_verdict * call) :=
  if negb (found && negb (res =? 0)) then Ret (GoOn [] 0 false, s)
  else if is_digit_result res then Ret (GoOn [s8 res] res false, s)
  else if res =? AST_PBX_INCOMPLETE then
    let* ch := here c s in
    let* (more, s) := op_matchmore c (ch_context ch) (ch_exten ch) 1 s in
    if negb more then Ret (GoOn [] 0 true, s)
    else let* ch := here c s in Ret (GoOn (take 255 (ch_exten ch)) 1 false, s)
  else
    let* (to_e, s) := (if res =? AST_PBX_ERROR then exists_here (zs "e") 1 s else Ret (false, s)) in
    let* ch := here c s in
    let again := bool_decide (ch_exten ch = zs "e") in
    if to_e && negb again then let* s := raise_exception (zs "ERROR") 1 s in Ret (Round error, s)
    else
      let error := error || to_e in
      if has_flag AST_SOFTHANGUP_ASYNCGOTO ch then Ret (Round error, ast_channel_clear_softhangup c AST_SOFTHANGUP_ASYNCGOTO s)
      else if has_flag AST_SOFTHANGUP_TIMEOUT ch then
        let* (go, s) := timed_out s in
        if go then Ret (Round error, s) else Ret (Failed, s)
      else Ret (Failed, s).

(** To [i] with the extension that is invalid, or to [e]. *)
Definition to_invalid (exten : str) (s : call) : outcome (bool * call) :=
  let* (to_i, s) := exists_here (zs "i") 1 s in
  if to_i then
    let* (_, w) := pbx_builtin_setvar_helper E (op_memory s) (exchange s) (Some c) (zs "INVALID_EXTEN") (Some exten) in
    Ret (true, set_ext_pri c (zs "i") 1 (s <| exchange := w |>))
  else
    let* (to_e, s) := exists_here (zs "e") 1 s in
    if to_e then let* s := raise_exception (zs "INVALID") 1 s in Ret (true, s) else Ret (false, s).

Definition to_timeout (s : call) : outcome (bool * call) :=
  let* (to_t, s) := exists_here (zs "t") 1 s in
  if to_t then Ret (true, set_ext_pri c (zs "t") 1 s)
  else
    let* (to_e, s) := exists_here (zs "e") 1 s in
    if to_e then let* s := raise_exception (zs "RESPONSETIMEOUT") 1 s in Ret (true, s) else Ret (false, s).

Definition auto_fallthrough (s : call) : outcome call :=
  let* status := pbx_builtin_getvar_helper (exchange s) (Some c) (Some (zs "DIALSTATUS")) in
  let status := default (zs "UNKNOWN") status in
  if same_name status (zs "CONGESTION") || same_name status (zs "CHANUNAVAIL") then let* (_, s) := op_congestion c s in Ret s
  else if same_name status (zs "BUSY") then let* (_, s) := op_busy c s in Ret s
  else Ret s.

(** The rest of a round: whether there is a next one, with [found] and [error]. *)
Inductive finish := NextRound | Leave (found error : bool).

Definition digits_round (fuel : nat) (res : Z) (dst_exten : list Z) (digit : Z) (found : bool) (s : call) : outcome (finish * call) :=
  let* ch := here c s in
  let* waittime := (if negb (digit =? 0) then dtimeout s
                    else if negb autofallthrough then let* p := oaccess (ch_pbx ch) in Ret (rtimeoutms p)
                    else Ret 0) in
  if waittime =? 0 then let* s := auto_fallthrough s in Ret (Leave found true, s)
  else
    let* (failed, dst, s) := collect_digits fuel waittime dst_exten 256 s in
    if negb (failed =? 0) then Ret (Leave found false, s)
    else
      let timeout := (res =? AST_PBX_INCOMPLETE) && bool_decide (until_nul (drop (length dst_exten) dst) = []) in
      let exten := until_nul dst in
      let* (valid, s) := (if timeout then Ret (false, s) else exists_here exten 1 s) in
      if valid then Ret (NextRound, set_ext_pri c exten 1 s)
      else
        let* (go, s) := (if negb timeout && negb (bool_decide (exten = [])) then to_invalid exten s else to_timeout s) in
        Ret (if go then NextRound else Leave true false, s).

(** A round of the main loop without its loop on priorities. *)
Definition end_round (fuel : nat) (res : Z) (dst_exten : list Z) (digit : Z) (invalid found : bool) (s : call) : outcome (finish * call) :=
  let* ch := here c s in
  let* (valid, s) := (if invalid then Ret (false, s)
                      else if bool_decide (until_nul dst_exten = []) then exists_here (ch_exten ch) 1 s
                      else Ret (true, s)) in
  if negb valid then
    let* ch := here c s in
    let* (go, s) := to_invalid (ch_exten ch) s in
    Ret (if go then NextRound else Leave found true, s)
  else
    let* ch := here c s in
    if has_flag AST_SOFTHANGUP_TIMEOUT ch then Ret (NextRound, ast_channel_clear_softhangup c AST_SOFTHANGUP_TIMEOUT s)
    else digits_round fuel res dst_exten digit found s.

(** The main loop. *)
Fixpoint main_loop (fuel : nat) (error : bool) (s : call) : outcome (bool * bool * call) :=
  match fuel with
  | O => NoFuel
  | S fuel =>
      let* (res, found, failed, s) := spawn_loop fuel s in
      let error := error || failed in
      let* (v, s) := after_spawn res found error s in
      match v with
      | Round error => main_loop fuel error s
      | Failed => Ret (found, true, s)
      | GoOn dst_exten digit invalid =>
          if error then Ret (found, error, s)
          else
            let* (next, s) := end_round fuel res dst_exten digit invalid found s in
            match next with
            | NextRound => main_loop fuel error s
            | Leave found error => Ret (found, error, s)
            end
      end
  end.

(** ** The run *)

(** The loop on the priorities of [h]. *)
Fixpoint h_loop (fuel : nat) (s : call) : outcome call :=
  match fuel with
  | O => NoFuel
  | S fuel =>
      let* (res, found, s) := op_spawn c s in
      if negb (res =? 0) then Ret s else h_loop fuel (change c (fun ch => ch <| ch_priority ::= Z.add 1 |>) s)
  end.

(** Where the run starts: where the channel is, [s], or [s] of [default]. *)
Definition start_at (s : call) : outcome call :=
  let* ch := here c s in
  let* (ex, s) := exists_here (ch_exten ch) (ch_priority ch) s in
  if ex then Ret s
  else
    let s := set_ext_pri c (zs "s") 1 s in
    let* (ex, s) := exists_here (zs "s") 1 s in
    if ex then Ret s else Ret (change c (fun ch => ch <| ch_context := zs "default" |>) s).

(** To [h], unless the channel is to be kept or [h] was run by a bridge. *)
Definition run_h (fuel : nat) (no_hangup_chan : bool) (s : call) : outcome call :=
  let* ch := here c s in
  if no_hangup_chan || bridge_hangup_run ch then Ret s
  else
    let* (ex, s) := exists_here (zs "h") 1 s in
    if ex then h_loop fuel (set_ext_pri c (zs "h") 1 s) else Ret s.

Definition __ast_pbx_run (fuel : nat) (no_hangup_chan : bool) (s : call) : outcome (Z * call) :=
  if negb (op_memory s) then Ret (-1, change c (fun ch => ch <| ch_pbx := None |>) s)
  else
    let* ch := here c s in
    let autoloopflag := in_autoloop ch in
    let* s := start_at (change c (fun ch => ch <| ch_pbx := Some (mk_ast_pbx 5000 10000) |> <| in_autoloop := true |>) s) in
    let* (found, error, s) := main_loop fuel false s in
    let s := if no_hangup_chan then s else ast_softhangup c AST_SOFTHANGUP_APPUNLOAD s in
    let* s := run_h fuel no_hangup_chan s in
    let s := change c (fun ch => ch <| in_autoloop := autoloopflag |> <| bridge_hangup_run := false |> <| ch_pbx := None |>) s in
    Ret (0, if no_hangup_chan then s else op_hangup c s).
End run.

(** ** The number of calls *)

(** [option_maxcalls] (0 is no limit), the calls that are running and all that were; the
    load of the machine allows a call or not. *)
Record call_counts := mk_counts { option_maxcalls : Z; countcalls : Z; totalcalls : Z }.

#[export] Instance eta_call_counts : Eta call_counts := fun n => mk_counts (option_maxcalls n) (countcalls n) (totalcalls n).

Definition increase_call_count (load_ok : bool) (n : call_counts) : Z * call_counts :=
  if negb (option_maxcalls n =? 0) && (countcalls n >=? option_maxcalls n) || negb load_ok then (-1, n)
  else (0, n <| countcalls ::= Z.add 1 |> <| totalcalls ::= Z.add 1 |>).

Definition decrease_call_count (n : call_counts) : call_counts :=
  if countcalls n >? 0 then n <| countcalls ::= fun k => k - 1 |> else n.

Abbreviation AST_PBX_FAILED := (-1).
Abbreviation AST_PBX_CALL_LIMIT := (-2).

(** [ast_pbx_run_args], with the run in the thread of the caller. *)
Definition ast_pbx_run_args `{pbx_ops} (E : pbx_env) (autofallthrough : bool) (c fuel : nat) (fully_booted load_ok no_hangup_chan : bool)
    (n : call_counts) (s : call) : outcome (Z * call_counts * call) :=
  if negb fully_booted then Ret (AST_PBX_FAILED, n, s)
  else
    let '(limit, n) := increase_call_count load_ok n in
    if negb (limit =? 0) then Ret (AST_PBX_CALL_LIMIT, n, s)
    else let* (res, s) := __ast_pbx_run E autofallthrough c fuel no_hangup_chan s in Ret (res, decrease_call_count n, s).

(** ** Collecting digits *)

Section collect.
Context `{pbx_ops} (c : nat) (buflen : nat).

(** What the channel does until no more digits come: [left] bounds the digits that are
    still to come and the jumps that are asked for, and the channel has what the run made
    for it. *)
Context (typing : call -> Prop) (left : call -> nat).

Record typing_laws : Prop := {
  ty_here s : typing s -> exists ch p, here c s = Ret ch /\ ch_pbx ch = Some p;
  ty_more s ctx exten : typing s -> exists more s', op_matchmore c ctx exten 1 s = Ret (more, s') /\ typing s' /\ (left s' <= left s)%nat;
  ty_digit s ms : typing s -> exists digit s' ch, op_waitfordigit c ms s = Ret (digit, s') /\ typing s' /\ here c s' = Ret ch /\
    (0 < digit \/ has_flag AST_SOFTHANGUP_ASYNCGOTO ch = true -> (left s' < left s)%nat);
  ty_clear s : typing s -> typing (ast_channel_clear_softhangup c AST_SOFTHANGUP_ASYNCGOTO s) /\
    left (ast_channel_clear_softhangup c AST_SOFTHANGUP_ASYNCGOTO s) = left s
}.

(** Why collecting ended: nothing more can match, no digit came in time, or the channel
    failed. *)
Definition ended (buf : list Z) (r : Z) (s : call) : Prop :=
  r = 0 /\ (exists ctx s0, op_matchmore c ctx (until_nul buf) 1 s0 = Ret (false, s)) \/
  exists ms s0 digit, op_waitfordigit c ms s0 = Ret (digit, s) /\ (r = 0 /\ digit = 0 \/ r = -1 /\ digit < 0).

(** C7: however many digits are dialled, [collect_digits] writes inside of its buffer,
    behind what was there, and leaves room for the NUL; it ends when no more digits come,
    with 0 when no extension begins with the digits and more of them or when a digit did not
    come in time, and with -1 only on an error of the channel. *)
Theorem collect_digits_correct fuel waittime buf s : typing_laws -> typing s -> (left s < fuel)%nat -> (length buf < buflen)%nat ->
  exists r more s', collect_digits c fuel waittime buf buflen s = Ret (r, buf ++ more, s') /\ typing s' /\
    (length (buf ++ more) < buflen)%nat /\ (r = 0 \/ r = -1) /\ ended (buf ++ more) r s'.
Proof.
  intros [Hhere Hmore Hdigit Hclear]. revert waittime buf s. induction fuel as [|fuel IH]; intros waittime buf s Hs Hfuel Hbuf; [lia|].
  cbn [collect_digits]. destruct (Hhere s Hs) as (ch & _ & Hch & _). rewrite Hch. cbn [obind].
  destruct (Hmore s (ch_context ch) (until_nul buf) Hs) as (more & s1 & Em & Hs1 & Hl1). rewrite Em. cbn [obind]. destruct more; cbn [negb].
  2:{ exists 0, [], s1. rewrite app_nil_r. split_and!; try done; [by left|]. left. split; [done|]. by eexists _, _. }
  destruct (Hdigit s1 waittime Hs1) as (digit & s2 & ch2 & Ed & Hs2 & Hch2 & Hl2). rewrite Ed. cbn [obind]. rewrite Hch2. cbn [obind].
  destruct (has_flag AST_SOFTHANGUP_ASYNCGOTO ch2) eqn:Ef.
  { destruct (Hclear s2 Hs2) as [Hs3 Hl3]. apply IH; [done|rewrite Hl3; specialize (Hl2 (or_intror eq_refl)); lia|done]. }
  destruct (Z.eqb_spec digit 0) as [->|Hd0].
  { exists 0, [], s2. rewrite app_nil_r. split_and!; try done; [by left|]. right. eexists _, _, 0. split; [done|]. by left. }
  destruct (Z.ltb_spec digit 0) as [Hneg|Hpos].
  { exists (-1), [], s2. rewrite app_nil_r. split_and!; try done; [by right|]. right. eexists _, _, digit. split; [done|]. by right. }
  unfold dtimeout. destruct (Hhere s2 Hs2) as (ch3 & p3 & -> & Hp). cbn [obind]. rewrite Hp. cbn [oaccess obind].
  assert (Hl : (left s2 < fuel)%nat) by (assert (left s2 < left s1)%nat by (apply Hl2; left; lia); lia).
  destruct (length buf <? buflen - 1)%nat eqn:El; [|by apply IH]. apply Nat.ltb_lt in El.
  destruct (IH (dtimeoutms p3) (buf ++ [s8 digit]) s2 Hs2 Hl) as (r & more & s' & -> & Hs' & Hlen & Hr & Hend).
  { rewrite length_app. cbn. lia. }
  exists r, ([s8 digit] ++ more), s'. by rewrite app_assoc.
Qed.
End collect.

(** ** After the hangup *)

Section hung.
Context `{pbx_ops} (E : pbx_env) (autofallthrough : bool) (c : nat) (present : str -> str -> Z -> bool).

Definition is_hung (ch : ast_channel) : Prop :=
  softhangup ch <> 0 /\ has_flag AST_SOFTHANGUP_ASYNCGOTO ch = false /\ has_flag AST_SOFTHANGUP_TIMEOUT ch = false /\ is_Some (ch_pbx ch).

(** The channel is hung up, for another reason than a jump or a timeout. *)
Definition hung (s : call) : Prop := exists ch, here c s = Ret ch /\ is_hung ch.

Definition same_place (s s' : call) : Prop :=
  exists ch ch', here c s = Ret ch /\ here c s' = Ret ch' /\
    ch_context ch' = ch_context ch /\ ch_exten ch' = ch_exten ch /\ ch_priority ch' = ch_priority ch.

(** The results of applications that are neither digits nor ask for more of them. *)
Definition reports_nothing (res : Z) : Prop := res = 0 \/ is_digit_result res = false /\ res <> AST_PBX_INCOMPLETE.

(** On a channel that is hung up no digits come, from the caller or from an application, and
    the dialplan stays as it is: [present] is what is in it.  An application may move the
    channel to any place, but for one that asks for [e]. *)
Record hung_laws : Prop := {
  hl_exists ctx exten pri s : hung s -> exists s', op_exists c ctx exten pri s = Ret (present ctx exten pri, s') /\ hung s' /\ same_place s s';
  hl_more ctx exten pri s : hung s -> exists more s', op_matchmore c ctx exten pri s = Ret (more, s') /\ hung s' /\ same_place s s';
  hl_spawn s ch : hung s -> here c s = Ret ch ->
    exists res s', op_spawn c s = Ret (res, present (ch_context ch) (ch_exten ch) (ch_priority ch), s') /\ hung s' /\
      if present (ch_context ch) (ch_exten ch) (ch_priority ch)
      then reports_nothing res /\ (res = AST_PBX_ERROR -> same_place s s') else res = -1;
  hl_digit ms s : hung s -> exists digit s', op_waitfordigit c ms s = Ret (digit, s') /\ hung s' /\ digit < 0;
  hl_busy s : hung s -> exists r s', op_busy c s = Ret (r, s') /\ hung s';
  hl_congestion s : hung s -> exists r s', op_congestion c s = Ret (r, s') /\ hung s';
  hl_memory s : hung s -> op_memory s = true
}.

Context (Hlaws : hung_laws).

Lemma here_change f s ch : here c s = Ret ch -> here c (change c f s) = Ret (f ch).
Proof.
  unfold here, channel_at, change. cbn. intros Hc. destruct (channels (exchange s) !! c) eqn:El; [|done]. injection Hc as ->.
  by rewrite list_lookup_alter_eq, El.
Qed.

Lemma hung_change f s : hung s -> (forall ch, softhangup (f ch) = softhangup ch /\ ch_pbx (f ch) = ch_pbx ch) -> hung (change c f s).
Proof.
  intros (ch & Hch & H1 & H2 & H3 & H4) Hf. exists (f ch). split; [by apply here_change|]. destruct (Hf ch) as [Hs Hp].
  unfold is_hung, has_flag in *. by rewrite Hs, Hp.
Qed.

Lemma hung_place exten pri s : hung s -> hung (set_ext_pri c exten pri s).
Proof. intros Hs. by apply hung_change. Qed.

(** The extension the run goes to is in the dialplan. *)
Definition at_present (s : call) : Prop :=
  exists ch, here c s = Ret ch /\ present (ch_context ch) (ch_exten ch) (ch_priority ch) = true.

Lemma exists_here_hung exten pri s : hung s ->
  exists b s', exists_here c exten pri s = Ret (b, s') /\ hung s' /\ same_place s s' /\
    (b = true -> take 79 exten = exten -> at_present (set_ext_pri c exten pri s')).
Proof.
  intros Hs. destruct (Hs) as (ch & Hch & _). unfold exists_here. rewrite Hch. cbn [obind].
  destruct (hl_exists Hlaws (ch_context ch) exten pri s Hs) as (s' & -> & Hs' & Hp). eexists _, s'. split; [done|]. split; [done|]. split; [done|].
  intros Hb Ht. destruct Hp as (ch0 & ch' & Hch0 & Hch' & Hc & _). eexists. split; [by apply here_change|]. cbn. rewrite Ht, Hc.
  by replace ch0 with ch by congruence.
Qed.

Lemma raise_hung reason s : hung s -> exists s', raise_exception c reason 1 s = Ret s' /\ hung s' /\
  (at_present (set_ext_pri c (zs "e") 1 s) -> at_present s').
Proof.
  intros Hs. destruct (Hs) as (ch & Hch & _). unfold raise_exception. rewrite Hch. cbn [obind]. rewrite (hl_memory Hlaws s Hs). cbn [negb].
  rewrite andb_false_r. eexists. split; [done|]. split; [by apply hung_place, hung_change|].
  intros (ch' & Hch' & Hp). eexists. split; [by apply here_change, here_change|]. cbn. unfold set_ext_pri in Hch'. rewrite (here_change _ _ _ Hch) in Hch'.
  injection Hch' as <-. exact Hp.
Qed.

Lemma setvar_hung s value : hung s ->
  exists w, pbx_builtin_setvar_helper E true (exchange s) (Some c) (zs "INVALID_EXTEN") (Some value) = Ret (0, w) /\ hung (s <| exchange := w |>) /\
    same_place s (s <| exchange := w |>).
Proof.
  intros (ch & Hch & Hh). unfold pbx_builtin_setvar_helper. change (names_function (zs "INVALID_EXTEN")) with (Ret false : outcome bool). cbn [obind].
  unfold update_vars. unfold here in Hch. rewrite Hch. cbn [obind]. eexists. split; [done|].
  set (l := _ :: _). assert (Hw : here c (s <| exchange := set_varshead c l (exchange s) |>) = Ret (ch <| varshead := l |>)).
  { exact (here_change (fun ch => ch <| varshead := l |>) s ch Hch). }
  split; [by eexists|by exists ch, (ch <| varshead := l |>)].
Qed.

Lemma to_invalid_hung exten s : hung s -> exists b s', to_invalid E c exten s = Ret (b, s') /\ hung s' /\ (b = true -> at_present s').
Proof.
  intros Hs. unfold to_invalid. destruct (exists_here_hung (zs "i") 1 s Hs) as (b & s1 & -> & Hs1 & _ & Hp). cbn [obind]. destruct b.
  - rewrite (hl_memory Hlaws s1 Hs1). destruct (setvar_hung s1 exten Hs1) as (w & -> & Hw & Hplace). cbn [obind]. eexists true, _. split; [done|].
    split; [by apply hung_place|]. intros _. destruct (Hp eq_refl eq_refl) as (ch & Hch & Hpres).
    destruct Hplace as (ch1 & ch2 & Hch1 & Hch2 & Hctx & _). unfold set_ext_pri in Hch. rewrite (here_change _ _ _ Hch1) in Hch. injection Hch as <-.
    eexists. split; [by apply here_change|]. cbn in *. by rewrite Hctx.
  - destruct (exists_here_hung (zs "e") 1 s1 Hs1) as (b & s2 & -> & Hs2 & _ & Hp2). cbn [obind]. destruct b; [|by exists false, s2].
    destruct (raise_hung (zs "INVALID") s2 Hs2) as (s3 & -> & Hs3 & Hp3). cbn [obind]. exists true, s3. split_and!; [done|done|auto].
Qed.

Lemma to_timeout_hung s : hung s -> exists b s', to_timeout c s = Ret (b, s') /\ hung s' /\ (b = true -> at_present s').
Proof.
  intros Hs. unfold to_timeout. destruct (exists_here_hung (zs "t") 1 s Hs) as (b & s1 & -> & Hs1 & _ & Hp). cbn [obind]. destruct b.
  - eexists true, _. split; [done|]. split; [by apply hung_place|auto].
  - destruct (exists_here_hung (zs "e") 1 s1 Hs1) as (b & s2 & -> & Hs2 & _ & Hp2). cbn [obind]. destruct b; [|by exists false, s2].
    destruct (raise_hung (zs "RESPONSETIMEOUT") s2 Hs2) as (s3 & -> & Hs3 & Hp3). cbn [obind]. exists true, s3. split_and!; [done|done|auto].
Qed.

Lemma fallthrough_hung s : hung s -> exists s', auto_fallthrough c s = Ret s' /\ hung s'.
Proof.
  intros Hs. destruct (Hs) as (ch & Hch & _). unfold auto_fallthrough, pbx_builtin_getvar_helper. unfold here in Hch. rewrite Hch. cbn [obind].
  set (status := default _ _). clearbody status. destruct (_ || _); [|destruct (same_name status _)]; [..|by exists s].
  - destruct (hl_congestion Hlaws s Hs) as (r & s' & -> & Hs'). by exists s'.
  - destruct (hl_busy Hlaws s Hs) as (r & s' & -> & Hs'). by exists s'.
Qed.

(** Nothing was dialled: a round without digits. *)
Lemma digits_round_hung fuel res found s : (0 < fuel)%nat -> res <> AST_PBX_INCOMPLETE -> hung s ->
  exists next s', digits_round E autofallthrough c fuel res [] 0 found s = Ret (next, s') /\ hung s' /\ (next = NextRound -> at_present s').
Proof.
  intros Hfuel Hres Hs. destruct (Hs) as (ch & Hch & Hh). unfold digits_round. rewrite Hch. cbn [obind Z.eqb negb].
  destruct (proj2 (proj2 (proj2 Hh))) as [p Hp].
  assert (Hw : exists waittime, (if negb autofallthrough then let* p := oaccess (ch_pbx ch) in Ret (rtimeoutms p) else Ret 0) = Ret waittime).
  { destruct autofallthrough; [by exists 0|]. rewrite Hp. by eexists. }
  destruct Hw as [waittime ->]. cbn [obind]. destruct (waittime =? 0).
  { destruct (fallthrough_hung s Hs) as (s' & -> & Hs'). cbn [obind]. by eexists _, s'. }
  destruct fuel as [|fuel]; [lia|]. cbn [collect_digits]. rewrite Hch. cbn [obind until_nul].
  destruct (hl_more Hlaws (ch_context ch) [] 1 s Hs) as (more & s1 & -> & Hs1 & _). cbn [obind]. destruct more; cbn [negb].
  - destruct (hl_digit Hlaws waittime s1 Hs1) as (digit & s2 & -> & Hs2 & Hd). cbn [obind]. destruct (Hs2) as (ch2 & Hch2 & Hh2).
    rewrite Hch2. cbn [obind]. rewrite (proj1 (proj2 Hh2)). rewrite (proj2 (Z.eqb_neq digit 0)) by lia. rewrite (proj2 (Z.ltb_lt digit 0)) by lia.
    by eexists _, s2.
  - cbn [obind Z.eqb negb]. rewrite (proj2 (Z.eqb_neq _ _) Hres). cbn [andb until_nul].
    destruct (exists_here_hung [] 1 s1 Hs1) as (b & s2 & -> & Hs2 & _ & Hp2). cbn [obind]. destruct b.
    + eexists _, _. split; [done|]. split; [by apply hung_place|auto].
    + rewrite bool_decide_eq_true_2 by done. cbn [negb andb]. destruct (to_timeout_hung s2 Hs2) as (b & s3 & -> & Hs3 & Hp3). cbn [obind].
      eexists _, s3. split; [done|]. split; [done|]. destruct b; [auto|done].
Qed.

Lemma end_round_hung fuel res found s : (0 < fuel)%nat -> res <> AST_PBX_INCOMPLETE -> hung s ->
  exists next s', end_round E autofallthrough c fuel res [] 0 false found s = Ret (next, s') /\ hung s' /\ (next = NextRound -> at_present s').
Proof.
  intros Hfuel Hres Hs. destruct (Hs) as (ch & Hch & Hh). unfold end_round. rewrite Hch. cbn [obind until_nul].
  rewrite bool_decide_eq_true_2 by done. destruct (exists_here_hung (ch_exten ch) 1 s Hs) as (b & s1 & -> & Hs1 & _). cbn [obind].
  destruct (Hs1) as (ch1 & Hch1 & Hh1). rewrite Hch1. cbn [obind]. destruct b; cbn [negb].
  - rewrite (proj1 (proj2 (proj2 Hh1))). by apply digits_round_hung.
  - destruct (to_invalid_hung (ch_exten ch1) s1 Hs1) as (b & s2 & -> & Hs2 & Hp). cbn [obind]. eexists _, s2. split; [done|]. split; [done|].
    destruct b; [auto|done].
Qed.

(** One priority is executed, and then the loop is over. *)
Lemma spawn_loop_hung fuel s : (0 < fuel)%nat -> hung s -> exists res found failed s', spawn_loop c fuel s = Ret (res, found, failed, s') /\ hung s' /\
  (at_present s -> found = true) /\ (found = false -> res = -1) /\
  (res = 0 /\ failed = true \/ res <> 0 /\ failed = false /\ reports_nothing res /\ (res = AST_PBX_ERROR -> same_place s s')).
Proof.
  intros Hfuel Hs. destruct (Hs) as (ch & Hch & _). destruct fuel as [|fuel]; [lia|]. cbn [spawn_loop].
  destruct (hl_spawn Hlaws s ch Hs Hch) as (res & s1 & -> & Hs1 & Hres). cbn [obind].
  assert (Hfound : at_present s -> present (ch_context ch) (ch_exten ch) (ch_priority ch) = true).
  { intros (ch' & Hch' & Hp). by replace ch with ch' by congruence. }
  assert (Hres' : reports_nothing res /\ (res = AST_PBX_ERROR -> same_place s s1) /\ (present (ch_context ch) (ch_exten ch) (ch_priority ch) = false -> res = -1)).
  { destruct (present _ _ _); [by destruct Hres|]. subst res. split_and!; [by right|done|done]. }
  clear Hres. destruct Hres' as (Hno & Hplace & Hm1). destruct (Z.eqb_spec res 0) as [->|H0]; cbn [negb].
  - destruct (Hs1) as (ch1 & Hch1 & Hh1). destruct (Hh1) as (Hf & Ha & Ht & _). unfold ast_check_hangup. rewrite Hch1. cbn [obind].
    rewrite (proj2 (Z.eqb_neq _ _) Hf). cbn [negb obind]. rewrite Hch1. cbn [obind]. rewrite Ha, Ht. eexists _, _, _, s1. split_and!; auto.
  - eexists _, _, _, s1. split_and!; auto.
Qed.

(** After an application that failed: to [e], or out of the loop. *)
Lemma after_spawn_hung res error s : hung s -> res <> 0 -> reports_nothing res ->
  exists v s', after_spawn c res true error s = Ret (v, s') /\ hung s' /\
    (v = Failed \/ res = AST_PBX_ERROR /\ v = Round error /\ at_present s' /\
      (exists ch, here c s = Ret ch /\ ch_exten ch <> zs "e") /\ exists ch', here c s' = Ret ch' /\ ch_exten ch' = zs "e").
Proof.
  intros Hs H0 [|[Hd Hi]]; [done|]. destruct (Hs) as (ch & Hch & _ & Ha & Ht & _).
  unfold after_spawn. rewrite (proj2 (Z.eqb_neq res 0)) by done. cbn [negb andb]. rewrite Hd, (proj2 (Z.eqb_neq _ _) Hi).
  assert (Hout : forall error s1, hung s1 -> here c s1 = here c s -> exists v s',
      (let* ch := here c s1 in
       if has_flag AST_SOFTHANGUP_ASYNCGOTO ch then Ret (Round error, ast_channel_clear_softhangup c AST_SOFTHANGUP_ASYNCGOTO s1)
       else if has_flag AST_SOFTHANGUP_TIMEOUT ch then
         let* (go, s1) := timed_out c s1 in
         if go then Ret (Round error, s1) else Ret (Failed, s1)
       else Ret (Failed, s1)) = Ret (v, s') /\ hung s' /\ v = Failed).
  { intros error1 s1 Hs1 Eh. rewrite Eh, Hch. cbn [obind]. rewrite Ha, Ht. by eexists _, s1. }
  destruct (Z.eqb_spec res AST_PBX_ERROR) as [->|He].
  - destruct (exists_here_hung (zs "e") 1 s Hs) as (b & s1 & -> & Hs1 & Hp & Hpres). cbn [obind].
    destruct (Hs1) as (ch1 & Hch1 & _ & Ha1 & Ht1 & _). rewrite Hch1. cbn [obind]. destruct Hp as (ch0 & ch1' & Hch0 & Hch1' & _ & Hx & _).
    assert (ch0 = ch) as -> by congruence. assert (ch1' = ch1) as -> by congruence.
    destruct (bool_decide (ch_exten ch1 = zs "e")) eqn:Eb; cbn [negb]; [rewrite andb_false_r|destruct b; cbn [andb]].
    + rewrite Ha1, Ht1. eexists _, s1. auto.
    + destruct (raise_hung (zs "ERROR") s1 Hs1) as (s2 & Er & Hs2 & Hp2). rewrite Er. cbn [obind]. eexists _, s2. split; [done|]. split; [done|]. right.
      split; [done|]. split; [done|]. split; [by apply Hp2, Hpres|]. split.
      * exists ch. split; [done|]. apply bool_decide_eq_false in Eb. by rewrite <- Hx.
      * unfold raise_exception in Er. rewrite Hch1 in Er. cbn [obind] in Er. rewrite (hl_memory Hlaws s1 Hs1) in Er. cbn [negb] in Er.
        rewrite andb_false_r in Er. injection Er as <-. eexists. split; [by apply here_change, here_change|done].
    + rewrite Ha1, Ht1. eexists _, s1. auto.
  - cbn [obind]. rewrite Hch. cbn [obind andb]. rewrite Ha, Ht. eexists _, s. auto.
Qed.

(** The main loop: it ends with the first round in [e], otherwise in the dialplan with the
    second at the latest, and with the third elsewhere. *)
Lemma main_loop_round fuel error s : (0 < fuel)%nat -> hung s -> at_present s ->
  (forall error s', hung s' -> at_present s' -> (exists ch', here c s' = Ret ch' /\ ch_exten ch' = zs "e") ->
     (exists ch, here c s = Ret ch /\ ch_exten ch <> zs "e") ->
     exists found error' s'', main_loop E autofallthrough c fuel error s' = Ret (found, error', s'') /\ hung s'') ->
  exists found error' s', main_loop E autofallthrough c (S fuel) error s = Ret (found, error', s') /\ hung s'.
Proof.
  intros Hfuel Hs Hp Hnext. cbn [main_loop].
  destruct (spawn_loop_hung fuel s) as (res & found & failed & s1 & -> & Hs1 & Hf & _ & Hres); [lia|done|]. cbn [obind]. rewrite (Hf Hp).
  destruct Hres as [[-> ->]|(H0 & -> & Hno & Hplace)].
  - cbn. rewrite orb_true_r. by eexists _, _, s1.
  - rewrite orb_false_r. destruct (after_spawn_hung res error s1 Hs1 H0 Hno) as (v & s2 & -> & Hs2 & Hv). cbn [obind].
    destruct Hv as [-> |(He & -> & Hp2 & (ch1 & Hch1 & Hne) & He2)]; [by eexists _, _, s2|].
    apply Hnext; try done. destruct (Hplace He) as (ch & ch' & Hch & Hch' & _ & Hx & _). exists ch. split; [done|]. rewrite <- Hx. congruence.
Qed.

Lemma main_loop_present fuel error s : (2 < fuel)%nat -> hung s -> at_present s ->
  exists found error' s', main_loop E autofallthrough c fuel error s = Ret (found, error', s') /\ hung s'.
Proof.
  intros Hfuel Hs Hp. destruct fuel as [|[|fuel]]; [lia..|]. apply main_loop_round; [lia|done|done|].
  intros error1 s1 Hs1 Hp1 (ch1 & Hch1 & He) _. apply main_loop_round; [lia|done|done|].
  intros error2 s2 Hs2 Hp2 _ (ch & Hch & Hne). congruence.
Qed.

Lemma main_loop_hung fuel error s : (3 < fuel)%nat -> hung s ->
  exists found error' s', main_loop E autofallthrough c fuel error s = Ret (found, error', s') /\ hung s'.
Proof.
  intros Hfuel Hs. destruct fuel as [|fuel]; [lia|]. cbn [main_loop].
  destruct (spawn_loop_hung fuel s) as (res & found & failed & s1 & -> & Hs1 & _ & Hnf & Hres); [lia|done|]. cbn [obind].
  destruct Hres as [[-> ->]|(H0 & -> & Hno & _)].
  - unfold after_spawn. rewrite andb_false_r. cbn [negb obind]. rewrite orb_true_r. by eexists _, _, s1.
  - rewrite orb_false_r. destruct found.
    + destruct (after_spawn_hung res error s1 Hs1 H0 Hno) as (v & s2 & -> & Hs2 & Hv). cbn [obind].
      destruct Hv as [-> |(_ & -> & Hp2 & _)]; [by eexists _, _, s2|]. by apply main_loop_present; [lia|..].
    + rewrite (Hnf eq_refl). unfold after_spawn. cbn [andb negb obind]. destruct error; [by eexists _, _, s1|].
      destruct (end_round_hung fuel (-1) false s1) as (next & s2 & -> & Hs2 & Hp); [lia|done|done|]. cbn [obind].
      destruct next as [|found error]; [|by eexists _, _, s2]. apply main_loop_present; [lia|done|auto].
Qed.

(** No application of the dialplan moves the channel to an earlier priority. *)
Definition no_jumps_back : Prop := forall s ch found s' ch', hung s -> here c s = Ret ch ->
  op_spawn c s = Ret (0, found, s') -> here c s' = Ret ch' -> ch_priority ch <= ch_priority ch'.

(** The priorities of [h] that there are, up to [last]. *)
Lemma h_loop_hung last fuel s : no_jumps_back -> hung s -> (forall ctx exten pri, last < pri -> present ctx exten pri = false) ->
  (exists ch, here c s = Ret ch /\ last - ch_priority ch < Z.of_nat fuel - 1) -> (0 < fuel)%nat ->
  exists s', h_loop c fuel s = Ret s' /\ hung s'.
Proof.
  intros Hback Hs Hlast. revert s Hs. induction fuel as [|fuel IH]; intros s Hs (ch & Hch & Hfuel) H0; [lia|].
  cbn [h_loop]. destruct (hl_spawn Hlaws s ch Hs Hch) as (res & s1 & E1 & Hs1 & Hres). rewrite E1. cbn [obind].
  destruct (Z.eqb_spec res 0) as [->|Hne]; cbn [negb]; [|by exists s1]. destruct (Hs1) as (ch1 & Hch1 & _).
  pose proof (Hback s ch _ s1 ch1 Hs Hch E1 Hch1) as Hpri.
  destruct (present (ch_context ch) (ch_exten ch) (ch_priority ch)) eqn:Ep; [|lia].
  assert (ch_priority ch <= last). { destruct (Z.le_gt_cases (ch_priority ch) last) as [|Hgt]; [done|]. rewrite (Hlast _ _ _ Hgt) in Ep. done. }
  apply IH; [by apply hung_change| |lia]. eexists. split; [by apply here_change|]. cbn. lia.
Qed.

End hung.

(** ** The dialplan as an implementation *)

(** The first three operations are the search of Contexts.v; what the channel does is a
    parameter. *)
Section dialplan_ops.
Context (ast_calloc : gmap positive match_char -> option positive).
Context (E : pbx_env) (switches : list ast_switch) (overrideswitch : str) (extenpatternmatchnew : bool).
Context (ast_localtime : timeval -> option str -> ast_tm) (pbx_findapp : str -> option (pbx -> nat -> str -> Z * pbx)).
Context (waitfordigit : nat -> Z -> call -> outcome (Z * call)) (busy congestion : nat -> call -> outcome (Z * call)).
Context (ast_hangup : nat -> call -> call) (clock : call -> timeval).

Definition dialplan_query (query : list context -> pbx -> option nat -> option str -> str -> Z -> option str -> outcome (Z * bool * search))
    (c : nat) (ctx exten : str) (pri : Z) (s : call) : outcome (bool * call) :=
  let* ch := here c s in
  let* (r, _, q) := query (dialplan s) (exchange s) (Some c) (Some ctx) exten pri (caller_number ch) in
  Ret (negb (r =? 0), mk_call (s_contexts q) (s_pbx q)).

#[local] Instance dialplan_ops : pbx_ops := {
  op_exists c ctx exten pri s := dialplan_query
    (ast_exists_extension ast_calloc E switches overrideswitch extenpatternmatchnew ast_localtime (clock s) pbx_findapp) c ctx exten pri s;
  op_matchmore c ctx exten pri s := dialplan_query
    (ast_matchmore_extension ast_calloc E switches overrideswitch extenpatternmatchnew ast_localtime (clock s) pbx_findapp) c ctx exten pri s;
  op_spawn c s :=
    let* ch := here c s in
    let* (r, found, q) := ast_spawn_extension ast_calloc E switches overrideswitch extenpatternmatchnew ast_localtime (clock s) pbx_findapp
      (dialplan s) (exchange s) (Some c) (Some (ch_context ch)) (ch_exten ch) (ch_priority ch) (caller_number ch) in
    Ret (r, found, mk_call (s_contexts q) (s_pbx q));
  op_waitfordigit := waitfordigit;
  op_busy := busy;
  op_congestion := congestion;
  op_hangup := ast_hangup;
  op_now := clock;
  op_memory _ := true
}.
End dialplan_ops.

(** *** A call *)

(** Applications that write what they do into a global variable, jump, hang up, or return
    the number in their data. *)
Definition note (w : pbx) (what : str) : pbx := w <| globals ::= cons (mk_var (zs "done") what) |>.

Definition sample_apps (name : str) : option (pbx -> nat -> str -> Z * pbx) :=
  if bool_decide (name = zs "Say") then Some (fun w _ data => (0, note w data))
  else if bool_decide (name = zs "Goto") then
    Some (fun w c data => let '(r, s) := ast_explicit_goto (Some c) None (Some data) 1 (mk_call [] w) in (r, exchange s))
  else if bool_decide (name = zs "Hangup") then Some (fun w c _ => (-1, exchange (ast_softhangup c AST_SOFTHANGUP_DEV (mk_call [] w))))
  else if bool_decide (name = zs "Read") then Some (fun w _ data => (deref data, note w (zs "read")))
  else None.

Definition said (s : call) : list str := reverse (var_val <$> List.filter (fun v => bool_decide (var_full v = zs "done")) (globals (exchange s))).

Definition say (pri : Z) (what : string) : ast_peer := mk_peer pri None (zs "Say") (Some (zs what)) [].
Definition peer_do (pri : Z) (app data : string) : ast_peer := mk_peer pri None (zs app) (Some (zs data)) [].
Definition sample_exten (name : string) (peers : list ast_peer) : ast_exten := mk_exten (zs name) false [] peers [].

(** The digits that are typed are in a variable of the exchange. *)
Definition type_digit (c : nat) (ms : Z) (s : call) : outcome (Z * call) :=
  match find_exact (zs "typed") (globals (exchange s)) with
  | Some (d :: rest) => Ret (d, s <| exchange ::= fun w => w <| globals ::= cons (mk_var (zs "typed") rest) |> |>)
  | _ => Ret (0, s)
  end.

Definition sample_ops : pbx_ops :=
  dialplan_ops fresh_calloc (sample_env []) [] [] false ex_clock sample_apps type_digit (fun _ s => Ret (-1, s)) (fun _ s => Ret (-1, s))
    (fun c s => ast_softhangup c AST_SOFTHANGUP_DEV s) (fun _ => mk_tv 1000 0).

Definition call_with (extens : list ast_exten) (start typed : string) : call :=
  let con := mk_cx (zs "default") extens (Some extens) empty_context [] [] [] in
  mk_call [con] (mk_pbx [mk_var (zs "typed") (zs typed)] [sample_channel <| ch_exten := zs start |>] 1000 [] []).

(** What is said, where the run ends, and the flags that it leaves. *)
Definition run_call (extens : list ast_exten) (start typed : string) : option (list str * (str * Z) * bool * bool) :=
  match __ast_pbx_run (H := sample_ops) (sample_env []) true 0 60 false (call_with extens start typed) with
  | Ret (0, s) =>
      match here 0 s with
      | Ret ch => Some (said s, (ch_exten ch, ch_priority ch), in_autoloop ch, bool_decide (is_Some (ch_pbx ch)))
      | _ => None
      end
  | _ => None
  end.

(** A menu: the digit that was read and those that are typed make the extension [12], which
    jumps to [bye]; in the end the priorities of [h] are executed. *)
Lemma sample_run :
  let menu := sample_exten "s" [say 1 "welcome"; peer_do 2 "Read" "1"] in
  let choice := sample_exten "12" [say 1 "twelve"; peer_do 2 "Goto" "bye"] in
  let bye := sample_exten "bye" [say 1 "bye"; peer_do 2 "Hangup" ""] in
  let h := sample_exten "h" [say 1 "after"; say 2 "the end"] in
  run_call [menu; choice; bye; h] "s" "2" = Some (zs <$> ["welcome"; "read"; "twelve"; "bye"; "after"; "the end"], (zs "h", 3), false, false).
Proof. vm_compute. reflexivity. Qed.

(** What was typed does not exist: to [i], and without it the call ends with [h]. *)
Lemma sample_run_invalid :
  let menu := sample_exten "s" [peer_do 1 "Read" "1"] in
  let i := sample_exten "i" [say 1 "invalid"; peer_do 2 "Hangup" ""] in
  let longer := sample_exten "123" [say 1 "never"] in
  let h := sample_exten "h" [say 1 "after"] in
  run_call [menu; longer; i; h] "s" "25" = Some (zs <$> ["read"; "invalid"; "after"], (zs "h", 2), false, false) /\
  run_call [menu; longer; h] "s" "25" = Some (zs <$> ["read"; "after"], (zs "h", 2), false, false).
Proof. vm_compute. split; reflexivity. Qed.

(** A channel that starts nowhere goes to [s]. *)
Lemma sample_run_start :
  let menu := sample_exten "s" [say 1 "start"; say 2 "more"; peer_do 3 "Hangup" ""] in
  run_call [menu] "77" "" = Some (zs <$> ["start"; "more"], (zs "s", 3), false, false).
Proof. vm_compute. reflexivity. Qed.

(** *** A dialplan of two extensions *)

(** [s] has two priorities and [h] one; extensions have up to three digits, and the channel
    is as above, without memory if [memory] says so. *)
Definition tiny (ctx exten : str) (pri : Z) : bool :=
  bool_decide (exten = zs "s") && (1 <=? pri) && (pri <=? 2) || bool_decide (exten = zs "h") && (pri =? 1).

Definition tiny_ops (present : str -> str -> Z -> bool) (memory : bool) : pbx_ops := {|
  op_exists c ctx exten pri s := Ret (present ctx exten pri, s);
  op_matchmore c ctx exten pri s := Ret ((length exten <? 3)%nat, s);
  op_spawn c s :=
    let* ch := here c s in
    Ret (if present (ch_context ch) (ch_exten ch) (ch_priority ch) then 0 else -1, present (ch_context ch) (ch_exten ch) (ch_priority ch), s);
  op_waitfordigit c ms s := let* ch := here c s in if softhangup ch =? 0 then type_digit c ms s else Ret (-1, s);
  op_busy c s := Ret (-1, s);
  op_congestion c s := Ret (-1, s);
  op_hangup c s := s;
  op_now s := mk_tv 0 0;
  op_memory s := memory
|}.

Definition tiny_call (flags : Z) (typed : str) : call :=
  mk_call [] (mk_pbx [mk_var (zs "typed") typed]
    [sample_channel <| ch_exten := zs "s" |> <| softhangup := flags |> <| ch_pbx := Some (mk_ast_pbx 5000 10000) |>] 1000 [] []).

Definition typing_now (s : call) : Prop := exists ch p, here 0 s = Ret ch /\ ch_pbx ch = Some p /\ softhangup ch = 0.

Definition digits_left (s : call) : nat := length (default [] (find_exact (zs "typed") (globals (exchange s)))).

Lemma tiny_typing : typing_laws (H := tiny_ops tiny true) 0 typing_now digits_left.
Proof.
  split.
  - intros s (ch & p & Hch & Hp & _). by exists ch, p.
  - intros s ctx exten Hs. by eexists _, s.
  - intros s ms (ch & p & Hch & Hp & H0). cbn. rewrite Hch. cbn [obind]. rewrite H0. cbn [Z.eqb]. unfold type_digit.
    destruct (find_exact (zs "typed") (globals (exchange s))) as [[|d rest]|] eqn:E.
    + exists 0, s, ch. split_and!; [done|by exists ch, p|done|]. intros [?|Hf]; [lia|]. unfold has_flag in Hf. by rewrite H0 in Hf.
    + set (s' := s <| exchange ::= _ |>). exists d, s', ch. split_and!; [done|by exists ch, p|done|]. intros _.
      unfold digits_left. rewrite E. change (find_exact (zs "typed") (globals (exchange s'))) with (Some rest). cbn. lia.
    + exists 0, s, ch. split_and!; [done|by exists ch, p|done|]. intros [?|Hf]; [lia|]. unfold has_flag in Hf. by rewrite H0 in Hf.
  - intros s (ch & p & Hch & Hp & H0). split; [|done]. eexists _, p. split; [by apply here_change|]. cbn. rewrite H0. done.
Qed.

Lemma collect_digits_correct_witness : exists r more s',
  collect_digits (H := tiny_ops tiny true) 0 9 5000 (zs "1") 256 (tiny_call 0 (zs "234")) = Ret (r, zs "1" ++ more, s') /\ typing_now s' /\
  (length (zs "1" ++ more) < 256)%nat /\ (r = 0 \/ r = -1) /\ ended (H := tiny_ops tiny true) 0 (zs "1" ++ more) r s'.
Proof.
  apply (collect_digits_correct (H := tiny_ops tiny true) 0 256 typing_now digits_left 9 5000 (zs "1") (tiny_call 0 (zs "234")) tiny_typing).
  - eexists _, _. split; [vm_compute; reflexivity|]. split; reflexivity.
  - vm_compute. lia.
  - vm_compute. lia.
Defined.

Lemma tiny_hung : hung_laws (H := tiny_ops tiny true) 0 tiny.
Proof.
  assert (Hplace : forall s, hung 0 s -> same_place 0 s s) by (intros s (ch & Hch & _); by exists ch, ch).
  split.
  - intros ctx exten pri s Hs. exists s. auto.
  - intros ctx exten pri s Hs. eexists _, s. auto.
  - intros s ch Hs Hch. cbn. rewrite Hch. cbn [obind]. eexists _, s. split; [done|]. split; [done|]. destruct (tiny _ _ _); [|done]. split; [by left|auto].
  - intros ms s Hs. destruct (Hs) as (ch & Hch & Hf & _). cbn. rewrite Hch. cbn [obind]. rewrite (proj2 (Z.eqb_neq _ _) Hf). exists (-1), s. split_and!; [done..|lia].
  - intros s Hs. by eexists _, s.
  - intros s Hs. by eexists _, s.
  - done.
Qed.

Lemma tiny_no_jumps : no_jumps_back (H := tiny_ops tiny true) 0.
Proof. intros s ch found s' ch' _ Hch Es Hch'. cbn in Es. rewrite Hch in Es. injection Es as _ _ <-. assert (ch' = ch) as -> by congruence. done. Qed.


(** *** What the run does besides *)

(** [raise_exception] does nothing without memory, which the run does not look at: with
    [e] and no other special extension, a channel in an extension that does not exist goes
    round and round. *)
Lemma exception_memory_loop fuel :
  let only_e := fun _ exten pri => bool_decide (exten = zs "e") && (pri =? 1) in
  main_loop (H := tiny_ops only_e false) (sample_env []) true 0 fuel false (tiny_call 0 []) = NoFuel.
Proof. cbn zeta. induction fuel as [|fuel IH]; [done|]. destruct fuel as [|fuel]; [done|exact IH]. Qed.

(** The loop on [h] looks neither at the hangup nor at how often it goes round: an [h] that
    jumps to itself keeps a channel that is gone for ever. *)
Definition h_call : call := call_with [sample_exten "h" [peer_do 1 "Goto" "h"]] "h" "".

Definition h_hung : call :=
  change 0 (fun ch => ch <| ch_pbx := Some (mk_ast_pbx 5000 10000) |> <| in_autoloop := true |> <| softhangup := AST_SOFTHANGUP_DEV |>) h_call.

(** The search has made the tree of the context. *)
Definition h_there : call :=
  match exists_here (H := sample_ops) 0 (zs "h") 1 h_hung with Ret (_, s) => s | _ => h_hung end.

Lemma h_goto_runs_for_ever fuel : run_h (H := sample_ops) 0 fuel false h_hung = NoFuel.
Proof.
  assert (Hx : exists_here (H := sample_ops) 0 (zs "h") 1 h_hung = Ret (true, h_there)) by (vm_compute; reflexivity).
  unfold run_h. change (here 0 h_hung) with (Ret (default sample_channel (channels (exchange h_hung) !! 0%nat))). cbn [obind].
  change (bridge_hangup_run _) with false. cbn [orb]. rewrite Hx. cbn [obind]. clear Hx.
  set (st := set_ext_pri 0 (zs "h") 1 h_there). assert (Hs : exists s', op_spawn (pbx_ops := sample_ops) 0 st = Ret (0, true, s') /\
    change 0 (fun ch => ch <| ch_priority ::= Z.add 1 |>) s' = st) by (eexists; split; vm_compute; reflexivity).
  destruct Hs as (s' & Es & Ec). induction fuel as [|fuel IH]; [done|]. cbn [h_loop]. rewrite Es. cbn [obind Z.eqb negb]. by rewrite Ec.
Qed.

(** [strchr] looks for the low byte of the result and finds the NUL: an application that
    returns a multiple of 256 is taken to have read a digit. *)
Lemma result_256_is_digit : is_digit_result 256 = true /\ is_digit_result (256 + 49) = true /\ is_digit_result 1 = false.
Proof. done. Qed.

(** A comment says that [T] is next when the timeout flag is set here.  But with a digit
    from an application the run stays where it is, and the digit is lost. *)
Lemma timeout_drops_digit :
  let s := tiny_call AST_SOFTHANGUP_TIMEOUT [] in
  exists s', end_round (H := tiny_ops tiny true) (sample_env []) true 0 9 49 [49] 49 false true s = Ret (NextRound, s') /\
    same_place 0 s s'.
Proof. eexists. split; [vm_compute; reflexivity|]. eexists _, _. split; [reflexivity|]. split; [reflexivity|]. done. Qed.

(** *** The number of calls *)

(** Calls begin and end in any order; every call that was let in ends once. *)
Inductive counting : call_counts -> nat -> Prop :=
| counting_none max : counting (mk_counts max 0 0) 0
| counting_begin n running load_ok r n' : counting n running -> increase_call_count load_ok n = (r, n') ->
    counting n' (if r =? 0 then S running else running)
| counting_end n running : counting n (S running) -> counting (decrease_call_count n) running.

(** The counter is the number of calls that are running, and never more than the limit. *)
Lemma counting_correct n running : counting n running ->
  countcalls n = Z.of_nat running /\ (0 < option_maxcalls n -> countcalls n <= option_maxcalls n) /\ Z.of_nat running <= totalcalls n.
Proof.
  induction 1 as [max|n running load_ok r n' _ IH Hinc|n running _ IH]; [cbn; lia|..].
  - destruct IH as (IH1 & IH2 & IH3). unfold increase_call_count in Hinc. destruct (_ || _) eqn:E.
    + injection Hinc as <- <-. cbn. lia.
    + injection Hinc as <- <-. apply orb_false_iff in E as [E _]. apply andb_false_iff in E. rewrite Z.geb_leb in E. cbn.
      split; [lia|]. split; [|lia]. intros Hmax. destruct E as [E|E]; zb; lia.
  - destruct IH as (IH1 & IH2 & IH3). unfold decrease_call_count. rewrite Z.gtb_ltb, (proj2 (Z.ltb_lt 0 (countcalls n))) by lia. cbn. lia.
Qed.
