(* ===== verification/App.v ===== *)
(** * Arguments, options and groups of applications ([main/app.c])

    An application gets its data as one text.  [__ast_app_separate_args] cuts it into
    arguments at a delimiter outside of quotes and brackets, [parse_options] reads letters
    with arguments in parentheses, and [ast_get_encoded_str] decodes escapes.  Channels are
    put into groups, one for each category, and counted.

    The functions work on the text in place: a character that is taken out moves the rest
    one cell to the left.  Here the rest of the text is a list, and the string that a pointer
    of the result points to is the string that was kept; reading behind the NUL is a bad
    access.

    Theorems: arguments, and options with arguments, that are escaped are read back; groups
    are a map from channels and categories to groups; and the texts that are read wrongly. *)

From S2P Require Import Extension TrieFind Prelude.
From Stdlib Require Import ZArith Lia.
From stdpp Require Import base list gmap numbers strings.

#[local] Open Scope Z_scope.
#[local] Open Scope outcome_scope.
#[local] Open Scope record_scope.

(** ** Arguments *)

Section separate.
Context (delim : Z) (remove_chars : bool).

(** Open parentheses and brackets, whether in quotes, the number of cells that are behind,
    and the cell of the last delimiter. *)
Record scanner := mk_scanner { paren : Z; bracket : Z; quote : bool; scanned : Z; wasdelim : option Z }.

#[local] Instance eta_scanner : Eta scanner := fun s => mk_scanner (paren s) (bracket s) (quote s) (scanned s) (wasdelim s).

(** One argument: what is kept of it, and the rest.  Behind a backslash at the end there is
    the NUL in its old place, if the backslash is taken out, and else nothing. *)
Fixpoint scan_arg (st : scanner) (scan : str) : outcome (str * str * scanner) :=
  match scan with
  | [] => Ret ([], [], st)
  | c :: rest =>
      let keep st := (let* (arg, rest, st) := scan_arg (st <| scanned ::= Z.add 1 |>) rest in Ret (c :: arg, rest, st)) in
      if c =? 40 then keep (st <| paren ::= Z.add 1 |>)
      else if c =? 41 then keep (if paren st =? 0 then st else st <| paren ::= Z.add (-1) |>)
      else if c =? c_open then keep (st <| bracket ::= Z.add 1 |>)
      else if c =? c_close then keep (if bracket st =? 0 then st else st <| bracket ::= Z.add (-1) |>)
      else if (c =? 34) && negb (delim =? 34) then
        let st := st <| quote ::= negb |> in
        if remove_chars then scan_arg st rest else keep st
      else if c =? 92 then
        match rest with
        | [] => if remove_chars then Ret ([], [], st <| scanned ::= Z.add 1 |>) else BadAccess
        | d :: rest =>
            let* (arg, rest, st) := scan_arg (st <| scanned ::= Z.add (if remove_chars then 1 else 2) |>) rest in
            Ret (if remove_chars then d :: arg else c :: d :: arg, rest, st)
        end
      else if (c =? delim) && (paren st =? 0) && negb (quote st) && (bracket st =? 0) then
        Ret ([], rest, st <| wasdelim := Some (scanned st) |> <| scanned ::= Z.add 1 |>)
      else keep st
  end.

(** [room] is how many more arguments are cut off; the rest, if there is one, is the last
    argument as it is. *)
Fixpoint separate (room : nat) (st : scanner) (scan : str) : outcome (list str) :=
  let at_end := match scan with
                | [] => if (scanned st >? 0) && bool_decide (wasdelim st = Some (scanned st - 1)) then [[]] else []
                | _ => [scan]
                end in
  match scan, room with
  | [], _ | _, O => Ret at_end
  | _, S room =>
      let* (arg, rest, st) := scan_arg st scan in
      let* args := separate room st rest in Ret (arg :: args)
  end.

Definition __ast_app_separate_args (buf : option str) (arraylen : nat) : outcome (list str) :=
  match arraylen, buf with
  | O, _ | _, None => Ret []
  | S room, Some buf => separate room (mk_scanner 0 0 false 0 None) buf
  end.
End separate.

Definition ast_app_separate_args (buf : option str) (delim : Z) (arraylen : nat) : outcome (list str) :=
  __ast_app_separate_args delim true buf arraylen.

(** ** Options *)

Record ast_app_option := mk_app_option { opt_flag : Z; arg_index : nat }.

Section options.
Context (options : Z -> ast_app_option).

(** The argument of an option, up to its closing parenthesis, and the rest; [None] if there
    is none. *)
Fixpoint option_arg (parsequotes quote : bool) (paren : Z) (s : str) : outcome (option (str * str)) :=
  match s with
  | [] => Ret None
  | c :: rest =>
      let keep c rest paren := (let* r := option_arg parsequotes quote paren rest in
        Ret (match r with Some (arg, rest) => Some (c :: arg, rest) | None => None end)) in
      if (c =? 40) && negb quote then keep c rest (paren + 1)
      else if (c =? 41) && negb quote then if paren - 1 =? 0 then Ret (Some ([], rest)) else keep c rest (paren - 1)
      else if (c =? 34) && parsequotes then option_arg parsequotes (negb quote) paren rest
      else if c =? 92 then
        match rest with
        | [] => if quote then BadAccess else Ret None
        | d :: rest' =>
            if negb quote || (d =? 34) then keep d rest' paren
            else
              let* r := option_arg parsequotes quote paren rest' in
              Ret (match r with Some (arg, rest) => Some (c :: d :: arg, rest) | None => None end)
        end
      else keep c rest paren
  end.

(** The flags that are set and the arguments; an option without its closing parenthesis
    ends the loop with -1, before its flag is set.  Each round reads at least one
    character. *)
Fixpoint options_loop (fuel : nat) (s : str) (flags : Z) (args : list (option str)) : outcome (Z * Z * list (option str)) :=
  match fuel with
  | O => NoFuel
  | S fuel =>
      match s with
      | [] => Ret (0, flags, args)
      | c :: s =>
          let o := options (Z.land c 0x7f) in
          let argloc := arg_index o in
          let set_arg arg := match argloc with O => Ret args | S i => if (i <? length args)%nat then Ret (<[i := Some arg]> args) else BadAccess end in
          if deref s =? 40 then
            let s := tail s in
            let* r := option_arg (deref s =? 34) false 1 s in
            match r with
            | None => Ret (-1, flags, args)
            | Some (arg, s) => let* args := set_arg arg in options_loop fuel s (Z.lor flags (opt_flag o)) args
            end
          else let* args := set_arg [] in options_loop fuel s (Z.lor flags (opt_flag o)) args
      end
  end.

Definition parse_options (args : list (option str)) (optstr : option str) : outcome (Z * Z * list (option str)) :=
  match optstr with None => Ret (0, 0, args) | Some s => options_loop (S (length s)) s 0 args end.

(** The letters whose flag is set, from 32 on. *)
Fixpoint options2str_loop (n : nat) (i flags : Z) (room : nat) : str :=
  match n, room with
  | S n, S room' =>
      if negb (Z.land flags (opt_flag (options i)) =? 0) then i :: options2str_loop n (i + 1) flags room'
      else options2str_loop n (i + 1) flags room
  | _, _ => []
  end.

Definition ast_app_options2str64 (flags : Z) (len : nat) : outcome str :=
  let s := options2str_loop 96 32 flags len in
  if (length s <? len)%nat then Ret s else BadAccess.
End options.

(** ** Escapes *)

Definition is_hex (c : Z) : bool := bool_decide (c ∈ zs "0123456789ABCDEFabcdef").
Definition is_octal (c : Z) : bool := bool_decide (c ∈ zs "01234567").
Definition hex_value (c : Z) : Z := if c <=? 57 then c - 48 else if c <=? 70 then c - 65 + 10 else c - 97 + 10.

(** The octal digits that follow: the character, and how many there are. *)
Fixpoint octal_loop (stream : str) (result consumed : Z) : Z * Z :=
  match stream with
  | c :: stream => if is_octal c then octal_loop stream (s8 (s8 (result * 8) + (c - 48))) (consumed + 1) else (result, consumed)
  | [] => (result, consumed)
  end.

(** The return value, the character, and how many characters of the stream it takes. *)
Definition ast_get_encoded_char (stream : str) : Z * Z * Z :=
  match stream with
  | [] => (-1, 0, 0)
  | c :: rest =>
      if negb (c =? 92) then (0, c, 1)
      else
        let d := deref rest in
        if d =? 110 then (0, 10, 2)
        else if d =? 114 then (0, 13, 2)
        else if d =? 116 then (0, 9, 2)
        else if d =? 120 then
          let h := deref (tail rest) in
          if is_hex h then
            let l := deref (tail (tail rest)) in
            if is_hex l then (0, s8 (s8 (hex_value h * 16) + hex_value l), 4) else (0, hex_value h, 3)
          else (-1, 0, 2)
        else if d =? 48 then let '(r, n) := octal_loop (tail rest) 0 2 in (0, r, n)
        else (0, d, 2)
  end.

(** The characters that are written before the last NUL; [None] is a stream that is left behind its end. *)
Fixpoint encoded_loop (fuel : nat) (stream : option str) (room : nat) : outcome str :=
  match fuel, room with
  | O, _ => NoFuel
  | _, O => Ret []
  | S fuel, S room =>
      let* stream := oaccess stream in
      let '(ret, c, consumed) := ast_get_encoded_char stream in
      if negb (ret =? 0) then Ret []
      else
        let next := if consumed <=? Z.of_nat (length stream) then Some (drop (Z.to_nat consumed) stream) else None in
        let* r := encoded_loop fuel next room in Ret (c :: r)
  end.

Definition ast_get_encoded_str (stream : str) (result_size : nat) : outcome str :=
  match result_size with
  | O => BadAccess
  | S room => encoded_loop (S (length stream)) (Some stream) room
  end.

(** ** Groups of channels *)

Record ast_group_info := mk_group_info { gi_chan : nat; gi_category : option str; gi_group : str }.

#[export] Instance eta_group_info : Eta ast_group_info := fun g => mk_group_info (gi_chan g) (gi_category g) (gi_group g).

(** The group and the category of [data]; the category stays as it is if none is given. *)
Definition ast_app_group_split_group (data : str) (group_max category_max : nat) (category : str) : str * str :=
  let '(grp, cat) := strsep (Z.eqb 64) (take 255 data) in
  (take (group_max - 1) grp, match cat with Some (x :: cat) => take (category_max - 1) (x :: cat) | _ => category end).

Definition same_category (category : str) (gi : ast_group_info) : bool :=
  match category, default [] (gi_category gi) with
  | [], [] => true
  | [], _ => false
  | _, [] => false
  | _, cat => same_name cat category
  end.

Fixpoint remove_info (gone : ast_group_info -> bool) (l : list ast_group_info) : list ast_group_info :=
  match l with [] => [] | gi :: l => if gone gi then l else gi :: remove_info gone l end.

Definition ast_app_group_set_channel (ok : bool) (chan : nat) (data : str) (groups : list ast_group_info) : Z * list ast_group_info :=
  let '(group, category) := ast_app_group_split_group data 80 80 [] in
  let groups := remove_info (fun gi => (gi_chan gi =? chan)%nat && same_category category gi) groups in
  match group with
  | [] => (0, groups)
  | _ =>
      if ok then (0, groups ++ [mk_group_info chan (match category with [] => None | _ => Some category end) group])
      else (-1, groups)
  end.

Definition counted_in (group category : str) (gi : ast_group_info) : bool :=
  same_name (gi_group gi) group &&
  match category with [] => true | _ => match default [] (gi_category gi) with [] => false | cat => same_name cat category end end.

Definition ast_app_group_get_count (group category : str) (groups : list ast_group_info) : Z :=
  match group with [] => 0 | _ => Z.of_nat (length (List.filter (counted_in group category) groups)) end.

(** The entries of [new] go, and those of [old] become entries of [new]. *)
Definition ast_app_group_update (old new : nat) (groups : list ast_group_info) : list ast_group_info :=
  omap (fun gi => if (gi_chan gi =? old)%nat then Some (gi <| gi_chan := new |>) else if (gi_chan gi =? new)%nat then None else Some gi) groups.

Definition ast_app_group_discard (chan : nat) (groups : list ast_group_info) : list ast_group_info :=
  List.filter (fun gi => negb (gi_chan gi =? chan)%nat) groups.

(** ** Menus *)

(** [option_matchmore] returns the place of an option that begins with the digits and goes
    on, or -1. *)
Fixpoint option_matchmore_from (x : Z) (options : list str) (option : str) : Z :=
  match options with
  | [] => -1
  | o :: options =>
      if same_name (take (length option) o) option && (length option <? length o)%nat then x
      else option_matchmore_from (x + 1) options option
  end.

Definition option_matchmore (options : list str) (option : str) : Z := option_matchmore_from 0 options option.

Fixpoint option_exists_from (x : Z) (options : list str) (option : str) : Z :=
  match options with
  | [] => -1
  | o :: options => if same_name o option then x else option_exists_from (x + 1) options option
  end.

Definition option_exists (options : list str) (option : str) : Z := option_exists_from 0 options option.

(** The digits that come are in [typed], and 0 when none comes in time; the return value
    and the digits. *)
Fixpoint read_newoption (options : list str) (typed : list Z) (exten : str) (maxexten : Z) : Z * str :=
  if option_matchmore options exten =? 0 then (0, exten)
  else if Z.of_nat (length exten) >=? maxexten - 1 then (0, exten)
  else
    match typed with
    | [] => (0, exten)
    | d :: typed => if d <? 1 then (d, exten) else read_newoption options typed (exten ++ [s8 d]) maxexten
    end.

(** ** Escaped arguments *)

(** A backslash before each character that means something. *)
Definition escape (special : Z -> bool) (arg : str) : str := arg ≫= fun c => if special c then [92; c] else [c].

Section separate_roundtrip.
Context (delim : Z).

Definition is_special (c : Z) : bool :=
  (c =? 40) || (c =? 41) || (c =? c_open) || (c =? c_close) || (c =? 34) || (c =? 92) || (c =? delim).

Definition escape_arg : str -> str := escape is_special.

Fixpoint join_args (args : list str) : str :=
  match args with [] => [] | [a] => escape_arg a | a :: args => escape_arg a ++ delim :: join_args args end.

(** The delimiter is a character that means nothing else. *)
Definition plain_delim : Prop := delim <> 40 /\ delim <> 41 /\ delim <> c_open /\ delim <> c_close /\ delim <> 34 /\ delim <> 92.

Definition at_arg (scanned : Z) (wasdelim : option Z) : scanner := mk_scanner 0 0 false scanned wasdelim.

Lemma scan_escaped arg tail n w : plain_delim ->
  scan_arg delim true (at_arg n w) (escape_arg arg ++ tail) =
    let* (more, rest, st) := scan_arg delim true (at_arg (n + Z.of_nat (length arg)) w) tail in Ret (arg ++ more, rest, st).
Proof.
  intros (D1 & D2 & D3 & D4 & D5 & D6). revert n. induction arg as [|c arg IH]; intros n.
  { rewrite Z.add_0_r. cbn [escape_arg escape mbind list_bind app]. by destruct (scan_arg _ _ _ _) as [[[? ?] ?]| | |]. }
  assert (Hn : n + Z.of_nat (length (c :: arg)) = (1 + n) + Z.of_nat (length arg)) by (cbn [length]; lia). rewrite Hn.
  unfold escape_arg, escape. cbn [mbind list_bind]. fold (escape is_special arg). fold escape_arg. destruct (is_special c) eqn:Es; rewrite <- app_assoc; cbn [app scan_arg].
  - cbn [Z.eqb Pos.eqb andb orb]. change ((at_arg n w) <| scanned ::= Z.add 1 |>) with (at_arg (1 + n) w). rewrite IH.
    by destruct (scan_arg _ _ _ _) as [[[? ?] ?]| | |].
  - unfold is_special in Es. repeat (apply orb_false_iff in Es as [Es ?]). rewrite Es. repeat match goal with H : (c =? _) = false |- _ => rewrite H; clear H end.
    cbn [andb]. change ((at_arg n w) <| scanned ::= Z.add 1 |>) with (at_arg (1 + n) w). rewrite IH.
    by destruct (scan_arg _ _ _ _) as [[[? ?] ?]| | |].
Qed.

Lemma scan_delim n w rest : plain_delim -> scan_arg delim true (at_arg n w) (delim :: rest) = Ret ([], rest, at_arg (1 + n) (Some n)).
Proof.
  intros (D1 & D2 & D3 & D4 & D5 & D6). cbn [scan_arg].
  rewrite !(proj2 (Z.eqb_neq delim _)) by done. cbn [andb]. by rewrite Z.eqb_refl.
Qed.

Lemma escape_nil arg : escape_arg arg = [] -> arg = [].
Proof. destruct arg as [|c arg]; [done|]. unfold escape_arg, escape. cbn. by destruct (is_special c). Qed.

Lemma separate_joined args room n w : plain_delim -> args <> [] -> (length args <= room)%nat -> (forall k, w = Some k -> 0 <= k < n) -> 0 <= n ->
  (args = [[]] -> w = Some (n - 1)) -> separate delim true room (at_arg n w) (join_args args) = Ret args.
Proof.
  intros Hd. revert room n w. induction args as [|a args IH]; intros room n w Hne Hlen Hw Hn H0; [done|]. cbn in Hlen.
  destruct room as [|room]; [lia|]. destruct args as [|b args].
  - cbn [join_args]. destruct a as [|c a].
    + specialize (H0 eq_refl). cbn [escape_arg escape mbind list_bind separate scanned at_arg wasdelim]. specialize (Hw _ H0).
      rewrite H0, bool_decide_eq_true_2 by done. by rewrite Z.gtb_ltb, (proj2 (Z.ltb_lt 0 n)) by lia.
    + destruct (escape_arg (c :: a)) as [|x t] eqn:Ea; [by apply escape_nil in Ea|]. cbn [separate]. rewrite <- Ea, <- (app_nil_r (escape_arg (c :: a))).
      rewrite scan_escaped by done. cbn [scan_arg obind]. rewrite app_nil_r.
      assert (Hat : separate delim true room (at_arg (n + Z.of_nat (length (c :: a))) w) [] = Ret []); [|by rewrite Hat].
      assert (Hb : bool_decide (w = Some (n + Z.of_nat (length (c :: a)) - 1)) = false).
      { apply bool_decide_eq_false. intros Hk. specialize (Hw _ Hk). cbn [length] in Hw. lia. }
      destruct room; cbn [separate scanned at_arg wasdelim]; by rewrite Hb, andb_false_r.
  - change (join_args (a :: b :: args)) with (escape_arg a ++ delim :: join_args (b :: args)).
    destruct (escape_arg a ++ delim :: join_args (b :: args)) as [|x t] eqn:Et; [by destruct (escape_arg a)|]. cbn [separate]. rewrite <- Et.
    rewrite scan_escaped by done. rewrite scan_delim by done. cbn [obind]. rewrite app_nil_r.
    rewrite IH; [done|done|cbn [length] in Hlen |- *; lia|intros k [= <-]; lia|lia|]. intros _. f_equal. lia.
Qed.

(** C35: arguments whose special characters are escaped with backslashes, put one behind the
    other with a delimiter between them, are read back as they were, the empty ones too, if
    there is room for one more than there are. *)
Theorem separate_args_roundtrip args arraylen : plain_delim -> args <> [] -> args <> [[]] -> (length args < arraylen)%nat ->
  ast_app_separate_args (Some (join_args args)) delim arraylen = Ret args.
Proof.
  intros Hd Hne Hne' Hlen. unfold ast_app_separate_args, __ast_app_separate_args. destruct arraylen as [|room]; [lia|].
  apply (separate_joined args room 0 None Hd Hne); [lia|done|lia|done].
Qed.
End separate_roundtrip.

Lemma separate_args_roundtrip_witness :
  ast_app_separate_args (Some (join_args 44 [zs "SIP/a"; zs "x,(y)"; []; zs "end"; []])) 44 6 = Ret [zs "SIP/a"; zs "x,(y)"; []; zs "end"; []].
Proof. apply (separate_args_roundtrip 44 [zs "SIP/a"; zs "x,(y)"; []; zs "end"; []] 6); [split_and!; discriminate|discriminate|discriminate|vm_compute; lia]. Defined.

(** *** Where arguments are not read as they are meant *)

(** Quotes as the last argument leave one more behind it, since after they are taken out
    the end follows the delimiter. *)
Lemma empty_quotes_counted_twice : ast_app_separate_args (Some (zs "a," ++ [34; 34])) 44 4 = Ret [zs "a"; []; []] /\
  ast_app_separate_args (Some ([34; 34] ++ zs ",a")) 44 4 = Ret [[]; zs "a"].
Proof. split; reflexivity. Qed.

(** The last argument there is room for is the rest of the text as it is, with its quotes
    and backslashes. *)
Lemma last_arg_raw : ast_app_separate_args (Some (zs "a,b\,c")) 44 2 = Ret [zs "a"; zs "b\,c"] /\
  ast_app_separate_args (Some (zs "a,b\,c")) 44 3 = Ret [zs "a"; zs "b,c"].
Proof. split; reflexivity. Qed.

(** With [remove_chars] off, a backslash at the end has the loop read behind the NUL. *)
Lemma raw_backslash_over_end : __ast_app_separate_args 44 false (Some (zs "a\")) 4 = BadAccess.
Proof. reflexivity. Qed.

(** ** Options that are read back *)

Definition is_special_in_option (c : Z) : bool := (c =? 40) || (c =? 41) || (c =? 34) || (c =? 92).

Definition option_text (o : Z * option str) : str :=
  match o with
  | (c, None) => [c]
  | (c, Some arg) => c :: 40 :: escape is_special_in_option arg ++ [41]
  end.

Definition options_text (os : list (Z * option str)) : str := os ≫= option_text.

Lemma option_arg_escaped arg rest : option_arg false false 1 (escape is_special_in_option arg ++ 41 :: rest) = Ret (Some (arg, rest)).
Proof.
  induction arg as [|c arg IH]; [done|]. unfold escape. cbn [mbind list_bind]. fold (escape is_special_in_option arg).
  destruct (is_special_in_option c) eqn:Es; rewrite <- app_assoc; cbn [app option_arg].
  - cbn [Z.eqb Pos.eqb andb orb negb]. by rewrite IH.
  - unfold is_special_in_option in Es. repeat (apply orb_false_iff in Es as [Es ?]). rewrite Es.
    repeat match goal with H : (c =? _) = false |- _ => rewrite H; clear H end. cbn [andb]. by rewrite IH.
Qed.

Lemma no_quotes arg rest : (deref (escape is_special_in_option arg ++ 41 :: rest) =? 34) = false.
Proof.
  destruct arg as [|c arg]; [done|]. unfold escape. cbn [mbind list_bind]. destruct (is_special_in_option c) eqn:Es; [done|]. cbn.
  unfold is_special_in_option in Es. repeat (apply orb_false_iff in Es as [Es ?]). done.
Qed.

Lemma option_arg_unclosed arg : option_arg false false 1 (escape is_special_in_option arg) = Ret None.
Proof.
  induction arg as [|c arg IH]; [done|]. unfold escape. cbn [mbind list_bind]. fold (escape is_special_in_option arg).
  destruct (is_special_in_option c) eqn:Es; cbn [app option_arg].
  - cbn [Z.eqb Pos.eqb andb orb negb]. by rewrite IH.
  - unfold is_special_in_option in Es. repeat (apply orb_false_iff in Es as [Es ?]). rewrite Es.
    repeat match goal with H : (c =? _) = false |- _ => rewrite H; clear H end. cbn [andb]. by rewrite IH.
Qed.

Lemma no_quotes_unclosed arg : (deref (escape is_special_in_option arg) =? 34) = false.
Proof. pose proof (no_quotes arg []) as H. destruct arg as [|c arg]; [done|]. revert H. unfold escape. cbn [mbind list_bind]. by destruct (is_special_in_option c). Qed.

Section options_roundtrip.
Context (options : Z -> ast_app_option).

(** What an option does. *)
Definition put_option (st : Z * list (option str)) (o : Z * option str) : Z * list (option str) :=
  (Z.lor (fst st) (opt_flag (options (fst o))),
   match arg_index (options (fst o)) with O => snd st | S i => <[i := Some (default [] (snd o))]> (snd st) end).

(** The letter of an option is a character of seven bits that does not open a parenthesis. *)
Definition option_ok (room : nat) (o : Z * option str) : Prop :=
  0 < fst o < 128 /\ fst o <> 40 /\ (arg_index (options (fst o)) <= room)%nat.

(** An option without its closing parenthesis may end the text. *)
Definition unclosed_text (o : option (Z * str)) : str :=
  match o with None => [] | Some (c, arg) => c :: 40 :: escape is_special_in_option arg end.

Definition unclosed_ok (o : option (Z * str)) : Prop := match o with None => True | Some (c, _) => 0 < c < 128 /\ c <> 40 end.

Lemma seven_bits c : 0 < c < 128 -> Z.land c 0x7f = c.
Proof. intros Hc. change 127 with (Z.ones 7). rewrite Z.land_ones by lia. apply Z.mod_small. lia. Qed.

Lemma options_loop_reads os last fuel flags args : Forall (option_ok (length args)) os -> unclosed_ok last ->
  (length (options_text os ++ unclosed_text last) < fuel)%nat ->
  options_loop options fuel (options_text os ++ unclosed_text last) flags args =
    let '(flags, args) := foldl put_option (flags, args) os in Ret (if last then -1 else 0, flags, args).
Proof.
  intros Hos Hlast. revert fuel flags args Hos. induction os as [|[c arg] os IH]; intros fuel flags args Hos Hf; destruct fuel as [|fuel]; try (cbn in Hf; lia).
  { cbn [options_text mbind list_bind app foldl]. destruct last as [[c arg]|]; [|done]. destruct Hlast as [H7 H40].
    cbn [unclosed_text options_loop deref tail Z.eqb Pos.eqb]. rewrite no_quotes_unclosed, option_arg_unclosed. done. }
  apply Forall_cons in Hos as [(H7 & H40 & Hi) Hos]. cbn [fst] in H7, H40, Hi. unfold options_text in Hf |- *. cbn [mbind list_bind] in Hf |- *.
  fold (options_text os) in Hf |- *. rewrite <- app_assoc in Hf |- *. set (rest := options_text os ++ unclosed_text last) in *. rewrite length_app in Hf.
  assert (Hc : Z.land c 127 = c) by by apply seven_bits.
  assert (Hput : match arg_index (options c) with O => Ret args | S i => if (i <? length args)%nat then Ret (<[i := Some (default [] arg)]> args) else BadAccess end
                 = Ret (snd (put_option (flags, args) (c, arg)))).
  { unfold put_option. cbn [fst snd]. destruct (arg_index (options c)) as [|i]; [done|]. by rewrite (proj2 (Nat.ltb_lt i _)) by lia. }
  assert (Hlen : length (snd (put_option (flags, args) (c, arg))) = length args).
  { unfold put_option. cbn [fst snd]. destruct (arg_index (options c)); [done|]. by rewrite length_insert. }
  cbn [foldl]. destruct (put_option (flags, args) (c, arg)) as [flags' args'] eqn:Ep. cbn [snd] in Hput, Hlen.
  assert (Hfl : flags' = Z.lor flags (opt_flag (options c))) by (unfold put_option in Ep; by injection Ep). rewrite <- Hlen in Hos.
  destruct arg as [arg|]; cbn [option_text app options_loop default id tail deref] in Hf, Hput |- *; rewrite Hc.
  - cbn [Z.eqb Pos.eqb]. rewrite <- app_assoc. cbn [app]. rewrite no_quotes, option_arg_escaped. cbn [obind]. rewrite Hput. cbn [obind]. rewrite <- Hfl.
    apply IH; [done|]. cbn [length] in Hf. lia.
  - assert (Hnext : (deref rest =? 40) = false).
    { unfold rest. destruct os as [|[c' [arg'|]] os]; [destruct last as [[c' ?]|]; [|done]; destruct Hlast as [_ H']; by apply Z.eqb_neq|..];
        apply Forall_cons in Hos as [(_ & H' & _) _]; cbn [fst] in H'; apply Z.eqb_neq, H'. }
    rewrite Hnext, Hput. cbn [obind]. rewrite <- Hfl. apply IH; [done|]. cbn [length] in Hf. lia.
Qed.

(** C10: options with arguments, special characters in the arguments escaped, are read back:
    every flag is set, and every argument is in the place of its option, an empty one for an
    option that has none, the later of two in the same place.  If the text ends in an option
    without its closing parenthesis the result is -1; the options before it are in force and
    that one is not. *)
Theorem parse_options_correct os last args : Forall (option_ok (length args)) os -> unclosed_ok last ->
  parse_options options args (Some (options_text os ++ unclosed_text last)) =
    let '(flags, args) := foldl put_option (0, args) os in Ret (if last then -1 else 0, flags, args).
Proof. intros Hos Hlast. apply options_loop_reads; [done|done|lia]. Qed.
End options_roundtrip.

(** The options [g(text)], bit 0, [x], bit 1, and [m(text)], bit 2, as [AST_APP_OPTIONS] makes them. *)
Definition some_options (c : Z) : ast_app_option :=
  if c =? 103 then mk_app_option 1 1 else if c =? 120 then mk_app_option 2 0 else if c =? 109 then mk_app_option 4 2 else mk_app_option 0 0.

Lemma parse_options_correct_witness :
  let text := options_text [(103, Some (zs "f(x)\y")); (120, None); (109, None)] in
  parse_options some_options [None; None] (Some (text ++ [])) = Ret (0, 7, [Some (zs "f(x)\y"); Some []]) /\
  parse_options some_options [None; None] (Some (text ++ [103; 40; 98])) = Ret (-1, 7, [Some (zs "f(x)\y"); Some []]).
Proof.
  split; [apply (parse_options_correct some_options [(103, Some (zs "f(x)\y")); (120, None); (109, None)] None [None; None])
         |apply (parse_options_correct some_options [(103, Some (zs "f(x)\y")); (120, None); (109, None)] (Some (103, [98])) [None; None])];
    repeat constructor; cbn; lia.
Defined.

(** *** Options that are not read as they are meant *)

(** A quoted argument that ends in a backslash is read behind the NUL. *)
Lemma quoted_backslash_over_end : parse_options some_options [None; None] (Some (zs "g(" ++ [34; 97; 92])) = BadAccess.
Proof. reflexivity. Qed.

(** With as many flags set as there is room for letters, the NUL is written behind the end. *)
Lemma options2str_over_end : ast_app_options2str64 some_options 7 3 = BadAccess /\ ast_app_options2str64 some_options 7 4 = Ret (zs "gmx").
Proof. split; reflexivity. Qed.

(** A backslash at the end is two characters, and the loop goes on behind the NUL. *)
Lemma encoded_backslash_over_end : ast_get_encoded_str (zs "a\") 80 = BadAccess /\ ast_get_encoded_str (zs "a\x4a\n") 80 = Ret (zs "aJ" ++ [10]).
Proof. split; reflexivity. Qed.

(** ** Groups are a map

    The list of groups is a map from a channel and a category, in any case of its letters, to
    a group. *)

Notation group_key := (nat * str)%type.
Notation group_map := (gmap group_key str).

Definition group_key_of (gi : ast_group_info) : group_key := (gi_chan gi, tolower <$> default [] (gi_category gi)).

Definition one_each (groups : list ast_group_info) : Prop := NoDup (group_key_of <$> groups).

Definition map_of (groups : list ast_group_info) : group_map := list_to_map ((fun gi => (group_key_of gi, gi_group gi)) <$> groups).

Inductive group_op :=
  | SetGroup (ok : bool) (chan : nat) (data : str)
  | UpdateGroups (old new : nat)
  | DiscardGroups (chan : nat).

Definition group_step (groups : list ast_group_info) (op : group_op) : list ast_group_info :=
  match op with
  | SetGroup ok chan data => snd (ast_app_group_set_channel ok chan data groups)
  | UpdateGroups old new => ast_app_group_update old new groups
  | DiscardGroups chan => ast_app_group_discard chan groups
  end.

(** What the map holds after an operation; [None] in a call of [SetGroup] is no group, or no
    memory for it. *)
Definition group_after (m : group_map) (op : group_op) (k : group_key) : option str :=
  match op with
  | SetGroup ok chan data =>
      let '(group, category) := ast_app_group_split_group data 80 80 [] in
      if decide (k = (chan, tolower <$> category)) then match group with [] => None | _ => if ok then Some group else None end else m !! k
  | UpdateGroups old new => if decide (fst k = new) then m !! (old, snd k) else if decide (fst k = old) then None else m !! k
  | DiscardGroups chan => if decide (fst k = chan) then None else m !! k
  end.

(** Whether an entry of the map is counted. *)
Definition counted_entry (group category : str) (e : group_key * str) : bool :=
  same_name (snd e) group && match category with [] => true | _ => bool_decide (snd (fst e) = tolower <$> category) end.

Lemma one_each_alt groups :
  one_each groups <-> NoDup groups /\ forall g h, g ∈ groups -> h ∈ groups -> group_key_of g = group_key_of h -> g = h.
Proof.
  unfold one_each. split.
  - intros H. split; [by apply NoDup_fmap_1 in H|]. induction groups as [|x l IH]; [by intros ?? ?%elem_of_nil|].
    rewrite fmap_cons in H. apply NoDup_cons in H as [Hx H]. specialize (IH H).
    intros g h [->|Hg]%elem_of_cons [->|Hh]%elem_of_cons E; [done|..|by apply IH]; destruct Hx; [rewrite E|rewrite <- E]; by apply list_elem_of_fmap_2.
  - intros [H1 H2]. apply NoDup_fmap_2_strong; [|done]. intros g h Hg Hh. by apply H2.
Qed.

Lemma map_of_lookup groups k g : one_each groups -> map_of groups !! k = Some g <-> exists gi, gi ∈ groups /\ group_key_of gi = k /\ gi_group gi = g.
Proof.
  intros H. unfold map_of. rewrite <- elem_of_list_to_map.
  - rewrite list_elem_of_fmap. split; [intros (gi & [= -> ->] & Hgi); by eauto|intros (gi & Hgi & <- & <-); by eauto].
  - rewrite <- list_fmap_compose. exact H.
Qed.

Lemma elem_of_kept (p : ast_group_info -> bool) groups gi : gi ∈ List.filter p groups <-> gi ∈ groups /\ p gi = true.
Proof. by rewrite !list_elem_of_In, filter_In. Qed.

Lemma one_each_filter (p : ast_group_info -> bool) groups : one_each groups -> one_each (List.filter p groups).
Proof.
  rewrite !one_each_alt. intros [H1 H2]. split; [|intros g h [Hg _]%elem_of_kept [Hh _]%elem_of_kept; by apply H2].
  clear H2. induction H1 as [|x l Hx H IH]; [constructor|]. cbn. destruct (p x); [|done]. constructor; [|done]. by intros [? _]%elem_of_kept.
Qed.

Lemma remove_info_filter gone k groups : one_each groups -> (forall gi, gone gi = true <-> group_key_of gi = k) ->
  remove_info gone groups = List.filter (fun gi => negb (gone gi)) groups.
Proof.
  intros H Hg. induction groups as [|x l IH]; [done|]. unfold one_each in H. rewrite fmap_cons in H. apply NoDup_cons in H as [Hx H]. cbn.
  destruct (gone x) eqn:E; cbn; [|by rewrite IH]. apply Hg in E. clear IH H.
  induction l as [|y l IH]; [done|]. rewrite fmap_cons, not_elem_of_cons in Hx. destruct Hx as [Hx Hl]. cbn.
  destruct (gone y) eqn:E'; cbn; [|by rewrite <- IH]. apply Hg in E'. congruence.
Qed.

Lemma same_category_key category gi : same_category category gi = true <-> snd (group_key_of gi) = tolower <$> category.
Proof.
  unfold same_category, group_key_of, same_name. cbn [snd]. destruct category as [|c category], (default [] (gi_category gi)) as [|d cat]; try done.
  by rewrite bool_decide_eq_true.
Qed.

Lemma elem_of_update old new groups gi : gi ∈ ast_app_group_update old new groups <->
  exists g, g ∈ groups /\ ((gi_chan g = old /\ gi = g <| gi_chan := new |>) \/ (gi_chan g <> old /\ gi_chan g <> new /\ gi = g)).
Proof.
  unfold ast_app_group_update. rewrite list_elem_of_omap. split; intros (g & Hg & H); exists g; (split; [done|]).
  - destruct (Nat.eqb_spec (gi_chan g) old); [left; by injection H|]. destruct (Nat.eqb_spec (gi_chan g) new); [done|right; by injection H].
  - destruct H as [[-> ->]|(H1 & H2 & ->)]; [by rewrite Nat.eqb_refl|]. by rewrite !(proj2 (Nat.eqb_neq _ _)).
Qed.

Lemma NoDup_update old new groups : one_each groups -> NoDup (ast_app_group_update old new groups).
Proof.
  rewrite one_each_alt. intros [Hnd Hinj]. induction Hnd as [|x l Hx Hnd IH]; [constructor|].
  assert (Hl : NoDup (ast_app_group_update old new l)) by (apply IH; intros g h Hg Hh; apply Hinj; by right). clear IH.
  unfold ast_app_group_update in *. cbn. destruct (Nat.eqb_spec (gi_chan x) old) as [Ho|Ho]; [|destruct (Nat.eqb_spec (gi_chan x) new) as [Hn|Hn]; [done|]].
  - constructor; [|done]. intros (g & Hg & [[H1 H2]|(H1 & H2 & H3)])%elem_of_update.
    + destruct Hx. assert (x = g) as ->; [|done]. apply Hinj; [left|by right|].
      apply (f_equal gi_category) in H2. cbn in H2. unfold group_key_of. congruence.
    + subst g. cbn in H2. done.
  - constructor; [|done]. intros (g & Hg & [[H1 ->]|(H1 & H2 & ->)])%elem_of_update; [by destruct Hn|by destruct Hx].
Qed.

Lemma one_each_update old new groups : one_each groups -> one_each (ast_app_group_update old new groups).
Proof.
  intros H. pose proof (NoDup_update old new groups H) as Hnd. apply one_each_alt in H as [_ Hinj]. apply one_each_alt. split; [done|].
  intros g h (g' & Hg & Hg')%elem_of_update (h' & Hh & Hh')%elem_of_update E.
  destruct Hg' as [[? ->]|(? & ? & ->)], Hh' as [[? ->]|(? & ? & ->)]; unfold group_key_of in E; cbn in E; try (by destruct E; congruence).
  - assert (g' = h') as ->; [|done]. apply Hinj; [done..|]. unfold group_key_of. injection E as E. congruence.
  - injection E as E1 E2. congruence.
  - injection E as E1 E2. congruence.
  - by apply Hinj.
Qed.

Lemma set_channel_groups ok chan data groups group category : one_each groups -> ast_app_group_split_group data 80 80 [] = (group, category) ->
  snd (ast_app_group_set_channel ok chan data groups) =
    List.filter (fun gi => negb (bool_decide (group_key_of gi = (chan, tolower <$> category)))) groups ++
    match group with [] => [] | _ => if ok then [mk_group_info chan (match category with [] => None | _ => Some category end) group] else [] end.
Proof.
  intros H E. unfold ast_app_group_set_channel. rewrite E. rewrite (remove_info_filter _ (chan, tolower <$> category)); [|done|].
  - rewrite (filter_ext _ (fun gi => negb (bool_decide (group_key_of gi = (chan, tolower <$> category))))).
    + destruct group; [by rewrite app_nil_r|]. destruct ok; [done|by rewrite app_nil_r].
    + intros gi. f_equal. apply eq_true_iff_eq. rewrite andb_true_iff, Nat.eqb_eq, same_category_key, bool_decide_eq_true.
      unfold group_key_of. cbn [snd]. rewrite pair_equal_spec. done.
  - intros gi. rewrite andb_true_iff, Nat.eqb_eq, same_category_key. unfold group_key_of. cbn [snd]. rewrite pair_equal_spec. done.
Qed.

Lemma key_of_new chan category group : group_key_of (mk_group_info chan (match category with [] => None | _ => Some category end) group) = (chan, tolower <$> category).
Proof. by destruct category. Qed.

Lemma one_each_set ok chan data groups : one_each groups -> one_each (snd (ast_app_group_set_channel ok chan data groups)).
Proof.
  intros H. destruct (ast_app_group_split_group data 80 80 []) as [group category] eqn:E. rewrite (set_channel_groups _ _ _ _ _ _ H E).
  unfold one_each. rewrite fmap_app. apply NoDup_app. split_and!; [by apply one_each_filter| |].
  - intros k Hk. assert (k <> (chan, tolower <$> category)).
    { apply list_elem_of_fmap in Hk as (gi & -> & [_ Hgi]%elem_of_kept). by apply negb_true_iff, bool_decide_eq_false in Hgi. }
    destruct group as [|x group]; [by intros ?%elem_of_nil|]. destruct ok; [|by intros ?%elem_of_nil]. cbn [fmap list_fmap].
    rewrite key_of_new. by intros ?%list_elem_of_singleton.
  - destruct group, ok; cbn [fmap list_fmap]; [constructor..|apply NoDup_singleton|constructor].
Qed.

Lemma group_step_one_each groups op : one_each groups -> one_each (group_step groups op).
Proof. destruct op; cbn [group_step]; [apply one_each_set|apply one_each_update|apply one_each_filter]. Qed.

Lemma map_of_set ok chan data groups k : one_each groups ->
  map_of (snd (ast_app_group_set_channel ok chan data groups)) !! k = group_after (map_of groups) (SetGroup ok chan data) k.
Proof.
  intros H. apply option_eq. intros g. rewrite map_of_lookup by by apply one_each_set. cbn [group_after].
  destruct (ast_app_group_split_group data 80 80 []) as [group category] eqn:E. rewrite (set_channel_groups _ _ _ _ _ _ H E).
  setoid_rewrite elem_of_app. setoid_rewrite elem_of_kept. setoid_rewrite negb_true_iff. setoid_rewrite bool_decide_eq_false.
  assert (Hnew : forall gi, gi ∈ (match group with [] => [] | _ => if ok then [mk_group_info chan (match category with [] => None | _ => Some category end) group] else [] end)
    -> group_key_of gi = (chan, tolower <$> category) /\ match group with [] => None | _ => if ok then Some group else None end = Some (gi_group gi)).
  { intros gi Hgi. destruct group; [by apply elem_of_nil in Hgi|]. destruct ok; [|by apply elem_of_nil in Hgi]. apply list_elem_of_singleton in Hgi as ->.
    by rewrite key_of_new. }
  destruct (decide (k = (chan, tolower <$> category))) as [->|Hk].
  - split; [intros (gi & [[_ ?]|Hgi] & Hk & <-); [done|]; by destruct (Hnew _ Hgi)|]. intros Hg. destruct group; [done|]. destruct ok; [|done]. injection Hg as <-.
    eexists. split; [right; by left|]. by rewrite key_of_new.
  - rewrite map_of_lookup by done. split; intros (gi & Hgi & Hkey & <-); exists gi; (split; [|done]).
    + destruct Hgi as [[? _]|Hgi]; [done|]. destruct (Hnew _ Hgi). congruence.
    + left. split; [done|congruence].
Qed.

Lemma map_of_update old new groups k : one_each groups -> map_of (ast_app_group_update old new groups) !! k = group_after (map_of groups) (UpdateGroups old new) k.
Proof.
  intros H. apply option_eq. intros g. rewrite map_of_lookup by by apply one_each_update. destruct k as [c k]. cbn [group_after fst snd]. split.
  - intros (gi & (x & Hx & [[Ho ->]|(Ho & Hn & ->)])%elem_of_update & Hk & <-); injection Hk as Hc Hk; cbn in Hc.
    + rewrite decide_True by congruence. apply map_of_lookup; [done|]. exists x. split; [done|]. unfold group_key_of. cbn in Hk. split; [congruence|done].
    + rewrite !decide_False by congruence. apply map_of_lookup; [done|]. exists x. split; [done|]. unfold group_key_of. split; [congruence|done].
  - intros Hg. destruct (decide (c = new)) as [->|Hn]; [|destruct (decide (c = old)) as [->|Ho]; [done|]];
      apply map_of_lookup in Hg as (x & Hx & Hk & <-); try done; injection Hk as Hc Hk.
    + exists (x <| gi_chan := new |>). rewrite elem_of_update. split; [exists x; split; [done|by left]|]. unfold group_key_of. cbn. split; [congruence|done].
    + exists x. rewrite elem_of_update. split; [exists x; split; [done|right; split_and!; congruence]|]. unfold group_key_of. split; [congruence|done].
Qed.

Lemma map_of_discard chan groups k : one_each groups -> map_of (ast_app_group_discard chan groups) !! k = group_after (map_of groups) (DiscardGroups chan) k.
Proof.
  intros H. apply option_eq. intros g. rewrite map_of_lookup by by apply one_each_filter. destruct k as [c k]. cbn [group_after fst].
  unfold ast_app_group_discard. setoid_rewrite elem_of_kept. setoid_rewrite negb_true_iff. setoid_rewrite Nat.eqb_neq. destruct (decide (c = chan)) as [->|Hc].
  - split; [|done]. intros (gi & [_ Hgi] & [= ? _] & _). done.
  - rewrite map_of_lookup by done. split; intros (gi & Hgi & Hk & <-); exists gi; (split; [|done]); [by destruct Hgi|]. split; [done|].
    injection Hk as Hk _. congruence.
Qed.

Lemma map_of_filter (p : group_key * str -> bool) groups : one_each groups ->
  size (filter (fun e => p e = true) (map_of groups)) = length (List.filter (fun gi => p (group_key_of gi, gi_group gi)) groups).
Proof.
  intros H. assert (Hf : filter (fun e => p e = true) (map_of groups) = map_of (List.filter (fun gi => p (group_key_of gi, gi_group gi)) groups)).
  { apply map_eq. intros k. apply option_eq. intros g. rewrite map_lookup_filter_Some, !map_of_lookup by (done || by apply one_each_filter).
    setoid_rewrite elem_of_kept. naive_solver. }
  rewrite Hf. unfold map_of. rewrite map_size_list_to_map; [by rewrite length_fmap|]. rewrite <- list_fmap_compose. by apply one_each_filter.
Qed.

Lemma counted_in_counted group category gi : counted_in group category gi = counted_entry group category (group_key_of gi, gi_group gi).
Proof.
  unfold counted_in, counted_entry, group_key_of, same_name. cbn [fst snd]. f_equal. destruct category; [done|]. by destruct (default [] (gi_category gi)).
Qed.

(** C9: however groups are set, moved from a channel to another and discarded, the list of
    groups is a map from a channel and a category to a group: there is one entry for each,
    every operation changes the map the way it says, also if there is no memory, and a group
    is counted in a category as often as it is in the map. *)
Theorem groups_are_a_map ops op : let groups := foldl group_step [] ops in
  one_each groups /\
  (forall k, map_of (group_step groups op) !! k = group_after (map_of groups) op k) /\
  (forall group category, ast_app_group_get_count group category groups =
     if decide (group = []) then 0 else Z.of_nat (size (filter (fun e => counted_entry group category e = true) (map_of groups)))).
Proof.
  assert (H : forall groups, one_each groups -> one_each (foldl group_step groups ops)).
  { induction ops as [|o ops IH]; [done|]. intros groups Hg. by apply IH, group_step_one_each. }
  intros groups. assert (Hg : one_each groups) by (apply H; constructor). clear H. split; [done|]. split.
  - intros k. destruct op; cbn [group_step]; [by apply map_of_set|by apply map_of_update|by apply map_of_discard].
  - intros group category. unfold ast_app_group_get_count. destruct group; [done|]. cbn [decide]. rewrite map_of_filter by done. do 2 f_equal.
    apply filter_ext. intros gi. apply counted_in_counted.
Qed.

(** With no memory the group that a channel is in is lost. *)
Lemma no_memory_no_group :
  let groups := group_step [] (SetGroup true 1 (zs "sales@queue")) in
  ast_app_group_set_channel false 1 (zs "support@Queue") groups = (-1, []) /\ ast_app_group_get_count (zs "sales") (zs "queue") groups = 1.
Proof. split; reflexivity. Qed.

(** *** Menus

    [read_newoption] asks for the next digit as long as [option_matchmore] is not 0, which
    it is for the first option, and not for an option that goes on. *)
Lemma first_option_waits_for_nothing :
  option_matchmore [zs "12"; zs "s"] (zs "1") = 0 /\ read_newoption [zs "12"; zs "s"] [50] (zs "1") 80 = (0, zs "1") /\
  option_matchmore [zs "s"; zs "1"] (zs "1") = -1 /\ read_newoption [zs "s"; zs "1"] [50] (zs "1") 80 = (0, zs "12").
Proof. split_and!; reflexivity. Qed.
